(* ===== verification/_CoqProject ===== *)
-Q . S2P
Prelude.v
Sha.v
ShaConfigs.v
GigaIndex.v
Names.v
Links.v
MergeSort.v
Utlist.v
Lists.v
Uthash.v
HashTable.v
HashSort.v
HashSelect.v
HashFunctions.v
Trace.v
Pvfs.v
Rpc.v
Connection.v
MemFs.v
ConnProps.v
ServerCache.v
Split.v
Startup.v
Handlers.v
Balance.v
Placement.v
Reload.v
Directory.v
Splitting.v
Client.v
Listing.v
Routing.v
Serving.v
Online.v
Changes.v
Cluster.v
CacheThreads.v
SplitQueue.v
Mpi.v
Groups.v
ClientMain.v
ThreadTest.v
Benchmarks.v
Simul.v
Mdtest.v
MdtestTree.v
MdtestRuns.v
