(* ===== verification/Prelude.v ===== *)
(** * SkyeFS: a verification library

    SkyeFS is a file system that spreads each directory over the metadata servers of a
    PVFS installation with the GIGA+ scheme: a directory is a set of partitions, a file
    belongs to the partition that its name hashes to, and a partition that grows too large
    is split.  A FUSE client (src/client) sends its requests to the server that it
    believes holds the name; a server (src/server) that does not hold it answers EAGAIN
    with its newer picture of the partitions, and the client asks again.  The files of this
    library translate the C sources function by function and prove what makes them work.

    ** The program and the files

    - this file: machine integers, the outcomes of C code ([outcome], with a [crash] for
      each way not to return), state passing ([prog]) with weakest preconditions ([wp]), and
      the lemmas on bits, strings and lists that the other files share;
    - Sha.v: src/common/sha.c, the hash of file names, as the builds configure it; the
      specification of FIPS 180-1 beside it, and SHA1 proved equal to it for messages given
      in pieces; ShaConfigs.v: the other configurations of the file (unrolled loops, blocks
      in place, byte order);
    - GigaIndex.v: src/common/giga_index.c, mappings as bitmaps of partitions.  [Giga] is the
      code, [Tree] the abstract view: which partitions exist ([has]), which one owns a hash
      ([owner]), and what a well-formed mapping is ([wf_mapping]);
    - Names.v: the formats of the partition directories (p%05d);
    - Utlist.v, Lists.v: src/common/utlist.h, the lists (the queue of the split thread is one);
      Uthash.v, HashTable.v, HashSort.v, HashSelect.v, HashFunctions.v: src/common/uthash.h,
      the tables of the caches; both on stores with addresses, proved to be a list and a
      finite map.  Links.v has the chains of addresses they share, and MergeSort.v the sort
      that both headers contain, once, over an interface of list operations ([ops]);
    - Trace.v: src/common/trace.c, the message functions and their buffer;
    - Pvfs.v: what PVFS, the C library and the RPC stubs are to the program, as classes:
      [PvfsOps] are the calls, [PvfsSpec], [PvfsMakes], [PvfsFiles] and [PvfsPaths] their
      documented behaviour on the directories of an abstract view ([PvfsView]).  MemFs.v is an
      in-memory file system with all of it, on which the theorems are exercised;
    - Rpc.v: src/common/skye_rpc.x and skye_rpc_helper.c, the messages and their XDR
      routines; Connection.v, ConnProps.v: src/common/connection.c;
    - ServerCache.v: src/server/cache.c with the state of a server process ([server]):
      directories in a heap, with reference counts and locks; CacheThreads.v: the same
      functions as a machine of many threads, step by step;
    - Split.v: src/server/split.c; SplitQueue.v: its queue, mutex and condition as a machine
      of the handlers and the split thread; Handlers.v: src/server/handlers.c, every RPC of a
      server; Startup.v, Online.v: src/server/server.c and the init and destroy operations
      of src/client/client.c; ClientMain.v: main of the client;
    - Client.v: src/client/cache.c and operations.c, the FUSE operations; Listing.v: what
      opendir and readdir give to FUSE;
    - ThreadTest.v: src/util/threadtest.c, whose threads are a machine that a schedule drives;
      Benchmarks.v: src/util/gigabench.c, gigabench_ops.c and createthr.c;
    - Mpi.v: processes that send, receive, gather and meet at barriers, and why programs that
      synchronise alike never wait for ever; Simul.v: src/util/simul.c on it; Groups.v: the
      same for meetings of a part of the processes that exchange values; Mdtest.v:
      src/util/mdtest.c on it, MdtestTree.v: its directories and items, MdtestRuns.v: its runs;
    - Balance.v, Placement.v, Reload.v, Directory.v, Splitting.v, Serving.v, Changes.v,
      Routing.v and Cluster.v have no code of their own: they prove what the components do together.

    A C function is a definition of the same name.  A function that only computes is an
    [outcome]; one with state is a [prog] over the state of its process and the world
    outside.  Loops take fuel where their length is not in the data, and every theorem
    that a call returns says how much is enough: the entries of a directory over the size
    of a batch for the listings, the number of partitions (512, hence 513 calls) for the
    client's retries, the elements of a list or table for walks and sorts, the bound of [Spreads]
    for the directories that PVFS makes on a wrong server first, and in mdtest the depth of
    the tree and two, the number of a directory to climb from it, and the number of processes
    and two for the numbers of tasks.  A hash table is followed until it has 2^29 buckets,
    where the next doubling asks for 16 GiB; at 2^31 it overflows.

    ** What is proved

    - Hashing and mappings: SHA1 is FIPS 180-1 and incremental, its hexadecimal text
      reads back; a name's partition is the deepest one that covers its hash; mappings
      reachable by creation, splits and merges are well-formed trees; a split takes
      exactly the names that are told to migrate; servers and buckets number partitions
      uniquely; every configuration of the hash computes the same; with a partition of index 512 every lookup fails an assertion.
    - A directory in the file system: [placed] says that every file is in the partition
      that owns its name, [listed] what the directory holds.  The loop of a split moves
      exactly the migrating files, the whole of [do_split] terminates and keeps
      [placed] and [listed]; fetching a directory rebuilds its mapping from the listing; a
      lookup finds exactly the listed files, a create adds one file and nothing else, and
      what was created is found; a remove takes away one file, a rename gives one file
      another name, also across partitions, a mkdir makes a directory that is ready for
      use; the start of a server leaves the root placed; opening a directory collects the
      entries of all its partitions.
    - Requests: whatever PVFS and the peers answer, a handler gives back every lock,
      reference and semaphore unit it took, but for the exits that the theorem
      names; a misrouted request is refused with the mapping and changes nothing; the
      client's retries, also those of rename, end within 513 calls when no call fails, and
      against the handlers of a cluster they end with an answer unless a server is down or
      does not return.
    - Threads: in every schedule of the threads of a server the reference counts of the cache
      are right and no directory is used after it is freed, as long as none is destroyed
      between being found and being counted; the queue of the splits keeps its order, loses
      nothing and drains.
    - Data structures: the three kinds of lists are lists under every sequence of
      operations, and their sorts are stable sorts; a hash table is a finite map through
      the doublings of its buckets, its checker never objects, sorting it changes nothing
      but the order and selecting from it makes the table of the selected elements; all
      hash functions stay inside key and table, the two versions of the MurmurHash agree
      where the aligned one does not misread its tail, a Bloom filter hides no element;
      merging mappings is union; XDR decodes what it encoded.
    - Benchmarks: for every schedule of the creating threads and the listing one the locks
      exclude, the counter and the successful creations agree, and the threads come to their
      end; the statistics of a thread add up to its operations; the processes of simul and
      mdtest never wait for each other for ever, the check for a single success is right, and
      the phases of mdtest visit the same items in the tree they make and remove.
    - Start-up, connections and messages: an online server reaches every server, a client that
      came up shuts down, the connection string is parsed in bounds, a connection is closed once, messages above 1022 bytes overrun; main of
      the client gives back what it took on every path.

    ** What is not modelled

    Interleavings of threads inside a handler: in Handlers.v and Split.v a handler runs between
    its lock operations without interruption, a lock held by another thread is [Blocked], and
    [do_split] is split into the stretches in which it holds the lock.  CacheThreads.v and
    SplitQueue.v interleave the functions of the cache and the queue, with each macro of
    uthash.h as one step, although the source does not order the accesses inside them.  In
    ServerCache.v the array of partition handles goes with its directory; CacheThreads.v counts
    the arrays, which the code never frees.  HASH_SELECT reads a table whose elements keep both
    handles apart.  Times of the clock are answers of the environment, since they are
    doubles; the arithmetic of mdtest on doubles is a class of operations with laws
    ([DoubleLaws]).  MPI_Send is buffered.  Printed texts are abbreviated; signals, the FUSE
    session loop and the stubs that rpcgen generates are left out, and so is src/test, the
    test driver of another project. *)

From Stdlib Require Export ZArith Lia.
From stdpp Require Export base numbers list gmap strings option.
From Stdlib Require Import Btauto Ascii.

#[local] Open Scope Z_scope.

(** ** Fixed-width integers *)

(** The conversions of C: an unsigned type reduces modulo a power of two, the
    conversion to [int] keeps the low 32 bits in two's complement. *)
Definition u8 (x : Z) : Z := x mod 2 ^ 8.
Definition u32 (x : Z) : Z := x mod 2 ^ 32.
Definition u64 (x : Z) : Z := x mod 2 ^ 64.
Definition i32 (x : Z) : Z := (x + 2 ^ 31) mod 2 ^ 32 - 2 ^ 31.

(** ** Outcomes of C code *)

(** How a call can fail to return: a failed [assert], an access outside an
    object, a null dereference, undefined arithmetic, [exit], [abort], an access to
    freed memory, the release of a lock that is not held, the use of a variable that
    was never set, waiting for a lock that another thread holds, and a loop that is still running after the
    steps it was given. *)
Inductive crash : Type :=
| AssertFail
| OutOfBounds
| NullDeref
| ArithUB
| ProcessExit
| ProcessAbort
| UseAfterFree
| LockMisuse
| Uninitialised
| Blocked
| NoFuel.

#[export] Instance crash_eq_dec : EqDecision crash.
Proof. solve_decision. Defined.

Inductive outcome (A : Type) : Type :=
| Ret (a : A)
| Crash (c : crash).
Arguments Ret {A} a.
Arguments Crash {A} c.

#[export] Instance outcome_ret : MRet outcome := fun _ a => Ret a.
#[export] Instance outcome_bind : MBind outcome := fun _ _ f m =>
  match m with Ret a => f a | Crash c => Crash c end.

Definition c_assert (b : bool) : outcome unit :=
  if b then Ret tt else Crash AssertFail.

(** Signed [int] arithmetic: a result that does not fit is undefined. *)
Definition c_int (x : Z) : outcome Z :=
  if (-2 ^ 31 <=? x) && (x <? 2 ^ 31) then Ret x else Crash ArithUB.

(** [1 << n] at type [int]: defined when the bit is a value bit. *)
Definition c_one_shl (n : Z) : outcome Z :=
  if (0 <=? n) && (n <? 31) then Ret (Z.shiftl 1 n) else Crash ArithUB.

(** A read and a write of an array element. *)
Definition c_read {A} (l : list A) (i : Z) : outcome A :=
  if 0 <=? i then
    match l !! Z.to_nat i with Some x => Ret x | None => Crash OutOfBounds end
  else Crash OutOfBounds.

Definition c_write {A} (l : list A) (i : Z) (x : A) : outcome (list A) :=
  if (0 <=? i) && (i <? Z.of_nat (length l)) then Ret (<[Z.to_nat i := x]> l)
  else Crash OutOfBounds.

Lemma bind_Ret {A B} (a : A) (f : A -> outcome B) : (Ret a ≫= f) = f a.
Proof. reflexivity. Qed.

Lemma bind_Ret_inv {A B} (m : outcome A) (f : A -> outcome B) b :
  (m ≫= f) = Ret b -> exists a, m = Ret a /\ f a = Ret b.
Proof. destruct m as [a|c]; [by exists a|discriminate]. Qed.

Lemma c_assert_true b : b = true -> c_assert b = Ret tt.
Proof. by intros ->. Qed.

Lemma c_int_ok x : -2 ^ 31 <= x < 2 ^ 31 -> c_int x = Ret x.
Proof.
  intros H. unfold c_int.
  destruct (Z.leb_spec (-2 ^ 31) x), (Z.ltb_spec x (2 ^ 31)); simpl; try lia; done.
Qed.

Lemma c_one_shl_ok n : 0 <= n < 31 -> c_one_shl n = Ret (2 ^ n).
Proof.
  intros H. unfold c_one_shl.
  destruct (Z.leb_spec 0 n), (Z.ltb_spec n 31); simpl; try lia.
  by rewrite Z.shiftl_1_l.
Qed.

Lemma c_read_ok {A} (l : list A) i x :
  0 <= i -> l !! Z.to_nat i = Some x -> c_read l i = Ret x.
Proof.
  intros Hi Hx. unfold c_read. rewrite Hx. by destruct (Z.leb_spec 0 i); [|lia].
Qed.

Lemma c_read_inv {A} (l : list A) i x :
  c_read l i = Ret x -> 0 <= i /\ l !! Z.to_nat i = Some x.
Proof.
  unfold c_read. destruct (Z.leb_spec 0 i); [|discriminate].
  destruct (l !! Z.to_nat i) eqn:E; intros; simplify_eq; auto.
Qed.

Lemma c_read_in_range {A} (l : list A) i :
  0 <= i < Z.of_nat (length l) -> exists x, c_read l i = Ret x.
Proof.
  intros H. destruct (lookup_lt_is_Some_2 l (Z.to_nat i)) as [x Hx]; [lia|].
  exists x. apply c_read_ok; [lia|done].
Qed.

Lemma c_write_ok {A} (l : list A) i x :
  0 <= i < Z.of_nat (length l) -> c_write l i x = Ret (<[Z.to_nat i := x]> l).
Proof.
  intros H. unfold c_write.
  by destruct (Z.leb_spec 0 i), (Z.ltb_spec i (Z.of_nat (length l))); simpl; try lia.
Qed.

Lemma c_write_inv {A} (l l' : list A) i x :
  c_write l i x = Ret l' ->
  0 <= i < Z.of_nat (length l) /\ l' = <[Z.to_nat i := x]> l.
Proof.
  unfold c_write.
  destruct (Z.leb_spec 0 i), (Z.ltb_spec i (Z.of_nat (length l)));
    simpl; intros; simplify_eq; auto.
Qed.

(** ** State passing with crashes *)

(** Code that changes a process's state [S]; a crash ends the process, so it
    carries no state. *)
Definition prog (S A : Type) : Type := S -> outcome (A * S).

#[export] Instance prog_ret {S} : MRet (prog S) := fun _ a s => Ret (a, s).
#[export] Instance prog_bind {S} : MBind (prog S) := fun _ _ f m s =>
  match m s with Ret (a, s') => f a s' | Crash c => Crash c end.

Definition get_st {S} : prog S S := fun s => Ret (s, s).
Definition put_st {S} (s : S) : prog S unit := fun _ => Ret (tt, s).
Definition gets {S A} (f : S -> A) : prog S A := fun s => Ret (f s, s).
Definition modify {S} (f : S -> S) : prog S unit := fun s => Ret (tt, f s).
Definition crash_with {S A} (c : crash) : prog S A := fun _ => Crash c.
Definition lift {S A} (m : outcome A) : prog S A := fun s =>
  match m with Ret a => Ret (a, s) | Crash c => Crash c end.

Lemma prog_bind_Ret {S A B} (m : prog S A) (f : A -> prog S B) s a s' :
  m s = Ret (a, s') -> (m ≫= f) s = f a s'.
Proof. intros H. unfold mbind, prog_bind. by rewrite H. Qed.

Lemma prog_bind_inv {S A B} (m : prog S A) (f : A -> prog S B) s b s' :
  (m ≫= f) s = Ret (b, s') ->
  exists a s1, m s = Ret (a, s1) /\ f a s1 = Ret (b, s').
Proof.
  unfold mbind, prog_bind. destruct (m s) as [[a s1]|c]; [|discriminate].
  intros. by exists a, s1.
Qed.

(** Weakest preconditions: [m] returns to a state that satisfies [Q], or ends in a
    crash that [E] allows.  With [no_crash] it must return. *)
Definition wp {S A} (E : crash -> Prop) (m : prog S A) (Q : A -> S -> Prop) (s : S) : Prop :=
  match m s with Ret (a, s') => Q a s' | Crash c => E c end.

Definition no_crash (c : crash) : Prop := False.

Lemma wp_ret {S A} E (a : A) (Q : A -> S -> Prop) s : Q a s -> wp E (mret a) Q s.
Proof. done. Qed.

Lemma wp_bind {S A B} E (m : prog S A) (f : A -> prog S B) Q s :
  wp E m (fun a s' => wp E (f a) Q s') s -> wp E (m ≫= f) Q s.
Proof. unfold wp, mbind, prog_bind. by destruct (m s) as [[a s']|c]. Qed.

Lemma wp_bind_inv {S A B} E (m : prog S A) (f : A -> prog S B) Q s :
  wp E (m ≫= f) Q s -> wp E m (fun a s' => wp E (f a) Q s') s.
Proof. unfold wp, mbind, prog_bind. by destruct (m s) as [[a s']|c]. Qed.

Lemma wp_mono {S A} (E E' : crash -> Prop) (m : prog S A) (Q Q' : A -> S -> Prop) s :
  wp E m Q s -> (forall c, E c -> E' c) -> (forall a s', Q a s' -> Q' a s') -> wp E' m Q' s.
Proof. unfold wp. destruct (m s) as [[a s']|c]; auto. Qed.

Lemma wp_conseq {S A} E (m : prog S A) (Q Q' : A -> S -> Prop) s :
  wp E m Q s -> (forall a s', Q a s' -> Q' a s') -> wp E m Q' s.
Proof. intros H HQ. by apply (wp_mono E E m Q). Qed.

Lemma wp_lift {S A} E (m : outcome A) (Q : A -> S -> Prop) s :
  match m with Ret a => Q a s | Crash c => E c end -> wp E (lift m) Q s.
Proof. unfold wp, lift. by destruct m. Qed.

Lemma wp_run {S A} (m : prog S A) Q s :
  wp no_crash m Q s -> exists a s', m s = Ret (a, s') /\ Q a s'.
Proof. unfold wp. destruct (m s) as [[a s']|c]; [eauto|intros []]. Qed.

Lemma wp_Ret {S A} E (m : prog S A) (Q : A -> S -> Prop) s a s' :
  m s = Ret (a, s') -> Q a s' -> wp E m Q s.
Proof. unfold wp. by intros ->. Qed.

(** ** Bits *)

Lemma testbit_out p x i : 0 <= x < 2 ^ p -> 0 <= p <= i -> Z.testbit x i = false.
Proof.
  intros Hx Hp. rewrite <- (Z.mod_small x (2 ^ p)) by done.
  apply Z.mod_pow2_bits_high. lia.
Qed.

Lemma testbit_range p x :
  0 <= x -> 0 <= p -> (forall i, p <= i -> Z.testbit x i = false) -> x < 2 ^ p.
Proof.
  intros Hx Hp H. destruct (Z.lt_ge_cases x (2 ^ p)) as [|Hge]; [done|].
  assert (0 < 2 ^ p) by (apply Z.pow_pos_nonneg; lia).
  assert (p <= Z.log2 x) by (apply Z.log2_le_pow2; lia).
  specialize (H (Z.log2 x) ltac:(lia)). rewrite Z.bit_log2 in H by lia. done.
Qed.

Lemma land_range p x y : 0 <= x < 2 ^ p -> 0 <= p -> 0 <= Z.land x y < 2 ^ p.
Proof.
  intros Hx Hp. split; [apply Z.land_nonneg; lia|].
  apply testbit_range; [apply Z.land_nonneg; lia|lia|].
  intros i Hi. rewrite Z.land_spec, (testbit_out p x i) by lia. done.
Qed.

Lemma lor_range p x y :
  0 <= x < 2 ^ p -> 0 <= y < 2 ^ p -> 0 <= p -> 0 <= Z.lor x y < 2 ^ p.
Proof.
  intros Hx Hy Hp. split; [apply Z.lor_nonneg; lia|].
  apply testbit_range; [apply Z.lor_nonneg; lia|lia|].
  intros i Hi. by rewrite Z.lor_spec, (testbit_out p x i), (testbit_out p y i) by lia.
Qed.

Lemma lxor_range p x y :
  0 <= x < 2 ^ p -> 0 <= y < 2 ^ p -> 0 <= p -> 0 <= Z.lxor x y < 2 ^ p.
Proof.
  intros Hx Hy Hp. assert (0 <= Z.lxor x y) by (apply Z.lxor_nonneg; lia).
  split; [done|]. apply testbit_range; [lia|lia|].
  intros i Hi. by rewrite Z.lxor_spec, (testbit_out p x i), (testbit_out p y i) by lia.
Qed.

(** A high part whose low [n] bits are clear and a low part below 2^n. *)
Lemma lor_shiftl_add x y n :
  0 <= n -> 0 <= y < 2 ^ n -> Z.lor y (Z.shiftl x n) = y + x * 2 ^ n.
Proof.
  intros Hn Hy. rewrite <- Z.shiftl_mul_pow2 by lia.
  rewrite <- Z.add_lor_land.
  replace (Z.land y (Z.shiftl x n)) with 0; [lia|].
  symmetry. apply Z.bits_inj'. intros j Hj.
  rewrite Z.land_spec, Z.bits_0, Z.shiftl_spec by lia.
  destruct (Z.lt_ge_cases j n).
  - rewrite (Z.testbit_neg_r _ (j - n)) by lia. btauto.
  - by rewrite (testbit_out n y j) by lia.
Qed.

Lemma u8_range x : 0 <= u8 x < 2 ^ 8.
Proof. apply Z.mod_pos_bound. lia. Qed.
Lemma u32_range x : 0 <= u32 x < 2 ^ 32.
Proof. apply Z.mod_pos_bound. lia. Qed.
Lemma u64_range x : 0 <= u64 x < 2 ^ 64.
Proof. apply Z.mod_pos_bound. lia. Qed.

Lemma u8_small x : 0 <= x < 2 ^ 8 -> u8 x = x.
Proof. apply Z.mod_small. Qed.
Lemma u32_small x : 0 <= x < 2 ^ 32 -> u32 x = x.
Proof. apply Z.mod_small. Qed.
Lemma u64_small x : 0 <= x < 2 ^ 64 -> u64 x = x.
Proof. apply Z.mod_small. Qed.
Lemma i32_small x : -2 ^ 31 <= x < 2 ^ 31 -> i32 x = x.
Proof. intros. unfold i32. rewrite Z.mod_small; lia. Qed.

Lemma u32_testbit x i : 0 <= i -> Z.testbit (u32 x) i = (i <? 32) && Z.testbit x i.
Proof.
  intros Hi. unfold u32. destruct (Z.ltb_spec i 32); simpl.
  - by rewrite Z.mod_pow2_bits_low by lia.
  - by rewrite Z.mod_pow2_bits_high by lia.
Qed.

Lemma u8_testbit x i : 0 <= i -> Z.testbit (u8 x) i = (i <? 8) && Z.testbit x i.
Proof.
  intros Hi. unfold u8. destruct (Z.ltb_spec i 8); simpl.
  - by rewrite Z.mod_pow2_bits_low by lia.
  - by rewrite Z.mod_pow2_bits_high by lia.
Qed.

(** ** Bytes of a C string *)

Definition byte_of_ascii (a : Ascii.ascii) : Z := Z.of_N (Ascii.N_of_ascii a).

(** [(uint8_t star) s] for a string without its terminator. *)
Fixpoint bytes_of_string (s : string) : list Z :=
  match s with
  | EmptyString => []
  | String a s' => byte_of_ascii a :: bytes_of_string s'
  end.

Definition is_byte (x : Z) : Prop := 0 <= x < 256.

Lemma byte_of_ascii_range a : is_byte (byte_of_ascii a).
Proof.
  unfold is_byte, byte_of_ascii.
  destruct a as [[] [] [] [] [] [] [] []]; vm_compute; split; congruence.
Qed.

Lemma bytes_of_string_bytes s : Forall is_byte (bytes_of_string s).
Proof. induction s; simpl; constructor; auto using byte_of_ascii_range. Qed.

Lemma bytes_of_string_length s : length (bytes_of_string s) = String.length s.
Proof. induction s; simpl; congruence. Qed.

(** ** Strings of the C library *)

Module CString.

(** index and rindex: the offset of the first and of the last occurrence. *)
Fixpoint index (c : ascii) (s : string) : option nat :=
  match s with
  | EmptyString => None
  | String a s' => if decide (a = c) then Some O else S <$> index c s'
  end.

Fixpoint rindex (c : ascii) (s : string) : option nat :=
  match s with
  | EmptyString => None
  | String a s' =>
      match rindex c s' with
      | Some n => Some (S n)
      | None => if decide (a = c) then Some O else None
      end
  end.

Fixpoint skip (n : nat) (s : string) : string :=
  match n, s with
  | S n', String _ s' => skip n' s'
  | _, _ => s
  end.

(** strndup's copy: at most [n] characters. *)
Fixpoint firstn (n : nat) (s : string) : string :=
  match n, s with
  | S n', String a s' => String a (firstn n' s')
  | _, _ => EmptyString
  end.

Fixpoint count (c : ascii) (s : string) : nat :=
  match s with
  | EmptyString => O
  | String a s' => if decide (a = c) then S (count c s') else count c s'
  end.

(** The tokens that repeated strsep calls return: one more than separators. *)
Fixpoint strsep_all (c : ascii) (s : string) : list string :=
  match s with
  | EmptyString => [EmptyString]
  | String a s' =>
      if decide (a = c) then EmptyString :: strsep_all c s'
      else match strsep_all c s' with
           | tok :: toks => String a tok :: toks
           | [] => [String a EmptyString]
           end
  end.

End CString.

(** ** Lists *)

Lemma filter_all {A} (P : A -> Prop) `{!forall x, Decision (P x)} (l : list A) :
  Forall P l -> filter P l = l.
Proof. induction 1 as [|x l Hx _ IH]; [done|]. by rewrite filter_cons_True, IH. Qed.

Lemma filter_none {A} (P : A -> Prop) `{!forall x, Decision (P x)} (l : list A) :
  Forall (fun x => ~ P x) l -> filter P l = [].
Proof. induction 1 as [|x l Hx _ IH]; [done|]. by rewrite filter_cons_False. Qed.

Lemma Forall_sublist {A} (P : A -> Prop) (l k : list A) :
  l `sublist_of` k -> Forall P k -> Forall P l.
Proof. induction 1; intros Hk; [done|inversion Hk; auto..]. Qed.

Lemma elem_of_sublist {A} (x : A) (l k : list A) : l `sublist_of` k -> x ∈ l -> x ∈ k.
Proof.
  intros Hs Hx. assert (Hf : Forall (fun y => y ∈ k) l)
    by (eapply Forall_sublist; [exact Hs|]; by apply list.Forall_forall).
  rewrite list.Forall_forall in Hf. auto.
Qed.

(** ** Sums over a list, such as the threads of a machine *)

Definition sum_of {A} (f : A -> Z) (l : list A) : Z := foldr (fun x n => f x + n) 0 l.

Lemma sum_of_insert {A} (f : A -> Z) l i x y : l !! i = Some x -> sum_of f (<[i := y]> l) = sum_of f l - f x + f y.
Proof.
  unfold sum_of. revert i. induction l as [|z l IH]; intros [|i] Hx; try done.
  - injection Hx as ->. change (<[O := y]> (x :: l)) with (y :: l). cbn [foldr]. lia.
  - change (<[S i := y]> (z :: l)) with (z :: <[i := y]> l). cbn [foldr]. rewrite (IH i) by done. lia.
Qed.

Lemma sum_of_nonneg {A} (f : A -> Z) l : (forall x, 0 <= f x) -> 0 <= sum_of f l.
Proof. intros Hf. induction l as [|x l IH]; cbn [sum_of foldr]; [lia|]. specialize (Hf x). unfold sum_of in IH. lia. Qed.

Lemma sum_of_le {A} (f : A -> Z) l c : (forall x, f x <= c) -> sum_of f l <= c * Z.of_nat (length l).
Proof. intros Hf. induction l as [|x l IH]; cbn [sum_of foldr length]; [lia|]. specialize (Hf x). unfold sum_of in IH. lia. Qed.

Lemma sum_of_all {A} (f : A -> Z) l c : Forall (fun x => f x = c) l -> sum_of f l = c * Z.of_nat (length l).
Proof. induction 1 as [|x l Hx Hl IH]; cbn [sum_of foldr length]; [lia|]. unfold sum_of in IH. lia. Qed.

(** One term is at most the sum. *)
Lemma sum_of_lookup {A} (f : A -> Z) l i x : (forall x, 0 <= f x) -> l !! i = Some x -> f x <= sum_of f l.
Proof.
  intros Hf. revert i. induction l as [|y l IH]; intros [|i] Hx; try done; cbn [sum_of foldr].
  - injection Hx as ->. assert (H := sum_of_nonneg f l Hf). unfold sum_of in H. lia.
  - assert (H := IH i Hx). specialize (Hf y). unfold sum_of in H. lia.
Qed.

Lemma sum_of_lookup2 {A} (f : A -> Z) l i j x y : (forall x, 0 <= f x) -> i <> j -> l !! i = Some x -> l !! j = Some y ->
  f x + f y <= sum_of f l.
Proof.
  intros Hf. revert i j. induction l as [|z l IH]; intros i j Hij Hx Hy; [done|]. destruct i as [|i], j as [|j]; try done; cbn [sum_of foldr].
  - injection Hx as ->. assert (H := sum_of_lookup f l j y Hf Hy). unfold sum_of in H. lia.
  - injection Hy as ->. assert (H := sum_of_lookup f l i x Hf Hx). unfold sum_of in H. lia.
  - assert (H := IH i j ltac:(lia) Hx Hy). specialize (Hf z). unfold sum_of in H. lia.
Qed.

(** A positive sum has a positive term. *)
Lemma sum_of_pos {A} (f : A -> Z) l : 0 < sum_of f l -> exists i x, l !! i = Some x /\ 0 < f x.
Proof.
  induction l as [|x l IH]; cbn [sum_of foldr]; [lia|]. intros H. destruct (Z.ltb_spec 0 (f x)); [by exists O, x|].
  destruct IH as (i & y & Hy & Hp); [unfold sum_of; lia|]. by exists (S i), y.
Qed.

(** ** Automation *)

(** Facts about widths and outcomes that [eauto with skye] and
    [autorewrite with skye] use in every component. *)
Create HintDb skye.
#[export] Hint Resolve u8_range u32_range u64_range byte_of_ascii_range
  bytes_of_string_bytes : skye.
Create Rewrite HintDb skye.
#[export] Hint Rewrite @bind_Ret @length_app @length_insert @length_replicate
  @length_take @length_drop @length_fmap : skye.

(** Take apart a run that returned: every [bind] becomes its two halves. *)
Ltac run_inv :=
  repeat match goal with
  | H : (?m ≫= ?f) = Ret ?b |- _ =>
      let a := fresh "a" in let Ha := fresh "Hrun" in
      apply bind_Ret_inv in H as (a & Ha & H)
  | H : (?m ≫= ?f) ?s = Ret (?b, ?s') |- _ =>
      let a := fresh "a" in let s1 := fresh "st" in let Ha := fresh "Hrun" in
      apply prog_bind_inv in H as (a & s1 & Ha & H)
  | H : c_assert ?b = Ret _ |- _ => destruct b eqn:?; [clear H|discriminate H]
  | H : Ret _ = Ret _ |- _ => injection H as H; subst
  | H : Crash _ = Ret _ |- _ => discriminate H
  end.

(** Decide a bit equation after the bit operations are pushed inside. *)
Ltac bits :=
  apply Z.bits_inj'; intros ?i ?Hi;
  repeat first
    [ rewrite Z.land_spec | rewrite Z.lor_spec | rewrite Z.lxor_spec
    | rewrite Z.shiftl_spec by lia | rewrite Z.shiftr_spec by lia
    | rewrite u32_testbit by lia | rewrite u8_testbit by lia ].
