(* ===== verification/Sha.v ===== *)
(** * SHA-1 and hexadecimal text: common/sha.c

    [Sha1] translates the configuration the repository builds: neither
    [WORDS_BIGENDIAN], [RUNTIME_ENDIAN] nor [SHA1_FAST_COPY] is defined and
    [SHA1_UNROLL] is 20, on a little-endian machine where [long] has 64 bits.
    [Fips] is the hash of FIPS 180: padding, block parsing, message schedule
    and compression written from the standard's recurrences.  The theorems
    relate the two.  [Hex] translates the two conversions between bytes and
    lower-case hexadecimal text. *)

From S2P Require Import Prelude.
From Equations Require Import Equations.
From Stdlib Require Import Btauto.

#[local] Open Scope Z_scope.

(** ** Byte order *)

(** The bytes of a word in memory on a little-endian machine, and back. *)
Fixpoint le_bytes (n : nat) (x : Z) : list Z :=
  match n with
  | O => []
  | S n' => x mod 256 :: le_bytes n' (x / 256)
  end.

Fixpoint le_word (l : list Z) : Z :=
  match l with
  | [] => 0
  | b :: l' => b + 256 * le_word l'
  end.

(** Big-endian reading and writing, as the standard parses a message. *)
Definition be_bytes (n : nat) (x : Z) : list Z := reverse (le_bytes n x).
Definition be_word (l : list Z) : Z := le_word (reverse l).

Module Sha1.

Definition SHA1_HASH_SIZE : Z := 20.

(** struct _SHA1Context; [buffer] is the union seen as bytes. *)
Record SHA1Context : Type := mkSHA1Context {
  totalLength : Z;
  hash : list Z;
  bufferLength : Z;
  buffer : list Z
}.

Definition ROTL (x n : Z) : Z := Z.lor (u32 (Z.shiftl x n)) (Z.shiftr x (32 - n)).
Definition ROTR (x n : Z) : Z := Z.lor (Z.shiftr x n) (u32 (Z.shiftl x (32 - n))).

Definition F_0_19 (x y z : Z) : Z := Z.lxor z (Z.land x (Z.lxor y z)).
Definition F_20_39 (x y z : Z) : Z := Z.lxor (Z.lxor x y) z.
Definition F_40_59 (x y z : Z) : Z := Z.lor (Z.land x (Z.lor y z)) (Z.land y z).
Definition F_60_79 (x y z : Z) : Z := Z.lxor (Z.lxor x y) z.

Definition K_0_19 : Z := 0x5a827999.
Definition K_20_39 : Z := 0x6ed9eba1.
Definition K_40_59 : Z := 0x8f1bbcdc.
Definition K_60_79 : Z := 0xca62c1d6.

(** The five working variables a, b, c, d, e. *)
Definition vars : Type := (Z * Z * Z * Z * Z)%type.

(** One round; [w] is the word [W] points at.  The words are added as
    [uint32_t], the [long] constant widens the sum and the assignment to
    [temp] cuts it back to 32 bits. *)
Definition DO_ROUND (F : Z -> Z -> Z -> Z) (K : Z) (st : vars) (w : Z) : vars :=
  let '(a, b, c, d, e) := st in
  let temp := u32 (u32 (ROTL a 5 + F b c d + e + w) + K) in
  (temp, a, ROTL b 30, c, d).

Definition BYTESWAP (x : Z) : Z :=
  Z.lor (Z.land (ROTR x 8) 0xff00ff00) (Z.land (ROTL x 8) 0x00ff00ff).

Definition byteswap64 (x : Z) : Z :=
  let a := u32 (Z.shiftr x 32) in
  let b := u32 x in
  Z.lor (u64 (Z.shiftl (BYTESWAP b) 32)) (BYTESWAP a).

Definition padding : list Z := 0x80 :: replicate 63 0.

(** [SHA1Init] leaves the buffer as it finds it. *)
Definition SHA1Init (sc : SHA1Context) : SHA1Context :=
  {| totalLength := 0;
     hash := [0x67452301; 0xefcdab89; 0x98badcfe; 0x10325476; 0xc3d2e1f0];
     bufferLength := 0;
     buffer := buffer sc |}.

(** [cbuf] read as 32-bit words of the machine. *)
Fixpoint words_of_bytes (n : nat) (l : list Z) : list Z :=
  match n with
  | O => []
  | S n' => le_word (take 4 l) :: words_of_bytes n' (drop 4 l)
  end.

(** The loop that fills buf[16..79]: [t] is the index [W] points at, W3, W8,
    W14 and W16 trail it by their distance. *)
Fixpoint expand (n t : nat) (W : list Z) : list Z :=
  match n with
  | O => W
  | S n' =>
      let x := Z.lxor (Z.lxor (Z.lxor (nth (t - 3) W 0) (nth (t - 8) W 0))
                              (nth (t - 14) W 0)) (nth (t - 16) W 0) in
      expand n' (S t) (W ++ [ROTL x 1])
  end.

Definition schedule (cbuf : list Z) : list Z :=
  expand 64 16 (BYTESWAP <$> words_of_bytes 16 cbuf).

(** The eighty rounds, twenty with each function and constant. *)
Definition rounds (W : list Z) (st : vars) : vars :=
  let st := fold_left (DO_ROUND F_0_19 K_0_19) (take 20 W) st in
  let st := fold_left (DO_ROUND F_20_39 K_20_39) (take 20 (drop 20 W)) st in
  let st := fold_left (DO_ROUND F_40_59 K_40_59) (take 20 (drop 40 W)) st in
  fold_left (DO_ROUND F_60_79 K_60_79) (take 20 (drop 60 W)) st.

Definition SHA1Guts (sc : SHA1Context) (cbuf : list Z) : SHA1Context :=
  let h i := nth i (hash sc) 0 in
  let '(a, b, c, d, e) :=
    rounds (schedule cbuf) (h 0%nat, h 1%nat, h 2%nat, h 3%nat, h 4%nat) in
  {| totalLength := totalLength sc;
     hash := [u32 (h 0%nat + a); u32 (h 1%nat + b); u32 (h 2%nat + c);
              u32 (h 3%nat + d); u32 (h 4%nat + e)];
     bufferLength := bufferLength sc;
     buffer := buffer sc |}.

(** memcpy of [src] to [dst + off]. *)
Definition memcpy_at (dst : list Z) (off : nat) (src : list Z) : list Z :=
  take off dst ++ src ++ drop (off + length src) dst.

(** The body of the [while (len)] loop, on the bytes not yet copied. *)
Definition update_step (sc : SHA1Context) (data : list Z) : SHA1Context * list Z :=
  let bufferBytesLeft := u32 (64 - bufferLength sc) in
  let bytesToCopy :=
    if Z.of_nat (length data) <? bufferBytesLeft then Z.of_nat (length data)
    else bufferBytesLeft in
  let n := Z.to_nat bytesToCopy in
  let sc :=
    {| totalLength := u64 (totalLength sc + bytesToCopy * 8);
       hash := hash sc;
       bufferLength := u32 (bufferLength sc + bytesToCopy);
       buffer := memcpy_at (buffer sc) (Z.to_nat (bufferLength sc)) (take n data) |} in
  let sc :=
    if bufferLength sc =? 64 then
      let sc := SHA1Guts sc (buffer sc) in
      {| totalLength := totalLength sc; hash := hash sc; bufferLength := 0;
         buffer := buffer sc |}
    else sc in
  (sc, drop n data).

Fixpoint update_loop (fuel : nat) (sc : SHA1Context) (data : list Z)
  : outcome SHA1Context :=
  match data with
  | [] => Ret sc
  | _ =>
      match fuel with
      | O => Crash NoFuel
      | S fuel' => let '(sc, data) := update_step sc data in update_loop fuel' sc data
      end
  end.

(** [SHA1Update (sc, vdata, len)] on the [len] bytes of [vdata]; every turn of
    the loop copies at least one byte. *)
Definition SHA1Update (sc : SHA1Context) (data : list Z) : outcome SHA1Context :=
  update_loop (length data) sc data.

(** The digest bytes of the five words, most significant first. *)
Definition store_word (w : Z) : list Z :=
  [u8 (Z.shiftr w 24); u8 (Z.shiftr w 16); u8 (Z.shiftr w 8); u8 w].

Definition SHA1Final (sc : SHA1Context) : outcome (list Z) :=
  let bytesToPad := u32 (120 - bufferLength sc) in
  let bytesToPad := if 64 <? bytesToPad then u32 (bytesToPad - 64) else bytesToPad in
  let lengthPad := byteswap64 (totalLength sc) in
  sc ← SHA1Update sc (take (Z.to_nat bytesToPad) padding);
  sc ← SHA1Update sc (le_bytes 8 lengthPad);
  mret (concat (store_word <$> take 5 (hash sc))).

(** [junk] is what the stack holds where [shahash] puts its context. *)
Definition shahash (junk : SHA1Context) (str : list Z) : outcome (list Z) :=
  sc ← SHA1Update (SHA1Init junk) str;
  SHA1Final sc.

End Sha1.

Module Hex.

(** The two characters sprintf "%.2x" writes for a byte. *)
Definition hex_digit (d : Z) : Z := if d <? 10 then 48 + d else 97 + (d - 10).
Definition hex_byte (b : Z) : list Z := [hex_digit (b / 16); hex_digit (b mod 16)].

(** The bytes [binary2hex] stores from [hex] on, the final NUL included. *)
Definition binary2hex (buf : list Z) : list Z := concat (hex_byte <$> buf) ++ [0].

(** toupper in the C locale. *)
Definition toupper (c : Z) : Z := if (97 <=? c) && (c <=? 122) then c - 32 else c.

Definition _hex2binary (hex : Z) : Z :=
  let hex := toupper hex in
  u8 (if hex <=? 57 then hex - 48 else hex - (65 - 10)).

(** The loop of [hex2binary] over the [len] characters of [hex], two by two. *)
Fixpoint hex2binary (hex : list Z) : list Z :=
  match hex with
  | h :: l :: rest =>
      u8 (Z.lor (Z.shiftl (_hex2binary h) 4) (_hex2binary l)) :: hex2binary rest
  | _ => []
  end.

End Hex.

(** ** The hash of FIPS 180 *)

Module Fips.

Definition rotl (n x : Z) : Z := (x * 2 ^ n + x / 2 ^ (32 - n)) mod 2 ^ 32.

Definition Ch (x y z : Z) : Z := Z.lxor (Z.land x y) (Z.ldiff z x).
Definition Parity (x y z : Z) : Z := Z.lxor x (Z.lxor y z).
Definition Maj (x y z : Z) : Z :=
  Z.lxor (Z.land x y) (Z.lxor (Z.land x z) (Z.land y z)).

Definition f (t : nat) : Z -> Z -> Z -> Z :=
  if (t <? 20)%nat then Ch else if (t <? 40)%nat then Parity
  else if (t <? 60)%nat then Maj else Parity.

Definition K (t : nat) : Z :=
  if (t <? 20)%nat then 0x5a827999 else if (t <? 40)%nat then 0x6ed9eba1
  else if (t <? 60)%nat then 0x8f1bbcdc else 0xca62c1d6.

(** W(t) = M(t) for t < 16, and then
    W(t) = rotl 1 (W(t-3) xor W(t-8) xor W(t-14) xor W(t-16)). *)
Equations? W (M : list Z) (t : nat) : Z by wf t lt :=
  W M t with decide (t < 16)%nat => {
    | left _ => nth t M 0;
    | right _ => rotl 1 (Z.lxor (W M (t - 3)) (Z.lxor (W M (t - 8))
                          (Z.lxor (W M (t - 14)) (W M (t - 16)))))
  }.
Proof. all: lia. Qed.

Definition round (M : list Z) (st : Sha1.vars) (t : nat) : Sha1.vars :=
  let '(a, b, c, d, e) := st in
  ((rotl 5 a + f t b c d + e + K t + W M t) mod 2 ^ 32, a, rotl 30 b, c, d).

(** A block of 64 bytes as sixteen big-endian words. *)
Fixpoint parse (n : nat) (l : list Z) : list Z :=
  match n with O => [] | S n' => be_word (take 4 l) :: parse n' (drop 4 l) end.

Definition compress (H block : list Z) : list Z :=
  let h i := nth i H 0 in
  let '(a, b, c, d, e) :=
    fold_left (round (parse 16 block)) (seq 0 80)
              (h 0%nat, h 1%nat, h 2%nat, h 3%nat, h 4%nat) in
  [(h 0%nat + a) mod 2 ^ 32; (h 1%nat + b) mod 2 ^ 32; (h 2%nat + c) mod 2 ^ 32;
   (h 3%nat + d) mod 2 ^ 32; (h 4%nat + e) mod 2 ^ 32].

Definition H0 : list Z := [0x67452301; 0xefcdab89; 0x98badcfe; 0x10325476; 0xc3d2e1f0].

(** Fold the compression over the first [n] blocks. *)
Fixpoint absorb (n : nat) (H m : list Z) : list Z :=
  match n with O => H | S n' => absorb n' (compress H (take 64 m)) (drop 64 m) end.

Definition pad (m : list Z) : list Z :=
  m ++ [0x80] ++ replicate (Z.to_nat ((55 - Z.of_nat (length m)) mod 64)) 0
    ++ be_bytes 8 (8 * Z.of_nat (length m)).

Definition sha1 (m : list Z) : list Z :=
  concat (be_bytes 4 <$> absorb (length (pad m) / 64) H0 (pad m)).

End Fips.

(** ** Words and bytes *)

Section Words.

Lemma le_word_range l : Forall is_byte l -> 0 <= le_word l < 256 ^ Z.of_nat (length l).
Proof.
  unfold is_byte. induction 1 as [|b l Hb Hl IH]; simpl length; [simpl; lia|].
  rewrite Nat2Z.inj_succ, Z.pow_succ_r by lia. simpl le_word. lia.
Qed.

Lemma be_word_range l : Forall is_byte l -> 0 <= be_word l < 256 ^ Z.of_nat (length l).
Proof.
  intros. unfold be_word. rewrite <- (length_reverse l).
  by apply le_word_range, Forall_reverse.
Qed.

Lemma le_bytes_length n x : length (le_bytes n x) = n.
Proof. revert x; induction n; simpl; auto. Qed.

Lemma be_bytes_length n x : length (be_bytes n x) = n.
Proof. unfold be_bytes. by rewrite length_reverse, le_bytes_length. Qed.

Lemma le_bytes_bytes n x : Forall is_byte (le_bytes n x).
Proof.
  revert x; induction n; simpl; intros; constructor; auto.
  apply Z.mod_pos_bound. lia.
Qed.

Lemma le_bytes_lookup n x k :
  (k < n)%nat -> le_bytes n x !! k = Some (u8 (Z.shiftr x (8 * Z.of_nat k))).
Proof.
  revert x k; induction n as [|n IH]; intros x k Hk; [lia|]. destruct k as [|k]; simpl.
  - by rewrite Z.shiftr_0_r.
  - rewrite IH by lia. do 2 f_equal.
    rewrite !Z.shiftr_div_pow2, Z.div_div by lia. f_equal.
    change 256 with (2 ^ 8). rewrite <- Z.pow_add_r by lia. f_equal. lia.
Qed.

Lemma le_word_testbit l i :
  Forall is_byte l -> 0 <= i ->
  Z.testbit (le_word l) i = Z.testbit (nth (Z.to_nat (i / 8)) l 0) (i mod 8).
Proof.
  intros Hl. revert i. induction Hl as [|b l Hb Hl IH]; intros i Hi.
  { simpl. destruct (Z.to_nat (i / 8)); by rewrite !Z.testbit_0_l. }
  assert (le_word (b :: l) = Z.lor b (Z.shiftl (le_word l) 8)) as ->.
  { unfold is_byte in Hb. rewrite lor_shiftl_add by lia. simpl. lia. }
  rewrite Z.lor_spec, Z.shiftl_spec by lia.
  destruct (Z.lt_ge_cases i 8).
  - rewrite (Z.testbit_neg_r _ (i - 8)), orb_false_r by lia.
    rewrite Z.div_small, Z.mod_small by lia. done.
  - rewrite (testbit_out 8 b i) by (unfold is_byte in Hb; lia). simpl orb.
    rewrite IH by lia.
    replace i with (i - 8 + 1 * 8) at 3 4 by lia.
    rewrite Z.div_add, Z.mod_add by lia.
    replace (Z.to_nat ((i - 8) / 8 + 1)) with (S (Z.to_nat ((i - 8) / 8)))
      by (pose proof (Z.div_pos (i - 8) 8); lia).
    done.
Qed.

End Words.

Module Sha1Facts.
Import Sha1.

Lemma ROTL_range x n : 0 <= x < 2 ^ 32 -> 0 <= n <= 32 -> 0 <= ROTL x n < 2 ^ 32.
Proof.
  intros Hx Hn. unfold ROTL. apply lor_range; [apply u32_range| |lia].
  rewrite Z.shiftr_div_pow2 by lia. split; [apply Z.div_pos; lia|].
  apply Z.div_lt_upper_bound; [lia|]. assert (0 < 2 ^ (32 - n)) by lia. nia.
Qed.

Lemma ROTL_rotl x n : 0 <= x < 2 ^ 32 -> 0 < n < 32 -> ROTL x n = Fips.rotl n x.
Proof.
  intros Hx Hn. unfold ROTL, Fips.rotl, u32.
  rewrite Z.shiftl_mul_pow2, Z.shiftr_div_pow2 by lia.
  assert (E : 2 ^ 32 = 2 ^ (32 - n) * 2 ^ n) by (rewrite <- Z.pow_add_r; f_equal; lia).
  assert (Hm : (x * 2 ^ n) mod 2 ^ 32 = (x mod 2 ^ (32 - n)) * 2 ^ n).
  { rewrite E. apply Z.mul_mod_distr_r; lia. }
  assert (Hd : 0 <= x / 2 ^ (32 - n) < 2 ^ n).
  { split; [apply Z.div_pos; lia|]. apply Z.div_lt_upper_bound; nia. }
  assert (Hlow := Z.mod_pos_bound x (2 ^ (32 - n)) ltac:(lia)).
  rewrite Hm, <- Z.shiftl_mul_pow2, Z.lor_comm, lor_shiftl_add by lia.
  rewrite <- Zplus_mod_idemp_l, Hm, (Z.add_comm (x / _)). symmetry. apply Z.mod_small. nia.
Qed.

Lemma BYTESWAP_testbit x i :
  0 <= x < 2 ^ 32 -> 0 <= i < 32 ->
  Z.testbit (BYTESWAP x) i = Z.testbit x (8 * (3 - i / 8) + i mod 8).
Proof.
  intros Hx Hi. unfold BYTESWAP, ROTL, ROTR.
  rewrite !Z.lor_spec, !Z.land_spec, !Z.lor_spec.
  rewrite !u32_testbit, !Z.shiftr_spec, !Z.shiftl_spec by lia.
  assert (Hneg : forall j, j < 0 -> Z.testbit x j = false) by (intros; by apply Z.testbit_neg_r).
  assert (Hbig : forall j, 32 <= j -> Z.testbit x j = false)
    by (intros; apply (testbit_out 32); lia).
  rewrite <- (Z2Nat.id i) by lia. assert (Z.to_nat i < 32)%nat as Hn by lia.
  revert Hneg Hbig Hn. generalize (Z.testbit x) as f, (Z.to_nat i) as n.
  intros f n Hneg Hbig Hn.
  do 32 (destruct n as [|n];
    [ vm_compute;
      repeat match goal with |- context [f ?j] =>
        first [rewrite (Hneg j) by lia | rewrite (Hbig j) by lia | destruct (f j)] end;
      reflexivity |]).
  lia.
Qed.

Lemma BYTESWAP_range x : 0 <= x < 2 ^ 32 -> 0 <= BYTESWAP x < 2 ^ 32.
Proof.
  intros Hx. unfold BYTESWAP.
  apply lor_range; [rewrite Z.land_comm|rewrite Z.land_comm|lia]; apply land_range; lia.
Qed.

(** Swapping the little-endian reading of four bytes is the big-endian one. *)
Lemma BYTESWAP_be l :
  Forall is_byte l -> length l = 4%nat -> BYTESWAP (le_word l) = be_word l.
Proof.
  intros Hl Hlen.
  assert (Hr := le_word_range l Hl). rewrite Hlen in Hr. change (256 ^ _) with (2 ^ 32) in Hr.
  assert (Hr' := be_word_range l Hl). rewrite Hlen in Hr'. change (256 ^ _) with (2 ^ 32) in Hr'.
  apply Z.bits_inj'. intros i Hi. destruct (Z.lt_ge_cases i 32) as [Hlt|].
  2: { assert (Hb := BYTESWAP_range _ Hr). by rewrite !(testbit_out 32) by lia. }
  rewrite BYTESWAP_testbit by lia. unfold be_word.
  assert (Hd : 0 <= i / 8 < 4) by (split; [apply Z.div_pos|apply Z.div_lt_upper_bound]; lia).
  assert (Hm := Z.mod_pos_bound i 8 ltac:(lia)).
  rewrite !le_word_testbit by first [done | by apply Forall_reverse | lia].
  replace (8 * (3 - i / 8) + i mod 8) with (i mod 8 + (3 - i / 8) * 8) by lia.
  rewrite Z.div_add, Z.mod_add, (Z.div_small (i mod 8)), (Z.mod_small (i mod 8)) by lia.
  destruct l as [|b0 [|b1 [|b2 [|b3 [|]]]]]; try discriminate.
  assert (i / 8 = 0 \/ i / 8 = 1 \/ i / 8 = 2 \/ i / 8 = 3) as [-> | [-> | [-> | ->]]] by lia;
    reflexivity.
Qed.

Lemma byteswap64_testbit x i :
  0 <= x < 2 ^ 64 -> 0 <= i < 64 ->
  Z.testbit (byteswap64 x) i = Z.testbit x (8 * (7 - i / 8) + i mod 8).
Proof.
  intros Hx Hi. unfold byteswap64.
  assert (Hm := Z.mod_pos_bound i 8 ltac:(lia)). assert (Hdm := Z.div_mod i 8 ltac:(lia)).
  assert (Hb := BYTESWAP_range _ (u32_range (Z.shiftr x 32))).
  rewrite Z.lor_spec. unfold u64. rewrite Z.mod_pow2_bits_low by lia.
  rewrite Z.shiftl_spec by lia.
  destruct (Z.lt_ge_cases i 32).
  - rewrite Z.testbit_neg_r by lia. rewrite BYTESWAP_testbit by (auto with skye; lia).
    assert (i / 8 < 4) by (apply Z.div_lt_upper_bound; lia).
    rewrite u32_testbit, Z.shiftr_spec by lia.
    destruct (Z.ltb_spec (8 * (3 - i / 8) + i mod 8) 32); [|lia].
    simpl. f_equal. lia.
  - rewrite (testbit_out 32 (BYTESWAP (u32 (Z.shiftr x 32)))), orb_false_r by lia.
    rewrite BYTESWAP_testbit by (auto with skye; lia).
    assert (E1 : (i - 32) / 8 = i / 8 - 4).
    { replace (i - 32) with (i + (-4) * 8) by lia. rewrite Z.div_add by lia. lia. }
    assert (E2 : (i - 32) mod 8 = i mod 8).
    { replace (i - 32) with (i + (-4) * 8) by lia. by rewrite Z.mod_add by lia. }
    rewrite E1, E2, u32_testbit by lia.
    destruct (Z.ltb_spec (8 * (3 - (i / 8 - 4)) + i mod 8) 32); [|lia].
    simpl. f_equal. lia.
Qed.

(** A word whose bytes are those of [x] in the other order. *)
Lemma swapped_bytes n x y :
  (forall i, 0 <= i < 8 * Z.of_nat n -> Z.testbit y i = Z.testbit x (8 * (Z.of_nat n - 1 - i / 8) + i mod 8)) ->
  le_bytes n y = be_bytes n x.
Proof.
  intros Hxy. apply (list_eq_same_length _ _ n);
    [by rewrite be_bytes_length|by rewrite le_bytes_length|].
  intros k a b Hk Ha Hb. rewrite le_bytes_lookup in Ha by lia.
  unfold be_bytes in Hb. rewrite reverse_lookup in Hb by (rewrite le_bytes_length; lia).
  rewrite le_bytes_length, le_bytes_lookup in Hb by lia.
  injection Ha as <-. injection Hb as <-.
  apply Z.bits_inj'. intros i Hi. rewrite !u8_testbit by lia.
  destruct (Z.ltb_spec i 8); [|done]. rewrite !Z.shiftr_spec by lia. simpl.
  rewrite Hxy by lia. replace (i + 8 * Z.of_nat k) with (i + Z.of_nat k * 8) by lia.
  rewrite Z.div_add, Z.mod_add, (Z.div_small i), (Z.mod_small i) by lia. f_equal. lia.
Qed.

(** The memory of the swapped length is the length in big-endian order. *)
Lemma byteswap64_be x : 0 <= x < 2 ^ 64 -> le_bytes 8 (byteswap64 x) = be_bytes 8 x.
Proof. intros Hx. apply swapped_bytes. intros i Hi. by rewrite byteswap64_testbit by lia. Qed.

Lemma BYTESWAP_bytes w : 0 <= w < 2 ^ 32 -> le_bytes 4 (BYTESWAP w) = be_bytes 4 w.
Proof. intros Hw. apply swapped_bytes. intros i Hi. by rewrite BYTESWAP_testbit by lia. Qed.

(** ** Compression *)

Definition vars_ok (st : vars) : Prop :=
  let '(a, b, c, d, e) := st in
  0 <= a < 2 ^ 32 /\ 0 <= b < 2 ^ 32 /\ 0 <= c < 2 ^ 32 /\ 0 <= d < 2 ^ 32 /\ 0 <= e < 2 ^ 32.

Definition word_ok (x : Z) : Prop := 0 <= x < 2 ^ 32.

Lemma F_0_19_Ch x y z : F_0_19 x y z = Fips.Ch x y z.
Proof.
  unfold F_0_19, Fips.Ch. bits. rewrite Z.ldiff_spec. btauto.
Qed.

Lemma F_20_39_Parity x y z : F_20_39 x y z = Fips.Parity x y z.
Proof. unfold F_20_39, Fips.Parity. bits. btauto. Qed.

Lemma F_40_59_Maj x y z : F_40_59 x y z = Fips.Maj x y z.
Proof. unfold F_40_59, Fips.Maj. bits. btauto. Qed.

Lemma parse_words n l :
  Forall is_byte l -> (4 * n <= length l)%nat ->
  BYTESWAP <$> words_of_bytes n l = Fips.parse n l.
Proof.
  revert l; induction n as [|n IH]; intros l Hl Hn; [done|].
  cbn [words_of_bytes Fips.parse fmap list_fmap]. f_equal.
  - apply BYTESWAP_be; [by apply Forall_take|]. rewrite length_take. lia.
  - apply IH; [by apply Forall_drop|]. rewrite length_drop. lia.
Qed.

Lemma parse_ok n l :
  Forall is_byte l -> (4 * n <= length l)%nat -> Forall word_ok (Fips.parse n l).
Proof.
  revert l; induction n as [|n IH]; intros l Hl Hn; simpl; constructor.
  - assert (Hr := be_word_range (take 4 l) (Forall_take _ _ _ Hl)).
    rewrite length_take, Nat.min_l in Hr by lia. exact Hr.
  - apply IH; [by apply Forall_drop|]. rewrite length_drop. lia.
Qed.

Lemma parse_length n l : length (Fips.parse n l) = n.
Proof. revert l; induction n; simpl; auto. Qed.

Lemma W_lo M t : (t < 16)%nat -> Fips.W M t = nth t M 0.
Proof. intros. rewrite Fips.W_equation_1. by destruct (decide (t < 16)%nat); [|lia]. Qed.

Lemma W_hi M t : (16 <= t)%nat ->
  Fips.W M t = Fips.rotl 1 (Z.lxor (Fips.W M (t - 3)) (Z.lxor (Fips.W M (t - 8))
                             (Z.lxor (Fips.W M (t - 14)) (Fips.W M (t - 16))))).
Proof. intros. rewrite Fips.W_equation_1. by destruct (decide (t < 16)%nat); [lia|]. Qed.

Lemma W_ok M t : Forall word_ok M -> word_ok (Fips.W M t).
Proof.
  intros HM. destruct (Nat.lt_ge_cases t 16); [rewrite W_lo by done|rewrite W_hi by done].
  - destruct (nth_in_or_default t M 0) as [Hin| ->]; [|unfold word_ok; lia].
    rewrite List.Forall_forall in HM. by apply HM.
  - apply Z.mod_pos_bound. lia.
Qed.

Lemma expand_spec M n t (Ws : list Z) :
  Forall word_ok M -> (16 <= t)%nat -> Ws = Fips.W M <$> seq 0 t ->
  expand n t Ws = Fips.W M <$> seq 0 (t + n).
Proof.
  intros HM. revert t Ws. induction n as [|n IH]; intros t Ws Ht ->; simpl expand.
  - by rewrite Nat.add_0_r.
  - assert (Hnth : forall k, (k < t)%nat -> nth k (Fips.W M <$> seq 0 t) 0 = Fips.W M k).
    { intros k Hk. apply nth_lookup_Some. rewrite list_lookup_fmap, lookup_seq_lt by lia. done. }
    rewrite !Hnth by lia. rewrite <- Nat.add_succ_comm. apply IH; [lia|].
    rewrite seq_S, fmap_app. f_equal. simpl. f_equal.
    rewrite (W_hi M t) by lia.
    assert (Hw := fun k => W_ok M k HM). unfold word_ok in Hw.
    rewrite <- ROTL_rotl by (repeat apply lxor_range; auto; lia).
    f_equal. bits. btauto.
Qed.

Lemma schedule_spec cbuf :
  Forall is_byte cbuf -> (64 <= length cbuf)%nat ->
  schedule cbuf = Fips.W (Fips.parse 16 cbuf) <$> seq 0 80.
Proof.
  intros Hb Hl. unfold schedule. rewrite parse_words by (done || lia).
  apply expand_spec; [apply parse_ok; (done || lia)|done|].
  assert (Hlen := parse_length 16 cbuf).
  apply (list_eq_same_length _ _ 16); [by rewrite length_fmap, length_seq|done|].
  intros i x y Hi Hx Hy. rewrite list_lookup_fmap, lookup_seq_lt in Hy by lia.
  simpl in Hy. injection Hy as <-. rewrite W_lo by lia.
  symmetry. by apply nth_lookup_Some.
Qed.

(** Twenty rounds with one function and constant are rounds s .. s+19. *)
Lemma fold_rounds M F k s n st :
  Forall word_ok M -> vars_ok st ->
  (forall t, (s <= t < s + n)%nat -> forall x y z, F x y z = Fips.f t x y z) ->
  (forall t, (s <= t < s + n)%nat -> k = Fips.K t) ->
  fold_left (DO_ROUND F k) (Fips.W M <$> seq s n) st
    = fold_left (Fips.round M) (seq s n) st
  /\ vars_ok (fold_left (Fips.round M) (seq s n) st).
Proof.
  intros HM. revert s st. induction n as [|n IH]; intros s st Hst HF HK; [done|].
  cbn [seq fmap list_fmap fold_left].
  assert (E : DO_ROUND F k st (Fips.W M s) = Fips.round M st s).
  { destruct st as [[[[a b] c] d] e]. destruct Hst as (Ha & Hb & Hc & Hd & He).
    unfold DO_ROUND, Fips.round. rewrite !ROTL_rotl, (HF s), (HK s) by lia.
    unfold u32. rewrite Zplus_mod_idemp_l. do 5 f_equal. lia. }
  rewrite E. apply IH; [|intros; apply HF; lia|intros; apply HK; lia].
  destruct st as [[[[a b] c] d] e]. destruct Hst as (Ha & Hb & Hc & Hd & He).
  simpl. unfold Fips.rotl. repeat split; try lia; apply Z.mod_pos_bound; lia.
Qed.

(** The function and the constant of the group a round belongs to. *)
Ltac group_of :=
  intros; unfold Fips.f, Fips.K;
  repeat match goal with |- context [(?t <? ?n)%nat] => destruct (Nat.ltb_spec t n) end;
  try lia;
  first [reflexivity | apply F_0_19_Ch | apply F_20_39_Parity | apply F_40_59_Maj].

Lemma rounds_spec M st :
  Forall word_ok M -> vars_ok st ->
  rounds (Fips.W M <$> seq 0 80) st = fold_left (Fips.round M) (seq 0 80) st
  /\ vars_ok (rounds (Fips.W M <$> seq 0 80) st).
Proof.
  intros HM Hst. unfold rounds. cbv zeta. rewrite <- !fmap_drop, <- !fmap_take.
  change (take 20 (seq 0 80)) with (seq 0 20).
  change (take 20 (drop 20 (seq 0 80))) with (seq 20 20).
  change (take 20 (drop 40 (seq 0 80))) with (seq 40 20).
  change (take 20 (drop 60 (seq 0 80))) with (seq 60 20).
  change (seq 0 80) with (seq 0 20 ++ seq 20 20 ++ seq 40 20 ++ seq 60 20).
  rewrite !fold_left_app.
  destruct (fold_rounds M F_0_19 K_0_19 0 20 _ HM Hst
              ltac:(group_of) ltac:(group_of)) as [E1 H1].
  destruct (fold_rounds M F_20_39 K_20_39 20 20 _ HM H1
              ltac:(group_of) ltac:(group_of)) as [E2 H2].
  destruct (fold_rounds M F_40_59 K_40_59 40 20 _ HM H2
              ltac:(group_of) ltac:(group_of)) as [E3 H3].
  destruct (fold_rounds M F_60_79 K_60_79 60 20 _ HM H3
              ltac:(group_of) ltac:(group_of)) as [E4 H4].
  rewrite E1, E2, E3, E4. split; [reflexivity|exact H4].
Qed.

Definition hash_ok (H : list Z) : Prop := length H = 5%nat /\ Forall word_ok H.

Lemma compress_ok H block : hash_ok (Fips.compress H block).
Proof.
  unfold Fips.compress. destruct (fold_left _ _ _) as [[[[a b] c] d] e].
  split; [done|]. repeat constructor; try (apply Z.mod_pos_bound; lia).
Qed.

Lemma nth_word_ok H i : Forall word_ok H -> word_ok (nth i H 0).
Proof.
  intros HH. destruct (nth_in_or_default i H 0) as [Hin| ->]; [|unfold word_ok; lia].
  rewrite List.Forall_forall in HH. by apply HH.
Qed.

Lemma SHA1Guts_compress sc cbuf :
  hash_ok (hash sc) -> Forall is_byte cbuf -> (64 <= length cbuf)%nat ->
  SHA1Guts sc cbuf =
    {| totalLength := totalLength sc; hash := Fips.compress (hash sc) cbuf;
       bufferLength := bufferLength sc; buffer := buffer sc |}.
Proof.
  intros [_ Hh] Hb Hl. unfold SHA1Guts. rewrite schedule_spec by done.
  destruct (rounds_spec (Fips.parse 16 cbuf)
    (nth 0 (hash sc) 0, nth 1 (hash sc) 0, nth 2 (hash sc) 0,
     nth 3 (hash sc) 0, nth 4 (hash sc) 0)) as [E _].
  { apply parse_ok; [done|lia]. }
  { repeat split; apply nth_word_ok, Hh. }
  rewrite E. unfold Fips.compress. by destruct (fold_left _ _ _) as [[[[a b] c] d] e].
Qed.

(** ** Streaming *)

Lemma absorb_app n1 n2 H (m1 m2 : list Z) :
  length m1 = (64 * n1)%nat ->
  Fips.absorb (n1 + n2) H (m1 ++ m2) = Fips.absorb n2 (Fips.absorb n1 H m1) m2.
Proof.
  revert H m1. induction n1 as [|n1 IH]; intros H m1 Hl; simpl.
  { by rewrite (nil_length_inv m1) by lia. }
  rewrite take_app_le, drop_app_le by lia. apply IH. rewrite length_drop. lia.
Qed.

Lemma absorb_ok n H m : hash_ok H -> hash_ok (Fips.absorb n H m).
Proof. revert H m. induction n; simpl; auto using compress_ok. Qed.

Lemma H0_ok : hash_ok Fips.H0.
Proof. split; [done|]. repeat constructor; vm_compute; congruence. Qed.

(** The abstraction a context stands for: it has been fed [m], whose whole
    blocks are in the chaining value and whose rest is in the buffer. *)
Definition represents (sc : SHA1Context) (m : list Z) : Prop :=
  exists n full part,
    m = full ++ part /\ length full = (64 * n)%nat /\ (length part < 64)%nat /\
    Forall is_byte part /\
    hash sc = Fips.absorb n Fips.H0 full /\
    bufferLength sc = Z.of_nat (length part) /\
    length (buffer sc) = 64%nat /\ take (length part) (buffer sc) = part /\
    totalLength sc = u64 (8 * Z.of_nat (length m)).

Lemma memcpy_at_take (dst src : list Z) off :
  (off + length src <= length dst)%nat ->
  take (off + length src) (memcpy_at dst off src) = take off dst ++ src /\
  length (memcpy_at dst off src) = length dst.
Proof.
  intros H. unfold memcpy_at. split.
  - rewrite app_assoc, take_app_length'; [done|]. rewrite length_app, length_take. lia.
  - rewrite !length_app, length_take, length_drop. lia.
Qed.

(** One turn of the copy loop feeds the bytes it consumes. *)
Lemma update_step_represents sc m (data : list Z) :
  represents sc m -> Forall is_byte data -> data <> [] -> Z.of_nat (length data) < 2 ^ 32 ->
  exists k sc', update_step sc data = (sc', drop k data) /\ (0 < k <= length data)%nat /\
    represents sc' (m ++ take k data).
Proof.
  intros (n & full & part & -> & Hfull & Hpart & Hpb & Hh & Hbl & Hlen & Hbuf & Htot) Hd Hne Hd32.
  assert (0 < length data)%nat by (destruct data; [done|simpl; lia]).
  set (k := Nat.min (64 - length part) (length data)).
  assert (Hk : Z.to_nat (if Z.of_nat (length data) <? u32 (64 - bufferLength sc)
                 then Z.of_nat (length data) else u32 (64 - bufferLength sc)) = k
               /\ (if Z.of_nat (length data) <? u32 (64 - bufferLength sc)
                 then Z.of_nat (length data) else u32 (64 - bufferLength sc)) = Z.of_nat k).
  { rewrite Hbl, u32_small by lia.
    destruct (Z.ltb_spec (Z.of_nat (length data)) (64 - Z.of_nat (length part))); lia. }
  destruct Hk as [Hk1 Hk2]. unfold update_step. rewrite Hk1, Hk2, Hbl, Nat2Z.id. clear Hk1 Hk2.
  assert (Hlk : length (take k data) = k) by (rewrite length_take; lia).
  destruct (memcpy_at_take (buffer sc) (take k data) (length part)) as [Hmt Hml]; [lia|].
  rewrite Hlk, Hbuf in Hmt.
  assert (Hb' : Forall is_byte (part ++ take k data)) by (apply Forall_app; split; [done|by apply Forall_take]).
  assert (Htot' : u64 (totalLength sc + Z.of_nat k * 8)
                  = u64 (8 * Z.of_nat (length ((full ++ part) ++ take k data)))).
  { rewrite Htot. unfold u64. rewrite Zplus_mod_idemp_l. f_equal.
    rewrite (length_app (full ++ part)), Hlk. lia. }
  rewrite u32_small by lia. cbn [bufferLength hash totalLength buffer].
  exists k. destruct (Z.eqb_spec (Z.of_nat (length part) + Z.of_nat k) 64) as [E|E].
  - eexists. split; [reflexivity|]. split; [lia|].
    set (blk := memcpy_at (buffer sc) (length part) (take k data)) in *.
    replace (length part + k)%nat with 64%nat in Hmt by lia.
    rewrite take_ge in Hmt by lia.
    rewrite SHA1Guts_compress; cbn [bufferLength hash totalLength buffer].
    2: { rewrite Hh. apply absorb_ok, H0_ok. }
    2: { by rewrite Hmt. }
    2: lia.
    exists (S n), (full ++ part ++ take k data), [].
    cbn [bufferLength hash totalLength buffer].
    assert (Hl64 : length (part ++ take k data) = 64%nat) by (rewrite length_app; lia).
    split_and!; try done.
    + by rewrite app_nil_r, app_assoc.
    + rewrite length_app, Hl64. lia.
    + simpl; lia.
    + rewrite Hh. replace (S n) with (n + 1)%nat by lia. rewrite absorb_app by done.
      rewrite Hmt. simpl. by rewrite (take_ge (part ++ take k data)) by lia.
    + lia.
  - eexists. split; [reflexivity|]. split; [lia|].
    exists n, full, (part ++ take k data). cbn [bufferLength hash totalLength buffer].
    rewrite length_app, Hlk. split_and!; try done; try lia. by rewrite app_assoc.
Qed.

Lemma update_loop_represents fuel sc m (data : list Z) :
  represents sc m -> Forall is_byte data -> Z.of_nat (length data) < 2 ^ 32 ->
  (length data <= fuel)%nat ->
  exists sc', update_loop fuel sc data = Ret sc' /\ represents sc' (m ++ data).
Proof.
  revert sc m data. induction fuel as [|fuel IH]; intros sc m data Hr Hb Hl Hf.
  - destruct data; [|simpl in Hf; lia]. exists sc. by rewrite app_nil_r.
  - destruct data as [|x data]; [exists sc; by rewrite app_nil_r|].
    destruct (update_step_represents sc m (x :: data)) as (k & sc' & E & Hk & Hr'); auto.
    cbn [update_loop]. rewrite E.
    destruct (IH sc' (m ++ take k (x :: data)) (drop k (x :: data))) as (sc'' & E' & Hr'').
    + done.
    + by apply Forall_drop.
    + rewrite length_drop. lia.
    + rewrite length_drop. lia.
    + exists sc''. split; [done|]. by rewrite <- app_assoc, take_drop in Hr''.
Qed.

Lemma SHA1Update_represents sc m data :
  represents sc m -> Forall is_byte data -> Z.of_nat (length data) < 2 ^ 32 ->
  exists sc', SHA1Update sc data = Ret sc' /\ represents sc' (m ++ data).
Proof. intros. by apply update_loop_represents. Qed.

Lemma SHA1Init_represents junk :
  length (buffer junk) = 64%nat -> represents (SHA1Init junk) [].
Proof. intros. exists 0%nat, [], []. split_and!; try done; simpl; lia. Qed.

(** The padding [SHA1Final] adds is the standard's. *)
Lemma pad_eq (m : list Z) bl :
  bl = Z.of_nat (length m) mod 64 ->
  let n := u32 (120 - bl) in
  let n := if 64 <? n then u32 (n - 64) else n in
  take (Z.to_nat n) padding
    = [0x80] ++ replicate (Z.to_nat ((55 - Z.of_nat (length m)) mod 64)) 0.
Proof.
  intros Hbl. assert (H := Z.mod_pos_bound (Z.of_nat (length m)) 64 ltac:(lia)).
  rewrite (u32_small (120 - bl)) by lia. cbv zeta.
  assert (E : (55 - Z.of_nat (length m)) mod 64 = (55 - bl) mod 64)
    by (rewrite Hbl; by rewrite Zminus_mod_idemp_r).
  rewrite E. destruct (Z.ltb_spec 64 (120 - bl)).
  - rewrite u32_small, (Z.mod_small (55 - bl)) by lia.
    replace (Z.to_nat (120 - bl - 64)) with (S (Z.to_nat (55 - bl))) by lia.
    change (take (S ?a) padding) with (0x80 :: take a (replicate 63 0)).
    rewrite take_replicate. simpl app. do 2 f_equal. lia.
  - replace (55 - bl) with ((119 - bl) + (-1) * 64) by lia.
    rewrite Z.mod_add, (Z.mod_small (119 - bl)) by lia.
    replace (Z.to_nat (120 - bl)) with (S (Z.to_nat (119 - bl))) by lia.
    change (take (S ?a) padding) with (0x80 :: take a (replicate 63 0)).
    rewrite take_replicate. simpl app. do 2 f_equal. lia.
Qed.

Lemma store_word_be w : word_ok w -> store_word w = be_bytes 4 w.
Proof.
  intros _. unfold store_word, be_bytes, u8. cbn [le_bytes].
  rewrite !Z.shiftr_div_pow2, !Z.div_div by lia. reflexivity.
Qed.

Lemma padded_length (m : list Z) : exists n, length (Fips.pad m) = (64 * n)%nat.
Proof.
  unfold Fips.pad. rewrite !length_app, length_replicate, be_bytes_length. simpl length.
  set (l := Z.of_nat (length m)).
  assert (E : l + 1 + (55 - l) mod 64 + 8 = 64 * ((l + 8) / 64 + 1)).
  { assert (H1 := Z.div_mod (l + 8) 64 ltac:(lia)).
    assert ((55 - l) mod 64 = 63 - (l + 8) mod 64); [|lia].
    assert (H2 := Z.mod_pos_bound (l + 8) 64 ltac:(lia)).
    symmetry. apply (Z.mod_unique _ _ (- ((l + 8) / 64))); lia. }
  exists (Z.to_nat ((l + 8) / 64 + 1)).
  assert (0 <= (l + 8) / 64) by (apply Z.div_pos; lia).
  assert (0 <= (55 - l) mod 64) by (apply Z.mod_pos_bound; lia). lia.
Qed.

Lemma represents_mod sc m : represents sc m -> bufferLength sc = Z.of_nat (length m) mod 64.
Proof.
  intros (n & full & part & Em & Hfull & Hpart & Hpb & Hh & Hbl & Hlen & Hbuf & Htot).
  rewrite Hbl, Em, length_app, Hfull.
  replace (Z.of_nat (64 * n + length part)) with (Z.of_nat (length part) + Z.of_nat n * 64) by lia.
  rewrite Z.mod_add, Z.mod_small by lia. done.
Qed.

(** The chaining value of a context that was fed whole blocks. *)
Lemma padded_hash sc m : represents sc (Fips.pad m) ->
  hash sc = Fips.absorb (length (Fips.pad m) / 64) Fips.H0 (Fips.pad m) /\ hash_ok (hash sc).
Proof.
  intros (n2 & full2 & part2 & E2 & Hf2 & Hp2 & _ & Hh2 & _).
  destruct (padded_length m) as [q Hq].
  assert (length part2 = 0%nat) as Hp0.
  { assert (Hl := f_equal length E2). rewrite length_app, Hq, Hf2 in Hl. lia. }
  apply nil_length_inv in Hp0. subst part2. rewrite app_nil_r in E2. subst full2.
  rewrite Hf2, Nat.mul_comm, Nat.div_mul by lia. rewrite Hh2. split; [done|]. apply absorb_ok, H0_ok.
Qed.

(** The bytes that SHA1Final feeds before the length. *)
Lemma pad_bytes z : (z < 64)%nat -> Forall is_byte ([0x80] ++ replicate z 0) /\ Z.of_nat (length ([0x80] ++ replicate z 0)) < 2 ^ 32.
Proof.
  intros Hz. simpl. split; [constructor; [unfold is_byte; lia|]; apply Forall_replicate; unfold is_byte; lia|].
  rewrite length_replicate. lia.
Qed.

Lemma SHA1Final_spec sc m :
  represents sc m -> 8 * Z.of_nat (length m) < 2 ^ 64 ->
  SHA1Final sc = Ret (Fips.sha1 m).
Proof.
  intros Hr Hm. unfold SHA1Final. rewrite (pad_eq m) by by apply represents_mod. set (z := Z.to_nat _).
  assert (Hz : (z < 64)%nat).
  { subst z. assert (H := Z.mod_pos_bound (55 - Z.of_nat (length m)) 64 ltac:(lia)). lia. }
  destruct (pad_bytes z Hz) as [Hpb Hpl].
  destruct (SHA1Update_represents sc m ([0x80] ++ replicate z 0)) as (sc1 & -> & Hr1); [done..|].
  assert (Htot : totalLength sc = u64 (8 * Z.of_nat (length m))) by (by destruct Hr as (? & ? & ? & ? & ? & ? & ? & ? & ? & ? & ? & Htot)).
  cbn [mbind outcome_bind]. rewrite Htot, u64_small by lia. rewrite byteswap64_be by lia.
  destruct (SHA1Update_represents sc1 _ (be_bytes 8 (8 * Z.of_nat (length m))) Hr1)
    as (sc2 & -> & Hr2).
  { unfold be_bytes. apply Forall_reverse, le_bytes_bytes. }
  { rewrite be_bytes_length. lia. }
  cbn [mbind outcome_bind mret outcome_ret]. f_equal.
  rewrite <- !app_assoc in Hr2. fold (Fips.pad m) in Hr2. destruct (padded_hash sc2 m Hr2) as [Hh2 [Hok5 Hokw]].
  unfold Fips.sha1. rewrite <- Hh2, take_ge by lia. f_equal. apply list_fmap_ext.
  intros i x Hx. apply store_word_be. by eapply Forall_lookup_1.
Qed.

Lemma shahash_spec junk msg :
  length (buffer junk) = 64%nat -> Forall is_byte msg -> Z.of_nat (length msg) < 2 ^ 32 ->
  shahash junk msg = Ret (Fips.sha1 msg).
Proof.
  intros Hj Hb Hl. unfold shahash.
  destruct (SHA1Update_represents (SHA1Init junk) [] msg) as (sc & -> & Hr);
    [by apply SHA1Init_represents|done|done|].
  cbn [mbind outcome_bind]. apply SHA1Final_spec; [done|]. simpl. lia.
Qed.

Lemma concat_be_bytes_length (H : list Z) :
  length (concat (be_bytes 4 <$> H)) = (4 * length H)%nat.
Proof.
  induction H as [|w H IH]; [done|]. cbn [fmap list_fmap concat length].
  rewrite length_app, be_bytes_length, IH. lia.
Qed.

Lemma sha1_length m : length (Fips.sha1 m) = 20%nat.
Proof.
  unfold Fips.sha1. rewrite concat_be_bytes_length.
  by destruct (absorb_ok (length (Fips.pad m) / 64) _ (Fips.pad m) H0_ok) as [-> _].
Qed.

Lemma sha1_bytes m : Forall is_byte (Fips.sha1 m).
Proof.
  unfold Fips.sha1. apply Forall_concat, Forall_fmap, Forall_true. intros w.
  simpl. unfold be_bytes. apply Forall_reverse, le_bytes_bytes.
Qed.

(** Feed a list of chunks one after the other. *)
Fixpoint feed (sc : SHA1Context) (chunks : list (list Z)) : outcome SHA1Context :=
  match chunks with
  | [] => Ret sc
  | c :: rest => sc ← SHA1Update sc c; feed sc rest
  end.

Lemma feed_represents sc m chunks :
  represents sc m ->
  Forall (fun c => Forall is_byte c /\ Z.of_nat (length c) < 2 ^ 32) chunks ->
  exists sc', feed sc chunks = Ret sc' /\ represents sc' (m ++ concat chunks).
Proof.
  intros Hr Hc. revert sc m Hr. induction Hc as [|c rest [Hb Hl] Hc IH]; intros sc m Hr.
  - exists sc. by rewrite app_nil_r.
  - destruct (SHA1Update_represents sc m c Hr Hb Hl) as (sc1 & E & Hr1).
    destruct (IH _ _ Hr1) as (sc2 & E2 & Hr2). exists sc2. cbn [feed]. rewrite E.
    split; [exact E2|]. by rewrite <- app_assoc in Hr2.
Qed.

End Sha1Facts.

Module HexFacts.
Import Hex.

Lemma hex_digit_back d : 0 <= d < 16 -> _hex2binary (hex_digit d) = d.
Proof.
  intros H. rewrite <- (Z2Nat.id d) by lia. assert (Z.to_nat d < 16)%nat as Hn by lia.
  revert Hn. generalize (Z.to_nat d) as n. intros n Hn.
  do 16 (destruct n as [|n]; [reflexivity|]). lia.
Qed.

Lemma hex_byte_back b rest :
  is_byte b -> hex2binary (hex_byte b ++ rest) = b :: hex2binary rest.
Proof.
  intros Hb. unfold is_byte in Hb. unfold hex_byte. cbn [app hex2binary].
  assert (Hm := Z.mod_pos_bound b 16 ltac:(lia)).
  assert (Hd : 0 <= b / 16 < 16) by (split; [apply Z.div_pos|apply Z.div_lt_upper_bound]; lia).
  rewrite !hex_digit_back, Z.lor_comm, lor_shiftl_add by lia.
  assert (E := Z.div_mod b 16 ltac:(lia)). rewrite u8_small by lia. f_equal. lia.
Qed.

Lemma hex2binary_concat buf rest :
  Forall is_byte buf ->
  hex2binary (concat (hex_byte <$> buf) ++ rest) = buf ++ hex2binary rest.
Proof.
  induction 1 as [|b buf Hb Hbuf IH]; [done|].
  cbn [fmap list_fmap concat]. rewrite <- app_assoc, hex_byte_back by done. simpl. by rewrite IH.
Qed.

Lemma hex_text_length (buf : list Z) : length (concat (hex_byte <$> buf)) = (2 * length buf)%nat.
Proof.
  induction buf as [|b buf IH]; [done|]. cbn [fmap list_fmap concat length].
  rewrite length_app, IH. simpl. lia.
Qed.

End HexFacts.

(** ** Properties of the hash *)

Section ShaProperties.

(** C36 The digest [shahash] computes is the SHA-1 of FIPS 180, for every message
    shorter than 2^32 bytes and whatever the stack held where the context was
    allocated: the uninitialised buffer never reaches the result, and the copy
    loops terminate. *)
Theorem shahash_is_sha1 (junk : Sha1.SHA1Context) (msg : list Z)
  (Hjunk : length (Sha1.buffer junk) = 64%nat) (Hmsg : Forall is_byte msg)
  (Hlen : Z.of_nat (length msg) < 2 ^ 32) :
  Sha1.shahash junk msg = Ret (Fips.sha1 msg).
Proof. by apply Sha1Facts.shahash_spec. Qed.

Lemma shahash_is_sha1_witness :
  Sha1.shahash (Sha1.mkSHA1Context 7 [1] 3 (replicate 64 99)) (bytes_of_string "abc")
    = Ret (Fips.sha1 (bytes_of_string "abc")) /\
  Sha1.shahash (Sha1.mkSHA1Context 7 [1] 3 (replicate 64 99)) (bytes_of_string "abc")
    = Ret [0xa9;0x99;0x3e;0x36; 0x47;0x06;0x81;0x6a; 0xba;0x3e;0x25;0x71;
           0x78;0x50;0xc2;0x6c; 0x9c;0xd0;0xd8;0x9d].
Proof.
  split; [|vm_compute; reflexivity].
  apply shahash_is_sha1; [reflexivity|apply bytes_of_string_bytes|vm_compute; reflexivity].
Defined.

(** Feeding a message in pieces of any sizes through [SHA1Update] gives, after
    [SHA1Final], the hash of the concatenation (total length below 2^61 bytes):
    block boundaries inside a piece are invisible. *)
Theorem sha1_incremental (junk : Sha1.SHA1Context) (chunks : list (list Z))
  (Hjunk : length (Sha1.buffer junk) = 64%nat)
  (Hchunks : Forall (fun c => Forall is_byte c /\ Z.of_nat (length c) < 2 ^ 32) chunks)
  (Hlen : 8 * Z.of_nat (length (concat chunks)) < 2 ^ 64) :
  (sc ← Sha1Facts.feed (Sha1.SHA1Init junk) chunks; Sha1.SHA1Final sc)
    = Ret (Fips.sha1 (concat chunks)).
Proof.
  destruct (Sha1Facts.feed_represents (Sha1.SHA1Init junk) [] chunks) as (sc & E & Hr);
    [by apply Sha1Facts.SHA1Init_represents|done|].
  rewrite E. by apply Sha1Facts.SHA1Final_spec.
Qed.

Lemma sha1_incremental_witness :
  (sc ← Sha1Facts.feed (Sha1.SHA1Init (Sha1.mkSHA1Context 7 [1] 3 (replicate 64 99)))
          [bytes_of_string "a"; []; bytes_of_string "bc"]; Sha1.SHA1Final sc)
    = Ret (Fips.sha1 (bytes_of_string "abc")).
Proof.
  apply (sha1_incremental (Sha1.mkSHA1Context 7 [1] 3 (replicate 64 99))
           [bytes_of_string "a"; []; bytes_of_string "bc"]); [reflexivity| |vm_compute; reflexivity].
  repeat constructor; vm_compute; congruence.
Defined.

(** The text [binary2hex] writes is read back by [hex2binary] as the bytes it
    came from: the 40 characters of a digest determine its 20 bytes. *)
Theorem hex_roundtrip (buf : list Z) (Hbuf : Forall is_byte buf) :
  Hex.hex2binary (take (2 * length buf) (Hex.binary2hex buf)) = buf.
Proof.
  unfold Hex.binary2hex. rewrite take_app_length' by (by rewrite HexFacts.hex_text_length).
  rewrite <- (app_nil_r (concat _)), HexFacts.hex2binary_concat by done.
  apply app_nil_r.
Qed.

Lemma hex_roundtrip_witness :
  Hex.hex2binary (take 6 (Hex.binary2hex [0; 171; 255])) = [0; 171; 255].
Proof. apply (hex_roundtrip [0; 171; 255]). repeat constructor; vm_compute; congruence. Defined.

End ShaProperties.
