(* ===== verification/ShaConfigs.v ===== *)
(** * The other configurations of common/sha.c

    The code has macros for big-endian machines, for machines whose byte order is found at
    run time, for six degrees of unrolling and for copies of whole words.  Sha.v translates
    what the repository builds.  [ShaConfigs] translates the code for every choice of the
    macros, on a machine of either byte order, with the burning of the stack and the test
    program of [SHA1_TEST].  The theorems relate all of them to Sha.v. *)

From S2P Require Import Prelude Sha.

#[local] Open Scope Z_scope.

Module ShaConfigs.
Import Sha1.

(** The values of SHA1_UNROLL that compile. *)
Inductive unrolling : Type := Unroll1 | Unroll2 | Unroll4 | Unroll5 | Unroll10 | Unroll20.

(** The macros. *)
Record config : Type := mkConfig {
  runtime_endian : bool;
  words_bigendian : bool;
  fast_copy : bool;
  unroll : unrolling
}.

(** *** Rounds *)

(** The working variables and what is left of [buf] from [W] on. *)
Definition next_round (F : Z -> Z -> Z -> Z) (K : Z) (p : vars * list Z) : outcome (vars * list Z) :=
  match p.2 with
  | w :: W => Ret (DO_ROUND F K p.1 w, W)
  | [] => Crash OutOfBounds
  end.

(** A loop body of [per] DO_ROUNDs, and the loop around it. *)
Fixpoint body (per : nat) (F : Z -> Z -> Z -> Z) (K : Z) (p : vars * list Z) : outcome (vars * list Z) :=
  match per with O => Ret p | S n => p ← next_round F K p; body n F K p end.

Fixpoint loop (turns per : nat) (F : Z -> Z -> Z -> Z) (K : Z) (p : vars * list Z) : outcome (vars * list Z) :=
  match turns with O => Ret p | S n => p ← body per F K p; loop n per F K p end.

Definition four_loops (turns per : nat) (W : list Z) (st : vars) : outcome vars :=
  p ← loop turns per F_0_19 K_0_19 (st, W);
  p ← loop turns per F_20_39 K_20_39 p;
  p ← loop turns per F_40_59 K_40_59 p;
  p ← loop turns per F_60_79 K_60_79 p;
  Ret p.1.

Definition rounds_1 : list Z -> vars -> outcome vars := four_loops 20 1.
Definition rounds_2 : list Z -> vars -> outcome vars := four_loops 10 2.
Definition rounds_4 : list Z -> vars -> outcome vars := four_loops 5 4.
Definition rounds_5 : list Z -> vars -> outcome vars := four_loops 4 5.
Definition rounds_10 : list Z -> vars -> outcome vars := four_loops 2 10.
Definition rounds_20 : list Z -> vars -> outcome vars := four_loops 1 20.

Definition unrolled (u : unrolling) : list Z -> vars -> outcome vars :=
  match u with
  | Unroll1 => rounds_1
  | Unroll2 => rounds_2
  | Unroll4 => rounds_4
  | Unroll5 => rounds_5
  | Unroll10 => rounds_10
  | Unroll20 => rounds_20
  end.

(** *** Byte order *)

(** How the machine stores and reads a word; [big] tells its byte order. *)
Definition store_bytes (big : bool) (n : nat) (x : Z) : list Z := if big then be_bytes n x else le_bytes n x.
Definition load_word (big : bool) (l : list Z) : Z := if big then be_word l else le_word l.
Fixpoint load_words (big : bool) (n : nat) (l : list Z) : list Z :=
  match n with O => [] | S n' => load_word big (take 4 l) :: load_words big n' (drop 4 l) end.

(** The first byte of a word of value one. *)
Definition setEndian (big : bool) : bool :=
  match store_bytes big 4 1 with b :: _ => negb (b =? 0) | [] => false end.

(** _byteswap and _byteswap64 with the byte order as an argument. *)
Definition byteswap_runtime (littleEndian : bool) (x : Z) : Z := if negb littleEndian then x else BYTESWAP x.
Definition byteswap64_runtime (littleEndian : bool) (x : Z) : Z := if negb littleEndian then x else byteswap64 x.

(** *** The context *)

(** struct _SHA1Context with the field of RUNTIME_ENDIAN. *)
Record context : Type := mkContext { base : SHA1Context; littleEndian : bool }.

Section Config.
Variable big : bool.
Variable c : config.

Definition byteswap (le : bool) (x : Z) : Z :=
  if runtime_endian c then byteswap_runtime le x else if words_bigendian c then x else BYTESWAP x.
Definition byteswap_64 (le : bool) (x : Z) : Z :=
  if runtime_endian c then byteswap64_runtime le x else if words_bigendian c then x else byteswap64 x.

Definition Init (x : context) : context :=
  mkContext (SHA1Init (base x)) (if runtime_endian c then setEndian big else littleEndian x).

Definition Guts (x : context) (cbuf : list Z) : outcome context :=
  let sc := base x in
  let h i := nth i (hash sc) 0 in
  let W := expand 64 16 (byteswap (littleEndian x) <$> load_words big 16 cbuf) in
  '(a, b, c', d, e) ← unrolled (unroll c) W (h 0%nat, h 1%nat, h 2%nat, h 3%nat, h 4%nat);
  Ret (mkContext
         {| totalLength := totalLength sc;
            hash := [u32 (h 0%nat + a); u32 (h 1%nat + b); u32 (h 2%nat + c');
                     u32 (h 3%nat + d); u32 (h 4%nat + e)];
            bufferLength := bufferLength sc; buffer := buffer sc |} (littleEndian x)).

(** Filling the buffer, which both versions of SHA1Update do in the same words. *)
Definition fill_buffer (x : context) (data : list Z) : outcome (context * list Z) :=
  let sc := base x in
  let bufferBytesLeft := u32 (64 - bufferLength sc) in
  let bytesToCopy :=
    if Z.of_nat (length data) <? bufferBytesLeft then Z.of_nat (length data) else bufferBytesLeft in
  let n := Z.to_nat bytesToCopy in
  let sc :=
    {| totalLength := u64 (totalLength sc + bytesToCopy * 8);
       hash := hash sc;
       bufferLength := u32 (bufferLength sc + bytesToCopy);
       buffer := memcpy_at (buffer sc) (Z.to_nat (bufferLength sc)) (take n data) |} in
  let x := mkContext sc (littleEndian x) in
  if bufferLength sc =? 64 then
    x ← Guts x (buffer sc);
    let sc := base x in
    Ret (mkContext {| totalLength := totalLength sc; hash := hash sc; bufferLength := 0; buffer := buffer sc |} (littleEndian x), drop n data)
  else Ret (x, drop n data).

Fixpoint slow_update (fuel : nat) (x : context) (data : list Z) : outcome context :=
  match data with
  | [] => Ret x
  | _ =>
      match fuel with
      | O => Crash NoFuel
      | S fuel' => '(x, data) ← fill_buffer x data; slow_update fuel' x data
      end
  end.

(** The loop over whole blocks of SHA1_FAST_COPY: they are hashed where they are. *)
Fixpoint whole_blocks (fuel : nat) (x : context) (data : list Z) : outcome (context * list Z) :=
  if 63 <? Z.of_nat (length data) then
    match fuel with
    | O => Crash NoFuel
    | S fuel' =>
        let sc := base x in
        let sc := {| totalLength := u64 (totalLength sc + 512); hash := hash sc; bufferLength := bufferLength sc; buffer := buffer sc |} in
        x ← Guts (mkContext sc (littleEndian x)) (take 64 data);
        whole_blocks fuel' x (drop 64 data)
    end
  else Ret (x, data).

Definition keep_rest (x : context) (data : list Z) : context :=
  match data with
  | [] => x
  | _ =>
      let sc := base x in
      mkContext {| totalLength := u64 (totalLength sc + Z.of_nat (length data) * 8); hash := hash sc;
                   bufferLength := u32 (bufferLength sc + Z.of_nat (length data));
                   buffer := memcpy_at (buffer sc) (Z.to_nat (bufferLength sc)) data |} (littleEndian x)
  end.

Definition fast_update (x : context) (data : list Z) : outcome context :=
  '(x, data) ← (if bufferLength (base x) =? 0 then Ret (x, data) else fill_buffer x data);
  '(x, data) ← whole_blocks (length data) x data;
  Ret (keep_rest x data).

Definition Update (x : context) (data : list Z) : outcome context :=
  if fast_copy c then fast_update x data else slow_update (length data) x data.

(** A word of the digest: written at once or byte by byte. *)
Definition store_digest (le : bool) (w : Z) : list Z :=
  if fast_copy c then store_bytes big 4 (byteswap le w) else store_word w.

Definition Final (x : context) : outcome (list Z) :=
  let bytesToPad := u32 (120 - bufferLength (base x)) in
  let bytesToPad := if 64 <? bytesToPad then u32 (bytesToPad - 64) else bytesToPad in
  let lengthPad := byteswap_64 (littleEndian x) (totalLength (base x)) in
  x ← Update x (take (Z.to_nat bytesToPad) padding);
  x ← Update x (store_bytes big 8 lengthPad);
  Ret (concat (store_digest (littleEndian x) <$> take 5 (hash (base x)))).

Definition hash_of (junk : context) (str : list Z) : outcome (list Z) :=
  x ← Update (Init junk) str;
  Final x.

End Config.

(** *** burnStack *)

(** Each call clears a frame of 128 bytes; the result is the number of bytes cleared. *)
Fixpoint burnStack (fuel : nat) (size : Z) : outcome Z :=
  match fuel with
  | O => Crash NoFuel
  | S fuel' =>
      let size := i32 (size - 128) in
      if 0 <? size then n ← burnStack fuel' size; Ret (128 + n) else Ret 128
  end.

(** The stack of SHA1Guts: 86 words, five pointers and an integer. *)
Definition burnt : Z := 86 * 4 + 5 * 8 + 4.

(** *** The test program of SHA1_TEST *)

(** The loop that prints a digest from byte [i] on: a space after every fourth byte, and a
    line end after the last. *)
Fixpoint print_from (i : nat) (hash : list Z) : list Z :=
  match hash with
  | [] => [10]
  | b :: hash' => Hex.hex_byte b ++ (if (S i mod 4 =? 0)%nat then [32] else []) ++ print_from (S i) hash'
  end.

(** The loop that feeds [buf] again and again. *)
Fixpoint feed_times (big : bool) (c : config) (n : nat) (x : context) (buf : list Z) : outcome context :=
  match n with O => Ret x | S n' => x ← Update big c x buf; feed_times big c n' x buf end.

Definition message_2 : list Z := bytes_of_string "abcdbcdecdefdefgefghfghighijhijkijkljklmklmnlmnomnopnopq".

(** What main prints; each SHA1Init starts from the context of the digest before, [foo],
    [foo2] and [foo3]. *)
Definition test_main (big : bool) (c : config) (foo foo2 foo3 : context) : outcome (list Z) :=
  h1 ← hash_of big c foo (bytes_of_string "abc");
  h2 ← hash_of big c foo2 message_2;
  x ← feed_times big c 1000 (Init big c foo3) (replicate 1000 97);
  h3 ← Final big c x;
  Ret (print_from 0 h1 ++ print_from 0 h2 ++ print_from 0 h3).

End ShaConfigs.

(** ** The configurations agree *)

Section Agreement.
Import Sha1 Sha1Facts ShaConfigs.

Lemma body_fold per F K st (W : list Z) : (per <= length W)%nat ->
  body per F K (st, W) = Ret (fold_left (DO_ROUND F K) (take per W) st, drop per W).
Proof.
  revert st W. induction per as [|n IH]; intros st W Hl; [by rewrite take_0, drop_0|]. destruct W as [|w W]; [cbn in Hl; lia|].
  cbn [body next_round fst snd]. rewrite bind_Ret, IH by (cbn in Hl; lia). done.
Qed.

Lemma loop_fold turns per F K st (W : list Z) : (turns * per <= length W)%nat ->
  loop turns per F K (st, W) = Ret (fold_left (DO_ROUND F K) (take (turns * per) W) st, drop (turns * per) W).
Proof.
  revert st W. induction turns as [|n IH]; intros st W Hl; [cbn; by rewrite take_0, drop_0|]. cbn [loop].
  rewrite body_fold by lia. rewrite bind_Ret, IH by (rewrite length_drop; lia). cbn [Nat.mul].
  by rewrite drop_drop, <- fold_left_app, take_take_drop.
Qed.

(** Every unrolling is the eighty rounds. *)
Lemma unrolled_rounds u (W : list Z) st : length W = 80%nat -> unrolled u W st = Ret (rounds W st).
Proof.
  intros Hl. assert (H : forall turns per, (turns * per = 20)%nat -> four_loops turns per W st = Ret (rounds W st)).
  { intros turns per E. unfold four_loops. rewrite loop_fold by lia. rewrite bind_Ret, loop_fold by (rewrite length_drop; lia).
    rewrite bind_Ret, loop_fold by (rewrite !length_drop; lia). rewrite bind_Ret, loop_fold by (rewrite !length_drop; lia).
    rewrite bind_Ret, !drop_drop, E. done. }
  by destruct u; apply H.
Qed.

Variable big : bool.
Variable c : config.

(** The macros fit the machine: the byte order is found at run time, or said. *)
Definition fits : Prop := runtime_endian c = true \/ words_bigendian c = big.

(** The context of a machine knows its byte order. *)
Definition knows (x : context) : Prop := runtime_endian c = true -> littleEndian x = negb big.

Lemma setEndian_spec : setEndian big = negb big.
Proof. by destruct big. Qed.

Lemma byteswap_fits x w : fits -> knows x -> byteswap c (littleEndian x) w = if big then w else BYTESWAP w.
Proof.
  unfold byteswap, byteswap_runtime, fits, knows. destruct (runtime_endian c).
  - intros _ H. rewrite H by done. by destruct big.
  - intros [?|E] _; [done|]. by rewrite E.
Qed.

Lemma byteswap_64_fits x w : fits -> knows x -> byteswap_64 c (littleEndian x) w = if big then w else byteswap64 w.
Proof.
  unfold byteswap_64, byteswap64_runtime, fits, knows. destruct (runtime_endian c).
  - intros _ H. rewrite H by done. by destruct big.
  - intros [?|E] _; [done|]. by rewrite E.
Qed.

Lemma load_words_parse n l : Forall is_byte l -> (4 * n <= length l)%nat ->
  (if big then load_words big n l else BYTESWAP <$> load_words big n l) = BYTESWAP <$> words_of_bytes n l.
Proof.
  revert l. induction n as [|n IH]; intros l Hl Hn; [by destruct big|]. cbn [load_words words_of_bytes fmap list_fmap].
  rewrite <- IH; [|by apply Forall_drop|rewrite length_drop; lia]. unfold load_word. destruct big; [|done]. f_equal.
  symmetry. apply BYTESWAP_be; [by apply Forall_take|]. rewrite length_take. lia.
Qed.

Lemma length_expand n t W : length (expand n t W) = (length W + n)%nat.
Proof. revert t W. induction n as [|n IH]; intros t W; cbn [expand]; [lia|]. rewrite IH, length_app. cbn. lia. Qed.

Lemma length_words n l : length (words_of_bytes n l) = n.
Proof. revert l. induction n as [|n IH]; intros l; cbn; [done|]. by rewrite IH. Qed.

Lemma Guts_agrees x cbuf : fits -> knows x -> Forall is_byte cbuf -> (64 <= length cbuf)%nat ->
  Guts big c x cbuf = Ret (mkContext (SHA1Guts (base x) cbuf) (littleEndian x)).
Proof.
  intros Hf Hk Hb Hl. unfold Guts. assert (E : byteswap c (littleEndian x) <$> load_words big 16 cbuf = BYTESWAP <$> words_of_bytes 16 cbuf).
  { rewrite <- load_words_parse by (done || lia). rewrite (list_fmap_ext (byteswap c (littleEndian x)) (fun w => if big then w else BYTESWAP w));
      [destruct big; [apply list_fmap_id|done]|]. intros i w _. by apply byteswap_fits. }
  rewrite E, unrolled_rounds by (rewrite length_expand, length_fmap, length_words; done). rewrite bind_Ret. unfold SHA1Guts, schedule.
  by destruct (rounds _ _) as [[[[a b] c'] d] e].
Qed.

(** A buffer that gets full holds bytes only. *)
Lemma filled_bytes sc m (data : list Z) n : represents sc m -> Forall is_byte data -> n = Z.of_nat (length (take (Z.to_nat n) data)) ->
  u32 (bufferLength sc + n) = 64 -> 0 <= n <= 64 ->
  Forall is_byte (memcpy_at (buffer sc) (Z.to_nat (bufferLength sc)) (take (Z.to_nat n) data)) /\
  length (memcpy_at (buffer sc) (Z.to_nat (bufferLength sc)) (take (Z.to_nat n) data)) = 64%nat.
Proof.
  intros (k & full & part & _ & _ & Hpart & Hpb & _ & Hbl & Hlen & Hbuf & _) Hd Hn H64 Hr. rewrite Hbl, u32_small in H64 by lia.
  rewrite Hbl, Nat2Z.id. destruct (memcpy_at_take (buffer sc) (take (Z.to_nat n) data) (length part)) as [E1 E2]; [lia|].
  split; [|by rewrite E2]. rewrite take_ge, Hbuf in E1 by lia. rewrite E1. apply Forall_app. split; [done|by apply Forall_take].
Qed.

Lemma fill_agrees x m (data : list Z) : fits -> knows x -> represents (base x) m -> Forall is_byte data ->
  fill_buffer big c x data = Ret (mkContext (update_step (base x) data).1 (littleEndian x), (update_step (base x) data).2).
Proof.
  intros Hf Hk Hr Hd. unfold fill_buffer, update_step.
  assert (Hbl : 0 <= bufferLength (base x) < 64) by (destruct Hr as (? & ? & part & ? & ? & ? & ? & ? & -> & _); lia).
  set (n := if Z.of_nat (length data) <? _ then _ else _).
  assert (Hn : 0 <= n <= 64 /\ n = Z.of_nat (length (take (Z.to_nat n) data))).
  { subst n. rewrite u32_small by lia. rewrite length_take. destruct (Z.ltb_spec (Z.of_nat (length data)) (64 - bufferLength (base x))); lia. }
  cbn [bufferLength buffer hash totalLength]. destruct (Z.eqb_spec (u32 (bufferLength (base x) + n)) 64) as [E|E]; [|done].
  destruct (filled_bytes (base x) m data n Hr Hd (proj2 Hn) E (proj1 Hn)) as [H1 H2].
  rewrite Guts_agrees; [|done|done|done|lia]. done.
Qed.

Lemma update_step_nil sc m : represents sc m -> represents (update_step sc []).1 m /\ (update_step sc []).2 = [].
Proof.
  intros (n & full & part & -> & Hfull & Hpart & Hpb & Hh & Hbl & Hlen & Hbuf & Htot). unfold update_step.
  rewrite Hbl. change (Z.of_nat (length [])) with 0. rewrite (u32_small (64 - _)) by lia. destruct (Z.ltb_spec 0 (64 - Z.of_nat (length part))); [|lia].
  cbn [Z.mul Z.to_nat take]. rewrite !Z.add_0_r, u32_small by lia. cbn [bufferLength]. rewrite Nat2Z.id.
  destruct (Z.eqb_spec (Z.of_nat (length part)) 64); [lia|]. cbn [fst snd]. split; [|done].
  destruct (memcpy_at_take (buffer sc) [] (length part)) as [E1 E2]; [cbn; lia|]. cbn [length] in E1. rewrite Nat.add_0_r, app_nil_r in E1.
  exists n, full, part. cbn [bufferLength hash totalLength buffer]. split_and!; try done.
  - change (take _ _) with (@nil Z); by rewrite E2.
  - change (take (Z.to_nat 0) []) with (@nil Z); by rewrite E1.
  - rewrite Htot. unfold u64. by rewrite Zmod_mod.
Qed.

Lemma slow_update_agrees fuel x m (data : list Z) : fits -> knows x -> represents (base x) m -> Forall is_byte data -> Z.of_nat (length data) < 2 ^ 32 ->
  (length data <= fuel)%nat ->
  exists x', slow_update big c fuel x data = Ret x' /\ represents (base x') (m ++ data) /\ littleEndian x' = littleEndian x.
Proof.
  intros Hf. revert x m data. induction fuel as [|fuel IH]; intros x m data Hk Hr Hb Hl Hn.
  - destruct data; [|cbn in Hn; lia]. exists x. by rewrite app_nil_r.
  - destruct data as [|b data]; [exists x; by rewrite app_nil_r|]. cbn [slow_update]. rewrite (fill_agrees x m) by done. rewrite bind_Ret.
    destruct (update_step_represents (base x) m (b :: data)) as (k & sc' & E & Hk' & Hr'); [done|done|done|done|]. rewrite E. cbn [fst snd].
    destruct (IH (mkContext sc' (littleEndian x)) _ (drop k (b :: data)) Hk Hr') as (x' & E' & Hr'' & Hle);
      [by apply Forall_drop|rewrite length_drop; lia|rewrite length_drop; lia|].
    exists x'. rewrite <- app_assoc, take_drop in Hr''. by rewrite E'.
Qed.

(** Bytes are left over only when the buffer was emptied. *)
Lemma update_step_left sc m (data : list Z) : represents sc m -> (update_step sc data).2 <> [] -> bufferLength (update_step sc data).1 = 0.
Proof.
  intros Hr. assert (Hbl : 0 <= bufferLength sc < 64) by (destruct Hr as (? & ? & part & ? & ? & ? & ? & ? & -> & _); lia).
  unfold update_step. rewrite (u32_small (64 - _)) by lia. cbn [fst snd bufferLength].
  destruct (Z.ltb_spec (Z.of_nat (length data)) (64 - bufferLength sc)).
  - intros H1. destruct H1. apply drop_ge. lia.
  - intros _. rewrite u32_small by lia. by rewrite (proj2 (Z.eqb_eq (bufferLength sc + (64 - bufferLength sc)) 64)) by lia.
Qed.

Lemma block_agrees x m (data : list Z) : fits -> knows x -> represents (base x) m -> bufferLength (base x) = 0 -> Forall is_byte data -> (64 <= length data)%nat ->
  exists x', Guts big c (mkContext {| totalLength := u64 (totalLength (base x) + 512); hash := hash (base x); bufferLength := bufferLength (base x); buffer := buffer (base x) |}
      (littleEndian x)) (take 64 data) = Ret x' /\
    represents (base x') (m ++ take 64 data) /\ bufferLength (base x') = 0 /\ littleEndian x' = littleEndian x.
Proof.
  intros Hf Hk (n & full & part & -> & Hfull & Hpart & Hpb & Hh & Hbl & Hlen & Hbuf & Htot) H0 Hd Hl.
  assert (part = []) as -> by (apply nil_length_inv; lia). rewrite app_nil_r in *.
  assert (Hl64 : length (take 64 data) = 64%nat) by (rewrite length_take; lia).
  rewrite Guts_agrees; [|done|done|by apply Forall_take|lia]. eexists. split; [done|]. cbn [base littleEndian].
  rewrite SHA1Guts_compress; cbn [bufferLength hash totalLength buffer]; [|rewrite Hh; apply absorb_ok, H0_ok|by apply Forall_take|lia].
  split; [|done]. exists (S n), (full ++ take 64 data), []. cbn [bufferLength hash totalLength buffer]. split_and!; try done; try lia.
  - by rewrite app_nil_r.
  - rewrite length_app, Hl64. lia.
  - rewrite Hh. replace (S n) with (n + 1)%nat by lia. rewrite absorb_app by done. cbn [Fips.absorb]. by rewrite (take_ge (take 64 data)) by lia.
  - rewrite Htot. unfold u64. rewrite Zplus_mod_idemp_l, length_app, Hl64. f_equal. lia.
Qed.

Lemma blocks_agree fuel x m (data : list Z) : fits -> knows x -> represents (base x) m -> bufferLength (base x) = 0 -> Forall is_byte data ->
  (length data <= fuel)%nat ->
  exists x' pre rest, whole_blocks big c fuel x data = Ret (x', rest) /\ data = pre ++ rest /\ (length rest < 64)%nat /\
    represents (base x') (m ++ pre) /\ bufferLength (base x') = 0 /\ littleEndian x' = littleEndian x.
Proof.
  intros Hf. revert x m data. induction fuel as [|fuel IH]; intros x m data Hk Hr H0 Hd Hl; cbn [whole_blocks];
    destruct (Z.ltb_spec 63 (Z.of_nat (length data))); try lia; try (exists x, [], data; rewrite app_nil_r; split_and!; (done || lia)).
  destruct (block_agrees x m data) as (x1 & E & Hr1 & Hb1 & Hle); [done..|lia|]. rewrite E, bind_Ret.
  destruct (IH x1 (m ++ take 64 data) (drop 64 data)) as (x2 & pre & rest & E2 & Hd2 & Hl2 & Hr2 & Hb2 & Hle2);
    [unfold knows; by rewrite Hle|done|done|by apply Forall_drop|rewrite length_drop; lia|].
  exists x2, (take 64 data ++ pre), rest. rewrite <- app_assoc in Hr2. rewrite <- app_assoc, <- Hd2, take_drop. split_and!; congruence || done.
Qed.

Lemma rest_agrees x m (data : list Z) : represents (base x) m -> bufferLength (base x) = 0 \/ data = [] -> Forall is_byte data -> (length data < 64)%nat ->
  represents (base (keep_rest x data)) (m ++ data) /\ littleEndian (keep_rest x data) = littleEndian x.
Proof.
  intros Hr [H0| ->] Hd Hl; [|cbn; by rewrite app_nil_r]. destruct Hr as (n & full & part & -> & Hfull & Hpart & Hpb & Hh & Hbl & Hlen & Hbuf & Htot).
  assert (part = []) as -> by (apply nil_length_inv; lia). rewrite app_nil_r in *.
  destruct data as [|b data]; [cbn [keep_rest]; rewrite app_nil_r; split; [|done]; exists n, full, []; rewrite app_nil_r; by split_and!|].
  set (l := b :: data) in *. unfold keep_rest, l. fold l. split; [|done]. cbn [base].
  destruct (memcpy_at_take (buffer (base x)) l 0) as [E1 E2]; [lia|].
  exists n, full, l. cbn [bufferLength hash totalLength buffer]. rewrite H0. change (Z.to_nat 0) with 0%nat. split_and!; try done.
  - by rewrite u32_small by lia.
  - by rewrite E2.
  - rewrite Htot. unfold u64. rewrite Zplus_mod_idemp_l, length_app. f_equal. lia.
Qed.

Lemma Update_agrees x m (data : list Z) : fits -> knows x -> represents (base x) m -> Forall is_byte data -> Z.of_nat (length data) < 2 ^ 32 ->
  exists x', Update big c x data = Ret x' /\ represents (base x') (m ++ data) /\ littleEndian x' = littleEndian x.
Proof.
  intros Hf Hk Hr Hd Hl. unfold Update. destruct (fast_copy c); [|by apply slow_update_agrees]. unfold fast_update.
  assert (Hfirst : exists x1 pre rest, (if bufferLength (base x) =? 0 then Ret (x, data) else fill_buffer big c x data) = Ret (x1, rest) /\
    data = pre ++ rest /\ represents (base x1) (m ++ pre) /\ (bufferLength (base x1) = 0 \/ rest = []) /\ littleEndian x1 = littleEndian x).
  { destruct (Z.eqb_spec (bufferLength (base x)) 0); [exists x, [], data; rewrite app_nil_r; split_and!; auto|].
    rewrite (fill_agrees x m) by done. destruct data as [|b data].
    - destruct (update_step_nil (base x) m Hr) as [H1 H2]. eexists _, [], _. split; [done|]. rewrite H2, (app_nil_r m). split_and!; [done|done|by right|done].
    - destruct (update_step_represents (base x) m (b :: data)) as (k & sc' & E & Hk' & Hr'); [done|done|done|done|].
      assert (Hlf := update_step_left (base x) m (b :: data) Hr). rewrite E in *. cbn [fst snd] in *.
      eexists _, (take k (b :: data)), _. split; [done|]. rewrite take_drop. split_and!; try done.
      destruct (drop k (b :: data)); [by right|left; by apply Hlf]. }
  destruct Hfirst as (x1 & pre & rest & -> & -> & Hr1 & Hb1 & Hle1). rewrite bind_Ret. apply Forall_app in Hd as [Hd1 Hd2].
  destruct Hb1 as [Hb1| ->].
  - destruct (blocks_agree (length rest) x1 (m ++ pre) rest) as (x2 & pre2 & rest2 & E & -> & Hl2 & Hr2 & Hb2 & Hle2);
      [done|unfold knows; by rewrite Hle1|done..|]. rewrite E, bind_Ret. apply Forall_app in Hd2 as [_ Hd3].
    destruct (rest_agrees x2 _ rest2 Hr2 ltac:(by left) Hd3 Hl2) as [Hr3 Hle3]. eexists. split; [done|]. rewrite <- !app_assoc in Hr3. split; [done|congruence].
  - cbn. exists x1. by rewrite app_nil_r.
Qed.

(** The digest words and the length are stored most significant byte first. *)
Lemma store_swapped_64 x w : fits -> knows x -> 0 <= w < 2 ^ 64 -> store_bytes big 8 (byteswap_64 c (littleEndian x) w) = be_bytes 8 w.
Proof. intros Hf Hk Hw. rewrite byteswap_64_fits by done. unfold store_bytes. destruct big; [done|by apply byteswap64_be]. Qed.

Lemma store_digest_be x w : fits -> knows x -> word_ok w -> store_digest big c (littleEndian x) w = be_bytes 4 w.
Proof.
  intros Hf Hk Hw. unfold store_digest. destruct (fast_copy c); [|by apply store_word_be]. rewrite byteswap_fits by done.
  unfold store_bytes. destruct big; [done|by apply BYTESWAP_bytes].
Qed.

Lemma Final_agrees x m : fits -> knows x -> represents (base x) m -> 8 * Z.of_nat (length m) < 2 ^ 64 -> Final big c x = Ret (Fips.sha1 m).
Proof.
  intros Hf Hk Hr Hm. unfold Final. rewrite (pad_eq m) by by apply represents_mod. set (z := Z.to_nat _).
  assert (Hz : (z < 64)%nat).
  { subst z. assert (H := Z.mod_pos_bound (55 - Z.of_nat (length m)) 64 ltac:(lia)). lia. }
  destruct (pad_bytes z Hz) as [Hpb Hpl].
  destruct (Update_agrees x m ([0x80] ++ replicate z 0)) as (x1 & -> & Hr1 & Hle1); [done..|]. rewrite bind_Ret.
  assert (Htot : totalLength (base x) = u64 (8 * Z.of_nat (length m))) by (by destruct Hr as (? & ? & ? & ? & ? & ? & ? & ? & ? & ? & ? & Htot)).
  rewrite Htot, u64_small by lia. rewrite store_swapped_64 by (done || lia).
  destruct (Update_agrees x1 _ (be_bytes 8 (8 * Z.of_nat (length m))) Hf ltac:(unfold knows; by rewrite Hle1) Hr1) as (x2 & -> & Hr2 & Hle2).
  { unfold be_bytes. apply Forall_reverse, le_bytes_bytes. }
  { rewrite be_bytes_length. lia. }
  rewrite bind_Ret. f_equal. rewrite <- !app_assoc in Hr2. fold (Fips.pad m) in Hr2. destruct (padded_hash (base x2) m Hr2) as [Hh2 [Hok5 Hokw]].
  unfold Fips.sha1. rewrite <- Hh2, take_ge by lia. f_equal. apply list_fmap_ext. intros i w Hw.
  apply store_digest_be; [done|unfold knows; by rewrite Hle2, Hle1|by eapply Forall_lookup_1].
Qed.

Lemma knows_init junk : knows (Init big c junk).
Proof. unfold knows, Init. cbn. intros ->. apply setEndian_spec. Qed.

End Agreement.

(** ** Properties *)

Section Properties.
Import Sha1 Sha1Facts ShaConfigs.

Lemma hash_of_sha1 big c x msg : fits big c -> length (buffer (base x)) = 64%nat -> Forall is_byte msg -> Z.of_nat (length msg) < 2 ^ 32 ->
  hash_of big c x msg = Ret (Fips.sha1 msg).
Proof.
  intros Hf Hx Hb Hl. unfold hash_of.
  destruct (Update_agrees big c (Init big c x) [] msg) as (x1 & -> & Hr & Hle); [done|apply knows_init|by apply SHA1Init_represents|done|done|].
  rewrite bind_Ret. apply Final_agrees; [done|unfold knows; rewrite Hle; apply knows_init|done|]. cbn [app]. lia.
Qed.

(** C37 Every configuration of sha.c that fits its machine computes the same digest: big-endian
    and little-endian machines, the byte order said or found at run time, each of the six
    unrollings and both versions of SHA1Update give the SHA-1 of FIPS 180, which is what the
    configuration of the repository computes. *)
Theorem sha_configurations_agree big c junk x msg : fits big c ->
  length (buffer (base x)) = 64%nat -> length (buffer junk) = 64%nat -> Forall is_byte msg -> Z.of_nat (length msg) < 2 ^ 32 ->
  hash_of big c x msg = shahash junk msg /\ hash_of big c x msg = Ret (Fips.sha1 msg).
Proof.
  intros Hf Hx Hj Hb Hl. rewrite shahash_spec, hash_of_sha1 by done. done.
Qed.

(** A big-endian machine that finds its byte order at run time, with word copies and
    unrolled by five. *)
Lemma sha_configurations_agree_witness :
  let c := mkConfig true false true Unroll5 in let junk := mkSHA1Context 7 [1] 3 (replicate 64 99) in
  hash_of true c (mkContext junk true) (bytes_of_string "abc") = shahash junk (bytes_of_string "abc") /\
  hash_of true c (mkContext junk true) (bytes_of_string "abc") = Ret (Fips.sha1 (bytes_of_string "abc")).
Proof.
  cbv zeta. apply (sha_configurations_agree true (mkConfig true false true Unroll5)).
  - left. reflexivity.
  - reflexivity.
  - reflexivity.
  - apply bytes_of_string_bytes.
  - vm_compute. reflexivity.
Defined.

(** burnStack ends, and clears at least the bytes it is asked for and at most one frame
    more. *)
Lemma burnStack_covers fuel size : - 2 ^ 31 + 128 <= size <= 128 * Z.of_nat fuel -> size < 2 ^ 31 -> (0 < fuel)%nat ->
  exists n, burnStack fuel size = Ret n /\ size <= n /\ 128 <= n /\ (0 < size -> n < size + 128).
Proof.
  revert size. induction fuel as [|fuel IH]; intros size Hs Hlt Hf; [lia|]. cbn [burnStack]. rewrite i32_small by lia.
  destruct (Z.ltb_spec 0 (size - 128)); [|exists 128; split_and!; (done || lia)].
  destruct (IH (size - 128)) as (n & -> & H1 & H2 & H3); [lia|lia|lia|]. exists (128 + n). split_and!; (done || lia).
Qed.

Example burnt_frames : burnStack 4 burnt = Ret 512.
Proof. reflexivity. Qed.

Lemma feed_times_agrees big c n x m buf : fits big c -> knows big c x -> represents (base x) m -> Forall is_byte buf -> Z.of_nat (length buf) < 2 ^ 32 ->
  exists x', feed_times big c n x buf = Ret x' /\ represents (base x') (m ++ concat (replicate n buf)) /\ littleEndian x' = littleEndian x.
Proof.
  intros Hf. revert x m. induction n as [|n IH]; intros x m Hk Hr Hb Hl; cbn [feed_times replicate concat]; [exists x; by rewrite app_nil_r|].
  destruct (Update_agrees big c x m buf) as (x1 & -> & Hr1 & Hle); [done..|]. rewrite bind_Ret.
  destruct (IH x1 (m ++ buf)) as (x2 & E & Hr2 & Hle2); [unfold knows; by rewrite Hle|done..|]. exists x2.
  rewrite <- app_assoc in Hr2. split_and!; congruence || done.
Qed.

Lemma concat_replicate_length {A} n (l : list A) : length (concat (replicate n l)) = (n * length l)%nat.
Proof. induction n as [|n IH]; [done|]. cbn [replicate concat]. rewrite length_app, IH. lia. Qed.

Lemma letters_hash big c x n k : fits big c -> length (buffer (base x)) = 64%nat -> Z.of_nat k < 2 ^ 32 -> 8 * (Z.of_nat n * Z.of_nat k) < 2 ^ 64 ->
  (x ← feed_times big c n (Init big c x) (replicate k 97); Final big c x) = Ret (Fips.sha1 (concat (replicate n (replicate k 97)))).
Proof.
  intros Hf Hx Hk Hn. destruct (feed_times_agrees big c n (Init big c x) [] (replicate k 97)) as (y & -> & Hr & Hle);
    [done|apply knows_init|by apply SHA1Init_represents|apply Forall_replicate; unfold is_byte; lia|by rewrite length_replicate|].
  rewrite bind_Ret. apply Final_agrees; [done|unfold knows; rewrite Hle; apply knows_init|done|].
  rewrite concat_replicate_length, length_replicate. lia.
Qed.

(** The test program prints the digests of its three messages, whatever the configuration,
    the third of a million letters. *)
Lemma test_main_prints big c foo foo2 foo3 : fits big c ->
  length (buffer (base foo)) = 64%nat -> length (buffer (base foo2)) = 64%nat -> length (buffer (base foo3)) = 64%nat ->
  test_main big c foo foo2 foo3 = Ret (print_from 0 (Fips.sha1 (bytes_of_string "abc")) ++ print_from 0 (Fips.sha1 message_2) ++
    print_from 0 (Fips.sha1 (concat (replicate 1000 (replicate 1000 97))))).
Proof.
  intros Hf H1 H2 H3. unfold test_main. assert (Hl := letters_hash big c foo3 1000 1000 Hf H3 eq_refl eq_refl). revert Hl.
  rewrite (hash_of_sha1 big c foo) by (done || apply bytes_of_string_bytes). rewrite bind_Ret, (hash_of_sha1 big c foo2) by (done || apply bytes_of_string_bytes).
  rewrite bind_Ret. generalize (concat (replicate 1000 (replicate 1000 97))) as m.
  generalize (feed_times big c 1000 (Init big c foo3) (replicate 1000 97)) as fed. intros fed m Hl.
  destruct fed as [x|]; [|discriminate]. rewrite bind_Ret in Hl |- *. by rewrite Hl.
Qed.

(** The first two lines are those that the comment at the head of the file promises. *)
Lemma test_main_first_lines :
  print_from 0 (Fips.sha1 (bytes_of_string "abc")) = bytes_of_string "a9993e36 4706816a ba3e2571 7850c26c 9cd0d89d " ++ [10] /\
  print_from 0 (Fips.sha1 message_2) = bytes_of_string "84983e44 1c3bd26e baae4aa1 f95129e5 e54670f1 " ++ [10].
Proof.
  assert (E : forall m h, Forall is_byte m -> Z.of_nat (length m) < 2 ^ 32 ->
    shahash (mkSHA1Context 0 [] 0 (replicate 64 0)) m = Ret h -> Fips.sha1 m = h).
  { intros m h Hb Hl Hs. rewrite shahash_spec in Hs by done. by injection Hs. }
  split.
  - erewrite E; [|apply bytes_of_string_bytes|done|vm_compute; reflexivity]. reflexivity.
  - erewrite E; [|apply bytes_of_string_bytes|done|vm_compute; reflexivity]. reflexivity.
Qed.

End Properties.
