(* ===== verification/GigaIndex.v ===== *)
(** * The GIGA+ index: common/giga_index.c and giga_index.h

    [Giga] translates every function of the file that computes or changes a
    mapping.  A mapping's [bitmap] has a bit for each partition of a
    directory; partition [i > 0] is the child made by splitting the partition
    whose index is [i] without its top bit, so the set bits are a tree rooted
    at 0.  [Tree] gives the abstract reading of a bitmap as a set of
    partitions, the partition that owns a hash, and the invariant
    [wf_mapping]; the sections after it prove that each operation implements
    its abstract counterpart. *)

From S2P Require Import Prelude Sha.

#[local] Open Scope Z_scope.

Module Giga.

Definition MAX_RADIX : Z := 10.
Definition MIN_RADIX : Z := 0.
Definition MAX_BKTS_PER_SERVER : Z := 2.

(** Seven bits of every byte carry the bitmap. *)
Definition BITS_PER_MAP : Z := 1 * 8 - 1.

Definition MAX_BMAP_LEN : Z :=
  if Z.shiftl 1 MAX_RADIX mod BITS_PER_MAP =? 0
  then Z.shiftl 1 MAX_RADIX / BITS_PER_MAP
  else Z.shiftl 1 MAX_RADIX / BITS_PER_MAP + 1.

Definition HASH_LEN : Z := 2 * Sha1.SHA1_HASH_SIZE.

Inductive split_type : Type :=
| SPLIT_T_NO_BOUND
| SPLIT_T_NO_SPLITTING_EVER
| SPLIT_T_NUM_SERVERS_BOUND
| SPLIT_T_NEXT_HIGHEST_POW2.

Definition SPLIT_TYPE : split_type := SPLIT_T_NUM_SERVERS_BOUND.

Record giga_mapping_t : Type := mkMapping {
  bitmap : list Z;
  curr_radix : Z;
  zeroth_server : Z;
  server_count : Z
}.

#[export] Instance giga_mapping_eq_dec : EqDecision giga_mapping_t.
Proof. solve_decision. Defined.

(** What the stack holds where [shahash] allocates its context: the digest
    does not depend on it ([shahash_is_sha1]). *)
Definition stack_context : Sha1.SHA1Context :=
  Sha1.mkSHA1Context 0 (replicate 5 0) 0 (replicate 64 0).

(** [giga_hash_name]: the HASH_LEN characters the caller's array holds
    afterwards. The terminator of [binary2hex] is the character after them. *)
Definition giga_hash_name (hash_key : string) : outcome (list Z) :=
  let len := i32 (Z.of_nat (String.length hash_key)) in
  hash ← Sha1.shahash stack_context
           (take (Z.to_nat (u32 len)) (bytes_of_string hash_key));
  mret (take (Z.to_nat HASH_LEN) (Hex.binary2hex hash)).

(** (int) floor(log2((double) x)): exact for the values of [int], not a
    number for [x < 0] and minus infinity for 0. *)
Definition floor_log2 (x : Z) : outcome Z :=
  if 0 <? x then Ret (Z.log2 x) else Crash ArithUB.

Definition get_radix_from_index (index : Z) : outcome Z :=
  if index =? 0 then Ret 0
  else if index =? 1 then Ret 1
  else l ← floor_log2 index; c_int (l + 1).

Definition get_bit_status (bmap : list Z) (index : Z) : outcome Z :=
  let index_in_bmap := Z.quot index BITS_PER_MAP in
  let bit_in_index := Z.rem index BITS_PER_MAP in
  mask ← c_one_shl bit_in_index;
  bit_info ← c_read bmap index_in_bmap;
  let bit_info := u8 (Z.land bit_info (u8 mask)) in
  mret (if bit_info =? 0 then 0 else 1).

(** The loop of [get_highest_index] over the elements, from [i] down: -1 when
    every element is zero. *)
Fixpoint highest_element (n : nat) (bmap : list Z) : outcome Z :=
  match n with
  | O => Ret (-1)
  | S n' =>
      v ← c_read bmap (Z.of_nat n');
      if v =? 0 then highest_element n' bmap else Ret (Z.of_nat n')
  end.

(** Its loop over the bits of the element found, from [j] down. *)
Fixpoint highest_bit (n : nat) (value : Z) : Z :=
  match n with
  | O => -1
  | S n' =>
      if Z.land value (u8 (Z.shiftl 1 (Z.of_nat n'))) =? 0 then highest_bit n' value
      else Z.of_nat n'
  end.

Definition get_highest_index (bmap : list Z) : outcome Z :=
  index_in_bmap ← highest_element (Z.to_nat MAX_BMAP_LEN) bmap;
  value ← c_read bmap index_in_bmap;
  let bit_in_index := highest_bit (Z.to_nat BITS_PER_MAP) value in
  let max_index := index_in_bmap * BITS_PER_MAP + bit_in_index in
  _ ← c_assert (0 <=? max_index);
  mret max_index.

Definition get_radix_from_bmap (bmap : list Z) : outcome Z :=
  index ← get_highest_index bmap;
  get_radix_from_index index.

Definition get_child_index (index radix : Z) : outcome Z :=
  _ ← c_assert (0 <=? index);
  _ ← c_assert (0 <=? radix);
  step ← c_one_shl radix;
  c_int (index + step).

Definition get_parent_index (index : Z) : outcome Z :=
  if 0 <? index then
    l ← floor_log2 index;
    step ← c_one_shl l;
    c_int (index - step)
  else Ret 0.

Definition get_split_index_for_newserver (index : Z) : outcome Z := get_parent_index index.

(** The loop over the whole bytes of the suffix. *)
Fixpoint whole_bytes (n : nat) (i : Z) (bin_hash : list Z) (index : Z) : outcome Z :=
  match n with
  | O => Ret index
  | S n' =>
      curr_byte ← c_read bin_hash (Sha1.SHA1_HASH_SIZE - 1 - i);
      curr_shift ← c_int (Z.shiftl curr_byte (i * 8));
      index ← c_int (index + curr_shift);
      whole_bytes n' (i + 1) bin_hash index
  end.

Definition compute_index (hash_value : list Z) (radix : Z) : outcome Z :=
  _ ← c_assert (radix <? MAX_RADIX);
  let bin_hash := Hex.hex2binary hash_value in
  let num_useful_bytes := i32 (u64 radix / 8) in
  let residual_useful_bits := i32 (u64 radix mod 8) in
  let num_useful_bytes :=
    if negb (residual_useful_bits =? 0) || (0 <? num_useful_bytes)
    then num_useful_bytes + 1 else num_useful_bytes in
  let n := Z.to_nat (num_useful_bytes - 1) in
  index ← whole_bytes n 0 bin_hash 0;
  let i := Z.of_nat n in
  curr_byte ← c_read bin_hash (Sha1.SHA1_HASH_SIZE - 1 - i);
  one ← c_one_shl residual_useful_bits;
  let curr_mask := one - 1 in
  let curr_value := Z.land curr_byte curr_mask in
  curr_shift ← c_int (Z.shiftl curr_value (i * 8));
  c_int (index + curr_shift).

Definition giga_init_mapping (flag zeroth_server server_count : Z) : outcome giga_mapping_t :=
  let zeros := replicate (Z.to_nat MAX_BMAP_LEN) 0 in
  let count := if 0 <? server_count then server_count else 1 in
  let one_partition :=
    {| bitmap := <[0%nat := 1]> zeros; curr_radix := 1;
       zeroth_server := zeroth_server; server_count := count |} in
  if flag =? -1 then Ret one_partition
  else
    match SPLIT_TYPE with
    | SPLIT_T_NO_BOUND => Ret one_partition
    | SPLIT_T_NO_SPLITTING_EVER =>
        (* the store goes through an index that was never assigned *)
        if flag <? BITS_PER_MAP then Crash OutOfBounds else Crash ProcessExit
    | SPLIT_T_NUM_SERVERS_BOUND => Ret one_partition
    | SPLIT_T_NEXT_HIGHEST_POW2 => Ret one_partition
    end.

(** The copy loop of [giga_init_mapping_from_bitmap], from element [i] on. *)
Fixpoint copy_elements (n : nat) (i : Z) (src dst : list Z) : outcome (list Z) :=
  match n with
  | O => Ret dst
  | S n' =>
      v ← c_read src i;
      _ ← c_assert (negb (i =? 0) || negb (v =? 0));
      dst ← c_write dst i v;
      copy_elements n' (i + 1) src dst
  end.

Definition giga_init_mapping_from_bitmap (src : list Z) (bitmap_len zeroth_server server_count : Z)
  : outcome giga_mapping_t :=
  m ← giga_init_mapping (-1) zeroth_server server_count;
  let bigger_bmap := if bitmap_len <? MAX_BMAP_LEN then bitmap_len else MAX_BMAP_LEN in
  bm ← copy_elements (Z.to_nat bigger_bmap) 0 src (bitmap m);
  radix ← get_radix_from_bmap bm;
  mret {| bitmap := bm; curr_radix := u32 radix;
          zeroth_server := Giga.zeroth_server m; server_count := Giga.server_count m |}.

Definition giga_copy_mapping (dest src : giga_mapping_t) (z : Z) : outcome giga_mapping_t :=
  if z =? 0 then giga_init_mapping (-1) (zeroth_server src) (server_count src)
  else
    let bm := bitmap src in
    radix ← get_radix_from_bmap bm;
    mret {| bitmap := bm; curr_radix := u32 radix;
            zeroth_server := zeroth_server dest; server_count := server_count dest |}.

Definition giga_update_cache (curr update : giga_mapping_t) : outcome giga_mapping_t :=
  let bm := zip_with (fun a b => u8 (Z.lor a b)) (bitmap curr) (bitmap update) in
  radix ← get_radix_from_bmap bm;
  mret {| bitmap := bm; curr_radix := u32 radix;
          zeroth_server := zeroth_server curr;
          server_count := if server_count curr <? server_count update
                          then server_count update else server_count curr |}.

Definition giga_update_mapping (m : giga_mapping_t) (new_index : Z) : outcome giga_mapping_t :=
  let index_in_bmap := Z.quot new_index BITS_PER_MAP in
  let bit_in_index := Z.rem new_index BITS_PER_MAP in
  mask ← c_one_shl bit_in_index;
  bit_info ← c_read (bitmap m) index_in_bmap;
  bm ← c_write (bitmap m) index_in_bmap (u8 (Z.lor bit_info (u8 mask)));
  radix ← get_radix_from_bmap bm;
  mret {| bitmap := bm; curr_radix := u32 radix;
          zeroth_server := zeroth_server m; server_count := server_count m |}.

Definition giga_update_mapping_remove (m : giga_mapping_t) (new_index : Z)
  : outcome giga_mapping_t :=
  let index_in_bmap := Z.quot new_index BITS_PER_MAP in
  let bit_in_index := Z.rem new_index BITS_PER_MAP in
  mask ← c_one_shl bit_in_index;
  bit_info ← c_read (bitmap m) index_in_bmap;
  bm ← c_write (bitmap m) index_in_bmap (u8 (Z.land bit_info (Z.lnot (u8 mask))));
  radix ← get_radix_from_bmap bm;
  mret {| bitmap := bm; curr_radix := u32 radix;
          zeroth_server := zeroth_server m; server_count := server_count m |}.

(** The [while (1)] of [giga_index_for_splitting]: the assertion bounds it. *)
Fixpoint first_free_child (fuel : nat) (bmap : list Z) (index i : Z) : outcome Z :=
  match fuel with
  | O => Crash NoFuel
  | S fuel' =>
      _ ← c_assert (i <? MAX_RADIX);
      new_index ← get_child_index index i;
      status ← get_bit_status bmap new_index;
      if status =? 0 then Ret new_index else first_free_child fuel' bmap index (i + 1)
  end.

Definition giga_index_for_splitting (m : giga_mapping_t) (index : Z) : outcome Z :=
  status ← get_bit_status (bitmap m) index;
  _ ← c_assert (status =? 1);
  i ← get_radix_from_index index;
  new_index ← first_free_child (S (Z.to_nat MAX_RADIX)) (bitmap m) index i;
  _ ← c_assert (negb (new_index =? index));
  mret new_index.

Definition giga_index_for_force_splitting (index : Z) : outcome Z := get_parent_index index.

Definition giga_get_index_for_backup (index : Z) : outcome Z :=
  radix ← get_radix_from_index index;
  get_child_index index radix.

(** The loop of [giga_get_index_for_file] from a partition to the nearest
    ancestor that exists. *)
Fixpoint nearest_ancestor (fuel : nat) (bmap : list Z) (index : Z) : outcome Z :=
  match fuel with
  | O => Crash NoFuel
  | S fuel' =>
      status ← get_bit_status bmap index;
      if status =? 0 then
        index ← get_parent_index index;
        nearest_ancestor fuel' bmap index
      else Ret index
  end.

Definition giga_get_index_for_file (m : giga_mapping_t) (filename : string) : outcome Z :=
  hash ← giga_hash_name filename;
  radix ← get_radix_from_bmap (bitmap m);
  index ← compute_index hash radix;
  index ← nearest_ancestor (S (Z.to_nat MAX_RADIX)) (bitmap m) index;
  status ← get_bit_status (bitmap m) index;
  _ ← c_assert (status =? 1);
  mret index.

(** [unsigned] arithmetic: the index is converted, a zero divisor is
    undefined, the result is converted back to [int]. *)
Definition giga_get_server_for_index (m : giga_mapping_t) (index : Z) : outcome Z :=
  if server_count m =? 0 then Crash ArithUB
  else Ret (i32 (u32 (u32 index + zeroth_server m) mod server_count m)).

Definition giga_get_server_for_file (m : giga_mapping_t) (filename : string) : outcome Z :=
  index ← giga_get_index_for_file m filename;
  giga_get_server_for_index m index.

Definition giga_get_bucket_num_for_server (m : giga_mapping_t) (index : Z) : outcome Z :=
  if server_count m =? 0 then Crash ArithUB
  else Ret (i32 (u32 index / server_count m)).

Definition giga_file_migration_status (filename : string) (new_index : Z) : outcome Z :=
  hash ← giga_hash_name filename;
  radix ← get_radix_from_index new_index;
  index ← compute_index hash radix;
  mret (if index =? new_index then 1 else 0).

Definition giga_is_splittable (m : giga_mapping_t) (old_index : Z) : outcome Z :=
  match SPLIT_TYPE with
  | SPLIT_T_NO_BOUND => Ret 1
  | SPLIT_T_NO_SPLITTING_EVER => Ret 0
  | SPLIT_T_NUM_SERVERS_BOUND =>
      new_index ← giga_index_for_splitting m old_index;
      bound ← c_int (MAX_BKTS_PER_SERVER * i32 (server_count m));
      mret (if new_index <? bound then 1 else 0)
  | SPLIT_T_NEXT_HIGHEST_POW2 => Crash ProcessAbort
  end.

End Giga.

(** ** The abstract reading of a bitmap *)

Module Tree.
Import Giga.

(** Partition [i] exists. *)
Definition has (bm : list Z) (i : Z) : bool :=
  (0 <=? i) && Z.testbit (nth (Z.to_nat (i / 7)) bm 0) (i mod 7).

(** The number of hash bits partition [i] fixes, the partition it split from,
    and whether it covers a hash. *)
Definition radix_of (i : Z) : Z := if i =? 0 then 0 else Z.log2 i + 1.
Definition parent (i : Z) : Z := if 0 <? i then i - 2 ^ Z.log2 i else 0.
Definition covers (i h : Z) : bool := h mod 2 ^ radix_of i =? i.

(** [i] owns hash [h]: it is the deepest existing partition covering it. *)
Definition owner (bm : list Z) (h i : Z) : Prop :=
  has bm i = true /\ covers i h = true /\
  forall j, has bm j = true -> covers j h = true -> j <= i.

(** The part of a name's SHA-1 the index uses: the last two bytes. *)
Definition name_hash (f : string) : Z :=
  let d := Fips.sha1 (bytes_of_string f) in nth 19 d 0 + 256 * nth 18 d 0.

(** A name whose length fits [int]. *)
Definition name_ok (f : string) : Prop := Z.of_nat (String.length f) < 2 ^ 31.

(** A bitmap of the right shape: 147 elements of seven bits. *)
Definition bitmap_ok (bm : list Z) : Prop :=
  length bm = 147%nat /\ Forall (fun v => 0 <= v < 2 ^ 7) bm.

(** The partitions form a tree rooted at 0 of depth below MAX_RADIX. *)
Definition tree_ok (bm : list Z) : Prop :=
  has bm 0 = true /\
  (forall i, has bm i = true -> has bm (parent i) = true) /\
  (forall i, has bm i = true -> i < 512).

Definition wf_mapping (m : giga_mapping_t) : Prop :=
  bitmap_ok (bitmap m) /\ tree_ok (bitmap m) /\
  1 <= server_count m < 2 ^ 30 /\ 0 <= zeroth_server m < 2 ^ 32.

End Tree.

(** ** Lemmas: indices and radices *)

Section Indices.
Import Giga Tree.

Lemma MAX_BMAP_LEN_eq : MAX_BMAP_LEN = 147.
Proof. reflexivity. Qed.

Lemma radix_of_range i : 0 <= i -> 0 <= radix_of i /\ i < 2 ^ radix_of i.
Proof.
  intros Hi. unfold radix_of. destruct (Z.eqb_spec i 0) as [->|]; [simpl; lia|].
  assert (H := Z.log2_spec i ltac:(lia)). assert (Hl := Z.log2_nonneg i).
  rewrite <- Z.add_1_r in H. lia.
Qed.

Lemma radix_of_le i r : 0 <= i -> 0 <= r -> i < 2 ^ r -> radix_of i <= r.
Proof.
  intros Hi Hr H. unfold radix_of. destruct (Z.eqb_spec i 0); [lia|].
  assert (Z.log2 i < r) by (apply Z.log2_lt_pow2; lia). lia.
Qed.

Lemma radix_of_ge i r : 0 <= r -> 2 ^ r <= i -> r + 1 <= radix_of i.
Proof.
  intros Hr H. assert (0 < 2 ^ r) by (apply Z.pow_pos_nonneg; lia).
  unfold radix_of. destruct (Z.eqb_spec i 0); [lia|].
  assert (r <= Z.log2 i) by (apply Z.log2_le_pow2; lia). lia.
Qed.

Lemma mod_mod_pow2 h a b : 0 <= a <= b -> (h mod 2 ^ b) mod 2 ^ a = h mod 2 ^ a.
Proof.
  intros H. replace (2 ^ b) with (2 ^ a * 2 ^ (b - a)) by (rewrite <- Z.pow_add_r by lia; f_equal; lia).
  rewrite Z.rem_mul_r by (apply Z.pow_nonzero || apply Z.pow_pos_nonneg; lia).
  rewrite Z.mul_comm, Z.mod_add by (apply Z.pow_nonzero; lia).
  apply Z.mod_mod, Z.pow_nonzero; lia.
Qed.

Lemma covers_iff i h : covers i h = true <-> h mod 2 ^ radix_of i = i.
Proof. unfold covers. apply Z.eqb_eq. Qed.

Lemma covers_nonneg i h : covers i h = true -> 0 <= radix_of i -> 0 <= i.
Proof.
  rewrite covers_iff. intros E Hr. rewrite <- E. apply Z.mod_pos_bound.
  by apply Z.pow_pos_nonneg.
Qed.

(** The prefix of a hash that has all the bits of [h mod 2^r] covers it. *)
Lemma covers_mod h r : 0 <= r -> covers (h mod 2 ^ r) h = true.
Proof.
  intros Hr. apply covers_iff.
  assert (H := Z.mod_pos_bound h (2 ^ r) ltac:(lia)).
  destruct (radix_of_range (h mod 2 ^ r)) as [H1 H2]; [lia|].
  assert (radix_of (h mod 2 ^ r) <= r) by (apply radix_of_le; lia).
  rewrite <- (mod_mod_pow2 h (radix_of (h mod 2 ^ r)) r) by lia.
  apply Z.mod_small. lia.
Qed.

(** Two partitions covering one hash are comparable: the shallower is a
    suffix of the deeper. *)
Lemma covers_chain i j h :
  0 <= i -> 0 <= j -> covers i h = true -> covers j h = true ->
  radix_of i <= radix_of j -> i = j mod 2 ^ radix_of i.
Proof.
  rewrite !covers_iff. intros Hi Hj Ei Ej Hle. rewrite <- Ej, mod_mod_pow2; [done|].
  assert (H := proj1 (radix_of_range i Hi)). lia.
Qed.

Lemma parent_mod i : 0 < i -> parent i = i mod 2 ^ Z.log2 i.
Proof.
  intros Hi. unfold parent. destruct (Z.ltb_spec 0 i); [|lia].
  assert (Hs := Z.log2_spec i Hi). rewrite Z.pow_succ_r in Hs by apply Z.log2_nonneg.
  apply (Z.mod_unique _ _ 1); lia.
Qed.

Lemma parent_range i : 0 <= i -> 0 <= parent i <= i.
Proof.
  intros Hi. destruct (Z.eq_dec i 0) as [->|]; [unfold parent; simpl; lia|].
  rewrite parent_mod by lia.
  assert (0 < 2 ^ Z.log2 i) by (apply Z.pow_pos_nonneg; [lia|apply Z.log2_nonneg]).
  split; [apply Z.mod_pos_bound; lia|apply Z.mod_le; lia].
Qed.

(** The child made at level [k] has the partition as its parent. *)
Lemma parent_child p k : 0 <= p -> radix_of p <= k -> parent (p + 2 ^ k) = p.
Proof.
  intros Hp Hk. destruct (radix_of_range p Hp) as [Hr Hlt].
  assert (2 ^ radix_of p <= 2 ^ k) by (apply Z.pow_le_mono_r; lia).
  assert (0 < 2 ^ k) by (apply Z.pow_pos_nonneg; lia).
  unfold parent. destruct (Z.ltb_spec 0 (p + 2 ^ k)); [|lia].
  assert (Z.log2 (p + 2 ^ k) = k) as ->; [|lia].
  apply Z.log2_unique; [lia|]. rewrite Z.pow_succ_r; lia.
Qed.

Lemma radix_of_child p k : 0 <= p -> radix_of p <= k -> radix_of (p + 2 ^ k) = k + 1.
Proof.
  intros Hp Hk. destruct (radix_of_range p Hp) as [Hr Hlt].
  assert (2 ^ radix_of p <= 2 ^ k) by (apply Z.pow_le_mono_r; lia).
  assert (0 < 2 ^ k) by (apply Z.pow_pos_nonneg; lia).
  unfold radix_of at 1. destruct (Z.eqb_spec (p + 2 ^ k) 0); [lia|]. f_equal.
  apply Z.log2_unique; [lia|]. rewrite Z.pow_succ_r; lia.
Qed.

Lemma get_radix_from_index_ok i :
  0 <= i < 2 ^ 31 -> get_radix_from_index i = Ret (radix_of i).
Proof.
  intros Hi. unfold get_radix_from_index, radix_of.
  destruct (Z.eqb_spec i 0); [done|]. destruct (Z.eqb_spec i 1) as [->|]; [done|].
  unfold floor_log2. destruct (Z.ltb_spec 0 i); [|lia]. rewrite bind_Ret. apply c_int_ok.
  assert (Z.log2 i < 31) by (apply Z.log2_lt_pow2; lia). assert (Hn := Z.log2_nonneg i). lia.
Qed.

Lemma get_parent_index_ok i : 0 <= i < 2 ^ 31 -> get_parent_index i = Ret (parent i).
Proof.
  intros Hi. unfold get_parent_index, parent. destruct (Z.ltb_spec 0 i); [|done].
  unfold floor_log2. destruct (Z.ltb_spec 0 i); [|lia]. rewrite bind_Ret.
  assert (Z.log2 i < 31) by (apply Z.log2_lt_pow2; lia). assert (Hn := Z.log2_nonneg i).
  rewrite c_one_shl_ok by lia. rewrite bind_Ret. apply c_int_ok.
  assert (Hs := Z.log2_spec i ltac:(lia)). lia.
Qed.

Lemma get_child_index_ok p k :
  0 <= p < 1024 -> 0 <= k <= 10 -> get_child_index p k = Ret (p + 2 ^ k).
Proof.
  intros Hp Hk. unfold get_child_index.
  rewrite !c_assert_true by lia. rewrite !bind_Ret, c_one_shl_ok, bind_Ret by lia.
  apply c_int_ok. assert (2 ^ k <= 2 ^ 10) by (apply Z.pow_le_mono_r; lia).
  assert (0 < 2 ^ k) by (apply Z.pow_pos_nonneg; lia). lia.
Qed.

End Indices.

(** ** Lemmas: bitmaps *)

Section Bitmaps.
Import Giga Tree.

Lemma has_nonneg bm i : has bm i = true -> 0 <= i.
Proof. unfold has. destruct (Z.leb_spec 0 i); [done|discriminate]. Qed.

Lemma div7_range i : 0 <= i -> 0 <= i / 7 /\ 0 <= i mod 7 < 7 /\ i = 7 * (i / 7) + i mod 7.
Proof.
  intros. split; [apply Z.div_pos; lia|]. split; [apply Z.mod_pos_bound; lia|].
  apply Z.div_mod. lia.
Qed.

Lemma has_lt bm i : length bm = 147%nat -> has bm i = true -> i < 1029.
Proof.
  intros Hl Hh. assert (Hi := has_nonneg _ _ Hh). unfold has in Hh.
  destruct (div7_range i Hi) as (H1 & H2 & H3).
  destruct (Z.lt_ge_cases (i / 7) 147) as [|Hge]; [lia|].
  rewrite nth_overflow in Hh by lia. rewrite Z.bits_0, andb_false_r in Hh. done.
Qed.

Lemma quot_rem_7 i : 0 <= i -> Z.quot i BITS_PER_MAP = i / 7 /\ Z.rem i BITS_PER_MAP = i mod 7.
Proof.
  intros. change BITS_PER_MAP with 7. by rewrite Z.quot_div_nonneg, Z.rem_mod_nonneg by lia.
Qed.

(** The element of the bitmap that holds the bit of [i]. *)
Lemma element_of bm i :
  bitmap_ok bm -> 0 <= i < 1029 ->
  c_read bm (i / 7) = Ret (nth (Z.to_nat (i / 7)) bm 0) /\
  0 <= nth (Z.to_nat (i / 7)) bm 0 < 2 ^ 7 /\ 0 <= i / 7 < 147.
Proof.
  intros [Hl Hb] Hi. destruct (div7_range i) as (H1 & H2 & H3); [lia|].
  destruct (lookup_lt_is_Some_2 bm (Z.to_nat (i / 7))) as [v Hv]; [lia|].
  rewrite (nth_lookup_Some _ _ 0 v Hv). split_and!; try lia.
  - by apply c_read_ok.
  - by apply (Forall_lookup_1 _ _ _ _ Hb Hv).
  - by apply (Forall_lookup_1 _ _ _ _ Hb Hv).
Qed.

Lemma land_pow2_eqb v k : 0 <= k -> (Z.land v (2 ^ k) =? 0) = negb (Z.testbit v k).
Proof.
  intros Hk. destruct (Z.testbit v k) eqn:E.
  - apply Z.eqb_neq. intros E'. assert (Hb := f_equal (fun z => Z.testbit z k) E').
    simpl in Hb. rewrite Z.land_spec, E, Z.pow2_bits_true, Z.bits_0 in Hb by lia. done.
  - apply Z.eqb_eq. apply Z.bits_inj'. intros j Hj. rewrite Z.land_spec, Z.bits_0.
    destruct (Z.eq_dec j k) as [->|]; [by rewrite E|].
    rewrite Z.pow2_bits_false by lia. apply andb_false_r.
Qed.

Lemma get_bit_status_ok bm i :
  bitmap_ok bm -> 0 <= i < 1029 ->
  get_bit_status bm i = Ret (if has bm i then 1 else 0).
Proof.
  intros Hok Hi. unfold get_bit_status.
  destruct (quot_rem_7 i) as [-> ->]; [lia|].
  destruct (div7_range i) as (H1 & H2 & H3); [lia|].
  destruct (element_of bm i Hok Hi) as (-> & Hv & _).
  rewrite c_one_shl_ok, !bind_Ret by lia.
  assert (2 ^ (i mod 7) < 2 ^ 7) by (apply Z.pow_lt_mono_r; lia).
  rewrite (u8_small (2 ^ _)) by lia.
  rewrite u8_small by (assert (Hl := land_range 7 _ (2 ^ (i mod 7)) Hv); lia).
  rewrite land_pow2_eqb by lia. unfold has. destruct (Z.leb_spec 0 i); [|lia]. simpl.
  by destruct (Z.testbit _ _).
Qed.

Lemma highest_bit_spec n v :
  0 <= v -> (n <= 7)%nat ->
  let k := highest_bit n v in
  -1 <= k < Z.of_nat n /\ (0 <= k -> Z.testbit v k = true) /\
  forall j, k < j < Z.of_nat n -> Z.testbit v j = false.
Proof.
  intros Hv. induction n as [|n IH]; intros Hn; cbn [highest_bit]; [split_and!; lia|].
  rewrite Z.shiftl_1_l, u8_small.
  2: { assert (2 ^ Z.of_nat n < 2 ^ 8) by (apply Z.pow_lt_mono_r; lia). lia. }
  rewrite land_pow2_eqb by lia. destruct (Z.testbit v (Z.of_nat n)) eqn:E; simpl.
  - split_and!; [lia|lia|done|lia].
  - destruct IH as (H1 & H2 & H3); [lia|]. split_and!; [lia|lia|done|].
    intros j Hj. destruct (Z.eq_dec j (Z.of_nat n)) as [->|]; [done|apply H3; lia].
Qed.

Lemma highest_element_spec n bm :
  (n <= length bm)%nat ->
  exists k, highest_element n bm = Ret k /\ -1 <= k < Z.of_nat n /\
    (0 <= k -> nth (Z.to_nat k) bm 0 <> 0) /\
    forall e, k < Z.of_nat e < Z.of_nat n -> nth e bm 0 = 0.
Proof.
  induction n as [|n IH]; intros Hn; cbn [highest_element].
  { exists (-1). split_and!; (done || lia). }
  destruct (lookup_lt_is_Some_2 bm n) as [v Hv]; [lia|].
  rewrite (c_read_ok bm (Z.of_nat n) v), bind_Ret by (rewrite ?Nat2Z.id; done || lia).
  assert (Hnv := nth_lookup_Some bm n 0 v Hv).
  destruct (Z.eqb_spec v 0) as [->|Hne].
  - destruct IH as (k & -> & H1 & H2 & H3); [lia|]. exists k. split_and!; [done|lia|lia|done|].
    intros e He. destruct (Nat.eq_dec e n) as [->|]; [done|apply H3; lia].
  - exists (Z.of_nat n). rewrite Nat2Z.id, Hnv. split_and!; (done || lia).
Qed.

(** The highest index is the largest partition. *)
Lemma get_highest_index_ok bm i0 :
  bitmap_ok bm -> has bm i0 = true ->
  exists k, get_highest_index bm = Ret k /\ has bm k = true /\
    forall j, has bm j = true -> j <= k.
Proof.
  intros Hok H0. assert (Hok' := Hok). destruct Hok' as [Hl Hb]. unfold get_highest_index.
  destruct (highest_element_spec 147 bm) as (e & E & He1 & He2 & He3); [lia|].
  change (Z.to_nat MAX_BMAP_LEN) with 147%nat. rewrite E, bind_Ret. clear E.
  assert (Habove : forall j, has bm j = true -> j / 7 <= e).
  { intros j Hj. assert (Hj0 := has_nonneg _ _ Hj). assert (Hjl := has_lt _ _ Hl Hj).
    destruct (Z.le_gt_cases (j / 7) e) as [|Hgt]; [done|].
    unfold has in Hj. rewrite He3 in Hj by (destruct (div7_range j Hj0); lia).
    rewrite Z.bits_0, andb_false_r in Hj. done. }
  assert (He0 : 0 <= e) by (specialize (Habove i0 H0); destruct (div7_range i0 (has_nonneg _ _ H0)); lia).
  destruct (element_of bm (7 * e) Hok) as (Hr & Hv & _); [lia|].
  assert (E7 : 7 * e / 7 = e) by (rewrite Z.mul_comm; apply Z.div_mul; lia). rewrite E7 in Hr, Hv.
  rewrite Hr, bind_Ret. set (v := nth (Z.to_nat e) bm 0) in *.
  destruct (highest_bit_spec 7 v) as (Hk1 & Hk2 & Hk3); [lia|lia|].
  change (Z.to_nat BITS_PER_MAP) with 7%nat. change BITS_PER_MAP with 7.
  set (k := highest_bit 7 v) in *.
  assert (Hk0 : 0 <= k).
  { destruct (Z.le_gt_cases 0 k) as [|Hneg]; [done|]. exfalso. apply (He2 He0).
    apply Z.bits_inj'. intros j Hj. rewrite Z.bits_0. fold v.
    destruct (Z.lt_ge_cases j 7); [apply Hk3; lia|by apply (testbit_out 7); lia]. }
  exists (e * 7 + k). rewrite c_assert_true, bind_Ret by lia. split; [done|].
  assert (Hd : forall x, 0 <= x < 7 -> (e * 7 + x) / 7 = e /\ (e * 7 + x) mod 7 = x).
  { intros x Hx. rewrite Z.add_comm, Z.div_add, Z.mod_add, Z.div_small, Z.mod_small by lia. lia. }
  split.
  - unfold has. destruct (Z.leb_spec 0 (e * 7 + k)); [|lia]. destruct (Hd k) as [-> ->]; [lia|].
    apply Hk2. lia.
  - intros j Hj. assert (Hj0 := has_nonneg _ _ Hj). specialize (Habove j Hj).
    destruct (div7_range j Hj0) as (Hj1 & Hj2 & Hj3).
    destruct (Z.eq_dec (j / 7) e) as [Ee|]; [|lia].
    destruct (Z.le_gt_cases (j mod 7) k); [lia|]. exfalso.
    unfold has in Hj. rewrite Ee in Hj. fold v in Hj. rewrite Hk3 in Hj by lia.
    rewrite andb_false_r in Hj. done.
Qed.

Lemma get_radix_from_bmap_ok bm i0 :
  bitmap_ok bm -> has bm i0 = true ->
  exists r, get_radix_from_bmap bm = Ret r /\ 0 <= r <= 11 /\
    (forall j, has bm j = true -> radix_of j <= r) /\
    (forall b, (forall j, has bm j = true -> j < 2 ^ b) -> 0 <= b -> r <= b).
Proof.
  intros Hok H0. destruct (get_highest_index_ok bm i0 Hok H0) as (k & E & Hk & Hmax).
  assert (Hk0 := has_nonneg _ _ Hk). assert (Hkl := has_lt _ _ (proj1 Hok) Hk).
  unfold get_radix_from_bmap. rewrite E, bind_Ret, get_radix_from_index_ok by lia.
  exists (radix_of k). destruct (radix_of_range k Hk0). split_and!; [done|done| | |].
  - apply radix_of_le; lia.
  - intros j Hj. assert (Hj0 := has_nonneg _ _ Hj). apply radix_of_le; [done|done|].
    specialize (Hmax j Hj). lia.
  - intros b Hb Hb0. apply radix_of_le; auto.
Qed.

(** Writing one element: the bits of the others stay. *)
Lemma has_write bm e v i :
  length bm = 147%nat -> 0 <= e < 147 -> 0 <= i ->
  has (<[Z.to_nat e := v]> bm) i =
    if i / 7 =? e then Z.testbit v (i mod 7) else has bm i.
Proof.
  intros Hl He Hi. unfold has. destruct (Z.leb_spec 0 i); [|lia]. simpl.
  destruct (div7_range i Hi) as (H1 & H2 & H3). destruct (Z.eqb_spec (i / 7) e) as [->|Hne].
  - rewrite (nth_lookup_Some _ _ 0 v); [done|]. apply list_lookup_insert_eq. lia.
  - rewrite !nth_lookup, list_lookup_insert_ne by lia. done.
Qed.

Lemma bitmap_ok_write bm e v :
  bitmap_ok bm -> 0 <= v < 2 ^ 7 -> bitmap_ok (<[e := v]> bm).
Proof. intros [Hl Hb] Hv. split; [by rewrite length_insert|by apply Forall_insert]. Qed.

Lemma same_bit i c : 0 <= i -> 0 <= c -> i / 7 = c / 7 -> i mod 7 = c mod 7 -> i = c.
Proof. intros. destruct (div7_range i), (div7_range c); lia. Qed.

Lemma set_bit_spec v k j :
  0 <= k < 7 -> 0 <= j < 7 ->
  Z.testbit v j || Z.testbit (2 ^ k) j = if j =? k then true else Z.testbit v j.
Proof.
  intros Hk Hj. rewrite Z.pow2_bits_eqb by lia. rewrite Z.eqb_sym.
  destruct (j =? k); [apply orb_true_r|apply orb_false_r].
Qed.

Lemma clear_bit_spec v k j :
  0 <= k < 7 -> 0 <= j < 7 ->
  Z.testbit (Z.land v (Z.lnot (2 ^ k))) j = if j =? k then false else Z.testbit v j.
Proof.
  intros Hk Hj. rewrite Z.land_spec, Z.lnot_spec, Z.pow2_bits_eqb by lia. rewrite Z.eqb_sym.
  destruct (j =? k); [apply andb_false_r|apply andb_true_r].
Qed.

(** Storing the element of [c] with the bit of [c] set to [b]. *)
Lemma has_write_bit bm c w b :
  bitmap_ok bm -> 0 <= c < 1029 ->
  (forall j, 0 <= j < 7 -> Z.testbit w j =
     if j =? c mod 7 then b else Z.testbit (nth (Z.to_nat (c / 7)) bm 0) j) ->
  forall i, 0 <= i -> has (<[Z.to_nat (c / 7) := w]> bm) i = if i =? c then b else has bm i.
Proof.
  intros Hok Hc Hw i Hi. destruct (element_of bm c Hok Hc) as (_ & _ & He).
  rewrite has_write by (apply Hok || lia).
  destruct (div7_range i Hi) as (H1 & H2 & H3).
  destruct (Z.eqb_spec (i / 7) (c / 7)) as [E|E].
  - rewrite Hw by lia. unfold has. destruct (Z.leb_spec 0 i); [|lia]. rewrite <- E. simpl.
    destruct (Z.eqb_spec (i mod 7) (c mod 7)) as [E'|E'], (Z.eqb_spec i c) as [->|Hne]; try done.
    exfalso. by apply Hne, same_bit; try lia.
  - by destruct (Z.eqb_spec i c) as [->|].
Qed.

(** [giga_update_mapping] adds one partition and changes nothing else. *)
Lemma giga_update_mapping_ok m c :
  bitmap_ok (bitmap m) -> 0 <= c < 1029 ->
  exists m', giga_update_mapping m c = Ret m' /\ bitmap_ok (bitmap m') /\
    (forall i, has (bitmap m') i = (i =? c) || has (bitmap m) i) /\
    zeroth_server m' = zeroth_server m /\ server_count m' = server_count m.
Proof.
  intros Hok Hc. unfold giga_update_mapping. destruct (quot_rem_7 c) as [-> ->]; [lia|].
  destruct (div7_range c) as (H1 & H2 & H3); [lia|].
  destruct (element_of (bitmap m) c Hok Hc) as (-> & Hv & He).
  assert (Hp : 0 <= 2 ^ (c mod 7) < 2 ^ 7)
    by (split; [apply Z.pow_nonneg; lia|apply Z.pow_lt_mono_r; lia]).
  rewrite c_one_shl_ok, !bind_Ret, (u8_small (2 ^ _)) by lia.
  assert (Hlor := lor_range 7 _ (2 ^ (c mod 7)) Hv Hp ltac:(lia)).
  rewrite u8_small, c_write_ok, bind_Ret by (rewrite ?(proj1 Hok); lia).
  assert (Hok' := bitmap_ok_write _ (Z.to_nat (c / 7)) _ Hok Hlor).
  assert (Hhas := has_write_bit (bitmap m) c _ true Hok Hc (fun j Hj => 
    eq_trans (Z.lor_spec _ (2 ^ (c mod 7)) j) (set_bit_spec _ _ _ H2 Hj))).
  destruct (get_radix_from_bmap_ok _ c Hok') as (r & -> & _);
    [by rewrite Hhas, Z.eqb_refl by lia|].
  rewrite bind_Ret. eexists. split; [reflexivity|]. split; [done|]. split; [|done].
  intros i. cbn [bitmap]. destruct (Z.le_gt_cases 0 i); [rewrite Hhas by done; by destruct (i =? c)|].
  unfold has. destruct (Z.leb_spec 0 i), (Z.eqb_spec i c); (lia || done).
Qed.

(** [giga_update_mapping_remove] removes one partition, if another is left. *)
Lemma giga_update_mapping_remove_ok m c j :
  bitmap_ok (bitmap m) -> 0 <= c < 1029 -> has (bitmap m) j = true -> j <> c ->
  exists m', giga_update_mapping_remove m c = Ret m' /\ bitmap_ok (bitmap m') /\
    (forall i, has (bitmap m') i = negb (i =? c) && has (bitmap m) i) /\
    zeroth_server m' = zeroth_server m /\ server_count m' = server_count m.
Proof.
  intros Hok Hc Hj Hne. unfold giga_update_mapping_remove. destruct (quot_rem_7 c) as [-> ->]; [lia|].
  destruct (div7_range c) as (H1 & H2 & H3); [lia|].
  destruct (element_of (bitmap m) c Hok Hc) as (-> & Hv & He).
  assert (Hp : 0 <= 2 ^ (c mod 7) < 2 ^ 7)
    by (split; [apply Z.pow_nonneg; lia|apply Z.pow_lt_mono_r; lia]).
  rewrite c_one_shl_ok, !bind_Ret, (u8_small (2 ^ _)) by lia.
  assert (Hland := land_range 7 _ (Z.lnot (2 ^ (c mod 7))) Hv ltac:(lia)).
  rewrite u8_small, c_write_ok, bind_Ret by (rewrite ?(proj1 Hok); lia).
  assert (Hok' := bitmap_ok_write _ (Z.to_nat (c / 7)) _ Hok Hland).
  assert (Hhas := has_write_bit (bitmap m) c _ false Hok Hc (fun j Hj => 
    clear_bit_spec _ (c mod 7) _ H2 Hj)).
  assert (Hjc : (j =? c) = false) by (by apply Z.eqb_neq).
  destruct (get_radix_from_bmap_ok _ j Hok') as (r & -> & _).
  { rewrite Hhas, Hjc by (by apply (has_nonneg (bitmap m))). done. }
  rewrite bind_Ret. eexists. split; [reflexivity|]. split; [done|]. split; [|done].
  intros i. cbn [bitmap]. destruct (Z.le_gt_cases 0 i); [rewrite Hhas by done; by destruct (i =? c)|].
  unfold has. destruct (Z.leb_spec 0 i), (Z.eqb_spec i c); (lia || done).
Qed.

Lemma has_join a b i :
  bitmap_ok a -> bitmap_ok b ->
  has (zip_with (fun x y => u8 (Z.lor x y)) a b) i = has a i || has b i.
Proof.
  intros [Hla Ha] [Hlb Hb]. destruct (Z.le_gt_cases 0 i) as [Hi|Hi].
  2: { unfold has. destruct (Z.leb_spec 0 i); (lia || done). }
  unfold has. destruct (Z.leb_spec 0 i); [|lia]. simpl. rewrite !nth_lookup.
  destruct (Nat.lt_ge_cases (Z.to_nat (i / 7)) 147).
  - destruct (lookup_lt_is_Some_2 a (Z.to_nat (i / 7))) as [x Hx]; [lia|].
    destruct (lookup_lt_is_Some_2 b (Z.to_nat (i / 7))) as [y Hy]; [lia|].
    rewrite lookup_zip_with, Hx, Hy. simpl.
    assert (Hx' := Forall_lookup_1 _ _ _ _ Ha Hx). assert (Hy' := Forall_lookup_1 _ _ _ _ Hb Hy).
    simpl in Hx', Hy'. rewrite u8_small by (assert (Hl := lor_range 7 x y Hx' Hy'); lia).
    apply Z.lor_spec.
  - rewrite !lookup_ge_None_2 by (rewrite ?length_zip_with; lia). simpl. by rewrite !Z.bits_0.
Qed.

Lemma bitmap_ok_join a b :
  bitmap_ok a -> bitmap_ok b -> bitmap_ok (zip_with (fun x y => u8 (Z.lor x y)) a b).
Proof.
  intros [Hla Ha] [Hlb Hb]. split; [rewrite length_zip_with; lia|].
  apply Forall_lookup_2. intros i z Hz. apply lookup_zip_with_Some in Hz as (x & y & -> & Hx & Hy).
  assert (Hx' := Forall_lookup_1 _ _ _ _ Ha Hx). assert (Hy' := Forall_lookup_1 _ _ _ _ Hb Hy).
  simpl in Hx', Hy'. assert (Hl := lor_range 7 x y Hx' Hy' ltac:(lia)). rewrite u8_small; lia.
Qed.

(** [giga_update_cache] is the union of the two sets of partitions. *)
Lemma giga_update_cache_ok a b i0 :
  bitmap_ok (bitmap a) -> bitmap_ok (bitmap b) -> has (bitmap a) i0 = true ->
  exists m, giga_update_cache a b = Ret m /\ bitmap_ok (bitmap m) /\
    (forall i, has (bitmap m) i = has (bitmap a) i || has (bitmap b) i) /\
    zeroth_server m = zeroth_server a /\
    server_count m = Z.max (server_count a) (server_count b).
Proof.
  intros Ha Hb H0. unfold giga_update_cache.
  assert (Hok := bitmap_ok_join _ _ Ha Hb).
  destruct (get_radix_from_bmap_ok _ i0 Hok) as (r & -> & _).
  { by rewrite has_join, H0 by done. }
  rewrite bind_Ret. eexists. split; [reflexivity|]. cbn [bitmap zeroth_server server_count].
  split_and!; [done|intros; by apply has_join|done|].
  destruct (Z.ltb_spec (server_count a) (server_count b)); lia.
Qed.

End Bitmaps.

(** ** Lemmas: hashing a name *)

Section Hashing.
Import Giga Tree.

Lemma compute_index_digest hv bin r :
  Hex.hex2binary hv = bin -> length bin = 20%nat -> Forall is_byte bin -> 0 <= r < 10 ->
  compute_index hv r = Ret ((nth 19 bin 0 + 256 * nth 18 bin 0) mod 2 ^ r).
Proof.
  intros E Hl Hb Hr. unfold compute_index. rewrite c_assert_true, bind_Ret, E by (unfold MAX_RADIX; lia).
  assert (Hrd : forall k, (k < 20)%nat -> c_read bin (Z.of_nat k) = Ret (nth k bin 0) /\ is_byte (nth k bin 0)).
  { intros k Hk. destruct (lookup_lt_is_Some_2 bin k) as [v Hv]; [lia|].
    rewrite (nth_lookup_Some _ _ 0 v Hv). split; [|by apply (Forall_lookup_1 _ _ _ _ Hb Hv)].
    apply c_read_ok; [lia|]. by rewrite Nat2Z.id. }
  destruct (Hrd 19%nat) as [R19 B19]; [lia|]. destruct (Hrd 18%nat) as [R18 B18]; [lia|].
  unfold is_byte in B19, B18.
  set (b19 := nth 19 bin 0) in *. set (b18 := nth 18 bin 0) in *.
  assert (Hmask : forall x k, 0 <= k -> Z.land x (2 ^ k - 1) = x mod 2 ^ k).
  { intros x k Hk. rewrite <- Z.land_ones by done. by rewrite Z.ones_equiv, <- Z.sub_1_r. }
  destruct (Z.lt_ge_cases r 8) as [Hlt|Hge].
  - assert (Eq : u64 r / 8 = 0) by (rewrite u64_small by lia; apply Z.div_small; lia).
    assert (Em : u64 r mod 8 = r) by (rewrite u64_small by lia; apply Z.mod_small; lia).
    rewrite Eq, Em, (i32_small r) by lia. change (i32 0) with 0.
    assert (En : Z.to_nat ((if negb (r =? 0) || (0 <? 0) then 0 + 1 else 0) - 1) = 0%nat)
      by (by destruct (r =? 0)).
    rewrite En. cbn [whole_bytes]. rewrite bind_Ret. change (Sha1.SHA1_HASH_SIZE - 1 - Z.of_nat 0) with 19.
    change 19 with (Z.of_nat 19). rewrite R19, bind_Ret, c_one_shl_ok, bind_Ret, Hmask by lia.
    assert (0 < 2 ^ r <= 2 ^ 8) by (split; [apply Z.pow_pos_nonneg|apply Z.pow_le_mono_r]; lia).
    assert (Hm := Z.mod_pos_bound b19 (2 ^ r) ltac:(lia)).
    change (Z.of_nat 0 * 8) with 0. rewrite Z.shiftl_0_r, c_int_ok, bind_Ret, c_int_ok by lia.
    f_equal. replace 256 with (2 ^ (8 - r) * 2 ^ r) by (rewrite <- Z.pow_add_r by lia; by replace (8 - r + r) with 8 by lia).
    replace (2 ^ (8 - r) * 2 ^ r * b18) with (b18 * 2 ^ (8 - r) * 2 ^ r) by ring.
    rewrite Z.mod_add by lia. done.
  - assert (r = 8 \/ r = 9) as Hr89 by lia.
    change (c_read bin (Z.of_nat 19)) with (c_read bin 19) in R19.
    change (c_read bin (Z.of_nat 18)) with (c_read bin 18) in R18.
    assert (En : forall q, (q = 0 \/ q = 1) -> 
      Z.to_nat ((if negb (q =? 0) || (0 <? 1) then 1 + 1 else 1) - 1) = 1%nat) by (by intros q [-> | ->]).
    assert (Eq : i32 (u64 r / 8) = 1 /\ i32 (u64 r mod 8) = r - 8) by (destruct Hr89 as [-> | ->]; by vm_compute).
    destruct Eq as [-> ->]. rewrite En by lia. cbn [whole_bytes].
    change (Sha1.SHA1_HASH_SIZE - 1 - 0) with 19. rewrite R19, !bind_Ret.
    change (0 * 8) with 0. rewrite Z.shiftl_0_r, c_int_ok, bind_Ret, c_int_ok, !bind_Ret by lia.
    change (Sha1.SHA1_HASH_SIZE - 1 - Z.of_nat 1) with 18. rewrite R18, bind_Ret.
    rewrite c_one_shl_ok, bind_Ret, Hmask by lia. change (Z.of_nat 1 * 8) with 8.
    rewrite Z.shiftl_mul_pow2 by lia.
    assert (Hm : 0 <= b18 mod 2 ^ (r - 8) < 2).
    { assert (0 < 2 ^ (r - 8) <= 2 ^ 1) by (split; [apply Z.pow_pos_nonneg|apply Z.pow_le_mono_r]; lia).
      assert (Hx := Z.mod_pos_bound b18 (2 ^ (r - 8))). lia. }
    rewrite c_int_ok, bind_Ret, c_int_ok by lia. f_equal.
    replace (2 ^ r) with (2 ^ 8 * 2 ^ (r - 8)) by (rewrite <- Z.pow_add_r by lia; f_equal; lia).
    rewrite Z.rem_mul_r by lia. change (2 ^ 8) with 256.
    replace (b19 + 256 * b18) with (b19 + b18 * 256) by ring.
    rewrite Z.mod_add, Z.div_add, (Z.mod_small b19), (Z.div_small b19), !Z.add_0_l by lia. lia.
Qed.

(** The hash of a name and the index a number of its bits select. *)
Lemma giga_hash_name_ok f :
  name_ok f ->
  exists hv, giga_hash_name f = Ret hv /\
    forall r, 0 <= r < 10 -> compute_index hv r = Ret (name_hash f mod 2 ^ r).
Proof.
  intros Hf. unfold name_ok in Hf. unfold giga_hash_name.
  rewrite i32_small, u32_small by lia.
  rewrite take_ge by (rewrite bytes_of_string_length; lia).
  rewrite Sha1Facts.shahash_spec;
    [|done|apply bytes_of_string_bytes|rewrite bytes_of_string_length; lia].
  cbn [mbind outcome_bind mret outcome_ret]. eexists. split; [reflexivity|].
  intros r Hr. set (d := Fips.sha1 (bytes_of_string f)).
  assert (Hd := Sha1Facts.sha1_bytes (bytes_of_string f)).
  assert (Hl := Sha1Facts.sha1_length (bytes_of_string f)).
  apply (compute_index_digest _ d); [|done|done|done].
  change (Z.to_nat HASH_LEN) with (2 * 20)%nat. rewrite <- Hl. fold d.
  unfold Hex.binary2hex. rewrite take_app_length' by (by rewrite HexFacts.hex_text_length).
  rewrite <- (app_nil_r (concat _)), HexFacts.hex2binary_concat by done. apply app_nil_r.
Qed.

Lemma name_hash_nonneg f : 0 <= name_hash f.
Proof.
  unfold name_hash. assert (Hd := Sha1Facts.sha1_bytes (bytes_of_string f)).
  assert (forall k, 0 <= nth k (Fips.sha1 (bytes_of_string f)) 0); [|generalize (H 19%nat), (H 18%nat); lia].
  intros k. destruct (nth_in_or_default k (Fips.sha1 (bytes_of_string f)) 0) as [Hin| ->]; [|lia].
  rewrite List.Forall_forall in Hd. specialize (Hd _ Hin). unfold is_byte in Hd. lia.
Qed.

End Hashing.

(** ** Lemmas: finding the partition of a name *)

Section Finding.
Import Giga Tree.

(** Climbing from the [r]-bit suffix of [h] reaches the owner, provided no
    existing partition deeper than [r] covers [h]. *)
Lemma nearest_ancestor_owner bm h n :
  bitmap_ok bm -> has bm 0 = true -> (n <= 10)%nat ->
  forall fuel, (n < fuel)%nat ->
  (forall j, has bm j = true -> covers j h = true -> radix_of j <= Z.of_nat n) ->
  exists i, nearest_ancestor fuel bm (h mod 2 ^ Z.of_nat n) = Ret i /\ owner bm h i.
Proof.
  intros Hok H0. induction n as [n IH] using lt_wf_ind. intros Hn fuel Hf Hdeep.
  destruct fuel as [|fuel]; [lia|]. cbn [nearest_ancestor].
  set (x := h mod 2 ^ Z.of_nat n).
  assert (Hpow : 0 < 2 ^ Z.of_nat n <= 2 ^ 10) by (split; [apply Z.pow_pos_nonneg|apply Z.pow_le_mono_r]; lia).
  assert (Hx : 0 <= x < 2 ^ Z.of_nat n) by (apply Z.mod_pos_bound; lia).
  rewrite get_bit_status_ok, bind_Ret by (done || lia).
  destruct (has bm x) eqn:Ex; cbn [Z.eqb].
  - exists x. split; [done|]. split; [done|]. split; [by apply covers_mod; lia|].
    intros j Hj Hc. assert (Hj0 := has_nonneg _ _ Hj). specialize (Hdeep j Hj Hc).
    destruct (radix_of_range j Hj0) as [Hrj _]. apply covers_iff in Hc.
    rewrite <- Hc, <- (mod_mod_pow2 h (radix_of j) (Z.of_nat n)) by lia. fold x.
    apply Z.mod_le; lia.
  - assert (Hx0 : 0 < x) by (destruct (Z.eq_dec x 0) as [E|]; [rewrite E in Ex; congruence|lia]).
    assert (Hlog : 0 <= Z.log2 x < Z.of_nat n)
      by (split; [apply Z.log2_nonneg|apply Z.log2_lt_pow2; lia]).
    rewrite get_parent_index_ok, bind_Ret, parent_mod by lia. unfold x.
    rewrite mod_mod_pow2 by (fold x; lia). fold x.
    rewrite <- (Z2Nat.id (Z.log2 x)) by lia. apply IH; [lia|lia|lia|].
    intros j Hj Hc. rewrite Z2Nat.id by lia. assert (Hj0 := has_nonneg _ _ Hj).
    specialize (Hdeep j Hj Hc). destruct (radix_of_range j Hj0) as [Hrj _].
    destruct (Z.le_gt_cases (radix_of j) (Z.log2 x)) as [|Hgt]; [done|exfalso].
    apply covers_iff in Hc. assert (Hxs := Z.log2_spec x Hx0).
    assert (2 ^ Z.succ (Z.log2 x) <= 2 ^ radix_of j) by (apply Z.pow_le_mono_r; lia).
    assert (j = x); [|congruence].
    rewrite <- Hc, <- (mod_mod_pow2 h (radix_of j) (Z.of_nat n)) by lia. fold x.
    apply Z.mod_small. lia.
Qed.

Lemma owner_unique bm h i j : owner bm h i -> owner bm h j -> i = j.
Proof. intros (Hi & Ci & Mi) (Hj & Cj & Mj). specialize (Mi j Hj Cj). specialize (Mj i Hi Ci). lia. Qed.

(** The lookup returns, and what it returns is the owner of the name's hash. *)
Lemma index_for_file_owner m f :
  wf_mapping m -> name_ok f ->
  exists i, giga_get_index_for_file m f = Ret i /\ owner (bitmap m) (name_hash f) i.
Proof.
  intros (Hok & (H0 & Hcl & Hbd) & _) Hf. unfold giga_get_index_for_file.
  destruct (giga_hash_name_ok f Hf) as (hv & -> & Hci). rewrite bind_Ret.
  destruct (get_radix_from_bmap_ok (bitmap m) 0 Hok H0) as (r & -> & Hr & Hrj & Hb).
  assert (Hr9 : r <= 9) by (apply Hb; [intros j Hj; apply (Hbd j Hj)|lia]).
  rewrite bind_Ret, Hci, bind_Ret by lia.
  rewrite <- (Z2Nat.id r) by lia.
  destruct (nearest_ancestor_owner (bitmap m) (name_hash f) (Z.to_nat r) Hok H0)
    with (fuel := S (Z.to_nat MAX_RADIX)) as (i & -> & Ho).
  { lia. } { change (Z.to_nat MAX_RADIX) with 10%nat. lia. }
  { intros j Hj _. rewrite Z2Nat.id by lia. by apply Hrj. }
  exists i. split; [|done]. destruct Ho as (Hi & _ & _).
  rewrite bind_Ret, get_bit_status_ok, Hi, bind_Ret; [done|done|].
  assert (Hi0 := has_nonneg _ _ Hi). specialize (Hbd i Hi). lia.
Qed.

Lemma migration_status_ok f c :
  name_ok f -> 0 <= c < 512 ->
  giga_file_migration_status f c = Ret (if covers c (name_hash f) then 1 else 0).
Proof.
  intros Hf Hc. unfold giga_file_migration_status.
  destruct (giga_hash_name_ok f Hf) as (hv & -> & Hci). rewrite bind_Ret.
  rewrite get_radix_from_index_ok, bind_Ret by lia.
  destruct (radix_of_range c) as [Hr _]; [lia|].
  assert (radix_of c <= 9) by (apply radix_of_le; lia).
  rewrite Hci, bind_Ret by lia. done.
Qed.

End Finding.

(** ** Lemmas: splitting *)

Section Splitting.
Import Giga Tree.

(** Every suffix of an existing partition exists. *)
Lemma has_suffix bm r i :
  tree_ok bm -> 0 <= r -> 0 <= i -> has bm i = true -> has bm (i mod 2 ^ r) = true.
Proof.
  intros (H0 & Hcl & _) Hr Hi. revert i Hi.
  apply (Z_lt_induction (fun i => has bm i = true -> has bm (i mod 2 ^ r) = true)).
  intros i IH Hi. assert (Hi0 := has_nonneg _ _ Hi).
  assert (Hp : 0 < 2 ^ r) by (apply Z.pow_pos_nonneg; lia).
  destruct (Z.lt_ge_cases i (2 ^ r)) as [Hlt|Hge]; [by rewrite Z.mod_small|].
  assert (r <= Z.log2 i) by (apply Z.log2_le_pow2; lia).
  rewrite <- (mod_mod_pow2 i r (Z.log2 i)), <- parent_mod by lia.
  assert (Hs := Z.log2_spec i ltac:(lia)).
  apply IH; [|by apply Hcl]. split; [apply parent_range; lia|].
  rewrite parent_mod by lia. assert (Hm := Z.mod_pos_bound i (2 ^ Z.log2 i)). lia.
Qed.

Lemma covers_parent p k h :
  0 <= p -> radix_of p <= k -> covers (p + 2 ^ k) h = true -> covers p h = true.
Proof.
  intros Hp Hk Hc. destruct (radix_of_range p Hp) as [Hr Hlt].
  apply covers_iff in Hc. rewrite radix_of_child in Hc by done. apply covers_iff.
  rewrite <- (mod_mod_pow2 h _ (k + 1)), Hc by lia.
  replace (2 ^ k) with (2 ^ (k - radix_of p) * 2 ^ radix_of p)
    by (rewrite <- Z.pow_add_r by lia; f_equal; lia).
  rewrite Z.mod_add, Z.mod_small by lia. done.
Qed.

(** Adding the child [p + 2^k] takes from [p] the hashes it covers and leaves
    every other hash where it was. *)
Lemma owner_split bm bm' p k h i :
  tree_ok bm -> has bm p = true -> radix_of p <= k -> has bm (p + 2 ^ k) = false ->
  (forall j, has bm' j = (j =? p + 2 ^ k) || has bm j) ->
  owner bm h i ->
  (covers (p + 2 ^ k) h = true -> i = p) /\
  owner bm' h (if covers (p + 2 ^ k) h then p + 2 ^ k else i).
Proof.
  intros Ht Hp Hk Hnc Hbm' (Hi & Ci & Mi). set (c := p + 2 ^ k) in *.
  assert (Hp0 := has_nonneg _ _ Hp). assert (Hi0 := has_nonneg _ _ Hi).
  destruct (radix_of_range p Hp0) as [Hrp Hp2]. destruct (radix_of_range i Hi0) as [Hri Hi2].
  assert (Hk2 : 0 < 2 ^ k) by (apply Z.pow_pos_nonneg; lia).
  assert (Hrc : radix_of c = k + 1) by (by apply radix_of_child).
  destruct (covers c h) eqn:Hc.
  2: { split; [done|]. split; [by rewrite Hbm', Hi, orb_true_r|]. split; [done|].
       intros j Hj Cj. rewrite Hbm' in Hj. destruct (Z.eqb_spec j c) as [Ej|]; [congruence|].
       by apply Mi. }
  assert (Cp := covers_parent p k h Hp0 Hk Hc). assert (Hle := Mi p Hp Cp).
  assert (Eip : i = p).
  { destruct (Z.eq_dec i p) as [|Hne]; [done|exfalso].
    destruct (Z.le_gt_cases (radix_of i) k) as [Hik|Hik].
    - assert (E := covers_chain i c h Hi0 ltac:(lia) Ci Hc ltac:(lia)).
      unfold c in E. replace (2 ^ k) with (2 ^ (k - radix_of i) * 2 ^ radix_of i) in E
        by (rewrite <- Z.pow_add_r by lia; f_equal; lia).
      rewrite Z.mod_add in E by lia.
      assert (Hm := Z.mod_le p (2 ^ radix_of i) Hp0 ltac:(lia)). lia.
    - assert (E := covers_chain c i h ltac:(lia) Hi0 Hc Ci ltac:(lia)). rewrite Hrc in E.
      assert (Hs := has_suffix bm (k + 1) i Ht ltac:(lia) Hi0 Hi). congruence. }
  split; [done|]. split; [by rewrite Hbm', Z.eqb_refl|]. split; [done|].
  intros j Hj Cj. rewrite Hbm' in Hj. destruct (Z.eqb_spec j c) as [Ej|]; [lia|].
  specialize (Mi j Hj Cj). lia.
Qed.

Lemma first_free_child_ok bm p fuel k :
  bitmap_ok bm -> 0 <= p -> radix_of p <= k -> p + 512 < 1024 -> has bm (p + 512) = false ->
  k <= 9 -> (Z.to_nat (9 - k) < fuel)%nat ->
  exists i, first_free_child fuel bm p k = Ret (p + 2 ^ i) /\ k <= i <= 9 /\
    has bm (p + 2 ^ i) = false /\ forall l, k <= l < i -> has bm (p + 2 ^ l) = true.
Proof.
  intros Hok Hp Hrk Hp9 H9. destruct (radix_of_range p Hp) as [Hr Hlt].
  revert k Hrk. induction fuel as [|fuel IH]; intros k Hrk Hk Hf; [lia|].
  cbn [first_free_child]. rewrite c_assert_true, bind_Ret by (unfold MAX_RADIX; lia).
  assert (2 ^ radix_of p <= 2 ^ k <= 2 ^ 9) by (split; apply Z.pow_le_mono_r; lia).
  rewrite get_child_index_ok, bind_Ret, get_bit_status_ok, bind_Ret by (done || lia).
  destruct (has bm (p + 2 ^ k)) eqn:E; cbn [Z.eqb].
  - assert (k <> 9) by (intros ->; change (2 ^ 9) with 512 in E; congruence).
    destruct (IH (k + 1)) as (i & -> & Hi & Hni & Hall); [lia|lia|lia|].
    exists i. split_and!; [done|lia|lia|done|]. intros l Hl.
    destruct (Z.eq_dec l k) as [->|]; [done|apply Hall; lia].
  - exists k. split_and!; [done|lia|lia|done|]. intros; lia.
Qed.

(** In a well-formed mapping every partition can be given a next child. *)
Lemma index_for_splitting_ok m p :
  wf_mapping m -> has (bitmap m) p = true ->
  exists k, giga_index_for_splitting m p = Ret (p + 2 ^ k) /\ radix_of p <= k <= 9 /\
    has (bitmap m) (p + 2 ^ k) = false /\
    forall l, radix_of p <= l < k -> has (bitmap m) (p + 2 ^ l) = true.
Proof.
  intros (Hok & (H0 & Hcl & Hbd) & _) Hp. assert (Hp0 := has_nonneg _ _ Hp).
  assert (Hp512 := Hbd p Hp). destruct (radix_of_range p Hp0) as [Hr Hlt].
  assert (Hr9 : radix_of p <= 9) by (apply radix_of_le; lia).
  unfold giga_index_for_splitting.
  rewrite get_bit_status_ok, Hp, !bind_Ret, c_assert_true, bind_Ret by (done || lia).
  rewrite get_radix_from_index_ok, bind_Ret by lia.
  destruct (first_free_child_ok (bitmap m) p (S (Z.to_nat MAX_RADIX)) (radix_of p))
    as (k & -> & Hk & Hnk & Hall); try (done || lia).
  { destruct (has (bitmap m) (p + 512)) eqn:E; [|done]. specialize (Hbd _ E). lia. }
  { change (Z.to_nat MAX_RADIX) with 10%nat. lia. }
  assert (0 < 2 ^ k) by (apply Z.pow_pos_nonneg; lia).
  exists k. rewrite bind_Ret, c_assert_true by (apply negb_true_iff, Z.eqb_neq; lia).
  done.
Qed.

(** The bit status is only read inside the bitmap. *)
Lemma get_bit_status_inv bm i s :
  bitmap_ok bm -> get_bit_status bm i = Ret s -> 0 <= i < 1029.
Proof.
  intros [Hl _] E. unfold get_bit_status in E. run_inv.
  unfold c_one_shl in Hrun. change BITS_PER_MAP with 7 in *.
  destruct (Z.leb_spec 0 (Z.rem i 7)); [|discriminate].
  apply c_read_inv in Hrun0 as [H1 H2]. apply lookup_lt_Some in H2. rewrite Hl in H2.
  assert (Hqr := Z.quot_rem i 7 ltac:(lia)). assert (Hr := Z.rem_bound_abs i 7 ltac:(lia)). lia.
Qed.

(** A partition that can be split exists. *)
Lemma split_parent_exists m p c :
  wf_mapping m -> giga_index_for_splitting m p = Ret c -> has (bitmap m) p = true.
Proof.
  intros (Hok & _) E. unfold giga_index_for_splitting in E. run_inv.
  assert (Hr := get_bit_status_inv _ _ _ Hok Hrun).
  rewrite get_bit_status_ok in Hrun by done. injection Hrun as <-.
  by destruct (has (bitmap m) p).
Qed.

(** The invariant survives the addition of a child below 512. *)
Lemma wf_add_child m m' p k :
  wf_mapping m -> has (bitmap m) p = true -> radix_of p <= k -> p + 2 ^ k < 512 ->
  giga_update_mapping m (p + 2 ^ k) = Ret m' -> wf_mapping m'.
Proof.
  intros (Hok & (H0 & Hcl & Hbd) & Hsc & Hz) Hp Hk Hlt E. assert (Hp0 := has_nonneg _ _ Hp).
  destruct (radix_of_range p Hp0) as [Hr _].
  assert (0 < 2 ^ k) by (apply Z.pow_pos_nonneg; lia).
  destruct (giga_update_mapping_ok m (p + 2 ^ k) Hok) as (m1 & E1 & Hok1 & Hh1 & Hz1 & Hs1); [lia|].
  rewrite E in E1. injection E1 as ->. split; [done|]. split; [|by rewrite Hz1, Hs1].
  split; [by rewrite Hh1, H0, orb_true_r|]. split.
  - intros i Hi. rewrite Hh1 in Hi |- *. destruct (Z.eqb_spec i (p + 2 ^ k)) as [Ei|].
    + by rewrite Ei, parent_child, Hp, orb_true_r.
    + by rewrite (Hcl i Hi), orb_true_r.
  - intros i Hi. rewrite Hh1 in Hi. destruct (Z.eqb_spec i (p + 2 ^ k)); [lia|by apply Hbd].
Qed.

Lemma wf_join a b m :
  wf_mapping a -> wf_mapping b -> giga_update_cache a b = Ret m -> wf_mapping m.
Proof.
  intros (Hoa & (H0 & Hca & Hba) & Hsa & Hza) (Hob & (_ & Hcb & Hbb) & Hsb & Hzb) E.
  destruct (giga_update_cache_ok a b 0 Hoa Hob H0) as (m1 & E1 & Hok & Hh & Hz & Hs).
  rewrite E in E1. injection E1 as ->. split; [done|]. split; [|rewrite Hz, Hs; lia].
  split; [by rewrite Hh, H0|]. split.
  - intros i Hi. rewrite Hh in Hi |- *. apply orb_true_iff in Hi as [Hi|Hi].
    + by rewrite (Hca i Hi).
    + by rewrite (Hcb i Hi), orb_true_r.
  - intros i Hi. rewrite Hh in Hi. apply orb_true_iff in Hi as [Hi|Hi]; auto.
Qed.

Lemma init_ok z n m :
  0 <= z < 2 ^ 32 -> 0 <= n < 2 ^ 30 -> giga_init_mapping (-1) z n = Ret m ->
  wf_mapping m /\ (forall i, has (bitmap m) i = (i =? 0)) /\
  server_count m = Z.max n 1 /\ zeroth_server m = z.
Proof.
  intros Hz Hn E. injection E as <-. 
  assert (Hh : forall i, has (<[0%nat:=1]> (replicate (Z.to_nat MAX_BMAP_LEN) 0)) i = (i =? 0)).
  { intros i. change (Z.to_nat MAX_BMAP_LEN) with 147%nat.
    change 0%nat with (Z.to_nat 0). destruct (Z.le_gt_cases 0 i).
    - rewrite has_write by (done || lia). destruct (div7_range i) as (H1 & H2 & H3); [done|].
      destruct (Z.eqb_spec (i / 7) 0) as [E|E], (Z.eqb_spec i 0) as [->|Hne]; try done.
      + change 1 with (2 ^ 0). rewrite Z.pow2_bits_false by lia. done.
      + unfold has. destruct (Z.leb_spec 0 i); [|lia]. cbn [andb].
        rewrite nth_lookup. destruct (_ !! _) as [v|] eqn:Ev; [|by rewrite Z.bits_0].
        apply lookup_replicate in Ev as [-> _]. by rewrite Z.bits_0.
    - unfold has. destruct (Z.leb_spec 0 i), (Z.eqb_spec i 0); (lia || done). }
  cbn [server_count zeroth_server bitmap]. 
  assert (Hc : (if 0 <? n then n else 1) = Z.max n 1) by (destruct (Z.ltb_spec 0 n); lia).
  split; [|by split_and!].
  split; [|split; [|cbn [server_count zeroth_server]; rewrite Hc; lia]].
  - split; [done|]. cbn [bitmap]. repeat (apply Forall_cons_2; [lia|]). by apply Forall_nil_2.
  - split; [by rewrite Hh|]. split; intros i Hi; cbn [bitmap] in *; rewrite Hh in Hi;
      rewrite ?Hh; apply Z.eqb_eq in Hi as ->; (done || lia).
Qed.

Lemma is_splittable_ok m p :
  wf_mapping m -> has (bitmap m) p = true ->
  exists c, giga_index_for_splitting m p = Ret c /\
    giga_is_splittable m p = Ret (if c <? 2 * server_count m then 1 else 0).
Proof.
  intros Hwf Hp. destruct (index_for_splitting_ok m p Hwf Hp) as (k & E & _).
  exists (p + 2 ^ k). split; [done|]. unfold giga_is_splittable. simpl SPLIT_TYPE. cbv iota.
  destruct Hwf as (_ & _ & Hs & _). rewrite E, bind_Ret, i32_small by lia.
  change MAX_BKTS_PER_SERVER with 2. rewrite c_int_ok by lia. done.
Qed.

(** The server of a partition, as a number. *)
Definition server_of (z n i : Z) : Z := (i + z) mod n.

Lemma server_for_index_ok m i :
  wf_mapping m -> zeroth_server m < 2 ^ 30 -> 0 <= i < 512 ->
  giga_get_server_for_index m i = Ret (server_of (zeroth_server m) (server_count m) i).
Proof.
  intros (_ & _ & Hn & Hz) Hz' Hi. unfold giga_get_server_for_index, server_of.
  destruct (Z.eqb_spec (server_count m) 0); [lia|]. rewrite (u32_small i), u32_small by lia.
  assert (Hm := Z.mod_pos_bound (i + zeroth_server m) (server_count m) ltac:(lia)).
  by rewrite i32_small by lia.
Qed.

End Splitting.

(** ** Deciding well-formedness, and a mapping to run *)

Section Deciding.
Import Giga Tree.

Definition all_indices : list Z := Z.of_nat <$> seq 0 1029.

Lemma in_all_indices i : 0 <= i < 1029 -> In i all_indices.
Proof.
  intros Hi. unfold all_indices. apply list_elem_of_In, list_elem_of_fmap.
  exists (Z.to_nat i). rewrite elem_of_seq. lia.
Qed.

#[local] Opaque all_indices.

Definition wf_mappingb (m : giga_mapping_t) : bool :=
  let bm := bitmap m in
  (length bm =? 147)%nat && forallb (fun v => (0 <=? v) && (v <? 2 ^ 7)) bm && has bm 0 &&
  forallb (fun i => implb (has bm i) (has bm (parent i) && (i <? 512))) all_indices &&
  (1 <=? server_count m) && (server_count m <? 2 ^ 30) &&
  (0 <=? zeroth_server m) && (zeroth_server m <? 2 ^ 32).

Lemma wf_mappingb_ok m : wf_mappingb m = true -> wf_mapping m.
Proof.
  unfold wf_mappingb. rewrite !andb_true_iff. intros (((((((Hl & Hb) & H0) & Ht) & H1) & H2) & H3) & H4).
  apply Nat.eqb_eq in Hl. rewrite forallb_forall in Hb, Ht.
  assert (Htree : forall i, has (bitmap m) i = true -> has (bitmap m) (parent i) = true /\ i < 512).
  { intros i Hi. assert (Hi0 := has_nonneg _ _ Hi). assert (Hi1 := has_lt _ _ Hl Hi).
    assert (Hx := Ht i (in_all_indices i ltac:(lia))). rewrite Hi in Hx. cbn [implb] in Hx.
    apply andb_true_iff in Hx as [Hx1 Hx2]. split; [done|lia]. }
  split; [split; [done|]|split; [split; [done|]|lia]].
  - apply Forall_forall. intros v Hv. specialize (Hb v Hv). simpl in Hb. lia.
  - split; intros i Hi; by apply Htree.
Qed.

(** Partitions 0, 1 and 2 of a directory on four servers, rooted at server 3. *)
Definition three_partitions : giga_mapping_t :=
  {| bitmap := <[0%nat := 7]> (replicate 147 0); curr_radix := 2;
     zeroth_server := 3; server_count := 4 |}.

Lemma three_partitions_wf : wf_mapping three_partitions.
Proof. apply wf_mappingb_ok. vm_compute. reflexivity. Qed.

End Deciding.

(** ** Properties of the index *)

Section GigaProperties.
Import Giga Tree.

(** C13 For a well-formed mapping, [giga_get_index_for_file] returns on every name
    (its loop terminates and no assertion fails), and the partition it returns
    exists, covers the name's hash, is the deepest that does, and is the only
    partition with this property: every name has exactly one home. *)
Theorem index_for_file_spec (m : giga_mapping_t) (f : string)
  (Hwf : wf_mapping m) (Hf : name_ok f) :
  exists i, giga_get_index_for_file m f = Ret i /\ owner (bitmap m) (name_hash f) i /\
    forall j, owner (bitmap m) (name_hash f) j -> j = i.
Proof.
  destruct (index_for_file_owner m f Hwf Hf) as (i & E & Ho).
  exists i. split; [done|]. split; [done|]. intros j Hj. by apply (owner_unique _ _ _ _ Hj).
Qed.

Lemma index_for_file_spec_witness :
  exists i, giga_get_index_for_file three_partitions "hello" = Ret i /\ i = 1 /\
    owner (bitmap three_partitions) (name_hash "hello") i.
Proof.
  destruct (index_for_file_spec three_partitions "hello") as (i & E & Ho & _);
    [apply three_partitions_wf|vm_compute; reflexivity|].
  exists i. split; [exact E|]. split; [|exact Ho].
  assert (E1 : giga_get_index_for_file three_partitions "hello" = Ret 1) by (vm_compute; reflexivity).
  rewrite E1 in E. by injection E.
Defined.

(** C4 Splitting is exact: when partition [p] is split into the child [c] that
    [giga_index_for_splitting] chooses and [giga_update_mapping] records it, a
    name changes its home if and only if [giga_file_migration_status] says so,
    the names that move all come from [p], and they move to [c]. *)
Theorem split_moves_exactly (m m' : giga_mapping_t) (p c : Z) (f : string)
  (Hwf : wf_mapping m) (Hf : name_ok f)
  (Hc : giga_index_for_splitting m p = Ret c) (Hlt : c < 512)
  (Hup : giga_update_mapping m c = Ret m') :
  exists i i' s, giga_get_index_for_file m f = Ret i /\ giga_get_index_for_file m' f = Ret i' /\
    giga_file_migration_status f c = Ret s /\
    i' = (if s =? 1 then c else i) /\ (s = 1 -> i = p).
Proof.
  assert (Hp := split_parent_exists m p c Hwf Hc).
  destruct (index_for_splitting_ok m p Hwf Hp) as (k & E & Hk & Hn & _).
  rewrite E in Hc. injection Hc as <-. assert (Hp0 := has_nonneg _ _ Hp).
  assert (Hwf' := wf_add_child m m' p k Hwf Hp ltac:(lia) Hlt Hup).
  destruct (index_for_file_owner m f Hwf Hf) as (i & Ei & Hi).
  destruct (index_for_file_owner m' f Hwf' Hf) as (i' & Ei' & Hi').
  destruct (radix_of_range p Hp0) as [Hr _]. assert (0 < 2 ^ k) by (apply Z.pow_pos_nonneg; lia).
  destruct (giga_update_mapping_ok m (p + 2 ^ k)) as (m1 & E1 & _ & Hh1 & _); [apply Hwf|lia|].
  rewrite Hup in E1. injection E1 as <-.
  destruct (owner_split (bitmap m) (bitmap m') p k (name_hash f) i) as [Hmv Hown];
    [apply Hwf|done|lia|done|done|done|].
  exists i, i', (if covers (p + 2 ^ k) (name_hash f) then 1 else 0).
  split_and!; [done|done|apply migration_status_ok; (done || lia)| |].
  - rewrite (owner_unique _ _ _ _ Hi' Hown). by destruct (covers _ _).
  - intros Hs. apply Hmv. by destruct (covers _ _).
Qed.

Lemma split_moves_exactly_witness :
  exists m' i i' s, giga_update_mapping three_partitions 3 = Ret m' /\
    giga_get_index_for_file three_partitions "a" = Ret i /\
    giga_get_index_for_file m' "a" = Ret i' /\
    giga_file_migration_status "a" 3 = Ret s /\
    i' = (if s =? 1 then 3 else i) /\ (s = 1 -> i = 1).
Proof.
  destruct (giga_update_mapping three_partitions 3) as [m'|] eqn:E; [|vm_compute in E; discriminate].
  destruct (split_moves_exactly three_partitions m' 1 3 "a") as (i & i' & s & H);
    [apply three_partitions_wf|vm_compute; reflexivity|vm_compute; reflexivity|lia|exact E|].
  exists m', i, i', s. split; [reflexivity|exact H].
Defined.

(** [giga_index_for_splitting] always succeeds on an existing partition of a
    well-formed mapping; the index it returns does not exist yet, has the
    partition as its parent (the index [get_parent_index] computes from it), and
    every shallower child of the partition already exists. *)
Theorem index_for_splitting_spec (m : giga_mapping_t) (p : Z)
  (Hwf : wf_mapping m) (Hp : has (bitmap m) p = true) :
  exists c, giga_index_for_splitting m p = Ret c /\ p < c < 1024 /\
    has (bitmap m) c = false /\ get_parent_index c = Ret p /\
    forall d, has (bitmap m) d = false -> parent d = p -> 0 < d -> c <= d.
Proof.
  destruct (index_for_splitting_ok m p Hwf Hp) as (k & E & Hk & Hn & Hall).
  assert (Hp0 := has_nonneg _ _ Hp). destruct (radix_of_range p Hp0) as [Hr Hlt].
  assert (Hpow : 2 ^ radix_of p <= 2 ^ k <= 2 ^ 9) by (split; apply Z.pow_le_mono_r; lia).
  exists (p + 2 ^ k). split_and!; [done|lia|lia|done| |].
  - rewrite get_parent_index_ok, parent_child by lia. done.
  - intros d Hd Hpd Hd0. unfold parent in Hpd. destruct (Z.ltb_spec 0 d); [|lia].
    assert (Hdl := Z.log2_nonneg d). assert (Hds := Z.log2_spec d ltac:(lia)).
    rewrite Z.pow_succ_r in Hds by lia.
    destruct (Z.lt_ge_cases (Z.log2 d) k) as [Hlk|Hgk].
    + exfalso. assert (Ht : has (bitmap m) (p + 2 ^ Z.log2 d) = true)
        by (apply Hall; split; [apply radix_of_le; lia|done]).
      replace (p + 2 ^ Z.log2 d) with d in Ht by lia. congruence.
    + assert (2 ^ k <= 2 ^ Z.log2 d) by (apply Z.pow_le_mono_r; lia). lia.
Qed.

Lemma index_for_splitting_spec_witness :
  exists c, giga_index_for_splitting three_partitions 0 = Ret c /\
    has (bitmap three_partitions) c = false /\ get_parent_index c = Ret 0.
Proof.
  destruct (index_for_splitting_spec three_partitions 0) as (c & E & _ & H1 & H2 & _);
    [apply three_partitions_wf|vm_compute; reflexivity|].
  exists c. exact (conj E (conj H1 H2)).
Defined.

(** The mappings the program can hold: created for a directory on at most 256
    servers, extended by a split that [giga_is_splittable] allowed, or merged
    with another one by [giga_update_cache]. *)
Inductive reachable : giga_mapping_t -> Prop :=
| reach_init m z n :
    0 <= z < 2 ^ 32 -> 0 <= n <= 256 -> giga_init_mapping (-1) z n = Ret m -> reachable m
| reach_split m m' p c :
    reachable m -> giga_is_splittable m p = Ret 1 -> giga_index_for_splitting m p = Ret c ->
    giga_update_mapping m c = Ret m' -> reachable m'
| reach_merge a b m :
    reachable a -> reachable b -> giga_update_cache a b = Ret m -> reachable m.

(** C14 Every mapping reachable by creation, allowed splits and merges is a tree of
    partitions rooted at 0 below index 512, whatever the interleaving; hence (by
    [index_for_file_spec] and [index_for_splitting_spec]) no lookup or split of a
    reachable mapping fails an assertion. *)
Theorem reachable_wf (m : giga_mapping_t) (Hm : reachable m) :
  wf_mapping m /\ server_count m <= 256 /\
  (forall i, has (bitmap m) i = true -> i < 2 * server_count m \/ i = 0).
Proof.
  induction Hm as [m z n Hz Hn E|m m' p c Hm (Hwf & Hs & Hb) Hsp Hc Hup|a b m Ha (Hwa & Hsa & Hba) Hb (Hwb & Hsb & Hbb) E].
  - destruct (init_ok z n m Hz ltac:(lia) E) as (Hwf & Hh & -> & _). split; [done|]. split; [lia|].
    intros i Hi. rewrite Hh in Hi. apply Z.eqb_eq in Hi. by right.
  - assert (Hp := split_parent_exists m p c Hwf Hc).
    destruct (is_splittable_ok m p Hwf Hp) as (c' & Ec & Es). rewrite Hc in Ec. injection Ec as <-.
    rewrite Hsp in Es. destruct (Z.ltb_spec c (2 * server_count m)) as [Hlt|]; [|discriminate].
    destruct (index_for_splitting_ok m p Hwf Hp) as (k & E & Hk & Hn & _).
    rewrite Hc in E. injection E as ->. assert (Hp0 := has_nonneg _ _ Hp).
    destruct (radix_of_range p Hp0) as [Hr _]. assert (0 < 2 ^ k) by (apply Z.pow_pos_nonneg; lia).
    assert (Hwf' := wf_add_child m m' p k Hwf Hp ltac:(lia) ltac:(lia) Hup).
    destruct (giga_update_mapping_ok m (p + 2 ^ k)) as (m1 & E1 & _ & Hh & _ & Hs1); [apply Hwf|lia|].
    rewrite Hup in E1. injection E1 as <-. rewrite Hs1. split; [done|]. split; [lia|].
    intros i Hi. rewrite Hh in Hi. destruct (Z.eqb_spec i (p + 2 ^ k)); [lia|by apply Hb].
  - assert (Hwf := wf_join a b m Hwa Hwb E).
    destruct (giga_update_cache_ok a b 0) as (m1 & E1 & _ & Hh & _ & Hs1);
      [apply Hwa|apply Hwb|apply Hwa|]. rewrite E in E1. injection E1 as <-.
    split; [done|]. split; [lia|]. intros i Hi. rewrite Hh in Hi.
    apply orb_true_iff in Hi as [Hi|Hi]; [specialize (Hba i Hi)|specialize (Hbb i Hi)]; lia.
Qed.

Lemma reachable_wf_witness :
  exists m m', giga_init_mapping (-1) 0 2 = Ret m /\ giga_update_mapping m 1 = Ret m' /\
    wf_mapping m' /\ has (bitmap m') 1 = true.
Proof.
  destruct (giga_init_mapping (-1) 0 2) as [m|] eqn:E; [|discriminate].
  destruct (giga_update_mapping m 1) as [m'|] eqn:E'; [|injection E as <-; vm_compute in E'; discriminate].
  exists m, m'. split; [reflexivity|]. split; [exact E'|].
  split; [|injection E as <-; vm_compute in E'; injection E' as <-; vm_compute; reflexivity].
  apply (reachable_wf m'). apply (reach_split m m' 0 1); [|injection E as <-; vm_compute; reflexivity
    |injection E as <-; vm_compute; reflexivity|exact E'].
  apply (reach_init m 0 2); [lia|lia|exact E].
Defined.

(** [giga_update_cache] computes the union of two sets of partitions: the merged
    mapping contains exactly the partitions of either, stays well-formed, and is
    the same set whichever side is merged into the other; merging a mapping with
    itself adds nothing. *)
Theorem update_cache_union (a b : giga_mapping_t) (Ha : wf_mapping a) (Hb : wf_mapping b) :
  exists ab ba aa, giga_update_cache a b = Ret ab /\ giga_update_cache b a = Ret ba /\
    giga_update_cache a a = Ret aa /\ wf_mapping ab /\
    (forall i, has (bitmap ab) i = has (bitmap a) i || has (bitmap b) i) /\
    (forall i, has (bitmap ba) i = has (bitmap ab) i) /\
    (forall i, has (bitmap aa) i = has (bitmap a) i) /\
    server_count ab = Z.max (server_count a) (server_count b).
Proof.
  assert (H0a : has (bitmap a) 0 = true) by apply Ha. assert (H0b : has (bitmap b) 0 = true) by apply Hb.
  destruct (giga_update_cache_ok a b 0) as (ab & Eab & _ & Hab & _ & Hs); [apply Ha|apply Hb|done|].
  destruct (giga_update_cache_ok b a 0) as (ba & Eba & _ & Hba & _); [apply Hb|apply Ha|done|].
  destruct (giga_update_cache_ok a a 0) as (aa & Eaa & _ & Haa & _); [apply Ha|apply Ha|done|].
  exists ab, ba, aa. split_and!; try done.
  - by apply (wf_join a b).
  - intros i. rewrite Hba, Hab. apply orb_comm.
  - intros i. rewrite Haa. apply orb_diag.
Qed.

Lemma update_cache_union_witness :
  exists m, giga_init_mapping (-1) 3 4 = Ret m /\
  exists ab, giga_update_cache m three_partitions = Ret ab /\
    forall i, has (bitmap ab) i = has (bitmap m) i || has (bitmap three_partitions) i.
Proof.
  destruct (giga_init_mapping (-1) 3 4) as [m|] eqn:E; [|discriminate]. exists m. split; [reflexivity|].
  destruct (update_cache_union m three_partitions) as (ab & ba & aa & H1 & _ & _ & _ & H2 & _).
  - apply (init_ok 3 4 m); [lia|lia|exact E].
  - apply three_partitions_wf.
  - exists ab. exact (conj H1 H2).
Defined.

(** [giga_update_mapping] and [giga_update_mapping_remove] change exactly one
    partition: after an addition the set has the new index and nothing else is
    different, and a removal of the added index gives back the old set. *)
Theorem update_then_remove (m : giga_mapping_t) (c : Z)
  (Hwf : wf_mapping m) (Hc : 0 < c < 1029) :
  exists m1 m2, giga_update_mapping m c = Ret m1 /\ giga_update_mapping_remove m1 c = Ret m2 /\
    (forall i, has (bitmap m1) i = (i =? c) || has (bitmap m) i) /\
    (forall i, has (bitmap m2) i = negb (i =? c) && has (bitmap m) i).
Proof.
  destruct (giga_update_mapping_ok m c) as (m1 & E1 & Hok1 & Hh1 & _); [apply Hwf|lia|].
  destruct (giga_update_mapping_remove_ok m1 c 0 Hok1) as (m2 & E2 & _ & Hh2 & _); [lia| |lia|].
  { rewrite Hh1. assert (H0 : has (bitmap m) 0 = true) by apply Hwf. by rewrite H0, orb_true_r. }
  exists m1, m2. split_and!; try done. intros i. rewrite Hh2, Hh1. by destruct (i =? c).
Qed.

Lemma update_then_remove_witness :
  exists m1 m2, giga_update_mapping three_partitions 6 = Ret m1 /\
    giga_update_mapping_remove m1 6 = Ret m2 /\
    has (bitmap m1) 6 = true /\ has (bitmap m2) 6 = false.
Proof.
  destruct (update_then_remove three_partitions 6) as (m1 & m2 & E1 & E2 & H1 & H2);
    [apply three_partitions_wf|lia|].
  exists m1, m2. split; [exact E1|]. split; [exact E2|]. rewrite H1, H2. split; reflexivity.
Defined.

(** A server is told apart from the others and a partition from the other
    partitions of its server: the server number is in range, and two partitions
    with the same server and the same bucket number are the same partition, so the
    slots of [partition_handles] never collide. *)
Theorem server_and_bucket_injective (m : giga_mapping_t) (i j : Z)
  (Hs : 1 <= server_count m < 2 ^ 31) (Hz : 0 <= zeroth_server m)
  (Hi : 0 <= i /\ i + zeroth_server m < 2 ^ 31) (Hj : 0 <= j /\ j + zeroth_server m < 2 ^ 31) :
  exists si sj bi bj,
    giga_get_server_for_index m i = Ret si /\ giga_get_server_for_index m j = Ret sj /\
    giga_get_bucket_num_for_server m i = Ret bi /\ giga_get_bucket_num_for_server m j = Ret bj /\
    0 <= si < server_count m /\ (si = sj -> bi = bj -> i = j).
Proof.
  set (n := server_count m) in *. set (z := zeroth_server m) in *.
  assert (Hsrv : forall x, 0 <= x -> x + z < 2 ^ 31 ->
    giga_get_server_for_index m x = Ret ((x + z) mod n) /\
    giga_get_bucket_num_for_server m x = Ret (x / n)).
  { intros x Hx Hxz. unfold giga_get_server_for_index, giga_get_bucket_num_for_server.
    fold n z. destruct (Z.eqb_spec n 0); [lia|]. rewrite (u32_small x), u32_small by lia.
    assert (Hm := Z.mod_pos_bound (x + z) n ltac:(lia)).
    assert (Hd : 0 <= x / n <= x) by (split; [apply Z.div_pos; lia|apply Z.div_le_upper_bound; nia]).
    by rewrite !i32_small by lia. }
  destruct (Hsrv i) as [Ei Bi]; [lia|lia|]. destruct (Hsrv j) as [Ej Bj]; [lia|lia|].
  exists ((i + z) mod n), ((j + z) mod n), (i / n), (j / n). split_and!; try done;
    try (apply Z.mod_pos_bound; lia).
  intros Es Eb. assert (E1 := Z.div_mod i n ltac:(lia)). assert (E2 := Z.div_mod j n ltac:(lia)).
  assert (Hm : (i - j) mod n = 0).
  { replace (i - j) with ((i + z) - (j + z)) by lia. rewrite Zminus_mod, Es, Z.sub_diag. apply Z.mod_0_l. lia. }
  assert (M1 := Z.mod_pos_bound i n ltac:(lia)). assert (M2 := Z.mod_pos_bound j n ltac:(lia)).
  replace (i - j) with (i mod n - j mod n) in Hm by (rewrite Eb in E1; lia).
  apply Z.mod_divide in Hm as [q Hq]; [|lia]. assert (q = 0) by nia. subst q. rewrite Eb in E1. lia.
Qed.

Lemma server_and_bucket_injective_witness :
  exists s b, giga_get_server_for_index three_partitions 2 = Ret s /\
    giga_get_bucket_num_for_server three_partitions 2 = Ret b /\ s = 1 /\ b = 0.
Proof.
  destruct (server_and_bucket_injective three_partitions 2 2) as (si & sj & bi & bj & H1 & _ & H2 & _);
    [vm_compute; split; congruence|vm_compute; congruence|vm_compute; split; congruence
    |vm_compute; split; congruence|].
  exists si, bi. split; [exact H1|]. split; [exact H2|].
  vm_compute in H1, H2. injection H1 as <-. injection H2 as <-. split; reflexivity.
Defined.

(** C40 The bitmap has room for the partitions of radix 10, but a lookup asserts a
    radix below 10: once a partition with index 512 or more is recorded, every
    lookup in the directory aborts. *)
Theorem deep_partition_aborts_lookup (m : giga_mapping_t) (i : Z) (f : string)
  (Hok : bitmap_ok (bitmap m)) (Hf : name_ok f)
  (Hi : has (bitmap m) i = true) (Hdeep : 512 <= i) :
  giga_get_index_for_file m f = Crash AssertFail.
Proof.
  unfold giga_get_index_for_file. destruct (giga_hash_name_ok f Hf) as (hv & -> & _). rewrite bind_Ret.
  destruct (get_radix_from_bmap_ok (bitmap m) i Hok Hi) as (r & -> & _ & Hr & _).
  rewrite bind_Ret. specialize (Hr i Hi). assert (H10 := radix_of_ge i 9 ltac:(lia) ltac:(lia)).
  unfold compute_index, c_assert, MAX_RADIX. destruct (Z.ltb_spec r 10); [lia|]. reflexivity.
Qed.

Lemma deep_partition_aborts_lookup_witness :
  exists m, giga_update_mapping three_partitions 512 = Ret m /\
    giga_get_index_for_file m "hello" = Crash AssertFail.
Proof.
  destruct (giga_update_mapping three_partitions 512) as [m|] eqn:E; [|vm_compute in E; discriminate].
  exists m. split; [reflexivity|]. vm_compute in E. injection E as <-.
  apply (deep_partition_aborts_lookup _ 512); [|vm_compute; reflexivity|vm_compute; reflexivity|lia].
  split; [reflexivity|]. repeat (apply Forall_cons_2; [lia|]). by apply Forall_nil_2.
Defined.

(** [giga_hash_name] stores one character more than the HASH_LEN characters its
    callers allocate: the text of the digest fills the array, and the terminator
    of [binary2hex] lands behind it. *)
Lemma hash_text_overruns (f : string) :
  name_ok f ->
  exists d, Sha1.shahash stack_context (bytes_of_string f) = Ret d /\
    Z.of_nat (length (Hex.binary2hex d)) = HASH_LEN + 1.
Proof.
  intros Hf. unfold name_ok in Hf. exists (Fips.sha1 (bytes_of_string f)). split.
  - apply Sha1Facts.shahash_spec; [done|apply bytes_of_string_bytes|].
    rewrite bytes_of_string_length. lia.
  - unfold Hex.binary2hex. by rewrite length_app, HexFacts.hex_text_length, Sha1Facts.sha1_length.
Qed.

End GigaProperties.
