(* ===== verification/Names.v ===== *)
(** * Names of partition directories

    Partition [i] of a logical directory is the PVFS directory that
    snprintf(.., "p%05d", i) names; server/cache.c, server/handlers.c and
    server/split.c build these names, and server/cache.c and server/handlers.c
    read them back with sscanf(.., "p%u", &index).  [PartName] translates the two
    conversions; the round trip makes a directory's partitions recoverable from
    the names alone. *)

From Stdlib Require Import Ascii.
From S2P Require Import Prelude.

#[local] Open Scope Z_scope.

Module PartName.

Definition digit_char (d : Z) : Ascii.ascii := Ascii.ascii_of_N (Z.to_N (48 + d)).

(** The decimal digits of a non-negative number, most significant first. *)
Fixpoint dec_digits (fuel : nat) (n : Z) : list Z :=
  match fuel with
  | O => []
  | S fuel' => if n <? 10 then [n] else dec_digits fuel' (n / 10) ++ [n mod 10]
  end.

Fixpoint string_of_digits (l : list Z) : string :=
  match l with [] => EmptyString | d :: l' => String (digit_char d) (string_of_digits l') end.

(** Zero-padding to a width. *)
Definition zero_pad (width : nat) (l : list Z) : list Z :=
  replicate (width - length l) 0 ++ l.

(** snprintf(buf, MAX_LEN, "p%05d", index): an [int] has at most ten digits. *)
Definition physical_path (index : Z) : string :=
  String "p"%char
    (if index <? 0 then String "-"%char (string_of_digits (zero_pad 4 (dec_digits 10 (- index))))
     else string_of_digits (zero_pad 5 (dec_digits 10 index))).

(** snprintf(buf, MAX_LEN, "p%05d/%s", index, path). *)
Definition physical_file_path (index : Z) (path : string) : string :=
  (physical_path index +:+ String "/"%char path).

Definition char_code (a : Ascii.ascii) : Z := Z.of_N (Ascii.N_of_ascii a).
Definition is_digit (a : Ascii.ascii) : bool := (48 <=? char_code a) && (char_code a <=? 57).
Definition is_space (a : Ascii.ascii) : bool :=
  (char_code a =? 32) || ((9 <=? char_code a) && (char_code a <=? 13)).

Fixpoint skip_spaces (s : string) : string :=
  match s with
  | String a s' => if is_space a then skip_spaces s' else s
  | EmptyString => s
  end.

(** The value of the leading digits, and whether there was one. *)
Fixpoint read_digits (s : string) (acc : Z) (any : bool) : Z * bool :=
  match s with
  | String a s' =>
      if is_digit a then read_digits s' (10 * acc + (char_code a - 48)) true else (acc, any)
  | EmptyString => (acc, any)
  end.

(** strtoul saturates at ULONG_MAX; a minus sign negates modulo 2^64. *)
Definition strtoul_value (negative : bool) (v : Z) : Z :=
  if 2 ^ 64 - 1 <? v then 2 ^ 64 - 1 else if negative then u64 (- v) else v.

(** sscanf(name, "p%u", &index): the [index_t] stored when it returns 1, [None]
    when it returns something else and leaves [index] alone. *)
Definition scan_part (name : string) : option Z :=
  match name with
  | String "p"%char s =>
      let s := skip_spaces s in
      let '(negative, s) :=
        match s with
        | String "-"%char s' => (true, s')
        | String "+"%char s' => (false, s')
        | _ => (false, s)
        end in
      let '(v, any) := read_digits s 0 false in
      if any then Some (i32 (u32 (strtoul_value negative v))) else None
  | _ => None
  end.

End PartName.

Section NameFacts.
Import PartName.

(** The value a list of digits denotes, continued from [acc]. *)
Definition digits_value (acc : Z) (l : list Z) : Z := fold_left (fun a d => 10 * a + d) l acc.

Definition is_dec (d : Z) : Prop := 0 <= d < 10.

Lemma digit_char_code d : is_dec d -> char_code (digit_char d) = 48 + d.
Proof.
  intros Hd. unfold is_dec in Hd. unfold char_code, digit_char.
  rewrite Ascii.N_ascii_embedding by lia. lia.
Qed.

Lemma digit_char_is_digit d : is_dec d -> is_digit (digit_char d) = true.
Proof. intros Hd. unfold is_digit. rewrite digit_char_code by done. unfold is_dec in Hd. lia. Qed.

Lemma read_digits_string l acc any :
  Forall is_dec l -> l <> [] \/ any = true ->
  read_digits (string_of_digits l) acc any = (digits_value acc l, true).
Proof.
  intros Hl. revert acc any. induction Hl as [|d l Hd Hl IH]; intros acc any Hany; simpl.
  - destruct Hany as [|Hany]; [done|by rewrite Hany].
  - rewrite digit_char_is_digit, digit_char_code by done.
    rewrite IH by (by right). f_equal. unfold digits_value. simpl. f_equal. lia.
Qed.

Lemma dec_digits_ok fuel n :
  0 <= n < 10 ^ Z.of_nat fuel -> (0 < fuel)%nat ->
  Forall is_dec (dec_digits fuel n) /\ dec_digits fuel n <> [] /\
  digits_value 0 (dec_digits fuel n) = n.
Proof.
  revert n. induction fuel as [|fuel IH]; intros n Hn Hf; [lia|]. cbn [dec_digits].
  destruct (Z.ltb_spec n 10) as [Hlt|Hge].
  - split_and!; [repeat constructor; unfold is_dec; lia|done|]. unfold digits_value; simpl. lia.
  - rewrite Nat2Z.inj_succ, Z.pow_succ_r in Hn by lia.
    destruct (Nat.eq_dec fuel 0%nat) as [->|Hf0]; [simpl in Hn; lia|].
    assert (Hm := Z.mod_pos_bound n 10 ltac:(lia)). assert (Hdm := Z.div_mod n 10 ltac:(lia)).
    destruct (IH (n / 10)) as (H1 & H2 & H3);
      [split; [apply Z.div_pos; lia|apply Z.div_lt_upper_bound; lia]|lia|].
    split_and!.
    + apply Forall_app. split; [done|]. repeat constructor; unfold is_dec; lia.
    + by destruct (dec_digits fuel (n / 10)).
    + unfold digits_value in *. rewrite fold_left_app, H3. simpl. lia.
Qed.

Lemma zero_pad_ok w l :
  Forall is_dec l -> l <> [] ->
  Forall is_dec (zero_pad w l) /\ zero_pad w l <> [] /\
  digits_value 0 (zero_pad w l) = digits_value 0 l.
Proof.
  intros Hl Hne. unfold zero_pad. split_and!.
  - apply Forall_app. split; [|done]. apply Forall_replicate. unfold is_dec; lia.
  - destruct l; [done|]. by destruct (replicate _ _).
  - unfold digits_value. rewrite fold_left_app. f_equal.
    induction (w - length l)%nat as [|k IH]; simpl; [done|]. exact IH.
Qed.

Lemma skip_spaces_digits l : Forall is_dec l -> skip_spaces (string_of_digits l) = string_of_digits l.
Proof.
  destruct 1 as [|d l Hd]; [done|]. simpl. unfold is_space. rewrite digit_char_code by done.
  unfold is_dec in Hd.
  by destruct (Z.eqb_spec (48 + d) 32), (Z.leb_spec 9 (48 + d)), (Z.leb_spec (48 + d) 13);
    try lia.
Qed.

Lemma digits_no_sign d : is_dec d -> digit_char d <> "-"%char /\ digit_char d <> "+"%char.
Proof.
  intros Hd. assert (E := digit_char_code d Hd). unfold is_dec in Hd.
  split; intros E'; rewrite E' in E; unfold char_code in E; simpl in E; lia.
Qed.

Lemma scan_part_physical_path i : 0 <= i < 2 ^ 31 -> scan_part (physical_path i) = Some i.
Proof.
  intros Hi. unfold physical_path. destruct (Z.ltb_spec i 0); [lia|].
  destruct (dec_digits_ok 10 i) as (H1 & H2 & H3); [simpl; lia|lia|].
  destruct (zero_pad_ok 5 _ H1 H2) as (G1 & G2 & G3). rewrite H3 in G3.
  revert G1 G2 G3. generalize (zero_pad 5 (dec_digits 10 i)) as l. intros l G1 G2 G3. unfold scan_part.
  rewrite skip_spaces_digits by done. destruct l as [|d l]; [done|].
  cbn [string_of_digits]. destruct (digits_no_sign d) as [N1 N2]; [by inversion G1|].
  assert (E : (match String (digit_char d) (string_of_digits l) with
          | String "-"%char s' => (true, s') | String "+"%char s' => (false, s')
          | _ => (false, String (digit_char d) (string_of_digits l)) end)
         = (false, string_of_digits (d :: l))).
  { revert N1 N2. simpl. destruct (digit_char d) as [[] [] [] [] [] [] [] []]; congruence. }
  rewrite E, read_digits_string by (done || by left). rewrite G3.
  unfold strtoul_value. destruct (Z.ltb_spec (2 ^ 64 - 1) i); [lia|].
  by rewrite u32_small, i32_small by lia.
Qed.

Lemma dec_digits_length fuel n : (length (dec_digits fuel n) <= fuel)%nat.
Proof.
  revert n. induction fuel as [|fuel IH]; intros n; cbn [dec_digits]; [done|].
  destruct (n <? 10); cbn; [lia|]. rewrite length_app. specialize (IH (n / 10)). cbn. lia.
Qed.

Lemma string_of_digits_plain l :
  Forall is_dec l -> CString.count "/"%char (string_of_digits l) = O /\
  String.length (string_of_digits l) = length l.
Proof.
  induction 1 as [|d l Hd _ [IH1 IH2]]; cbn; [done|]. rewrite IH1, IH2. split; [|done].
  rewrite decide_False; [done|]. intros E. assert (Hc := digit_char_code d Hd). rewrite E in Hc.
  unfold is_dec in Hd. vm_compute (char_code "/"%char) in Hc. lia.
Qed.

(** A partition's name is one short path component. *)
Lemma physical_path_plain i :
  0 <= i < 2 ^ 31 ->
  CString.count "/"%char (physical_path i) = O /\ (String.length (physical_path i) < 256)%nat.
Proof.
  intros Hi. unfold physical_path. destruct (Z.ltb_spec i 0); [lia|].
  destruct (dec_digits_ok 10 i) as (H1 & H2 & H3); [simpl; lia|lia|].
  destruct (zero_pad_ok 5 _ H1 H2) as (G1 & _ & _).
  destruct (string_of_digits_plain _ G1) as [E1 E2]. cbn [CString.count String.length].
  rewrite decide_False by done. split; [done|]. rewrite E2. unfold zero_pad.
  rewrite length_app, length_replicate. assert (Hl := dec_digits_length 10 i). lia.
Qed.

Lemma physical_path_inj i j :
  0 <= i < 2 ^ 31 -> 0 <= j < 2 ^ 31 -> physical_path i = physical_path j -> i = j.
Proof.
  intros Hi Hj E. assert (Ei := scan_part_physical_path i Hi). rewrite E, scan_part_physical_path in Ei by done.
  by injection Ei.
Qed.

(** Reading a partition's directory name gives its index back, for every
    non-negative [int]: the set of partitions of a directory is recoverable from
    the names of its subdirectories, and distinct partitions have distinct names. *)
Theorem scan_physical_path (i : Z) (Hi : 0 <= i < 2 ^ 31) :
  scan_part (physical_path i) = Some i /\
  forall j, 0 <= j < 2 ^ 31 -> physical_path i = physical_path j -> i = j.
Proof. split; [by apply scan_part_physical_path|]. intros j Hj. by apply physical_path_inj. Qed.

Lemma scan_physical_path_witness :
  scan_part (physical_path 513) = Some 513 /\ physical_path 513 = "p00513"%string.
Proof. split; [apply (scan_physical_path 513); lia|reflexivity]. Defined.

End NameFacts.
