(* ===== verification/Links.v ===== *)
(** * Linked chains

    What a chain of addresses is, for the lists of common/utlist.h and the tables of
    common/uthash.h: [chain] follows the successors, [back] the predecessors, and [seg]
    is a doubly linked chain. *)

From S2P Require Import Prelude.

Section Chains.
Implicit Types (l k : list positive) (nx pv : positive -> option positive) (p n : option positive).

(** The first element of a chain that goes on with [n], and the last one of a chain that
    comes after [p]. *)
Definition first l n : option positive := match l with [] => n | a :: _ => Some a end.
Fixpoint final p l : option positive := match l with [] => p | a :: l' => final (Some a) l' end.

(** [l] is doubly linked, after [p] and before [n]. *)
Fixpoint seg nx pv p l n : Prop :=
  match l with
  | [] => True
  | a :: l' => pv a = p /\ nx a = first l' n /\ seg nx pv (Some a) l' n
  end.

Lemma first_app l k n : first (l ++ k) n = first l (first k n).
Proof. by destruct l. Qed.

Lemma final_app p l k : final p (l ++ k) = final (final p l) k.
Proof. revert p. induction l as [|a l IH]; intros p; [done|]. apply IH. Qed.

Lemma final_in p l : final p l = p /\ l = [] \/ exists a, final p l = Some a /\ a ∈ l.
Proof.
  revert p. induction l as [|a l IH]; intros p; [by left|right]. cbn.
  destruct (IH (Some a)) as [[-> ->]|(b & -> & Hb)]; [exists a|exists b]; set_solver.
Qed.

Lemma first_in l n : first l n = n /\ l = [] \/ exists a, first l n = Some a /\ a ∈ l.
Proof. destruct l as [|a l]; [by left|right]. exists a. cbn. set_solver. Qed.

Lemma seg_app nx pv p l k n :
  seg nx pv p (l ++ k) n <-> seg nx pv p l (first k n) /\ seg nx pv (final p l) k n.
Proof.
  revert p. induction l as [|a l IH]; intros p; cbn; [tauto|]. rewrite IH, first_app. tauto.
Qed.

Lemma seg_same nx pv nx' pv' p l n :
  (forall a, a ∈ l -> nx' a = nx a) -> (forall a, a ∈ l -> pv' a = pv a) ->
  seg nx pv p l n -> seg nx' pv' p l n.
Proof.
  revert p. induction l as [|a l IH]; intros p Hn Hp; cbn; [done|]. intros (H1 & H2 & H3).
  rewrite Hn, Hp by set_solver. split_and!; [done|done|]. apply IH; [set_solver..|done].
Qed.

(** The successor of the last element changes. *)
Lemma seg_next nx pv nx' p l n n' :
  NoDup l -> (forall a, a ∈ l -> nx' a = if decide (Some a = final p l) then n' else nx a) ->
  seg nx pv p l n -> seg nx' pv p l n'.
Proof.
  revert p. induction l as [|a l IH]; intros p Hnd Hn; cbn; [done|]. intros (H1 & H2 & H3).
  apply list.NoDup_cons in Hnd as [Ha Hnd]. split; [done|]. split.
  - rewrite Hn by set_solver. cbn. destruct (final_in (Some a) l) as [[E ->]|(b & E & Hb)].
    + by rewrite E, decide_True.
    + rewrite E, decide_False by (intros [= ->]; done). rewrite H2. destruct l; [by apply elem_of_nil in Hb|done].
  - apply IH; [done| |done]. intros b Hb. rewrite Hn by set_solver. cbn. done.
Qed.

(** The predecessor of the first element changes. *)
Lemma seg_prev nx pv pv' p p' l n :
  NoDup l -> (forall a, a ∈ l -> pv' a = if decide (Some a = first l None) then p' else pv a) ->
  seg nx pv p l n -> seg nx pv' p' l n.
Proof.
  destruct l as [|a l]; [done|]. intros [Ha Hnd]%list.NoDup_cons Hp (H1 & H2 & H3). cbn. split; [|split; [done|]].
  - rewrite Hp by set_solver. cbn. by rewrite decide_True.
  - apply (seg_same nx pv); [done| |done]. intros b Hb. rewrite Hp by set_solver.
    cbn. rewrite decide_False; [done|]. intros [= ->]. done.
Qed.

(** An element in the middle is taken out. *)
Lemma seg_remove nx pv nx' pv' l a k :
  NoDup (l ++ a :: k) ->
  (forall b, b ∈ l ++ k -> nx' b = if decide (Some b = final None l) then first k None else nx b) ->
  (forall b, b ∈ l ++ k -> pv' b = if decide (Some b = first k None) then final None l else pv b) ->
  seg nx pv None (l ++ a :: k) None -> seg nx' pv' None (l ++ k) None.
Proof.
  intros Hnd Hn Hp. apply list.NoDup_app in Hnd as (Hl & Hd & [Ha Hk]%list.NoDup_cons).
  rewrite !seg_app. intros [S1 (_ & _ & S2)]. split.
  - apply (seg_next nx pv' nx' None l (first (a :: k) None)); [done|intros b Hb; apply Hn; set_solver|].
    apply (seg_same nx pv); [done| |done]. intros b Hb. rewrite Hp by set_solver. apply decide_False.
    intros E. destruct (first_in k None) as [[E' _]|(c & E' & Hc)]; rewrite E' in E; [done|].
    injection E as ->. set_solver.
  - apply (seg_prev nx' pv pv' (Some a)); [done|intros b Hb; apply Hp; set_solver|].
    apply (seg_same nx pv); [|done|done]. intros b Hb. rewrite Hn by set_solver. apply decide_False.
    intros E. destruct (final_in None l) as [[E' _]|(c & E' & Hc)]; rewrite E' in E; [done|].
    injection E as ->. set_solver.
Qed.

(** Successors and predecessors apart. *)
Fixpoint chain nx l n : Prop :=
  match l with [] => True | a :: l' => nx a = first l' n /\ chain nx l' n end.

Fixpoint back pv p l : Prop :=
  match l with [] => True | a :: l' => pv a = p /\ back pv (Some a) l' end.

Lemma seg_split nx pv p l n : seg nx pv p l n <-> chain nx l n /\ back pv p l.
Proof. revert p. induction l as [|a l IH]; intros p; cbn; [tauto|]. rewrite IH. tauto. Qed.

Lemma chain_app nx l k n : chain nx (l ++ k) n <-> chain nx l (first k n) /\ chain nx k n.
Proof. induction l as [|a l IH]; cbn; [tauto|]. rewrite IH, first_app. tauto. Qed.

Lemma back_app pv p l k : back pv p (l ++ k) <-> back pv p l /\ back pv (final p l) k.
Proof. revert p. induction l as [|a l IH]; intros p; cbn; [tauto|]. rewrite IH. tauto. Qed.

Lemma chain_same nx nx' l n : (forall a, a ∈ l -> nx' a = nx a) -> chain nx l n -> chain nx' l n.
Proof.
  induction l as [|a l IH]; cbn; [done|]. intros Hn [H1 H2]. rewrite Hn by set_solver.
  split; [done|]. apply IH; [set_solver|done].
Qed.

Lemma back_same pv pv' p l : (forall a, a ∈ l -> pv' a = pv a) -> back pv p l -> back pv' p l.
Proof.
  revert p. induction l as [|a l IH]; intros p; cbn; [done|]. intros Hn [H1 H2]. rewrite Hn by set_solver.
  split; [done|]. apply IH; [set_solver|done].
Qed.

(** The successor of the last element changes. *)
Lemma chain_next nx nx' p l n n' :
  NoDup l -> (forall a, a ∈ l -> nx' a = if decide (Some a = final p l) then n' else nx a) ->
  chain nx l n -> chain nx' l n'.
Proof.
  revert p. induction l as [|a l IH]; intros p Hnd Hn; cbn; [done|]. intros (H2 & H3).
  apply list.NoDup_cons in Hnd as [Ha Hnd]. split.
  - rewrite Hn by set_solver. cbn. destruct (final_in (Some a) l) as [[E ->]|(b & E & Hb)].
    + by rewrite E, decide_True.
    + rewrite E, decide_False by (intros [= ->]; done). rewrite H2. destruct l; [by apply elem_of_nil in Hb|done].
  - apply (IH (Some a)); [done| |done]. intros b Hb. rewrite Hn by set_solver. cbn. done.
Qed.

(** The predecessor of the first element changes. *)
Lemma back_first pv pv' p p' l :
  NoDup l -> (forall a, a ∈ l -> pv' a = if decide (Some a = first l None) then p' else pv a) ->
  back pv p l -> back pv' p' l.
Proof.
  destruct l as [|a l]; [done|]. intros [Ha Hnd]%list.NoDup_cons Hp [H1 H2]. split.
  - rewrite Hp by set_solver. by rewrite decide_True.
  - apply (back_same pv); [|done]. intros b Hb. rewrite Hp by set_solver. apply decide_False. by intros [= ->].
Qed.

Lemma final_last p l : l <> [] -> final p l = list.last l.
Proof.
  revert p. induction l as [|a l IH]; intros p; [done|]. intros _. cbn [final].
  destruct l as [|b l]; [done|]. by rewrite IH.
Qed.

End Chains.

Section Removal.
Implicit Types (l k : list positive) (nx pv : positive -> option positive) (p n : option positive).

Lemma final_some p l : l <> [] -> final p l = final None l.
Proof. by destruct l. Qed.

Lemma first_some l n : l <> [] -> first l n = first l None.
Proof. by destruct l. Qed.

(** The address of an end that is there. *)
Lemma first_is l : l <> [] -> exists a, first l None = Some a /\ a ∈ l.
Proof. intros Hl. by destruct (first_in l None) as [[_ ?]|]. Qed.

Lemma final_is l : l <> [] -> exists a, final None l = Some a /\ a ∈ l.
Proof. intros Hl. by destruct (final_in None l) as [[_ ?]|]. Qed.

(** An element behind others is taken out: what is before it is linked to what follows. *)
Lemma chain_remove nx nx' l a k n n' :
  NoDup (l ++ a :: k) -> l <> [] ->
  (forall b, b ∈ l ++ k -> nx' b = if decide (Some b = final None l) then first k n' else nx b) ->
  chain nx (l ++ a :: k) n -> (k <> [] -> n' = n) -> chain nx' (l ++ k) n'.
Proof.
  intros Hnd Hl Hn Hc Hn'. apply list.NoDup_app in Hnd as (Hnl & Hd & [_ Hnk]%list.NoDup_cons).
  apply chain_app in Hc as [Hc1 [_ Hc2]]. apply chain_app. split.
  - apply (chain_next nx _ None l (first (a :: k) n)); [done| |done]. intros b Hb. apply Hn. set_solver.
  - destruct k as [|b k]; [done|]. rewrite (Hn' ltac:(done)). apply (chain_same nx); [|done]. intros c Hc.
    rewrite Hn by set_solver. apply decide_False. destruct (final_is l Hl) as (z & -> & Hz). intros [= ->]. set_solver.
Qed.

Lemma back_remove pv pv' p p' l a k :
  NoDup (l ++ a :: k) -> l <> [] ->
  (forall b, b ∈ l ++ k -> pv' b = if decide (Some b = first l None) then p'
     else if decide (Some b = first k None) then final None l else pv b) ->
  back pv p (l ++ a :: k) -> back pv' p' (l ++ k).
Proof.
  intros Hnd Hl Hn Hb. apply list.NoDup_app in Hnd as (Hnl & Hd & [_ Hnk]%list.NoDup_cons).
  apply back_app in Hb as [Hb1 [_ Hb2]]. destruct (first_is l Hl) as (f & Ef & Hf). apply back_app. split.
  - apply (back_first pv _ p); [done| |done]. intros b Hb. rewrite Hn by set_solver. destruct (decide _); [done|].
    apply decide_False. intros E. destruct (first_in k None) as [[E' _]|(c & E' & Hc)]; rewrite E' in E; [done|].
    injection E as ->. set_solver.
  - rewrite final_some by done. apply (back_first pv _ (Some a)); [done| |done]. intros b Hb. rewrite Hn by set_solver.
    rewrite decide_False; [done|]. rewrite Ef. intros [= ->]. set_solver.
Qed.

End Removal.
