(* ===== verification/MergeSort.v ===== *)
(** * The merge sort of linked lists

    LL_SORT, DL_SORT and CDL_SORT of common/utlist.h and HASH_SRT of common/uthash.h are
    one algorithm, Simon Tatham's merge sort, on four kinds of lists.  [Sort] is the
    algorithm over the operations by which the macros differ ([ops]): reading a
    successor, assigning links, comparing, the arithmetic of the counters and how the
    ends of the list are linked.  The rest of the file proves that it terminates and
    that it is a stable sort, from the laws of these operations ([laws]). *)

From stdpp Require Import sorting.
From S2P Require Import Prelude Links.

#[local] Open Scope Z_scope.

Module Sort.

(** [o_circular]: the last element is followed by the first one.  [o_double]: elements
    have predecessors.  [o_ring]: the predecessor of the first element is the last. *)
Record ops (S : Type) : Type := mkOps {
  o_int : Z -> outcome Z;
  o_circular : bool;
  o_double : bool;
  o_ring : bool;
  o_next : option positive -> prog S (option positive);
  o_set_next : option positive -> option positive -> prog S unit;
  o_set_prev : option positive -> option positive -> prog S unit;
  o_cmp : option positive -> option positive -> prog S Z
}.
Arguments o_int {S} _ _.
Arguments o_circular {S} _.
Arguments o_double {S} _.
Arguments o_ring {S} _.
Arguments o_next {S} _ _.
Arguments o_set_next {S} _ _ _.
Arguments o_set_prev {S} _ _ _.
Arguments o_cmp {S} _ _ _.

(** The variables of one merge. *)
Record merging : Type := mkMerging {
  ls_list : option positive;
  ls_tail : option positive;
  ls_p : option positive;
  ls_q : option positive;
  ls_psize : Z;
  ls_qsize : Z
}.

Section Sort.
Context {S : Type} (o : ops S).

(** The steps that a loop may take. *)
Variable fuel : nat.

(** The successor; in a circular list the old head ends the list. *)
Definition fetch (oldhead p : option positive) : prog S (option positive) :=
  n ← o_next o p; mret (if o_circular o && bool_decide (n = oldhead) then None else n).

(** for (i = 0; i < insize; i++): the start of the second run and the size of the first. *)
Fixpoint scan (n : nat) (oldhead q : option positive) (psize : Z) : prog S (option positive * Z) :=
  match n with
  | O => mret (q, psize)
  | Datatypes.S n' =>
      psize ← lift (o_int o (psize + 1));
      q ← fetch oldhead q;
      match q with None => mret (q, psize) | Some _ => scan n' oldhead q psize end
  end.

Definition take_p (oldhead : option positive) (s : merging) : prog S (option positive * merging) :=
  p ← fetch oldhead (ls_p s);
  psize ← lift (o_int o (ls_psize s - 1));
  mret (ls_p s, mkMerging (ls_list s) (ls_tail s) p (ls_q s) psize (ls_qsize s)).

Definition take_q (oldhead : option positive) (s : merging) : prog S (option positive * merging) :=
  q ← fetch oldhead (ls_q s);
  qsize ← lift (o_int o (ls_qsize s - 1));
  mret (ls_q s, mkMerging (ls_list s) (ls_tail s) (ls_p s) q (ls_psize s) qsize).

(** The element that comes next. *)
Definition choose (oldhead : option positive) (s : merging) : prog S (option positive * merging) :=
  if ls_psize s =? 0 then take_q oldhead s
  else if (ls_qsize s =? 0) || bool_decide (ls_q s = None) then take_p oldhead s
  else
    c ← o_cmp o (ls_p s) (ls_q s);
    if c <=? 0 then take_p oldhead s else take_q oldhead s.

(** The element becomes the last one of the output. *)
Definition emit (e : option positive) (s : merging) : prog S merging :=
  _ ← (match ls_tail s with Some _ => o_set_next o (ls_tail s) e | None => mret tt end);
  _ ← (if o_double o then o_set_prev o e (ls_tail s) else mret tt);
  mret (mkMerging (match ls_tail s with Some _ => ls_list s | None => e end) e
          (ls_p s) (ls_q s) (ls_psize s) (ls_qsize s)).

Definition unmerged (s : merging) : bool :=
  (0 <? ls_psize s) || ((0 <? ls_qsize s) && bool_decide (ls_q s <> None)).

Fixpoint merge (fuel : nat) (oldhead : option positive) (s : merging) : prog S merging :=
  if unmerged s then
    match fuel with
    | O => crash_with NoFuel
    | Datatypes.S fuel' =>
        '(e, s) ← choose oldhead s;
        s ← emit e s;
        merge fuel' oldhead s
    end
  else mret s.

(** while (p): the new head, the last element and the number of merges. *)
Fixpoint runs (n : nat) (oldhead : option positive) (insize : Z) (list tail p : option positive) (nmerges : Z) :
    prog S (option positive * option positive * Z) :=
  match p with
  | None => mret (list, tail, nmerges)
  | Some _ =>
      match n with
      | O => crash_with NoFuel
      | Datatypes.S n' =>
          nmerges ← lift (o_int o (nmerges + 1));
          '(q, psize) ← scan (Z.to_nat insize) oldhead p 0;
          s ← merge fuel oldhead (mkMerging list tail p q psize insize);
          runs n' oldhead insize (ls_list s) (ls_tail s) (ls_q s) nmerges
      end
  end.

(** One pass, which merges runs of [insize] elements. *)
Definition pass (insize : Z) (list : option positive) : prog S (option positive * option positive * Z) :=
  '(head, tail, nmerges) ← runs fuel list insize None None list 0;
  _ ← (if o_ring o then o_set_prev o head tail else mret tt);
  _ ← o_set_next o tail (if o_circular o then head else None);
  mret (head, tail, nmerges).

Fixpoint passes (n : nat) (insize : Z) (list : option positive) : prog S (option positive * option positive) :=
  match n with
  | O => crash_with NoFuel
  | Datatypes.S n' =>
      '(head, tail, nmerges) ← pass insize list;
      insize ← lift (o_int o (insize * 2));
      if nmerges <=? 1 then mret (head, tail) else passes n' insize head
  end.

(** The new head and the last element. *)
Definition sort (list : option positive) : prog S (option positive * option positive) :=
  match list with None => mret (None, None) | Some _ => passes fuel 1 list end.

End Sort.
End Sort.

(** ** Passes over a list *)

Section Passes.
Variable cmp : positive -> positive -> Z.
Implicit Types (l k : list positive) (a b c x : positive).

Definition le a b : Prop := cmp a b <= 0.
#[local] Instance le_dec a b : Decision (le a b).
Proof. unfold le. apply _. Defined.

(** A pass that merges runs of [s] elements, and the number of its merges. *)
Inductive passed (s : nat) : list positive -> list positive -> nat -> Prop :=
| passed_nil : passed s [] [] 0
| passed_cons l l' n : l <> [] -> passed s (drop s (drop s l)) l' n ->
    passed s l (list_merge le (take s l) (take s (drop s l)) ++ l') (S n).

(** Sorted runs of [s] elements, the last one perhaps shorter. *)
Inductive blocks (s : nat) : list positive -> Prop :=
| blocks_last l : (length l <= s)%nat -> StronglySorted le l -> blocks s l
| blocks_cons k l : length k = s -> StronglySorted le k -> blocks s l -> blocks s (k ++ l).

(** A comparison that orders all elements, ties allowed. *)
Record ordered : Prop := mkOrdered {
  ord_total : forall a b, le a b \/ le b a;
  ord_trans : forall a b c, le a b -> le b c -> le a c
}.

(** Elements that compare as equal. *)
Definition tied x a : Prop := le x a /\ le a x.
#[local] Instance tied_dec x a : Decision (tied x a).
Proof. unfold tied. apply _. Defined.

(** [l'] is [l] sorted, with ties in the order they had. *)
Record sorted_from l l' : Prop := mkSortedFrom {
  sf_sorted : StronglySorted le l';
  sf_perm : l' ≡ₚ l;
  sf_stable : forall x, filter (tied x) l' = filter (tied x) l
}.

Hypothesis Hord : ordered.

Lemma merge_perm l k : list_merge le l k ≡ₚ l ++ k.
Proof. apply merge_Permutation. Qed.

Lemma merge_sorted l k : StronglySorted le l -> StronglySorted le k -> StronglySorted le (list_merge le l k).
Proof.
  intros Hl Hk. apply Sorted.Sorted_StronglySorted; [intros a b c; apply (ord_trans Hord)|].
  assert (Total le) by (intros a b; apply (ord_total Hord)).
  apply Sorted_list_merge; [done|by apply StronglySorted_Sorted..].
Qed.

Lemma merge_stable x l k : StronglySorted le l ->
  filter (tied x) (list_merge le l k) = filter (tied x) l ++ filter (tied x) k.
Proof.
  intros Hl. revert k. induction Hl as [|a l Hl IH Ha]; intros k; [by destruct k|].
  induction k as [|b k IHk]; [cbn [list_merge]; by rewrite filter_nil, app_nil_r|]. cbn [list_merge].
  destruct (decide (le a b)) as [Hab|Hab].
  - rewrite (filter_cons _ a l), (filter_cons _ a). rewrite IH. by destruct (decide (tied x a)).
  - change (fix list_merge_aux l2 := _) with (list_merge le (a :: l)). rewrite filter_cons, IHk, (filter_cons _ b).
    destruct (decide (tied x b)) as [[H1 H2]|]; [|done].
    assert (Hn : filter (tied x) (a :: l) = []); [|by rewrite Hn].
    apply filter_none, list.Forall_forall. intros c Hc [H3 H4]. apply Hab.
    assert (le a c) by (apply elem_of_cons in Hc as [->|Hc]; [destruct (ord_total Hord a a); done|];
      rewrite list.Forall_forall in Ha; by apply Ha).
    eapply (ord_trans Hord); [done|]. by eapply (ord_trans Hord).
Qed.

Lemma blocks_nil s : blocks s [].
Proof. apply blocks_last; [cbn; lia|constructor]. Qed.

(** The first run of a list with sorted runs, and the rest. *)
Lemma blocks_split s l : blocks s l -> StronglySorted le (take s l) /\ blocks s (drop s l).
Proof.
  intros [l' Hlen Hs|c l' Hlen Hs Hb].
  - rewrite take_ge, drop_ge by done. split; [done|apply blocks_nil].
  - by rewrite take_app_length', drop_app_length' by done.
Qed.

Lemma blocks_one s l : blocks s l -> (length l <= s)%nat -> StronglySorted le l.
Proof. intros Hb Hl. apply blocks_split in Hb as [Hs _]. by rewrite take_ge in Hs. Qed.

Lemma blocks_single l : blocks 1 l.
Proof.
  induction l as [|a l IH]; [apply blocks_nil|]. change (a :: l) with ([a] ++ l).
  apply blocks_cons; [done|repeat constructor|done].
Qed.

Lemma passed_exists s l : (0 < s)%nat -> exists l' n, passed s l l' n.
Proof.
  intros Hs. induction l as [l IH] using (induction_ltof1 _ (@length positive)). unfold ltof in IH.
  destruct l as [|a l]; [exists [], O; constructor|]. destruct (IH (drop s (drop s (a :: l)))) as (l' & n & Hp).
  { rewrite !length_drop. cbn. lia. }
  eexists _, _. by apply passed_cons.
Qed.

Lemma passed_perm s l l' n : passed s l l' n -> l' ≡ₚ l.
Proof.
  induction 1 as [|l l' n Hl Hp IH]; [done|]. rewrite merge_perm, IH, <- app_assoc.
  by rewrite (take_drop s (drop s l)), take_drop.
Qed.

Lemma passed_count s l l' n : (0 < s)%nat -> passed s l l' n ->
  (n <= length l)%nat /\ ((n <= 1)%nat -> (length l <= s + s)%nat).
Proof.
  intros Hs. induction 1 as [|l l' n Hl Hp IH]; [cbn; lia|]. rewrite !length_drop in IH.
  destruct l as [|a l]; [done|]. cbn [length] in *. split; [lia|]. intros Hn. assert (n = 0%nat) as -> by lia.
  inversion Hp as [E|]. apply (f_equal length) in E. rewrite !length_drop in E. cbn in E. lia.
Qed.

Lemma passed_many s l l' n : passed s l l' n -> (2 <= n)%nat -> (s + s < length l)%nat.
Proof.
  intros Hp Hn. destruct Hp as [|l l' m _ Hp]; [lia|]. inversion Hp as [|? ? ? Hne]; [lia|].
  destruct (decide (s + s < length l)%nat) as [|Hge]; [done|]. destruct Hne. apply nil_length_inv. rewrite !length_drop. lia.
Qed.

Lemma passed_blocks s l l' n : passed s l l' n -> blocks s l -> blocks (s + s) l'.
Proof.
  induction 1 as [|l l' n Hl Hp IH]; intros Hb; [apply blocks_nil|].
  apply blocks_split in Hb as [H1 Hb]. apply blocks_split in Hb as [H2 Hb].
  assert (Hm := merge_sorted _ _ H1 H2). assert (Hlen := Permutation_length (merge_perm (take s l) (take s (drop s l)))).
  rewrite length_app, !length_take, length_drop in Hlen.
  destruct (decide (s + s <= length l)%nat).
  - apply blocks_cons; [lia|done|by apply IH].
  - assert (l' = []) as ->.
    { assert (E : drop s (drop s l) = []) by (apply nil_length_inv; rewrite !length_drop; lia). rewrite E in Hp.
      by inversion Hp. }
    rewrite app_nil_r. apply blocks_last; [lia|done].
Qed.

Lemma passed_stable s l l' n x : passed s l l' n -> blocks s l -> filter (tied x) l' = filter (tied x) l.
Proof.
  induction 1 as [|l l' n Hl Hp IH]; intros Hb; [done|].
  apply blocks_split in Hb as [H1 Hb]. apply blocks_split in Hb as [H2 Hb].
  rewrite list.filter_app, (merge_stable x _ _ H1), (IH Hb), <- app_assoc, <- !list.filter_app.
  by rewrite (take_drop s (drop s l)), take_drop.
Qed.

End Passes.

(** ** The algorithm *)

(** What the operations do on the states in [ok], for the addresses in [live]: [nx] and
    [pv] are the links, [cmp] compares elements, counters up to [bound] do not
    overflow. *)
Record laws {S} (o : Sort.ops S) (ok : S -> Prop) (live : positive -> Prop) (nx pv : S -> positive -> option positive)
  (cmp : positive -> positive -> Z) (bound : Z) : Prop := mkLaws {
  law_int : forall x, 0 <= x <= bound -> Sort.o_int o x = Ret x;
  law_next : forall s a, ok s -> live a -> Sort.o_next o (Some a) s = Ret (nx s a, s);
  law_set_next : forall s a v, ok s -> live a -> exists s', Sort.o_set_next o (Some a) v s = Ret (tt, s') /\ ok s' /\
    (forall b, nx s' b = if decide (b = a) then v else nx s b) /\ forall b, pv s' b = pv s b;
  law_set_prev : forall s a v, ok s -> live a -> exists s', Sort.o_set_prev o (Some a) v s = Ret (tt, s') /\ ok s' /\
    (forall b, pv s' b = if decide (b = a) then v else pv s b) /\ forall b, nx s' b = nx s b;
  law_cmp : forall s a b, ok s -> live a -> live b -> Sort.o_cmp o (Some a) (Some b) s = Ret (cmp a b, s)
}.

Section Algorithm.
Import Sort.
Context {S : Type} (o : ops S) (ok : S -> Prop) (live : positive -> Prop)
  (nx pv : S -> positive -> option positive) (cmp : positive -> positive -> Z) (bound : Z).
Hypothesis L : laws o ok live nx pv cmp bound.
Implicit Types (s : S) (l ps qs out : list positive) (a : positive).
#[local] Existing Instance le_dec.

(** The end of a list that starts at [head]: what the last element's successor is. *)
Definition ending (head : option positive) : option positive := if o_circular o then head else None.

(** Elements after the first are not the old head. *)
Definition apart (old : option positive) l : Prop := o_circular o = true -> forall x, x ∈ drop 1 l -> Some x <> old.

Lemma fetch_ok s old a l (Q : option positive -> S -> Prop) :
  ok s -> live a -> nx s a = first l (ending old) -> apart old (a :: l) -> Q (first l None) s ->
  wp no_crash (fetch o old (Some a)) Q s.
Proof.
  intros Hok Ha Hn Hap HQ. apply wp_bind. eapply wp_Ret; [by apply (law_next _ _ _ _ _ _ _ L)|]. apply wp_ret.
  rewrite Hn. unfold ending, apart in *. destruct (o_circular o) eqn:Ec; cbn [andb]; [|done].
  destruct l as [|b l]; cbn [first] in *; [by rewrite bool_decide_eq_true_2|].
  rewrite bool_decide_eq_false_2; [done|]. apply Hap; [done|]. cbn. set_solver.
Qed.

Lemma scan_ok n : forall s old l k (Q : option positive * Z -> S -> Prop),
  l <> [] -> ok s -> Forall live l -> chain (nx s) l (ending old) -> apart old l ->
  0 <= k -> k + Z.of_nat (length l) <= bound ->
  Q (first (drop n l) None, k + Z.of_nat (n `min` length l)) s ->
  wp no_crash (scan o n old (first l None) k) Q s.
Proof.
  induction n as [|n IH]; intros s old l k Q Hl Hok Hlv Hc Hap Hk Hb HQ; cbn [scan].
  { apply wp_ret. cbn in HQ. by rewrite Z.add_0_r in HQ. }
  destruct l as [|a l]; [done|]. destruct Hc as [Hn Hc]. apply list.Forall_cons in Hlv as [Ha Hlv]. cbn [length] in *.
  apply wp_bind, wp_lift. rewrite (law_int _ _ _ _ _ _ _ L) by lia. apply wp_bind.
  eapply fetch_ok; [done|done|exact Hn|done|]. destruct l as [|b l].
  - cbn [first]. apply wp_ret. cbn in HQ. by rewrite drop_nil, Nat.min_0_r in HQ.
  - cbn [first]. apply (IH s old (b :: l) (k + 1)); try done; [|lia|cbn [length] in *; lia|].
    + intros Hcc x Hx. apply (Hap Hcc). cbn in *. set_solver.
    + cbn [drop length] in *. replace (k + 1 + Z.of_nat (n `min` Datatypes.S (length l))) with
        (k + Z.of_nat (Datatypes.S n `min` Datatypes.S (Datatypes.S (length l)))) by lia. done.
Qed.

(** The output [out], what is left of the first run [ps] and of the list after it [qs],
    of which [k] elements are the second run. *)
Record merge_state s (old : option positive) out ps qs (k : nat) (v : merging) : Prop := mkMergeState {
  ms_ok : ok s;
  ms_live : Forall live (out ++ ps ++ qs);
  ms_nodup : NoDup (out ++ ps ++ qs);
  ms_out : exists x, chain (nx s) out x;
  ms_back : o_double o = true -> back (pv s) None out;
  ms_ps : exists x, chain (nx s) ps x;
  ms_qs : chain (nx s) qs (ending old);
  ms_psa : apart old ps;
  ms_qsa : o_circular o = true -> forall x, x ∈ qs -> Some x <> old;
  ms_list : ls_list v = first out None;
  ms_tail : ls_tail v = final None out;
  ms_p : ps <> [] -> ls_p v = first ps None;
  ms_q : ls_q v = first qs None;
  ms_psize : ls_psize v = Z.of_nat (length ps) /\ Z.of_nat (length ps) <= bound;
  ms_qsize : ls_qsize v = Z.of_nat k /\ Z.of_nat k <= bound
}.

(** An element goes to the end of the output. *)
Lemma emit_ok s out v a (Q : merging -> S -> Prop) :
  ok s -> Forall live out -> live a -> NoDup out -> a ∉ out -> (exists x, chain (nx s) out x) ->
  (o_double o = true -> back (pv s) None out) -> ls_list v = first out None -> ls_tail v = final None out ->
  (forall s', ok s' -> (exists x, chain (nx s') (out ++ [a]) x) -> (o_double o = true -> back (pv s') None (out ++ [a])) ->
     (forall x, x ∉ out -> nx s' x = nx s x) ->
     Q (mkMerging (first (out ++ [a]) None) (final None (out ++ [a])) (ls_p v) (ls_q v) (ls_psize v) (ls_qsize v)) s') ->
  wp no_crash (emit o (Some a) v) Q s.
Proof.
  intros Hok Hlv Ha Hnd Hao [x Hc] Hb El Et HQ. unfold emit. apply wp_bind.
  eapply (wp_conseq _ _ (fun _ s1 => ok s1 /\ (forall b, nx s1 b = if decide (Some b = final None out) then Some a else nx s b) /\
    forall b, pv s1 b = pv s b)).
  { rewrite Et. destruct (final_in None out) as [[-> _]|(t & -> & Ht)]; [apply wp_ret; by split_and!|].
    rewrite list.Forall_forall in Hlv. destruct (law_set_next _ _ _ _ _ _ _ L s t (Some a) Hok (Hlv t Ht)) as (s1 & E & H1 & H2 & H3).
    eapply wp_Ret; [exact E|]. split_and!; [done| |done]. intros b. rewrite H2.
    destruct (decide (b = t)), (decide (Some b = Some t)); congruence. }
  intros [] s1 (Hok1 & Hn1 & Hp1). apply wp_bind.
  eapply (wp_conseq _ _ (fun _ s2 => ok s2 /\ (forall b, nx s2 b = nx s1 b) /\
    (o_double o = true -> forall b, pv s2 b = if decide (b = a) then final None out else pv s b))).
  { destruct (o_double o); [|by apply wp_ret].
    destruct (law_set_prev _ _ _ _ _ _ _ L s1 a (ls_tail v) Hok1 Ha) as (s2 & E & H1 & H2 & H3).
    eapply wp_Ret; [exact E|]. split_and!; [done|done|]. intros _ b. rewrite H2, Hp1, Et. done. }
  intros [] s2 (Hok2 & Hn2 & Hp2). apply wp_ret.
  replace (match ls_tail v with Some _ => ls_list v | None => Some a end) with (first (out ++ [a]) None).
  2: { rewrite Et, El. destruct out as [|b out]; [done|]. cbn. by destruct (final_in (Some b) out) as [[-> _]|(? & -> & _)]. }
  replace (Some a) with (final None (out ++ [a])) by (by rewrite final_app). apply HQ; [done| | |].
  - exists (nx s2 a). apply chain_app. split; [|done]. cbn [first].
    apply (chain_next (nx s) _ None out x); [done| |done]. intros b Hb'. by rewrite Hn2, Hn1.
  - intros Hd. apply back_app. split; [|cbn; by rewrite (Hp2 Hd), decide_True].
    apply (back_same (pv s)); [|by apply Hb]. intros b Hb'. rewrite (Hp2 Hd), decide_False; [done|]. by intros ->.
  - intros y Hy. rewrite Hn2, Hn1, decide_False; [done|]. intros E.
    destruct (final_in None out) as [[E' _]|(t & E' & Ht)]; rewrite E' in E; congruence.
Qed.

(** Taking the first element of the first run. *)
Lemma take_p_ok s old out a ps qs k v (Q : option positive * merging -> S -> Prop) :
  merge_state s old out (a :: ps) qs k v ->
  (forall p, (ps <> [] -> p = first ps None) ->
     Q (Some a, mkMerging (ls_list v) (ls_tail v) p (ls_q v) (Z.of_nat (length ps)) (ls_qsize v)) s) ->
  wp no_crash (take_p o old v) Q s.
Proof.
  intros M HQ. assert (Ha : live a) by (eapply list.Forall_forall; [apply M|set_solver]).
  assert (Hok := ms_ok _ _ _ _ _ _ _ M). destruct (ms_ps _ _ _ _ _ _ _ M) as [x [Hn Hc]].
  unfold take_p. rewrite (ms_p _ _ _ _ _ _ _ M) by done. cbn [first]. apply wp_bind.
  eapply (wp_conseq _ _ (fun p s' => s' = s /\ (ps <> [] -> p = first ps None))).
  { destruct ps as [|b ps].
    - apply wp_bind. eapply wp_Ret; [by apply (law_next _ _ _ _ _ _ _ L)|]. by apply wp_ret.
    - apply (fetch_ok s old a (b :: ps)); [done|done|exact Hn|apply M|done]. }
  intros p s' [-> Hp]. destruct (ms_psize _ _ _ _ _ _ _ M) as [E Hb]. apply wp_bind, wp_lift.
  cbn [length] in *. rewrite E, (law_int _ _ _ _ _ _ _ L) by lia. apply wp_ret.
  replace (Z.of_nat (Datatypes.S (length ps)) - 1) with (Z.of_nat (length ps)) by lia. by apply HQ.
Qed.

Lemma take_q_ok s old out ps b qs k v (Q : option positive * merging -> S -> Prop) :
  merge_state s old out ps (b :: qs) (Datatypes.S k) v ->
  Q (Some b, mkMerging (ls_list v) (ls_tail v) (ls_p v) (first qs None) (ls_psize v) (Z.of_nat k)) s ->
  wp no_crash (take_q o old v) Q s.
Proof.
  intros M HQ. assert (Hb : live b) by (eapply list.Forall_forall; [apply M|set_solver]).
  assert (Hok := ms_ok _ _ _ _ _ _ _ M). destruct (ms_qs _ _ _ _ _ _ _ M) as [Hn Hc].
  unfold take_q. rewrite (ms_q _ _ _ _ _ _ _ M). cbn [first]. apply wp_bind.
  eapply fetch_ok; [done|done|exact Hn|intros Hcc x Hx; apply (ms_qsa _ _ _ _ _ _ _ M Hcc); cbn in Hx; set_solver|].
  destruct (ms_qsize _ _ _ _ _ _ _ M) as [E Hbd]. apply wp_bind, wp_lift.
  rewrite E, (law_int _ _ _ _ _ _ _ L) by lia. apply wp_ret.
  by replace (Z.of_nat (Datatypes.S k) - 1) with (Z.of_nat k) by lia.
Qed.

(** A merge state after an element has gone to the output. *)
Lemma state_emitted s s' old out a ps qs ps' qs' k' v p q psize qsize :
  merge_state s old out ps qs k' v -> ps ++ qs ≡ₚ a :: ps' ++ qs' ->
  ok s' -> (exists x, chain (nx s') (out ++ [a]) x) -> (o_double o = true -> back (pv s') None (out ++ [a])) ->
  (forall x, x ∉ out -> nx s' x = nx s x) ->
  (exists x, chain (nx s) ps' x) -> chain (nx s) qs' (ending old) -> apart old ps' ->
  (o_circular o = true -> forall x, x ∈ qs' -> Some x <> old) -> (ps' <> [] -> p = first ps' None) -> q = first qs' None ->
  psize = Z.of_nat (length ps') /\ Z.of_nat (length ps') <= bound -> forall k, qsize = Z.of_nat k /\ Z.of_nat k <= bound ->
  merge_state s' old (out ++ [a]) ps' qs' k
    (mkMerging (first (out ++ [a]) None) (final None (out ++ [a])) p q psize qsize).
Proof.
  intros M Hp Hok Hc Hb Hn [x Hps] Hqs Hap Haq Ep Eq Hpz k Hqz.
  assert (Hperm : (out ++ [a]) ++ ps' ++ qs' ≡ₚ out ++ ps ++ qs) by (rewrite Hp, <- app_assoc; done).
  assert (Hnd := ms_nodup _ _ _ _ _ _ _ M). assert (Hout : forall y, y ∈ ps' ++ qs' -> y ∉ out).
  { intros y Hy Hyo. apply list.NoDup_app in Hnd as (_ & Hd & _). apply (Hd y Hyo). rewrite Hp. set_solver. }
  split; try done.
  - rewrite Hperm. apply M.
  - rewrite Hperm. apply M.
  - exists x. apply (chain_same (nx s)); [|done]. intros y Hy. apply Hn, Hout. set_solver.
  - apply (chain_same (nx s)); [|done]. intros y Hy. apply Hn, Hout. set_solver.
Qed.

Lemma step_p {B} s old out a ps qs k v (K : merging -> prog S B) (Q : B -> S -> Prop) :
  merge_state s old out (a :: ps) qs k v ->
  (forall s' v', merge_state s' old (out ++ [a]) ps qs k v' -> wp no_crash (K v') Q s') ->
  wp no_crash ('(e, v) ← take_p o old v; v ← emit o e v; K v) Q s.
Proof.
  intros M HQ. assert (Hnd := ms_nodup _ _ _ _ _ _ _ M). assert (Hlv := ms_live _ _ _ _ _ _ _ M).
  apply list.NoDup_app in Hnd as (Hno & Hd & _). apply list.Forall_app in Hlv as [Hlo [Hla _]%list.Forall_cons].
  apply wp_bind. eapply take_p_ok; [exact M|]. intros p Hp. apply wp_bind.
  eapply (emit_ok s out); try apply M; try done; [intros Ha; apply (Hd a Ha); set_solver|].
  intros s' Hok Hc Hb Hn. apply HQ. cbn. destruct (ms_ps _ _ _ _ _ _ _ M) as [x [_ Hps]].
  eapply (state_emitted s s' old out a (a :: ps) qs ps qs); try done; try apply M; [by exists x| |].
  - intros Hcc y Hy. apply (ms_psa _ _ _ _ _ _ _ M Hcc). cbn. destruct ps; cbn in *; set_solver.
  - split; [done|]. destruct (ms_psize _ _ _ _ _ _ _ M) as [_ Hz]. cbn in Hz. lia.
Qed.

Lemma step_q {B} s old out ps b qs k v (K : merging -> prog S B) (Q : B -> S -> Prop) :
  merge_state s old out ps (b :: qs) (Datatypes.S k) v ->
  (forall s' v', merge_state s' old (out ++ [b]) ps qs k v' -> wp no_crash (K v') Q s') ->
  wp no_crash ('(e, v) ← take_q o old v; v ← emit o e v; K v) Q s.
Proof.
  intros M HQ. assert (Hnd := ms_nodup _ _ _ _ _ _ _ M). assert (Hlv := ms_live _ _ _ _ _ _ _ M).
  apply list.NoDup_app in Hnd as (Hno & Hd & _). apply list.Forall_app in Hlv as [Hlo [_ [Hlb _]%list.Forall_cons]%list.Forall_app].
  apply wp_bind. eapply take_q_ok; [exact M|]. apply wp_bind.
  eapply (emit_ok s out); try apply M; try done; [intros Hb; apply (Hd b Hb); set_solver|].
  intros s' Hok Hc Hb Hn. apply HQ. cbn. destruct (ms_qs _ _ _ _ _ _ _ M) as [_ Hqs].
  eapply (state_emitted s s' old out b ps (b :: qs) ps qs); try done; try apply M.
  - symmetry. apply Permutation_middle.
  - intros Hcc y Hy. apply (ms_qsa _ _ _ _ _ _ _ M Hcc). set_solver.
  - split; [done|]. destruct (ms_qsize _ _ _ _ _ _ _ M) as [_ Hz]. lia.
Qed.

Lemma unmerged_ok s old out ps qs k v : merge_state s old out ps qs k v ->
  unmerged v = negb (bool_decide (ps = [] /\ take k qs = [])).
Proof.
  intros M. unfold unmerged. rewrite (proj1 (ms_psize _ _ _ _ _ _ _ M)), (proj1 (ms_qsize _ _ _ _ _ _ _ M)), (ms_q _ _ _ _ _ _ _ M).
  destruct ps as [|a ps], k as [|k], qs as [|b qs]; cbn; repeat case_bool_decide; cbn; intuition congruence.
Qed.

(** The loop merges the runs. *)
Lemma merge_ok fuel : forall s old out ps qs k v (Q : merging -> S -> Prop),
  merge_state s old out ps qs k v -> (length ps + length (take k qs) <= fuel)%nat ->
  (forall s' k' v', merge_state s' old (out ++ list_merge (le cmp) ps (take k qs)) [] (drop k qs) k' v' -> Q v' s') ->
  wp no_crash (merge o fuel old v) Q s.
Proof.
  induction fuel as [|fuel IH]; intros s old out ps qs k v Q M Hf HQ; cbn [merge]; rewrite (unmerged_ok _ _ _ _ _ _ _ M);
    (case_bool_decide as Hend; cbn [negb]; [destruct Hend as [-> Et]; rewrite Et in HQ; cbn in HQ; rewrite app_nil_r in HQ;
      apply wp_ret, (HQ s k); destruct k, qs; try done; by rewrite drop_nil|]).
  { destruct ps; [|cbn in Hf; lia]. destruct (take k qs) eqn:Et; [|cbn in Hf; lia]. naive_solver. }
  unfold choose. rewrite (proj1 (ms_psize _ _ _ _ _ _ _ M)), (proj1 (ms_qsize _ _ _ _ _ _ _ M)), (ms_q _ _ _ _ _ _ _ M).
  assert (Hpc : forall a ps', ps = a :: ps' -> (list_merge (le cmp) ps (take k qs) = a :: list_merge (le cmp) ps' (take k qs)) ->
    wp no_crash ('(e, v) ← take_p o old v; v ← emit o e v; merge o fuel old v) Q s).
  { intros a ps' -> Em. eapply step_p; [exact M|]. intros s' v' M'. eapply (IH _ _ _ _ _ _ _ _ M'); [cbn in Hf; lia|].
    intros s2 k2 v2 M2. rewrite <- app_assoc in M2. cbn [app] in M2. rewrite <- Em in M2. by eapply HQ. }
  assert (Hqc : forall b qs' k', qs = b :: qs' -> k = Datatypes.S k' ->
    (list_merge (le cmp) ps (take k qs) = b :: list_merge (le cmp) ps (take k' qs')) ->
    wp no_crash ('(e, v) ← take_q o old v; v ← emit o e v; merge o fuel old v) Q s).
  { intros b qs' k' -> -> Em. eapply step_q; [exact M|]. intros s' v' M'. eapply (IH _ _ _ _ _ _ _ _ M'); [cbn in Hf; lia|].
    intros s2 k2 v2 M2. rewrite <- app_assoc in M2. cbn [app] in M2. rewrite <- Em in M2. by eapply HQ. }
  destruct ps as [|a ps]; cbn [length Z.of_nat Z.eqb].
  { destruct k as [|k]; [naive_solver|]. destruct qs as [|b qs]; [naive_solver|].
    apply (Hqc b qs k); [done|done|by rewrite !list_merge_nil_l]. }
  destruct k as [|k]; [apply (Hpc a ps); [done|by rewrite ?firstn_O, ?take_nil, !list_merge_nil_r]|].
  destruct qs as [|b qs]; [cbn [first]; rewrite bool_decide_eq_true_2, orb_true_r by done; apply (Hpc a ps); [done|by rewrite ?firstn_O, ?take_nil, !list_merge_nil_r]|]. cbn [Z.of_nat Z.eqb first orb].
  rewrite bool_decide_eq_false_2 by done. rewrite (ms_p _ _ _ _ _ _ _ M) by done. cbn [first].
  assert (Hlv := ms_live _ _ _ _ _ _ _ M). rewrite list.Forall_forall in Hlv.
  assert (Ec := law_cmp _ _ _ _ _ _ _ L s a b (ms_ok _ _ _ _ _ _ _ M) (Hlv a ltac:(set_solver)) (Hlv b ltac:(set_solver))).
  apply wp_bind, wp_bind. eapply wp_Ret; [exact Ec|]. cbv beta. cbn [firstn] in *. destruct (Z.leb_spec (cmp a b) 0) as [Hab|Hab].
  - apply wp_bind_inv, (Hpc a ps); [done|]. rewrite list_merge_cons. by rewrite decide_True.
  - apply wp_bind_inv, (Hqc b qs k); [done|done|]. rewrite list_merge_cons. rewrite decide_False; [done|]. unfold le. lia.
Qed.

(** The loop over the pairs of runs of what is left, [r], after the output [out]. *)
Lemma runs_ok fuel sz : (0 < sz)%nat -> Z.of_nat sz <= bound ->
  forall m s old out r nm (Q : option positive * option positive * Z -> S -> Prop),
  ok s -> Forall live (out ++ r) -> NoDup (out ++ r) -> (exists x, chain (nx s) out x) ->
  (o_double o = true -> back (pv s) None out) -> chain (nx s) r (ending old) -> apart old r ->
  (length r <= m)%nat -> (length r <= fuel)%nat -> 0 <= nm -> nm + Z.of_nat (length r) <= bound ->
  (forall s' r' c, passed cmp sz r r' c -> ok s' -> (exists x, chain (nx s') (out ++ r') x) ->
     (o_double o = true -> back (pv s') None (out ++ r')) ->
     Q (first (out ++ r') None, final None (out ++ r'), nm + Z.of_nat c) s') ->
  wp no_crash (runs o fuel m old (Z.of_nat sz) (first out None) (final None out) (first r None) nm) Q s.
Proof.
  intros Hsz Hszb. induction m as [|m IH]; intros s old out r nm Q Hok Hlv Hnd Hc Hb Hr Hap Hm Hf Hnm Hbd HQ.
  all: destruct r as [|a r]; [cbn [runs first]; apply wp_ret; specialize (HQ s [] 0%nat (passed_nil _ _) Hok);
    rewrite app_nil_r, Z.add_0_r in HQ; exact (HQ Hc Hb)|].
  { cbn in Hm. lia. }
  cbn [runs first].
  set (l := a :: r) in *. apply wp_bind, wp_lift. assert (Hl1 : (1 <= length l)%nat) by (unfold l; cbn; lia).
  rewrite (law_int _ _ _ _ _ _ _ L) by lia. change (Some a) with (first l None). rewrite Nat2Z.id. apply wp_bind.
  assert (Hll : Forall live l) by (by apply list.Forall_app in Hlv as [_ ?]).
  apply scan_ok; try done; [lia|]. rewrite Z.add_0_l.
  assert (Hrest : forall x, x ∈ drop sz l -> x ∈ drop 1 l).
  { intros x Hx. destruct sz as [|sz]; [lia|]. cbn in *. rewrite <- (take_drop sz r). set_solver. }
  assert (M : merge_state s old out (take sz l) (drop sz l) sz
    (mkMerging (first out None) (final None out) (first l None) (first (drop sz l) None) (Z.of_nat (sz `min` length l)) (Z.of_nat sz))).
  { assert (Htd := take_drop sz l). split; cbn [ls_list ls_tail ls_p ls_q ls_psize ls_qsize]; try done.
    - by rewrite Htd.
    - by rewrite Htd.
    - rewrite <- Htd in Hr. apply chain_app in Hr as [Hr _]. by eexists.
    - rewrite <- Htd in Hr. by apply chain_app in Hr as [_ Hr].
    - intros Hcc x Hx. apply (Hap Hcc). rewrite <- Htd. destruct (take sz l); cbn in *; [by apply elem_of_nil in Hx|set_solver].
    - intros Hcc x Hx. by apply (Hap Hcc), Hrest.
    - intros _. unfold l. destruct sz; [lia|done].
    - rewrite length_take. lia. }
  apply wp_bind. eapply merge_ok; [exact M|rewrite length_take, length_take, length_drop; lia|].
  intros s' k' v' M'. rewrite (ms_list _ _ _ _ _ _ _ M'), (ms_tail _ _ _ _ _ _ _ M'), (ms_q _ _ _ _ _ _ _ M').
  assert (Hlen : (length (drop sz (drop sz l)) < length l)%nat) by (rewrite !length_drop; lia).
  apply IH; try apply M'; try lia.
  - intros Hcc x Hx. apply (ms_qsa _ _ _ _ _ _ _ M' Hcc). destruct (drop sz (drop sz l)); cbn in *; [by apply elem_of_nil in Hx|set_solver].
  - intros s2 r2 c Hp Hok2 Hc2 Hb2. rewrite <- app_assoc in Hc2, Hb2 |- *.
    replace (nm + 1 + Z.of_nat c) with (nm + Z.of_nat (Datatypes.S c)) by lia. apply HQ; try done. by apply passed_cons.
Qed.

(** A list that is linked as the macros keep it: the last element is followed by the
    first one or by NULL, and the first one is preceded by the last one or by NULL. *)
Record linked s l : Prop := mkLinked {
  lk_ok : ok s;
  lk_live : Forall live l;
  lk_nodup : NoDup l;
  lk_next : chain (nx s) l (ending (first l None));
  lk_prev : o_double o = true -> back (pv s) (if o_ring o then final None l else None) l
}.

(** One pass over a list whose predecessors may be anything. *)
Lemma pass_ok fuel sz s l (Q : option positive * option positive * Z -> S -> Prop) :
  (0 < sz)%nat -> Z.of_nat sz <= bound -> l <> [] -> ok s -> Forall live l -> NoDup l ->
  chain (nx s) l (ending (first l None)) -> (length l <= fuel)%nat -> Z.of_nat (length l) <= bound ->
  (forall s' l' c, passed cmp sz l l' c -> linked s' l' -> Q (first l' None, final None l', Z.of_nat c) s') ->
  wp no_crash (pass o fuel (Z.of_nat sz) (first l None)) Q s.
Proof.
  intros Hsz Hszb Hne Hok Hlv Hnd Hc Hf Hbd HQ. unfold pass. apply wp_bind.
  apply (runs_ok fuel sz Hsz Hszb fuel s _ [] l 0); try done; [by exists None| |].
  { intros _ x Hx E. destruct l as [|a l]; [done|]. cbn in E, Hx. apply list.NoDup_cons in Hnd as [Ha _]. by injection E as ->. }
  intros s1 l' c Hp Hok1 [x Hc1] Hb1. cbn [app] in *. rewrite Z.add_0_l. assert (Hpm := passed_perm _ _ _ _ _ Hp).
  rewrite <- Hpm in Hlv, Hnd. assert (Hl' : l' <> []) by (intros ->; by apply Permutation_nil_l in Hpm).
  destruct (first_in l' None) as [[_ ?]|(a & Ea & Ha)]; [done|]. destruct (final_in None l') as [[_ ?]|(z & Ez & Hz)]; [done|].
  assert (Hlv' := Hlv). rewrite list.Forall_forall in Hlv'. apply wp_bind.
  eapply (wp_conseq _ _ (fun _ s2 => ok s2 /\ chain (nx s2) l' x /\
    (o_double o = true -> back (pv s2) (if o_ring o then final None l' else None) l'))).
  { destruct (o_ring o); [|by apply wp_ret]. rewrite Ea.
    destruct (law_set_prev _ _ _ _ _ _ _ L s1 a (final None l') Hok1 (Hlv' a Ha)) as (s2 & E & H1 & H2 & H3).
    eapply wp_Ret; [exact E|]. split_and!; [done|by apply (chain_same (nx s1))|]. intros Hd.
    apply (back_first (pv s1) _ None); [done| |by apply Hb1]. intros b _. rewrite H2, Ea.
    destruct (decide (b = a)), (decide (Some b = Some a)); congruence. }
  intros [] s2 (Hok2 & Hc2 & Hb2). apply wp_bind. rewrite Ez at 1.
  destruct (law_set_next _ _ _ _ _ _ _ L s2 z (ending (first l' None)) Hok2 (Hlv' z Hz)) as (s3 & E & H1 & H2 & H3).
  eapply wp_Ret; [exact E|]. apply wp_ret, HQ; [done|]. split; try done.
  - apply (chain_next (nx s2) _ None l' x); [done| |done]. intros b _. rewrite H2, Ez.
    destruct (decide (b = z)), (decide (Some b = Some z)); congruence.
  - intros Hd. apply (back_same (pv s2)); [done|by apply Hb2].
Qed.

Hypothesis Hord : ordered cmp.

Lemma passes_ok fuel m : forall sz s l (Q : option positive * option positive -> S -> Prop),
  (0 < sz <= length l)%nat -> (length l < sz + m)%nat -> (0 < m)%nat -> (length l <= fuel)%nat ->
  2 * Z.of_nat (length l) <= bound -> blocks cmp sz l -> ok s -> Forall live l -> NoDup l ->
  chain (nx s) l (ending (first l None)) ->
  (forall s' l', sorted_from cmp l l' -> linked s' l' -> Q (first l' None, final None l') s') ->
  wp no_crash (passes o fuel m (Z.of_nat sz) (first l None)) Q s.
Proof.
  induction m as [|m IH]; intros sz s l Q Hsz Hm Hm0 Hf Hbd Hbl Hok Hlv Hnd Hc HQ; [lia|]. cbn [passes]. apply wp_bind.
  apply pass_ok; try done; [lia|lia|intros ->; cbn in Hsz; lia|lia|]. intros s1 l1 c Hp Hlk.
  apply wp_bind, wp_lift. rewrite (law_int _ _ _ _ _ _ _ L) by lia.
  assert (Hpm := passed_perm _ _ _ _ _ Hp). assert (Hlen := Permutation_length Hpm).
  assert (Hb2 := passed_blocks cmp Hord _ _ _ _ Hp Hbl).
  assert (Hst := fun x => passed_stable cmp Hord _ _ _ _ x Hp Hbl). destruct (Z.leb_spec (Z.of_nat c) 1) as [Hc1|Hc1].
  - apply wp_ret, HQ; [|done]. split; [|done|done]. apply (blocks_one cmp (sz + sz)); [done|].
    rewrite Hlen. apply (passed_count _ _ _ _ _ (proj1 Hsz) Hp). lia.
  - assert (Hmany := passed_many _ _ _ _ _ Hp ltac:(lia)). replace (Z.of_nat sz * 2) with (Z.of_nat (sz + sz)) by lia.
    destruct Hlk as [? ? ? ? ?]. apply IH; try done; try lia.
    intros s2 l2 [? Hpm2 Hst2] Hlk. apply HQ; [|done]. split; [done|by rewrite Hpm2|]. intros x. by rewrite Hst2.
Qed.

(** The sort returns, and the list is sorted: a permutation in order, with ties in the
    order they had. *)
Lemma sort_ok fuel s l :
  linked s l -> (length l <= fuel)%nat -> 2 * Z.of_nat (length l) <= bound ->
  exists s' l', sort o fuel (first l None) s = Ret (first l' None, final None l', s') /\ sorted_from cmp l l' /\ linked s' l'.
Proof.
  intros Hlk Hf Hbd. destruct l as [|a l].
  { exists s, []. split_and!; [done| |done]. split; [constructor|done|done]. }
  set (l0 := a :: l) in *. assert (Hl0 : (1 <= length l0)%nat) by (unfold l0; cbn; lia). destruct Hlk as [? ? ? ? ?].
  assert (H : wp no_crash (passes o fuel fuel (Z.of_nat 1) (first l0 None))
    (fun r s' => exists l', r = (first l' None, final None l') /\ sorted_from cmp l0 l' /\ linked s' l') s).
  { apply passes_ok; try done; try lia; [apply blocks_single|]. intros s' l' Hs Hlk. by exists l'. }
  apply wp_run in H as (r & s' & E & l' & -> & Hs & Hlk). by exists s', l'.
Qed.

End Algorithm.
