(* ===== verification/Utlist.v ===== *)
(** * Doubly linked lists: the DL_ macros of common/utlist.h

    The split queue is a list of these macros: [next] of the last element is NULL,
    and [prev] of the first element is the last one.  [Dl] translates the macros on a
    store of nodes with addresses; [DlFacts] shows that on a store that represents a
    list of addresses they prepend, append and delete. *)

From S2P Require Import Prelude.

Module Dl.

Record node (A : Type) : Type := mkNode {
  prev : option positive;
  next : option positive;
  payload : A
}.
Arguments mkNode {A} _ _ _.
Arguments prev {A} _.
Arguments next {A} _.
Arguments payload {A} _.

Section Dl.
Context {A : Type}.
#[local] Abbreviation store := (gmap positive (node A)).

Definition get (h : store) (p : option positive) : outcome (positive * node A) :=
  match p with
  | None => Crash NullDeref
  | Some a => match h !! a with Some n => Ret (a, n) | None => Crash UseAfterFree end
  end.

(** Assignments to p->prev and p->next. *)
Definition set_prev (h : store) (p to : option positive) : outcome store :=
  '(a, n) ← get h p; Ret (<[a := mkNode to (next n) (payload n)]> h).

Definition set_next (h : store) (p to : option positive) : outcome store :=
  '(a, n) ← get h p; Ret (<[a := mkNode (prev n) to (payload n)]> h).

Definition get_prev (h : store) (p : option positive) : outcome (option positive) :=
  '(_, n) ← get h p; Ret (prev n).

Definition get_next (h : store) (p : option positive) : outcome (option positive) :=
  '(_, n) ← get h p; Ret (next n).

Definition DL_PREPEND (h : store) (head add : option positive) : outcome (store * option positive) :=
  h ← set_next h add head;
  h ← (match head with
       | Some _ =>
           p ← get_prev h head;
           h ← set_prev h add p;
           set_prev h head add
       | None => set_prev h add add
       end);
  Ret (h, add).

Definition DL_APPEND (h : store) (head add : option positive) : outcome (store * option positive) :=
  match head with
  | Some _ =>
      p ← get_prev h head;
      h ← set_prev h add p;
      p ← get_prev h head;
      h ← set_next h p add;
      h ← set_prev h head add;
      h ← set_next h add None;
      Ret (h, head)
  | None =>
      h ← set_prev h add add;
      h ← set_next h add None;
      Ret (h, add)
  end.

Definition DL_DELETE (h : store) (head del : option positive) : outcome (store * option positive) :=
  p ← get_prev h del;
  if decide (p = del) then Ret (h, None)
  else if decide (del = head) then
    n ← get_next h del;
    p ← get_prev h del;
    h ← set_prev h n p;
    n ← get_next h del;
    Ret (h, n)
  else
    n ← get_next h del;
    h ← set_next h p n;
    n ← get_next h del;
    match n with
    | Some _ => p ← get_prev h del; h ← set_prev h n p; Ret (h, head)
    | None => p ← get_prev h del; h ← set_prev h head p; Ret (h, head)
    end.

(** The elements DL_FOREACH visits, within [fuel] steps. *)
Fixpoint DL_FOREACH (fuel : nat) (h : store) (el : option positive) : outcome (list positive) :=
  match el with
  | None => Ret []
  | Some a =>
      match fuel with
      | O => Crash NoFuel
      | S fuel' => n ← get_next h el; l ← DL_FOREACH fuel' h n; Ret (a :: l)
      end
  end.

(** The store represents the list [l] of addresses from [head]. *)
Definition links (h : store) (l : list positive) : Prop :=
  forall i a, l !! i = Some a ->
    exists x, h !! a = Some (mkNode (match i with O => list.last l | S j => l !! j end) (l !! S i) x).

Definition dl (h : store) (head : option positive) (l : list positive) : Prop :=
  NoDup l /\ head = l !! O /\ links h l.

End Dl.
End Dl.

Section DlFacts.
Import Dl.
Context {A : Type}.
Implicit Types (h : gmap positive (node A)) (l : list positive).

Lemma get_ok h a n : h !! a = Some n -> get h (Some a) = Ret (a, n).
Proof. intros E. unfold get. by rewrite E. Qed.

Lemma last_index l : list.last l = l !! (length l - 1).
Proof. rewrite last_lookup. f_equal. lia. Qed.

(** What the assignments preserve: the addresses and the payloads. *)
Definition same_payloads h h' : Prop := payload <$> h' = payload <$> h.

Lemma set_prev_ok h a to n :
  h !! a = Some n -> set_prev h (Some a) to = Ret (<[a := mkNode to (next n) (payload n)]> h).
Proof. intros E. unfold set_prev. by rewrite (get_ok h a n). Qed.

Lemma set_next_ok h a to n :
  h !! a = Some n -> set_next h (Some a) to = Ret (<[a := mkNode (prev n) to (payload n)]> h).
Proof. intros E. unfold set_next. by rewrite (get_ok h a n). Qed.

Lemma get_prev_ok h a n : h !! a = Some n -> get_prev h (Some a) = Ret (prev n).
Proof. intros E. unfold get_prev. by rewrite (get_ok h a n). Qed.

Lemma get_next_ok h a n : h !! a = Some n -> get_next h (Some a) = Ret (next n).
Proof. intros E. unfold get_next. by rewrite (get_ok h a n). Qed.

Lemma same_payloads_insert h a n n' :
  h !! a = Some n -> payload n' = payload n -> same_payloads h (<[a := n']> h).
Proof.
  intros E Ep. unfold same_payloads. rewrite fmap_insert, Ep. apply insert_id.
  by rewrite lookup_fmap, E.
Qed.

Lemma same_payloads_trans h1 h2 h3 :
  same_payloads h1 h2 -> same_payloads h2 h3 -> same_payloads h1 h3.
Proof. unfold same_payloads. by intros -> ->. Qed.

Lemma links_lookup h l i a :
  links h l -> l !! i = Some a -> is_Some (h !! a).
Proof. intros Hl Ha. destruct (Hl i a Ha) as [x ->]. by eexists. Qed.

(** DL_FOREACH visits exactly the elements, in order, and terminates. *)
Lemma foreach_from h l i fuel :
  links h l -> (length l - i <= fuel)%nat -> DL_FOREACH fuel h (l !! i) = Ret (drop i l).
Proof.
  intros Hl. revert i. induction fuel as [|fuel IH]; intros i Hf.
  - rewrite lookup_ge_None_2 by lia. rewrite drop_ge by lia. done.
  - destruct (l !! i) as [a|] eqn:Ea; cbn [DL_FOREACH].
    + destruct (Hl i a Ea) as [x Hx]. rewrite (get_next_ok h a _ Hx). cbn [next mbind outcome_bind].
      rewrite IH by lia. cbn [mbind outcome_bind]. by rewrite (drop_S _ _ _ Ea).
    + by rewrite drop_ge by (by apply lookup_ge_None).
Qed.

(** A store that changed only inside [l]. *)
Definition same_outside (l : list positive) h h' : Prop :=
  forall a, a ∉ l -> h' !! a = h !! a.

Lemma append_links h h' a l1 z b x :
  NoDup (a :: l1 ++ [z; b]) -> links h (a :: l1 ++ [z]) ->
  h' !! b = Some (mkNode (Some z) None x) ->
  (exists y, h !! z = Some y /\ h' !! z = Some (mkNode (prev y) (Some b) (payload y))) ->
  (exists y, h !! a = Some y /\ h' !! a = Some (mkNode (Some b) (next y) (payload y))) ->
  (forall c, c <> a -> c <> z -> c <> b -> h' !! c = h !! c) ->
  links h' (a :: l1 ++ [z; b]).
Proof.
  intros Hnd Hl Hb (nz & Ez & Hz) (na & Ea & Ha) Hrest.
  set (L := a :: l1 ++ [z; b]) in *. set (L0 := a :: l1 ++ [z]) in *.
  assert (E : L = L0 ++ [b]) by (unfold L, L0; simpl; by rewrite <- app_assoc).
  assert (Hlen : length L0 = S (S (length l1))) by (unfold L0; simpl; rewrite length_app; simpl; lia).
  assert (HL0 : forall k, (k < length L0)%nat -> L !! k = L0 !! k)
    by (intros k Hk; rewrite E; by apply lookup_app_l).
  assert (HLb : L !! length L0 = Some b)
    by (rewrite E, lookup_app_r, Nat.sub_diag by lia; done).
  assert (HLz : L0 !! S (length l1) = Some z)
    by (unfold L0; simpl; rewrite lookup_app_r, Nat.sub_diag by lia; done).
  assert (Hlast : list.last L = Some b) by (rewrite E; apply last_snoc).
  intros i c Hc. assert (Hi := lookup_lt_Some _ _ _ Hc). rewrite E, length_app in Hi; cbn [length] in Hi.
  destruct (decide (i = length L0)) as [->|].
  { assert (c = b) by congruence. subst c. exists x. rewrite (lookup_ge_None_2 L)
      by (rewrite E, length_app; cbn [length]; lia). by rewrite Hlen, HL0, HLz, Hb by lia. }
  assert (Hc0 : L0 !! i = Some c) by (rewrite <- HL0 by lia; done).
  destruct (Hl i c Hc0) as [y Hy].
  assert (Hne : forall j d, L !! j = Some d -> j <> i -> d <> c)
    by (intros j d Hd Hji ->; by apply Hji, (NoDup_lookup L j i c)).
  assert (Hcb : c <> b) by (intros ->; by apply (Hne (length L0) b)).
  exists y. destruct (decide (i = S (length l1))) as [->|Hiz].
  - assert (c = z) by congruence. subst c. rewrite Hy in Ez. injection Ez as <-.
    rewrite Hz. cbn [prev payload]. rewrite <- Hlen, HLb. by rewrite HL0 by lia.
  - assert (Hcz : c <> z). { intros ->. apply (Hne (S (length l1)) z); [by rewrite HL0 by lia|lia|done]. }
    destruct i as [|i].
    + assert (c = a) by (unfold L0 in Hc0; simpl in Hc0; congruence). subst c.
      rewrite Hy in Ea. injection Ea as <-. rewrite Ha, Hlast. cbn [next payload]. by rewrite HL0 by lia.
    + assert (c <> a) by (intros ->; by apply (Hne O a)).
      rewrite Hrest, Hy by done. by rewrite !HL0 by lia.
Qed.

(** What appending [b] to the list [l] does. *)
Definition appended h (l : list positive) (b : positive) : Prop :=
  exists h', DL_APPEND h (l !! O) (Some b) = Ret (h', (l ++ [b]) !! O) /\
    dl h' ((l ++ [b]) !! O) (l ++ [b]) /\ same_payloads h h' /\ same_outside (l ++ [b]) h h'.

Lemma DL_APPEND_nil h b n : h !! b = Some n -> appended h [] b.
Proof.
  intros Hn. unfold appended. simpl. rewrite (set_prev_ok h b _ n Hn). cbn [mbind outcome_bind].
  rewrite (set_next_ok _ b _ _ (lookup_insert_eq _ _ _)), insert_insert_eq. cbn.
  eexists. split; [done|]. split_and!; [|by apply (same_payloads_insert _ _ n)|].
  - split; [apply NoDup_singleton|]. split; [done|]. intros [|i] c Hc; simplify_eq/=.
    eexists. by rewrite lookup_insert_eq.
  - intros c Hc. rewrite lookup_insert_ne; [done|set_solver].
Qed.

Lemma DL_APPEND_one h a b n x :
  h !! a = Some (mkNode (Some a) None x) -> a <> b -> h !! b = Some n -> appended h [a] b.
Proof.
  intros Hx Hab Hn. unfold appended. cbn [lookup list_lookup DL_APPEND app]. rewrite (get_prev_ok h a _ Hx).
  cbn [mbind outcome_bind prev]. rewrite (set_prev_ok h b _ n Hn). cbn [mbind outcome_bind].
  rewrite (get_prev_ok _ a (mkNode (Some a) None x)) by (by rewrite lookup_insert_ne). cbn [mbind outcome_bind prev].
  rewrite (set_next_ok _ a (Some b) (mkNode (Some a) None x)) by (by rewrite lookup_insert_ne). cbn [mbind outcome_bind].
  rewrite (set_prev_ok _ a _ _ (lookup_insert_eq _ _ _)), insert_insert_eq. cbn [mbind outcome_bind prev next payload].
  rewrite (set_next_ok _ b None (mkNode (Some a) (next n) (payload n)))
    by (by rewrite lookup_insert_ne, lookup_insert_eq).
  cbn [mbind outcome_bind prev next payload]. eexists. split; [done|]. split_and!.
  - split; [repeat constructor; set_solver|]. split; [done|].
    intros [|[|i]] c Hc; simplify_eq/=; eexists; by simplify_map_eq.
  - unfold same_payloads. apply map_eq. intros c. rewrite !lookup_fmap.
    destruct (decide (c = b)) as [->|]; [by simplify_map_eq|].
    destruct (decide (c = a)) as [->|]; by simplify_map_eq.
  - intros c Hc. rewrite !lookup_insert_ne by set_solver. done.
Qed.

Lemma DL_APPEND_more h a l z b n :
  let k := a :: l ++ [z] in
  NoDup (k ++ [b]) -> links h k -> h !! b = Some n -> appended h k b.
Proof.
  intros k Hnd' Hl Hn. unfold appended. assert (Hb : b ∉ k) by (apply list.NoDup_app in Hnd' as (_ & Hd & _); set_solver).
  assert (Hnd : NoDup k) by (by apply list.NoDup_app in Hnd' as (? & _)). unfold k in *.
  destruct (Hl O a) as [x Hx]; [done|]. cbn [lookup list_lookup DL_APPEND app]. assert (Hab : a <> b) by set_solver.
  rewrite (get_prev_ok h a _ Hx). cbn [mbind outcome_bind prev]. rewrite (set_prev_ok h b _ n Hn).
  cbn [mbind outcome_bind]. erewrite (get_prev_ok _ a) by (rewrite lookup_insert_ne by done; exact Hx).
  cbn [mbind outcome_bind prev]. rewrite app_comm_cons, last_snoc.
  assert (Hz : (a :: l ++ [z]) !! S (length l) = Some z) by (by apply (list_lookup_middle (a :: l) [] z)).
  destruct (Hl _ z Hz) as [y Hy]. set (nz := mkNode _ _ y) in Hy. assert (Hzb : z <> b) by set_solver.
  assert (Hza : z <> a) by (intros ->; apply list.NoDup_cons in Hnd as [Hnd _]; set_solver).
  rewrite (set_next_ok _ z (Some b) nz) by (by rewrite lookup_insert_ne). cbn [mbind outcome_bind].
  erewrite (set_prev_ok _ a (Some b)) by (rewrite !lookup_insert_ne by done; exact Hx).
  cbn [mbind outcome_bind next payload].
  erewrite (set_next_ok _ b None) by (rewrite !lookup_insert_ne by done; apply lookup_insert_eq).
  cbn [mbind outcome_bind prev next payload]. eexists. split; [done|].
  cbn [app] in Hnd' |- *. rewrite <- app_assoc in Hnd' |- *. cbn [app] in *. split_and!.
  - split; [done|]. split; [done|]. eapply append_links; [done|done|by rewrite lookup_insert_eq| | |].
    + exists nz. split; [done|]. by simplify_map_eq.
    + eexists. split; [exact Hx|]. by simplify_map_eq.
    + intros c H1 H2 H3. by rewrite !lookup_insert_ne by done.
  - unfold same_payloads. apply map_eq. intros c. rewrite !lookup_fmap.
    destruct (decide (c = b)) as [->|]; [by simplify_map_eq|].
    destruct (decide (c = a)) as [->|]; [by simplify_map_eq|].
    destruct (decide (c = z)) as [->|]; by simplify_map_eq.
  - intros c Hc. rewrite !lookup_insert_ne by set_solver. done.
Qed.

Lemma DL_APPEND_dl h head l b n :
  dl h head l -> b ∉ l -> h !! b = Some n ->
  exists h', DL_APPEND h head (Some b) = Ret (h', (l ++ [b]) !! O) /\
    dl h' ((l ++ [b]) !! O) (l ++ [b]) /\ same_payloads h h' /\ same_outside (l ++ [b]) h h'.
Proof.
  intros (Hnd & -> & Hl) Hb Hn.
  assert (Hnd' : NoDup (l ++ [b])) by (apply list.NoDup_app; split_and!; [done|set_solver|apply NoDup_singleton]).
  destruct l as [|a l]; [by eapply DL_APPEND_nil|]. destruct l as [|z l _] using rev_ind.
  - destruct (Hl O a) as [x Hx]; [done|]. eapply DL_APPEND_one; [exact Hx|set_solver|done].
  - by eapply DL_APPEND_more.
Qed.

(** The address at position [i] once the element at position [k] is gone. *)
Lemma delete_lookup l1 (a : positive) l2 i :
  (l1 ++ l2) !! i = (l1 ++ a :: l2) !! (if decide (i < length l1)%nat then i else S i).
Proof.
  destruct (decide _); [by rewrite !lookup_app_l by lia|].
  rewrite !lookup_app_r by lia. by replace (S i - length l1)%nat with (S (i - length l1)) by lia.
Qed.

Lemma delete_links h h' l1 a l2 :
  NoDup (l1 ++ a :: l2) -> links h (l1 ++ a :: l2) ->
  (forall i c n, (l1 ++ l2) !! i = Some c -> h !! c = Some n ->
     h' !! c = Some (mkNode (if decide (i = 0)%nat then list.last (l1 ++ l2)
                             else if decide (i = length l1) then list.last l1 else prev n)
                       (if decide (S i = length l1) then head l2 else next n) (payload n))) ->
  links h' (l1 ++ l2).
Proof.
  intros Hnd Hl Hh i c Hc. assert (Hc' := Hc). rewrite (delete_lookup _ a) in Hc'.
  destruct (Hl _ _ Hc') as [x Hx]. rewrite (Hh i c _ Hc Hx). exists x. cbn [prev next payload].
  f_equal. f_equal.
  - destruct i as [|i]; [done|]. rewrite decide_False by lia.
    rewrite (delete_lookup _ a _ i). destruct (decide (S i = length l1)) as [E|].
    + rewrite decide_True by lia. rewrite last_lookup, <- E. cbn [Nat.pred].
      by rewrite lookup_app_l by lia.
    + destruct (decide (S i < length l1)%nat); [by rewrite decide_True by lia|].
      by rewrite decide_False by lia.
  - rewrite (delete_lookup _ a _ (S i)). destruct (decide (S i = length l1)) as [E|].
    + rewrite decide_False by lia. rewrite lookup_app_r by lia.
      replace (S (S i) - length l1)%nat with 1%nat by lia. by destruct l2.
    + destruct (decide (i < length l1)%nat); [by rewrite decide_True by lia|].
      by rewrite decide_False by lia.
Qed.


Lemma DL_DELETE_only h a : dl h (Some a) [a] -> DL_DELETE h (Some a) (Some a) = Ret (h, None).
Proof.
  intros (_ & _ & Hl). destruct (Hl O a eq_refl) as [x Hx]. unfold DL_DELETE.
  rewrite (get_prev_ok h a _ Hx). cbn. by rewrite decide_True.
Qed.

Lemma last_in (l : list positive) z : list.last l = Some z -> z ∈ l.
Proof. rewrite last_lookup. apply list_elem_of_lookup_2. Qed.

Lemma DL_DELETE_first h a b l :
  dl h (Some a) (a :: b :: l) ->
  exists h', DL_DELETE h (Some a) (Some a) = Ret (h', Some b) /\ dl h' (Some b) (b :: l) /\
    same_payloads h h' /\ same_outside (b :: l) h h'.
Proof.
  intros (Hnd & _ & Hl). destruct (Hl O a eq_refl) as [x Hx]. destruct (Hl 1%nat b eq_refl) as [y Hy].
  rewrite last_cons_cons in Hx. cbn in Hy. change ((a :: b :: l) !! 1) with (Some b) in Hx.
  assert (Hn : a ∉ b :: l) by (by apply list.NoDup_cons in Hnd as [Hn _]).
  assert (Hab : a <> b) by set_solver. unfold DL_DELETE.
  rewrite (get_prev_ok h a _ Hx). cbn [mbind outcome_bind prev].
  rewrite decide_False by (intros E; by apply Hn, last_in). rewrite decide_True by done.
  rewrite (get_next_ok h a _ Hx). cbn [mbind outcome_bind next].
  rewrite (set_prev_ok h b _ _ Hy). cbn [mbind outcome_bind next payload].
  erewrite get_next_ok by (rewrite lookup_insert_ne by done; exact Hx). cbn [mbind outcome_bind next].
  eexists. split; [done|]. split_and!.
  - split; [by apply list.NoDup_cons in Hnd as [_ ?]|]. split; [done|].
    apply (delete_links h _ [] a (b :: l) Hnd Hl). cbn [app length]. intros i c n Hc Hcn.
    rewrite (decide_False (P := S i = 0%nat)) by lia. destruct i as [|i].
    + rewrite decide_True by done. injection Hc as <-. rewrite Hy in Hcn. injection Hcn as <-.
      by rewrite lookup_insert_eq.
    + rewrite !decide_False by lia. assert (c <> b).
      { intros ->. apply list.NoDup_cons in Hnd as [_ Hnd].
        by assert (E := NoDup_lookup _ _ _ _ Hnd Hc (eq_refl : (b :: l) !! O = Some b)). }
      rewrite lookup_insert_ne, Hcn by done. by destruct n.
  - by eapply same_payloads_insert.
  - intros c Hc. rewrite lookup_insert_ne; [done|set_solver].
Qed.

Lemma DL_DELETE_head h a l :
  dl h (Some a) (a :: l) ->
  exists h', DL_DELETE h (Some a) (Some a) = Ret (h', l !! O) /\ dl h' (l !! O) l /\
    same_payloads h h' /\ same_outside l h h'.
Proof.
  intros Hdl. destruct l as [|b l]; [|by apply DL_DELETE_first].
  exists h. split; [by apply DL_DELETE_only|]. split; [|done].
  split; [constructor|]. split; [done|]. intros i c Hc. by rewrite lookup_nil in Hc.
Qed.

End DlFacts.

Section DlProperties.
Import Dl.

(** A store with the nodes 3, 5 and 9, of which 3 and 5 are linked. *)
Definition two_linked : gmap positive (node Z) :=
  {[ 3%positive := mkNode (Some 5%positive) (Some 5%positive) 30%Z;
     5%positive := mkNode (Some 3%positive) None 50%Z;
     9%positive := mkNode None None 90%Z ]}.

Lemma two_linked_dl : dl two_linked (Some 3%positive) [3%positive; 5%positive].
Proof.
  split; [by repeat constructor; set_solver|]. split; [done|].
  intros [|[|i]] a Ha; simplify_eq/=; by eexists.
Qed.

(** The macros implement a FIFO queue of nodes: DL_APPEND puts a new node behind
    every other one, deleting the first node with DL_DELETE leaves the others in
    order, a walk with DL_FOREACH afterwards visits exactly the expected nodes and
    stops, and no payload is touched. *)
Theorem dl_fifo {A} (h : gmap positive (node A)) (head : option positive) (l : list positive)
  (b : positive) (n : node A)
  (Hdl : dl h head l) (Hb : b ∉ l) (Hn : h !! b = Some n) :
  exists h' first rest h'' head'',
    DL_APPEND h head (Some b) = Ret (h', Some first) /\ l ++ [b] = first :: rest /\
    DL_FOREACH (S (length l)) h' (Some first) = Ret (l ++ [b]) /\
    DL_DELETE h' (Some first) (Some first) = Ret (h'', head'') /\
    DL_FOREACH (length l) h'' head'' = Ret rest /\
    payload <$> h'' = payload <$> h.
Proof.
  destruct (DL_APPEND_dl h head l b n Hdl Hb Hn) as (h' & E & Hdl' & Hp & _).
  destruct (l ++ [b]) as [|first rest] eqn:El; [by destruct l|]. cbn [lookup list_lookup] in E, Hdl'.
  destruct (DL_DELETE_head h' first rest Hdl') as (h'' & E'' & Hdl'' & Hp'' & _).
  assert (Hlen : length (first :: rest) = S (length l)) by (rewrite <- El, length_app; cbn [length]; lia).
  exists h', first, rest, h'', (rest !! O). split_and!; [done|done| |done| |].
  - apply (foreach_from h' (first :: rest) O); [apply Hdl'|lia].
  - apply (foreach_from h'' rest O); [apply Hdl''|cbn [length] in Hlen; lia].
  - by apply (same_payloads_trans h h' h'').
Qed.

Lemma dl_fifo_witness :
  exists h' first, DL_APPEND two_linked (Some 3%positive) (Some 9%positive) = Ret (h', Some first) /\
    DL_FOREACH 3 h' (Some first) = Ret [3; 5; 9]%positive.
Proof.
  destruct (dl_fifo two_linked (Some 3%positive) [3; 5]%positive 9%positive (mkNode None None 90%Z))
    as (h' & first & rest & _ & _ & E1 & _ & E2 & _);
    [apply two_linked_dl|set_solver|reflexivity|].
  exists h', first. exact (conj E1 E2).
Defined.

End DlProperties.
