(* ===== verification/Lists.v ===== *)
(** * The lists of common/utlist.h

    The macros that Utlist.v leaves out, on the same store of nodes: the singly linked
    lists (LL_), the circular ones (CDL_), the walks that allow deletion (_SAFE), the
    searches and the three sorts, which are instances of the merge sort of
    MergeSort.v.  [rep] says that a store represents a list of addresses as one of the
    three kinds of lists; the theorems are about all three. *)

From stdpp Require Import sorting.
From S2P Require Import Prelude Links MergeSort Utlist.

#[local] Open Scope Z_scope.

Module Lists.
Import Dl.

Section Macros.
Context {A : Type}.
#[local] Abbreviation store := (gmap positive (node A)).
Implicit Types (h : store) (head add del el out : option positive).

(** *** Singly linked lists *)

Definition LL_PREPEND h head add : outcome (store * option positive) :=
  h ← set_next h add head; Ret (h, add).

(** while (_tmp->next) { _tmp = _tmp->next; } *)
Fixpoint find_last (fuel : nat) h (tmp : option positive) : outcome (option positive) :=
  n ← get_next h tmp;
  match n with
  | None => Ret tmp
  | Some _ => match fuel with O => Crash NoFuel | S fuel' => find_last fuel' h n end
  end.

Definition LL_APPEND (fuel : nat) h head add : outcome (store * option positive) :=
  h ← set_next h add None;
  match head with
  | Some _ => tmp ← find_last fuel h head; h ← set_next h tmp add; Ret (h, head)
  | None => Ret (h, add)
  end.

(** while (_tmp->next && (_tmp->next != (del))) { _tmp = _tmp->next; } *)
Fixpoint find_before (fuel : nat) h del (tmp : option positive) : outcome (option positive) :=
  n ← get_next h tmp;
  if bool_decide (n <> None) && bool_decide (n <> del) then
    match fuel with O => Crash NoFuel | S fuel' => find_before fuel' h del n end
  else Ret tmp.

Definition LL_DELETE (fuel : nat) h head del : outcome (store * option positive) :=
  if decide (head = del) then
    n ← get_next h head; Ret (h, n)
  else
    tmp ← find_before fuel h del head;
    n ← get_next h tmp;
    match n with
    | Some _ => n ← get_next h del; h ← set_next h tmp n; Ret (h, head)
    | None => Ret (h, head)
    end.

(** The replacements for a compiler without decltype: add->next and the head itself are
    the temporaries. *)
Fixpoint advance_next (fuel : nat) h add : outcome store :=
  n ← get_next h add;
  m ← get_next h n;
  match m with
  | None => Ret h
  | Some _ =>
      match fuel with
      | O => Crash NoFuel
      | S fuel' => h ← set_next h add m; advance_next fuel' h add
      end
  end.

Definition LL_APPEND_VS2008 (fuel : nat) h head add : outcome (store * option positive) :=
  '(h, head) ← (match head with
                | Some _ =>
                    h ← set_next h add head;
                    h ← advance_next fuel h add;
                    n ← get_next h add;
                    h ← set_next h n add;
                    Ret (h, head)
                | None => Ret (h, add)
                end);
  h ← set_next h add None;
  Ret (h, head).

Definition LL_DELETE_VS2008 (fuel : nat) h head del : outcome (store * option positive) :=
  if decide (head = del) then
    n ← get_next h head; Ret (h, n)
  else
    let tmp := head in
    head ← find_before fuel h del head;
    n ← get_next h head;
    h ← (match n with
         | Some _ => n ← get_next h del; set_next h head n
         | None => Ret h
         end);
    Ret (h, tmp).

(** The elements that LL_FOREACH visits. *)
Definition LL_FOREACH := @DL_FOREACH A.

(** The loop with its body, which may delete the element; [b] is what else it changes. *)
Fixpoint LL_FOREACH_SAFE {B} (fuel : nat) (body : positive -> store -> B -> outcome (store * B)) h el (b : B) :
    outcome (store * B) :=
  match el with
  | None => Ret (h, b)
  | Some a =>
      match fuel with
      | O => Crash NoFuel
      | S fuel' =>
          tmp ← get_next h el;
          '(h, b) ← body a h b;
          LL_FOREACH_SAFE fuel' body h tmp b
      end
  end.

(** The element at which a search loop with the test [found] breaks. *)
Fixpoint search (fuel : nat) h (found : A -> bool) out : outcome (option positive) :=
  match out with
  | None => Ret None
  | Some _ =>
      '(_, n) ← get h out;
      if found (payload n) then Ret out
      else match fuel with O => Crash NoFuel | S fuel' => search fuel' h found (next n) end
  end.

Definition LL_SEARCH_SCALAR (fuel : nat) h head (field : A -> Z) (val : Z) : outcome (option positive) :=
  search fuel h (fun x => field x =? val) head.

Definition LL_SEARCH (fuel : nat) h head (elt : A) (cmp : A -> A -> Z) : outcome (option positive) :=
  search fuel h (fun x => cmp x elt =? 0) head.

(** *** Doubly linked lists *)

Definition DL_FOREACH_SAFE {B} := @LL_FOREACH_SAFE B.
Definition DL_SEARCH_SCALAR := LL_SEARCH_SCALAR.
Definition DL_SEARCH := LL_SEARCH.

(** *** Circular lists *)

Definition CDL_PREPEND h head add : outcome (store * option positive) :=
  h ← (match head with
       | Some _ =>
           p ← get_prev h head;
           h ← set_prev h add p;
           h ← set_next h add head;
           h ← set_prev h head add;
           p ← get_prev h add;
           set_next h p add
       | None => h ← set_prev h add add; set_next h add add
       end);
  Ret (h, add).

Definition CDL_DELETE h head del : outcome (store * option positive) :=
  only ← (if decide (head = del) then n ← get_next h head; Ret (bool_decide (n = head)) else Ret false);
  if only : bool then Ret (h, None)
  else
    n ← get_next h del;
    p ← get_prev h del;
    h ← set_prev h n p;
    p ← get_prev h del;
    n ← get_next h del;
    h ← set_next h p n;
    if decide (del = head) then n ← get_next h del; Ret (h, n) else Ret (h, head).

(** el->next == head ? 0L : el->next *)
Definition around head (n : option positive) : option positive := if decide (n = head) then None else n.

Fixpoint CDL_FOREACH (fuel : nat) h head el : outcome (list positive) :=
  match el with
  | None => Ret []
  | Some a =>
      match fuel with
      | O => Crash NoFuel
      | S fuel' => n ← get_next h el; l ← CDL_FOREACH fuel' h head (around head n); Ret (a :: l)
      end
  end.

Fixpoint walk_until {B} (fuel : nat) (body : positive -> store -> B -> outcome (store * B)) (tmp1 : option positive)
    h el (b : B) : outcome (store * B) :=
  match el with
  | None => Ret (h, b)
  | Some a =>
      match fuel with
      | O => Crash NoFuel
      | S fuel' =>
          tmp2 ← get_next h el;
          '(h, b) ← body a h b;
          walk_until fuel' body tmp1 h (if decide (el = tmp1) then None else tmp2) b
      end
  end.

Definition CDL_FOREACH_SAFE {B} (fuel : nat) (body : positive -> store -> B -> outcome (store * B)) h head (b : B) :
    outcome (store * B) :=
  tmp1 ← (match head with Some _ => get_prev h head | None => Ret None end);
  walk_until fuel body tmp1 h head b.

Fixpoint search_around (fuel : nat) h (found : A -> bool) head out : outcome (option positive) :=
  match out with
  | None => Ret None
  | Some _ =>
      '(_, n) ← get h out;
      if found (payload n) then Ret out
      else match fuel with O => Crash NoFuel | S fuel' => search_around fuel' h found head (around head (next n)) end
  end.

Definition CDL_SEARCH_SCALAR (fuel : nat) h head (field : A -> Z) (val : Z) : outcome (option positive) :=
  search_around fuel h (fun x => field x =? val) head head.

Definition CDL_SEARCH (fuel : nat) h head (elt : A) (cmp : A -> A -> Z) : outcome (option positive) :=
  search_around fuel h (fun x => cmp x elt =? 0) head head.

(** *** The sorts *)

Section Sorts.
Variable cmp : A -> A -> Z.

(** The links of the nodes, with counters of type int. *)
Definition list_ops (circular double ring : bool) : Sort.ops store := {|
  Sort.o_int := c_int;
  Sort.o_circular := circular;
  Sort.o_double := double;
  Sort.o_ring := ring;
  Sort.o_next := fun p h => n ← get_next h p; Ret (n, h);
  Sort.o_set_next := fun p v h => h ← set_next h p v; Ret (tt, h);
  Sort.o_set_prev := fun p v h => h ← set_prev h p v; Ret (tt, h);
  Sort.o_cmp := fun p q h => '(_, x) ← get h p; '(_, y) ← get h q; Ret (cmp (payload x) (payload y), h)
|}.

(** The new head and the store. *)
Definition sorted_head (o : Sort.ops store) (fuel : nat) h (list : option positive) : outcome (store * option positive) :=
  '(head, _, h) ← Sort.sort o fuel list h; Ret (h, head).

Definition LL_SORT := sorted_head (list_ops false false false).
Definition DL_SORT := sorted_head (list_ops false true true).
Definition CDL_SORT := sorted_head (list_ops true true true).

End Sorts.
End Macros.

(** ** What a list is *)

Inductive kind : Type := Single | Double | Circular.
#[global] Instance kind_eq_dec : EqDecision kind.
Proof. solve_decision. Defined.

Section Rep.
Context {A : Type}.
#[local] Abbreviation store := (gmap positive (node A)).
Implicit Types (h : store) (head : option positive) (l : list positive) (a b : positive).

Definition nx h a : option positive := h !! a ≫= next.
Definition pv h a : option positive := h !! a ≫= prev.

(** [l] is the list of kind [k] at [head]. *)
Record rep (k : kind) h head l : Prop := mkRep {
  rep_nodup : NoDup l;
  rep_head : head = first l None;
  rep_live : Forall (fun a => is_Some (h !! a)) l;
  rep_next : chain (nx h) l (match k with Circular => head | _ => None end);
  rep_prev : k <> Single -> back (pv h) (final None l) l
}.

(** The macros of each kind. *)
Definition prepend (k : kind) h head add : outcome (store * option positive) :=
  match k with Single => LL_PREPEND h head add | Double => DL_PREPEND h head add | Circular => CDL_PREPEND h head add end.

Definition remove (k : kind) (fuel : nat) h head del : outcome (store * option positive) :=
  match k with Single => LL_DELETE fuel h head del | Double => DL_DELETE h head del | Circular => CDL_DELETE h head del end.

Definition foreach (k : kind) (fuel : nat) h head : outcome (list positive) :=
  match k with Single => LL_FOREACH fuel h head | Double => DL_FOREACH fuel h head | Circular => CDL_FOREACH fuel h head head end.

Definition foreach_safe {B} (k : kind) (fuel : nat) body h head (b : B) : outcome (store * B) :=
  match k with
  | Single => LL_FOREACH_SAFE fuel body h head b
  | Double => DL_FOREACH_SAFE fuel body h head b
  | Circular => CDL_FOREACH_SAFE fuel body h head b
  end.

Definition search_scalar (k : kind) (fuel : nat) h head field val : outcome (option positive) :=
  match k with
  | Single => LL_SEARCH_SCALAR fuel h head field val
  | Double => DL_SEARCH_SCALAR fuel h head field val
  | Circular => CDL_SEARCH_SCALAR fuel h head field val
  end.

Definition search_elt (k : kind) (fuel : nat) h head elt cmp : outcome (option positive) :=
  match k with
  | Single => LL_SEARCH fuel h head elt cmp
  | Double => DL_SEARCH fuel h head elt cmp
  | Circular => CDL_SEARCH fuel h head elt cmp
  end.

Definition sort (k : kind) cmp (fuel : nat) h head : outcome (store * option positive) :=
  match k with
  | Single => LL_SORT cmp fuel h head
  | Double => DL_SORT cmp fuel h head
  | Circular => CDL_SORT cmp fuel h head
  end.

End Rep.
End Lists.

(** ** The operations, on the list that a store represents *)

Section Facts.
Import Dl Lists.
Context {A : Type}.
#[local] Abbreviation store := (gmap positive (node A)).
Implicit Types (h : store) (head : option positive) (l : list positive) (a b : positive).

Lemma alive_same h h' a : same_payloads h h' -> is_Some (h !! a) -> is_Some (h' !! a).
Proof. intros E Ha. apply (fmap_is_Some payload). rewrite <- lookup_fmap, E, lookup_fmap. by apply fmap_is_Some. Qed.

Lemma get_next_nx h a : is_Some (h !! a) -> get_next h (Some a) = Ret (nx h a).
Proof. intros [n E]. rewrite (get_next_ok h a n E). unfold nx. by rewrite E. Qed.

Lemma get_prev_pv h a : is_Some (h !! a) -> get_prev h (Some a) = Ret (pv h a).
Proof. intros [n E]. rewrite (get_prev_ok h a n E). unfold pv. by rewrite E. Qed.

(** A store after an assignment to one of the links of a node. *)
Definition next_set h a v h' : Prop :=
  same_payloads h h' /\ (forall b, nx h' b = if decide (b = a) then v else nx h b) /\ forall b, pv h' b = pv h b.

Definition prev_set h a v h' : Prop :=
  same_payloads h h' /\ (forall b, pv h' b = if decide (b = a) then v else pv h b) /\ forall b, nx h' b = nx h b.

Lemma set_next_spec h a v : is_Some (h !! a) -> exists h', set_next h (Some a) v = Ret h' /\ next_set h a v h'.
Proof.
  intros [n E]. rewrite (set_next_ok h a v n E). eexists. split; [done|]. split_and!.
  - by apply (same_payloads_insert _ _ n).
  - intros b. unfold nx. destruct (decide (b = a)) as [->|]; by simplify_map_eq.
  - intros b. unfold pv. destruct (decide (b = a)) as [->|]; by simplify_map_eq.
Qed.

Lemma set_prev_spec h a v : is_Some (h !! a) -> exists h', set_prev h (Some a) v = Ret h' /\ prev_set h a v h'.
Proof.
  intros [n E]. rewrite (set_prev_ok h a v n E). eexists. split; [done|]. split_and!.
  - by apply (same_payloads_insert _ _ n).
  - intros b. unfold pv. destruct (decide (b = a)) as [->|]; by simplify_map_eq.
  - intros b. unfold nx. destruct (decide (b = a)) as [->|]; by simplify_map_eq.
Qed.

(** A node is its payload and its links. *)
Lemma node_same h h' a : same_payloads h h' -> nx h' a = nx h a -> pv h' a = pv h a -> h' !! a = h !! a.
Proof.
  intros E. assert (E' : (payload <$> h') !! a = (payload <$> h) !! a) by (by rewrite E). rewrite !lookup_fmap in E'.
  unfold nx, pv. destruct (h' !! a) as [[]|], (h !! a) as [[]|]; naive_solver.
Qed.

Lemma rep_alive k h head l a : rep k h head l -> a ∈ l -> is_Some (h !! a).
Proof. intros [_ _ Hl _ _] Ha. rewrite list.Forall_forall in Hl. by apply Hl. Qed.

Lemma rep_nil k h : rep k h None [].
Proof. by split; try constructor. Qed.

(** The list has changed to [l'], and nothing but the links of its nodes. *)
Record became k h h' l' : Prop := mkBecame {
  bc_rep : rep k h' (first l' None) l';
  bc_payloads : same_payloads h h';
  bc_outside : same_outside l' h h'
}.

End Facts.

(** One assignment or one read of a link. *)
Ltac alive := solve [eauto using alive_same | repeat (eapply alive_same; [eassumption|]); eauto].

Ltac next_of m := lazymatch m with ?x ≫= _ => next_of x | _ => m end.

Ltac step :=
  cbn [mbind outcome_bind];
  lazymatch goal with |- exists h', ?M = _ /\ _ =>
  let m := next_of M in
  lazymatch m with
  | Dl.get_next ?h (Some ?a) => rewrite (get_next_nx h a) by alive
  | Dl.get_prev ?h (Some ?a) => rewrite (get_prev_pv h a) by alive
  | Dl.set_next ?h (Some ?a) ?v =>
      let h' := fresh "h" in let H1 := fresh "Hs" in let H2 := fresh "Hn" in let H3 := fresh "Hp" in
      destruct (set_next_spec h a v) as (h' & -> & H1 & H2 & H3); [alive|]
  | Dl.set_prev ?h (Some ?a) ?v =>
      let h' := fresh "h" in let H1 := fresh "Hs" in let H2 := fresh "Hn" in let H3 := fresh "Hp" in
      destruct (set_prev_spec h a v) as (h' & -> & H1 & H3 & H2); [alive|]
  end end;
  cbn [mbind outcome_bind].

(** Comparisons of addresses. *)
Ltac addresses := repeat (case_decide; simplify_eq); try done; try congruence; try set_solver.

(** What the assignments have left of the links, outside the list too. *)
Ltac links_of := repeat match goal with H : forall b, _ = _ |- _ => progress rewrite ?H end.
Ltac outside := let b := fresh in let H := fresh in intros b H; links_of; split; cbn in H; addresses.

Section Operations.
Import Dl Lists.
Context {A : Type}.
#[local] Abbreviation store := (gmap positive (node A)).
Implicit Types (h : store) (head : option positive) (l : list positive) (a b : positive).

Lemma same_trans h1 h2 h3 : same_payloads h1 h2 -> same_payloads h2 h3 -> same_payloads h1 h3.
Proof. apply same_payloads_trans. Qed.

(** Stores with the right links represent the list. *)
Lemma became_intro k h h' l :
  same_payloads h h' -> NoDup l -> Forall (fun a => is_Some (h !! a)) l ->
  chain (nx h') l (match k with Circular => first l None | _ => None end) ->
  (forall b, b ∉ l -> nx h' b = nx h b /\ pv h' b = pv h b) ->
  (k <> Single -> back (pv h') (final None l) l) -> became k h h' l.
Proof.
  intros Hs Hnd Hl Hc Ho Hb. split; [|done|intros b Hb'; destruct (Ho b Hb'); by apply node_same]. split; try done. eapply list.Forall_impl; [exact Hl|]. intros a. by apply alive_same.
Qed.

Lemma prepend_first k h a : is_Some (h !! a) ->
  exists h', prepend k h None (Some a) = Ret (h', Some a) /\ became k h h' [a].
Proof.
  intros Ha. destruct k; cbn [prepend]; unfold LL_PREPEND, DL_PREPEND, CDL_PREPEND; repeat step;
    (eexists; split; [done|]; apply became_intro; [eauto using same_trans|by repeat constructor; set_solver|by repeat constructor|cbn; split; [|done]|outside|
      intros; cbn; split; [|done]]); links_of; addresses.
Qed.

Lemma prepend_ok k h head l a :
  rep k h head l -> a ∉ l -> is_Some (h !! a) ->
  exists h', prepend k h head (Some a) = Ret (h', Some a) /\ became k h h' (a :: l).
Proof.
  intros Hr Hal Ha. destruct l as [|f l]; [rewrite (rep_head _ _ _ _ Hr); by apply prepend_first|].
  assert (Hf : is_Some (h !! f)) by (eapply rep_alive; [exact Hr|set_solver]).
  destruct (final_is (f :: l) ltac:(done)) as (z & Ez & Hz). assert (Hzl : is_Some (h !! z)) by (by eapply rep_alive).
  destruct Hr as [Hnd -> Hl Hc Hb]. assert (Hnd' : NoDup (a :: f :: l)) by (by apply list.NoDup_cons).
  assert (Hl' : Forall (fun a => is_Some (h !! a)) (a :: f :: l)) by (by constructor).
  assert (Hbf : forall h', (forall b, pv h' b = if decide (b = f) then Some a else if decide (b = a) then Some z else pv h b) ->
    k <> Single -> back (pv h') (final None (a :: f :: l)) (a :: f :: l)).
  { intros h' Hp Hk. change (final None (a :: f :: l)) with (final None (f :: l)). rewrite Ez. split; [rewrite Hp; addresses|].
    eapply (back_first (pv h)); [done| |by apply Hb]. intros b Hb'. rewrite Hp. cbn [first]. addresses. }
  destruct k; cbn [prepend]; unfold LL_PREPEND, DL_PREPEND, CDL_PREPEND; cbn [first] in *.
  - step. eexists. split; [done|]. apply became_intro; [done..| |outside|done]. split; [rewrite Hn; addresses|].
    eapply chain_same; [|exact Hc]. intros b Hb'. rewrite Hn. addresses.
  - destruct (Hb ltac:(done)) as [Ep _]. rewrite Ez in Ep. repeat step. eexists. split; [done|].
    apply became_intro; [eauto using same_trans|done|done| |outside|].
    + split; [rewrite Hn1, Hn0, Hn; addresses|]. eapply chain_same; [|exact Hc]. intros b Hb'. rewrite Hn1, Hn0, Hn. addresses.
    + apply Hbf. intros b. rewrite Hp1, Hp0, !Hp. addresses.
  - destruct (Hb ltac:(done)) as [Ep _]. rewrite Ez in Ep. repeat step. rewrite Hp1, Hp0, Hp.
    rewrite decide_False by set_solver. rewrite decide_True by done. rewrite Ep. step. eexists. split; [done|].
    apply became_intro; [eauto using same_trans|done|done| |outside|].
    + split; [rewrite Hn2, Hn1, Hn0, Hn; cbn; addresses|]. eapply (chain_next (nx h) _ None); [done| |exact Hc].
      intros b Hb'. rewrite Hn2, Hn1, Hn0, Hn, Ez. cbn. addresses.
    + apply Hbf. intros b. rewrite Hp2, Hp1, Hp0, Hp. rewrite Ep. addresses.
Qed.

(** The loop of LL_APPEND stops at the last element. *)
Lemma find_last_ok fuel : forall h l, l <> [] -> Forall (fun a => is_Some (h !! a)) l -> chain (nx h) l None ->
  (length l <= S fuel)%nat -> find_last fuel h (first l None) = Ret (final None l).
Proof.
  induction fuel as [|fuel IH]; intros h [|a l] Hne Hl Hc Hf; try done; apply list.Forall_cons in Hl as [Ha Hl];
    destruct Hc as [Hn Hc]; cbn [find_last first]; rewrite get_next_nx by done; cbn [mbind outcome_bind];
    rewrite Hn; destruct l as [|b l]; try done; [cbn in Hf; lia|].
  cbn [first]. change (Some b) with (first (b :: l) None). rewrite IH; [done|done|done|done|cbn in *; lia].
Qed.

Lemma append_chain h h' l a x : NoDup (l ++ [a]) -> chain (nx h) l x ->
  (forall b, b ∈ l ++ [a] -> nx h' b = if decide (b = a) then None else if decide (Some b = final None l) then Some a else nx h b) ->
  chain (nx h') (l ++ [a]) None.
Proof.
  intros Hnd Hc Hn. apply list.NoDup_app in Hnd as (Hnl & Hd & _). apply chain_app. split; [|split; [|done]].
  - apply (chain_next (nx h) _ None l x); [done| |done]. intros b Hb. rewrite Hn by set_solver.
    rewrite decide_False; [done|]. intros ->. apply (Hd a Hb). set_solver.
  - rewrite Hn by set_solver. by rewrite decide_True.
Qed.

Lemma LL_APPEND_ok fuel h head l a :
  rep Single h head l -> a ∉ l -> is_Some (h !! a) -> (length l <= S fuel)%nat ->
  exists h', LL_APPEND fuel h head (Some a) = Ret (h', first (l ++ [a]) None) /\ became Single h h' (l ++ [a]).
Proof.
  intros [Hnd -> Hl Hc _] Hal Ha Hf.
  assert (Hnd' : NoDup (l ++ [a])) by (apply list.NoDup_app; split_and!; [done|set_solver|apply NoDup_singleton]).
  assert (Hl' : Forall (fun a => is_Some (h !! a)) (l ++ [a])) by (apply list.Forall_app; split; [done|by repeat constructor]).
  unfold LL_APPEND. step. destruct l as [|f l].
  - eexists. split; [done|]. apply became_intro; [done..| |outside|done]. split; [|done]. rewrite Hn. addresses.
  - cbn [first]. change (Some f) with (first (f :: l) None). rewrite find_last_ok; [|done| | |done].
    2: { eapply list.Forall_impl; [exact Hl|]. intros b. by apply alive_same. }
    2: { apply (chain_same (nx h)); [|done]. intros b Hb. rewrite Hn. addresses. }
    destruct (final_is (f :: l) ltac:(done)) as (z & Ez & Hz). rewrite Ez.
    assert (is_Some (h !! z)) by (rewrite list.Forall_forall in Hl; by apply Hl).
    step. eexists. split; [done|]. apply became_intro; [eauto using same_trans|done|done| |outside|done].
    eapply append_chain; [done|exact Hc|]. intros b Hb. rewrite Hn0, Hn, Ez. addresses.
Qed.

Lemma DL_APPEND_ok h head l a :
  rep Double h head l -> a ∉ l -> is_Some (h !! a) ->
  exists h', DL_APPEND h head (Some a) = Ret (h', first (l ++ [a]) None) /\ became Double h h' (l ++ [a]).
Proof.
  intros [Hnd -> Hl Hc Hb] Hal Ha. specialize (Hb ltac:(done)).
  assert (Hnd' : NoDup (l ++ [a])) by (apply list.NoDup_app; split_and!; [done|set_solver|apply NoDup_singleton]).
  assert (Hl' : Forall (fun a => is_Some (h !! a)) (l ++ [a])) by (apply list.Forall_app; split; [done|by repeat constructor]).
  destruct l as [|f l]; cbn [first DL_APPEND].
  - repeat step. eexists. split; [done|]. apply became_intro; [eauto using same_trans|done|done| |outside|].
    + split; [|done]. rewrite Hn0. addresses.
    + intros _. split; [|done]. rewrite Hp0, Hp. addresses.
  - destruct (final_is (f :: l) ltac:(done)) as (z & Ez & Hz).
    rewrite list.Forall_forall in Hl. assert (is_Some (h !! z)) by (by apply Hl). assert (is_Some (h !! f)) by (apply Hl; set_solver).
    assert (Ep : pv h f = Some z) by (rewrite <- Ez; apply Hb). do 3 step. rewrite Hp, decide_False by set_solver. rewrite Ep.
    repeat step. eexists. split; [done|]. apply became_intro; [eauto using same_trans|done|done| |outside|].
    + eapply append_chain; [done|exact Hc|]. intros b Hb'. rewrite Hn2, Hn1, Hn0, Hn, Ez. addresses.
    + intros _. rewrite final_app. cbn [final]. apply back_app. split; [|split; [|done]].
      * apply (back_first (pv h) _ (final None (f :: l))); [done| |done]. intros b Hb'. rewrite Hp2, Hp1, Hp0, Hp. cbn [first]. addresses.
      * rewrite final_some, Ez by done. rewrite Hp2, Hp1, Hp0, Hp. addresses.
Qed.

(** The loop of LL_DELETE stops before the element. *)
Lemma find_before_ok fuel : forall h l a k, l <> [] -> NoDup (l ++ a :: k) -> Forall (fun b => is_Some (h !! b)) l ->
  chain (nx h) (l ++ a :: k) None -> (length l <= S fuel)%nat ->
  find_before fuel h (Some a) (first l None) = Ret (final None l).
Proof.
  induction fuel as [|fuel IH]; intros h [|b l] a k Hne Hnd Hl Hc Hf; try done; apply list.Forall_cons in Hl as [Hb Hl];
    destruct Hc as [Hn Hc]; apply list.NoDup_cons in Hnd as [Hbn Hnd];
    cbn [find_before first]; rewrite get_next_nx by done; cbn [mbind outcome_bind]; rewrite Hn;
    (destruct l as [|c l]; [cbn; by rewrite bool_decide_eq_false_2 by naive_solver|]); [cbn in Hf; lia|].
  cbn [app first]. assert (c <> a) by (intros ->; cbn in Hnd; apply list.NoDup_cons in Hnd; set_solver).
  rewrite !bool_decide_eq_true_2 by naive_solver. cbn [andb]. change (Some c) with (first (c :: l) None).
  rewrite (IH h (c :: l) a k); [done|done|done|done|done|cbn in *; lia].
Qed.

(** The list without one of its elements. *)
Lemma list_without l k a : NoDup (l ++ a :: k) -> filter (fun b => b <> a) (l ++ a :: k) = l ++ k.
Proof.
  intros (_ & Hd & [Ha _]%list.NoDup_cons)%list.NoDup_app. rewrite list.filter_app, filter_cons_False by naive_solver.
  f_equal; apply filter_all, list.Forall_forall; intros b Hb ->; [apply (Hd a Hb)|]; set_solver.
Qed.

Lemma LL_DELETE_ok fuel h head l a k :
  rep Single h head (l ++ a :: k) -> (length l <= S fuel)%nat ->
  exists h', LL_DELETE fuel h head (Some a) = Ret (h', first (l ++ k) None) /\ became Single h h' (l ++ k).
Proof.
  intros Hr Hf. assert (Ha : is_Some (h !! a)) by (eapply rep_alive; [exact Hr|set_solver]). destruct Hr as [Hnd -> Hl Hc _].
  assert (Hnd2 : NoDup (l ++ k)) by (rewrite <- (list_without l k a Hnd); by apply list.NoDup_filter).
  assert (Hl2 := Hl). apply list.Forall_app in Hl2 as [Hll [_ Hlk]%list.Forall_cons].
  assert (Hl3 : Forall (fun b => is_Some (h !! b)) (l ++ k)) by (by apply list.Forall_app).
  assert (Hna : nx h a = first k None) by (apply chain_app in Hc as [_ [Hna _]]; done).
  unfold LL_DELETE. destruct l as [|f l]; cbn [app first].
  - rewrite decide_True by done. step. rewrite Hna. eexists. split; [done|].
    apply became_intro; [done..| |done|done]. by destruct Hc.
  - rewrite decide_False. 2: { intros [= ->]. cbn in Hnd. apply list.NoDup_cons in Hnd as [Hnd _]. set_solver. }
    change (Some f) with (first (f :: l) None). rewrite (find_before_ok fuel h (f :: l) a k); try done.
    destruct (final_is (f :: l) ltac:(done)) as (z & Ez & Hz). rewrite Ez. assert (Hza : is_Some (h !! z)).
    { rewrite list.Forall_forall in Hll. by apply Hll. }
    cbn [mbind outcome_bind]. rewrite (get_next_nx h z) by done. assert (Enz : nx h z = Some a).
    { destruct l as [|y l _] using rev_ind; cbn in Ez; [injection Ez as ->; apply Hc|].
      rewrite final_app in Ez. injection Ez as ->. rewrite app_comm_cons, <- app_assoc in Hc. apply chain_app in Hc as [_ Hc]. apply Hc. }
    rewrite Enz. repeat step. eexists. split; [done|]. rewrite Hna in *.
    apply became_intro; [done|done|done| |outside|done].
    apply (chain_remove (nx h) _ (f :: l) a k None); [done|done| |done|done]. intros b Hb. rewrite Hn, Ez. addresses.
Qed.

(** An element of a list and its neighbours. *)
Lemma rep_around kd h head l a k :
  rep kd h head (l ++ a :: k) ->
  is_Some (h !! a) /\ NoDup (l ++ k) /\ Forall (fun b => is_Some (h !! b)) (l ++ k) /\
  nx h a = first k (match kd with Circular => head | _ => None end) /\
  (kd <> Single -> pv h a = final (final None (a :: k)) l).
Proof.
  intros [Hnd Hh Hl Hc Hb]. assert (Hl2 := Hl). apply list.Forall_app in Hl2 as [Hll [Ha Hlk]%list.Forall_cons].
  split_and!.
  - done.
  - rewrite <- (list_without l k a Hnd). by apply list.NoDup_filter.
  - by apply list.Forall_app.
  - by apply chain_app in Hc as [_ [Hna _]].
  - intros Hk. specialize (Hb Hk). apply back_app in Hb as [_ [Hb _]]. by rewrite Hb, final_app.
Qed.

Lemma DL_DELETE_ok h head l a k :
  rep Double h head (l ++ a :: k) ->
  exists h', DL_DELETE h head (Some a) = Ret (h', first (l ++ k) None) /\ became Double h h' (l ++ k).
Proof.
  intros Hr. destruct (rep_around _ _ _ _ _ _ Hr) as (Ha & Hnd2 & Hl2 & Hna & Hpa). specialize (Hpa ltac:(done)).
  destruct Hr as [Hnd -> Hl Hc Hb]. specialize (Hb ltac:(done)). rewrite list.Forall_forall in Hl2.
  assert (Hla : a ∉ l ++ k) by (rewrite <- (list_without l k a Hnd); intros [? _]%list_elem_of_filter; done).
  unfold DL_DELETE. step. rewrite Hpa. destruct l as [|f l]; cbn [app first].
  - destruct k as [|b k].
    { rewrite decide_True by done. eexists. split; [done|]. apply became_intro; done. }
    cbn [final]. destruct (final_is (b :: k) ltac:(done)) as (z & Ez & Hz). cbn [final] in Ez. rewrite Ez.
    rewrite decide_False by (intros [= ->]; set_solver). rewrite decide_True by done. step.
    assert (Hbl : is_Some (h !! b)) by (apply Hl2; set_solver). rewrite Hna. cbn [first]. repeat step. rewrite Hn, Hna.
    eexists. split; [done|]. apply became_intro; [done|done|by apply list.Forall_forall| |outside|].
    + apply (chain_same (nx h)); [done|by destruct Hc].
    + intros _. cbn [final]. rewrite Ez. apply (back_first (pv h) _ (Some a)); [done| |by destruct Hb].
      intros c Hc'. rewrite Hp. cbn [first final]. addresses.
  - destruct (final_is (f :: l) ltac:(done)) as (z & Ez & Hz). rewrite (final_some _ (f :: l)), Ez in * by done.
    rewrite decide_False by (intros [= ->]; set_solver). rewrite decide_False by (intros [= ->]; set_solver).
    assert (Hzl : is_Some (h !! z)) by (apply Hl2; set_solver). assert (Hfl : is_Some (h !! f)) by (apply Hl2; set_solver).
    repeat step. rewrite Hn, decide_False, Hna by set_solver. destruct k as [|b k]; cbn [first].
    + step. rewrite Hp, Hpa. repeat step. eexists. split; [done|].
      apply became_intro; [eauto using same_trans|done|by apply list.Forall_forall| |outside|].
      * apply (chain_remove (nx h) _ (f :: l) a [] None); [done|done| |done|done].
        intros c Hc'. rewrite Hn0, Hn, Ez, Hna. addresses.
      * intros _. rewrite app_nil_r. eapply (back_first (pv h)); [by rewrite app_nil_r in Hnd2| |by apply (back_app _ _ (f :: l)) in Hb as [Hb _]].
        intros c Hc'. rewrite Hp0, Hp, Ez. cbn [first]. addresses.
    + assert (Hbl : is_Some (h !! b)) by (apply Hl2; set_solver). step. rewrite Hp, Hpa. repeat step. eexists. split; [done|].
      apply became_intro; [eauto using same_trans|done|by apply list.Forall_forall| |outside|].
      * apply (chain_remove (nx h) _ (f :: l) a (b :: k) None); [done|done| |done|done].
        intros c Hc'. rewrite Hn0, Hn, Ez, Hna. addresses.
      * intros _. eapply (back_remove (pv h) _ _ _ (f :: l) a (b :: k)); [done|done| |exact Hb].
        intros c Hc'. rewrite Hp0, Hp, Ez. cbn [first].
        assert (f <> b) by (intros ->; apply list.NoDup_cons in Hnd2 as [Hnd2 _]; set_solver).
        assert (Epf : pv h f = final None ((f :: l) ++ a :: b :: k)) by apply Hb.
        change (f :: l ++ b :: k) with ((f :: l) ++ b :: k). rewrite final_app in Epf |- *. cbn [final] in Epf |- *. addresses.
Qed.

Lemma CDL_DELETE_ok h head l a k :
  rep Circular h head (l ++ a :: k) ->
  exists h', CDL_DELETE h head (Some a) = Ret (h', first (l ++ k) None) /\ became Circular h h' (l ++ k).
Proof.
  intros Hr. destruct (rep_around _ _ _ _ _ _ Hr) as (Ha & Hnd2 & Hl2 & Hna & Hpa). specialize (Hpa ltac:(done)).
  destruct Hr as [Hnd -> Hl Hc Hb]. specialize (Hb ltac:(done)). rewrite list.Forall_forall in Hl2.
  assert (Hla : a ∉ l ++ k) by (rewrite <- (list_without l k a Hnd); intros [? _]%list_elem_of_filter; done).
  unfold CDL_DELETE. destruct l as [|f l]; cbn [app first] in *.
  - rewrite decide_True by done. step. rewrite Hna. destruct k as [|b k]; cbn [first final] in *.
    { rewrite bool_decide_eq_true_2 by done. eexists. split; [done|]. by apply became_intro. }
    destruct (final_is (b :: k) ltac:(done)) as (z & Ez & Hz). cbn [final] in Ez. rewrite Ez in Hpa.
    assert (Hzl : is_Some (h !! z)) by (apply Hl2; set_solver). assert (Hbl : is_Some (h !! b)) by (apply Hl2; set_solver).
    rewrite bool_decide_eq_false_2 by (intros [= ->]; set_solver). repeat step. rewrite Hp, Hpa. rewrite decide_False by set_solver. step. rewrite decide_True by done.
    step. rewrite Hn0. rewrite decide_False by set_solver. rewrite Hn, Hna. eexists. split; [done|].
    apply became_intro; [eauto using same_trans|done|by apply list.Forall_forall| |outside|].
    + apply (chain_next (nx h) _ None (b :: k) (Some a)); [done| |by destruct Hc]. intros c Hc'. rewrite Hn0, Hn. cbn [first final]. rewrite Ez. addresses.
    + intros _. cbn [final]. rewrite Ez. apply (back_first (pv h) _ (Some a)); [done| |by destruct Hb].
      intros c Hc'. rewrite Hp0, Hp. cbn [first]. addresses.
  - destruct (final_is (f :: l) ltac:(done)) as (z & Ez & Hz). rewrite (final_some _ (f :: l)), Ez in * by done.
    rewrite decide_False by (intros [= ->]; set_solver).
    assert (Hzl : is_Some (h !! z)) by (apply Hl2; set_solver). assert (Hfl : is_Some (h !! f)) by (apply Hl2; set_solver).
    step. rewrite Hna. set (b := first k (Some f)) in *. assert (exists c, b = Some c /\ c ∈ f :: l ++ k) as (c & Ec & Hcl).
    { unfold b. destruct k as [|c k]; [exists f|exists c]; cbn; set_solver. }
    rewrite Ec in *. assert (Hcl' := Hl2 c Hcl). repeat step. rewrite Hp. rewrite decide_False by set_solver. rewrite Hpa.
    step. rewrite decide_False by (intros [= ->]; set_solver). eexists. split; [done|].
    apply became_intro; [eauto using same_trans|done|by apply list.Forall_forall| |outside|].
    + apply (chain_remove (nx h) _ (f :: l) a k (Some f)); [done|done| |done|done]. intros d Hd. rewrite Hn0, Hn, Ez.
      change (first (f :: l ++ k) None) with (Some f). fold b. rewrite Ec. addresses.
    + intros _. eapply (back_remove (pv h) _ _ _ (f :: l) a k); [done|done| |exact Hb]. intros d Hd. rewrite Hp0, Hp, Ez.
      assert (Epf : pv h f = final None ((f :: l) ++ a :: k)) by apply Hb.
      change (f :: l ++ k) with ((f :: l) ++ k). rewrite final_app in Epf |- *. rewrite Ez. unfold b in Ec.
      destruct k as [|e k]; cbn [first final] in *; [addresses|].
      assert (f <> e) by (intros ->; apply list.NoDup_cons in Hnd2 as [Hnd2 _]; set_solver). addresses.
Qed.

Lemma remove_node_ok kd fuel h head l a k :
  rep kd h head (l ++ a :: k) -> (length l <= S fuel)%nat ->
  exists h', remove kd fuel h head (Some a) = Ret (h', first (l ++ k) None) /\ became kd h h' (l ++ k).
Proof. destruct kd; [by apply LL_DELETE_ok|by intros; apply DL_DELETE_ok|by intros; apply CDL_DELETE_ok]. Qed.

(** *** Walks and searches *)

(** Elements that satisfy a test of the payload. *)
Definition holds h (found : A -> bool) a : Prop := match h !! a with Some n => found (payload n) = true | None => False end.
#[local] Instance holds_dec h found a : Decision (holds h found a).
Proof. unfold holds. destruct (h !! a); apply _. Defined.

Lemma LL_FOREACH_ok fuel : forall h l, Forall (fun a => is_Some (h !! a)) l -> chain (nx h) l None -> (length l <= fuel)%nat ->
  DL_FOREACH fuel h (first l None) = Ret l.
Proof.
  induction fuel as [|fuel IH]; intros h [|a l] Hl Hc Hf; try done; [cbn in Hf; lia|]. cbn [first DL_FOREACH].
  apply list.Forall_cons in Hl as [Ha Hl]. destruct Hc as [Hn Hc]. rewrite get_next_nx by done. cbn [mbind outcome_bind].
  rewrite Hn, IH; [done|done|done|cbn in Hf; lia].
Qed.

Lemma search_ok found fuel : forall h l, Forall (fun a => is_Some (h !! a)) l -> chain (nx h) l None -> (length l <= fuel)%nat ->
  search fuel h found (first l None) = Ret (first (filter (holds h found) l) None).
Proof.
  induction fuel as [|fuel IH]; intros h [|a l] Hl Hc Hf; try done; [cbn in Hf; lia|]. cbn [first search].
  apply list.Forall_cons in Hl as [[n Ea] Hl]. destruct Hc as [Hn Hc]. unfold nx in Hn. rewrite Ea in Hn. cbn in Hn.
  rewrite (get_ok h a n Ea). cbn [mbind outcome_bind]. destruct (found (payload n)) eqn:Ef.
  - by rewrite filter_cons_True by (unfold holds; by rewrite Ea).
  - rewrite filter_cons_False by (unfold holds; rewrite Ea; congruence). rewrite Hn. apply IH; [done|done|cbn in Hf; lia].
Qed.

(** In a circular list the successor is the head at the end only. *)
Lemma around_ok head l n : Some n = head -> n ∉ l -> around head (first l head) = first l None.
Proof. intros <- Hn. unfold around. destruct l as [|a l]; cbn [first]; addresses. Qed.

Lemma CDL_FOREACH_ok fuel : forall h f l, f ∉ drop 1 l -> Forall (fun a => is_Some (h !! a)) l -> chain (nx h) l (Some f) ->
  (length l <= fuel)%nat -> CDL_FOREACH fuel h (Some f) (first l None) = Ret l.
Proof.
  induction fuel as [|fuel IH]; intros h f [|a l] Hd Hl Hc Hf; try done; [cbn in Hf; lia|]. cbn [first CDL_FOREACH].
  apply list.Forall_cons in Hl as [Ha Hl]. destruct Hc as [Hn Hc]. rewrite get_next_nx by done. cbn [mbind outcome_bind].
  rewrite Hn, (around_ok _ l f) by done. rewrite IH; [done| |done|done|cbn in Hf; lia].
  intros Hx. apply Hd. cbn. destruct l; set_solver.
Qed.

Lemma search_around_ok found fuel : forall h f l, f ∉ drop 1 l -> Forall (fun a => is_Some (h !! a)) l -> chain (nx h) l (Some f) ->
  (length l <= fuel)%nat -> search_around fuel h found (Some f) (first l None) = Ret (first (filter (holds h found) l) None).
Proof.
  induction fuel as [|fuel IH]; intros h f [|a l] Hd Hl Hc Hf; try done; [cbn in Hf; lia|]. cbn [first search_around].
  apply list.Forall_cons in Hl as [[n Ea] Hl]. destruct Hc as [Hn Hc]. unfold nx in Hn. rewrite Ea in Hn. cbn in Hn.
  rewrite (get_ok h a n Ea). cbn [mbind outcome_bind]. destruct (found (payload n)) eqn:Ef.
  - by rewrite filter_cons_True by (unfold holds; by rewrite Ea).
  - rewrite filter_cons_False by (unfold holds; rewrite Ea; congruence). rewrite Hn, (around_ok _ l f) by done.
    apply IH; [|done|done|cbn in Hf; lia]. intros Hx. apply Hd. cbn. destruct l; set_solver.
Qed.

Lemma rep_rest k h f l : rep k h (Some f) (f :: l) -> f ∉ l.
Proof. intros [Hnd _ _ _ _]. by apply list.NoDup_cons in Hnd as [? _]. Qed.

Lemma foreach_ok k fuel h head l : rep k h head l -> (length l <= fuel)%nat -> foreach k fuel h head = Ret l.
Proof.
  intros Hr Hf. assert (Hr' := Hr). destruct Hr as [_ -> Hl Hc _]. destruct k; [by apply LL_FOREACH_ok..|].
  destruct l as [|f l]; [by destruct fuel|]. apply CDL_FOREACH_ok; try done. by eapply rep_rest.
Qed.

Lemma search_by_ok k fuel h head l (found : A -> bool) : rep k h head l -> (length l <= fuel)%nat ->
  match k with Circular => search_around fuel h found head head | _ => search fuel h found head end =
    Ret (first (filter (holds h found) l) None).
Proof.
  intros Hr Hf. assert (Hr' := Hr). destruct Hr as [_ -> Hl Hc _]. destruct k; [by apply search_ok..|].
  destruct l as [|f l]; [by destruct fuel|]. apply search_around_ok; try done. by eapply rep_rest.
Qed.

(** *** Deleting while walking *)

Lemma rep_free k h head l a : rep k h head l -> a ∉ l -> rep k (delete a h) head l.
Proof.
  intros [Hnd Hh Hl Hc Hb] Ha. assert (He : forall b, b ∈ l -> delete a h !! b = h !! b)
    by (intros b Hb'; apply lookup_delete_ne; set_solver). split; [done|done| | |].
  - rewrite list.Forall_forall in Hl |- *. intros b Hb'. rewrite He by done. by apply Hl.
  - apply (chain_same (nx h)); [|done]. intros b Hb'. unfold nx. by rewrite He.
  - intros Hk. apply (back_same (pv h)); [|by apply Hb]. intros b Hb'. unfold pv. by rewrite He.
Qed.

(** The body of a loop that empties a list: delete the element and free it. *)
Definition delete_and_free (k : kind) (fuel : nat) a h head : outcome (store * option positive) :=
  '(h, head) ← remove k fuel h head (Some a); Ret (delete a h, head).

Lemma delete_and_free_ok k fuel h head a l :
  rep k h head (a :: l) ->
  exists h', delete_and_free k fuel a h head = Ret (h', first l None) /\ rep k h' (first l None) l /\
    forall b, b ∉ l -> h' !! b = delete a h !! b.
Proof.
  intros Hr. destruct (remove_node_ok k fuel h head [] a l Hr) as (h1 & E & [Hr1 _ Ho]); [cbn; lia|].
  assert (Ha : a ∉ l) by (destruct Hr as [Hnd _ _ _ _]; by apply list.NoDup_cons in Hnd as [? _]).
  unfold delete_and_free. rewrite E. eexists. split; [done|]. split; [by apply rep_free|].
  intros b Hb. destruct (decide (b = a)) as [->|]; [by rewrite !lookup_delete_eq|]. rewrite !lookup_delete_ne by done. by apply Ho.
Qed.

(** The nodes of the list are freed, the others are as before. *)
Definition freed l h h' : Prop := forall b, h' !! b = if decide (b ∈ l) then None else h !! b.

Lemma freed_cons h h1 h2 a l : (forall b, b ∉ l -> h1 !! b = delete a h !! b) -> freed l h1 h2 -> freed (a :: l) h h2.
Proof.
  intros Ho Ho2 b. rewrite Ho2. destruct (decide (b ∈ l)); [by rewrite decide_True by set_solver|]. rewrite Ho by done.
  destruct (decide (b = a)) as [->|]; [rewrite lookup_delete_eq; by rewrite decide_True by set_solver|].
  rewrite lookup_delete_ne by done. by rewrite decide_False by set_solver.
Qed.

Lemma LL_FOREACH_SAFE_ok k fuel n : k <> Circular -> forall h head l, rep k h head l -> (length l <= n)%nat ->
  exists h', LL_FOREACH_SAFE n (delete_and_free k fuel) h head head = Ret (h', None) /\ freed l h h'.
Proof.
  intros Hk. induction n as [|n IH]; intros h head [|a l] Hr Hn; try (cbn in Hn; lia);
    rewrite (rep_head _ _ _ _ Hr); [by exists h|by exists h|]. cbn [first LL_FOREACH_SAFE].
  assert (Ha : is_Some (h !! a)) by (eapply rep_alive; [exact Hr|set_solver]). rewrite get_next_nx by done. cbn [mbind outcome_bind].
  destruct (delete_and_free_ok k fuel h head a l Hr) as (h1 & E & Hr1 & Ho). rewrite (rep_head _ _ _ _ Hr) in E. cbn [first] in E.
  rewrite E. cbn [mbind outcome_bind]. assert (Hnx : nx h a = first l None) by (destruct k; [apply Hr|apply Hr|done]).
  rewrite Hnx. destruct (IH h1 _ l Hr1 ltac:(cbn in Hn; lia)) as (h2 & E2 & Ho2). exists h2. split; [done|]. by eapply freed_cons.
Qed.

Lemma walk_until_ok fuel n : forall h head l z, rep Circular h head l -> (length l <= n)%nat -> (l <> [] -> final None l = Some z) ->
  exists h', walk_until n (delete_and_free Circular fuel) (Some z) h head head = Ret (h', None) /\ freed l h h'.
Proof.
  induction n as [|n IH]; intros h head [|a l] z Hr Hn Hz; try (cbn in Hn; lia);
    rewrite (rep_head _ _ _ _ Hr); [by exists h|by exists h|]. cbn [first walk_until].
  assert (Ha : is_Some (h !! a)) by (eapply rep_alive; [exact Hr|set_solver]). rewrite get_next_nx by done. cbn [mbind outcome_bind].
  destruct (delete_and_free_ok Circular fuel h head a l Hr) as (h1 & E & Hr1 & Ho).
  assert (Hnx : nx h a = first l head) by apply Hr. rewrite (rep_head _ _ _ _ Hr) in E. cbn [first] in E.
  rewrite E. cbn [mbind outcome_bind].
  replace (if decide (Some a = Some z) then None else nx h a) with (first l None).
  2: { destruct l as [|b l]; [specialize (Hz ltac:(done)); cbn in Hz; by rewrite decide_True|]. rewrite decide_False; [by rewrite Hnx|].
    intros [= ->]. specialize (Hz ltac:(done)). cbn in Hz. destruct (final_in (Some b) l) as [[E1 _]|(c & E1 & Hc)]; rewrite E1 in Hz;
      injection Hz as ->; apply (rep_nodup _ _ _ _), list.NoDup_cons in Hr as [Hr _]; set_solver. }
  destruct (IH h1 _ l z Hr1 ltac:(cbn in Hn; lia)) as (h2 & E2 & Ho2).
  { intros Hl. rewrite <- (Hz ltac:(done)). cbn. symmetry. by apply final_some. }
  exists h2. split; [done|]. by eapply freed_cons.
Qed.

Lemma foreach_safe_ok k fuel h head l : rep k h head l -> (length l <= fuel)%nat ->
  exists h', foreach_safe k fuel (delete_and_free k fuel) h head head = Ret (h', None) /\ freed l h h'.
Proof.
  intros Hr Hf. destruct k; [by apply LL_FOREACH_SAFE_ok..|]. cbn [foreach_safe]. unfold CDL_FOREACH_SAFE.
  destruct l as [|a l]; [rewrite (rep_head _ _ _ _ Hr); exists h; by destruct fuel|].
  assert (Ha : is_Some (h !! a)) by (eapply rep_alive; [exact Hr|set_solver]).
  assert (Hb := rep_prev _ _ _ _ Hr ltac:(done)). destruct Hb as [Hp _]. destruct (final_is (a :: l) ltac:(done)) as (z & Ez & _).
  assert (Eh := rep_head _ _ _ _ Hr). destruct head as [f|]; [injection Eh as ->|done]. rewrite get_prev_pv by done. cbn [mbind outcome_bind]. rewrite Hp, Ez.
  by apply walk_until_ok.
Qed.

(** *** Sequences of operations *)

Inductive list_op : Type := Prepend (a : positive) | Append (a : positive) | Delete (a : positive).

(** utlist.h has no CDL_APPEND. *)
Definition run_op (k : kind) (fuel : nat) (s : store * option positive) (op : list_op) : outcome (store * option positive) :=
  match op with
  | Prepend a => prepend k s.1 s.2 (Some a)
  | Append a =>
      match k with
      | Single => LL_APPEND fuel s.1 s.2 (Some a)
      | Double => DL_APPEND s.1 s.2 (Some a)
      | Circular => Ret s
      end
  | Delete a => remove k fuel s.1 s.2 (Some a)
  end.

Fixpoint run_ops (k : kind) (fuel : nat) (s : store * option positive) (ops : list list_op) : outcome (store * option positive) :=
  match ops with
  | [] => Ret s
  | op :: ops' => s ← run_op k fuel s op; run_ops k fuel s ops'
  end.

(** The same on lists. *)
Definition list_after l (op : list_op) : list positive :=
  match op with
  | Prepend a => a :: l
  | Append a => l ++ [a]
  | Delete a => filter (fun b => b <> a) l
  end.

Definition op_node (op : list_op) : positive := match op with Prepend a | Append a | Delete a => a end.

(** A new element is a node that is not in the list, a deleted one is in it. *)
Definition op_allowed (k : kind) h l (op : list_op) : Prop :=
  match op with
  | Prepend a => a ∉ l /\ is_Some (h !! a)
  | Append a => k <> Circular /\ a ∉ l /\ is_Some (h !! a)
  | Delete a => a ∈ l
  end.

Fixpoint ops_allowed (k : kind) h l (ops : list list_op) : Prop :=
  match ops with
  | [] => True
  | op :: ops' => op_allowed k h l op /\ ops_allowed k h (list_after l op) ops'
  end.

Lemma ops_allowed_same k h h' ops : forall l, same_payloads h h' -> ops_allowed k h l ops -> ops_allowed k h' l ops.
Proof.
  induction ops as [|op ops IH]; intros l Hs; [done|]. intros [H1 H2]. split; [|by apply IH].
  destruct op; cbn in *; [| |done]; naive_solver eauto using alive_same.
Qed.

Lemma run_op_ok k fuel h head l op :
  rep k h head l -> op_allowed k h l op -> (length l <= S fuel)%nat ->
  exists h', run_op k fuel (h, head) op = Ret (h', first (list_after l op) None) /\ became k h h' (list_after l op).
Proof.
  intros Hr Ho Hf. destruct op as [a|a|a]; cbn [run_op list_after fst snd] in *.
  - destruct Ho as [H1 H2]. by apply (prepend_ok k h head l a).
  - destruct Ho as (Hk & H1 & H2). destruct k; [by apply LL_APPEND_ok|by apply DL_APPEND_ok|done].
  - destruct (list_elem_of_split l a Ho) as (l1 & l2 & ->). rewrite list_without by apply Hr.
    apply remove_node_ok; [done|]. rewrite length_app in Hf. lia.
Qed.

Lemma length_after l op : (length (list_after l op) <= S (length l))%nat.
Proof. destruct op; cbn; [lia|rewrite length_app; cbn; lia|]. assert (H := length_filter (fun b => b <> a) l). lia. Qed.

Lemma length_fold_after ops : forall l, (length (fold_left list_after ops l) <= length l + length ops)%nat.
Proof.
  induction ops as [|op ops IH]; intros l; cbn; [lia|]. assert (H1 := IH (list_after l op)). assert (H2 := length_after l op). lia.
Qed.

Lemma elem_after l op b : b ∈ list_after l op -> b ∈ l \/ b = op_node op.
Proof. destruct op; cbn; rewrite ?list_elem_of_filter; set_solver. Qed.

Lemma run_ops_ok k fuel ops : forall h head l, rep k h head l -> ops_allowed k h l ops -> (length l + length ops <= S fuel)%nat ->
  exists h' head', run_ops k fuel (h, head) ops = Ret (h', head') /\ rep k h' head' (fold_left list_after ops l) /\
    same_payloads h h' /\ forall b, b ∉ l -> b ∉ map op_node ops -> h' !! b = h !! b.
Proof.
  induction ops as [|op ops IH]; intros h head l Hr Ho Hf; [by exists h, head|]. cbn [ops_allowed length fold_left run_ops] in *.
  destruct Ho as [Ho1 Ho2]. destruct (run_op_ok k fuel h head l op Hr Ho1 ltac:(lia)) as (h1 & E & [Hr1 Hs1 Hout]). rewrite E.
  assert (Hlen := length_after l op). destruct (IH h1 _ (list_after l op) Hr1) as (h2 & head2 & E2 & Hr2 & Hs2 & Hout2);
    [by eapply ops_allowed_same|lia|].
  exists h2, head2. split_and!; [done|done|by eapply same_trans|]. intros b Hb Hbo. cbn in Hbo.
  assert (Hba : b ∉ list_after l op) by (intros [?| ->]%elem_after; set_solver). rewrite Hout2 by set_solver. by apply Hout.
Qed.

End Operations.

(** ** The sorts *)

Section Sorting.
Import Dl Lists.
Context {A : Type} `{Inhabited A}.
#[local] Abbreviation store := (gmap positive (node A)).
Implicit Types (h : store) (head : option positive) (l : list positive) (a b : positive).

(** A comparison function of the caller, on the elements. *)
Variable c : A -> A -> Z.
Definition key h a : A := match h !! a with Some n => payload n | None => inhabitant end.
Definition by_key h a b : Z := c (key h a) (key h b).

(** It is negative or 0 for elements in order, and so orders all payloads. *)
Definition compares : Prop :=
  (forall x y, c x y <= 0 \/ c y x <= 0) /\ forall x y z, c x y <= 0 -> c y z <= 0 -> c x z <= 0.

Lemma compares_ordered h : compares -> ordered (by_key h).
Proof. intros [Ht Htr]. split; unfold le, by_key; eauto. Qed.

Lemma key_same h h' a : same_payloads h h' -> key h' a = key h a.
Proof.
  intros E. assert (E' : (payload <$> h') !! a = (payload <$> h) !! a) by (by rewrite E). rewrite !lookup_fmap in E'.
  unfold key. destruct (h' !! a), (h !! a); naive_solver.
Qed.

(** The operations of the sorts, on the nodes of one list. *)
Lemma list_laws circular double ring h0 l0 :
  Forall (fun a => is_Some (h0 !! a)) l0 ->
  laws (list_ops c circular double ring) (fun h => same_payloads h0 h /\ same_outside l0 h0 h) (fun a => a ∈ l0) nx pv
    (by_key h0) (2 ^ 31 - 1).
Proof.
  intros Hl. rewrite list.Forall_forall in Hl.
  assert (Hal : forall h a, same_payloads h0 h -> a ∈ l0 -> is_Some (h !! a)) by (intros h a Hs Ha; eapply alive_same; [exact Hs|by apply Hl]).
  split; cbn [Sort.o_int Sort.o_next Sort.o_set_next Sort.o_set_prev Sort.o_cmp list_ops].
  - intros x Hx. apply c_int_ok. lia.
  - intros h a [Hs _] Ha. by rewrite get_next_nx by auto.
  - intros h a v [Hs Ho] Ha. destruct (set_next_spec h a v (Hal h a Hs Ha)) as (h' & E & Hs' & Hn & Hp). rewrite E.
    exists h'. split_and!; [done|by eapply same_trans| |done|done]. intros b Hb. rewrite <- Ho by done.
    apply node_same; [done| |done]. rewrite Hn. addresses.
  - intros h a v [Hs Ho] Ha. destruct (set_prev_spec h a v (Hal h a Hs Ha)) as (h' & E & Hs' & Hp & Hn). rewrite E.
    exists h'. split_and!; [done|by eapply same_trans| |done|done]. intros b Hb. rewrite <- Ho by done.
    apply node_same; [done|done|]. rewrite Hp. addresses.
  - intros h a b [Hs _] Ha Hb. destruct (Hal h a Hs Ha) as [x Ex], (Hal h b Hs Hb) as [y Ey].
    rewrite (get_ok h a x Ex), (get_ok h b y Ey). cbn. unfold by_key. rewrite <- !(key_same h0 h) by done. unfold key. by rewrite Ex, Ey.
Qed.

Lemma sort_list_ok k fuel h head l :
  rep k h head l -> compares -> (length l <= fuel)%nat -> 2 * Z.of_nat (length l) < 2 ^ 31 ->
  exists h' l', Lists.sort k c fuel h head = Ret (h', first l' None) /\ became k h h' l' /\ sorted_from (by_key h) l l'.
Proof.
  intros [Hnd -> Hl Hc Hb] Hcmp Hf Hbd.
  set (o := list_ops c (bool_decide (k = Circular)) (bool_decide (k <> Single)) (bool_decide (k <> Single))).
  assert (Es : forall f h p, Lists.sort k c f h p = sorted_head o f h p) by (by destruct k).
  rewrite Es. unfold sorted_head.
  destruct (sort_ok o _ _ _ _ _ _ (list_laws (bool_decide (k = Circular)) (bool_decide (k <> Single)) (bool_decide (k <> Single)) h l Hl)
    (compares_ordered h Hcmp) fuel h l) as (h' & l' & E & Hs & [[Hp Ho] Hlv Hnd' Hn Hpv]); [|done|lia|].
  { split; [done|by apply list.Forall_forall|done|by destruct k|]. intros Hd. destruct k; [done|by apply Hb..]. }
  rewrite E. exists h', l'. split; [done|]. split; [|done].
  assert (Hl' : Forall (fun a => is_Some (h !! a)) l') by (by rewrite (sf_perm _ _ _ Hs)).
  assert (Hout : same_outside l' h h') by (intros b Hb'; apply Ho; by rewrite <- (sf_perm _ _ _ Hs)).
  apply became_intro; [done|done|done|by destruct k| |intros Hk; destruct k; [done|by apply Hpv..]].
  intros b Hb'. unfold nx, pv. by rewrite (Hout b Hb').
Qed.

End Sorting.

(** ** The replacements for VS2008 *)

Section Replacements.
Import Dl Lists.
Context {A : Type}.
#[local] Abbreviation store := (gmap positive (node A)).
Implicit Types (h : store) (head : option positive) (l : list positive) (a b : positive).

Lemma store_same h h' : same_payloads h h' -> (forall b, nx h' b = nx h b) -> (forall b, pv h' b = pv h b) -> h' = h.
Proof. intros Hs Hn Hp. apply map_eq. intros b. by apply node_same. Qed.

(** The loop of LL_APPEND_VS2008 leaves the last element in add->next. *)
Lemma advance_next_ok fuel : forall h l a, l <> [] -> a ∉ l -> is_Some (h !! a) -> Forall (fun b => is_Some (h !! b)) l ->
  chain (nx h) l None -> nx h a = first l None -> (length l <= S fuel)%nat ->
  exists h', advance_next fuel h (Some a) = Ret h' /\ next_set h a (final None l) h'.
Proof.
  induction fuel as [|fuel IH]; intros h [|f l] a Hne Ha Hla Hl Hc Hn Hf; try done; apply list.Forall_cons in Hl as [Hfl Hl];
    destruct Hc as [Hnf Hc]; cbn [advance_next]; step; rewrite Hn; cbn [first]; step; rewrite Hnf.
  all: destruct l as [|g l]; cbn [first]; [exists h; split; [done|]; split_and!; [done| |done]; intros b; cbn; by destruct (decide (b = a)) as [->|]|].
  - cbn in Hf. lia.
  - step. destruct (IH h0 (g :: l) a) as (h' & E & Hs' & Hn' & Hp'); [done|set_solver|alive| | | |cbn in *; lia|].
    + eapply list.Forall_impl; [exact Hl|]. intros b. by apply alive_same.
    + apply (chain_same (nx h)); [|done]. intros b Hb. rewrite Hn0. rewrite decide_False; [done|]. intros ->. set_solver.
    + rewrite Hn0. by rewrite decide_True.
    + exists h'. split; [done|]. split_and!; [by eapply same_trans| |].
      * intros b. rewrite Hn', Hn0. by destruct (decide (b = a)).
      * intros b. by rewrite Hp'.
Qed.

Lemma LL_APPEND_VS2008_same fuel h head l a :
  rep Single h head l -> a ∉ l -> is_Some (h !! a) -> (length l <= S fuel)%nat ->
  LL_APPEND_VS2008 fuel h head (Some a) = LL_APPEND fuel h head (Some a).
Proof.
  intros Hr Ha Hla Hf. destruct l as [|f l]; [rewrite (rep_head _ _ _ _ Hr); by unfold LL_APPEND, LL_APPEND_VS2008|].
  assert (HS : exists h', LL_APPEND_VS2008 fuel h head (Some a) = Ret (h', head) /\ same_payloads h h' /\
    (forall b, nx h' b = if decide (b = a) then None else if decide (Some b = final None (f :: l)) then Some a else nx h b) /\
    forall b, pv h' b = pv h b).
  { assert (Hr' := Hr). destruct Hr as [Hnd -> Hl Hc _]. unfold LL_APPEND_VS2008. cbn [first]. step.
    destruct (advance_next_ok fuel h0 (f :: l) a) as (h1 & E & Hs1 & Hn1 & Hp1); try done; [alive| | | |].
    { eapply list.Forall_impl; [exact Hl|]. intros b. by apply alive_same. }
    { apply (chain_same (nx h)); [|done]. intros b Hb. rewrite Hn. rewrite decide_False; [done|]. by intros ->. }
    { rewrite Hn. by rewrite decide_True. }
    rewrite E. destruct (final_is (f :: l) ltac:(done)) as (z & Ez & Hz). assert (is_Some (h !! z)) by (by eapply rep_alive).
    rewrite Ez in *. step. rewrite Hn1, decide_True by done. repeat step. eexists. split; [done|]. split_and!.
    - eauto using same_trans.
    - intros b. rewrite Hn2, Hn0, Hn1, Hn. repeat case_decide; congruence.
    - intros b. by rewrite Hp2, Hp0, Hp1, Hp. }
  destruct HS as (h' & -> & Hs & Hn & Hp). assert (Hr' := Hr). destruct Hr as [Hnd -> Hl Hc _].
  assert (HS : exists h2, LL_APPEND fuel h (first (f :: l) None) (Some a) = Ret (h2, first (f :: l) None) /\ same_payloads h h2 /\
    (forall b, nx h2 b = if decide (b = a) then None else if decide (Some b = final None (f :: l)) then Some a else nx h b) /\
    forall b, pv h2 b = pv h b).
  { unfold LL_APPEND. step. cbn [first]. change (Some f) with (first (f :: l) None). rewrite find_last_ok; [|done| | |done].
    2: { eapply list.Forall_impl; [exact Hl|]. intros b. by apply alive_same. }
    2: { apply (chain_same (nx h)); [|done]. intros b Hb. rewrite Hn0. rewrite decide_False; [done|]. intros ->. set_solver. }
    destruct (final_is (f :: l) ltac:(done)) as (z & Ez & Hz). assert (is_Some (h !! z)) by (by eapply rep_alive). rewrite Ez.
    step. eexists. split; [done|]. split_and!; [eauto using same_trans| |intros b; by rewrite Hp1, Hp0].
    intros b. rewrite Hn1, Hn0. assert (z <> a) by (intros ->; done). repeat case_decide; congruence. }
  destruct HS as (h2 & -> & Hs2 & Hn2 & Hp2). f_equal. f_equal. apply store_same; [unfold same_payloads in *; congruence| |].
  - intros b. by rewrite Hn, Hn2.
  - intros b. by rewrite Hp, Hp2.
Qed.

Lemma LL_DELETE_VS2008_same fuel h head del : LL_DELETE_VS2008 fuel h head del = LL_DELETE fuel h head del.
Proof.
  unfold LL_DELETE_VS2008, LL_DELETE. destruct (decide _) as [|_]; [done|]. destruct (find_before fuel h del head) as [t|]; [|done]. cbn.
  destruct (get_next h t) as [[n|]|]; [|done..]. cbn. destruct (get_next h del) as [m|]; [|done]. cbn. by destruct (set_next h t m).
Qed.

End Replacements.

(** ** The macros of the three kinds of lists *)

Section ListProperties.
Import Dl Lists.
#[local] Existing Instance holds_dec.

(** A store of five nodes. *)
Definition five : gmap positive (node Z) :=
  {[ 1%positive := mkNode None None 40; 2%positive := mkNode None None 10; 3%positive := mkNode None None 30;
     4%positive := mkNode None None 10; 5%positive := mkNode None None 20 ]}.

(** C22 The macros implement lists: whatever sequence of LL_PREPEND, LL_APPEND and
    LL_DELETE (or DL_, or CDL_PREPEND and CDL_DELETE) adds nodes that are not in the
    list and deletes nodes that are, the operations return, the store represents the
    list that the same operations on lists give, a walk with the FOREACH macro visits
    exactly its elements in order and stops, the SEARCH macros find the first element
    that matches or NULL, no payload changes, and a node that is neither in the list
    nor named by an operation is untouched.  A walk with the _SAFE macro whose body
    deletes and frees the element it is at empties the list, frees exactly its nodes and
    never reads a freed one. *)
Theorem list_macros_refine {A} (k : kind) (h : gmap positive (node A)) (head : option positive) (l : list positive)
  (ops : list list_op) (fuel : nat)
  (Hr : rep k h head l) (Ho : ops_allowed k h l ops) (Hf : (length l + length ops <= fuel)%nat) :
  let l' := fold_left list_after ops l in
  exists h' head',
    run_ops k fuel (h, head) ops = Ret (h', head') /\ rep k h' head' l' /\
    foreach k fuel h' head' = Ret l' /\
    (forall field val, search_scalar k fuel h' head' field val =
       Ret (first (filter (holds h' (fun x => field x =? val)) l') None)) /\
    (forall elt cmp, search_elt k fuel h' head' elt cmp =
       Ret (first (filter (holds h' (fun x => cmp x elt =? 0)) l') None)) /\
    payload <$> h' = payload <$> h /\
    (forall b, b ∉ l -> b ∉ map op_node ops -> h' !! b = h !! b) /\
    exists h2, foreach_safe k fuel (delete_and_free k fuel) h' head' head' = Ret (h2, None) /\
      forall b, h2 !! b = if decide (b ∈ l') then None else h' !! b.
Proof.
  intros l'. destruct (run_ops_ok k fuel ops h head l Hr Ho ltac:(lia)) as (h' & head' & E & Hr' & Hs & Hout).
  assert (Hlen : (length l' <= fuel)%nat) by (assert (H := length_fold_after ops l); unfold l'; lia).
  exists h', head'. split_and!; try done.
  - by apply foreach_ok.
  - intros field val. rewrite <- (search_by_ok k fuel h' head' l' _ Hr' Hlen). by destruct k.
  - intros elt cmp. rewrite <- (search_by_ok k fuel h' head' l' _ Hr' Hlen). by destruct k.
  - by apply foreach_safe_ok.
Qed.

Lemma list_macros_refine_witness :
  exists h' head', run_ops Circular 9 (five, None) [Prepend 3; Prepend 5; Delete 3; Prepend 1]%positive = Ret (h', head') /\
    foreach Circular 9 h' head' = Ret [1; 5]%positive.
Proof.
  destruct (list_macros_refine Circular five None [] [Prepend 3; Prepend 5; Delete 3; Prepend 1]%positive 9)
    as (h' & head' & E & _ & Ef & _); [apply rep_nil| |cbn; lia|].
  { cbn. split_and!; try done; try set_solver; by eexists. }
  exists h', head'. exact (conj E Ef).
Defined.

(** C23 LL_SORT, DL_SORT and CDL_SORT return for every list of fewer than 2^30 elements and
    every comparison function that orders the elements; the list they leave is of the
    same kind and in order, holds exactly the same nodes, and nodes that compare as equal
    keep their order.  No payload and no other node changes. *)
Theorem list_sorts_stable {A} `{Inhabited A} (k : kind) (cmp : A -> A -> Z) (h : gmap positive (node A))
  (head : option positive) (l : list positive) (fuel : nat)
  (Hr : rep k h head l) (Hc : compares cmp) (Hf : (length l <= fuel)%nat) (Hl : Z.of_nat (length l) < 2 ^ 30) :
  exists h' head' l',
    Lists.sort k cmp fuel h head = Ret (h', head') /\ rep k h' head' l' /\ sorted_from (by_key cmp h) l l' /\
    foreach k fuel h' head' = Ret l' /\ payload <$> h' = payload <$> h /\
    forall b, b ∉ l -> h' !! b = h !! b.
Proof.
  destruct (sort_list_ok cmp k fuel h head l Hr Hc Hf ltac:(lia)) as (h' & l' & E & [Hr' Hp Ho] & Hs).
  exists h', (first l' None), l'. assert (Hpm := sf_perm _ _ _ Hs). split_and!; try done.
  - apply foreach_ok; [done|]. by rewrite (Permutation_length Hpm).
  - intros b Hb. apply Ho. by rewrite Hpm.
Qed.

(** The nodes of [five], linked by the macros. *)
Definition five_list (k : kind) : gmap positive (node Z) * option positive :=
  match run_ops k 5 (five, None) [Prepend 5; Prepend 4; Prepend 3; Prepend 2; Prepend 1]%positive with
  | Ret s => s
  | Crash _ => (∅, None)
  end.

Lemma five_rep k : rep k (five_list k).1 (five_list k).2 [1; 2; 3; 4; 5]%positive.
Proof.
  destruct (run_ops_ok k 5 [Prepend 5; Prepend 4; Prepend 3; Prepend 2; Prepend 1]%positive five None [])
    as (h' & head' & E & Hr & _); [apply rep_nil| |cbn; lia|].
  { cbn. split_and!; try done; try set_solver; by eexists. }
  unfold five_list. by rewrite E.
Qed.

Lemma list_sorts_stable_witness :
  exists h' head' l', Lists.sort Circular (fun x y => x - y) 5 (five_list Circular).1 (five_list Circular).2 = Ret (h', head') /\
    foreach Circular 5 h' head' = Ret l' /\ l' = [2; 4; 5; 3; 1]%positive.
Proof.
  destruct (list_sorts_stable Circular (fun x y => x - y) (five_list Circular).1 (five_list Circular).2 [1; 2; 3; 4; 5]%positive 5)
    as (h' & head' & l' & E & _ & _ & Ef & _); [apply five_rep|split; lia|cbn; lia|cbn; lia|].
  exists h', head', l'. split; [exact E|]. split; [exact Ef|]. vm_compute in E. injection E as <- <-. vm_compute in Ef. by injection Ef as <-.
Defined.

End ListProperties.
