(* ===== verification/Uthash.v ===== *)
(** * Hash tables: common/uthash.h

    The macros that keep the directory caches: HASH_FIND, HASH_ADD and HASH_DEL with
    the hash function HASH_JEN, the chains of the buckets, the list in the order of
    insertion and the doubling of the bucket array; and the checker HASH_FSCK.
    [Uthash] translates them on a store of elements and tables.  [Hash] shows that the hash function returns,
    [Store] says what a well-formed table is, and [Find] that HASH_FIND finds the
    element of a key on one.  HashTable.v has the operations that change a table. *)

From S2P Require Import Prelude Links.

#[local] Open Scope Z_scope.

Module Uthash.

Definition HASH_INITIAL_NUM_BUCKETS : Z := 32.
Definition HASH_INITIAL_NUM_BUCKETS_LOG2 : Z := 5.
Definition HASH_BKT_CAPACITY_THRESH : Z := 10.
Definition HASH_SIGNATURE : Z := 0xa0111fe1.

(** The handle that is a member of every element.  An element and its handle are at a
    fixed distance (hho), so one address stands for both; [key] is what the key
    pointer points to. *)
Record UT_hash_handle : Type := mkHandle {
  tbl : option positive;
  prev : option positive;
  next : option positive;
  hh_prev : option positive;
  hh_next : option positive;
  key : list Z;
  keylen : Z;
  hashv : Z
}.

Record UT_hash_bucket : Type := mkBucket {
  hh_head : option positive;
  count : Z;
  expand_mult : Z
}.

Record UT_hash_table : Type := mkTable {
  buckets : list UT_hash_bucket;
  num_buckets : Z;
  log2_num_buckets : Z;
  num_items : Z;
  tail : option positive;
  ideal_chain_maxlen : Z;
  nonideal_items : Z;
  ineff_expands : Z;
  noexpand : Z;
  signature : Z
}.

(** The memory: the elements and the tables that exist. *)
Record mem : Type := mkMem {
  elems : gmap positive UT_hash_handle;
  tables : gmap positive UT_hash_table
}.

(** ** Assignments to members *)

Definition set_app (p n : option positive) (h : UT_hash_handle) : UT_hash_handle :=
  mkHandle (tbl h) p n (hh_prev h) (hh_next h) (key h) (keylen h) (hashv h).
Definition set_prev (p : option positive) (h : UT_hash_handle) : UT_hash_handle := set_app p (next h) h.
Definition set_next (n : option positive) (h : UT_hash_handle) : UT_hash_handle := set_app (prev h) n h.
Definition set_hh (p n : option positive) (h : UT_hash_handle) : UT_hash_handle :=
  mkHandle (tbl h) (prev h) (next h) p n (key h) (keylen h) (hashv h).
Definition set_hh_prev (p : option positive) (h : UT_hash_handle) : UT_hash_handle := set_hh p (hh_next h) h.
Definition set_hh_next (n : option positive) (h : UT_hash_handle) : UT_hash_handle := set_hh (hh_prev h) n h.
Definition set_key (k : list Z) (len : Z) (h : UT_hash_handle) : UT_hash_handle :=
  mkHandle (tbl h) (prev h) (next h) (hh_prev h) (hh_next h) k len (hashv h).
Definition set_tbl (t : option positive) (h : UT_hash_handle) : UT_hash_handle :=
  mkHandle t (prev h) (next h) (hh_prev h) (hh_next h) (key h) (keylen h) (hashv h).
Definition set_hashv (v : Z) (h : UT_hash_handle) : UT_hash_handle :=
  mkHandle (tbl h) (prev h) (next h) (hh_prev h) (hh_next h) (key h) (keylen h) v.

Definition set_tail (a : option positive) (T : UT_hash_table) : UT_hash_table :=
  mkTable (buckets T) (num_buckets T) (log2_num_buckets T) (num_items T) a (ideal_chain_maxlen T)
    (nonideal_items T) (ineff_expands T) (noexpand T) (signature T).
Definition set_num_items (n : Z) (T : UT_hash_table) : UT_hash_table :=
  mkTable (buckets T) (num_buckets T) (log2_num_buckets T) n (tail T) (ideal_chain_maxlen T)
    (nonideal_items T) (ineff_expands T) (noexpand T) (signature T).
Definition set_buckets (bs : list UT_hash_bucket) (T : UT_hash_table) : UT_hash_table :=
  mkTable bs (num_buckets T) (log2_num_buckets T) (num_items T) (tail T) (ideal_chain_maxlen T)
    (nonideal_items T) (ineff_expands T) (noexpand T) (signature T).
Definition set_ideal (i n : Z) (T : UT_hash_table) : UT_hash_table :=
  mkTable (buckets T) (num_buckets T) (log2_num_buckets T) (num_items T) (tail T) i
    n (ineff_expands T) (noexpand T) (signature T).
Definition set_size (bs : list UT_hash_bucket) (n lg : Z) (T : UT_hash_table) : UT_hash_table :=
  mkTable bs n lg (num_items T) (tail T) (ideal_chain_maxlen T)
    (nonideal_items T) (ineff_expands T) (noexpand T) (signature T).
Definition set_ineff (e n : Z) (T : UT_hash_table) : UT_hash_table :=
  mkTable (buckets T) (num_buckets T) (log2_num_buckets T) (num_items T) (tail T) (ideal_chain_maxlen T)
    (nonideal_items T) e n (signature T).

Definition hh (p : option positive) : prog mem UT_hash_handle := fun m =>
  match p with
  | None => Crash NullDeref
  | Some a => match elems m !! a with Some h => Ret (h, m) | None => Crash UseAfterFree end
  end.

Definition upd_hh (p : option positive) (f : UT_hash_handle -> UT_hash_handle) : prog mem unit := fun m =>
  match p with
  | None => Crash NullDeref
  | Some a => match elems m !! a with
              | Some h => Ret (tt, mkMem (<[a := f h]> (elems m)) (tables m))
              | None => Crash UseAfterFree
              end
  end.

Definition table (p : option positive) : prog mem UT_hash_table := fun m =>
  match p with
  | None => Crash NullDeref
  | Some t => match tables m !! t with Some T => Ret (T, m) | None => Crash UseAfterFree end
  end.

Definition upd_table (p : option positive) (f : UT_hash_table -> UT_hash_table) : prog mem unit := fun m =>
  match p with
  | None => Crash NullDeref
  | Some t => match tables m !! t with
              | Some T => Ret (tt, mkMem (elems m) (<[t := f T]> (tables m)))
              | None => Crash UseAfterFree
              end
  end.

(** head->hh.tbl and what it points to. *)
Definition tbl_of (head : option positive) : prog mem (option positive) := h ← hh head; mret (tbl h).
Definition table_of (head : option positive) : prog mem UT_hash_table := t ← tbl_of head; table t.

(** tbl->buckets[i] *)
Definition bucket (t : option positive) (i : Z) : prog mem UT_hash_bucket :=
  T ← table t; lift (c_read (buckets T) i).
Definition upd_bucket (t : option positive) (i : Z) (f : UT_hash_bucket -> UT_hash_bucket) : prog mem unit :=
  T ← table t; b ← lift (c_read (buckets T) i); bs ← lift (c_write (buckets T) i (f b)); upd_table t (set_buckets bs).

(** ** The hash function *)

(** A byte read through a (signed) char pointer, and its conversion shifted left. *)
Definition schar (b : Z) : Z := if b <? 128 then b else b - 256.
Definition uchar_shl (b n : Z) : Z := u32 (Z.shiftl (u32 (schar b)) n).

Definition HASH_JEN_MIX (a b c : Z) : Z * Z * Z :=
  let a := u32 (a - b) in let a := u32 (a - c) in let a := Z.lxor a (Z.shiftr c 13) in
  let b := u32 (b - c) in let b := u32 (b - a) in let b := Z.lxor b (u32 (Z.shiftl a 8)) in
  let c := u32 (c - a) in let c := u32 (c - b) in let c := Z.lxor c (Z.shiftr b 13) in
  let a := u32 (a - b) in let a := u32 (a - c) in let a := Z.lxor a (Z.shiftr c 12) in
  let b := u32 (b - c) in let b := u32 (b - a) in let b := Z.lxor b (u32 (Z.shiftl a 16)) in
  let c := u32 (c - a) in let c := u32 (c - b) in let c := Z.lxor c (Z.shiftr b 5) in
  let a := u32 (a - b) in let a := u32 (a - c) in let a := Z.lxor a (Z.shiftr c 3) in
  let b := u32 (b - c) in let b := u32 (b - a) in let b := Z.lxor b (u32 (Z.shiftl a 10)) in
  let c := u32 (c - a) in let c := u32 (c - b) in let c := Z.lxor c (Z.shiftr b 15) in
  (a, b, c).

(** key[o] + (key[o+1] << 8) + (key[o+2] << 16) + (key[o+3] << 24) *)
Definition jen_word (k : list Z) (o : Z) : outcome Z :=
  b0 ← c_read k o; b1 ← c_read k (o + 1); b2 ← c_read k (o + 2); b3 ← c_read k (o + 3);
  Ret (u32 (schar b0 + uchar_shl b1 8 + uchar_shl b2 16 + uchar_shl b3 24)).

(** The loop over blocks of twelve bytes: what is left of the key, its length and the
    three words. *)
Fixpoint jen_blocks (fuel : nat) (k : list Z) (n i j h : Z) : outcome (list Z * Z * (Z * Z * Z)) :=
  if n <? 12 then Ret (k, n, (i, j, h)) else
  match fuel with
  | O => Crash NoFuel
  | S fuel' =>
      wi ← jen_word k 0; wj ← jen_word k 4; wh ← jen_word k 8;
      let '(i, j, h) := HASH_JEN_MIX (u32 (i + wi)) (u32 (j + wj)) (u32 (h + wh)) in
      jen_blocks fuel' (drop 12 k) (u32 (n - 12)) i j h
  end.

(** One case of the switch, which falls through to the next: byte [o] is added when the
    switch jumped to its case or before. *)
Definition jen_case (k : list Z) (n o sh x : Z) : outcome Z :=
  if o <? n then b ← c_read k o; Ret (u32 (x + uchar_shl b sh)) else Ret x.

Definition HASH_JEN (fuel : nat) (k : list Z) (len nbkts : Z) : outcome (Z * Z) :=
  '(k', n, (i, j, h)) ← jen_blocks fuel k len 0x9e3779b9 0x9e3779b9 0xfeedbeef;
  let h := u32 (h + len) in
  h ← jen_case k' n 10 24 h;
  h ← jen_case k' n 9 16 h;
  h ← jen_case k' n 8 8 h;
  j ← jen_case k' n 7 24 j;
  j ← jen_case k' n 6 16 j;
  j ← jen_case k' n 5 8 j;
  j ← jen_case k' n 4 0 j;
  i ← jen_case k' n 3 24 i;
  i ← jen_case k' n 2 16 i;
  i ← jen_case k' n 1 8 i;
  i ← jen_case k' n 0 0 i;
  let '(_, _, h) := HASH_JEN_MIX i j h in
  Ret (h, Z.land h (u32 (nbkts - 1))).

Definition HASH_TO_BKT (hashv nbkts : Z) : Z := Z.land hashv (u32 (nbkts - 1)).

(** memcmp(a, b, len) = 0, reading [len] bytes of each. *)
Definition HASH_KEYCMP (a b : list Z) (len : Z) : bool :=
  bool_decide (take (Z.to_nat len) a = take (Z.to_nat len) b).

Section Ops.

(** Whether an allocation of this many bytes fails, and the steps that a loop may
    take. *)
Variables (oom : mem -> Z -> bool) (fuel : nat).

(** uthash_malloc with uthash_fatal, which is exit(-1). *)
Definition uthash_malloc (sz : Z) : prog mem unit := fun m =>
  if oom m sz then Crash ProcessExit else Ret (tt, m).

Definition sizeof_table : Z := 64.
Definition sizeof_bucket : Z := 16.
Definition empty_bucket : UT_hash_bucket := mkBucket None 0 0.

(** ** Finding *)

Fixpoint find_loop (fuel : nat) (k : list Z) (len : Z) (out : option positive) : prog mem (option positive) :=
  match out with
  | None => mret None
  | Some _ =>
      match fuel with
      | O => crash_with NoFuel
      | S fuel' =>
          h ← hh out;
          if (keylen h =? len) && HASH_KEYCMP (key h) k len then mret out
          else find_loop fuel' k len (hh_next h)
      end
  end.

Definition HASH_FIND_IN_BKT (b : UT_hash_bucket) (k : list Z) (len : Z) : prog mem (option positive) :=
  find_loop fuel k len (hh_head b).

Definition HASH_FIND (head : option positive) (k : list Z) (len : Z) : prog mem (option positive) :=
  match head with
  | None => mret None
  | Some _ =>
      T ← table_of head;
      '(_, bkt) ← lift (HASH_JEN fuel k len (num_buckets T));
      t ← tbl_of head;
      b ← bucket t bkt;
      HASH_FIND_IN_BKT b k len
  end.

(** ** Doubling the buckets *)

(** The inner loop: the chain from [thh] is moved to the new buckets [nb]. *)
Fixpoint expand_chain (fuel : nat) (t : option positive) (thh : option positive) (nb : list UT_hash_bucket) :
    prog mem (list UT_hash_bucket) :=
  match thh with
  | None => mret nb
  | Some _ =>
      match fuel with
      | O => crash_with NoFuel
      | S fuel' =>
          h ← hh thh;
          let nxt := hh_next h in
          T ← table t;
          let bkt := HASH_TO_BKT (hashv h) (u32 (num_buckets T * 2)) in
          b ← lift (c_read nb bkt);
          let cnt := u32 (count b + 1) in
          mult ← (if ideal_chain_maxlen T <? cnt then
                    _ ← upd_table t (set_ideal (ideal_chain_maxlen T) (u32 (nonideal_items T + 1)));
                    if ideal_chain_maxlen T =? 0 then crash_with ArithUB
                    else mret (cnt / ideal_chain_maxlen T)
                  else mret (expand_mult b));
          _ ← upd_hh thh (set_hh_prev None);
          _ ← upd_hh thh (set_hh_next (hh_head b));
          _ ← (match hh_head b with Some _ => upd_hh (hh_head b) (set_hh_prev thh) | None => mret tt end);
          nb ← lift (c_write nb bkt (mkBucket thh cnt mult));
          expand_chain fuel' t nxt nb
      end
  end.

(** The outer loop over the old buckets from number [i]; [n] of them are left. *)
Fixpoint expand_buckets (n : nat) (t : option positive) (i : Z) (nb : list UT_hash_bucket) :
    prog mem (list UT_hash_bucket) :=
  match n with
  | O => mret nb
  | S n' => b ← bucket t i; nb ← expand_chain fuel t (hh_head b) nb; expand_buckets n' t (i + 1) nb
  end.

Definition HASH_EXPAND_BUCKETS (t : option positive) : prog mem unit :=
  T ← table t;
  let n2 := u32 (2 * num_buckets T) in
  _ ← uthash_malloc (n2 * sizeof_bucket);
  let new := replicate (Z.to_nat n2) empty_bucket in
  let ideal := u32 (Z.shiftr (num_items T) (log2_num_buckets T + 1) +
    (if Z.land (num_items T) (u32 (num_buckets T * 2 - 1)) =? 0 then 0 else 1)) in
  _ ← upd_table t (set_ideal ideal 0);
  new ← expand_buckets (Z.to_nat (num_buckets T)) t 0 new;
  _ ← upd_table t (fun T => set_size new (u32 (num_buckets T * 2)) (u32 (log2_num_buckets T + 1)) T);
  _ ← upd_table t (fun T => set_ineff
        (if Z.shiftr (num_items T) 1 <? nonideal_items T then u32 (ineff_expands T + 1) else 0) (noexpand T) T);
  upd_table t (fun T => if 1 <? ineff_expands T then set_ineff (ineff_expands T) 1 T else T).

(** ** Adding *)

Definition HASH_ADD_TO_BKT (t : option positive) (i : Z) (addhh : option positive) : prog mem unit :=
  _ ← upd_bucket t i (fun b => mkBucket (hh_head b) (u32 (count b + 1)) (expand_mult b));
  b ← bucket t i;
  _ ← upd_hh addhh (set_hh_next (hh_head b));
  _ ← upd_hh addhh (set_hh_prev None);
  _ ← (match hh_head b with Some _ => upd_hh (hh_head b) (set_hh_prev addhh) | None => mret tt end);
  _ ← upd_bucket t i (fun b => mkBucket addhh (count b) (expand_mult b));
  b ← bucket t i;
  t' ← tbl_of addhh;
  T ← table t';
  if (u32 (u32 (expand_mult b + 1) * HASH_BKT_CAPACITY_THRESH) <=? count b) && negb (noexpand T =? 1)
  then HASH_EXPAND_BUCKETS t' else mret tt.

Definition HASH_MAKE_TABLE (head : option positive) : prog mem unit :=
  _ ← uthash_malloc sizeof_table;
  m ← get_st;
  let t := fresh (dom (tables m)) in
  _ ← put_st (mkMem (elems m) (<[t := mkTable [] 0 0 0 None 0 0 0 0 0]> (tables m)));
  _ ← upd_hh head (set_tbl (Some t));
  _ ← upd_table (Some t) (set_tail head);
  _ ← upd_table (Some t) (set_size [] HASH_INITIAL_NUM_BUCKETS HASH_INITIAL_NUM_BUCKETS_LOG2);
  _ ← uthash_malloc (HASH_INITIAL_NUM_BUCKETS * sizeof_bucket);
  _ ← upd_table (Some t) (set_buckets (replicate (Z.to_nat HASH_INITIAL_NUM_BUCKETS) empty_bucket));
  upd_table (Some t) (fun T => mkTable (buckets T) (num_buckets T) (log2_num_buckets T) (num_items T) (tail T)
    (ideal_chain_maxlen T) (nonideal_items T) (ineff_expands T) (noexpand T) HASH_SIGNATURE).

(** HASH_ADD of the element [add], whose key field holds [k]; the new head. *)
Definition HASH_ADD_KEYPTR (head : option positive) (k : list Z) (len : Z) (add : option positive) :
    prog mem (option positive) :=
  _ ← upd_hh add (set_next None);
  _ ← upd_hh add (set_key k len);
  head ← (match head with
          | None => _ ← upd_hh add (set_prev None); _ ← HASH_MAKE_TABLE add; mret add
          | Some _ =>
              T ← table_of head;
              _ ← upd_hh (tail T) (set_next add);
              _ ← upd_hh add (set_prev (tail T));
              t ← tbl_of head;
              _ ← upd_table t (set_tail add);
              mret head
          end);
  t ← tbl_of head;
  _ ← upd_table t (fun T => set_num_items (u32 (num_items T + 1)) T);
  _ ← upd_hh add (set_tbl t);
  T ← table t;
  '(v, bkt) ← lift (HASH_JEN fuel k len (num_buckets T));
  _ ← upd_hh add (set_hashv v);
  _ ← HASH_ADD_TO_BKT t bkt add;
  mret head.

(** ** Deleting *)

Definition HASH_DEL_IN_BKT (t : option positive) (i : Z) (del : option positive) : prog mem unit :=
  _ ← upd_bucket t i (fun b => mkBucket (hh_head b) (u32 (count b - 1)) (expand_mult b));
  b ← bucket t i;
  h ← hh del;
  _ ← (if decide (hh_head b = del) then upd_bucket t i (fun b => mkBucket (hh_next h) (count b) (expand_mult b))
       else mret tt);
  _ ← (match hh_prev h with Some _ => upd_hh (hh_prev h) (set_hh_next (hh_next h)) | None => mret tt end);
  h ← hh del;
  match hh_next h with Some _ => upd_hh (hh_next h) (set_hh_prev (hh_prev h)) | None => mret tt end.

(** HASH_DELETE; the new head. *)
Definition HASH_DELETE (head del : option positive) : prog mem (option positive) :=
  d ← hh del;
  match prev d, next d with
  | None, None =>
      t ← tbl_of head;
      _ ← table t;
      _ ← modify (fun m => mkMem (elems m) (match t with Some a => delete a (tables m) | None => tables m end));
      mret None
  | _, _ =>
      t ← tbl_of head;
      T ← table t;
      _ ← (if decide (del = tail T) then upd_table t (set_tail (prev d)) else mret tt);
      head ← (match prev d with
              | Some _ => _ ← upd_hh (prev d) (set_next (next d)); mret head
              | None => mret (next d)
              end);
      d ← hh del;
      _ ← (match next d with Some _ => upd_hh (next d) (set_prev (prev d)) | None => mret tt end);
      t ← tbl_of head;
      T ← table t;
      d ← hh del;
      _ ← HASH_DEL_IN_BKT t (HASH_TO_BKT (hashv d) (num_buckets T)) del;
      _ ← upd_table t (fun T => set_num_items (u32 (num_items T - 1)) T);
      mret head
  end.

(** ** The rest *)

Definition HASH_CNT (head : option positive) : prog mem Z :=
  match head with None => mret 0 | Some _ => T ← table_of head; mret (num_items T) end.

Definition HASH_CLEAR (head : option positive) : prog mem (option positive) :=
  match head with
  | None => mret None
  | Some _ =>
      t ← tbl_of head;
      _ ← table t;
      _ ← modify (fun m => mkMem (elems m) (match t with Some a => delete a (tables m) | None => tables m end));
      mret None
  end.

(** The elements HASH_ITER visits; the body may free the element, so the successor is
    read first. *)
Fixpoint iter_loop (fuel : nat) (el : option positive) : prog mem (list positive) :=
  match el with
  | None => mret []
  | Some a =>
      match fuel with
      | O => crash_with NoFuel
      | S fuel' => h ← hh el; l ← iter_loop fuel' (next h); mret (a :: l)
      end
  end.

Definition HASH_ITER (head : option positive) : prog mem (list positive) := iter_loop fuel head.

(** HASH_FSCK; HASH_OOPS is exit(-1).  The chain of one bucket: its length. *)
Fixpoint fsck_chain (fuel : nat) (prev thh : option positive) (cnt : Z) : prog mem Z :=
  match thh with
  | None => mret cnt
  | Some _ =>
      match fuel with
      | O => crash_with NoFuel
      | S fuel' =>
          h ← hh thh;
          if decide (prev = hh_prev h) then fsck_chain fuel' thh (hh_next h) (u32 (cnt + 1))
          else crash_with ProcessExit
      end
  end.

Fixpoint fsck_buckets (n : nat) (t : option positive) (i cnt : Z) : prog mem Z :=
  match n with
  | O => mret cnt
  | S n' =>
      b ← bucket t i;
      c ← fsck_chain fuel None (hh_head b) 0;
      if count b =? c then fsck_buckets n' t (i + 1) (u32 (cnt + c)) else crash_with ProcessExit
  end.

(** The list in the order of insertion: its length. *)
Fixpoint fsck_app (fuel : nat) (prv thh : option positive) (cnt : Z) : prog mem Z :=
  match thh with
  | None => mret cnt
  | Some _ =>
      match fuel with
      | O => crash_with NoFuel
      | S fuel' =>
          h ← hh thh;
          if decide (prv = prev h) then fsck_app fuel' thh (next h) (u32 (cnt + 1))
          else crash_with ProcessExit
      end
  end.

Definition HASH_FSCK (head : option positive) : prog mem unit :=
  match head with
  | None => mret tt
  | Some _ =>
      t ← tbl_of head;
      T ← table t;
      c ← fsck_buckets (Z.to_nat (num_buckets T)) t 0 0;
      if negb (c =? num_items T) then crash_with ProcessExit else
      c ← fsck_app fuel None head 0;
      if negb (c =? num_items T) then crash_with ProcessExit else mret tt
  end.

End Ops.
End Uthash.

(** ** The hash function returns *)

Section Hash.
Import Uthash.

Lemma jen_word_ok k o : 0 <= o -> o + 3 < Z.of_nat (length k) -> exists w, jen_word k o = Ret w.
Proof.
  intros Ho Hk. unfold jen_word.
  destruct (c_read_in_range k o) as [b0 E0], (c_read_in_range k (o + 1)) as [b1 E1],
    (c_read_in_range k (o + 2)) as [b2 E2], (c_read_in_range k (o + 3)) as [b3 E3]; try lia.
  eexists. by rewrite E0, bind_Ret, E1, bind_Ret, E2, bind_Ret, E3.
Qed.

Lemma jen_blocks_ok k : forall i j h, Z.of_nat (length k) < 2 ^ 32 -> exists k' r, (length k' < 12)%nat /\
  forall fuel, (length k <= fuel)%nat -> jen_blocks fuel k (Z.of_nat (length k)) i j h = Ret (k', Z.of_nat (length k'), r).
Proof.
  induction k as [k IH] using (induction_ltof1 _ (@length Z)). unfold ltof in IH. intros i j h Hk.
  destruct (decide (length k < 12)%nat) as [Hs|Hb].
  - exists k, (i, j, h). split; [done|]. intros fuel _. destruct fuel; cbn; by destruct (Z.ltb_spec (Z.of_nat (length k)) 12); try lia.
  - destruct (jen_word_ok k 0) as [wi Ei], (jen_word_ok k 4) as [wj Ej], (jen_word_ok k 8) as [wh Eh]; try lia.
    destruct (HASH_JEN_MIX (u32 (i + wi)) (u32 (j + wj)) (u32 (h + wh))) as [[i' j'] h'] eqn:Em.
    assert (Hl : length (drop 12 k) = (length k - 12)%nat) by apply length_drop.
    destruct (IH (drop 12 k) ltac:(lia) i' j' h' ltac:(lia)) as (k' & r & H1 & H2).
    exists k', r. split; [done|]. intros [|fuel] Hf; [lia|]. cbn [jen_blocks].
    destruct (Z.ltb_spec (Z.of_nat (length k)) 12); [lia|]. rewrite Ei, !bind_Ret, Ej, !bind_Ret, Eh, !bind_Ret, Em.
    rewrite u32_small by lia. replace (Z.of_nat (length k) - 12) with (Z.of_nat (length (drop 12 k))) by lia.
    apply H2. lia.
Qed.

Lemma jen_case_ok k o sh x : 0 <= o -> exists y, jen_case k (Z.of_nat (length k)) o sh x = Ret y /\
  (0 <= x < 2 ^ 32 -> 0 <= y < 2 ^ 32).
Proof.
  intros Ho. unfold jen_case. destruct (Z.ltb_spec o (Z.of_nat (length k))); [|by exists x].
  destruct (c_read_in_range k o) as [b ->]; [lia|]. eexists. split; [done|]. intros _. apply u32_range.
Qed.

Lemma mix_range a b c a' b' c' : HASH_JEN_MIX a b c = (a', b', c') -> 0 <= c < 2 ^ 32 -> 0 <= c' < 2 ^ 32.
Proof.
  assert (Hsr : forall x n, 0 <= n -> 0 <= x < 2 ^ 32 -> 0 <= Z.shiftr x n < 2 ^ 32).
  { intros x n Hn Hx. rewrite Z.shiftr_div_pow2 by lia. split; [apply Z.div_pos; lia|].
    apply Z.div_lt_upper_bound; [lia|]. assert (0 < 2 ^ n) by (apply Z.pow_pos_nonneg; lia). nia. }
  assert (Hx : forall x y, 0 <= x < 2 ^ 32 -> 0 <= y < 2 ^ 32 -> 0 <= Z.lxor x y < 2 ^ 32)
    by (intros; apply lxor_range; lia).
  unfold HASH_JEN_MIX. intros [= _ _ <-] Hc.
  repeat first [apply Hx | apply u32_range | apply Hsr; [lia|]]; done.
Qed.

(** The value that HASH_JEN computes for a key. *)
Definition jen_hash (k : list Z) : Z :=
  match HASH_JEN (length k) k (Z.of_nat (length k)) 1 with Ret (v, _) => v | Crash _ => 0 end.

Lemma jen_ok k : Z.of_nat (length k) < 2 ^ 32 -> 0 <= jen_hash k < 2 ^ 32 /\
  forall fuel n, (length k <= fuel)%nat ->
    HASH_JEN fuel k (Z.of_nat (length k)) n = Ret (jen_hash k, HASH_TO_BKT (jen_hash k) n).
Proof.
  intros Hk. assert (Hv : exists v, 0 <= v < 2 ^ 32 /\ forall fuel n, (length k <= fuel)%nat ->
    HASH_JEN fuel k (Z.of_nat (length k)) n = Ret (v, HASH_TO_BKT v n)).
  { destruct (jen_blocks_ok k 0x9e3779b9 0x9e3779b9 0xfeedbeef Hk) as (k' & [[i j] h] & _ & Hb).
    destruct (jen_case_ok k' 10 24 (u32 (h + Z.of_nat (length k)))) as (h1 & E1 & R1); [lia|].
    destruct (jen_case_ok k' 9 16 h1) as (h2 & E2 & R2); [lia|].
    destruct (jen_case_ok k' 8 8 h2) as (h3 & E3 & R3); [lia|].
    destruct (jen_case_ok k' 7 24 j) as (j1 & E4 & _); [lia|]. destruct (jen_case_ok k' 6 16 j1) as (j2 & E5 & _); [lia|].
    destruct (jen_case_ok k' 5 8 j2) as (j3 & E6 & _); [lia|]. destruct (jen_case_ok k' 4 0 j3) as (j4 & E7 & _); [lia|].
    destruct (jen_case_ok k' 3 24 i) as (i1 & E8 & _); [lia|]. destruct (jen_case_ok k' 2 16 i1) as (i2 & E9 & _); [lia|].
    destruct (jen_case_ok k' 1 8 i2) as (i3 & E10 & _); [lia|]. destruct (jen_case_ok k' 0 0 i3) as (i4 & E11 & _); [lia|].
    destruct (HASH_JEN_MIX i4 j4 h3) as [[a b] v] eqn:Em. exists v. split; [eapply mix_range; [exact Em|]|].
    { apply R3, R2, R1, u32_range. }
    intros fuel n Hf. unfold HASH_JEN. rewrite Hb by done.
    rewrite bind_Ret. rewrite E1, bind_Ret, E2, bind_Ret, E3, bind_Ret, E4, bind_Ret, E5, bind_Ret, E6, bind_Ret,
      E7, bind_Ret, E8, bind_Ret, E9, bind_Ret, E10, bind_Ret, E11, bind_Ret, Em. done. }
  destruct Hv as (v & Hr & Hv). assert (Ej : jen_hash k = v) by (unfold jen_hash; by rewrite Hv). by rewrite Ej.
Qed.

(** With a power of two of buckets, the bucket is the hash modulo their number. *)
Lemma to_bkt v lg : 0 <= v -> 0 <= lg < 32 -> HASH_TO_BKT v (2 ^ lg) = v mod 2 ^ lg.
Proof.
  intros Hv Hl. unfold HASH_TO_BKT. assert (0 < 2 ^ lg <= 2 ^ 31) by (split; [apply Z.pow_pos_nonneg; lia|
    apply Z.pow_le_mono_r; lia]). rewrite u32_small by lia.
  replace (2 ^ lg - 1) with (Z.ones lg) by (rewrite Z.ones_equiv; lia). apply Z.land_ones. lia.
Qed.

End Hash.

(** ** What a table represents *)

Section Store.
Import Uthash.
Implicit Types (es : gmap positive UT_hash_handle) (m : mem) (l c : list positive).

Definition fld (f : UT_hash_handle -> option positive) es (a : positive) : option positive := es !! a ≫= f.

Lemma fld_alter f g es a b : is_Some (es !! a) ->
  fld f (alter g a es) b = if decide (b = a) then es !! a ≫= (fun h => f (g h)) else fld f es b.
Proof.
  intros [h E]. unfold fld. destruct (decide (b = a)) as [->|Hne]; [rewrite lookup_alter_eq; by rewrite E|].
  by rewrite lookup_alter_ne by congruence.
Qed.

(** Handles that agree once [e] has erased some members. *)
Lemma alter_erased (e g : UT_hash_handle -> UT_hash_handle) a es :
  (forall h, e (g h) = e h) -> e <$> alter g a es = e <$> es.
Proof.
  intros He. apply map_eq. intros b. rewrite !lookup_fmap. destruct (decide (b = a)) as [->|Hne].
  - rewrite lookup_alter_eq. destruct (es !! a); cbn; [by rewrite He|done].
  - by rewrite lookup_alter_ne by congruence.
Qed.

Lemma erased_lookup (e : UT_hash_handle -> UT_hash_handle) es es' a h :
  e <$> es' = e <$> es -> es !! a = Some h -> exists h', es' !! a = Some h' /\ e h' = e h.
Proof.
  intros He E. assert (E' : (e <$> es') !! a = Some (e h)) by (rewrite He, lookup_fmap, E; done).
  rewrite lookup_fmap in E'. destruct (es' !! a) as [h'|]; [|done]. injection E' as E'. by exists h'.
Qed.

Lemma erased_fld (e : UT_hash_handle -> UT_hash_handle) f es es' a :
  (forall h, f (e h) = f h) -> e <$> es' = e <$> es -> fld f es' a = fld f es a.
Proof.
  intros Hf He. assert (E : (e <$> es') !! a = (e <$> es) !! a) by (by rewrite He). rewrite !lookup_fmap in E.
  unfold fld. destruct (es' !! a) as [h'|], (es !! a) as [h|]; try done. cbn in *.
  injection E as E. by rewrite <- (Hf h'), <- (Hf h), E.
Qed.

(** The chain links, and the links in order of insertion, erased. *)
Definition no_chain : UT_hash_handle -> UT_hash_handle := set_hh None None.
Definition no_app : UT_hash_handle -> UT_hash_handle := set_app None None.

(** An element of table [t]. *)
Definition elem_ok es (t : positive) (a : positive) : Prop :=
  exists h, es !! a = Some h /\ tbl h = Some t /\ keylen h = Z.of_nat (length (key h)) /\
    Z.of_nat (length (key h)) < 2 ^ 32 /\ hashv h = jen_hash (key h).

(** The elements in the order of insertion. *)
Definition app_rep es (t : positive) l : Prop :=
  (forall a, a ∈ l -> elem_ok es t a) /\ NoDup l /\ seg (fld next es) (fld prev es) None l None.

(** The hash of the element at an address. *)
Definition hash_at es (a : positive) : Z := match es !! a with Some h => hashv h | None => 0 end.

(** Bucket [i] of [n] holds the chain [c]. *)
Definition bkt_ok es (n : Z) (i : nat) (b : UT_hash_bucket) c : Prop :=
  hh_head b = first c None /\ count b = Z.of_nat (length c) /\ seg (fld hh_next es) (fld hh_prev es) None c None /\
  forall a, a ∈ c -> hash_at es a mod n = Z.of_nat i.

Definition chains es (n : Z) (bs : list UT_hash_bucket) (cs : list (list positive)) : Prop :=
  length bs = Z.to_nat n /\ length cs = Z.to_nat n /\
  forall i b c, bs !! i = Some b -> cs !! i = Some c -> bkt_ok es n i b c.

(** The table at [t] holds the elements [l], in the chains [cs]; its tail is [z]. *)
Record rep_upto (z : option positive) m (t : positive) (T : UT_hash_table) l (cs : list (list positive)) : Prop := mkRep {
  r_table : tables m !! t = Some T;
  r_app : app_rep (elems m) t l;
  r_tail : tail T = z;
  r_items : num_items T = Z.of_nat (length l);
  r_small : Z.of_nat (length l) < 2 ^ 32;
  r_lg : 5 <= log2_num_buckets T < 30;
  r_num : num_buckets T = 2 ^ log2_num_buckets T;
  r_chains : chains (elems m) (num_buckets T) (buckets T) cs;
  r_perm : mjoin cs ≡ₚ l
}.

Definition rep_at m t T l cs : Prop := rep_upto (final None l) m t T l cs.

(** The head represents a finite map. *)
Definition contents es l (M : gmap (list Z) positive) : Prop :=
  forall k a, M !! k = Some a <-> a ∈ l /\ key <$> es !! a = Some k.

Definition represents m (head : option positive) (M : gmap (list Z) positive) : Prop :=
  head = None /\ M = ∅ \/
  exists t T l cs, head = first l None /\ l <> [] /\ rep_at m t T l cs /\ contents (elems m) l M.

(** The same, whatever the tail of the table is. *)
Definition represents_but_tail m (head : option positive) (M : gmap (list Z) positive) : Prop :=
  head = None /\ M = ∅ \/
  exists z t T l cs, head = first l None /\ l <> [] /\ rep_upto z m t T l cs /\ contents (elems m) l M.

Lemma represents_weaken m head M : represents m head M -> represents_but_tail m head M.
Proof. intros [?|(t & T & l & cs & ?)]; [by left|right]. by exists (final None l), t, T, l, cs. Qed.

(** *** Rules for the accesses *)

Lemma wp_hh E m a h (Q : UT_hash_handle -> mem -> Prop) :
  elems m !! a = Some h -> Q h m -> wp E (hh (Some a)) Q m.
Proof. intros Ha HQ. unfold wp, hh. by rewrite Ha. Qed.

Lemma wp_upd_hh E m a f (Q : unit -> mem -> Prop) :
  is_Some (elems m !! a) -> Q tt (mkMem (alter f a (elems m)) (tables m)) -> wp E (upd_hh (Some a) f) Q m.
Proof.
  intros [h Ha] HQ. unfold wp, upd_hh. rewrite Ha.
  replace (<[a := f h]> (elems m)) with (alter f a (elems m)); [done|].
  apply map_eq. intros b. destruct (decide (b = a)) as [->|Hne].
  - by rewrite lookup_alter_eq, lookup_insert_eq, Ha.
  - by rewrite lookup_alter_ne, lookup_insert_ne by congruence.
Qed.

Lemma wp_table E m t T (Q : UT_hash_table -> mem -> Prop) :
  tables m !! t = Some T -> Q T m -> wp E (table (Some t)) Q m.
Proof. intros Ht HQ. unfold wp, table. by rewrite Ht. Qed.

Lemma wp_upd_table E m t T f (Q : unit -> mem -> Prop) :
  tables m !! t = Some T -> Q tt (mkMem (elems m) (<[t := f T]> (tables m))) -> wp E (upd_table (Some t) f) Q m.
Proof. intros Ht HQ. unfold wp, upd_table. by rewrite Ht. Qed.

Lemma wp_tbl_of E m a h (Q : option positive -> mem -> Prop) :
  elems m !! a = Some h -> Q (tbl h) m -> wp E (tbl_of (Some a)) Q m.
Proof. intros Ha HQ. apply wp_bind. by eapply wp_hh. Qed.

Lemma wp_bucket E m t T i b (Q : UT_hash_bucket -> mem -> Prop) :
  tables m !! t = Some T -> 0 <= i -> buckets T !! Z.to_nat i = Some b -> Q b m -> wp E (bucket (Some t) i) Q m.
Proof.
  intros Ht Hi Hb HQ. apply wp_bind. eapply wp_table; [exact Ht|]. apply wp_lift. by rewrite (c_read_ok _ _ b).
Qed.

Lemma wp_upd_bucket E m t T i b f (Q : unit -> mem -> Prop) :
  tables m !! t = Some T -> 0 <= i -> buckets T !! Z.to_nat i = Some b ->
  Q tt (mkMem (elems m) (<[t := set_buckets (<[Z.to_nat i := f b]> (buckets T)) T]> (tables m))) ->
  wp E (upd_bucket (Some t) i f) Q m.
Proof.
  intros Ht Hi Hb HQ. apply wp_bind. eapply wp_table; [exact Ht|]. apply wp_bind, wp_lift.
  rewrite (c_read_ok _ _ b) by done. apply wp_bind, wp_lift. apply lookup_lt_Some in Hb as Hlt.
  rewrite c_write_ok by lia. by eapply wp_upd_table.
Qed.

End Store.

(** ** Finding *)

Section Find.
Import Uthash.
Implicit Types (es : gmap positive UT_hash_handle) (m : mem) (l c : list positive).

(** The search stops at an element with the key, or there is none. *)
Definition found es c (k : list Z) (r : option positive) : Prop :=
  match r with
  | Some a => a ∈ c /\ key <$> es !! a = Some k
  | None => forall a, a ∈ c -> key <$> es !! a <> Some k
  end.

Lemma keycmp h k :
  keylen h = Z.of_nat (length (key h)) ->
  (keylen h =? Z.of_nat (length k)) && HASH_KEYCMP (key h) k (Z.of_nat (length k)) = bool_decide (key h = k).
Proof.
  intros Hh. unfold HASH_KEYCMP. rewrite Hh, Nat2Z.id. destruct (Z.eqb_spec (Z.of_nat (length (key h))) (Z.of_nat (length k))) as [E|E].
  - apply Nat2Z.inj in E. by rewrite !take_ge by lia.
  - cbn. symmetry. apply bool_decide_eq_false_2. congruence.
Qed.

Lemma wp_find_loop m t k c : forall fuel p (Q : option positive -> mem -> Prop),
  seg (fld hh_next (elems m)) (fld hh_prev (elems m)) p c None -> (forall a, a ∈ c -> elem_ok (elems m) t a) ->
  (length c <= fuel)%nat -> (forall r, found (elems m) c k r -> Q r m) ->
  wp no_crash (find_loop fuel k (Z.of_nat (length k)) (first c None)) Q m.
Proof.
  induction c as [|a c IH]; intros fuel p Q Hs He Hf HQ; cbn [first].
  { destruct fuel; apply wp_ret, HQ; intros a Ha; by apply elem_of_nil in Ha. }
  destruct fuel as [|fuel]; [cbn in Hf; lia|]. cbn [find_loop].
  destruct (He a ltac:(set_solver)) as (h & E & _ & Hl & _). destruct Hs as (_ & Hn & Hs).
  apply wp_bind. eapply wp_hh; [exact E|]. rewrite keycmp by done. unfold fld in Hn. rewrite E in Hn. cbn in Hn. rewrite Hn.
  case_bool_decide as Hk.
  - apply wp_ret, HQ. cbn. rewrite E. cbn. split; [set_solver|congruence].
  - eapply IH; [exact Hs|set_solver|cbn in Hf; lia|]. intros [b|] Hr; apply HQ; cbn in *.
    + destruct Hr. split; [set_solver|done].
    + intros b [->|Hb]%elem_of_cons; [rewrite E; cbn; congruence|by apply Hr].
Qed.

Section Table.
Variables (z : option positive) (m : mem) (t : positive) (T : UT_hash_table) (l : list positive) (cs : list (list positive)).
Hypothesis R : rep_upto z m t T l cs.

Lemma rep_elem a : a ∈ l -> elem_ok (elems m) t a.
Proof. apply (r_app _ _ _ _ _ _ R). Qed.

Lemma rep_hash a h : a ∈ l -> elems m !! a = Some h -> hashv h = jen_hash (key h).
Proof. intros Ha E. destruct (rep_elem a Ha) as (h' & E' & _ & _ & _ & Hh). congruence. Qed.

(** The bucket of a hash value. *)
Lemma rep_bucket v : 0 <= v ->
  exists b c, HASH_TO_BKT v (num_buckets T) = v mod num_buckets T /\ 0 <= v mod num_buckets T < num_buckets T /\
    buckets T !! Z.to_nat (v mod num_buckets T) = Some b /\ cs !! Z.to_nat (v mod num_buckets T) = Some c /\
    bkt_ok (elems m) (num_buckets T) (Z.to_nat (v mod num_buckets T)) b c.
Proof.
  intros Hv. destruct R as [_ _ _ _ _ Hlg Hn (L1 & L2 & Hc) _].
  assert (Hpos : 0 < num_buckets T) by (rewrite Hn; apply Z.pow_pos_nonneg; lia).
  assert (Hm := Z.mod_pos_bound v (num_buckets T) Hpos).
  destruct (lookup_lt_is_Some_2 (buckets T) (Z.to_nat (v mod num_buckets T))) as [b Hb]; [lia|].
  destruct (lookup_lt_is_Some_2 cs (Z.to_nat (v mod num_buckets T))) as [c Hcc]; [lia|].
  exists b, c. split_and!; try done; try lia; [|by apply Hc]. rewrite Hn. apply to_bkt; lia.
Qed.

(** Every element is in the chain of its hash. *)
Lemma rep_in a c : a ∈ l -> cs !! Z.to_nat (hash_at (elems m) a mod num_buckets T) = Some c -> a ∈ c.
Proof.
  intros Ha Hc. destruct R as [_ _ _ _ _ Hlg Hn (L1 & L2 & Hch) Hp]. rewrite <- Hp in Ha.
  apply list_elem_of_join in Ha as (c' & Hac & [i Hi]%list_elem_of_lookup).
  destruct (lookup_lt_is_Some_2 (buckets T) i) as [b Hb]; [apply lookup_lt_Some in Hi; lia|].
  destruct (Hch i b c' Hb Hi) as (_ & _ & _ & Hm). rewrite (Hm a Hac), Nat2Z.id in Hc. congruence.
Qed.

Lemma chain_sub i c a : cs !! i = Some c -> a ∈ c -> a ∈ l.
Proof.
  intros Hc Ha. rewrite <- (r_perm _ _ _ _ _ _ R). apply list_elem_of_join. exists c. split; [done|].
  by apply list_elem_of_lookup_2 in Hc.
Qed.

Lemma chain_length i c : cs !! i = Some c -> (length c <= length l)%nat.
Proof.
  intros Hc. rewrite <- (r_perm _ _ _ _ _ _ R). apply take_drop_middle in Hc as <-. rewrite join_app. cbn.
  rewrite !length_app. lia.
Qed.

Lemma wp_find fuel k (Q : option positive -> mem -> Prop) :
  l <> [] -> Z.of_nat (length k) < 2 ^ 32 -> (length k <= fuel)%nat -> (length l <= fuel)%nat ->
  (forall r, found (elems m) l k r -> Q r m) ->
  wp no_crash (HASH_FIND fuel (first l None) k (Z.of_nat (length k))) Q m.
Proof.
  intros Hl Hk Hf1 Hf2 HQ. destruct (first_in l None) as [[_ ?]|(a0 & -> & Ha0)]; [done|].
  destruct (rep_elem a0 Ha0) as (h0 & E0 & Et & _).
  unfold HASH_FIND. apply wp_bind, wp_bind. eapply wp_tbl_of; [exact E0|]. rewrite Et.
  eapply wp_table; [apply R|]. apply wp_bind, wp_lift. destruct (jen_ok k Hk) as [Hv Ej]. rewrite Ej by done.
  apply wp_bind. eapply wp_tbl_of; [exact E0|]. rewrite Et.
  destruct (rep_bucket (jen_hash k)) as (b & c & Eb & Hb & Hb1 & Hb2 & (B1 & _ & B3 & _)); [lia|]. rewrite Eb.
  apply wp_bind. eapply wp_bucket; [apply R|lia|exact Hb1|]. unfold HASH_FIND_IN_BKT. rewrite B1.
  eapply wp_find_loop; [exact B3|intros a Ha; eapply rep_elem, chain_sub; done|..].
  { apply chain_length in Hb2. lia. }
  intros [a|] Hr; apply HQ; cbn in *.
  - destruct Hr as [Ha Hr]. split; [by eapply chain_sub|done].
  - intros a Ha Hka. apply (Hr a); [|done]. apply rep_in; [done|]. unfold hash_at.
    destruct (elems m !! a) as [h|] eqn:E; [|done]. injection Hka as Hka. by rewrite (rep_hash a h Ha E), Hka.
Qed.

End Table.
End Find.
