(* ===== verification/HashTable.v ===== *)
(** * Hash tables are finite maps

    The macros of common/uthash.h that change a table: putting an element in front of a
    chain, doubling the buckets, adding and deleting an element, and the checker.  On
    a table that represents a finite map from keys to elements they are the operations
    of the map. *)

From S2P Require Import Prelude Links Uthash.

#[local] Open Scope Z_scope.

(** ** Putting an element in front of a chain *)

Section Push.
Import Uthash.
Implicit Types (es : gmap positive UT_hash_handle) (m : mem) (l c : list positive) (cs : list (list positive)).

Lemma join_insert cs i c : cs !! i = Some c ->
  exists rest, mjoin cs ≡ₚ c ++ rest /\ forall c', mjoin (<[i := c']> cs) ≡ₚ c' ++ rest.
Proof.
  intros Hc. exists (mjoin (take i cs) ++ mjoin (drop (S i) cs)). split.
  - rewrite <- (take_drop_middle cs i c Hc) at 1. rewrite join_app. cbn. solve_Permutation.
  - intros c'. rewrite insert_take_drop by (by eapply lookup_lt_Some). rewrite join_app. cbn. solve_Permutation.
Qed.

Lemma join_apart cs i j c c' x : NoDup (mjoin cs) -> cs !! i = Some c -> cs !! j = Some c' -> x ∈ c -> x ∈ c' -> i = j.
Proof.
  intros Hnd Hi Hj Hx Hx'. destruct (decide (i = j)) as [|Hne]; [done|exfalso].
  destruct (join_insert cs i c Hi) as (rest & Hp & Hins). rewrite Hp in Hnd.
  apply list.NoDup_app in Hnd as (_ & Hd & _). apply (Hd x Hx).
  specialize (Hins []). cbn in Hins. rewrite <- Hins. apply list_elem_of_join. exists c'. split; [done|].
  apply (list_elem_of_lookup_2 _ j). by rewrite list_lookup_insert_ne.
Qed.

Lemma join_nodup cs i c : NoDup (mjoin cs) -> cs !! i = Some c -> NoDup c.
Proof.
  intros Hnd Hi. destruct (join_insert cs i c Hi) as (rest & Hp & _). rewrite Hp in Hnd.
  by apply list.NoDup_app in Hnd as (? & _).
Qed.

Lemma join_elem cs i c x : cs !! i = Some c -> x ∈ c -> x ∈ mjoin cs.
Proof. intros Hi Hx. apply list_elem_of_join. exists c. split; [done|]. by eapply list_elem_of_lookup_2. Qed.

Definition push es (a : positive) c : gmap positive UT_hash_handle :=
  let es1 := alter (set_hh None (first c None)) a es in
  match c with [] => es1 | b :: _ => alter (set_hh_prev (Some a)) b es1 end.

Lemma push_erased es a c : no_chain <$> push es a c = no_chain <$> es.
Proof. unfold push. destruct c; rewrite ?alter_erased by done; done. Qed.

Lemma push_other es a c x : x <> a -> x ∉ c -> push es a c !! x = es !! x.
Proof.
  intros Ha Hc. unfold push. destruct c as [|b c]; rewrite ?lookup_alter_ne by set_solver; done.
Qed.

Lemma push_next es a c x : is_Some (es !! a) -> a ∉ c -> (forall y, y ∈ c -> is_Some (es !! y)) ->
  fld hh_next (push es a c) x = if decide (x = a) then first c None else fld hh_next es x.
Proof.
  intros [h Ha] Hac Hc. unfold push. destruct c as [|b c].
  - rewrite fld_alter by done. by rewrite Ha.
  - destruct (Hc b ltac:(set_solver)) as [hb Hb]. assert (b <> a) by set_solver. rewrite fld_alter.
    2: { rewrite lookup_alter_ne by done. by rewrite Hb. }
    rewrite lookup_alter_ne by done. rewrite Hb. cbn [mbind option_bind set_hh_prev set_hh hh_next].
    rewrite fld_alter by (by rewrite Ha). rewrite Ha. unfold fld.
    destruct (decide (x = b)) as [->|]; [|done]. rewrite Hb. by rewrite decide_False.
Qed.

Lemma push_prev es a c x : is_Some (es !! a) -> a ∉ c -> (forall y, y ∈ c -> is_Some (es !! y)) ->
  fld hh_prev (push es a c) x =
  if decide (x = a) then None else if decide (Some x = first c None) then Some a else fld hh_prev es x.
Proof.
  intros [h Ha] Hac Hc. unfold push. destruct c as [|b c].
  - rewrite fld_alter by done. by rewrite Ha.
  - destruct (Hc b ltac:(set_solver)) as [hb Hb]. assert (b <> a) by set_solver. rewrite fld_alter.
    2: { rewrite lookup_alter_ne by done. by rewrite Hb. }
    rewrite lookup_alter_ne by done. rewrite Hb. cbn [mbind option_bind set_hh_prev set_hh hh_prev first].
    rewrite fld_alter by (by rewrite Ha). rewrite Ha.
    destruct (decide (x = b)) as [->|]; [by rewrite decide_False, decide_True|].
    by rewrite (decide_False (P := Some x = Some b)) by congruence.
Qed.

Lemma hash_erased es es' a : no_chain <$> es' = no_chain <$> es -> hash_at es' a = hash_at es a.
Proof.
  intros He. assert (E : (no_chain <$> es') !! a = (no_chain <$> es) !! a) by (by rewrite He).
  rewrite !lookup_fmap in E. unfold hash_at. destruct (es' !! a) as [h'|], (es !! a) as [h|]; try done.
  cbn in E. injection E. done.
Qed.

(** The chains after [a] was put in front of chain [i]. *)
Lemma chains_push es n bs cs i b c a mult :
  chains es n bs cs -> bs !! i = Some b -> cs !! i = Some c -> NoDup (mjoin cs) -> a ∉ mjoin cs ->
  is_Some (es !! a) -> (forall x, x ∈ mjoin cs -> is_Some (es !! x)) -> hash_at es a mod n = Z.of_nat i ->
  chains (push es a c) n (<[i := mkBucket (Some a) (Z.of_nat (length (a :: c))) mult]> bs) (<[i := a :: c]> cs).
Proof.
  intros (L1 & L2 & Hch) Hb Hc Hnd Ha Hsa Hs Hh.
  assert (Hac : a ∉ c) by (intros Hin; apply Ha; by eapply join_elem).
  assert (Hsc : forall y, y ∈ c -> is_Some (es !! y)) by (intros y Hy; by eapply Hs, join_elem).
  split; [by rewrite length_insert|]. split; [by rewrite length_insert|]. intros j b' c' Hb' Hc'.
  destruct (decide (j = i)) as [->|Hne].
  - rewrite list_lookup_insert_eq in Hb' by (by eapply lookup_lt_Some).
    rewrite list_lookup_insert_eq in Hc' by (by eapply lookup_lt_Some). injection Hb' as <-. injection Hc' as <-.
    destruct (Hch i b c Hb Hc) as (B1 & B2 & B3 & B4). split_and!; [done|done| |].
    + cbn [seg]. rewrite push_prev, push_next, !decide_True by done. split; [done|]. split; [done|].
      apply (seg_prev _ (fld hh_prev es) _ None); [by eapply join_nodup| |].
      * intros x Hx. rewrite push_prev by done. rewrite decide_False; [done|]. by intros ->.
      * apply (seg_same (fld hh_next es) (fld hh_prev es)); [|done|done].
        intros x Hx. rewrite push_next by done. rewrite decide_False; [done|]. by intros ->.
    + intros x Hx. rewrite (hash_erased es) by apply push_erased.
      apply elem_of_cons in Hx as [->|Hx]; [done|by apply B4].
  - rewrite list_lookup_insert_ne in Hb' by done. rewrite list_lookup_insert_ne in Hc' by done.
    destruct (Hch j b' c' Hb' Hc') as (B1 & B2 & B3 & B4).
    split_and!; [done|done| |intros x Hx; rewrite (hash_erased es) by apply push_erased; by apply B4].
    assert (Hx : forall x, x ∈ c' -> x <> a /\ Some x <> first c None).
    { intros x Hx. split; [intros ->; apply Ha; by eapply join_elem|].
      destruct (first_in c None) as [[-> _]|(y & -> & Hy)]; [done|]. intros [= ->]. apply Hne.
      by eapply (join_apart cs j i c' c y). }
    apply (seg_same (fld hh_next es) (fld hh_prev es)); [| |done]; intros x [H1 H2]%Hx.
    + by rewrite push_next, decide_False.
    + by rewrite push_prev, !decide_False.
Qed.

Lemma alter_twice (f g : UT_hash_handle -> UT_hash_handle) a es : alter f a (alter g a es) = alter (fun h => f (g h)) a es.
Proof.
  apply map_eq. intros b. destruct (decide (b = a)) as [->|Hne].
  - rewrite !lookup_alter_eq. by destruct (es !! a).
  - by rewrite !lookup_alter_ne by congruence.
Qed.

(** The assignments of the macros, in either order. *)
Lemma push_links es a (x : option positive) :
  alter (set_hh_prev None) a (alter (set_hh_next x) a es) = alter (set_hh None x) a es /\
  alter (set_hh_next x) a (alter (set_hh_prev None) a es) = alter (set_hh None x) a es.
Proof. split; by rewrite alter_twice. Qed.

Lemma wp_link_head E es tb a c (Q : unit -> mem -> Prop) :
  (forall y, y ∈ c -> is_Some (es !! y)) -> Q tt (mkMem (push es a c) tb) ->
  wp E (match first c None with Some _ => upd_hh (first c None) (set_hh_prev (Some a)) | None => mret tt end) Q
    (mkMem (alter (set_hh None (first c None)) a es) tb).
Proof.
  intros Hs HQ. destruct c as [|b c]; [by apply wp_ret|]. cbn [first]. apply wp_upd_hh; [|exact HQ].
  cbn [elems]. destruct (decide (b = a)) as [->|Hne]; [rewrite lookup_alter_eq|rewrite lookup_alter_ne by done];
    try apply fmap_is_Some; apply Hs; set_solver.
Qed.

(** The three assignments that put [a] in front of [c], in the two orders of the macros. *)
Lemma wp_push {B} E es tb a c (k : prog mem B) Q :
  is_Some (es !! a) -> (forall y, y ∈ c -> is_Some (es !! y)) -> wp E k Q (mkMem (push es a c) tb) ->
  wp E (_ ← upd_hh (Some a) (set_hh_prev None); _ ← upd_hh (Some a) (set_hh_next (first c None));
        _ ← (match first c None with Some _ => upd_hh (first c None) (set_hh_prev (Some a)) | None => mret tt end); k)
    Q (mkMem es tb).
Proof.
  intros Ha Hc HQ. apply wp_bind, wp_upd_hh; [done|]. apply wp_bind, wp_upd_hh.
  { cbn. rewrite lookup_alter_eq. by apply fmap_is_Some. }
  cbn [elems tables]. rewrite (proj2 (push_links _ _ _)). by apply wp_bind, wp_link_head.
Qed.

Lemma wp_push' {B} E es tb a c (k : prog mem B) Q :
  is_Some (es !! a) -> (forall y, y ∈ c -> is_Some (es !! y)) -> wp E k Q (mkMem (push es a c) tb) ->
  wp E (_ ← upd_hh (Some a) (set_hh_next (first c None)); _ ← upd_hh (Some a) (set_hh_prev None);
        _ ← (match first c None with Some _ => upd_hh (first c None) (set_hh_prev (Some a)) | None => mret tt end); k)
    Q (mkMem es tb).
Proof.
  intros Ha Hc HQ. apply wp_bind, wp_upd_hh; [done|]. apply wp_bind, wp_upd_hh.
  { cbn. rewrite lookup_alter_eq. by apply fmap_is_Some. }
  cbn [elems tables]. rewrite (proj1 (push_links _ _ _)). by apply wp_bind, wp_link_head.
Qed.

End Push.

(** The macros end the process when memory runs out. *)
Definition only_exit (e : crash) : Prop := e = ProcessExit.

(** ** Doubling *)

Section Expand.
Import Uthash.
Implicit Types (es : gmap positive UT_hash_handle) (m : mem) (l c : list positive) (cs : list (list positive)).

(** A table in which at most the statistics of the expansion have changed. *)
Definition counted (T T' : UT_hash_table) : Prop := exists x, T' = set_ideal (ideal_chain_maxlen T) x T.

Lemma counted_refl T : counted T T.
Proof. exists (nonideal_items T). by destruct T. Qed.

Lemma counted_trans T T' T'' : counted T T' -> counted T' T'' -> counted T T''.
Proof. intros [x ->] [y ->]. by exists y. Qed.

(** What moving the elements [c] into the chains [cs] does: the elements outside do not
    change, nor does anything but the chain links. *)
Record moved es es' (n : Z) (nb : list UT_hash_bucket) cs c (nb' : list UT_hash_bucket) (cs' : list (list positive)) : Prop := {
  mv_chains : chains es' n nb' cs';
  mv_perm : mjoin cs' ≡ₚ c ++ mjoin cs;
  mv_erased : no_chain <$> es' = no_chain <$> es;
  mv_other : forall x, x ∉ c -> x ∉ mjoin cs -> es' !! x = es !! x
}.

Lemma moved_refl es n nb cs : chains es n nb cs -> moved es es n nb cs [] nb cs.
Proof. intros H. by split. Qed.

Lemma moved_trans es es1 es2 n nb cs c nb1 cs1 c' nb2 cs2 :
  moved es es1 n nb cs c nb1 cs1 -> moved es1 es2 n nb1 cs1 c' nb2 cs2 -> moved es es2 n nb cs (c ++ c') nb2 cs2.
Proof.
  intros [A1 A2 A3 A4] [B1 B2 B3 B4]. split; [done|rewrite B2, A2; solve_Permutation|by rewrite B3|].
  intros x Hx Hc. rewrite B4; [apply A4; set_solver|set_solver|]. rewrite A2. set_solver.
Qed.

(** One element is moved. *)
Lemma moved_push es n nb cs i b c a mult :
  chains es n nb cs -> nb !! i = Some b -> cs !! i = Some c -> NoDup (mjoin cs) -> a ∉ mjoin cs ->
  is_Some (es !! a) -> (forall x, x ∈ mjoin cs -> is_Some (es !! x)) -> hash_at es a mod n = Z.of_nat i ->
  moved es (push es a c) n nb cs [a] (<[i := mkBucket (Some a) (Z.of_nat (length (a :: c))) mult]> nb) (<[i := a :: c]> cs).
Proof.
  intros Hch Hb Hc Hnd Ha Hsa Hs Hh. split; [by eapply chains_push| |apply push_erased|].
  - destruct (join_insert cs i c Hc) as (rest & Hp & Hi). by rewrite Hi, Hp.
  - intros x Hx Hxc. apply push_other; [set_solver|]. intros Hin. apply Hxc. by eapply join_elem.
Qed.

Lemma erased_some (e : UT_hash_handle -> UT_hash_handle) es es' a :
  e <$> es' = e <$> es -> is_Some (es !! a) -> is_Some (es' !! a).
Proof. intros He [h Ha]. destruct (erased_lookup e es es' a h He Ha) as (h' & -> & _). done. Qed.

(** [lg] is the exponent of the old number of buckets. *)
(** The body of the inner loop: one element goes to its new bucket. *)
Lemma wp_move_one {B} E t lg a m T h nb cs (k : list UT_hash_bucket -> prog mem B) (Q : B -> mem -> Prop) :
  tables m !! t = Some T -> num_buckets T = 2 ^ lg -> 0 <= lg < 30 -> 0 < ideal_chain_maxlen T ->
  elems m !! a = Some h -> 0 <= hashv h -> chains (elems m) (2 ^ (lg + 1)) nb cs -> NoDup (a :: mjoin cs) ->
  Z.of_nat (length (a :: mjoin cs)) < 2 ^ 32 -> (forall x, x ∈ mjoin cs -> is_Some (elems m !! x)) ->
  (forall es' T' nb' cs', counted T T' -> moved (elems m) es' (2 ^ (lg + 1)) nb cs [a] nb' cs' ->
     wp E (k nb') Q (mkMem es' (<[t := T']> (tables m)))) ->
  wp E (T ← table (Some t);
    b ← lift (c_read nb (HASH_TO_BKT (hashv h) (u32 (num_buckets T * 2))));
    mult ← (if ideal_chain_maxlen T <? u32 (count b + 1) then
              _ ← upd_table (Some t) (set_ideal (ideal_chain_maxlen T) (u32 (nonideal_items T + 1)));
              if ideal_chain_maxlen T =? 0 then crash_with ArithUB
              else mret (u32 (count b + 1) / ideal_chain_maxlen T)
            else mret (expand_mult b));
    _ ← upd_hh (Some a) (set_hh_prev None);
    _ ← upd_hh (Some a) (set_hh_next (hh_head b));
    _ ← (match hh_head b with Some _ => upd_hh (hh_head b) (set_hh_prev (Some a)) | None => mret tt end);
    nb ← lift (c_write nb (HASH_TO_BKT (hashv h) (u32 (num_buckets T * 2))) (mkBucket (Some a) (u32 (count b + 1)) mult));
    k nb) Q m.
Proof.
  intros Ht Hn Hlg Hid Ha Hv Hch Hnd Hlen Hsome HQ. apply wp_bind. eapply wp_table; [exact Ht|].
  assert (E2 : 2 ^ (lg + 1) = 2 ^ lg * 2) by (rewrite Z.pow_add_r by lia; done).
  assert (Hp2 : 0 < 2 ^ lg <= 2 ^ 29) by (split; [apply Z.pow_pos_nonneg; lia|apply Z.pow_le_mono_r; lia]).
  rewrite Hn, <- E2, u32_small by lia. rewrite (to_bkt (hashv h) (lg + 1)) by lia.
  set (n2 := 2 ^ (lg + 1)) in *. assert (Hm := Z.mod_pos_bound (hashv h) n2 ltac:(lia)).
  set (i := hashv h mod n2) in *. assert (Hch0 := Hch). destruct Hch0 as (L1 & L2 & Hc0).
  destruct (lookup_lt_is_Some_2 nb (Z.to_nat i)) as [b Hb]; [lia|].
  destruct (lookup_lt_is_Some_2 cs (Z.to_nat i)) as [ci Hci]; [lia|].
  destruct (Hc0 _ b ci Hb Hci) as (B1 & B2 & _). apply wp_bind, wp_lift. rewrite (c_read_ok nb i b) by (done || lia).
  assert (Hlc : (length ci < length (a :: mjoin cs))%nat).
  { destruct (join_insert cs (Z.to_nat i) ci Hci) as (rest & Hp & _). cbn. rewrite Hp, length_app. lia. }
  rewrite B1, B2, u32_small by lia. replace (Z.of_nat (length ci) + 1) with (Z.of_nat (length (a :: ci))) by (cbn; lia).
  apply list.NoDup_cons in Hnd as [Hac Hnd]. apply wp_bind.
  eapply (wp_conseq _ _ (fun mult m' => exists T', counted T T' /\ m' = mkMem (elems m) (<[t := T']> (tables m)))).
  { destruct (ideal_chain_maxlen T <? _).
    - apply wp_bind. eapply wp_upd_table; [exact Ht|]. destruct (Z.eqb_spec (ideal_chain_maxlen T) 0); [lia|].
      apply wp_ret. eexists. split; [by eexists|done].
    - apply wp_ret. exists T. split; [apply counted_refl|]. rewrite insert_id by done. by destruct m. }
  intros mult m' (T' & Hct & ->). apply wp_push; [by rewrite Ha|..].
  { intros y Hy. by apply Hsome, (join_elem _ _ _ _ Hci). }
  apply wp_bind, wp_lift. rewrite c_write_ok by lia. apply (HQ _ T' _ (<[Z.to_nat i := a :: ci]> cs)); [done|].
  apply (moved_push _ _ _ _ _ b); try done. unfold hash_at. rewrite Ha. fold i. lia.
Qed.

Lemma wp_expand_chain E t lg c : forall fuel m T nb cs p (Q : list UT_hash_bucket -> mem -> Prop),
  tables m !! t = Some T -> num_buckets T = 2 ^ lg -> 0 <= lg < 30 -> 0 < ideal_chain_maxlen T ->
  (length c <= fuel)%nat -> seg (fld hh_next (elems m)) (fld hh_prev (elems m)) p c None ->
  NoDup (c ++ mjoin cs) -> Z.of_nat (length (c ++ mjoin cs)) < 2 ^ 32 -> chains (elems m) (2 ^ (lg + 1)) nb cs ->
  (forall x, x ∈ c ++ mjoin cs -> is_Some (elems m !! x)) -> (forall x, x ∈ c -> 0 <= hash_at (elems m) x) ->
  (forall es' T' nb' cs', counted T T' -> moved (elems m) es' (2 ^ (lg + 1)) nb cs c nb' cs' ->
     Q nb' (mkMem es' (<[t := T']> (tables m)))) ->
  wp E (expand_chain fuel (Some t) (first c None) nb) Q m.
Proof.
  induction c as [|a c IH]; intros fuel m T nb cs p Q Ht Hn Hlg Hid Hf Hs Hnd Hlen Hch Hsome Hh HQ; cbn [first].
  { assert (HQ' := HQ (elems m) T nb cs (counted_refl T) (moved_refl _ _ _ _ Hch)).
    rewrite insert_id in HQ' by done. destruct fuel, m; by apply wp_ret. }
  destruct fuel as [|fuel]; [cbn in Hf; lia|]. cbn [expand_chain]. destruct Hs as (_ & Hnx & Hs).
  destruct (Hsome a ltac:(set_solver)) as [h Ha]. unfold fld in Hnx. rewrite Ha in Hnx. cbn in Hnx.
  apply wp_bind. eapply wp_hh; [exact Ha|]. rewrite Hnx.
  assert (Hv : 0 <= hashv h) by (specialize (Hh a ltac:(set_solver)); unfold hash_at in Hh; by rewrite Ha in Hh).
  rewrite <- app_comm_cons in Hnd. apply list.NoDup_cons in Hnd as [Hac Hnd]. cbn [app] in Hlen.
  apply (wp_move_one E t lg a m T h nb cs); try done.
  { apply list.NoDup_cons. split; [set_solver|]. by apply list.NoDup_app in Hnd as (_ & _ & ?). }
  { cbn in Hlen |- *. rewrite length_app in Hlen. lia. }
  { intros x Hx. apply Hsome. set_solver. }
  intros es1 T1 nb1 cs1 Hct Hmv. assert (Hct' := Hct). destruct Hct' as [y ->].
  assert (Hpc := mv_perm _ _ _ _ _ _ _ _ Hmv).
  assert (Hoth : forall x, x ∈ c -> es1 !! x = elems m !! x).
  { intros x Hx. apply (mv_other _ _ _ _ _ _ _ _ Hmv); [set_solver|]. intros Hin.
    apply list.NoDup_app in Hnd as (_ & Hd & _). by apply (Hd x). }
  eapply (IH fuel _ (set_ideal (ideal_chain_maxlen T) y T) _ cs1 (Some a));
    cbn [elems tables num_buckets ideal_chain_maxlen set_ideal]; try done.
  - by rewrite lookup_insert_eq.
  - cbn in Hf. lia.
  - apply (seg_same (fld hh_next (elems m)) (fld hh_prev (elems m))); [| |done];
      intros x Hx; unfold fld; by rewrite Hoth.
  - rewrite Hpc. cbn. rewrite <- Permutation_middle. by apply list.NoDup_cons.
  - rewrite Hpc. cbn. rewrite <- Permutation_middle. done.
  - apply Hmv.
  - intros x Hx. eapply erased_some; [apply Hmv|]. apply Hsome. rewrite Hpc in Hx. set_solver.
  - intros x Hx. rewrite (hash_erased (elems m)) by apply Hmv. apply Hh. set_solver.
  - intros es' T' nb' cs' Hc' Hmv'. rewrite insert_insert_eq. apply (HQ es' T' nb' cs'); [exact (counted_trans _ _ _ Hct Hc')|].
    exact (moved_trans _ _ _ _ _ _ _ _ _ _ _ _ Hmv Hmv').
Qed.

Lemma wp_expand_buckets E fuel t lg obs ocs : forall n i m T nb cs (Q : list UT_hash_bucket -> mem -> Prop),
  tables m !! t = Some T -> buckets T = obs -> num_buckets T = 2 ^ lg -> 0 <= lg < 30 -> 0 < ideal_chain_maxlen T ->
  (i + n = length obs)%nat -> length ocs = length obs ->
  (forall j b c, (i <= j)%nat -> obs !! j = Some b -> ocs !! j = Some c ->
     hh_head b = first c None /\ seg (fld hh_next (elems m)) (fld hh_prev (elems m)) None c None) ->
  NoDup (mjoin (drop i ocs) ++ mjoin cs) -> Z.of_nat (length (mjoin (drop i ocs) ++ mjoin cs)) < 2 ^ 32 ->
  (length (mjoin (drop i ocs) ++ mjoin cs) <= fuel)%nat -> chains (elems m) (2 ^ (lg + 1)) nb cs ->
  (forall x, x ∈ mjoin (drop i ocs) ++ mjoin cs -> is_Some (elems m !! x)) ->
  (forall x, x ∈ mjoin (drop i ocs) -> 0 <= hash_at (elems m) x) ->
  (forall es' T' nb' cs', counted T T' -> moved (elems m) es' (2 ^ (lg + 1)) nb cs (mjoin (drop i ocs)) nb' cs' ->
     Q nb' (mkMem es' (<[t := T']> (tables m)))) ->
  wp E (expand_buckets fuel n (Some t) (Z.of_nat i) nb) Q m.
Proof.
  induction n as [|n IH]; intros i m T nb cs Q Ht Hob Hn Hlg Hid Hi Hlo Hold Hnd Hlen Hf Hch Hsome Hh HQ; cbn [expand_buckets].
  { rewrite drop_ge in HQ by lia. assert (HQ' := HQ (elems m) T nb cs (counted_refl T) (moved_refl _ _ _ _ Hch)).
    rewrite insert_id in HQ' by done. destruct m. by apply wp_ret. }
  destruct (lookup_lt_is_Some_2 obs i) as [b Hb]; [lia|]. destruct (lookup_lt_is_Some_2 ocs i) as [c Hc]; [lia|].
  assert (Ej : mjoin (drop i ocs) = c ++ mjoin (drop (S i) ocs)) by (by rewrite (drop_S ocs c i Hc)).
  rewrite Ej in Hnd, Hlen, Hf, Hsome, Hh, HQ.
  rewrite <- app_assoc in Hnd, Hlen, Hf, Hsome. set (R := mjoin (drop (S i) ocs)) in *.
  destruct (Hold i b c ltac:(lia) Hb Hc) as [B1 B2].
  apply wp_bind. eapply wp_bucket; [exact Ht|lia|rewrite Nat2Z.id, Hob; exact Hb|]. rewrite B1.
  apply list.NoDup_app in Hnd as Hnd'. destruct Hnd' as (Hndc & Hdc & Hndr).
  assert (Hle : (length (c ++ mjoin cs) <= length (c ++ R ++ mjoin cs))%nat) by (rewrite !length_app; lia).
  apply wp_bind, (wp_expand_chain E t lg c fuel m T nb cs None); try done; try lia.
  - rewrite !length_app in Hf. lia.
  - apply list.NoDup_app. split; [done|]. split; [set_solver|]. by apply list.NoDup_app in Hndr as (_ & _ & ?).
  - intros x Hx. apply Hsome. set_solver.
  - intros x Hx. apply Hh. set_solver.
  - intros es1 T1 nb1 cs1 Hct Hmv. assert (Hct' := Hct). destruct Hct' as [y E1].
    replace (Z.of_nat i + 1) with (Z.of_nat (S i)) by lia.
    assert (Hp : R ++ mjoin cs1 ≡ₚ c ++ R ++ mjoin cs) by (rewrite (mv_perm _ _ _ _ _ _ _ _ Hmv); solve_Permutation).
    assert (Hoth : forall x, x ∈ R -> es1 !! x = elems m !! x).
    { intros x Hx. apply (mv_other _ _ _ _ _ _ _ _ Hmv); [set_solver|].
      apply list.NoDup_app in Hndr as (_ & Hdr & _). by apply Hdr. }
    apply (IH (S i) _ T1 nb1 cs1); cbn [elems tables]; try (rewrite E1; done); try done.
    + by rewrite lookup_insert_eq.
    + lia.
    + intros j b' c' Hj Hb' Hc'. destruct (Hold j b' c' ltac:(lia) Hb' Hc') as [D1 D2]. split; [done|].
      assert (HR : forall x, x ∈ c' -> x ∈ R).
      { intros x Hx. apply list_elem_of_join. exists c'. split; [done|]. apply (list_elem_of_lookup_2 _ (j - S i)).
        rewrite lookup_drop. by replace (S i + (j - S i))%nat with j by lia. }
      apply (seg_same (fld hh_next (elems m)) (fld hh_prev (elems m))); [| |done];
        intros x Hx; unfold fld; by rewrite Hoth by auto.
    + fold R. by rewrite Hp.
    + fold R. by rewrite Hp.
    + fold R. by rewrite Hp.
    + apply Hmv.
    + fold R. intros x Hx. rewrite Hp in Hx. eapply erased_some; [apply Hmv|]. by apply Hsome.
    + fold R. intros x Hx. rewrite (hash_erased (elems m)) by apply Hmv. apply Hh. set_solver.
    + fold R. intros es' T' nb' cs' Hc' Hmv'. rewrite insert_insert_eq. apply (HQ es' T' nb' cs').
      * exact (counted_trans _ _ _ Hct Hc').
      * exact (moved_trans _ _ _ _ _ _ _ _ _ _ _ _ Hmv Hmv').
Qed.

(** The allocator cannot give 16 GiB at once. *)
Definition limited (oom : mem -> Z -> bool) : Prop := forall m sz, 2 ^ 34 <= sz -> oom m sz = true.

(** A refused request may end the process as [E] says, and a table of 2^lg buckets, when it
    is doubled, asks for less than 16 GiB or for more than the allocator has. *)
Definition exits (E : crash -> Prop) (oom : mem -> Z -> bool) (lg : Z) : Prop :=
  (forall m sz, oom m sz = true -> sz < 2 ^ 34 -> E ProcessExit) /\ (lg < 29 \/ limited oom /\ E ProcessExit).

Lemma wp_malloc F oom sz m (Q : unit -> mem -> Prop) :
  (oom m sz = true -> F ProcessExit) -> (oom m sz = false -> Q tt m) -> wp F (uthash_malloc oom sz) Q m.
Proof. intros HE HQ. unfold wp, uthash_malloc. destruct (oom m sz); auto. Qed.

Lemma exits_small E oom lg m sz : exits E oom lg -> sz < 2 ^ 34 -> oom m sz = true -> E ProcessExit.
Proof. intros [H _] Hs Ho. by eapply H. Qed.

(** The ideal length of a chain is positive, so that the division by it is defined. *)
Lemma ideal_pos len lg : 0 < len < 2 ^ 32 -> 0 <= lg < 30 ->
  0 < u32 (Z.shiftr len (lg + 1) + (if Z.land len (u32 (2 ^ lg * 2 - 1)) =? 0 then 0 else 1)).
Proof.
  intros Hl Hlg. assert (E2 : 2 ^ (lg + 1) = 2 * 2 ^ lg) by (rewrite Z.pow_add_r by lia; lia).
  assert (Hp2 : 2 ^ 0 <= 2 ^ lg <= 2 ^ 29) by (split; apply Z.pow_le_mono_r; lia).
  replace (2 ^ lg * 2 - 1) with (Z.ones (lg + 1)) by (rewrite Z.ones_equiv, E2; lia).
  rewrite (u32_small (Z.ones _)) by (rewrite Z.ones_equiv; lia). rewrite Z.shiftr_div_pow2, Z.land_ones by lia.
  assert (Hdm := Z.div_mod len (2 ^ (lg + 1)) ltac:(lia)). assert (Hm := Z.mod_pos_bound len (2 ^ (lg + 1)) ltac:(lia)).
  assert (Hd : 0 <= len / 2 ^ (lg + 1)) by (apply Z.div_pos; lia).
  assert (Hd' : len / 2 ^ (lg + 1) < 2 ^ 31) by (apply Z.div_lt_upper_bound; lia).
  destruct (Z.eqb_spec (len mod 2 ^ (lg + 1)) 0); rewrite u32_small by lia; nia.
Qed.

(** The expansion of a table whose chains are in order. *)
Lemma wp_expand F oom fuel m t T l cs (Q : unit -> mem -> Prop) :
  exits F oom (log2_num_buckets T) -> tables m !! t = Some T -> num_buckets T = 2 ^ log2_num_buckets T ->
  5 <= log2_num_buckets T < 30 -> 0 < num_items T < 2 ^ 32 -> mjoin cs ≡ₚ l -> NoDup l ->
  Z.of_nat (length l) < 2 ^ 32 -> (length l <= fuel)%nat -> chains (elems m) (num_buckets T) (buckets T) cs ->
  (forall x, x ∈ l -> is_Some (elems m !! x)) -> (forall x, x ∈ l -> 0 <= hash_at (elems m) x) ->
  (forall es' T' cs', num_buckets T' = 2 ^ log2_num_buckets T' -> 5 <= log2_num_buckets T' < 30 ->
     num_items T' = num_items T -> tail T' = tail T -> mjoin cs' ≡ₚ l -> chains es' (num_buckets T') (buckets T') cs' ->
     no_chain <$> es' = no_chain <$> elems m -> Q tt (mkMem es' (<[t := T']> (tables m)))) ->
  wp F (HASH_EXPAND_BUCKETS oom fuel (Some t)) Q m.
Proof.
  intros Hoom Ht Hn Hlg Hlen' Hp Hnd Hlen Hf Hch Hsome Hh HQ. unfold HASH_EXPAND_BUCKETS.
  apply wp_bind. eapply wp_table; [exact Ht|]. set (lg := log2_num_buckets T) in *.
  assert (E2 : 2 ^ (lg + 1) = 2 * 2 ^ lg) by (rewrite Z.pow_add_r by lia; lia).
  assert (Hp2 : 2 ^ 5 <= 2 ^ lg <= 2 ^ 29) by (split; apply Z.pow_le_mono_r; lia).
  rewrite Hn, u32_small by lia. rewrite <- E2. apply wp_bind, wp_malloc.
  { intros Eo. destruct (proj2 Hoom) as [Hs|[_ HE]]; [|done]. eapply (exits_small F oom); [exact Hoom| |exact Eo].
    unfold sizeof_bucket. assert (2 ^ (lg + 1) <= 2 ^ 29) by (apply Z.pow_le_mono_r; fold lg in Hs; lia). lia. }
  intros Eo. assert (Hlg' : lg < 29).
  { destruct (proj2 Hoom) as [Hs|[Hli _]]; [done|]. destruct (Z.lt_ge_cases lg 29) as [|Hge]; [done|]. rewrite Hli in Eo; [done|].
    unfold sizeof_bucket. assert (2 ^ 30 <= 2 ^ (lg + 1)) by (apply Z.pow_le_mono_r; lia). lia. }
  assert (Hid := ideal_pos (num_items T) lg Hlen' ltac:(lia)). set (ideal := u32 _) in Hid |- *.
  apply wp_bind. eapply wp_upd_table; [exact Ht|].
  set (n2 := 2 ^ (lg + 1)) in *. set (T1 := set_ideal ideal 0 T).
  assert (Hnil : mjoin (replicate (Z.to_nat n2) ([] : list positive)) = []) by (induction (Z.to_nat n2); done).
  destruct Hch as (L1 & L2 & Hc). apply wp_bind.
  apply (wp_expand_buckets _ fuel t lg (buckets T) cs _ 0 _ T1 _ (replicate (Z.to_nat n2) [])); cbn [elems tables]; try done.
  - by rewrite lookup_insert_eq.
  - lia.
  - cbn. lia.
  - lia.
  - intros j b c _ Hb Hcj. destruct (Hc j b c Hb Hcj) as (B1 & _ & B3 & _). done.
  - rewrite Hnil, app_nil_r. cbn. by rewrite Hp.
  - rewrite Hnil, app_nil_r. cbn. by rewrite Hp.
  - rewrite Hnil, app_nil_r. cbn. by rewrite Hp.
  - split; [apply length_replicate|]. split; [apply length_replicate|].
    intros i b c [-> _]%lookup_replicate [-> _]%lookup_replicate. split_and!; try done. set_solver.
  - rewrite Hnil, app_nil_r. cbn. intros x Hx. rewrite Hp in Hx. auto.
  - cbn. intros x Hx. rewrite Hp in Hx. auto.
  - intros es' T' nb' cs' [y ->] Hmv. rewrite insert_insert_eq. destruct Hmv as [M1 M2 M3 _].
    rewrite Hnil, app_nil_r in M2. cbn [drop] in M2. rewrite Hp in M2.
    apply wp_bind. eapply wp_upd_table; [apply lookup_insert_eq|]. apply wp_bind. eapply wp_upd_table; [apply lookup_insert_eq|].
    eapply wp_upd_table; [apply lookup_insert_eq|]. cbn [elems tables]. rewrite !insert_insert_eq.
    assert (El : u32 (lg + 1) = lg + 1) by (apply u32_small; lia).
    assert (En : u32 (2 ^ lg * 2) = n2) by (rewrite u32_small; lia).
    apply (HQ es' _ cs'); 
      (match goal with |- context [1 <? ?x] => destruct (1 <? x) | _ => idtac end); cbn; fold lg;
      rewrite ?El, ?Hn, ?En; done || lia.
Qed.

End Expand.

(** ** Adding *)

Section Add.
Import Uthash.
Implicit Types (es : gmap positive UT_hash_handle) (m : mem) (l c : list positive) (cs : list (list positive)).

Lemma elem_ok_erased es es' t a : no_chain <$> es' = no_chain <$> es -> elem_ok es t a -> elem_ok es' t a.
Proof.
  intros He (h & E & H1 & H2 & H3 & H4). destruct (erased_lookup no_chain es es' a h He E) as (h' & E' & Eh).
  injection Eh as T1 T2 T3 T4 T5 T6. exists h'. rewrite T1, T4, T5, T6. done.
Qed.

Lemma key_erased es es' x : no_chain <$> es' = no_chain <$> es -> key <$> es' !! x = key <$> es !! x.
Proof.
  intros He. assert (E : (no_chain <$> es') !! x = (no_chain <$> es) !! x) by (by rewrite He).
  rewrite !lookup_fmap in E. destruct (es' !! x), (es !! x); try done. injection E as _ _ _ E _ _. cbn. by rewrite E.
Qed.

Lemma app_rep_erased es es' t l : no_chain <$> es' = no_chain <$> es -> app_rep es t l -> app_rep es' t l.
Proof.
  intros He (H1 & H2 & H3). split; [intros a Ha; by eapply elem_ok_erased, H1|]. split; [done|].
  apply (seg_same (fld next es) (fld prev es)); [| |done]; intros a _; by apply (erased_fld no_chain).
Qed.

Lemma no_app_eq (x y : option UT_hash_handle) : no_app <$> x = no_app <$> y ->
  x ≫= hh_next = y ≫= hh_next /\ x ≫= hh_prev = y ≫= hh_prev /\
  match x with Some h => hashv h | None => 0 end = match y with Some h => hashv h | None => 0 end.
Proof. destruct x as [hx|], y as [hy|]; try done. intros [= H1 H2 H3 H4 H5 H6]. cbn. by rewrite H2, H3, H6. Qed.

(** The chains depend on the handles of their elements only, and not on the links in the
    order of insertion. *)
Lemma chains_same es es' n bs cs :
  (forall x, x ∈ mjoin cs -> no_app <$> es' !! x = no_app <$> es !! x) -> chains es n bs cs -> chains es' n bs cs.
Proof.
  intros He (L1 & L2 & Hch). split; [done|]. split; [done|]. intros i b c Hb Hc.
  destruct (Hch i b c Hb Hc) as (B1 & B2 & B3 & B4).
  assert (Hx : forall x, x ∈ c -> no_app <$> es' !! x = no_app <$> es !! x) by (intros x Hx; by eapply He, join_elem).
  split_and!; [done|done| |].
  - apply (seg_same (fld hh_next es) (fld hh_prev es)); [| |done]; intros x E%Hx; apply (no_app_eq _ _ E).
  - intros x Hc'. rewrite <- (B4 x Hc'). unfold hash_at. by rewrite (proj2 (proj2 (no_app_eq _ _ (Hx x Hc')))).
Qed.

Lemma wp_add_to_bkt F oom fuel m t T l cs a h (Q : unit -> mem -> Prop) :
  exits F oom (log2_num_buckets T) -> tables m !! t = Some T -> num_buckets T = 2 ^ log2_num_buckets T ->
  5 <= log2_num_buckets T < 30 -> (0 < num_items T < 2 ^ 32 \/ forall b, b ∈ buckets T -> b = empty_bucket) ->
  mjoin cs ≡ₚ l -> NoDup (a :: l) ->
  Z.of_nat (length (a :: l)) < 2 ^ 32 -> (length (a :: l) <= fuel)%nat ->
  chains (elems m) (num_buckets T) (buckets T) cs -> elems m !! a = Some h -> tbl h = Some t ->
  (forall x, x ∈ a :: l -> is_Some (elems m !! x)) -> (forall x, x ∈ a :: l -> 0 <= hash_at (elems m) x) ->
  (forall es' T' cs', num_buckets T' = 2 ^ log2_num_buckets T' -> 5 <= log2_num_buckets T' < 30 ->
     num_items T' = num_items T -> tail T' = tail T -> mjoin cs' ≡ₚ a :: l -> chains es' (num_buckets T') (buckets T') cs' ->
     no_chain <$> es' = no_chain <$> elems m -> Q tt (mkMem es' (<[t := T']> (tables m)))) ->
  wp F (HASH_ADD_TO_BKT oom fuel (Some t) (hashv h mod num_buckets T) (Some a)) Q m.
Proof.
  intros Hoom Ht Hn Hlg Hni Hp Hnd Hlen Hf Hch Ha Hta Hsome Hh HQ. apply list.NoDup_cons in Hnd as Hnd'. destruct Hnd' as [Hal Hndl].
  assert (Hpos : 0 < num_buckets T) by (rewrite Hn; apply Z.pow_pos_nonneg; lia).
  assert (Hm := Z.mod_pos_bound (hashv h) (num_buckets T) Hpos). set (i := hashv h mod num_buckets T) in *.
  assert (Hch' := Hch). destruct Hch' as (L1 & L2 & Hc). destruct (lookup_lt_is_Some_2 (buckets T) (Z.to_nat i)) as [b Hb]; [lia|].
  destruct (lookup_lt_is_Some_2 cs (Z.to_nat i)) as [c Hcc]; [lia|]. destruct (Hc _ b c Hb Hcc) as (B1 & B2 & _).
  assert (Hcl : (length c <= length l)%nat).
  { destruct (join_insert cs _ c Hcc) as (rest & Hpr & _). rewrite <- Hp, Hpr, length_app. lia. }
  unfold HASH_ADD_TO_BKT. apply wp_bind. eapply wp_upd_bucket; [exact Ht|lia|exact Hb|]. set (T1 := set_buckets _ T).
  apply wp_bind. eapply wp_bucket; [apply lookup_insert_eq|lia|apply list_lookup_insert_eq; lia|].
  cbn [hh_head]. rewrite B1. apply wp_push'; [by rewrite Ha|..].
  { intros y Hy. apply Hsome, elem_of_cons. right. rewrite <- Hp. by eapply join_elem. }
  apply wp_bind. eapply wp_upd_bucket; [apply lookup_insert_eq|lia|apply list_lookup_insert_eq; lia|].
  cbn [elems tables]. rewrite insert_insert_eq. unfold T1. cbn [buckets set_buckets count expand_mult].
  match goal with |- context [set_buckets ?x (set_buckets ?y T)] =>
    change (set_buckets x (set_buckets y T)) with (set_buckets x T) end.
  rewrite list_insert_insert_eq, B2, u32_small by (cbn in Hlen; lia).
  replace (Z.of_nat (length c) + 1) with (Z.of_nat (length (a :: c))) by (cbn; lia).
  assert (Hmv := moved_push (elems m) (num_buckets T) (buckets T) cs (Z.to_nat i) b c a (expand_mult b) Hch Hb Hcc).
  destruct Hmv as [M1 M2 M3 _]; [by rewrite Hp|by rewrite Hp|by rewrite Ha| | |].
  { intros x Hx. apply Hsome, elem_of_cons. right. by rewrite <- Hp. }
  { unfold hash_at. rewrite Ha. fold i. lia. }
  set (T2 := set_buckets _ T). set (es1 := push (elems m) a c) in *. cbn [app] in M2. rewrite Hp in M2.
  destruct (erased_lookup no_chain _ es1 a h M3 Ha) as (h1 & Ea1 & Eh). injection Eh as Et _ _ _ _ _.
  apply wp_bind. eapply wp_bucket; [apply lookup_insert_eq|lia|apply list_lookup_insert_eq; lia|].
  apply wp_bind. eapply wp_tbl_of; [exact Ea1|]. rewrite Et, Hta. apply wp_bind. eapply wp_table; [apply lookup_insert_eq|].
  destruct (_ && _) eqn:Ex.
  - apply (wp_expand F oom fuel _ t T2 (a :: l) (<[Z.to_nat i := a :: c]> cs)); try done; cbn [elems tables].
    + apply lookup_insert_eq.
    + destruct Hni as [Hni|Hni]; [done|]. exfalso. assert (Eb := Hni b ltac:(by eapply list_elem_of_lookup_2)).
      rewrite Eb in B2, Ex. cbn in B2. destruct c; [|cbn in B2; lia]. done.
    + intros x Hx. eapply erased_some; [exact M3|]. auto.
    + intros x Hx. rewrite (hash_erased (elems m)) by done. auto.
    + intros es' T' cs' H1 H2 H3 H4 H5 H6 H7. rewrite insert_insert_eq.
      apply (HQ es' T' cs'); try done. by rewrite H7.
  - apply wp_ret. by apply (HQ es1 T2 (<[Z.to_nat i := a :: c]> cs)).
Qed.

(** The last part of HASH_ADD, after the element [a] has been linked at the end of the
    list [l], in the order of insertion. *)
Lemma wp_add_tail F oom fuel m t T l cs a ha hd h0 k (Q : option positive -> mem -> Prop) :
  exits F oom (log2_num_buckets T) -> tables m !! t = Some T -> num_buckets T = 2 ^ log2_num_buckets T -> 5 <= log2_num_buckets T < 30 ->
  num_items T = Z.of_nat (length l) -> tail T = Some a -> mjoin cs ≡ₚ l -> NoDup (l ++ [a]) ->
  Z.of_nat (length l) + 1 < 2 ^ 32 -> (length l < fuel)%nat -> chains (elems m) (num_buckets T) (buckets T) cs ->
  (forall x, x ∈ l -> elem_ok (elems m) t x) -> seg (fld next (elems m)) (fld prev (elems m)) None (l ++ [a]) None ->
  elems m !! a = Some ha -> key ha = k -> keylen ha = Z.of_nat (length k) -> Z.of_nat (length k) < 2 ^ 32 ->
  (length k <= fuel)%nat -> elems m !! hd = Some h0 -> tbl h0 = Some t ->
  (forall m' T' cs', rep_at m' t T' (l ++ [a]) cs' -> (forall x, key <$> elems m' !! x = key <$> elems m !! x) ->
     Q (Some hd) m') ->
  wp F (t ← tbl_of (Some hd); _ ← upd_table t (fun T => set_num_items (u32 (num_items T + 1)) T);
    _ ← upd_hh (Some a) (set_tbl t); T ← table t; '(v, bkt) ← lift (HASH_JEN fuel k (Z.of_nat (length k)) (num_buckets T));
    _ ← upd_hh (Some a) (set_hashv v); _ ← HASH_ADD_TO_BKT oom fuel t bkt (Some a); mret (Some hd)) Q m.
Proof.
  intros Hoom Ht Hn Hlg Hni Htl Hp Hnd Hlen Hf Hch He Hs Ha Hk Hkl Hks Hkf Hd Htd HQ.
  apply wp_bind. eapply wp_tbl_of; [exact Hd|]. rewrite Htd. apply wp_bind. eapply wp_upd_table; [exact Ht|].
  rewrite Hni, u32_small by lia. set (T1 := set_num_items _ T). apply wp_bind, wp_upd_hh; [cbn; by rewrite Ha|].
  apply wp_bind. eapply wp_table; [apply lookup_insert_eq|]. destruct (jen_ok k Hks) as [Hv Ej].
  apply wp_bind, wp_lift. rewrite Ej by done. apply wp_bind, wp_upd_hh; [cbn; by rewrite lookup_alter_eq, Ha|].
  cbn [elems tables]. rewrite alter_twice. set (es1 := alter _ a (elems m)).
  set (h1 := set_hashv (jen_hash k) (set_tbl (Some t) ha)).
  assert (Ea1 : es1 !! a = Some h1) by (unfold es1; by rewrite lookup_alter_eq, Ha).
  assert (Hal : a ∉ l) by (apply list.NoDup_app in Hnd as (_ & Hd' & _); set_solver).
  assert (Eo : forall x, x <> a -> es1 !! x = elems m !! x) by (intros x Hx; unfold es1; by rewrite lookup_alter_ne by congruence).
  assert (Hk1 : forall x, key <$> es1 !! x = key <$> elems m !! x).
  { intros x. destruct (decide (x = a)) as [->|]; [rewrite Ea1, Ha; done|by rewrite Eo]. }
  assert (He1 : forall x, x ∈ l ++ [a] -> elem_ok es1 t x).
  { intros x Hx. apply elem_of_app in Hx as [Hx|Hx]; [|apply list_elem_of_singleton in Hx as ->; exists h1; cbn; rewrite Hk; by split_and!].
    unfold elem_ok. rewrite Eo by (intros ->; done). by apply He. }
  assert (Hh : forall x, x ∈ a :: l -> is_Some (es1 !! x) /\ 0 <= hash_at es1 x).
  { intros x Hx. destruct (He1 x) as (h & E & _ & _ & Hl & Hh); [set_solver|]. split; [by rewrite E|].
    unfold hash_at. rewrite E, Hh. by apply jen_ok. }
  assert (Happ : app_rep es1 t (l ++ [a])).
  { split; [done|]. split; [done|]. apply (seg_same (fld next (elems m)) (fld prev (elems m))); [| |done];
      intros x Hx; unfold es1; rewrite fld_alter by (by rewrite Ha); destruct (decide (x = a)) as [->|]; try done;
      unfold fld; by rewrite Ha. }
  assert (Eb : HASH_TO_BKT (jen_hash k) (num_buckets T1) = hashv h1 mod num_buckets T1)
    by (cbn; rewrite Hn; apply to_bkt; lia). rewrite Eb.
  assert (Hpa : a :: l ≡ₚ l ++ [a]) by apply Permutation_cons_append. apply wp_bind.
  apply (wp_add_to_bkt F oom fuel _ t T1 l cs a h1); try done; cbn [elems tables]; try (cbn; lia).
  - apply lookup_insert_eq.
  - by rewrite Hpa.
  - apply (chains_same (elems m)); [|done]. intros x Hx. rewrite Hp in Hx. rewrite Eo; [done|]. by intros ->.
  - intros x Hx. by apply Hh.
  - intros x Hx. by apply Hh.
  - intros es' T' cs' H1 H2 H3 H4 H5 H6 H7. apply wp_ret, (HQ _ T' cs').
    + rewrite insert_insert_eq. split; cbn [elems tables]; try done.
      * apply lookup_insert_eq.
      * by eapply app_rep_erased.
      * rewrite H4, final_app. done.
      * rewrite H3, length_app. cbn. lia.
      * rewrite length_app. cbn. lia.
      * by rewrite H5.
    + cbn [elems]. intros x. rewrite <- Hk1. by apply key_erased.
Qed.

Lemma contents_size es l M :
  NoDup l -> (forall a, a ∈ l -> is_Some (es !! a)) -> contents es l M -> size M = length l.
Proof.
  intros Hnd Hs Hc. unfold contents in Hc. set (kv := fun a => (match es !! a with Some h => key h | None => [] end, a)).
  assert (Hp : map_to_list M ≡ₚ kv <$> l).
  { apply list.NoDup_Permutation; [apply NoDup_map_to_list|apply NoDup_fmap_2; [|done]; by intros x y [= _ ->]|].
    intros [k a]. rewrite elem_of_map_to_list, Hc, list_elem_of_fmap. unfold kv. split.
    - intros [Ha Hk]. exists a. destruct (es !! a); [|done]. injection Hk as ->. done.
    - intros (b & [= -> ->] & Hb). split; [done|]. by destruct (Hs b Hb) as [h ->]. }
  rewrite <- (length_map_to_list M), Hp. apply length_fmap.
Qed.

(** The contents after [a] was added with a new key. *)
Lemma contents_add es es' l M k a :
  contents es l M -> a ∉ l -> M !! k = None -> (forall x, x <> a -> key <$> es' !! x = key <$> es !! x) ->
  key <$> es' !! a = Some k -> contents es' (l ++ [a]) (<[k := a]> M).
Proof.
  intros Hc Ha Hk He Hka k' x. unfold contents in Hc. rewrite lookup_insert_Some, Hc, elem_of_app, list_elem_of_singleton. split.
  - intros [[<- <-]|[Hne [Hx Hkx]]]; [by split; [right|]|]. split; [by left|]. rewrite He; [done|]. by intros ->.
  - intros [[Hx| ->] Hkx]; [|left; split; congruence]. right. rewrite He in Hkx by (by intros ->). split; [|done].
    intros ->. assert (M !! k' = Some x) by (by apply Hc). congruence.
Qed.

Definition same_dom m m' : Prop := forall x, is_Some (elems m' !! x) <-> is_Some (elems m !! x).

Lemma some_key (x : option UT_hash_handle) : is_Some x <-> is_Some (key <$> x).
Proof. by rewrite fmap_is_Some. Qed.

(** The first element makes the table. *)
Lemma wp_add_first F oom fuel m k a (Q : option positive -> mem -> Prop) :
  exits F oom 5 -> is_Some (elems m !! a) -> Z.of_nat (length k) < 2 ^ 32 -> (length k <= fuel)%nat -> (0 < fuel)%nat ->
  (forall m', represents m' (Some a) {[ k := a ]} -> same_dom m m' -> Q (Some a) m') ->
  wp F (HASH_ADD_KEYPTR oom fuel None k (Z.of_nat (length k)) (Some a)) Q m.
Proof.
  intros Hoom Ha Hk Hkf Hf HQ. unfold HASH_ADD_KEYPTR. destruct Ha as [h Ha].
  apply wp_bind, wp_upd_hh; [by rewrite Ha|]. apply wp_bind, wp_upd_hh; [cbn; by rewrite lookup_alter_eq, Ha|].
  cbn [elems tables]. rewrite alter_twice. apply wp_bind, wp_bind, wp_upd_hh; [cbn; by rewrite lookup_alter_eq, Ha|].
  cbn [elems tables]. rewrite alter_twice. unfold HASH_MAKE_TABLE.
  apply wp_bind, wp_bind, wp_malloc; [by apply (exits_small F oom 5)|]. intros _. apply wp_bind. eapply wp_Ret; [reflexivity|]. cbn [elems tables].
  set (t := fresh (dom (tables m))). apply wp_bind. eapply wp_Ret; [reflexivity|].
  apply wp_bind, wp_upd_hh; [cbn; by rewrite lookup_alter_eq, Ha|]. cbn [elems tables]. rewrite alter_twice.
  apply wp_bind. eapply wp_upd_table; [apply lookup_insert_eq|]. apply wp_bind. eapply wp_upd_table; [apply lookup_insert_eq|].
  apply wp_bind, wp_malloc; [by apply (exits_small F oom 5)|]. intros _. apply wp_bind. eapply wp_upd_table; [apply lookup_insert_eq|].
  eapply wp_upd_table; [apply lookup_insert_eq|]. apply wp_ret. cbn [elems tables]. rewrite !insert_insert_eq.
  set (es1 := alter _ a (elems m)). set (T1 := mkTable _ _ _ _ _ _ _ _ _ _).
  set (h1 := mkHandle (Some t) None None (hh_prev h) (hh_next h) k (Z.of_nat (length k)) (hashv h)).
  assert (Ea : es1 !! a = Some h1) by (unfold es1; rewrite lookup_alter_eq, Ha; done).
  assert (Eo : forall x, x <> a -> es1 !! x = elems m !! x) by (intros x Hx; unfold es1; by rewrite lookup_alter_ne by congruence).
  eapply (wp_add_tail F oom fuel _ t T1 [] (replicate 32 []) a h1 a h1); cbn [elems tables]; try done; try (cbn; lia).
  - apply lookup_insert_eq.
  - apply NoDup_singleton.
  - split; [done|]. split; [done|]. intros i b c [-> _]%lookup_replicate [-> _]%lookup_replicate. split_and!; try done. set_solver.
  - set_solver.
  - cbn. unfold fld. by rewrite Ea.
  - intros m' T' cs' Hr Hkey. apply HQ.
    + right. exists t, T', [a], cs'. split_and!; try done. cbn [app] in *.
      rewrite <- insert_empty. apply (contents_add es1 (elems m') []); try done.
      * intros k' x. rewrite lookup_empty. split; [done|]. intros [?%elem_of_nil _]; done.
      * set_solver.
      * by rewrite Hkey, Ea.
    + intros x. rewrite some_key, Hkey, <- some_key. destruct (decide (x = a)) as [->|]; [by rewrite Ea, Ha|by rewrite Eo].
Qed.

(** A further element goes to the end of the list. *)
Lemma wp_add_more F oom fuel m t T l cs M k a (Q : option positive -> mem -> Prop) :
  exits F oom (log2_num_buckets T) -> rep_at m t T l cs -> contents (elems m) l M -> l <> [] -> a ∉ l -> M !! k = None ->
  is_Some (elems m !! a) -> Z.of_nat (length k) < 2 ^ 32 -> (length k <= fuel)%nat -> (length l < fuel)%nat ->
  Z.of_nat (length l) + 1 < 2 ^ 32 ->
  (forall m', represents m' (first l None) (<[k := a]> M) -> same_dom m m' -> Q (first l None) m') ->
  wp F (HASH_ADD_KEYPTR oom fuel (first l None) k (Z.of_nat (length k)) (Some a)) Q m.
Proof.
  intros Hoom R Hc Hl Hal HM [h Ha] Hk Hkf Hf Hlen HQ. assert (R' := R). destruct R' as [R1 (R2a & R2b & R2c) R3 R4 R5 R6 R7 R8 R9].
  destruct (first_in l None) as [[_ ?]|(hd & Ehd & Hhd)]; [done|]. destruct (final_in None l) as [[_ ?]|(z & Ez & Hz)]; [done|].
  destruct (R2a hd Hhd) as (hh0 & Eh0 & Th0 & _). destruct (R2a z Hz) as (hz & Ehz & _). rewrite Ehd in HQ |- *.
  assert (Hne : forall x, x ∈ l -> x <> a) by (intros x Hx ->; done). assert (Hda := Hne hd Hhd). assert (Hza := Hne z Hz).
  unfold HASH_ADD_KEYPTR. apply wp_bind, wp_upd_hh; [by rewrite Ha|].
  apply wp_bind, wp_upd_hh; [cbn; by rewrite lookup_alter_eq, Ha|]. cbn [elems tables]. rewrite alter_twice.
  apply wp_bind, wp_bind, wp_bind. eapply wp_tbl_of; [cbn; rewrite lookup_alter_ne by done; exact Eh0|].
  rewrite Th0. eapply wp_table; [exact R1|]. rewrite R3, Ez. apply wp_bind, wp_upd_hh.
  { cbn. rewrite lookup_alter_ne by done. by rewrite Ehz. }
  apply wp_bind, wp_upd_hh. { cbn. rewrite lookup_alter_ne, lookup_alter_eq, Ha by done. done. }
  cbn [elems tables]. set (es1 := alter _ a _).
  set (h1 := mkHandle (tbl h) (Some z) None (hh_prev h) (hh_next h) k (Z.of_nat (length k)) (hashv h)).
  assert (Ea : es1 !! a = Some h1) by (unfold es1; rewrite lookup_alter_eq, lookup_alter_ne, lookup_alter_eq, Ha by done; done).
  assert (Ezz : es1 !! z = Some (set_next (Some a) hz))
    by (unfold es1; rewrite lookup_alter_ne, lookup_alter_eq, lookup_alter_ne, Ehz by done; done).
  assert (Eo : forall x, x <> a -> x <> z -> es1 !! x = elems m !! x)
    by (intros x Hx Hxz; unfold es1; by rewrite !lookup_alter_ne by congruence).
  assert (Ek : forall x, x <> a -> key <$> es1 !! x = key <$> elems m !! x).
  { intros x Hx. destruct (decide (x = z)) as [->|]; [by rewrite Ezz, Ehz|by rewrite Eo]. }
  assert (En : no_app <$> es1 !! z = no_app <$> elems m !! z) by (by rewrite Ezz, Ehz).
  assert (Ehd1 : exists hh1, es1 !! hd = Some hh1 /\ tbl hh1 = Some t).
  { destruct (decide (hd = z)) as [->|]; [|rewrite Eo by done; by exists hh0]. eexists. split; [exact Ezz|].
    cbn. congruence. }
  destruct Ehd1 as (hh1 & Eh1 & Th1). apply wp_bind. eapply wp_tbl_of; [exact Eh1|]. rewrite Th1.
  apply wp_bind. eapply wp_upd_table; [exact R1|]. apply wp_ret. cbn [elems tables].
  eapply (wp_add_tail F oom fuel _ t (set_tail (Some a) T) l cs a h1 hd hh1); cbn [elems tables]; try done.
  - apply lookup_insert_eq.
  - apply list.NoDup_app. split_and!; [done|set_solver|apply NoDup_singleton].
  - apply (chains_same (elems m)); [|done]. intros x Hx. rewrite R9 in Hx.
    destruct (decide (x = z)) as [->|]; [done|]. rewrite Eo; auto.
  - intros x Hx. destruct (R2a x Hx) as (hx & Ex & H1 & H2 & H3 & H4). unfold elem_ok.
    destruct (decide (x = z)) as [->|]; [|rewrite Eo by auto; by exists hx]. exists (set_next (Some a) hz). cbn.
    by simplify_eq.
  - apply seg_app. cbn. rewrite Ez. split; [|unfold fld; rewrite Ea; done].
    apply (seg_next (fld next (elems m)) _ _ None l None); [done| |].
    + intros x Hx. rewrite Ez. unfold fld. destruct (decide (Some x = Some z)) as [[= ->]|]; [by rewrite Ezz|].
      rewrite Eo by (auto || congruence). done.
    + apply (seg_same (fld next (elems m)) (fld prev (elems m))); [done| |done]. intros x Hx. unfold fld.
      destruct (decide (x = z)) as [->|]; [by rewrite Ezz, Ehz|by rewrite Eo by auto].
  - intros m' T' cs' Hr Hkey. apply HQ.
    + right. exists t, T', (l ++ [a]), cs'. split; [by rewrite first_app; destruct l|]. split; [by destruct l|]. split; [done|].
      apply (contents_add (elems m) (elems m') l); try done; [intros x Hx; by rewrite Hkey, Ek|by rewrite Hkey, Ea].
    + intros x. rewrite some_key, Hkey. destruct (decide (x = a)) as [->|]; [by rewrite Ea, Ha|by rewrite Ek, <- some_key].
Qed.

End Add.

(** ** Taking an element out of a chain *)

Section Unlink.
Import Uthash.
Implicit Types (es : gmap positive UT_hash_handle) (l k : list positive) (p n : option positive).

(** Either kind of links: its two members and the assignments to them. *)
Variables (nx pv : UT_hash_handle -> option positive) (sn sp : option positive -> UT_hash_handle -> UT_hash_handle).
Variable e : UT_hash_handle -> UT_hash_handle.
Hypotheses (nx_sn : forall v h, nx (sn v h) = v) (pv_sp : forall v h, pv (sp v h) = v)
  (nx_sp : forall v h, nx (sp v h) = nx h) (pv_sn : forall v h, pv (sn v h) = pv h)
  (e_sn : forall v h, e (sn v h) = e h) (e_sp : forall v h, e (sp v h) = e h).

Definition set_at (s : option positive -> UT_hash_handle -> UT_hash_handle) p v es :=
  match p with Some x => alter (s v) x es | None => es end.

(** The neighbours [p] and [n] of an element are linked to each other. *)
Definition unlink p n es := set_at sp n p (set_at sn p n es).

Lemma set_at_erased s p v es : (forall w h, e (s w h) = e h) -> e <$> set_at s p v es = e <$> es.
Proof. intros He. destruct p; [apply alter_erased; auto|done]. Qed.

Lemma unlink_erased p n es : e <$> unlink p n es = e <$> es.
Proof. unfold unlink. by rewrite !set_at_erased by auto. Qed.

Lemma set_at_fld f s p v es x : (forall y, p = Some y -> is_Some (es !! y)) ->
  fld f (set_at s p v es) x = if decide (Some x = p) then es !! x ≫= (fun h => f (s v h)) else fld f es x.
Proof.
  destruct p as [y|]; cbn; intros Hs; [|by rewrite decide_False]. rewrite fld_alter by auto.
  destruct (decide (x = y)) as [->|]; [by rewrite decide_True|by rewrite decide_False by congruence].
Qed.

Lemma set_at_some s p v es x : is_Some (set_at s p v es !! x) <-> is_Some (es !! x).
Proof.
  destruct p as [y|]; cbn; [|done]. destruct (decide (x = y)) as [->|]; [by rewrite lookup_alter_eq, fmap_is_Some|].
  by rewrite lookup_alter_ne by congruence.
Qed.

Lemma set_at_other s p v es x : Some x <> p -> set_at s p v es !! x = es !! x.
Proof. destruct p as [y|]; cbn; [|done]. intros Hne. by rewrite lookup_alter_ne by congruence. Qed.

Section In.
Variables (es : gmap positive UT_hash_handle) (l k : list positive) (a : positive).
Hypotheses (Hs : forall x, x ∈ l ++ a :: k -> is_Some (es !! x)) (Hnd : NoDup (l ++ a :: k)).
#[local] Abbreviation p := (final None l).
#[local] Abbreviation n := (first k None).

Lemma p_in x : p = Some x -> x ∈ l /\ is_Some (es !! x).
Proof.
  intros E. destruct (final_in None l) as [[E' _]|(y & E' & Hy)]; [congruence|].
  rewrite E in E'. injection E' as ->. split; [exact Hy|]. apply Hs, elem_of_app. by left.
Qed.

Lemma n_in x : n = Some x -> x ∈ k /\ is_Some (es !! x).
Proof.
  intros E. destruct (first_in k None) as [[E' _]|(y & E' & Hy)]; [congruence|].
  rewrite E in E'. injection E' as ->. split; [exact Hy|]. apply Hs, elem_of_app. right. by apply elem_of_cons; right.
Qed.

Lemma unlink_nx x : is_Some (es !! x) -> fld nx (unlink p n es) x = if decide (Some x = p) then n else fld nx es x.
Proof.
  intros [h Hx]. unfold unlink. rewrite set_at_fld by (intros y Hy; apply set_at_some; by apply n_in).
  assert (E1 : fld nx (set_at sn p n es) x = if decide (Some x = p) then n else fld nx es x).
  { rewrite set_at_fld by (intros y Hy; by apply p_in). rewrite Hx. cbn. by rewrite nx_sn. }
  destruct (decide (Some x = n)); [|done]. rewrite <- E1. unfold fld. destruct (set_at sn p n es !! x); cbn; [apply nx_sp|done].
Qed.

Lemma unlink_pv x : is_Some (es !! x) -> fld pv (unlink p n es) x = if decide (Some x = n) then p else fld pv es x.
Proof.
  intros Hx. unfold unlink. rewrite set_at_fld by (intros y Hy; apply set_at_some; by apply n_in).
  destruct (decide (Some x = n)).
  - apply (set_at_some sn p n) in Hx as [h ->]. cbn. apply pv_sp.
  - rewrite set_at_fld by (intros y Hy; by apply p_in). destruct (decide (Some x = p)); [|done]. unfold fld.
    destruct (es !! x); cbn; [apply pv_sn|done].
Qed.

(** The chain without [a]. *)
Lemma unlink_seg :
  seg (fld nx es) (fld pv es) None (l ++ a :: k) None ->
  seg (fld nx (unlink p n es)) (fld pv (unlink p n es)) None (l ++ k) None.
Proof.
  apply seg_remove; [exact Hnd|..]; intros x Hx; [apply unlink_nx|apply unlink_pv]; apply Hs;
    (apply elem_of_app in Hx as [Hx|Hx]; apply elem_of_app; [by left|right; apply elem_of_cons; by right]).
Qed.

Lemma unlink_other x : x ∉ l ++ k -> unlink p n es !! x = es !! x.
Proof.
  intros Hx. unfold unlink. rewrite !set_at_other; [reflexivity|..]; intros E; symmetry in E; apply Hx, elem_of_app.
  - left. apply (p_in x E).
  - right. apply (n_in x E).
Qed.

(** What [a] itself says of its neighbours. *)
Lemma seg_mid h : seg (fld nx es) (fld pv es) None (l ++ a :: k) None -> es !! a = Some h -> pv h = p /\ nx h = n.
Proof.
  intros [_ (H1 & H2 & _)]%seg_app Ha. unfold fld in H1, H2. by rewrite Ha in H1, H2.
Qed.

End In.

Lemma wp_set_at E tb p v es s (Q : unit -> mem -> Prop) :
  (forall y, p = Some y -> is_Some (es !! y)) -> Q tt (mkMem (set_at s p v es) tb) ->
  wp E (match p with Some _ => upd_hh p (s v) | None => mret tt end) Q (mkMem es tb).
Proof. intros Hs HQ. destruct p as [x|]; [|by apply wp_ret]. apply wp_upd_hh; [by apply Hs|done]. Qed.

End Unlink.

(** ** Deleting *)

Section Delete.
Import Uthash.
Implicit Types (es : gmap positive UT_hash_handle) (m : mem) (l c : list positive) (cs : list (list positive)).

Definition hh_unlink := unlink set_hh_next set_hh_prev.
Definition app_unlink := unlink set_next set_prev.

Lemma hh_unlink_erased p n es : no_chain <$> hh_unlink p n es = no_chain <$> es.
Proof. by apply unlink_erased. Qed.

Lemma chains_remove es n bs cs i b c1 a c2 mult :
  chains es n bs cs -> bs !! i = Some b -> cs !! i = Some (c1 ++ a :: c2) -> NoDup (mjoin cs) ->
  (forall x, x ∈ mjoin cs -> is_Some (es !! x)) ->
  chains (hh_unlink (final None c1) (first c2 None) es) n
    (<[i := mkBucket (first (c1 ++ c2) None) (Z.of_nat (length (c1 ++ c2))) mult]> bs) (<[i := c1 ++ c2]> cs).
Proof.
  intros (L1 & L2 & Hch) Hb Hc Hnd Hs.
  assert (Hsc : forall y, y ∈ c1 ++ a :: c2 -> is_Some (es !! y)) by (intros y Hy; by eapply Hs, join_elem).
  assert (Hndc := join_nodup cs i _ Hnd Hc).
  split; [by rewrite length_insert|]. split; [by rewrite length_insert|]. intros j b' c' Hb' Hc'.
  destruct (decide (j = i)) as [->|Hne].
  - rewrite list_lookup_insert_eq in Hb' by (by eapply lookup_lt_Some).
    rewrite list_lookup_insert_eq in Hc' by (by eapply lookup_lt_Some). injection Hb' as <-. injection Hc' as <-.
    destruct (Hch i b _ Hb Hc) as (B1 & B2 & B3 & B4). split_and!; [done|done|by eapply unlink_seg|].
    intros x Hx. rewrite (hash_erased es) by apply hh_unlink_erased. apply B4. set_solver.
  - rewrite list_lookup_insert_ne in Hb' by done. rewrite list_lookup_insert_ne in Hc' by done.
    destruct (Hch j b' c' Hb' Hc') as (B1 & B2 & B3 & B4).
    split_and!; [done|done| |intros x Hx; rewrite (hash_erased es) by apply hh_unlink_erased; by apply B4].
    assert (Hx : forall x, x ∈ c' -> hh_unlink (final None c1) (first c2 None) es !! x = es !! x).
    { intros x Hx. eapply (unlink_other _ _ _ _ _ a); [exact Hsc|]. intros Hin. apply Hne.
      eapply (join_apart cs j i c' _ x Hnd Hc' Hc Hx). set_solver. }
    apply (seg_same (fld hh_next es) (fld hh_prev es)); [| |done]; intros x E%Hx; unfold fld; by rewrite E.
Qed.

Lemma wp_del_in_bkt E m t T cs i b c1 a c2 h (Q : unit -> mem -> Prop) :
  tables m !! t = Some T -> chains (elems m) (num_buckets T) (buckets T) cs -> 0 <= i ->
  buckets T !! Z.to_nat i = Some b -> cs !! Z.to_nat i = Some (c1 ++ a :: c2) -> NoDup (mjoin cs) ->
  (forall x, x ∈ mjoin cs -> is_Some (elems m !! x)) -> Z.of_nat (length (c1 ++ a :: c2)) < 2 ^ 32 -> elems m !! a = Some h ->
  (forall bs' cs', let es' := hh_unlink (final None c1) (first c2 None) (elems m) in
     chains es' (num_buckets T) bs' cs' -> mjoin cs ≡ₚ a :: mjoin cs' ->
     Q tt (mkMem es' (<[t := set_buckets bs' T]> (tables m)))) ->
  wp E (HASH_DEL_IN_BKT (Some t) i (Some a)) Q m.
Proof.
  intros Ht Hch Hi Hb Hc Hnd Hs Hlen Ha HQ. assert (Hlt := lookup_lt_Some _ _ _ Hb).
  assert (Hsc : forall y, y ∈ c1 ++ a :: c2 -> is_Some (elems m !! y)) by (intros y Hy; by eapply Hs, join_elem).
  assert (Hndc := join_nodup cs _ _ Hnd Hc). destruct (proj2 (proj2 Hch) _ b _ Hb Hc) as (B1 & B2 & B3 & _).
  destruct (seg_mid hh_next hh_prev (elems m) c1 c2 a h B3 Ha) as [Ep En].
  assert (Hac : a ∉ c1 ++ c2) by (apply list.NoDup_app in Hndc as (_ & Hd & [Ha2 _]%list.NoDup_cons); set_solver).
  unfold HASH_DEL_IN_BKT. apply wp_bind. eapply wp_upd_bucket; [exact Ht|lia|exact Hb|].
  apply wp_bind. eapply wp_bucket; [apply lookup_insert_eq|lia|apply list_lookup_insert_eq; lia|].
  apply wp_bind. eapply wp_hh; [exact Ha|]. cbn [hh_head]. rewrite B1, Ep, En, B2.
  rewrite u32_small by (rewrite length_app in *; cbn in *; lia).
  replace (Z.of_nat (length (c1 ++ a :: c2)) - 1) with (Z.of_nat (length (c1 ++ c2))) by (rewrite !length_app; cbn; lia).
  set (b' := mkBucket (first (c1 ++ c2) None) (Z.of_nat (length (c1 ++ c2))) (expand_mult b)).
  assert (Hk : wp E (_ ← (match final None c1 with Some _ => upd_hh (final None c1) (set_hh_next (first c2 None)) | None => mret tt end);
      h ← hh (Some a); match hh_next h with Some _ => upd_hh (hh_next h) (set_hh_prev (hh_prev h)) | None => mret tt end) Q
      (mkMem (elems m) (<[t := set_buckets (<[Z.to_nat i := b']> (buckets T)) T]> (tables m)))).
  { apply wp_bind, wp_set_at; [intros y Hy; by apply (p_in _ _ _ _ Hsc)|]. apply wp_bind. eapply wp_hh.
    { cbn. rewrite set_at_other; [exact Ha|]. intros E'. symmetry in E'. apply (p_in _ _ _ _ Hsc) in E'. set_solver. }
    rewrite Ep, En. apply wp_set_at; [intros y Hy; apply set_at_some; by apply (n_in _ _ _ _ Hsc)|].
    apply (HQ _ (<[Z.to_nat i := c1 ++ c2]> cs)); [by apply (chains_remove _ _ _ _ _ b _ a)|].
    destruct (join_insert cs _ _ Hc) as (rest & Hp1 & Hp2). rewrite Hp1, Hp2. solve_Permutation. }
  apply wp_bind. rewrite first_app. destruct (decide (first c1 (first (a :: c2) None) = Some a)) as [Ef|Ef].
  - assert (c1 = []) as -> by (destruct c1 as [|x c1]; [done|]; injection Ef as ->; set_solver).
    eapply wp_upd_bucket; [apply lookup_insert_eq|lia|apply list_lookup_insert_eq; lia|].
    cbn [elems tables buckets set_buckets count expand_mult]. rewrite insert_insert_eq, list_insert_insert_eq. exact Hk.
  - apply wp_ret. replace (first c1 (first (a :: c2) None)) with (first (c1 ++ c2) None); [exact Hk|].
    destruct c1; [by destruct Ef|done].
Qed.

Lemma contents_delete es es' l1 a l2 M k :
  NoDup (l1 ++ a :: l2) -> contents es (l1 ++ a :: l2) M -> M !! k = Some a ->
  (forall x, key <$> es' !! x = key <$> es !! x) -> contents es' (l1 ++ l2) (delete k M).
Proof.
  intros Hnd Hc Hk He k' x. unfold contents in Hc. rewrite lookup_delete_Some, Hc, He.
  assert (Ha : a ∉ l1 ++ l2) by (apply list.NoDup_app in Hnd as (_ & Hd & [Ha2 _]%list.NoDup_cons); set_solver). split.
  - intros [Hne [Hx Hkx]]. split; [|done]. assert (x <> a); [|set_solver]. intros ->.
    apply Hc in Hk as [_ Hk]. congruence.
  - intros [Hx Hkx]. split; [|set_solver]. intros ->. assert (E : M !! k' = Some x) by (apply Hc; set_solver). set_solver.
Qed.

Lemma app_erased_key es es' x : no_app <$> es' = no_app <$> es -> key <$> es' !! x = key <$> es !! x.
Proof.
  intros He. assert (E : (no_app <$> es') !! x = (no_app <$> es) !! x) by (by rewrite He).
  rewrite !lookup_fmap in E. destruct (es' !! x), (es !! x); try done. injection E as _ _ _ E _ _. cbn. by rewrite E.
Qed.

Lemma elem_ok_app es es' t a : no_app <$> es' = no_app <$> es -> elem_ok es t a -> elem_ok es' t a.
Proof.
  intros He (h & E & H1 & H2 & H3 & H4). destruct (erased_lookup no_app es es' a h He E) as (h' & E' & Eh).
  injection Eh as T1 T2 T3 T4 T5 T6. exists h'. rewrite T1, T4, T5, T6. done.
Qed.

(** The list in the order of insertion, after [a] was taken out of it. *)
Lemma app_unlink_rep es t l1 a l2 :
  app_rep es t (l1 ++ a :: l2) ->
  let es' := app_unlink (final None l1) (first l2 None) es in
  app_rep es' t (l1 ++ l2) /\ elem_ok es' t a /\ no_app <$> es' = no_app <$> es.
Proof.
  intros (H1 & H2 & H3) es'. assert (He : no_app <$> es' = no_app <$> es) by (by apply unlink_erased).
  assert (Hs : forall x, x ∈ l1 ++ a :: l2 -> is_Some (es !! x)) by (intros x (h & -> & _)%H1; done).
  split; [|split; [eapply elem_ok_app; [exact He|apply H1; set_solver]|done]]. split_and!.
  - intros x Hx. eapply elem_ok_app; [exact He|]. apply H1. set_solver.
  - apply list.NoDup_app in H2 as (N1 & N2 & [N3 N4]%list.NoDup_cons). apply list.NoDup_app. split_and!; [done|set_solver|done].
  - by eapply unlink_seg.
Qed.

(** The last part of HASH_DELETE. *)
Lemma wp_delete_tail E m t T l1 a l2 cs hd (Q : option positive -> mem -> Prop) :
  let l := l1 ++ l2 in
  tables m !! t = Some T -> app_rep (elems m) t l -> tail T = final None l -> num_items T = Z.of_nat (length (a :: l)) ->
  Z.of_nat (length (a :: l)) < 2 ^ 32 -> 5 <= log2_num_buckets T < 30 -> num_buckets T = 2 ^ log2_num_buckets T ->
  chains (elems m) (num_buckets T) (buckets T) cs -> mjoin cs ≡ₚ a :: l -> elem_ok (elems m) t a -> a ∉ l -> hd ∈ l ->
  (forall m' T' cs', rep_at m' t T' l cs' -> no_chain <$> elems m' = no_chain <$> elems m -> Q (Some hd) m') ->
  wp E (t ← tbl_of (Some hd); T ← table t; d ← hh (Some a);
      _ ← HASH_DEL_IN_BKT t (HASH_TO_BKT (hashv d) (num_buckets T)) (Some a);
      _ ← upd_table t (fun T => set_num_items (u32 (num_items T - 1)) T); mret (Some hd)) Q m.
Proof.
  intros l Ht Happ Htl Hni Hlen Hlg Hn Hch Hp He Hal Hhd HQ. destruct He as (h & Ha & Hta & _ & Hks & Hh).
  destruct (proj1 Happ hd Hhd) as (h0 & E0 & T0 & _). apply wp_bind. eapply wp_tbl_of; [exact E0|]. rewrite T0.
  apply wp_bind. eapply wp_table; [exact Ht|]. apply wp_bind. eapply wp_hh; [exact Ha|].
  destruct (jen_ok (key h) Hks) as [Hv _]. assert (Hpos : 0 < num_buckets T) by (rewrite Hn; apply Z.pow_pos_nonneg; lia).
  rewrite Hn, to_bkt, <- Hn, Hh by lia. assert (Hm := Z.mod_pos_bound (jen_hash (key h)) (num_buckets T) Hpos).
  set (i := jen_hash (key h) mod num_buckets T) in *. assert (Hch' := Hch). destruct Hch' as (L1 & L2 & Hc).
  assert (Hndj : NoDup (mjoin cs)) by (rewrite Hp; apply list.NoDup_cons; split; [done|apply Happ]).
  assert (Hin : a ∈ mjoin cs) by (rewrite Hp; set_solver).
  apply list_elem_of_join in Hin as (c & Hac & [j Hj]%list_elem_of_lookup).
  assert (Hjl := lookup_lt_Some _ _ _ Hj). destruct (lookup_lt_is_Some_2 (buckets T) j) as [b Hb]; [lia|].
  assert (j = Z.to_nat i) as ->.
  { destruct (Hc j b c Hb Hj) as (_ & _ & _ & Hji). specialize (Hji a Hac). unfold hash_at in Hji. rewrite Ha, Hh in Hji.
    fold i in Hji. lia. }
  apply list_elem_of_split in Hac as (c1 & c2 & ->).
  assert (Hcl : (length (c1 ++ a :: c2) <= length (a :: l))%nat).
  { destruct (join_insert cs _ _ Hj) as (rest & Hpr & _). rewrite <- Hp, Hpr, (length_app (c1 ++ a :: c2)). lia. }
  apply wp_bind, (wp_del_in_bkt E m t T cs i b c1 a c2 h); try done; try lia.
  - intros x Hx. rewrite Hp in Hx. apply elem_of_cons in Hx as [->|Hx]; [by rewrite Ha|].
    destruct (proj1 Happ x Hx) as (hx & -> & _). done.
  - intros bs' cs' es' Hch' Hp'. apply wp_bind. eapply wp_upd_table; [apply lookup_insert_eq|]. apply wp_ret.
    assert (He' : no_chain <$> es' = no_chain <$> elems m) by apply hh_unlink_erased.
    apply (HQ _ (set_num_items (u32 (num_items T - 1)) (set_buckets bs' T)) cs'); [|exact He']. cbn [elems tables]. rewrite insert_insert_eq.
    split; cbn [elems tables]; try done; try (cbn in *; lia).
    + apply lookup_insert_eq.
    + by eapply app_rep_erased.
    + cbn. rewrite Hni, u32_small by (cbn in *; lia). cbn. lia.
    + rewrite Hp in Hp'. by apply Permutation_cons_inv in Hp'.
Qed.

(** The tail of the table once [a] is gone. *)
Lemma wp_fix_tail {B} E m t T l1 a l2 (f : unit -> prog mem B) (Q : B -> mem -> Prop) :
  tables m !! t = Some T -> tail T = final None (l1 ++ a :: l2) -> a ∉ l2 ->
  wp E (f tt) Q (mkMem (elems m) (<[t := set_tail (final None (l1 ++ l2)) T]> (tables m))) ->
  wp E ((if decide (Some a = final (Some a) l2) then upd_table (Some t) (set_tail (final None l1)) else mret tt) ≫= f) Q m.
Proof.
  intros Ht Htl Ha Hf. apply wp_bind. destruct (decide (Some a = final (Some a) l2)) as [Ef|Ef].
  - assert (l2 = []) as -> by (destruct (final_in (Some a) l2) as [[_ ?]|(x & E' & Hx)]; [done|]; exfalso;
      rewrite E' in Ef; injection Ef as ->; set_solver).
    eapply wp_upd_table; [exact Ht|]. by rewrite app_nil_r in Hf.
  - apply wp_ret. replace m with (mkMem (elems m) (<[t := set_tail (final None (l1 ++ l2)) T]> (tables m))); [done|].
    destruct m; cbn in *. f_equal. apply insert_id. rewrite Ht. f_equal. rewrite final_app in Htl |- *.
    destruct l2 as [|x l2]; [done|]. cbn in *. rewrite <- Htl. by destruct T.
Qed.

(** The only element: the table goes with it. *)
Lemma wp_delete_single E m t T cs M k a (Q : option positive -> mem -> Prop) :
  rep_at m t T [a] cs -> contents (elems m) [a] M -> M !! k = Some a ->
  (forall r m', represents m' r (delete k M) -> same_dom m m' -> Q r m') ->
  wp E (HASH_DELETE (Some a) (Some a)) Q m.
Proof.
  intros [R1 R2 R3 R4 R5 R6 R7 R8 R9] Hc Hk HQ. destruct (proj1 R2 a ltac:(set_solver)) as (h & Ha & Hta & _).
  destruct (seg_mid next prev (elems m) [] [] a h (proj2 (proj2 R2)) Ha) as [Ep En]. cbn in Ep, En.
  unfold HASH_DELETE. apply wp_bind. eapply wp_hh; [exact Ha|]. rewrite Ep, En. apply wp_bind.
  eapply wp_tbl_of; [exact Ha|]. rewrite Hta. apply wp_bind. eapply wp_table; [exact R1|]. apply wp_bind.
  eapply wp_Ret; [reflexivity|]. apply wp_ret, HQ; [|done]. left. split; [done|]. apply map_eq. intros k'.
  rewrite lookup_empty. apply eq_None_not_Some. intros [x Hx].
  apply (contents_delete (elems m) (elems m) [] a [] M k (proj1 (proj2 R2)) Hc Hk) in Hx as [Hx _]; [by apply elem_of_nil in Hx|done].
Qed.

(** From the element after [a] on. *)
Lemma wp_delete_rest E m t T l1 a l2 cs M k hd (Q : option positive -> mem -> Prop) :
  rep_at m t T (l1 ++ a :: l2) cs -> contents (elems m) (l1 ++ a :: l2) M -> M !! k = Some a ->
  first (l1 ++ l2) None = Some hd -> hd ∈ l1 ++ l2 -> a ∉ l1 ++ l2 ->
  (forall r m', represents m' r (delete k M) -> same_dom m m' -> Q r m') ->
  wp E (d ← hh (Some a);
      _ ← (match next d with Some _ => upd_hh (next d) (set_prev (prev d)) | None => mret tt end);
      t ← tbl_of (Some hd); T ← table t; d ← hh (Some a);
      _ ← HASH_DEL_IN_BKT t (HASH_TO_BKT (hashv d) (num_buckets T)) (Some a);
      _ ← upd_table t (fun T => set_num_items (u32 (num_items T - 1)) T); mret (Some hd)) Q
    (mkMem (set_at set_next (final None l1) (first l2 None) (elems m))
       (<[t := set_tail (final None (l1 ++ l2)) T]> (tables m))).
Proof.
  intros [R1 R2 R3 R4 R5 R6 R7 R8 R9] Hc Hk Ehd Hin Hna HQ. assert (Hnd := proj1 (proj2 R2)).
  assert (Hne : l1 ++ l2 <> []) by (intros En; rewrite En in Hin; by apply elem_of_nil in Hin).
  destruct (proj1 R2 a ltac:(set_solver)) as (h & Ha & _).
  destruct (seg_mid next prev (elems m) l1 l2 a h (proj2 (proj2 R2)) Ha) as [Ep En].
  assert (Hs : forall x, x ∈ l1 ++ a :: l2 -> is_Some (elems m !! x)) by (intros x (hx & -> & _)%(proj1 R2); done).
  destruct (app_unlink_rep _ _ _ _ _ R2) as (A1 & A2 & A3). set (es1 := app_unlink _ _ _) in *.
  set (T1 := set_tail _ T). apply wp_bind. eapply wp_hh.
  { cbn. rewrite set_at_other; [exact Ha|]. intros E'. symmetry in E'. apply (p_in _ _ _ _ Hs) in E'. set_solver. }
  rewrite Ep, En. apply wp_bind, wp_set_at; [intros y Hy; apply set_at_some; by apply (n_in _ _ _ _ Hs)|].
  assert (Hpl : a :: l1 ++ l2 ≡ₚ l1 ++ a :: l2) by apply Permutation_middle.
  apply (wp_delete_tail E (mkMem es1 (<[t := T1]> (tables m))) t T1 l1 a l2 cs hd); cbn [elems tables]; try done.
  - apply lookup_insert_eq.
  - unfold T1. cbn. rewrite R4. by rewrite <- (Permutation_length Hpl).
  - by rewrite Hpl.
  - apply (chains_same (elems m)); [|done]. intros x _.
    assert (Ex : (no_app <$> es1) !! x = (no_app <$> elems m) !! x) by (by rewrite A3). by rewrite !lookup_fmap in Ex.
  - by rewrite Hpl.
  - intros m' T' cs' Hr He. assert (Hkk : forall x, key <$> elems m' !! x = key <$> elems m !! x)
      by (intros x; rewrite (key_erased es1) by done; by apply app_erased_key).
    apply HQ; [|intros x; by rewrite some_key, Hkk, <- some_key]. right. exists t, T', (l1 ++ l2), cs'.
    split_and!; try done. by apply (contents_delete (elems m) _ _ a).
Qed.

Lemma wp_delete E m t T l cs M k a (Q : option positive -> mem -> Prop) :
  rep_at m t T l cs -> contents (elems m) l M -> M !! k = Some a ->
  (forall r m', represents m' r (delete k M) -> same_dom m m' -> Q r m') ->
  wp E (HASH_DELETE (first l None) (Some a)) Q m.
Proof.
  intros Hrep Hc Hk HQ. assert (Hr := Hrep). destruct Hr as [R1 R2 R3 R4 R5 R6 R7 R8 R9].
  assert (Hal := proj1 (proj1 (Hc k a) Hk)). apply list_elem_of_split in Hal as (l1 & l2 & ->).
  assert (Hnd := proj1 (proj2 R2)). destruct (proj1 R2 a ltac:(set_solver)) as (h & Ha & Hta & _).
  destruct (decide (l1 ++ l2 = [])) as [[-> ->]%app_nil|Hne]; [by eapply wp_delete_single|].
  destruct (seg_mid next prev (elems m) l1 l2 a h (proj2 (proj2 R2)) Ha) as [Ep En].
  assert (Hna : a ∉ l1 ++ l2) by (apply list.NoDup_app in Hnd as (_ & Hd & [Ha2 _]%list.NoDup_cons); set_solver).
  destruct (first_in (l1 ++ a :: l2) None) as [[_ Hn]|(h0 & Eh0 & Hh0)]; [by destruct l1|].
  destruct (proj1 R2 h0 Hh0) as (hh0 & E0 & T0 & _).
  unfold HASH_DELETE. apply wp_bind. eapply wp_hh; [exact Ha|]. rewrite Ep, En, Eh0.
  set (body := (t ← tbl_of (Some h0); _)).
  assert (Hbody : wp E body Q m).
  2: { destruct (final None l1) eqn:E1, (first l2 None) eqn:E2; try exact Hbody.
       destruct l1; [|destruct (final_in (Some p) l1) as [[E3 _]|(? & E3 & _)]; cbn in E1; congruence]. by destruct l2. }
  unfold body. clear body. apply wp_bind. eapply wp_tbl_of; [exact E0|]. rewrite T0. apply wp_bind.
  eapply wp_table; [exact R1|]. assert (Htl := R3). rewrite final_app in Htl. cbn [final] in Htl. rewrite Htl.
  apply (wp_fix_tail E m t T l1 a l2); [done|done|set_solver|].
  destruct (first_in (l1 ++ l2) None) as [[_ ?]|(hd & Ehd & Hin)]; [done|].
  assert (Hfin := wp_delete_rest E m t T l1 a l2 cs M k hd Q Hrep Hc Hk Ehd Hin Hna HQ).
  apply wp_bind. destruct l1 as [|x l1].
  - cbn in Ehd |- *. rewrite Ehd in *. by apply wp_ret.
  - destruct (proj1 R2 x ltac:(set_solver)) as (hx & Hx & _).
    destruct (final_in (Some x) l1) as [[E1 El]|(y & E1 & Hy)]; cbn [final] in *; rewrite E1 in *;
      [|destruct (proj1 R2 y ltac:(set_solver)) as (hy & Hyy & _)];
      (apply wp_bind, wp_upd_hh; [cbn; eauto|]; apply wp_ret; cbn in Eh0, Ehd; rewrite <- Eh0, Ehd; exact Hfin).
Qed.

End Delete.

(** ** Checking and visiting *)

Section Visit.
Import Uthash.
Implicit Types (es : gmap positive UT_hash_handle) (m : mem) (l c : list positive) (cs : list (list positive)).

Lemma seg_head f g es p a l h : seg (fld f es) (fld g es) p (a :: l) None -> es !! a = Some h ->
  g h = p /\ f h = first l None /\ seg (fld f es) (fld g es) (Some a) l None.
Proof. intros (H1 & H2 & H3) Ha. unfold fld in H1, H2. by rewrite Ha in H1, H2. Qed.

Lemma wp_fsck_chain E m c : forall fuel p cnt (Q : Z -> mem -> Prop),
  seg (fld hh_next (elems m)) (fld hh_prev (elems m)) p c None -> (forall x, x ∈ c -> is_Some (elems m !! x)) ->
  (length c <= fuel)%nat -> 0 <= cnt -> cnt + Z.of_nat (length c) < 2 ^ 32 -> Q (cnt + Z.of_nat (length c)) m ->
  wp E (fsck_chain fuel p (first c None) cnt) Q m.
Proof.
  induction c as [|a c IH]; intros fuel p cnt Q Hs Hx Hf H0 Hc HQ; cbn [first length] in *.
  { rewrite Z.add_0_r in HQ. destruct fuel; by apply wp_ret. }
  destruct fuel as [|fuel]; [lia|]. destruct (Hx a ltac:(set_solver)) as [h Ha].
  destruct (seg_head _ _ _ _ _ _ _ Hs Ha) as (S1 & S2 & S3). cbn [fsck_chain]. apply wp_bind. eapply wp_hh; [exact Ha|].
  rewrite decide_True by done. rewrite S2, u32_small by lia. apply IH; [done|set_solver|lia|lia|lia|].
  by replace (cnt + 1 + Z.of_nat (length c)) with (cnt + Z.of_nat (S (length c))) by lia.
Qed.

Lemma wp_fsck_app E m l : forall fuel p cnt (Q : Z -> mem -> Prop),
  seg (fld next (elems m)) (fld prev (elems m)) p l None -> (forall x, x ∈ l -> is_Some (elems m !! x)) ->
  (length l <= fuel)%nat -> 0 <= cnt -> cnt + Z.of_nat (length l) < 2 ^ 32 -> Q (cnt + Z.of_nat (length l)) m ->
  wp E (fsck_app fuel p (first l None) cnt) Q m.
Proof.
  induction l as [|a l IH]; intros fuel p cnt Q Hs Hx Hf H0 Hc HQ; cbn [first length] in *.
  { rewrite Z.add_0_r in HQ. destruct fuel; by apply wp_ret. }
  destruct fuel as [|fuel]; [lia|]. destruct (Hx a ltac:(set_solver)) as [h Ha].
  destruct (seg_head _ _ _ _ _ _ _ Hs Ha) as (S1 & S2 & S3). cbn [fsck_app]. apply wp_bind. eapply wp_hh; [exact Ha|].
  rewrite decide_True by done. rewrite S2, u32_small by lia. apply IH; [done|set_solver|lia|lia|lia|].
  by replace (cnt + 1 + Z.of_nat (length l)) with (cnt + Z.of_nat (S (length l))) by lia.
Qed.

Lemma wp_iter E m l : forall fuel p (Q : list positive -> mem -> Prop),
  seg (fld next (elems m)) (fld prev (elems m)) p l None -> (forall x, x ∈ l -> is_Some (elems m !! x)) ->
  (length l <= fuel)%nat -> Q l m -> wp E (iter_loop fuel (first l None)) Q m.
Proof.
  induction l as [|a l IH]; intros fuel p Q Hs Hx Hf HQ; cbn [first length] in *.
  { destruct fuel; by apply wp_ret. }
  destruct fuel as [|fuel]; [lia|]. destruct (Hx a ltac:(set_solver)) as [h Ha].
  destruct (seg_head _ _ _ _ _ _ _ Hs Ha) as (S1 & S2 & S3). cbn [iter_loop]. apply wp_bind. eapply wp_hh; [exact Ha|].
  rewrite S2. apply wp_bind. eapply IH; [exact S3|set_solver|lia|]. by apply wp_ret.
Qed.

Lemma wp_fsck_buckets E fuel m t T bs cs : forall n i cnt (Q : Z -> mem -> Prop),
  tables m !! t = Some T -> chains (elems m) (num_buckets T) (buckets T) cs -> bs = buckets T ->
  (forall x, x ∈ mjoin cs -> is_Some (elems m !! x)) -> (length (mjoin cs) <= fuel)%nat ->
  (i + n = length (buckets T))%nat -> 0 <= cnt -> cnt + Z.of_nat (length (mjoin (drop i cs))) < 2 ^ 32 ->
  Q (cnt + Z.of_nat (length (mjoin (drop i cs)))) m ->
  wp E (fsck_buckets fuel n (Some t) (Z.of_nat i) cnt) Q m.
Proof.
  induction n as [|n IH]; intros i cnt Q Ht Hch Hbs Hx Hf Hi H0 Hc HQ; assert (Hch' := Hch); destruct Hch' as (L1 & L2 & Hb);
    cbn [fsck_buckets].
  { rewrite drop_ge in HQ by lia. cbn in HQ. rewrite Z.add_0_r in HQ. by apply wp_ret. }
  destruct (lookup_lt_is_Some_2 (buckets T) i) as [b Eb]; [lia|]. destruct (lookup_lt_is_Some_2 cs i) as [c Ec]; [lia|].
  destruct (Hb i b c Eb Ec) as (B1 & B2 & B3 & _). apply wp_bind. eapply wp_bucket; [exact Ht|lia|by rewrite Nat2Z.id|].
  assert (Ej : mjoin (drop i cs) = c ++ mjoin (drop (S i) cs)) by (by rewrite (drop_S cs c i Ec)).
  rewrite Ej, length_app in Hc, HQ. rewrite B1. apply wp_bind, wp_fsck_chain; [done| | |lia|lia|].
  - intros x Hxc. by eapply Hx, join_elem.
  - destruct (join_insert cs i c Ec) as (rest & Hp & _). rewrite Hp, length_app in Hf. lia.
  - rewrite Z.add_0_l, B2, Z.eqb_refl, u32_small by lia. replace (Z.of_nat i + 1) with (Z.of_nat (S i)) by lia.
    apply IH; try done; try lia. by replace (cnt + Z.of_nat (length c) + Z.of_nat (length (mjoin (drop (S i) cs))))
      with (cnt + Z.of_nat (length c + length (mjoin (drop (S i) cs)))) by lia.
Qed.

(** The checker finds nothing, the count is the size of the map, and the visit goes once
    to every element. *)
Lemma represents_checks E fuel m head M :
  represents_but_tail m head M -> (size M <= fuel)%nat ->
  wp E (HASH_FSCK fuel head) (fun _ m' => m' = m) m /\ wp E (HASH_CNT head) (fun n m' => n = Z.of_nat (size M) /\ m' = m) m /\
  wp E (HASH_ITER fuel head) (fun l m' => NoDup l /\ (forall a, a ∈ l <-> exists k, M !! k = Some a) /\ m' = m) m.
Proof.
  intros [[-> ->]|(z & t & T & l & cs & -> & Hl & R & Hc)] Hf.
  { split_and!; [done|by apply wp_ret|]. assert (Hn : NoDup ([] : list positive) /\
      (forall a, a ∈ [] <-> exists k, (∅ : gmap (list Z) positive) !! k = Some a) /\ m = m).
    { split; [constructor|]. split; [|done]. intros a. split; [by intros ?%elem_of_nil|]. intros [k Hk].
      by rewrite lookup_empty in Hk. }
    destruct fuel; by apply wp_ret. }
  destruct R as [R1 (R2a & R2b & R2c) R3 R4 R5 R6 R7 R8 R9].
  assert (Hs : forall x, x ∈ l -> is_Some (elems m !! x)) by (intros x (h & -> & _)%R2a; done).
  rewrite (contents_size _ _ _ R2b Hs Hc) in *. destruct (first_in l None) as [[_ ?]|(a & Ea & Ha)]; [done|].
  destruct (R2a a Ha) as (h & Eh & Th & _). split_and!.
  - rewrite Ea. unfold HASH_FSCK. apply wp_bind. eapply wp_tbl_of; [exact Eh|]. rewrite Th.
    apply wp_bind. eapply wp_table; [exact R1|]. apply wp_bind. apply (wp_fsck_buckets E fuel m t T (buckets T) cs _ 0); try done.
    + intros x Hx. rewrite R9 in Hx. auto.
    + by rewrite R9.
    + cbn. destruct R8. lia.
    + cbn. by rewrite R9.
    + cbn [drop]. rewrite R9, R4, Z.add_0_l, Z.eqb_refl. apply wp_bind. rewrite <- Ea. apply wp_fsck_app; try done.
      rewrite Z.add_0_l, Z.eqb_refl. by apply wp_ret.
  - rewrite Ea. apply wp_bind, wp_bind. eapply wp_tbl_of; [exact Eh|]. rewrite Th. eapply wp_table; [exact R1|].
    by apply wp_ret.
  - apply (wp_iter E m l fuel None); try done. split; [done|]. split; [|done]. intros x. split.
    + intros Hx. destruct (R2a x Hx) as (hx & Ex & _). exists (key hx). apply Hc. by rewrite Ex.
    + intros [k Hk]. exact (proj1 (proj1 (Hc k x) Hk)).
Qed.

End Visit.

(** ** A table is a finite map *)

Section TableProperties.
Import Uthash.

(** The operations of the program on a table, and on a finite map. *)
Inductive cmd : Type :=
| Find (k : list Z)
| Add (a : positive) (k : list Z)
| Del (a : positive).

(** One operation on the head of a table and the memory. *)
Definition exec (oom : mem -> Z -> bool) (fuel : nat) (c : cmd) : prog (option positive * mem) (option positive) :=
  fun '(head, m) =>
  match c with
  | Find k => '(r, m) ← HASH_FIND fuel head k (Z.of_nat (length k)) m; Ret (r, (head, m))
  | Add a k => '(head, m) ← HASH_ADD_KEYPTR oom fuel head k (Z.of_nat (length k)) (Some a) m; Ret (None, (head, m))
  | Del a => '(head, m) ← HASH_DELETE head (Some a) m; Ret (None, (head, m))
  end.

Fixpoint exec_all (oom : mem -> Z -> bool) (fuel : nat) (cs : list cmd) :
    prog (option positive * mem) (list (option positive)) :=
  match cs with
  | [] => mret []
  | c :: cs' => r ← exec oom fuel c; rs ← exec_all oom fuel cs'; mret (r :: rs)
  end.

Definition spec (c : cmd) (M : gmap (list Z) positive) : option positive * gmap (list Z) positive :=
  match c with
  | Find k => (M !! k, M)
  | Add a k => (None, <[k := a]> M)
  | Del a => (None, filter (fun e => e.2 <> a) M)
  end.

Fixpoint spec_all (cs : list cmd) (M : gmap (list Z) positive) : list (option positive) * gmap (list Z) positive :=
  match cs with
  | [] => ([], M)
  | c :: cs' => let '(r, M1) := spec c M in let '(rs, M2) := spec_all cs' M1 in (r :: rs, M2)
  end.

(** How the program uses a table: a key is added once, with an element that exists and is
    not in the table; an element that is deleted is in it. *)
Definition allowed (es : gmap positive UT_hash_handle) (n : nat) (c : cmd) (M : gmap (list Z) positive) : Prop :=
  match c with
  | Find k => (length k <= n)%nat
  | Add a k => (length k <= n)%nat /\ is_Some (es !! a) /\ M !! k = None /\ forall k', M !! k' <> Some a
  | Del a => exists k, M !! k = Some a
  end.

Fixpoint well_used (es : gmap positive UT_hash_handle) (n : nat) (cs : list cmd) (M : gmap (list Z) positive) : Prop :=
  match cs with
  | [] => True
  | c :: cs' => allowed es n c M /\ well_used es n cs' (spec c M).2
  end.

Lemma represents_rep m head M : represents m head M -> M <> ∅ ->
  exists t T l cs, head = first l None /\ l <> [] /\ rep_at m t T l cs /\ contents (elems m) l M /\ size M = length l.
Proof.
  intros [[_ ->]|(t & T & l & cs & E & Hl & R & Hc)] HM; [done|]. exists t, T, l, cs. split_and!; try done.
  apply (contents_size (elems m)); try done; [apply R|]. intros x Hx.
  destruct (proj1 (r_app _ _ _ _ _ _ R) x Hx) as (h & -> & _). done.
Qed.

Lemma spec_delete (M : gmap (list Z) positive) k a :
  M !! k = Some a -> (forall k', M !! k' = Some a -> k' = k) -> filter (fun e => e.2 <> a) M = delete k M.
Proof.
  intros Hk Hu. apply map_eq. intros k'. destruct (decide (k' = k)) as [->|Hne].
  - rewrite lookup_delete_eq. apply map_lookup_filter_None. right. intros x Hx. cbn. assert (x = a) as -> by congruence. tauto.
  - rewrite lookup_delete_ne by done. destruct (M !! k') as [x|] eqn:E.
    + apply map_lookup_filter_Some. split; [done|]. cbn. intros ->. by apply Hne, Hu.
    + apply map_lookup_filter_None. by left.
Qed.

Lemma find_ok fuel m head M k :
  represents_but_tail m head M -> (length k <= fuel)%nat -> (size M <= fuel)%nat -> Z.of_nat fuel < 2 ^ 32 ->
  HASH_FIND fuel head k (Z.of_nat (length k)) m = Ret (M !! k, m).
Proof.
  intros HR Hk Hs Hf.
  assert (Hw : wp no_crash (HASH_FIND fuel head k (Z.of_nat (length k))) (fun r m' => r = M !! k /\ m' = m) m).
  { destruct (decide (M = ∅)) as [->|HM].
    - destruct HR as [[-> _]|(z & t & T & l & cs & _ & Hl & R & Hc)]; [by apply wp_ret|].
      exfalso. destruct l as [|a l]; [done|]. destruct (proj1 (r_app _ _ _ _ _ _ R) a ltac:(set_solver)) as (h & E & _).
      assert (Hx : (∅ : gmap (list Z) positive) !! key h = Some a) by (apply Hc; rewrite E; split; [set_solver|done]).
      by rewrite lookup_empty in Hx.
    - destruct HR as [[_ ?]|(z & t & T & l & cs & -> & Hl & R & Hc)]; [done|].
      assert (Hsz : size M = length l).
      { apply (contents_size (elems m)); try done; [apply R|]. intros x Hx.
        destruct (proj1 (r_app _ _ _ _ _ _ R) x Hx) as (h & -> & _). done. }
      apply (wp_find _ m t T l cs R); try done; try lia. intros [a|] Hfd; split; try done; symmetry.
      + by apply Hc.
      + apply eq_None_not_Some. intros [a Hka]. apply Hc in Hka as [H1 H2]. by apply (Hfd a). }
  apply wp_run in Hw as (? & ? & -> & -> & ->). done.
Qed.

(** The table of the head has 2^29 buckets or more: its next doubling asks for 16 GiB. *)
Definition outgrown (s : option positive * mem) : bool :=
  match (a ← s.1; h ← elems s.2 !! a; t ← tbl h; tables s.2 !! t) with
  | Some T => 2 ^ 29 <=? num_buckets T
  | None => false
  end.

(** The process ended because the allocator refused a request of less than 16 GiB. *)
Definition refused (oom : mem -> Z -> bool) (c : crash) : Prop :=
  c = ProcessExit /\ exists m sz, oom m sz = true /\ sz < 2 ^ 34.

(** What an operation needs of the allocator and the size of the table. *)
Definition grows (F : crash -> Prop) (oom : mem -> Z -> bool) (s : option positive * mem) : Prop :=
  (forall m sz, oom m sz = true -> sz < 2 ^ 34 -> F ProcessExit) /\ (outgrown s = false \/ limited oom /\ F ProcessExit).

Lemma grows_limited oom s : limited oom -> grows only_exit oom s.
Proof. intros H. split; [done|]. by right. Qed.

Lemma grows_refused oom s : outgrown s = false -> grows (refused oom) oom s.
Proof. intros H. split; [intros m sz H1 H2; split; [done|by exists m, sz]|]. by left. Qed.

Lemma grows_exits F oom m t T l cs z : rep_upto z m t T l cs -> l <> [] -> grows F oom (first l None, m) -> exits F oom (log2_num_buckets T).
Proof.
  intros R Hl [H1 H2]. split; [done|]. destruct H2 as [H2|H2]; [left|by right].
  destruct (first_in l None) as [[_ ?]|(a & Ea & Ha)]; [done|]. destruct (proj1 (r_app _ _ _ _ _ _ R) a Ha) as (h & Eh & Et & _).
  unfold outgrown in H2. cbn [fst snd] in H2. rewrite Ea in H2. cbn in H2. rewrite Eh in H2. cbn in H2. rewrite Et in H2. cbn in H2.
  assert (Hlg := r_lg _ _ _ _ _ _ R). rewrite (r_table _ _ _ _ _ _ R), (r_num _ _ _ _ _ _ R) in H2. apply Z.leb_gt in H2. apply Z.pow_lt_mono_r_iff in H2; [done|lia|].
  lia.
Qed.

(** One operation, on a table that represents [M]. *)
Lemma exec_ok F oom fuel c m head M n (Q : option positive -> option positive * mem -> Prop) :
  grows F oom (head, m) -> represents m head M -> allowed (elems m) n c M -> (n <= fuel)%nat -> (size M < fuel)%nat ->
  Z.of_nat fuel < 2 ^ 32 ->
  (forall r head' m', r = (spec c M).1 -> represents m' head' (spec c M).2 -> same_dom m m' -> Q r (head', m')) ->
  wp F (exec oom fuel c) Q (head, m).
Proof.
  intros Hoom HR Ha Hn Hs Hf HQ. destruct c as [k|a k|a]; cbn [allowed exec spec fst snd] in *.
  - assert (E := find_ok fuel m head M k (represents_weaken _ _ _ HR) ltac:(lia) ltac:(lia) ltac:(lia)). unfold wp, exec. rewrite E. by apply HQ.
  - destruct Ha as (Hk & He & HM & Hu).
    assert (Hw : wp F (HASH_ADD_KEYPTR oom fuel head k (Z.of_nat (length k)) (Some a))
      (fun r m' => represents m' r (<[k := a]> M) /\ same_dom m m') m).
    { destruct HR as [[-> ->]|HR].
      - apply wp_add_first; try done; try lia. split; [apply Hoom|left; lia].
      - destruct HR as (t & T & l & cs & -> & Hl & R & Hc). assert (Hsz : size M = length l).
        { apply (contents_size (elems m)); try done; [apply R|]. intros x Hx.
          destruct (proj1 (r_app _ _ _ _ _ _ R) x Hx) as (h & -> & _). done. }
        apply (wp_add_more F oom fuel m t T l cs M); try done; try lia; [by eapply grows_exits|]. intros Hal.
        destruct (proj1 (r_app _ _ _ _ _ _ R) a Hal) as (h & E & _). apply (Hu (key h)), Hc. by rewrite E. }
    unfold wp, exec in *. destruct (HASH_ADD_KEYPTR _ _ _ _ _ _ m) as [[r m']|]; [|done]. destruct Hw. by apply HQ.
  - destruct Ha as [k Hk]. assert (HM : M <> ∅) by (intros ->; by rewrite lookup_empty in Hk).
    destruct (represents_rep m head M HR HM) as (t & T & l & cs & -> & Hl & R & Hc & Hsz).
    assert (Hw : wp no_crash (HASH_DELETE (first l None) (Some a)) (fun r m' => represents m' r (delete k M) /\ same_dom m m') m)
      by (by apply (wp_delete no_crash m t T l cs M k a)).
    assert (Es : filter (fun e => e.2 <> a) M = delete k M).
    { apply spec_delete; [done|]. intros k' Hk'. apply Hc in Hk as [_ Hk], Hk' as [_ Hk']. congruence. }
    unfold wp, exec in *. destruct (HASH_DELETE _ _ m) as [[r m']|]; [|done]. destruct Hw. apply HQ; [done|by rewrite Es|done].
Qed.

Lemma spec_size c M : (size (spec c M).2 <= S (size M))%nat.
Proof.
  destruct c as [k|a k|a]; cbn; [lia| |].
  - destruct (M !! k) eqn:E; [rewrite map_size_insert_Some by (by rewrite E)|rewrite map_size_insert_None by done]; lia.
  - assert (Hf := map_size_filter (fun e => e.2 <> a) M). lia.
Qed.

Lemma well_used_dom es es' n cs : forall M, (forall x, is_Some (es' !! x) <-> is_Some (es !! x)) ->
  well_used es n cs M -> well_used es' n cs M.
Proof.
  induction cs as [|c cs IH]; intros M Hd; cbn; [done|]. intros [Ha Hw]. split; [|by apply IH].
  destruct c; cbn in *; [done| |done]. by rewrite Hd.
Qed.

(** The table outgrows its memory after some of the operations. *)
Definition outgrows (oom : mem -> Z -> bool) (fuel : nat) (cs : list cmd) (s : option positive * mem) : Prop :=
  exists cs1 cs2 rs s', cs = cs1 ++ cs2 /\ exec_all oom fuel cs1 s = Ret (rs, s') /\ outgrown s' = true.

(** A sequence of operations, each of which has what it needs. *)
Lemma exec_all_grows F oom fuel cs : forall m head M n,
  (forall cs1 cs2 rs s, cs = cs1 ++ cs2 -> exec_all oom fuel cs1 (head, m) = Ret (rs, s) -> grows F oom s) ->
  represents m head M -> well_used (elems m) n cs M ->
  (n <= fuel)%nat -> (size M + length cs <= fuel)%nat -> Z.of_nat fuel < 2 ^ 32 ->
  wp F (exec_all oom fuel cs) (fun rs s => rs = (spec_all cs M).1 /\ represents s.2 s.1 (spec_all cs M).2 /\
    (size (spec_all cs M).2 <= fuel)%nat) (head, m).
Proof.
  induction cs as [|c cs IH]; intros m head M n Hg HR Hw Hn Hs Hf; cbn [exec_all spec_all length] in *.
  { apply wp_ret. cbn. split_and!; [done|done|lia]. }
  destruct Hw as [Ha Hw]. assert (Hg0 : grows F oom (head, m)) by (by apply (Hg [] (c :: cs) [])).
  assert (He : wp F (exec oom fuel c) (fun r s => r = (spec c M).1 /\ represents s.2 s.1 (spec c M).2 /\ same_dom m s.2) (head, m))
    by (apply (exec_ok F oom fuel c m head M n); try done; lia).
  unfold wp in He |- *. unfold mbind, prog_bind. destruct (exec oom fuel c (head, m)) as [[r [head' m']]|] eqn:Ex; [|done]. destruct He as (Er & HR' & Hd).
  destruct (spec c M) as [r1 M1] eqn:E1. cbn [fst snd] in *. assert (Hs1 := spec_size c M). rewrite E1 in Hs1. cbn in Hs1.
  assert (Ht := IH m' head' M1 n). unfold wp in Ht. assert (Hg' : forall cs1 cs2 rs s, cs = cs1 ++ cs2 -> exec_all oom fuel cs1 (head', m') = Ret (rs, s) -> grows F oom s).
  { intros cs1 cs2 rs s -> H1. apply (Hg (c :: cs1) cs2 (r :: rs)); [done|]. cbn [exec_all]. unfold mbind, prog_bind. by rewrite Ex, H1. }
  specialize (Ht Hg' HR' ltac:(by eapply well_used_dom) Hn ltac:(lia) Hf). destruct (exec_all oom fuel cs (head', m')) as [[rs s]|]; [|done].
  destruct Ht as (-> & H2 & H3). destruct (spec_all cs M1) as [rs2 M2]. cbn in *. by rewrite Er.
Qed.

Lemma exec_all_ok oom fuel cs m head M n : limited oom -> represents m head M -> well_used (elems m) n cs M ->
  (n <= fuel)%nat -> (size M + length cs <= fuel)%nat -> Z.of_nat fuel < 2 ^ 32 ->
  wp only_exit (exec_all oom fuel cs) (fun rs s => rs = (spec_all cs M).1 /\ represents s.2 s.1 (spec_all cs M).2 /\
    (size (spec_all cs M).2 <= fuel)%nat) (head, m).
Proof. intros Hoom. apply exec_all_grows. intros ? ? ? ? _ _. by apply grows_limited. Qed.

(** Whether a table outgrows its memory can be found by running the operations. *)
Lemma outgrows_dec oom fuel cs : forall s, outgrows oom fuel cs s \/
  (forall cs1 cs2 rs s', cs = cs1 ++ cs2 -> exec_all oom fuel cs1 s = Ret (rs, s') -> outgrown s' = false).
Proof.
  induction cs as [|c cs IH]; intros s.
  - destruct (outgrown s) eqn:E; [left; by exists [], [], [], s|right]. intros [|] cs2 rs s' H H1; [|done]. by injection H1 as <- <-.
  - destruct (outgrown s) eqn:E; [left; by exists [], (c :: cs), [], s|]. destruct (exec oom fuel c s) as [[r s1]|] eqn:Ex.
    + destruct (IH s1) as [(cs1 & cs2 & rs & s' & -> & H1 & H2)|H].
      * left. exists (c :: cs1), cs2, (r :: rs), s'. split; [done|]. split; [|done]. cbn [exec_all]. unfold mbind, prog_bind. by rewrite Ex, H1.
      * right. intros [|c' cs1] cs2 rs s' Hc H1; [by injection H1 as <- <-|]. injection Hc as <- ->. cbn [exec_all] in H1.
        unfold mbind, prog_bind in H1. rewrite Ex in H1. destruct (exec_all oom fuel cs1 s1) as [[rs1 s2]|] eqn:E2; [|done].
        injection H1 as <- <-. by eapply H.
    + right. intros [|c' cs1] cs2 rs s' Hc H1; [by injection H1 as <- <-|]. injection Hc as <- ->. cbn [exec_all] in H1.
      unfold mbind, prog_bind in H1. by rewrite Ex in H1.
Qed.

(** C20 A hash table is a finite map: starting from an empty table, any sequence of
    HASH_FIND, HASH_ADD and HASH_DEL that adds each key at most once and deletes elements
    that are in the table answers as the same operations on a finite map from keys to
    elements, through every doubling of the buckets, until the table has 2^29 buckets.
    No access is to freed or foreign memory, every loop ends, and the only way not to return
    is exit(-1) after the allocator has refused a request, of less than 16 GiB.  (With 2^31
    buckets the next doubling overflows: [doubling_wraps].) *)
Theorem table_refines_map (oom : mem -> Z -> bool) (fuel n : nat) (cs : list cmd) (m : mem)
  (Hw : well_used (elems m) n cs ∅) (Hn : (n <= fuel)%nat) (Hl : (length cs <= fuel)%nat)
  (Hf : Z.of_nat fuel < 2 ^ 32) :
  outgrows oom fuel cs (None, m) \/
  match exec_all oom fuel cs (None, m) with
  | Ret (rs, (head, m')) => rs = (spec_all cs ∅).1 /\ represents m' head (spec_all cs ∅).2
  | Crash c => c = ProcessExit /\ exists m' sz, oom m' sz = true /\ sz < 2 ^ 34
  end.
Proof.
  destruct (outgrows_dec oom fuel cs (None, m)) as [H|H]; [by left|right].
  assert (Hr := exec_all_grows (refused oom) oom fuel cs m None ∅ n ltac:(intros; apply grows_refused; by eapply H)
    (or_introl (conj eq_refl eq_refl)) Hw Hn Hl Hf). unfold wp in Hr.
  destruct (exec_all _ _ _ _) as [[rs [head m']]|]; [|done]. by destruct Hr as (H1 & H2 & _).
Qed.

(** With 2^31 buckets the number of the new ones is computed as zero: malloc is asked for
    nothing, and the first element that is moved is written beyond what it gave. *)
Lemma doubling_wraps oom fuel m t T b a h : tables m !! t = Some T -> num_buckets T = 2 ^ 31 ->
  buckets T !! 0%nat = Some b -> hh_head b = Some a -> elems m !! a = Some h -> oom m 0 = false ->
  HASH_EXPAND_BUCKETS oom (S fuel) (Some t) m = Crash OutOfBounds.
Proof.
  intros Ht Hn Hb Hh Ha Ho.
  assert (Hw : wp (eq OutOfBounds) (HASH_EXPAND_BUCKETS oom (S fuel) (Some t)) (fun _ _ => False) m).
  { unfold HASH_EXPAND_BUCKETS. apply wp_bind. eapply wp_table; [exact Ht|]. rewrite Hn. change (u32 (2 * 2 ^ 31)) with 0.
    apply wp_bind, wp_malloc; [change (0 * sizeof_bucket) with 0; congruence|]. intros _.
    apply wp_bind. eapply wp_upd_table; [exact Ht|]. apply wp_bind. destruct (Z.to_nat (2 ^ 31)) as [|n] eqn:En; [lia|]. cbn [expand_buckets].
    apply wp_bind. eapply wp_bucket; [apply lookup_insert_eq|lia|exact Hb|]. apply wp_bind. rewrite Hh. cbn [expand_chain].
    apply wp_bind. eapply wp_hh; [exact Ha|]. apply wp_bind. eapply wp_table; [apply lookup_insert_eq|]. cbn [num_buckets set_ideal].
    rewrite Hn. apply wp_bind, wp_lift. unfold c_read. change (replicate (Z.to_nat 0) empty_bucket) with (@nil UT_hash_bucket).
    rewrite lookup_nil. by destruct (_ <=? _). }
  unfold wp in Hw. destruct (HASH_EXPAND_BUCKETS _ _ _ _) as [[]|c]; [done|by subst].
Qed.

(** C21 The checker of the table never objects: after any such sequence of operations
    HASH_FSCK returns instead of ending the process, that is every chain and the list in the
    order of insertion are linked both ways, the counts of the buckets and of the table
    are right; HASH_COUNT is the number of keys and HASH_ITER visits every element once. *)
Theorem fsck_never_objects (oom : mem -> Z -> bool) (fuel n : nat) (cs : list cmd) (m : mem)
  (rs : list (option positive)) (head : option positive) (m' : mem)
  (Hoom : limited oom) (Hw : well_used (elems m) n cs ∅) (Hn : (n <= fuel)%nat) (Hl : (length cs <= fuel)%nat)
  (Hf : Z.of_nat fuel < 2 ^ 32) (Hrun : exec_all oom fuel cs (None, m) = Ret (rs, (head, m'))) :
  let M := (spec_all cs ∅).2 in
  HASH_FSCK fuel head m' = Ret (tt, m') /\ HASH_CNT head m' = Ret (Z.of_nat (size M), m') /\
  exists l, HASH_ITER fuel head m' = Ret (l, m') /\ NoDup l /\ forall a, a ∈ l <-> exists k, M !! k = Some a.
Proof.
  intros M. assert (H := exec_all_ok oom fuel cs m None ∅ n Hoom (or_introl (conj eq_refl eq_refl)) Hw Hn Hl Hf).
  unfold wp in H. rewrite Hrun in H. destruct H as (_ & HR & Hs).
  destruct (represents_checks no_crash fuel m' head M (represents_weaken _ _ _ HR) Hs) as (H1 & H2 & H3).
  apply wp_run in H1 as ([] & ? & H1 & ->), H2 as (? & ? & H2 & -> & ->), H3 as (l & ? & H3 & Hnd & Hl' & ->).
  split_and!; [done|done|]. by exists l.
Qed.

(** The hash function stays inside the key and inside the table: for every key of
    [n] bytes HASH_JEN returns after reading bytes 0 to n-1 only, with a 32-bit value and,
    for a table of 2^lg buckets, the number of one of its buckets; value and bucket do
    not depend on the steps it may take. *)
Theorem jen_stays_inside (fuel : nat) (k : list Z) (lg : Z)
  (Hk : Z.of_nat (length k) < 2 ^ 32) (Hf : (length k <= fuel)%nat) (Hlg : 0 <= lg < 32) :
  exists v b, HASH_JEN fuel k (Z.of_nat (length k)) (2 ^ lg) = Ret (v, b) /\ 0 <= v < 2 ^ 32 /\
    b = v mod 2 ^ lg /\ 0 <= b < 2 ^ lg /\ v = jen_hash k.
Proof.
  destruct (jen_ok k Hk) as [Hv Hj]. exists (jen_hash k), (jen_hash k mod 2 ^ lg). rewrite Hj, to_bkt by (done || lia).
  split; [done|]. split; [done|]. split; [done|]. split; [apply Z.mod_pos_bound, Z.pow_pos_nonneg; lia|done].
Qed.

Lemma jen_stays_inside_witness :
  exists v b, HASH_JEN 20 (Z.of_nat <$> seq 100 16) 16 (2 ^ 5) = Ret (v, b) /\ 0 <= b < 32.
Proof.
  destruct (jen_stays_inside 20 (Z.of_nat <$> seq 100 16) 5) as (v & b & E & _ & _ & Hb & _).
  - cbn. lia.
  - cbn. lia.
  - lia.
  - exists v, b. split; [exact E|exact Hb].
Defined.

(** Forty elements with keys of two bytes, all added, one deleted and two looked up. *)
Definition blank : UT_hash_handle := mkHandle None None None None None [] 0 0.

Definition forty_elems : mem := mkMem (list_to_map ((fun i => (Pos.of_succ_nat i, blank)) <$> seq 0 40)) ∅.

Definition forty_cmds : list cmd :=
  ((fun i => Add (Pos.of_succ_nat i) [Z.of_nat i; 7]) <$> seq 0 40) ++ [Del 5; Find [4; 7]; Find [30; 7]].

Definition never_full (m : mem) (sz : Z) : bool := 2 ^ 34 <=? sz.

Lemma never_full_limited : limited never_full.
Proof. intros m sz H. by apply Z.leb_le. Qed.

#[local] Instance allowed_dec es n c M : Decision (allowed es n c M).
Proof.
  destruct c as [k|a k|a]; cbn; [apply _| |].
  - refine (cast_if (decide ((length k <= n)%nat /\ is_Some (es !! a) /\ M !! k = None /\
      map_Forall (fun _ x => x <> a) M))); unfold map_Forall in *; naive_solver.
  - destruct (decide (map_Forall (fun _ x => x <> a) M)) as [Hall|Hex]; [right|left].
    + intros [k Hk]. by apply (Hall k a Hk).
    + apply map_not_Forall in Hex as (k & x & Hk & Hx); [|apply _]. exists k. rewrite Hk. f_equal. by destruct (decide (x = a)).
Defined.

Fixpoint well_usedb (es : gmap positive UT_hash_handle) (n : nat) (cs : list cmd) (M : gmap (list Z) positive) : bool :=
  match cs with
  | [] => true
  | c :: cs' => bool_decide (allowed es n c M) && well_usedb es n cs' (spec c M).2
  end.

Lemma well_usedb_ok es n cs : forall M, well_usedb es n cs M = true -> well_used es n cs M.
Proof.
  induction cs as [|c cs IH]; intros M; cbn; [done|]. intros [H1%bool_decide_eq_true H2]%andb_true_iff. auto.
Qed.

Lemma forty_used : well_used (elems forty_elems) 2 forty_cmds ∅.
Proof. apply well_usedb_ok. vm_compute. reflexivity. Qed.

(** [outgrows], computed. *)
Fixpoint outgrowsb (oom : mem -> Z -> bool) (fuel : nat) (cs : list cmd) (s : option positive * mem) : bool :=
  outgrown s || match cs with [] => false | c :: cs' => match exec oom fuel c s with Ret (_, s') => outgrowsb oom fuel cs' s' | Crash _ => false end end.

Lemma outgrows_computed oom fuel cs : forall s, outgrows oom fuel cs s -> outgrowsb oom fuel cs s = true.
Proof.
  induction cs as [|c cs IH]; intros s (cs1 & cs2 & rs & s' & E & Hr & Ho); cbn [outgrowsb]; apply orb_true_iff.
  - left. destruct cs1; [|done]. by injection Hr as _ <-.
  - destruct cs1 as [|c' cs1]; [left; by injection Hr as _ <-|right]. injection E as <- ->. cbn [exec_all] in Hr. unfold mbind, prog_bind in Hr.
    destruct (exec oom fuel c s) as [[r s1]|]; [|done]. destruct (exec_all oom fuel cs1 s1) as [[rs1 s2]|] eqn:E; [|done].
    injection Hr as _ <-. apply IH. by exists cs1, cs2, rs1, s2.
Qed.

Lemma table_refines_map_witness :
  exists rs head m', exec_all never_full 100 forty_cmds (None, forty_elems) = Ret (rs, (head, m')) /\
    drop 40 rs = [None; None; Some 31%positive] /\ represents m' head (spec_all forty_cmds ∅).2.
Proof.
  assert (H := table_refines_map never_full 100 2 forty_cmds forty_elems forty_used
    ltac:(lia) ltac:(cbn; lia) ltac:(lia)). destruct H as [H|H].
  { exfalso. apply outgrows_computed in H. vm_compute in H. discriminate. }
  destruct (exec_all never_full 100 forty_cmds (None, forty_elems)) as [[rs [head m']]|c] eqn:E.
  - exists rs, head, m'. split; [reflexivity|]. destruct H as [-> HR]. split; [vm_compute; reflexivity|exact HR].
  - exfalso. vm_compute in E. discriminate.
Defined.

Lemma fsck_never_objects_witness :
  exists rs head m', exec_all never_full 100 forty_cmds (None, forty_elems) = Ret (rs, (head, m')) /\
    HASH_FSCK 100 head m' = Ret (tt, m') /\ HASH_CNT head m' = Ret (39, m').
Proof.
  destruct (exec_all never_full 100 forty_cmds (None, forty_elems)) as [[rs [head m']]|c] eqn:E.
  - destruct (fsck_never_objects never_full 100 2 forty_cmds forty_elems rs head m' never_full_limited forty_used
      ltac:(lia) ltac:(cbn; lia) ltac:(lia) E) as (H1 & H2 & _).
    exists rs, head, m'. split; [reflexivity|]. split; [exact H1|].
    assert (Es : size (spec_all forty_cmds ∅).2 = 39%nat) by (vm_compute; reflexivity). rewrite Es in H2. exact H2.
  - exfalso. vm_compute in E. discriminate.
Defined.

End TableProperties.
