(* ===== verification/HashSort.v ===== *)
(** * Sorting a hash table: HASH_SRT of common/uthash.h

    The merge sort of MergeSort.v on the list in the order of insertion.  The chains of
    the buckets stay as they are, so that the table represents the same map. *)

From stdpp Require Import sorting.
From S2P Require Import Prelude Links MergeSort Uthash HashTable.

#[local] Open Scope Z_scope.

Module HashSort.
Import Uthash.

Section Sort.
(** The comparison function of the caller, on the elements at two addresses. *)
Variable cmpfcn : positive -> positive -> Z.

(** The links in the order of insertion, with unsigned counters. *)
Definition hash_ops : Sort.ops mem := {|
  Sort.o_int := fun x => Ret (u32 x);
  Sort.o_circular := false;
  Sort.o_double := true;
  Sort.o_ring := false;
  Sort.o_next := fun p => h ← hh p; mret (next h);
  Sort.o_set_next := fun p v => upd_hh p (set_next v);
  Sort.o_set_prev := fun p v => upd_hh p (set_prev v);
  Sort.o_cmp := fun p q =>
    match p, q with Some a, Some b => mret (cmpfcn a b) | _, _ => crash_with NullDeref end
|}.

(** The new head. *)
Definition HASH_SRT (fuel : nat) (head : option positive) : prog mem (option positive) :=
  match head with
  | None => mret None
  | Some _ =>
      '(list, last) ← Sort.sort hash_ops fuel head;
      t ← tbl_of head;
      _ ← upd_table t (set_tail last);
      mret list
  end.

End Sort.
End HashSort.

Section HashSortFacts.
Import Uthash HashSort.
Implicit Types (m : mem) (l : list positive) (a : positive).
Variable cmp : positive -> positive -> Z.

(** What the sort does not touch. *)
Definition kept (l0 : list positive) m m' : Prop :=
  no_app <$> elems m' = no_app <$> elems m /\ tables m' = tables m /\ forall a, a ∉ l0 -> elems m' !! a = elems m !! a.

Lemma kept_alive l0 m m' a : kept l0 m m' -> is_Some (elems m !! a) -> is_Some (elems m' !! a).
Proof. intros (H & _) Ha. by apply (erased_some no_app (elems m)). Qed.

(** An assignment to a link of an element of the list. *)
Lemma kept_upd l0 m m1 a f :
  kept l0 m m1 -> a ∈ l0 -> is_Some (elems m !! a) -> (forall h, no_app (f h) = no_app h) ->
  exists m', upd_hh (Some a) f m1 = Ret (tt, m') /\ kept l0 m m' /\ elems m' = alter f a (elems m1).
Proof.
  intros Hk Ha Hs Hf. assert (Hs1 := kept_alive _ _ _ _ Hk Hs). destruct Hk as (H1 & H2 & H3).
  assert (Hw : wp no_crash (upd_hh (Some a) f) (fun _ m' => m' = mkMem (alter f a (elems m1)) (tables m1)) m1) by (by apply wp_upd_hh).
  apply wp_run in Hw as ([] & m' & E & ->). exists (mkMem (alter f a (elems m1)) (tables m1)). split; [done|]. split; [|done].
  split_and!; [cbn; by rewrite (alter_erased no_app f)|done|]. intros b Hb. cbn. rewrite lookup_alter_ne; [by apply H3|]. intros ->. done.
Qed.

Lemma hash_laws l0 m0 : (forall a, a ∈ l0 -> is_Some (elems m0 !! a)) ->
  laws (hash_ops cmp) (kept l0 m0) (fun a => a ∈ l0) (fun m => fld next (elems m)) (fun m => fld prev (elems m)) cmp (2 ^ 32 - 1).
Proof.
  intros Hl. split; cbn [Sort.o_int Sort.o_next Sort.o_set_next Sort.o_set_prev Sort.o_cmp hash_ops].
  - intros x Hx. rewrite u32_small; [done|lia].
  - intros m a Hk Ha. destruct (kept_alive _ _ _ _ Hk (Hl a Ha)) as [h E]. unfold fld, hh, mbind, prog_bind. by rewrite E.
  - intros m a v Hk Ha. destruct (kept_upd l0 m0 m a (set_next v) Hk Ha (Hl a Ha)) as (m' & E & Hk' & Ee); [done|].
    destruct (kept_alive _ _ _ _ Hk (Hl a Ha)) as [h Eh].
    exists m'. split; [done|]. split; [done|]. rewrite Ee. split; intros b; rewrite fld_alter by (by rewrite Eh); rewrite Eh; cbn; [done|].
    destruct (decide (b = a)) as [->|]; [|done]. unfold fld. by rewrite Eh.
  - intros m a v Hk Ha. destruct (kept_upd l0 m0 m a (set_prev v) Hk Ha (Hl a Ha)) as (m' & E & Hk' & Ee); [done|].
    destruct (kept_alive _ _ _ _ Hk (Hl a Ha)) as [h Eh].
    exists m'. split; [done|]. split; [done|]. rewrite Ee. split; intros b; rewrite fld_alter by (by rewrite Eh); rewrite Eh; cbn; [done|].
    destruct (decide (b = a)) as [->|]; [|done]. unfold fld. by rewrite Eh.
  - intros m a b _ _ _. done.
Qed.

(** The sort of a table that represents a map. *)
Lemma srt_ok fuel m t T l cs :
  rep_at m t T l cs -> l <> [] -> ordered cmp -> (length l <= fuel)%nat -> 2 * Z.of_nat (length l) < 2 ^ 32 ->
  exists m' T' l', HASH_SRT cmp fuel (first l None) m = Ret (first l' None, m') /\ rep_at m' t T' l' cs /\
    sorted_from cmp l l' /\ no_app <$> elems m' = no_app <$> elems m.
Proof.
  intros R Hl Ho Hf Hb. assert (Hs : forall a, a ∈ l -> is_Some (elems m !! a)).
  { intros a Ha. destruct (proj1 (r_app _ _ _ _ _ _ R) a Ha) as (h & -> & _). done. }
  destruct (r_app _ _ _ _ _ _ R) as (He & Hnd & [Hc Hbk]%seg_split).
  destruct (sort_ok (hash_ops cmp) _ _ _ _ _ _ (hash_laws l m Hs) Ho fuel m l) as (m' & l' & E & Hsf & [Hk Hlv Hnd' Hc' Hb']);
    [|done|lia|].
  { split; [done|by apply list.Forall_forall|done|done|done]. }
  assert (Hpm := sf_perm _ _ _ Hsf). destruct Hk as (K1 & K2 & K3).
  destruct (first_is l Hl) as (a0 & E0 & Ha0). destruct (He a0 Ha0) as (h0 & Eh0 & Et0 & _).
  destruct (erased_lookup no_app _ _ a0 h0 K1 Eh0) as (h1 & Eh1 & Eh). injection Eh as Et1 _ _ _ _ _.
  exists (mkMem (elems m') (<[t := set_tail (final None l') T]> (tables m'))), (set_tail (final None l') T), l'.
  split; [|split; [|done]].
  - unfold HASH_SRT. rewrite E0 in E |- *. unfold mbind, prog_bind. rewrite E.
    unfold tbl_of, hh, mbind, prog_bind. rewrite Eh1. cbn. rewrite Et1, Et0. unfold upd_table.
    by rewrite K2, (r_table _ _ _ _ _ _ R).
  - destruct R as [R1 R2 R3 R4 R5 R6 R7 R8 R9]. split; cbn; try done.
    + apply lookup_insert_eq.
    + split; [intros a Ha; apply (elem_ok_app (elems m)); [done|]; apply He; by rewrite <- Hpm|]. split; [done|].
      apply seg_split. split; [done|]. by apply Hb'.
    + by rewrite (Permutation_length Hpm).
    + by rewrite (Permutation_length Hpm).
    + apply (chains_same (elems m)); [|done]. intros x _. by rewrite <- !lookup_fmap, K1.
    + by rewrite Hpm.
Qed.

End HashSortFacts.

Section HashSortProperties.
Import Uthash HashSort.

(** C24 HASH_SRT sorts a table: for every comparison that orders the elements it returns,
    the table represents the same map from keys to elements as before and passes the
    checker HASH_FSCK, and a visit with HASH_ITER goes through the elements in order, those
    that compare as equal in the order in which they were visited before. *)
Theorem table_sorted (cmp : positive -> positive -> Z) (fuel : nat) (m : mem) (head : option positive)
  (M : gmap (list Z) positive)
  (HR : represents m head M) (Ho : ordered cmp) (Hf : (size M <= fuel)%nat) (Hs : Z.of_nat (size M) < 2 ^ 31) :
  exists head' m' l l',
    HASH_SRT cmp fuel head m = Ret (head', m') /\ represents m' head' M /\ HASH_FSCK fuel head' m' = Ret (tt, m') /\
    HASH_ITER fuel head m = Ret (l, m) /\ HASH_ITER fuel head' m' = Ret (l', m') /\ sorted_from cmp l l'.
Proof.
  destruct HR as [[-> ->]|(t & T & l & cs & -> & Hl & R & Hc)].
  { exists None, m, [], []. split_and!; try (by destruct fuel); [by left|]. split; [constructor|done|done]. }
  assert (Hsz : size M = length l).
  { apply (contents_size (elems m)); try done; [apply R|]. intros x Hx.
    destruct (proj1 (r_app _ _ _ _ _ _ R) x Hx) as (h & -> & _). done. }
  destruct (srt_ok cmp fuel m t T l cs R Hl Ho ltac:(lia) ltac:(lia)) as (m' & T' & l' & E & R' & Hsf & Hk).
  assert (Hpm := sf_perm _ _ _ Hsf). exists (first l' None), m', l, l'.
  assert (HR' : represents m' (first l' None) M).
  { right. exists t, T', l', cs. split_and!; try done; [intros ->; by apply Permutation_nil_l in Hpm|].
    intros k a. rewrite (app_erased_key (elems m)) by done. rewrite Hpm. apply Hc. }
  assert (Hit : forall m0 T0 l0, rep_at m0 t T0 l0 cs -> (length l0 <= fuel)%nat -> HASH_ITER fuel (first l0 None) m0 = Ret (l0, m0)).
  { intros m0 T0 l0 R0 Hf0. assert (Hw : wp no_crash (HASH_ITER fuel (first l0 None)) (fun r s => r = l0 /\ s = m0) m0).
    { destruct (r_app _ _ _ _ _ _ R0) as (A1 & A2 & A3). apply (wp_iter no_crash m0 l0 fuel None); try done.
      intros x (h & -> & _)%A1. done. }
    apply wp_run in Hw as (? & ? & -> & -> & ->). done. }
  split_and!; try done.
  - destruct (represents_checks no_crash fuel m' _ M (represents_weaken _ _ _ HR') Hf) as (H1 & _). by apply wp_run in H1 as ([] & ? & -> & ->).
  - apply (Hit m T l R). lia.
  - apply (Hit m' T' l' R'). rewrite (Permutation_length Hpm). lia.
Qed.

(** Elements by address, larger ones first. *)
Definition descending (a b : positive) : Z := Zpos b - Zpos a.

Lemma table_sorted_witness :
  exists rs head m0 head' m' l', exec_all never_full 100 forty_cmds (None, forty_elems) = Ret (rs, (head, m0)) /\
    HASH_SRT descending 100 head m0 = Ret (head', m') /\ HASH_ITER 100 head' m' = Ret (l', m') /\ take 3 l' = [40; 39; 38]%positive.
Proof.
  assert (H := exec_all_ok never_full 100 forty_cmds forty_elems None ∅ 2 never_full_limited (or_introl (conj eq_refl eq_refl)) forty_used
    ltac:(lia) ltac:(vm_compute; lia) ltac:(lia)). unfold wp in H.
  destruct (exec_all never_full 100 forty_cmds (None, forty_elems)) as [[rs [head m0]]|c] eqn:E; [|exfalso; vm_compute in E; discriminate].
  destruct H as (_ & HR & Hsz). cbn [fst snd] in HR.
  destruct (table_sorted descending 100 m0 head (spec_all forty_cmds ∅).2) as (head' & m' & l & l' & E1 & _ & _ & _ & E2 & _);
    [exact HR|split; intros; unfold le, descending in *; lia|exact Hsz|lia|].
  exists rs, head, m0, head', m', l'. split; [reflexivity|]. split; [exact E1|]. split; [exact E2|].
  vm_compute in E. injection E as _ <- <-. vm_compute in E1. injection E1 as <- <-. vm_compute in E2. by injection E2 as <-.
Defined.

End HashSortProperties.
