(* ===== verification/HashSelect.v ===== *)
(** * Selecting elements of a table: HASH_SELECT of common/uthash.h

    The elements of a table that satisfy a condition are added to a second table, through a
    second handle in each of them.  An element is one address in both memories: [src] is
    the memory of its first handle, which HASH_SELECT only reads, and the state is the
    memory of the second one. *)

From S2P Require Import Prelude Links Uthash HashTable.

#[local] Open Scope Z_scope.

Module HashSelect.
Import Uthash.

Section Select.
Variables (oom : mem -> Z -> bool) (fuel : nat) (src : mem).

(** cond(_elt) *)
Variable cond : positive -> bool.

(** A read of the source. *)
Definition of_src {A} (p : prog mem A) : prog mem A := fun m => match p src with Ret (a, _) => Ret (a, m) | Crash c => Crash c end.

(** The element [elt], whose source handle is [sh], goes to the table of [dst]; [last] is the
    one before. *)
Definition select_elt (sh : UT_hash_handle) (elt : positive) (dst last : option positive) : prog mem (option positive) :=
  _ ← upd_hh (Some elt) (set_key (key sh) (keylen sh));
  _ ← upd_hh (Some elt) (set_hashv (hashv sh));
  _ ← upd_hh (Some elt) (set_prev last);
  _ ← upd_hh (Some elt) (set_next None);
  _ ← (match last with Some _ => upd_hh last (set_next (Some elt)) | None => mret tt end);
  dst ← (match dst with
         | None => _ ← HASH_MAKE_TABLE oom (Some elt); mret (Some elt)
         | Some _ => t ← tbl_of dst; _ ← upd_hh (Some elt) (set_tbl t); mret dst
         end);
  d ← hh (Some elt);
  T ← table (tbl d);
  _ ← HASH_ADD_TO_BKT oom fuel (tbl d) (HASH_TO_BKT (hashv d) (num_buckets T)) (Some elt);
  t ← tbl_of dst;
  _ ← upd_table t (fun T => set_num_items (u32 (num_items T + 1)) T);
  mret dst.

(** The chain of one bucket of the source; the head of the new table and the last element. *)
Fixpoint select_chain (fuel : nat) (sh dst last : option positive) : prog mem (option positive * option positive) :=
  match sh with
  | None => mret (dst, last)
  | Some elt =>
      match fuel with
      | O => crash_with NoFuel
      | S fuel' =>
          h ← of_src (hh sh);
          if cond elt then dst ← select_elt h elt dst last; select_chain fuel' (hh_next h) dst (Some elt)
          else select_chain fuel' (hh_next h) dst last
      end
  end.

(** The buckets of the source from number [i]; [n] of them are left. *)
Fixpoint select_buckets (n : nat) (t : option positive) (i : Z) (dst last : option positive) :
    prog mem (option positive * option positive) :=
  match n with
  | O => mret (dst, last)
  | S n' =>
      b ← of_src (bucket t i);
      '(dst, last) ← select_chain fuel (hh_head b) dst last;
      select_buckets n' t (i + 1) dst last
  end.

(** The new head of the destination. *)
Definition HASH_SELECT (dst head : option positive) : prog mem (option positive) :=
  match head with
  | None => mret dst
  | Some _ =>
      t ← of_src (tbl_of head);
      T ← of_src (table t);
      '(dst, _) ← select_buckets (Z.to_nat (num_buckets T)) t 0 dst None;
      mret dst
  end.

End Select.
End HashSelect.

Section SelectFacts.
Import Uthash HashSelect.
Implicit Types (es : gmap positive UT_hash_handle) (m : mem) (l c : list positive) (cs : list (list positive)).

(** The new table holds [l]; its tail is still the first element. *)
Definition selected m (dst : option positive) l : Prop :=
  dst = first l None /\ (l <> [] -> exists t T cs, rep_upto (first l None) m t T l cs).

(** The end of a selection: the element [a] has been linked behind [l]. *)
Lemma wp_select_add F oom fuel m t T l cs a ha hd h0 z (Q : option positive -> mem -> Prop) :
  exits F oom (log2_num_buckets T) -> tables m !! t = Some T -> num_buckets T = 2 ^ log2_num_buckets T -> 5 <= log2_num_buckets T < 30 ->
  num_items T = Z.of_nat (length l) -> (l = [] -> forall b, b ∈ buckets T -> b = empty_bucket) -> tail T = z ->
  mjoin cs ≡ₚ l -> Z.of_nat (length l) + 1 < 2 ^ 32 -> (length l < fuel)%nat ->
  chains (elems m) (num_buckets T) (buckets T) cs -> app_rep (elems m) t (l ++ [a]) ->
  elems m !! a = Some ha -> elems m !! hd = Some h0 -> tbl h0 = Some t ->
  (forall m' T' cs', rep_upto z m' t T' (l ++ [a]) cs' -> (forall x, key <$> elems m' !! x = key <$> elems m !! x) -> Q (Some hd) m') ->
  wp F (d ← hh (Some a); T ← table (tbl d);
    _ ← HASH_ADD_TO_BKT oom fuel (tbl d) (HASH_TO_BKT (hashv d) (num_buckets T)) (Some a);
    t ← tbl_of (Some hd); _ ← upd_table t (fun T => set_num_items (u32 (num_items T + 1)) T); mret (Some hd)) Q m.
Proof.
  intros Hoom Ht Hn Hlg Hni Hem Htl Hp Hlen Hf Hch Happ Ha Hd Htd HQ. assert (Happ' := Happ). destruct Happ' as (He & Hnd & Hs).
  destruct (He a ltac:(set_solver)) as (ha' & Ea & Hta & Hkl & Hks & Hhv). rewrite Ha in Ea. injection Ea as <-.
  apply wp_bind. eapply wp_hh; [exact Ha|]. rewrite Hta. apply wp_bind. eapply wp_table; [exact Ht|].
  assert (Hv := jen_ok (key ha) Hks). rewrite Hn, to_bkt by (lia || (rewrite Hhv; lia)). rewrite <- Hn.
  assert (Hpa : a :: l ≡ₚ l ++ [a]) by apply Permutation_cons_append.
  assert (Hh : forall x, x ∈ a :: l -> is_Some (elems m !! x) /\ 0 <= hash_at (elems m) x).
  { intros x Hx. rewrite Hpa in Hx. destruct (He x Hx) as (h & E & _ & _ & Hl & Hh). split; [by rewrite E|].
    unfold hash_at. rewrite E, Hh. by apply jen_ok. }
  apply wp_bind. apply (wp_add_to_bkt F oom fuel m t T l cs a ha); try done; try (cbn; lia).
  - destruct l; [right; by apply Hem|left; rewrite Hni; cbn in *; lia].
  - by rewrite Hpa.
  - intros x Hx. by apply Hh.
  - intros x Hx. by apply Hh.
  - intros es' T' cs' H1 H2 H3 H4 H5 H6 H7. destruct (erased_lookup no_chain _ es' hd h0 H7 Hd) as (h1 & Eh1 & Eh).
    injection Eh as Et _ _ _ _ _. apply wp_bind. eapply wp_tbl_of; [exact Eh1|]. rewrite Et, Htd.
    apply wp_bind. eapply wp_upd_table; [apply lookup_insert_eq|]. apply wp_ret, (HQ _ (set_num_items (u32 (num_items T' + 1)) T') cs').
    + cbn [elems tables]. rewrite insert_insert_eq. split; cbn [elems tables]; try done.
      * apply lookup_insert_eq.
      * by eapply app_rep_erased.
      * cbn. congruence.
      * cbn. rewrite H3, Hni, length_app, u32_small by lia. cbn. lia.
      * rewrite length_app. cbn. lia.
      * by rewrite H5.
    + cbn [elems]. intros x. by apply key_erased.
Qed.

(** The handle of a selected element before it enters its chain. *)
Definition selected_handle (sh h : UT_hash_handle) (t last : option positive) : UT_hash_handle :=
  mkHandle t last None (hh_prev h) (hh_next h) (key sh) (keylen sh) (hashv sh).

Definition source_ok (sh : UT_hash_handle) : Prop :=
  keylen sh = Z.of_nat (length (key sh)) /\ Z.of_nat (length (key sh)) < 2 ^ 32 /\ hashv sh = jen_hash (key sh).

Lemma wp_select_first F oom fuel sh m a (Q : option positive -> mem -> Prop) :
  exits F oom 5 -> source_ok sh -> is_Some (elems m !! a) -> (0 < fuel)%nat ->
  (forall m', selected m' (Some a) [a] -> (forall x, x <> a -> key <$> elems m' !! x = key <$> elems m !! x) ->
     key <$> elems m' !! a = Some (key sh) -> Q (Some a) m') ->
  wp F (select_elt oom fuel sh a None None) Q m.
Proof.
  intros Hoom (S1 & S2 & S3) [h Ha] Hf HQ. unfold select_elt. apply wp_bind, wp_upd_hh; [by rewrite Ha|].
  do 3 (apply wp_bind, wp_upd_hh; [cbn; by rewrite lookup_alter_eq, Ha|]; cbn [elems tables]; rewrite alter_twice).
  apply wp_bind, wp_ret. unfold HASH_MAKE_TABLE.
  apply wp_bind, wp_bind, wp_bind, wp_malloc; [by apply (exits_small F oom 5)|]. intros _. apply wp_bind. eapply wp_Ret; [reflexivity|]. cbn [elems tables].
  set (t := fresh (dom (tables m))). apply wp_bind. eapply wp_Ret; [reflexivity|].
  apply wp_bind, wp_upd_hh; [cbn; by rewrite lookup_alter_eq, Ha|]. cbn [elems tables]. rewrite alter_twice.
  apply wp_bind. eapply wp_upd_table; [apply lookup_insert_eq|]. apply wp_bind. eapply wp_upd_table; [apply lookup_insert_eq|].
  apply wp_bind, wp_malloc; [by apply (exits_small F oom 5)|]. intros _. apply wp_bind. eapply wp_upd_table; [apply lookup_insert_eq|].
  eapply wp_upd_table; [apply lookup_insert_eq|]. apply wp_ret. cbn [elems tables]. rewrite !insert_insert_eq.
  set (es1 := alter _ a (elems m)). set (T1 := mkTable _ _ _ _ _ _ _ _ _ _). set (h1 := selected_handle sh h (Some t) None).
  assert (Ea : es1 !! a = Some h1) by (unfold es1; rewrite lookup_alter_eq, Ha; done).
  assert (Eo : forall x, x <> a -> es1 !! x = elems m !! x) by (intros x Hx; unfold es1; by rewrite lookup_alter_ne by congruence).
  eapply (wp_select_add F oom fuel _ t T1 [] (replicate 32 []) a h1 a h1); cbn [elems tables]; try done; try (cbn; lia).
  - apply lookup_insert_eq.
  - intros _ b [-> _]%elem_of_replicate. done.
  - split; [done|]. split; [done|]. intros i b c [-> _]%lookup_replicate [-> _]%lookup_replicate. split_and!; try done. set_solver.
  - split; [|split; [apply NoDup_singleton|cbn; unfold fld; by rewrite Ea]].
    intros x ->%list_elem_of_singleton. exists h1. by split_and!.
  - intros m' T' cs' Hr Hkey. apply HQ.
    + split; [done|]. intros _. by exists t, T', cs'.
    + intros x Hx. by rewrite Hkey, Eo.
    + by rewrite Hkey, Ea.
Qed.

Lemma wp_select_more F oom fuel sh m t T l cs a (Q : option positive -> mem -> Prop) :
  exits F oom (log2_num_buckets T) -> source_ok sh -> rep_upto (first l None) m t T l cs -> l <> [] -> a ∉ l -> is_Some (elems m !! a) ->
  (length l < fuel)%nat -> Z.of_nat (length l) + 1 < 2 ^ 32 ->
  (forall m', selected m' (first l None) (l ++ [a]) -> (forall x, x <> a -> key <$> elems m' !! x = key <$> elems m !! x) ->
     key <$> elems m' !! a = Some (key sh) -> Q (first l None) m') ->
  wp F (select_elt oom fuel sh a (first l None) (final None l)) Q m.
Proof.
  intros Hoom (S1 & S2 & S3) R Hl Hal [h Ha] Hf Hlen HQ. destruct R as [R1 (R2a & R2b & R2c) R3 R4 R5 R6 R7 R8 R9].
  destruct (first_is l Hl) as (hd & Ehd & Hhd). destruct (final_is l Hl) as (z & Ez & Hz).
  destruct (R2a hd Hhd) as (hh0 & Eh0 & Th0 & _). destruct (R2a z Hz) as (hz & Ehz & Thz & _). rewrite Ehd, Ez in *.
  assert (Hne : forall x, x ∈ l -> x <> a) by (intros x Hx ->; done). assert (Hda := Hne hd Hhd). assert (Hza := Hne z Hz).
  unfold select_elt. apply wp_bind, wp_upd_hh; [by rewrite Ha|].
  do 3 (apply wp_bind, wp_upd_hh; [cbn; by rewrite lookup_alter_eq, Ha|]; cbn [elems tables]; rewrite alter_twice).
  apply wp_bind, wp_upd_hh; [cbn; rewrite lookup_alter_ne by done; by rewrite Ehz|]. cbn [elems tables].
  apply wp_bind, wp_bind.
  assert (Ehd1 : exists h1, alter (set_next (Some a)) z (elems m) !! hd = Some h1 /\ tbl h1 = Some t).
  { destruct (decide (hd = z)) as [->|]; [rewrite lookup_alter_eq, Ehz; by eexists|]. rewrite lookup_alter_ne by done. by exists hh0. }
  destruct Ehd1 as (h1 & Eh1 & Th1).
  set (es0 := alter _ z _). assert (Eh2 : es0 !! hd = Some h1).
  { unfold es0. destruct (decide (hd = z)) as [->|].
    - rewrite lookup_alter_eq in Eh1 |- *. by rewrite lookup_alter_ne by done.
    - rewrite lookup_alter_ne in Eh1 |- * by done. by rewrite lookup_alter_ne by done. }
  eapply wp_tbl_of; [exact Eh2|]. rewrite Th1. apply wp_bind, wp_upd_hh.
  { cbn. unfold es0. rewrite lookup_alter_ne, lookup_alter_eq, Ha by done. done. }
  apply wp_ret. cbn [elems tables]. set (es1 := alter _ a es0). set (ha := selected_handle sh h (Some t) (Some z)).
  assert (Ea : es1 !! a = Some ha) by (unfold es1, es0; rewrite lookup_alter_eq, lookup_alter_ne, lookup_alter_eq, Ha by done; done).
  assert (Ezz : es1 !! z = Some (set_next (Some a) hz))
    by (unfold es1, es0; rewrite lookup_alter_ne, lookup_alter_eq, lookup_alter_ne, Ehz by done; done).
  assert (Eo : forall x, x <> a -> x <> z -> es1 !! x = elems m !! x)
    by (intros x Hx Hxz; unfold es1, es0; by rewrite !lookup_alter_ne by congruence).
  assert (Ek : forall x, x <> a -> key <$> es1 !! x = key <$> elems m !! x).
  { intros x Hx. destruct (decide (x = z)) as [->|]; [by rewrite Ezz, Ehz|by rewrite Eo]. }
  assert (Eh3 : es1 !! hd = Some h1) by (unfold es1; by rewrite lookup_alter_ne by done).
  eapply (wp_select_add F oom fuel _ t T l cs a ha hd h1 (Some hd)); cbn [elems tables]; try done.
  - apply (chains_same (elems m)); [|done]. intros x Hx. rewrite R9 in Hx.
    destruct (decide (x = z)) as [->|]; [by rewrite Ezz, Ehz|]. rewrite Eo; auto.
  - split; [|split].
    + intros x Hx. apply elem_of_app in Hx as [Hx| ->%list_elem_of_singleton]; [|exists ha; by split_and!].
      destruct (R2a x Hx) as (hx & Ex & H1 & H2 & H3 & H4). unfold elem_ok.
      destruct (decide (x = z)) as [->|]; [|rewrite Eo by auto; by exists hx]. exists (set_next (Some a) hz). cbn. by simplify_eq.
    + apply list.NoDup_app. split_and!; [done|set_solver|apply NoDup_singleton].
    + apply seg_app. cbn. rewrite Ez. split; [|unfold fld; rewrite Ea; done].
      apply (seg_next (fld next (elems m)) _ _ None l None); [done| |].
      * intros x Hx. rewrite Ez. unfold fld. destruct (decide (Some x = Some z)) as [[= ->]|]; [by rewrite Ezz|].
        rewrite Eo by (auto || congruence). done.
      * apply (seg_same (fld next (elems m)) (fld prev (elems m))); [done| |done]. intros x Hx. unfold fld.
        destruct (decide (x = z)) as [->|]; [by rewrite Ezz, Ehz|by rewrite Eo by auto].
  - intros m' T' cs' Hr Hkey. apply HQ.
    + assert (Ef : first (l ++ [a]) None = Some hd) by (by rewrite first_app, first_some).
      split; [done|]. intros _. exists t, T', cs'. by rewrite Ef.
    + intros x Hx. by rewrite Hkey, Ek.
    + by rewrite Hkey, Ea.
Qed.

(** What holds between two steps: [l] has been selected, with the keys of the source, and
    the elements in [all] have a second handle. *)
Record selecting (src m : mem) (all l : list positive) : Prop := mkSelecting {
  sl_table : selected m (first l None) l;
  sl_keys : forall x, x ∈ l -> key <$> elems m !! x = key <$> elems src !! x;
  sl_alive : forall x, x ∈ all -> is_Some (elems m !! x)
}.

(** The elements [l] one after the other. *)
Fixpoint select_each (oom : mem -> Z -> bool) (fuel : nat) (src : mem) (l : list positive) (dst last : option positive) :
    prog mem (option positive * option positive) :=
  match l with
  | [] => mret (dst, last)
  | a :: l' => h ← of_src src (hh (Some a)); dst ← select_elt oom fuel h a dst last; select_each oom fuel src l' dst (Some a)
  end.

Section Loops.
Variables (oom : mem -> Z -> bool) (fuel : nat) (src : mem).
#[local] Abbreviation picked cond := (filter (fun x : positive => cond x = true)).

Lemma select_each_app l1 l2 : forall dst last m, select_each oom fuel src (l1 ++ l2) dst last m =
  match select_each oom fuel src l1 dst last m with Ret ((d, z), m') => select_each oom fuel src l2 d z m' | Crash c => Crash c end.
Proof.
  induction l1 as [|a l1 IH]; intros dst last m; [done|]. cbn [select_each app]. unfold mbind, prog_bind.
  destruct (of_src src (hh (Some a)) m) as [[h m1]|]; [|done]. by destruct (select_elt oom fuel h a dst last m1) as [[d m2]|]; [apply IH|].
Qed.

(** The loop over a chain adds the elements that satisfy the condition. *)
Lemma select_chain_each cond c : forall n p dst last m, seg (fld hh_next (elems src)) (fld hh_prev (elems src)) p c None ->
  (forall x, x ∈ c -> is_Some (elems src !! x)) -> (length c <= n)%nat ->
  select_chain oom fuel src cond n (first c None) dst last m = select_each oom fuel src (picked cond c) dst last m.
Proof.
  induction c as [|a c IH]; intros n p dst last m Hs Hin Hn; cbn [first]; [by destruct n|]. destruct n as [|n]; [cbn in Hn; lia|].
  destruct (Hin a ltac:(set_solver)) as [sh E]. destruct (seg_head _ _ _ _ _ _ _ Hs E) as (_ & Enx & Hs').
  cbn [select_chain length] in *. unfold mbind, prog_bind, of_src, hh. rewrite E, Enx.
  assert (IH' : forall d z m1, select_chain oom fuel src cond n (first c None) d z m1 = select_each oom fuel src (picked cond c) d z m1)
    by (intros; eapply IH; [exact Hs'|set_solver|lia]).
  destruct (cond a) eqn:Ec; [rewrite filter_cons_True by done|by rewrite filter_cons_False by congruence].
  cbn [select_each]. unfold mbind, prog_bind, of_src, hh. rewrite E. by destruct (select_elt _ _ _ _ _ _ m) as [[d m1]|].
Qed.

Lemma select_buckets_each cond t0 T cs : forall n i dst last m,
  tables src !! t0 = Some T -> chains (elems src) (num_buckets T) (buckets T) cs -> (n + i = length cs)%nat ->
  (forall x, x ∈ mjoin cs -> is_Some (elems src !! x)) -> (length (mjoin cs) <= fuel)%nat ->
  select_buckets oom fuel src cond n (Some t0) (Z.of_nat i) dst last m = select_each oom fuel src (picked cond (mjoin (drop i cs))) dst last m.
Proof.
  induction n as [|n IH]; intros i dst last m Ht Hch Hi Hin Hf; cbn [select_buckets]; [by rewrite drop_ge by lia|].
  assert (Hch' := Hch). destruct Hch' as (L1 & L2 & Hc).
  destruct (lookup_lt_is_Some_2 (buckets T) i) as [b Hb]; [lia|]. destruct (lookup_lt_is_Some_2 cs i) as [c Hcc]; [lia|].
  destruct (Hc i b c Hb Hcc) as (B1 & _ & B3 & _). rewrite (drop_S _ _ _ Hcc). cbn [mjoin list_join]. rewrite list.filter_app, select_each_app.
  unfold mbind at 1, prog_bind at 1, of_src, bucket, table, mbind at 1, prog_bind at 1, lift. rewrite Ht, (c_read_ok _ _ b) by (lia || by rewrite Nat2Z.id).
  rewrite B1. unfold mbind, prog_bind.
  assert (Hcl : (length c <= fuel)%nat) by (destruct (join_insert cs _ c Hcc) as (rest & Hpr & _); rewrite Hpr, length_app in Hf; lia).
  rewrite (select_chain_each cond c fuel None) by (try done; intros x Hx; by eapply Hin, join_elem).
  destruct (select_each oom fuel src (picked cond c) dst last m) as [[[d z] m1]|]; [|done].
  replace (Z.of_nat i + 1) with (Z.of_nat (S i)) by lia. apply IH; done || lia.
Qed.

(** HASH_SELECT adds the elements of the buckets that satisfy the condition, in their order. *)
Lemma select_is_each cond t T l cs m : rep_at src t T l cs -> l <> [] -> (length l <= fuel)%nat ->
  HASH_SELECT oom fuel src cond None (first l None) m =
  match select_each oom fuel src (picked cond (mjoin cs)) None None m with Ret ((d, _), m') => Ret (d, m') | Crash c => Crash c end.
Proof.
  intros R Hl Hf. destruct R as [R1 (R2a & R2b & R2c) R3 R4 R5 R6 R7 R8 R9]. assert (R8' := R8). destruct R8' as (_ & L2 & _).
  destruct (first_is l Hl) as (hd & Ehd & Hhd). destruct (R2a hd Hhd) as (h0 & E0 & T0 & _). unfold HASH_SELECT. rewrite Ehd.
  unfold mbind, prog_bind, of_src, tbl_of, mbind, prog_bind, hh, table. rewrite E0. cbn [mret prog_ret]. rewrite T0, R1.
  change 0 with (Z.of_nat 0) at 1. rewrite (select_buckets_each cond t T cs); try done.
  - rewrite drop_0. by destruct (select_each _ _ _ _ _ _ _) as [[[d z] m']|].
  - lia.
  - intros x Hx. rewrite R9 in Hx. destruct (R2a x Hx) as (h & -> & _). done.
  - by rewrite R9.
Qed.

Section Each.
Variables (F : crash -> Prop) (t0 : positive) (all : list positive).
Hypothesis Hsrc : forall x, x ∈ all -> elem_ok (elems src) t0 x.
Hypothesis Hfuel : (length all <= fuel)%nat.
Hypothesis Hsmall : Z.of_nat (length all) < 2 ^ 32.

Lemma wp_select_elt m l a sh (Q : option positive -> mem -> Prop) : grows F oom (first l None, m) ->
  selecting src m all l -> a ∈ all -> a ∉ l -> elems src !! a = Some sh -> (length l < length all)%nat ->
  (forall m', selecting src m' all (l ++ [a]) -> Q (first (l ++ [a]) None) m') ->
  wp F (select_elt oom fuel sh a (first l None) (final None l)) Q m.
Proof.
  intros Hg [[_ Ht] Hk Hal] Ha Hl Esh Hlen HQ. destruct (Hsrc a Ha) as (sh' & E & _ & S1 & S2 & S3). rewrite Esh in E. injection E as <-.
  assert (Hnext : forall m', selected m' (first (l ++ [a]) None) (l ++ [a]) ->
    (forall x, x <> a -> key <$> elems m' !! x = key <$> elems m !! x) -> key <$> elems m' !! a = Some (key sh) -> Q (first (l ++ [a]) None) m').
  { intros m' H1 H2 H3. apply HQ. split; [done| |].
    - intros x [Hx| ->%list_elem_of_singleton]%elem_of_app; [|by rewrite H3, Esh]. rewrite H2; [by apply Hk|]. by intros ->.
    - intros x Hx. apply some_key. destruct (decide (x = a)) as [->|]; [by rewrite H3|]. rewrite H2 by done. by apply (proj1 (some_key _)), Hal. }
  destruct (decide (l = [])) as [->|Hne].
  - apply wp_select_first; try done; [|by apply Hal|lia]. split; [apply Hg|left; lia].
  - assert (Ef : first l None = first (l ++ [a]) None) by (by rewrite first_app, (first_some l (first [a] None))).
    destruct (Ht Hne) as (t & T & cs & R). apply (wp_select_more F oom fuel sh m t T l cs); try done; [by eapply grows_exits|by apply Hal|lia|lia|].
    intros m'. rewrite Ef. apply Hnext.
Qed.

Lemma wp_select_each c : forall m l (Q : option positive * option positive -> mem -> Prop),
  (forall c1 c2 r m', c = c1 ++ c2 -> select_each oom fuel src c1 (first l None) (final None l) m = Ret (r, m') -> grows F oom (r.1, m')) ->
  selecting src m all l -> NoDup (l ++ c) -> (forall x, x ∈ l ++ c -> x ∈ all) ->
  (forall m', selecting src m' all (l ++ c) -> Q (first (l ++ c) None, final None (l ++ c)) m') ->
  wp F (select_each oom fuel src c (first l None) (final None l)) Q m.
Proof.
  induction c as [|a c IH]; intros m l Q Hg Hsl Hnd Hin HQ; cbn [select_each].
  { rewrite app_nil_r in HQ. by apply wp_ret, HQ. }
  destruct (Hsrc a ltac:(apply Hin; set_solver)) as (sh & E & _).
  assert (Hnd' := Hnd). apply list.NoDup_app in Hnd' as (Hnl & Hd & [Hac Hnc]%list.NoDup_cons).
  assert (Hlen : (length (l ++ a :: c) <= length all)%nat) by (by apply submseteq_length, NoDup_submseteq).
  rewrite length_app in Hlen. cbn in Hlen. assert (Hg0 : grows F oom (first l None, m)) by exact (Hg [] (a :: c) (_, _) m eq_refl eq_refl).
  assert (Hs : wp F (select_elt oom fuel sh a (first l None) (final None l)) (fun d m' => d = first (l ++ [a]) None /\ selecting src m' all (l ++ [a])) m).
  { apply wp_select_elt; try done; [apply Hin; set_solver| |lia]. intros Ha. apply (Hd a Ha). set_solver. }
  apply wp_bind. eapply wp_Ret; [unfold of_src, hh; by rewrite E|]. apply wp_bind. unfold wp in Hs. unfold wp at 1.
  destruct (select_elt oom fuel sh a (first l None) (final None l) m) as [[d m1]|] eqn:Ee; [|done]. destruct Hs as [-> Hs].
  replace (Some a) with (final None (l ++ [a])) by (by rewrite final_app).
  assert (Ea : (l ++ [a]) ++ c = l ++ a :: c) by (by rewrite <- app_assoc). apply IH; try rewrite Ea; try done.
  intros c1 c2 r m' -> Hr. apply (Hg (a :: c1) c2 r m' eq_refl). cbn [select_each]. unfold mbind, prog_bind, of_src, hh. rewrite E, Ee.
  by rewrite final_app in Hr.
Qed.

End Each.
End Loops.
End SelectFacts.

Section SelectProperties.
Import Uthash HashSelect.
#[local] Abbreviation picked cond := (filter (fun x : positive => cond x = true)).

(** The elements that the condition selects, as a map. *)
Definition selection (cond : positive -> bool) (M : gmap (list Z) positive) : gmap (list Z) positive :=
  filter (fun e => cond e.2 = true) M.

(** The selected table outgrows its memory after some of the elements. *)
Definition outgrows_select (oom : mem -> Z -> bool) (fuel : nat) (src : mem) (cond : positive -> bool) (head : option positive) (md : mem) : Prop :=
  exists cond' dst m', (forall a, cond' a = true -> cond a = true) /\ HASH_SELECT oom fuel src cond' None head md = Ret (dst, m') /\
    outgrown (dst, m') = true.

(** The first elements of a selection are a selection. *)
Lemma picked_prefix cond l c1 c2 : NoDup l -> picked cond l = c1 ++ c2 ->
  picked (fun x => cond x && bool_decide (x ∈ c1)) l = c1.
Proof.
  intros Hnd Hp. assert (Hn : NoDup (c1 ++ c2)) by (rewrite <- Hp; by apply list.NoDup_filter).
  apply list.NoDup_app in Hn as (_ & Hd & _).
  transitivity (filter (fun x => x ∈ c1) (picked cond l)).
  - rewrite list_filter_filter. apply list_filter_iff. intros x. rewrite andb_true_iff, bool_decide_eq_true. tauto.
  - rewrite Hp, list.filter_app. rewrite (filter_all _ c1), (filter_none _ c2); [by rewrite app_nil_r| |by apply list.Forall_forall].
    apply list.Forall_forall. intros x Hx Hx1. by apply (Hd x).
Qed.

(** Whether the selection outgrows its memory can be found by running it. *)
Lemma prefix_outgrown (oom : mem -> Z -> bool) fuel src c : forall dst last m,
  (exists c1 c2 r m', c = c1 ++ c2 /\ select_each oom fuel src c1 dst last m = Ret (r, m') /\ outgrown (r.1, m') = true) \/
  (forall c1 c2 r m', c = c1 ++ c2 -> select_each oom fuel src c1 dst last m = Ret (r, m') -> outgrown (r.1, m') = false).
Proof.
  induction c as [|a c IH]; intros dst last m.
  - destruct (outgrown (dst, m)) eqn:E; [left; by exists [], [], (dst, last), m|right]. intros [|] c2 r m' H H1; [|done]. by injection H1 as <- <-.
  - destruct (outgrown (dst, m)) eqn:E; [left; by exists [], (a :: c), (dst, last), m|].
    assert (Hstep : forall c1, select_each oom fuel src (a :: c1) dst last m =
      match select_each oom fuel src [a] dst last m with Ret ((d, z), m') => select_each oom fuel src c1 d z m' | Crash e => Crash e end)
      by (intros c1; exact (select_each_app oom fuel src [a] c1 dst last m)).
    destruct (select_each oom fuel src [a] dst last m) as [[[d z] m1]|] eqn:E1.
    + destruct (IH d z m1) as [(c1 & c2 & r & m' & -> & H1 & H2)|H].
      * left. exists (a :: c1), c2, r, m'. split; [done|]. split; [|done]. by rewrite Hstep.
      * right. intros [|a' c1] c2 r m' Hc H1; [by injection H1 as <- <-|]. injection Hc as <- ->. rewrite Hstep in H1. by eapply H.
    + right. intros [|a' c1] c2 r m' Hc H1; [by injection H1 as <- <-|]. injection Hc as <- ->. by rewrite Hstep in H1.
Qed.

Lemma select_ok oom fuel src md head M cond :
  represents src head M -> (forall k a, M !! k = Some a -> is_Some (elems md !! a)) ->
  (size M <= fuel)%nat -> Z.of_nat fuel < 2 ^ 32 ->
  outgrows_select oom fuel src cond head md \/
  wp (refused oom) (HASH_SELECT oom fuel src cond None head) (fun dst md' => represents_but_tail md' dst (selection cond M)) md.
Proof.
  intros [[-> ->]|(t & T & l & cs & -> & Hl & R & Hc)] Hal Hsz Hf.
  { right. apply wp_ret. left. split; [done|]. apply map_filter_empty. }
  assert (Hsel : forall cond', HASH_SELECT oom fuel src cond' None (first l None) md =
    match select_each oom fuel src (picked cond' (mjoin cs)) None None md with Ret ((d, _), m') => Ret (d, m') | Crash c => Crash c end).
  { intros cond'. apply (select_is_each oom fuel src cond' t T l cs md R Hl). rewrite <- (contents_size (elems src) l M); try done; [apply R|].
    intros x (h & -> & _)%(proj1 (r_app _ _ _ _ _ _ R)). done. }
  destruct R as [R1 (R2a & R2b & R2c) R3 R4 R5 R6 R7 R8 R9].
  assert (Hlen : size M = length l) by (apply (contents_size (elems src)); try done; intros x (h & -> & _)%R2a; done).
  assert (Hkey : forall x, x ∈ l -> exists k, M !! k = Some x).
  { intros x Hx. destruct (R2a x Hx) as (h & E & _). exists (key h). apply Hc. by rewrite E. }
  assert (Hnd : NoDup (mjoin cs)) by (by rewrite R9). set (l' := picked cond (mjoin cs)).
  assert (Hl' : forall x, x ∈ l' <-> cond x = true /\ x ∈ l) by (intros x; unfold l'; by rewrite list_elem_of_filter, R9).
  destruct (prefix_outgrown oom fuel src l' None None md) as [(c1 & c2 & [d z] & m' & Ec & Hr & Ho)|Hno]; [left|right].
  { exists (fun x => cond x && bool_decide (x ∈ c1)), d, m'. split; [by intros a [? _]%andb_true_iff|]. split; [|done].
    by rewrite Hsel, (picked_prefix cond _ c1 c2 Hnd Ec), Hr. }
  assert (Hw : wp (refused oom) (select_each oom fuel src l' None None) (fun r m' => r.1 = first l' None /\ selecting src m' l l') md).
  { apply (wp_select_each oom fuel src (refused oom) t l R2a ltac:(lia) ltac:(lia) l' md []); try done.
    - intros c1 c2 r m' Ec Hr. apply grows_refused. by eapply Hno.
    - split; [done|set_solver|]. intros x Hx. destruct (Hkey x Hx) as [k Hk]. by eapply Hal.
    - by apply list.NoDup_filter.
    - cbn. intros x Hx. by apply Hl'. }
  unfold wp in Hw |- *. rewrite Hsel. destruct (select_each _ _ _ _ _ _ _) as [[[d z] m']|]; [|done]. destruct Hw as [E [[_ Ht] Hk _]]. cbn in E. subst d.
  assert (Hct : contents (elems m') l' (selection cond M)).
  { intros k x. unfold selection. unfold contents in Hc. rewrite map_lookup_filter_Some, Hl', Hc. cbn. split.
    - intros [[Hx Hkx] Hcx]. split; [done|]. rewrite Hk; [done|by apply Hl'].
    - intros [[Hcx Hx] Hkx]. rewrite Hk in Hkx by (by apply Hl'). done. }
  destruct (decide (l' = [])) as [E|Hne].
  - left. rewrite E. split; [done|]. apply map_empty. intros k. apply eq_None_not_Some. intros [x Hx].
    apply Hct in Hx as [Hx _]. rewrite E in Hx. by apply elem_of_nil in Hx.
  - right. destruct (Ht Hne) as (t' & T' & cs' & R). by exists (first l' None), t', T', l', cs'.
Qed.

(** C25 HASH_SELECT makes a table of the elements that satisfy the condition: HASH_FIND on it
    answers as the map of the source restricted to these elements, HASH_COUNT is their number,
    HASH_ITER visits each of them once and HASH_FSCK does not object; no access is to memory
    that does not exist, every loop ends, and the only way not to return is exit(-1) after the
    allocator has refused a request of less than 16 GiB.  This holds unless the new table gets
    2^29 buckets after some of the elements. *)
Theorem select_filters_table (oom : mem -> Z -> bool) (fuel : nat) (src md : mem) (head : option positive)
  (M : gmap (list Z) positive) (cond : positive -> bool)
  (HR : represents src head M) (Hal : forall k a, M !! k = Some a -> is_Some (elems md !! a))
  (Hs : (size M <= fuel)%nat) (Hf : Z.of_nat fuel < 2 ^ 32) :
  outgrows_select oom fuel src cond head md \/
  match HASH_SELECT oom fuel src cond None head md with
  | Ret (dst, m') =>
      let M' := selection cond M in
      (forall k, (length k <= fuel)%nat -> HASH_FIND fuel dst k (Z.of_nat (length k)) m' = Ret (M' !! k, m')) /\
      HASH_FSCK fuel dst m' = Ret (tt, m') /\ HASH_CNT dst m' = Ret (Z.of_nat (size M'), m') /\
      exists l, HASH_ITER fuel dst m' = Ret (l, m') /\ NoDup l /\ forall a, a ∈ l <-> exists k, M' !! k = Some a
  | Crash c => c = ProcessExit /\ exists m' sz, oom m' sz = true /\ sz < 2 ^ 34
  end.
Proof.
  destruct (select_ok oom fuel src md head M cond HR Hal Hs Hf) as [Hg|Hw]; [by left|right]. unfold wp in Hw.
  destruct (HASH_SELECT _ _ _ _ _ _ _) as [[dst m']|]; [|done].
  assert (Hsz : (size (selection cond M) <= fuel)%nat) by (etrans; [apply map_size_filter|done]).
  destruct (represents_checks no_crash fuel m' dst _ Hw Hsz) as (H1 & H2 & H3).
  apply wp_run in H1 as ([] & ? & H1 & ->), H2 as (? & ? & H2 & -> & ->), H3 as (l & ? & H3 & Hnd & Hl' & ->).
  split; [intros k Hk; by apply find_ok|]. split; [done|]. split; [done|]. by exists l.
Qed.

(** The elements of [forty_elems] with even addresses, and two of them. *)
Definition even_addr (a : positive) : bool := Z.even (Zpos a).
Definition two_addrs (x y : bool) (a : positive) : bool := if decide (a = 4%positive) then x else if decide (a = 38%positive) then y else false.

Definition forty_table : option positive * mem :=
  match exec_all never_full 100 forty_cmds (None, forty_elems) with Ret (_, s) => s | Crash _ => (None, forty_elems) end.

Lemma forty_represents : represents forty_table.2 forty_table.1 (spec_all forty_cmds ∅).2 /\ (size (spec_all forty_cmds ∅).2 <= 100)%nat.
Proof.
  assert (H := exec_all_ok never_full 100 forty_cmds forty_elems None ∅ 2 never_full_limited (or_introl (conj eq_refl eq_refl)) forty_used
    ltac:(lia) ltac:(vm_compute; lia) ltac:(lia)). unfold wp in H. unfold forty_table.
  destruct (exec_all never_full 100 forty_cmds (None, forty_elems)) as [[rs s]|c] eqn:E; [|exfalso; vm_compute in E; discriminate].
  exact (proj2 H).
Qed.

(** Only the answers of the condition count. *)
Lemma select_chain_ext oom fuel src c1 c2 n : (forall a, c1 a = c2 a) ->
  forall sh dst last m, select_chain oom fuel src c1 n sh dst last m = select_chain oom fuel src c2 n sh dst last m.
Proof.
  intros Hc. induction n as [|n IH]; intros [a|] dst last m; try done. cbn [select_chain]. rewrite Hc. unfold mbind, prog_bind.
  destruct (of_src src (hh (Some a)) m) as [[h m1]|]; [|done]. destruct (c2 a); [|apply IH].
  by destruct (select_elt oom fuel h a dst last m1) as [[d m2]|]; [apply IH|].
Qed.

Lemma select_ext oom fuel src c1 c2 head m : (forall a, c1 a = c2 a) ->
  HASH_SELECT oom fuel src c1 None head m = HASH_SELECT oom fuel src c2 None head m.
Proof.
  intros Hc. destruct head as [a|]; [|done]. unfold HASH_SELECT, mbind, prog_bind. destruct (of_src src (tbl_of (Some a)) m) as [[t m1]|]; [|done].
  destruct (of_src src (table t) m1) as [[T m2]|]; [|done].
  assert (E : forall n i dst last m, select_buckets oom fuel src c1 n t i dst last m = select_buckets oom fuel src c2 n t i dst last m).
  { induction n as [|n IH]; intros i dst last m0; [done|]. cbn [select_buckets]. unfold mbind, prog_bind.
    destruct (of_src src (bucket t i) m0) as [[b m3]|]; [|done]. rewrite (select_chain_ext oom fuel src c1 c2 fuel Hc).
    by destruct (select_chain _ _ _ _ _ _ _ _ _) as [[[d z] m4]|]. }
  by rewrite E.
Qed.

Lemma two_not_outgrown : ~ outgrows_select never_full 100 forty_table.2 (two_addrs true true) forty_table.1 forty_elems.
Proof.
  intros (cond & dst & m' & Hsub & Hr & Ho).
  rewrite (select_ext _ _ _ cond (two_addrs (cond 4%positive) (cond 38%positive))) in Hr.
  - destruct (cond 4%positive), (cond 38%positive); vm_compute in Hr; injection Hr as <- <-; vm_compute in Ho; discriminate.
  - intros a. assert (Ha := Hsub a). unfold two_addrs in *. destruct (decide (a = 4%positive)) as [->|]; [done|].
    destruct (decide (a = 38%positive)) as [->|]; [done|]. by destruct (cond a); [discriminate Ha|].
Qed.

Lemma select_filters_table_witness :
  exists dst m', HASH_SELECT never_full 100 forty_table.2 (two_addrs true true) None forty_table.1 forty_elems = Ret (dst, m') /\
    HASH_CNT dst m' = Ret (2, m') /\ HASH_FIND 100 dst [3; 7] 2 m' = Ret (Some 4%positive, m').
Proof.
  destruct forty_represents as [HR Hs].
  assert (H := select_filters_table never_full 100 forty_table.2 forty_elems forty_table.1 (spec_all forty_cmds ∅).2 (two_addrs true true) HR
    ltac:(intros k a Hk; assert (Ha : map_Forall (fun _ x => is_Some (elems forty_elems !! x)) (spec_all forty_cmds ∅).2)
      by (apply (bool_decide_eq_true_1 _); vm_compute; reflexivity); exact (Ha k a Hk)) Hs ltac:(lia)).
  destruct H as [H|H]; [by destruct (two_not_outgrown H)|].
  destruct (HASH_SELECT never_full 100 forty_table.2 (two_addrs true true) None forty_table.1 forty_elems) as [[dst m']|c] eqn:E;
    [|exfalso; vm_compute in E; discriminate].
  exists dst, m'. split; [reflexivity|]. destruct H as (H1 & _ & H2 & _). split.
  - assert (Es : size (selection (two_addrs true true) (spec_all forty_cmds ∅).2) = 2%nat) by (vm_compute; reflexivity). by rewrite Es in H2.
  - assert (H := H1 [3; 7] ltac:(cbn; lia)). assert (El : selection (two_addrs true true) (spec_all forty_cmds ∅).2 !! [3; 7] = Some 4%positive)
      by (vm_compute; reflexivity). by rewrite El in H.
Defined.

(** HASH_SELECT never sets the tail of the new table, which stays at the first element: the
    next HASH_ADD links its element behind that one, and HASH_ITER no longer reaches the
    others. *)
Lemma select_then_add_loses : exists dst m1 dst' m2 l,
  HASH_SELECT never_full 100 forty_table.2 even_addr None forty_table.1 forty_elems = Ret (dst, m1) /\
  HASH_ADD_KEYPTR never_full 100 dst [0; 7] 2 (Some 1%positive) m1 = Ret (dst', m2) /\
  HASH_CNT dst' m2 = Ret (21, m2) /\ HASH_ITER 100 dst' m2 = Ret (l, m2) /\ length l = 2%nat /\
  HASH_FSCK 100 dst' m2 = Crash ProcessExit.
Proof.
  destruct (HASH_SELECT never_full 100 forty_table.2 even_addr None forty_table.1 forty_elems) as [[dst m1]|c] eqn:E1;
    [|exfalso; vm_compute in E1; discriminate].
  vm_compute in E1. injection E1 as <- <-.
  eexists _, _, _, _, _. split; [reflexivity|]. split; [vm_compute; reflexivity|]. split; [vm_compute; reflexivity|].
  split; [vm_compute; reflexivity|]. split; vm_compute; reflexivity.
Qed.

End SelectProperties.
