(* ===== verification/HashFunctions.v ===== *)
(** * Hash functions and Bloom filters: common/uthash.h

    The hash functions that HASH_FUNCTION may select in place of HASH_JEN, the two
    versions of the MurmurHash and the Bloom filter of a table (HASH_BLOOM).  All of them
    stay inside the key; the MurmurHash for aligned reads is compared with the one for
    unaligned reads; a Bloom filter never hides an element. *)

From S2P Require Import Prelude Links Uthash HashTable.

#[local] Open Scope Z_scope.

Module HashFn.
Import Uthash.

(** ** Loops over the bytes of a key *)

(** hashv = f(hashv, key[i]) for [n] bytes from number [i]. *)
Fixpoint each_byte (f : Z -> Z -> Z) (n : nat) (k : list Z) (i hashv : Z) : outcome Z :=
  match n with
  | O => Ret hashv
  | S n' => b ← c_read k i; each_byte f n' k (i + 1) (f hashv b)
  end.

Definition ber_step (hashv b : Z) : Z := u32 (u32 (hashv * 33) + schar b).

Definition HASH_BER (k : list Z) (keylen num_bkts : Z) : outcome (Z * Z) :=
  hashv ← each_byte ber_step (Z.to_nat keylen) k 0 0;
  Ret (hashv, HASH_TO_BKT hashv num_bkts).

Definition sax_step (hashv b : Z) : Z :=
  Z.lxor hashv (u32 (u32 (u32 (Z.shiftl hashv 5) + Z.shiftr hashv 2) + schar b)).

Definition HASH_SAX (k : list Z) (keylen num_bkts : Z) : outcome (Z * Z) :=
  hashv ← each_byte sax_step (Z.to_nat keylen) k 0 0;
  Ret (hashv, HASH_TO_BKT hashv num_bkts).

Definition fnv_step (hashv b : Z) : Z := Z.lxor (u32 (hashv * 16777619)) (u32 (schar b)).

Definition HASH_FNV (k : list Z) (keylen num_bkts : Z) : outcome (Z * Z) :=
  hashv ← each_byte fnv_step (Z.to_nat keylen) k 0 2166136261;
  Ret (hashv, HASH_TO_BKT hashv num_bkts).

Definition oat_step (hashv b : Z) : Z :=
  let hashv := u32 (hashv + schar b) in
  let hashv := u32 (hashv + u32 (Z.shiftl hashv 10)) in
  Z.lxor hashv (Z.shiftr hashv 6).

Definition HASH_OAT (k : list Z) (keylen num_bkts : Z) : outcome (Z * Z) :=
  hashv ← each_byte oat_step (Z.to_nat keylen) k 0 0;
  let hashv := u32 (hashv + u32 (Z.shiftl hashv 3)) in
  let hashv := Z.lxor hashv (Z.shiftr hashv 11) in
  let hashv := u32 (hashv + u32 (Z.shiftl hashv 15)) in
  Ret (hashv, HASH_TO_BKT hashv num_bkts).

(** ** The Paul Hsieh hash function *)

(** A char shifted left at type int: undefined for a negative one. *)
Definition char_shl (b n : Z) : outcome Z :=
  if schar b <? 0 then Crash ArithUB else c_int (Z.shiftl (schar b) n).

Definition get16bits (k : list Z) (o : Z) : outcome Z :=
  b1 ← c_read k (o + 1); b0 ← c_read k o; Ret (u32 (u32 (Z.shiftl b1 8) + b0)).

(** hashv ^= hashv << n, hashv += hashv >> n *)
Definition xor_shl (hashv n : Z) : Z := Z.lxor hashv (u32 (Z.shiftl hashv n)).
Definition add_shr (hashv n : Z) : Z := u32 (hashv + Z.shiftr hashv n).

(** The main loop, over words of four bytes; what is left of the key. *)
Fixpoint sfh_words (len : nat) (k : list Z) (hashv : Z) : outcome (list Z * Z) :=
  match len with
  | O => Ret (k, hashv)
  | S len' =>
      lo ← get16bits k 0;
      let hashv := u32 (hashv + lo) in
      hi ← get16bits k 2;
      let tmp := Z.lxor (u32 (Z.shiftl hi 11)) hashv in
      let hashv := Z.lxor (u32 (Z.shiftl hashv 16)) tmp in
      sfh_words len' (drop 4 k) (add_shr hashv 11)
  end.

Definition sfh_rest (rem : Z) (k : list Z) (hashv : Z) : outcome Z :=
  if rem =? 3 then
    lo ← get16bits k 0;
    let hashv := xor_shl (u32 (hashv + lo)) 16 in
    b ← c_read k 2;
    s ← char_shl b 18;
    Ret (add_shr (Z.lxor hashv (u32 s)) 11)
  else if rem =? 2 then
    lo ← get16bits k 0;
    Ret (add_shr (xor_shl (u32 (hashv + lo)) 11) 17)
  else if rem =? 1 then
    b ← c_read k 0;
    Ret (add_shr (xor_shl (u32 (hashv + schar b)) 10) 1)
  else Ret hashv.

Definition HASH_SFH (k : list Z) (keylen num_bkts : Z) : outcome (Z * Z) :=
  let rem := Z.land keylen 3 in
  '(k, hashv) ← sfh_words (Z.to_nat (Z.shiftr keylen 2)) k 0xcafebabe;
  hashv ← sfh_rest rem k hashv;
  let hashv := add_shr (xor_shl hashv 3) 5 in
  let hashv := add_shr (xor_shl hashv 4) 17 in
  let hashv := add_shr (xor_shl hashv 25) 6 in
  Ret (hashv, HASH_TO_BKT hashv num_bkts).

(** ** MurmurHash *)

Definition mur_m : Z := 0x5bd1e995.
Definition mur_r : Z := 24.

(** The four bytes at a key, as a little endian word. *)
Definition word_at (k : list Z) : outcome Z :=
  b0 ← c_read k 0; b1 ← c_read k 1; b2 ← c_read k 2; b3 ← c_read k 3;
  Ret (b0 + Z.shiftl b1 8 + Z.shiftl b2 16 + Z.shiftl b3 24).

(** A word goes into the hash. *)
Definition mur_mix (w hashv : Z) : Z :=
  let w := u32 (w * mur_m) in
  let w := Z.lxor w (Z.shiftr w mur_r) in
  let w := u32 (w * mur_m) in
  Z.lxor (u32 (hashv * mur_m)) w.

Fixpoint mur_words (fuel : nat) (k : list Z) (len hashv : Z) : outcome (list Z * Z * Z) :=
  if len <? 4 then Ret (k, len, hashv) else
  match fuel with
  | O => Crash NoFuel
  | S fuel' => w ← word_at k; mur_words fuel' (drop 4 k) (u32 (len - 4)) (mur_mix w hashv)
  end.

(** x op= key[o] << n, when the switch falls into this case. *)
Definition mur_case (op : Z -> Z -> Z) (present : bool) (k : list Z) (o n x : Z) : outcome Z :=
  if present then b ← c_read k o; s ← char_shl b n; Ret (op x (u32 s)) else Ret x.

(** x op= key[0] *)
Definition mur_case0 (op : Z -> Z -> Z) (present : bool) (k : list Z) (x : Z) : outcome Z :=
  if present then b ← c_read k 0; Ret (op x (u32 (schar b))) else Ret x.

(** The switch over the last bytes. *)
Definition mur_rest (k : list Z) (len hashv : Z) : outcome Z :=
  hashv ← mur_case Z.lxor (len =? 3) k 2 16 hashv;
  hashv ← mur_case Z.lxor ((len =? 3) || (len =? 2)) k 1 8 hashv;
  hashv ← mur_case0 Z.lxor ((len =? 3) || (len =? 2) || (len =? 1)) k hashv;
  Ret (if (len =? 3) || (len =? 2) || (len =? 1) then u32 (hashv * mur_m) else hashv).

Definition mur_final (hashv : Z) : Z :=
  let hashv := Z.lxor hashv (Z.shiftr hashv 13) in
  let hashv := u32 (hashv * mur_m) in
  Z.lxor hashv (Z.shiftr hashv 15).

Definition HASH_MUR_UNALIGNED (fuel : nat) (k : list Z) (keylen num_bkts : Z) : outcome (Z * Z) :=
  '(k, len, hashv) ← mur_words fuel k keylen (Z.lxor 0xcafebabe keylen);
  hashv ← mur_rest k len hashv;
  let hashv := mur_final hashv in
  Ret (hashv, HASH_TO_BKT hashv num_bkts).

(** The loop over aligned words: [t] is the word before, of which [align] bytes have been
    used. *)
Fixpoint mur_aligned_words (fuel : nat) (align : Z) (k : list Z) (len t hashv : Z) : outcome (list Z * Z * Z * Z) :=
  if len <? 4 then Ret (k, len, t, hashv) else
  match fuel with
  | O => Crash NoFuel
  | S fuel' =>
      d ← word_at k;
      let t := Z.lor (Z.shiftr t (8 * align)) (u32 (Z.shiftl d (8 * (4 - align)))) in
      mur_aligned_words fuel' align (drop 4 k) (u32 (len - 4)) d (mur_mix t hashv)
  end.

(** The case of a key that is not aligned and has four bytes at least. *)
Definition mur_shifted (fuel : nat) (align : Z) (k : list Z) (len hashv : Z) : outcome Z :=
  t ← mur_case Z.lor (align =? 1) k 2 16 0;
  t ← mur_case Z.lor ((align =? 1) || (align =? 2)) k 1 8 t;
  t ← mur_case0 Z.lor ((align =? 1) || (align =? 2) || (align =? 3)) k t;
  let t := u32 (Z.shiftl t (8 * align)) in
  '(k, len, t, hashv) ← mur_aligned_words fuel align (drop (Z.to_nat (4 - align)) k) (u32 (len - (4 - align))) t hashv;
  if align <=? len then
    d ← mur_case Z.lor (align =? 3) k 2 16 0;
    d ← mur_case Z.lor ((align =? 3) || (align =? 2)) k 1 8 d;
    d ← mur_case0 Z.lor ((align =? 3) || (align =? 2) || (align =? 1)) k d;
    let w := Z.lor (Z.shiftr t (8 * align)) (u32 (Z.shiftl d (8 * (4 - align)))) in
    mur_rest k (u32 (len - align)) (mur_mix w hashv)
  else
    d ← mur_case Z.lxor (len =? 3) k 2 16 0;
    d ← mur_case Z.lxor ((len =? 3) || (len =? 2)) k 1 8 d;
    d ← mur_case0 Z.lxor ((len =? 3) || (len =? 2) || (len =? 1)) k d;
    Ret (u32 (Z.lxor hashv (Z.lor (Z.shiftr t (8 * align)) (u32 (Z.shiftl d (8 * (4 - align))))) * mur_m)).

(** [align] is the address of the key modulo 4. *)
Definition HASH_MUR_ALIGNED (fuel : nat) (align : Z) (k : list Z) (keylen num_bkts : Z) : outcome (Z * Z) :=
  let hashv := Z.lxor 0xcafebabe keylen in
  hashv ← (if negb (align =? 0) && (4 <=? keylen) then mur_shifted fuel align k keylen hashv
           else '(k, len, hashv) ← mur_words fuel k keylen hashv; mur_rest k len hashv);
  let hashv := mur_final hashv in
  Ret (hashv, HASH_TO_BKT hashv num_bkts).

(** ** Bloom filters *)

Section Bloom.
(** HASH_BLOOM, the number of bits of a hash value that the filter uses. *)
Variable nbits : Z.

Definition HASH_BLOOM_BITLEN : Z := Z.shiftl 1 nbits.
Definition HASH_BLOOM_BYTELEN : Z := HASH_BLOOM_BITLEN / 8 + (if HASH_BLOOM_BITLEN mod 8 =? 0 then 0 else 1).

(** The bit vector of a new table; None when the allocation fails. *)
Definition HASH_BLOOM_MAKE (oom : bool) : outcome (list Z) :=
  if oom then Crash ProcessExit else Ret (replicate (Z.to_nat HASH_BLOOM_BYTELEN) 0).

Definition HASH_BLOOM_BITSET (bv : list Z) (idx : Z) : outcome (list Z) :=
  x ← c_read bv (idx / 8); c_write bv (idx / 8) (u8 (Z.lor x (Z.shiftl 1 (idx mod 8)))).

Definition HASH_BLOOM_BITTEST (bv : list Z) (idx : Z) : outcome Z :=
  x ← c_read bv (idx / 8); Ret (Z.land x (Z.shiftl 1 (idx mod 8))).

Definition bloom_index (hashv : Z) : Z := Z.land hashv (u32 (Z.shiftl 1 nbits - 1)).

Definition HASH_BLOOM_ADD (bv : list Z) (hashv : Z) : outcome (list Z) := HASH_BLOOM_BITSET bv (bloom_index hashv).
Definition HASH_BLOOM_TEST (bv : list Z) (hashv : Z) : outcome Z := HASH_BLOOM_BITTEST bv (bloom_index hashv).

(** HASH_FIND of a table with the filter [bv]. *)
Definition HASH_FIND_BLOOM (fuel : nat) (bv : list Z) (head : option positive) (k : list Z) (len : Z) :
    prog mem (option positive) :=
  match head with
  | None => mret None
  | Some _ =>
      T ← table_of head;
      '(v, bkt) ← lift (HASH_JEN fuel k len (num_buckets T));
      b ← lift (HASH_BLOOM_TEST bv v);
      if b =? 0 then mret None
      else
        t ← tbl_of head;
        b ← bucket t bkt;
        HASH_FIND_IN_BKT fuel b k len
  end.

End Bloom.
End HashFn.

(** ** The functions return *)

Section Returns.
Import Uthash HashFn.

Lemma shr_range x n : 0 <= n -> 0 <= x < 2 ^ 32 -> 0 <= Z.shiftr x n < 2 ^ 32.
Proof.
  intros Hn Hx. rewrite Z.shiftr_div_pow2 by lia. split; [apply Z.div_pos; lia|].
  apply Z.div_lt_upper_bound; [lia|]. assert (0 < 2 ^ n) by (apply Z.pow_pos_nonneg; lia). nia.
Qed.

Lemma lxor32 x y : 0 <= x < 2 ^ 32 -> 0 <= y < 2 ^ 32 -> 0 <= Z.lxor x y < 2 ^ 32.
Proof. intros. apply lxor_range; lia. Qed.

Lemma each_byte_ok f : (forall h b, 0 <= h < 2 ^ 32 -> 0 <= f h b < 2 ^ 32) -> forall n k i h,
  0 <= i -> i + Z.of_nat n <= Z.of_nat (length k) -> 0 <= h < 2 ^ 32 -> exists v, each_byte f n k i h = Ret v /\ 0 <= v < 2 ^ 32.
Proof.
  intros Hf. induction n as [|n IH]; intros k i h Hi Hn Hh; [by exists h|]. cbn [each_byte].
  destruct (c_read_in_range k i) as [b ->]; [lia|]. rewrite bind_Ret. apply IH; [lia|lia|by apply Hf].
Qed.

(** The bytes of a key; those of text are not negative as chars. *)
Definition plain (k : list Z) : Prop := Forall (fun b => 0 <= b < 128) k.

Lemma plain_drop n k : plain k -> plain (drop n k).
Proof. apply Forall_drop. Qed.

Lemma read_plain k i : plain k -> 0 <= i < Z.of_nat (length k) -> exists b, c_read k i = Ret b /\ 0 <= b < 128.
Proof.
  intros Hp Hi. destruct (c_read_in_range k i Hi) as [b E]. exists b. split; [done|].
  apply c_read_inv in E as [_ E]. by apply (proj1 (Forall_lookup _ _) Hp) in E.
Qed.

Lemma schar_plain b : 0 <= b < 128 -> schar b = b.
Proof. intros Hb. unfold schar. by destruct (Z.ltb_spec b 128); try lia. Qed.

Lemma char_shl_plain b n : 0 <= b < 128 -> 0 <= n <= 18 -> char_shl b n = Ret (b * 2 ^ n).
Proof.
  intros Hb Hn. unfold char_shl. rewrite schar_plain by done. destruct (Z.ltb_spec b 0); [lia|]. rewrite Z.shiftl_mul_pow2 by lia.
  apply c_int_ok. assert (0 < 2 ^ n <= 2 ^ 18) by (split; [apply Z.pow_pos_nonneg; lia|apply Z.pow_le_mono_r; lia]). nia.
Qed.

Lemma sfh_words_ok n : forall k h, (4 * n <= length k)%nat -> 0 <= h < 2 ^ 32 ->
  exists v, sfh_words n k h = Ret (drop (4 * n) k, v) /\ 0 <= v < 2 ^ 32.
Proof.
  induction n as [|n IH]; intros k h Hn Hh; [by exists h|]. cbn [sfh_words]. unfold get16bits.
  destruct (c_read_in_range k 0) as [b0 E0], (c_read_in_range k 1) as [b1 E1], (c_read_in_range k 2) as [b2 E2],
    (c_read_in_range k 3) as [b3 E3]; try lia.
  change (0 + 1) with 1. change (2 + 1) with 3. rewrite E1, bind_Ret, E0, !bind_Ret, E3, bind_Ret, E2, !bind_Ret.
  destruct (IH (drop 4 k) (add_shr (Z.lxor (u32 (Z.shiftl (u32 (h + u32 (u32 (Z.shiftl b1 8) + b0))) 16))
    (Z.lxor (u32 (Z.shiftl (u32 (u32 (Z.shiftl b3 8) + b2)) 11)) (u32 (h + u32 (u32 (Z.shiftl b1 8) + b0))))) 11)) as (v & E & Hv);
    [rewrite length_drop; lia|apply u32_range|].
  exists v. split; [|done]. rewrite E, drop_drop. by replace (4 + 4 * n)%nat with (4 * S n)%nat by lia.
Qed.

Lemma sfh_rest_ok k h : plain k -> (length k < 4)%nat -> 0 <= h < 2 ^ 32 ->
  exists v, sfh_rest (Z.of_nat (length k)) k h = Ret v /\ 0 <= v < 2 ^ 32.
Proof.
  intros Hp Hl Hh. unfold sfh_rest, get16bits. destruct k as [|b0 [|b1 [|b2 [|]]]]; cbn [length] in *; try lia.
  - by exists h.
  - eexists. split; [done|]. apply u32_range.
  - eexists. split; [done|]. apply u32_range.
  - change (exists v, (s ← char_shl b2 18; Ret (add_shr (Z.lxor (xor_shl (u32 (h + u32 (u32 (Z.shiftl b1 8) + b0))) 16) (u32 s)) 11)) =
      Ret v /\ 0 <= v < 2 ^ 32).
    rewrite char_shl_plain; [|by apply list.Forall_cons in Hp as [_ [_ [? _]%list.Forall_cons]%list.Forall_cons]|lia].
    eexists. split; [done|]. apply u32_range.
Qed.

Lemma word_at_ok k : (4 <= length k)%nat -> exists w, word_at k = Ret w.
Proof.
  intros Hk. unfold word_at. destruct (c_read_in_range k 0) as [b0 E0], (c_read_in_range k 1) as [b1 E1],
    (c_read_in_range k 2) as [b2 E2], (c_read_in_range k 3) as [b3 E3]; try lia.
  rewrite E0, bind_Ret, E1, bind_Ret, E2, bind_Ret, E3. by eexists.
Qed.

Lemma mur_mix_range w h : 0 <= mur_mix w h < 2 ^ 32.
Proof. apply lxor32; [apply u32_range|apply u32_range]. Qed.

Lemma mur_words_ok k : forall h, Z.of_nat (length k) < 2 ^ 32 -> 0 <= h < 2 ^ 32 ->
  exists n v, (length (drop n k) < 4)%nat /\ 0 <= v < 2 ^ 32 /\
  forall fuel, (length k <= fuel)%nat -> mur_words fuel k (Z.of_nat (length k)) h = Ret (drop n k, Z.of_nat (length (drop n k)), v).
Proof.
  induction k as [k IH] using (induction_ltof1 _ (@length Z)). unfold ltof in IH. intros h Hk Hh.
  destruct (decide (length k < 4)%nat) as [Hs|Hb].
  - exists O, h. split; [done|]. split; [done|]. intros fuel _. destruct fuel; cbn; by destruct (Z.ltb_spec (Z.of_nat (length k)) 4); try lia.
  - destruct (word_at_ok k) as [w Ew]; [lia|]. assert (Hl : length (drop 4 k) = (length k - 4)%nat) by apply length_drop.
    destruct (IH (drop 4 k) ltac:(lia) (mur_mix w h) ltac:(lia) (mur_mix_range _ _)) as (n & v & H1 & Hv & H2).
    rewrite drop_drop in *. exists (4 + n)%nat, v. split; [done|]. split; [done|]. intros [|fuel] Hf; [lia|]. cbn [mur_words].
    destruct (Z.ltb_spec (Z.of_nat (length k)) 4); [lia|]. rewrite Ew, bind_Ret.
    rewrite u32_small by lia. replace (Z.of_nat (length k) - 4) with (Z.of_nat (length (drop 4 k))) by lia. apply H2. lia.
Qed.

Lemma mur_case_ok op present k o n x : plain k -> (present = true -> 0 <= o < Z.of_nat (length k)) -> 0 <= n <= 18 ->
  (forall y, 0 <= y < 2 ^ 32 -> 0 <= op x y < 2 ^ 32) -> 0 <= x < 2 ^ 32 ->
  exists v, mur_case op present k o n x = Ret v /\ 0 <= v < 2 ^ 32.
Proof.
  intros Hp Ho Hn Hop Hx. unfold mur_case. destruct present; [|by exists x]. destruct (read_plain k o Hp (Ho eq_refl)) as (b & -> & Hb).
  rewrite bind_Ret, char_shl_plain, bind_Ret by done. eexists. split; [done|]. apply Hop, u32_range.
Qed.

Lemma mur_case0_ok op present k x : (present = true -> k <> []) ->
  (forall y, 0 <= y < 2 ^ 32 -> 0 <= op x y < 2 ^ 32) -> 0 <= x < 2 ^ 32 ->
  exists v, mur_case0 op present k x = Ret v /\ 0 <= v < 2 ^ 32.
Proof.
  intros Ho Hop Hx. unfold mur_case0. destruct present; [|by exists x]. destruct k as [|b k]; [by destruct (Ho eq_refl)|].
  eexists. split; [done|]. apply Hop, u32_range.
Qed.

(** Three cases that fall through: bytes 2, 1 and 0. *)
Lemma mur_switch_ok op p2 p1 p0 k x : plain k -> (forall x y, 0 <= x < 2 ^ 32 -> 0 <= y < 2 ^ 32 -> 0 <= op x y < 2 ^ 32) ->
  (p2 = true -> (3 <= length k)%nat) -> (p1 = true -> (2 <= length k)%nat) -> (p0 = true -> (1 <= length k)%nat) -> 0 <= x < 2 ^ 32 ->
  exists v, 0 <= v < 2 ^ 32 /\ forall B (K : Z -> outcome B),
    (x ← mur_case op p2 k 2 16 x; x ← mur_case op p1 k 1 8 x; x ← mur_case0 op p0 k x; K x) = K v.
Proof.
  intros Hp Hop H2 H1 H0 Hx.
  destruct (mur_case_ok op p2 k 2 16 x) as (v2 & E2 & R2); [done|intros E; apply H2 in E; lia|lia|by intros; apply Hop|done|].
  destruct (mur_case_ok op p1 k 1 8 v2) as (v1 & E1 & R1); [done|intros E; apply H1 in E; lia|lia|by intros; apply Hop|done|].
  destruct (mur_case0_ok op p0 k v1) as (v0 & E0 & R0); [intros E; apply H0 in E; by destruct k; cbn in E; try lia|by intros; apply Hop|done|].
  exists v0. split; [done|]. intros B K. by rewrite E2, bind_Ret, E1, bind_Ret, E0.
Qed.

Lemma lor32 x y : 0 <= x < 2 ^ 32 -> 0 <= y < 2 ^ 32 -> 0 <= Z.lor x y < 2 ^ 32.
Proof. intros. apply lor_range; lia. Qed.

Lemma mur_rest_ok k n h : plain k -> (n <= length k)%nat -> (n < 4)%nat -> 0 <= h < 2 ^ 32 ->
  exists v, mur_rest k (Z.of_nat n) h = Ret v /\ 0 <= v < 2 ^ 32.
Proof.
  intros Hp Hn Hl Hh. unfold mur_rest.
  destruct (mur_switch_ok Z.lxor (Z.of_nat n =? 3) ((Z.of_nat n =? 3) || (Z.of_nat n =? 2))
    ((Z.of_nat n =? 3) || (Z.of_nat n =? 2) || (Z.of_nat n =? 1)) k h) as (v & Hv & E); try done;
    [intros; by apply lxor32|lia|lia|lia|].
  rewrite E. eexists. split; [done|]. destruct (_ || _); [apply u32_range|done].
Qed.

Lemma mur_aligned_words_ok align k : forall t h, Z.of_nat (length k) < 2 ^ 32 -> 0 <= h < 2 ^ 32 ->
  exists n t' v, (length (drop n k) < 4)%nat /\ 0 <= v < 2 ^ 32 /\
  forall fuel, (length k <= fuel)%nat ->
    mur_aligned_words fuel align k (Z.of_nat (length k)) t h = Ret (drop n k, Z.of_nat (length (drop n k)), t', v).
Proof.
  induction k as [k IH] using (induction_ltof1 _ (@length Z)). unfold ltof in IH. intros t h Hk Hh.
  destruct (decide (length k < 4)%nat) as [Hs|Hb].
  - exists O, t, h. split; [done|]. split; [done|]. intros fuel _. destruct fuel; cbn; by destruct (Z.ltb_spec (Z.of_nat (length k)) 4); try lia.
  - destruct (word_at_ok k) as [w Ew]; [lia|]. assert (Hl : length (drop 4 k) = (length k - 4)%nat) by apply length_drop.
    set (x := Z.lor (Z.shiftr t (8 * align)) (u32 (Z.shiftl w (8 * (4 - align))))).
    destruct (IH (drop 4 k) ltac:(lia) w (mur_mix x h) ltac:(lia) (mur_mix_range _ _)) as (n & t' & v & H1 & Hv & H2).
    rewrite drop_drop in *. exists (4 + n)%nat, t', v. split; [done|]. split; [done|]. intros [|fuel] Hf; [lia|]. cbn [mur_aligned_words].
    destruct (Z.ltb_spec (Z.of_nat (length k)) 4); [lia|]. rewrite Ew, bind_Ret. fold x.
    rewrite u32_small by lia. replace (Z.of_nat (length k) - 4) with (Z.of_nat (length (drop 4 k))) by lia. apply H2. lia.
Qed.

Lemma mur_shifted_ok align k h : plain k -> Z.of_nat (length k) < 2 ^ 32 -> (4 <= length k)%nat -> 0 < align < 4 -> 0 <= h < 2 ^ 32 ->
  exists v, 0 <= v < 2 ^ 32 /\ forall fuel, (length k <= fuel)%nat -> mur_shifted fuel align k (Z.of_nat (length k)) h = Ret v.
Proof.
  intros Hp Hk Hl Ha Hh. set (k1 := drop (Z.to_nat (4 - align)) k).
  assert (Hl1 : length k1 = (length k - Z.to_nat (4 - align))%nat) by apply length_drop.
  destruct (mur_switch_ok Z.lor (align =? 1) ((align =? 1) || (align =? 2)) ((align =? 1) || (align =? 2) || (align =? 3)) k 0)
    as (t0 & _ & E0); try done; [by intros; apply lor32|lia|lia|lia|].
  destruct (mur_aligned_words_ok align k1 (u32 (Z.shiftl t0 (8 * align))) h ltac:(lia) Hh) as (n & t1 & v1 & Hn & Hv1 & E1).
  assert (Hp2 : plain (drop n k1)) by (by apply plain_drop, plain_drop). set (k2 := drop n k1) in *.
  destruct (Z.leb_spec align (Z.of_nat (length k2))) as [Hge|Hlt].
  - destruct (mur_switch_ok Z.lor (align =? 3) ((align =? 3) || (align =? 2)) ((align =? 3) || (align =? 2) || (align =? 1)) k2 0)
      as (d & _ & E2); try done; [by intros; apply lor32|lia|lia|lia|].
    destruct (mur_rest_ok k2 (Z.to_nat (Z.of_nat (length k2) - align))
      (mur_mix (Z.lor (Z.shiftr t1 (8 * align)) (u32 (Z.shiftl d (8 * (4 - align))))) v1) Hp2 ltac:(lia) ltac:(lia) (mur_mix_range _ _))
      as (v & E3 & Hv).
    exists v. split; [done|]. intros fuel Hf. unfold mur_shifted. rewrite E0. fold k1. rewrite u32_small by lia.
    replace (Z.of_nat (length k) - (4 - align)) with (Z.of_nat (length k1)) by lia. rewrite E1, bind_Ret by lia.
    destruct (Z.leb_spec align (Z.of_nat (length k2))); [|lia]. rewrite E2. rewrite u32_small by lia.
    by rewrite Z2Nat.id in E3 by lia.
  - set (m := Z.of_nat (length k2)) in *.
    destruct (mur_switch_ok Z.lxor (m =? 3) ((m =? 3) || (m =? 2)) ((m =? 3) || (m =? 2) || (m =? 1)) k2 0)
      as (d & _ & E2); try done; [by intros; apply lxor32|lia|lia|lia|].
    exists (u32 (Z.lxor v1 (Z.lor (Z.shiftr t1 (8 * align)) (u32 (Z.shiftl d (8 * (4 - align))))) * mur_m)).
    split; [apply u32_range|]. intros fuel Hf. unfold mur_shifted. rewrite E0. fold k1. rewrite u32_small by lia.
    replace (Z.of_nat (length k) - (4 - align)) with (Z.of_nat (length k1)) by lia. rewrite E1, bind_Ret by lia.
    fold m. destruct (Z.leb_spec align m); [lia|]. by rewrite E2.
Qed.

(** ** All of them *)

Inductive hash_fn : Type := Ber | Sax | Fnv | Oat | Jen | Sfh | MurUnaligned | MurAligned (align : Z).

Definition hash_with (f : hash_fn) (fuel : nat) (k : list Z) (len num_bkts : Z) : outcome (Z * Z) :=
  match f with
  | Ber => HASH_BER k len num_bkts
  | Sax => HASH_SAX k len num_bkts
  | Fnv => HASH_FNV k len num_bkts
  | Oat => HASH_OAT k len num_bkts
  | Jen => HASH_JEN fuel k len num_bkts
  | Sfh => HASH_SFH k len num_bkts
  | MurUnaligned => HASH_MUR_UNALIGNED fuel k len num_bkts
  | MurAligned align => HASH_MUR_ALIGNED fuel align k len num_bkts
  end.

(** The functions that shift a char: they are defined on text only. *)
Definition key_for (f : hash_fn) (k : list Z) : Prop :=
  match f with
  | Sfh | MurUnaligned => plain k
  | MurAligned align => 0 <= align < 4 /\ plain k
  | _ => True
  end.

Definition hashes (f : hash_fn) (k : list Z) (v : Z) : Prop :=
  0 <= v < 2 ^ 32 /\ forall fuel n, (length k <= fuel)%nat -> hash_with f fuel k (Z.of_nat (length k)) n = Ret (v, HASH_TO_BKT v n).

Lemma each_hash f h0 k : (forall h b, 0 <= h < 2 ^ 32 -> 0 <= f h b < 2 ^ 32) -> 0 <= h0 < 2 ^ 32 ->
  exists v, each_byte f (length k) k 0 h0 = Ret v /\ 0 <= v < 2 ^ 32.
Proof. intros Hf Hh. apply each_byte_ok; [done|lia|lia|done]. Qed.

Lemma oat_range h b : 0 <= h < 2 ^ 32 -> 0 <= oat_step h b < 2 ^ 32.
Proof. intros _. apply lxor32; [apply u32_range|]. apply shr_range; [lia|apply u32_range]. Qed.

Lemma byte_hashes f k : f = Ber \/ f = Sax \/ f = Fnv \/ f = Oat -> exists v, hashes f k v.
Proof.
  intros [->|[->|[->| ->]]]; unfold hashes; cbn [hash_with]; unfold HASH_BER, HASH_SAX, HASH_FNV, HASH_OAT; rewrite Nat2Z.id.
  - destruct (each_hash ber_step 0 k) as (v & -> & Hv); [intros; apply u32_range|lia|]. by exists v.
  - destruct (each_hash sax_step 0 k) as (v & -> & Hv); [intros; apply lxor32; [done|apply u32_range]|lia|]. by exists v.
  - destruct (each_hash fnv_step 2166136261 k) as (v & -> & Hv); [intros; apply lxor32; apply u32_range|lia|]. by exists v.
  - destruct (each_hash oat_step 0 k) as (v & -> & Hv); [by apply oat_range|lia|]. eexists. split; [apply u32_range|done].
Qed.

Lemma mur_final_range h : 0 <= mur_final h < 2 ^ 32.
Proof. apply lxor32; [apply u32_range|]. apply shr_range; [lia|apply u32_range]. Qed.

Lemma sfh_hashes k : plain k -> Z.of_nat (length k) < 2 ^ 32 -> exists v, hashes Sfh k v.
Proof.
  intros Hp Hk. unfold hashes. cbn [hash_with]. unfold HASH_SFH. rewrite Z.shiftr_div_pow2 by lia. change (2 ^ 2) with 4.
  change 3 with (Z.ones 2). rewrite Z.land_ones by lia. change (2 ^ 2) with 4.
  assert (Hd := Z.div_mod (Z.of_nat (length k)) 4 ltac:(lia)). assert (Hm := Z.mod_pos_bound (Z.of_nat (length k)) 4 ltac:(lia)).
  set (n := Z.to_nat (Z.of_nat (length k) / 4)). assert (Hn : (4 * n <= length k)%nat) by (unfold n; lia).
  destruct (sfh_words_ok n k 0xcafebabe Hn ltac:(lia)) as (v1 & -> & Hv1). cbn [mbind outcome_bind].
  assert (El : Z.of_nat (length k) mod 4 = Z.of_nat (length (drop (4 * n) k))) by (rewrite length_drop; unfold n; lia).
  destruct (sfh_rest_ok (drop (4 * n) k) v1) as (v2 & E2 & _); [by apply plain_drop|lia|done|]. rewrite El, E2.
  eexists. split; [apply u32_range|done].
Qed.

Lemma mur_start (k : list Z) : Z.of_nat (length k) < 2 ^ 32 -> 0 <= Z.lxor 0xcafebabe (Z.of_nat (length k)) < 2 ^ 32.
Proof. intros. apply lxor32; lia. Qed.

Lemma mur_hashes k : plain k -> Z.of_nat (length k) < 2 ^ 32 -> exists v, hashes MurUnaligned k v.
Proof.
  intros Hp Hk. destruct (mur_words_ok k _ Hk (mur_start k Hk)) as (n & v1 & Hn & Hv1 & E1).
  destruct (mur_rest_ok (drop n k) (length (drop n k)) v1) as (v2 & E2 & _); [by apply plain_drop|lia|done|done|].
  exists (mur_final v2). split; [apply mur_final_range|]. intros fuel m Hf. cbn [hash_with]. unfold HASH_MUR_UNALIGNED.
  rewrite E1, bind_Ret, E2 by done. done.
Qed.

Lemma mur_aligned_hashes align k : 0 <= align < 4 -> plain k -> Z.of_nat (length k) < 2 ^ 32 -> exists v, hashes (MurAligned align) k v.
Proof.
  intros Ha Hp Hk. unfold hashes. cbn [hash_with]. unfold HASH_MUR_ALIGNED. destruct (negb (align =? 0) && (4 <=? Z.of_nat (length k))) eqn:Ec.
  - destruct (mur_shifted_ok align k _ Hp Hk ltac:(lia) ltac:(lia) (mur_start k Hk)) as (v & _ & Ev).
    exists (mur_final v). split; [apply mur_final_range|]. intros fuel n Hf. by rewrite Ev.
  - destruct (mur_hashes k Hp Hk) as (v & Hv & E). exists v. split; [done|]. intros fuel n Hf. specialize (E fuel n Hf).
    cbn [hash_with] in E. unfold HASH_MUR_UNALIGNED in E. destruct (mur_words _ _ _ _) as [[[k' n'] h']|]; [|done]. exact E.
Qed.

Lemma hashes_all f k : key_for f k -> Z.of_nat (length k) < 2 ^ 32 -> exists v, hashes f k v.
Proof.
  intros Hkf Hk. destruct f; cbn in Hkf; [apply byte_hashes; tauto|apply byte_hashes; tauto|apply byte_hashes; tauto|apply byte_hashes; tauto| | | |].
  - exists (jen_hash k). apply (jen_ok k Hk).
  - by apply sfh_hashes.
  - by apply mur_hashes.
  - destruct Hkf. by apply mur_aligned_hashes.
Qed.

End Returns.

(** ** The two versions of the MurmurHash *)

Section Alignment.
Import Uthash HashFn.

(** Bytes as a little endian number. *)
Fixpoint le (k : list Z) : Z := match k with [] => 0 | b :: k' => b + 256 * le k' end.

Lemma le_app l k : le (l ++ k) = le l + 256 ^ Z.of_nat (length l) * le k.
Proof.
  induction l as [|b l IH]; cbn [app le length]; [lia|]. rewrite IH, Nat2Z.inj_succ, Z.pow_succ_r by lia. lia.
Qed.

Lemma le_range k : plain k -> 0 <= le k < 256 ^ Z.of_nat (length k).
Proof.
  induction 1 as [|b k Hb Hk IH]; cbn [le length]; [lia|]. rewrite Nat2Z.inj_succ, Z.pow_succ_r by lia. lia.
Qed.

Lemma pow_bytes n : 0 <= n -> 2 ^ (8 * n) = 256 ^ n.
Proof. intros. by rewrite Z.pow_mul_r by lia. Qed.

Lemma plain_take n k : plain k -> plain (take n k).
Proof. apply Forall_take. Qed.

Lemma word_at_le k : (4 <= length k)%nat -> word_at k = Ret (le (take 4 k)).
Proof.
  intros Hk. destruct k as [|b0 [|b1 [|b2 [|b3 k]]]]; cbn [length] in Hk; try lia. unfold word_at.
  change (Ret (b0 + Z.shiftl b1 8 + Z.shiftl b2 16 + Z.shiftl b3 24) = Ret (le [b0; b1; b2; b3])). cbn [le].
  rewrite !Z.shiftl_mul_pow2 by lia. f_equal. lia.
Qed.

(** The bytes that are left of the word before, and the first ones of the next word. *)
Lemma combine_le a k d : (0 < a < 4)%nat -> plain k -> (4 - a <= length k)%nat ->
  d mod 256 ^ Z.of_nat a = le (take a (drop (4 - a) k)) ->
  Z.lor (le (take (4 - a) k)) (u32 (Z.shiftl d (8 * (4 - Z.of_nat a)))) = le (take 4 k).
Proof.
  intros Ha Hp Hk Hd. set (s := (4 - a)%nat) in *. assert (Hr := le_range _ (plain_take s k Hp)). rewrite length_take_le in Hr by lia.
  assert (Hs : 256 ^ Z.of_nat s * 256 ^ Z.of_nat a = 2 ^ 32) by (rewrite <- Z.pow_add_r by lia; replace (Z.of_nat s + Z.of_nat a) with 4 by lia; done).
  replace (u32 (Z.shiftl d (8 * (4 - Z.of_nat a)))) with (Z.shiftl (d mod 256 ^ Z.of_nat a) (8 * Z.of_nat s)).
  2: { unfold u32. rewrite !Z.shiftl_mul_pow2 by lia. replace (4 - Z.of_nat a) with (Z.of_nat s) by lia. rewrite pow_bytes by lia.
       replace (2 ^ 32) with (256 ^ Z.of_nat a * 256 ^ Z.of_nat s) by lia.
       rewrite Z.mul_mod_distr_r; [done|apply Z.pow_nonzero; lia..]. }
  rewrite lor_shiftl_add by (rewrite ?pow_bytes; lia). rewrite Hd, pow_bytes by lia.
  replace (take 4 k) with (take s k ++ take a (drop s k)). 2: { rewrite take_take_drop. f_equal. lia. }
  rewrite le_app, length_take_le by lia. lia.
Qed.

(** The bytes of a word that the next step uses. *)
Lemma rest_le a k : (0 < a < 4)%nat -> plain k -> (4 <= length k)%nat ->
  Z.shiftr (le (take 4 k)) (8 * Z.of_nat a) = le (take (4 - a) (drop a k)).
Proof.
  intros Ha Hp Hk. replace (take 4 k) with (take a k ++ take (4 - a) (drop a k)). 2: { rewrite take_take_drop. f_equal. lia. }
  assert (Hr := le_range _ (plain_take a k Hp)). rewrite le_app, length_take_le in * by lia.
  rewrite Z.shiftr_div_pow2, pow_bytes by lia. rewrite Z.mul_comm, Z.div_add by lia. rewrite Z.div_small by lia. lia.
Qed.

Lemma le_mod a j k : (a <= j)%nat -> (j <= length k)%nat -> plain k -> le (take j k) mod 256 ^ Z.of_nat a = le (take a k).
Proof.
  intros Ha Hj Hp. replace (take j k) with (take a k ++ take (j - a) (drop a k)). 2: { rewrite take_take_drop. f_equal. lia. }
  assert (Hr := le_range _ (plain_take a k Hp)). rewrite le_app, length_take_le in * by lia.
  rewrite Z.mul_comm, Z.mod_add by lia. apply Z.mod_small. lia.
Qed.

(** Joining bytes at different places with | and with ^. *)
Definition joins (op : Z -> Z -> Z) : Prop :=
  (forall x y z, op (op x y) z = op x (op y z)) /\ (forall x y, op x y = op y x) /\ (forall x, op x 0 = x) /\
  forall x y n, 0 <= n -> 0 <= y < 2 ^ n -> op y (x * 2 ^ n) = y + x * 2 ^ n.

Lemma lor_joins : joins Z.lor.
Proof.
  split_and!; [intros; by rewrite Z.lor_assoc|apply Z.lor_comm|apply Z.lor_0_r|].
  intros x y n Hn Hy. rewrite <- Z.shiftl_mul_pow2 by lia. rewrite lor_shiftl_add by lia. by rewrite Z.shiftl_mul_pow2 by lia.
Qed.

Lemma lxor_joins : joins Z.lxor.
Proof.
  split_and!; [intros; by rewrite Z.lxor_assoc|apply Z.lxor_comm|apply Z.lxor_0_r|].
  intros x y n Hn Hy. rewrite <- Z.shiftl_mul_pow2 by lia. symmetry. apply Z.add_nocarry_lxor.
  apply Z.bits_inj'. intros j Hj. rewrite Z.land_spec, Z.bits_0, Z.shiftl_spec by lia. destruct (Z.lt_ge_cases j n).
  - by rewrite (Z.testbit_neg_r _ (j - n)), andb_false_r by lia.
  - by rewrite (testbit_out n y j) by lia.
Qed.

(** A switch that falls through joins the first [j] bytes. *)
Lemma switch_le op j p2 p1 p0 k x {B} (K : Z -> outcome B) : joins op -> plain k -> (j <= length k)%nat -> (j < 4)%nat ->
  p2 = (3 <=? j)%nat -> p1 = (2 <=? j)%nat -> p0 = (1 <=? j)%nat ->
  (x ← mur_case op p2 k 2 16 x; x ← mur_case op p1 k 1 8 x; x ← mur_case0 op p0 k x; K x) = K (op x (le (take j k))).
Proof.
  intros (Has & Hcm & H0 & Hj) Hp Hl Hj4 -> -> ->.
  assert (Hb : forall i b, k !! i = Some b -> 0 <= b < 128) by (apply Forall_lookup; exact Hp).
  assert (C0 : forall y b k', k = b :: k' -> mur_case0 op true k y = Ret (op y b)).
  { intros y b k' ->. specialize (Hb O b eq_refl). change (Ret (op y (u32 (schar b))) = Ret (op y b)). by rewrite schar_plain, u32_small by lia. }
  assert (C1 : forall y b0 b k', k = b0 :: b :: k' -> mur_case op true k 1 8 y = Ret (op y (b * 2 ^ 8))).
  { intros y b0 b k' ->. specialize (Hb 1%nat b eq_refl). unfold mur_case. change (c_read (b0 :: b :: k') 1) with (Ret b).
    rewrite bind_Ret, char_shl_plain, bind_Ret, u32_small by lia. done. }
  assert (C2 : forall y b0 b1 b k', k = b0 :: b1 :: b :: k' -> mur_case op true k 2 16 y = Ret (op y (b * 2 ^ 16))).
  { intros y b0 b1 b k' ->. specialize (Hb 2%nat b eq_refl). unfold mur_case. change (c_read (b0 :: b1 :: b :: k') 2) with (Ret b).
    rewrite bind_Ret, char_shl_plain, bind_Ret, u32_small by lia. done. }
  assert (F : forall o n y, mur_case op false k o n y = Ret y) by done.
  destruct j as [|[|[|[|]]]]; [..|lia]; cbn [Nat.leb]; rewrite ?F, ?bind_Ret, ?F, ?bind_Ret.
  - change (mur_case0 op false k x) with (Ret x). by rewrite bind_Ret, H0.
  - destruct k as [|b0 k]; [cbn in Hl; lia|]. rewrite (C0 _ b0 k eq_refl), bind_Ret. cbn [firstn le]; rewrite firstn_O; cbn [le]. f_equal. f_equal. lia.
  - destruct k as [|b0 [|b1 k]]; cbn in Hl; [lia|lia|]. rewrite (C1 _ b0 b1 k eq_refl), bind_Ret, (C0 _ b0 _ eq_refl), bind_Ret.
    assert (H := Hb O b0 eq_refl). f_equal. rewrite Has, (Hcm (b1 * 2 ^ 8)), Hj by lia. f_equal. cbn [firstn le]; rewrite firstn_O; cbn [le]. lia.
  - destruct k as [|b0 [|b1 [|b2 k]]]; cbn in Hl; [lia|lia|lia|].
    rewrite (C2 _ b0 b1 b2 k eq_refl), bind_Ret, (C1 _ b0 b1 _ eq_refl), bind_Ret, (C0 _ b0 _ eq_refl), bind_Ret.
    assert (H := Hb O b0 eq_refl). assert (H' := Hb 1%nat b1 eq_refl). f_equal. rewrite !Has, (Hcm (b1 * 2 ^ 8)), Hj by lia.
    rewrite (Hcm (b2 * 2 ^ 16)), Hj by lia. f_equal. cbn [firstn le]; rewrite firstn_O; cbn [le]. lia.
Qed.

Lemma mur_rest_le k n h : plain k -> (n <= length k)%nat -> (n < 4)%nat ->
  mur_rest k (Z.of_nat n) h = Ret (if (n =? 0)%nat then h else u32 (Z.lxor h (le (take n k)) * mur_m)).
Proof.
  intros Hp Hn Hl. unfold mur_rest.
  rewrite (switch_le Z.lxor n); [|apply lxor_joins|done|done|done|by destruct n as [|[|[|[|]]]]; try lia..].
  destruct n as [|[|[|[|]]]]; [|done|done|done|lia]. change (Ret (Z.lxor h 0) = Ret h). by rewrite Z.lxor_0_r.
Qed.

(** What follows once the first bytes are in [t]. *)
Definition shifted_rest (fuel : nat) (align : Z) (k : list Z) (len t hashv : Z) : outcome Z :=
  '(k, len, t, hashv) ← mur_aligned_words fuel align k len t hashv;
  if align <=? len then
    d ← mur_case Z.lor (align =? 3) k 2 16 0;
    d ← mur_case Z.lor ((align =? 3) || (align =? 2)) k 1 8 d;
    d ← mur_case0 Z.lor ((align =? 3) || (align =? 2) || (align =? 1)) k d;
    mur_rest k (u32 (len - align)) (mur_mix (Z.lor (Z.shiftr t (8 * align)) (u32 (Z.shiftl d (8 * (4 - align))))) hashv)
  else
    d ← mur_case Z.lxor (len =? 3) k 2 16 0;
    d ← mur_case Z.lxor ((len =? 3) || (len =? 2)) k 1 8 d;
    d ← mur_case0 Z.lxor ((len =? 3) || (len =? 2) || (len =? 1)) k d;
    Ret (u32 (Z.lxor hashv (Z.lor (Z.shiftr t (8 * align)) (u32 (Z.shiftl d (8 * (4 - align))))) * mur_m)).

(** The lengths for which the trailing bytes are read from the right place. *)
Definition tail_ok (a n : nat) : Prop := (n `mod` 4 = 0)%nat \/ (4 - a <= n `mod` 4)%nat.

Lemma words_stop fuel k h : (length k < 4)%nat -> mur_words fuel k (Z.of_nat (length k)) h = Ret (k, Z.of_nat (length k), h).
Proof. intros Hk. destruct fuel; cbn; by destruct (Z.ltb_spec (Z.of_nat (length k)) 4); try lia. Qed.

Lemma words_step fuel k h : (4 <= length k)%nat -> Z.of_nat (length k) < 2 ^ 32 ->
  mur_words (S fuel) k (Z.of_nat (length k)) h = mur_words fuel (drop 4 k) (Z.of_nat (length (drop 4 k))) (mur_mix (le (take 4 k)) h).
Proof.
  intros Hk Hl. cbn [mur_words]. destruct (Z.ltb_spec (Z.of_nat (length k)) 4); [lia|]. rewrite word_at_le, bind_Ret by done.
  rewrite u32_small by lia. f_equal. rewrite length_drop. lia.
Qed.

(** Fewer than four bytes are left. *)
Lemma shifted_short a fuel k t h : (0 < a < 4)%nat -> plain k -> (4 - a <= length k < 4)%nat ->
  Z.shiftr t (8 * Z.of_nat a) = le (take (4 - a) k) ->
  shifted_rest fuel (Z.of_nat a) (drop (4 - a) k) (Z.of_nat (length (drop (4 - a) k))) t h = mur_rest k (Z.of_nat (length k)) h.
Proof.
  intros Ha Hp Hk Ht. set (k1 := drop (4 - a) k). assert (Hl1 : length k1 = (length k - (4 - a))%nat) by apply length_drop.
  assert (Hp1 : plain k1) by (by apply plain_drop). unfold shifted_rest.
  replace (mur_aligned_words fuel (Z.of_nat a) k1 (Z.of_nat (length k1)) t h) with (Ret (k1, Z.of_nat (length k1), t, h))
    by (destruct fuel; cbn; by destruct (Z.ltb_spec (Z.of_nat (length k1)) 4); try lia).
  rewrite bind_Ret. destruct (Z.leb_spec (Z.of_nat a) (Z.of_nat (length k1))); [lia|].
  rewrite (switch_le Z.lxor (length k1)); [|apply lxor_joins|done|done|lia|by destruct (length k1) as [|[|[|[|]]]]; try lia..].
  rewrite Z.lxor_0_l, (take_ge k1), Ht by lia. assert (Hr := le_range k1 Hp1).
  assert (256 ^ Z.of_nat (length k1) <= 256 ^ Z.of_nat a) by (apply Z.pow_le_mono_r; lia).
  rewrite combine_le; [|done|done|lia|]. 2: { fold k1. rewrite (take_ge k1) by lia. apply Z.mod_small. lia. }
  rewrite (mur_rest_le k (length k)) by (done || lia). rewrite !take_ge by lia. destruct (length k); [lia|done].
Qed.

(** The next word is complete and it is the last one. *)
Lemma shifted_last a fuel k t h : (0 < a < 4)%nat -> plain k -> (4 <= length k < 8 - a)%nat -> tail_ok a (length k) ->
  Z.shiftr t (8 * Z.of_nat a) = le (take (4 - a) k) ->
  shifted_rest fuel (Z.of_nat a) (drop (4 - a) k) (Z.of_nat (length (drop (4 - a) k))) t h =
    mur_rest (drop 4 k) (Z.of_nat (length (drop 4 k))) (mur_mix (le (take 4 k)) h).
Proof.
  intros Ha Hp Hk Htl Ht. set (k1 := drop (4 - a) k). assert (Hl1 : length k1 = (length k - (4 - a))%nat) by apply length_drop.
  assert (Hp1 : plain k1) by (by apply plain_drop).
  assert (Hl4 : length k = 4%nat).
  { destruct Htl as [E|E]; replace (length k) with (length k - 4 + 1 * 4)%nat in E by lia; rewrite Nat.Div0.mod_add, Nat.mod_small in E by lia; lia. }
  unfold shifted_rest.
  replace (mur_aligned_words fuel (Z.of_nat a) k1 (Z.of_nat (length k1)) t h) with (Ret (k1, Z.of_nat (length k1), t, h))
    by (destruct fuel; cbn; by destruct (Z.ltb_spec (Z.of_nat (length k1)) 4); try lia).
  rewrite bind_Ret. destruct (Z.leb_spec (Z.of_nat a) (Z.of_nat (length k1))); [|lia].
  rewrite (switch_le Z.lor a); [|apply lor_joins|done|lia|lia|by destruct a as [|[|[|[|]]]]; try lia..].
  rewrite Z.lor_0_l, Ht. rewrite combine_le; [|done|done|lia|].
  2: { apply le_mod; [lia|fold k1; lia|done]. }
  rewrite length_drop, Hl4. replace (u32 (Z.of_nat (length k1) - Z.of_nat a)) with (Z.of_nat 0) by (rewrite u32_small; lia).
  rewrite (mur_rest_le k1 0), (mur_rest_le (drop 4 k) (4 - 4)) by first [done | by apply plain_drop | lia]. done.
Qed.

(** From a place where [4 - a] bytes are in [t], both versions compute the same. *)
Lemma shifted_same a k : (0 < a < 4)%nat -> plain k -> Z.of_nat (length k) < 2 ^ 32 -> forall t h f1 f2, (4 - a <= length k)%nat ->
  tail_ok a (length k) -> Z.shiftr t (8 * Z.of_nat a) = le (take (4 - a) k) -> (length k <= f1)%nat -> (length k <= f2)%nat ->
  shifted_rest f1 (Z.of_nat a) (drop (4 - a) k) (Z.of_nat (length (drop (4 - a) k))) t h =
    ('(k', n, h) ← mur_words f2 k (Z.of_nat (length k)) h; mur_rest k' n h).
Proof.
  intros Ha. induction k as [k IH] using (induction_ltof1 _ (@length Z)). unfold ltof in IH. intros Hp Hlk t h f1 f2 Hk Htl Ht Hf1 Hf2.
  destruct (decide (length k < 4)%nat) as [Hs|Hb].
  { rewrite words_stop, bind_Ret by done. apply shifted_short; try done; lia. }
  destruct f2 as [|f2]; [lia|]. rewrite words_step by lia. assert (Hl4 : length (drop 4 k) = (length k - 4)%nat) by apply length_drop.
  destruct (decide (length k < 8 - a)%nat) as [Hs|Hb2].
  { rewrite words_stop, bind_Ret by lia. apply shifted_last; try done; lia. }
  set (k1 := drop (4 - a) k). assert (Hl1 : length k1 = (length k - (4 - a))%nat) by apply length_drop.
  assert (Hp1 : plain k1) by (by apply plain_drop).
  assert (Htl4 : tail_ok a (length (drop 4 k))).
  { unfold tail_ok in *. rewrite Hl4. replace (length k) with (length k - 4 + 1 * 4)%nat in Htl by lia. by rewrite Nat.Div0.mod_add in Htl. }
  rewrite <- (IH (drop 4 k) ltac:(lia) (plain_drop _ _ Hp) ltac:(lia) (le (take 4 k1)) _ (f1 - 1)%nat f2); [|lia|done| |lia|lia].
  2: { rewrite rest_le by (done || lia). unfold k1. rewrite drop_drop. by replace (4 - a + a)%nat with 4%nat by lia. }
  unfold shifted_rest. destruct f1 as [|f1]; [lia|]. cbn [mur_aligned_words].
  destruct (Z.ltb_spec (Z.of_nat (length k1)) 4); [lia|]. rewrite word_at_le, bind_Ret by lia.
  rewrite Ht, combine_le; [|done|done|lia|]. 2: { fold k1. apply le_mod; [lia|lia|done]. }
  replace (u32 (Z.of_nat (length k1) - 4)) with (Z.of_nat (length (drop (4 - a) (drop 4 k)))) by (rewrite u32_small, !length_drop; lia).
  replace (S f1 - 1)%nat with f1 by lia. unfold k1. by rewrite !drop_drop, Nat.add_comm.
Qed.

Lemma mur_aligned_same fuel a k n : (a < 4)%nat -> plain k -> Z.of_nat (length k) < 2 ^ 32 -> (length k <= fuel)%nat ->
  a = O \/ (length k < 4)%nat \/ tail_ok a (length k) ->
  HASH_MUR_ALIGNED fuel (Z.of_nat a) k (Z.of_nat (length k)) n = HASH_MUR_UNALIGNED fuel k (Z.of_nat (length k)) n.
Proof.
  intros Ha Hp Hl Hf Hc. unfold HASH_MUR_ALIGNED, HASH_MUR_UNALIGNED.
  destruct (negb (Z.of_nat a =? 0) && (4 <=? Z.of_nat (length k))) eqn:Ec.
  2: { by destruct (mur_words _ _ _ _) as [[[k' n'] h']|]. }
  assert (Htl : tail_ok a (length k)) by (destruct Hc as [->|[Hc|Hc]]; [done|lia|done]).
  set (h := Z.lxor _ _). assert (E : mur_shifted fuel (Z.of_nat a) k (Z.of_nat (length k)) h =
    ('(k', n, h) ← mur_words fuel k (Z.of_nat (length k)) h; mur_rest k' n h)).
  { assert (Hlt : length (take (4 - a) k) = (4 - a)%nat) by (apply length_take_le; lia).
    assert (Hr := le_range _ (plain_take (4 - a) k Hp)). rewrite Hlt in Hr.
    assert (Hpw : 256 ^ Z.of_nat (4 - a) * 256 ^ Z.of_nat a = 2 ^ 32)
      by (rewrite <- Z.pow_add_r by lia; replace (Z.of_nat (4 - a) + Z.of_nat a) with 4 by lia; done).
    assert (Hpa : 0 < 256 ^ Z.of_nat a) by (apply Z.pow_pos_nonneg; lia).
    unfold mur_shifted. rewrite (switch_le Z.lor (4 - a)); [|apply lor_joins|done|lia|lia|destruct a as [|[|[|[|]]]]; try done; lia..].
    rewrite Z.lor_0_l. set (t := u32 (Z.shiftl (le (take (4 - a) k)) (8 * Z.of_nat a))).
    assert (Ht : Z.shiftr t (8 * Z.of_nat a) = le (take (4 - a) k)).
    { unfold t. rewrite Z.shiftl_mul_pow2, pow_bytes by lia. rewrite u32_small by nia.
      rewrite Z.shiftr_div_pow2, pow_bytes by lia. apply Z.div_mul. lia. }
    rewrite <- (shifted_same a k ltac:(lia) Hp Hl t h fuel fuel ltac:(lia) Htl Ht Hf Hf). unfold shifted_rest.
    replace (Z.to_nat (4 - Z.of_nat a)) with (4 - a)%nat by lia. rewrite u32_small by lia.
    by replace (Z.of_nat (length k) - (4 - Z.of_nat a)) with (Z.of_nat (length (drop (4 - a) k))) by (rewrite length_drop; lia). }
  rewrite E. by destruct (mur_words _ _ _ _) as [[[k' n'] h']|].
Qed.

End Alignment.

(** ** Bloom filters *)

Section BloomFacts.
Import Uthash HashFn.

(** Bit [i] of a vector. *)
Definition bit (bv : list Z) (i : Z) : bool := match bv !! Z.to_nat (i / 8) with Some x => Z.testbit x (i mod 8) | None => false end.

Lemma bit_place i : 0 <= i -> 0 <= i / 8 /\ 0 <= i mod 8 < 8.
Proof. intros Hi. split; [apply Z.div_pos; lia|apply Z.mod_pos_bound; lia]. Qed.

Lemma bitset_ok bv i : 0 <= i < 8 * Z.of_nat (length bv) -> exists bv', HASH_BLOOM_BITSET bv i = Ret bv' /\
  length bv' = length bv /\ forall j, 0 <= j -> bit bv' j = (j =? i) || bit bv j.
Proof.
  intros Hi. destruct (bit_place i ltac:(lia)) as [Hq Hr]. assert (Hd := Z.div_mod i 8 ltac:(lia)). unfold HASH_BLOOM_BITSET.
  destruct (c_read_in_range bv (i / 8)) as [x Ex]; [lia|]. rewrite Ex, bind_Ret, c_write_ok by lia.
  eexists. split; [done|]. split; [apply length_insert|]. intros j Hj. apply c_read_inv in Ex as [_ Ex].
  destruct (bit_place j Hj) as [Hqj Hrj]. assert (Hdj := Z.div_mod j 8 ltac:(lia)). unfold bit.
  destruct (decide (i / 8 = j / 8)) as [E|Hne].
  - rewrite <- E, list_lookup_insert_eq, Ex by (apply lookup_lt_Some in Ex; lia). rewrite u8_testbit by lia.
    destruct (Z.ltb_spec (j mod 8) 8); [|lia]. cbn [andb]. rewrite Z.lor_spec, Z.shiftl_1_l, Z.pow2_bits_eqb by lia.
    rewrite orb_comm. f_equal. destruct (Z.eqb_spec (i mod 8) (j mod 8)), (Z.eqb_spec j i); lia.
  - rewrite list_lookup_insert_ne by (intros E; apply Hne; lia). destruct (Z.eqb_spec j i) as [->|]; [done|]. done.
Qed.

Lemma bittest_ok bv i : 0 <= i < 8 * Z.of_nat (length bv) -> exists b, HASH_BLOOM_BITTEST bv i = Ret b /\ (b <> 0 <-> bit bv i = true).
Proof.
  intros Hi. destruct (bit_place i ltac:(lia)) as [Hq Hr]. assert (Hd := Z.div_mod i 8 ltac:(lia)). unfold HASH_BLOOM_BITTEST.
  destruct (c_read_in_range bv (i / 8)) as [x Ex]; [lia|]. rewrite Ex, bind_Ret. eexists. split; [done|].
  apply c_read_inv in Ex as [_ Ex]. unfold bit. rewrite Ex, Z.shiftl_1_l.
  assert (Hb : forall j, 0 <= j -> Z.testbit (Z.land x (2 ^ (i mod 8))) j = Z.testbit x j && (i mod 8 =? j))
    by (intros j Hj; by rewrite Z.land_spec, Z.pow2_bits_eqb by lia).
  split.
  - intros Hne. destruct (Z.testbit x (i mod 8)) eqn:E; [done|]. destruct Hne. apply Z.bits_inj'. intros j Hj.
    rewrite Hb, Z.bits_0 by done. destruct (Z.eqb_spec (i mod 8) j) as [<-|]; [by rewrite E|apply andb_false_r].
  - intros E E0. specialize (Hb (i mod 8) ltac:(lia)). by rewrite E0, Z.bits_0, E, Z.eqb_refl in Hb.
Qed.

Section Filter.
Variable nbits : Z.
Hypothesis Hn : 1 <= nbits <= 32.

Lemma bloom_bytes : 2 ^ nbits <= 8 * HASH_BLOOM_BYTELEN nbits.
Proof.
  unfold HASH_BLOOM_BYTELEN, HASH_BLOOM_BITLEN. rewrite Z.shiftl_1_l. assert (Hd := Z.div_mod (2 ^ nbits) 8 ltac:(lia)).
  assert (Hm := Z.mod_pos_bound (2 ^ nbits) 8 ltac:(lia)). destruct (Z.eqb_spec (2 ^ nbits mod 8) 0); lia.
Qed.

Lemma bloom_index_mod v : bloom_index nbits v = v mod 2 ^ nbits.
Proof.
  unfold bloom_index. rewrite Z.shiftl_1_l. assert (2 ^ 1 <= 2 ^ nbits <= 2 ^ 32) by (split; apply Z.pow_le_mono_r; lia).
  rewrite u32_small by lia. replace (2 ^ nbits - 1) with (Z.ones nbits) by (rewrite Z.ones_equiv; lia). apply Z.land_ones. lia.
Qed.

Lemma bloom_index_range v : 0 <= bloom_index nbits v < 2 ^ nbits.
Proof. rewrite bloom_index_mod. apply Z.mod_pos_bound, Z.pow_pos_nonneg; lia. Qed.

(** The hash values of the elements, one after the other. *)
Fixpoint bloom_adds (bv : list Z) (hs : list Z) : outcome (list Z) :=
  match hs with [] => Ret bv | v :: hs' => bv ← HASH_BLOOM_ADD nbits bv v; bloom_adds bv hs' end.

Lemma bloom_adds_ok hs : forall bv, 2 ^ nbits <= 8 * Z.of_nat (length bv) -> exists bv', bloom_adds bv hs = Ret bv' /\
  length bv' = length bv /\ forall j, 0 <= j -> bit bv' j = true <-> bit bv j = true \/ exists v, v ∈ hs /\ bloom_index nbits v = j.
Proof.
  induction hs as [|v hs IH]; intros bv Hl; cbn [bloom_adds].
  { exists bv. split_and!; [done|done|]. intros j Hj. split; [tauto|]. intros [?|(v & Hv & _)]; [done|]. by apply elem_of_nil in Hv. }
  assert (Hv := bloom_index_range v). unfold HASH_BLOOM_ADD. destruct (bitset_ok bv (bloom_index nbits v)) as (bv1 & -> & Hl1 & Hb1); [lia|].
  rewrite bind_Ret. destruct (IH bv1) as (bv2 & E & Hl2 & Hb2); [by rewrite Hl1|]. exists bv2. split_and!; [done|congruence|].
  intros j Hj. rewrite Hb2, Hb1, orb_true_iff, Z.eqb_eq by done. split.
  - intros [[->|?]|(w & Hw & ?)]; [right; exists v; set_solver|by left|right; exists w; set_solver].
  - intros [?|(w & Hw & <-)]; [by left; right|]. apply elem_of_cons in Hw as [->|Hw]; [by left; left|right; by exists w].
Qed.

Lemma bloom_test_ok hs : exists bv, (bv ← HASH_BLOOM_MAKE nbits false; bloom_adds bv hs) = Ret bv /\
  forall v, exists b, HASH_BLOOM_TEST nbits bv v = Ret b /\ (b <> 0 <-> exists w, w ∈ hs /\ w mod 2 ^ nbits = v mod 2 ^ nbits).
Proof.
  assert (Hby := bloom_bytes). assert (H0 : 0 < 2 ^ nbits) by (apply Z.pow_pos_nonneg; lia).
  unfold HASH_BLOOM_MAKE. rewrite bind_Ret. destruct (bloom_adds_ok hs (replicate (Z.to_nat (HASH_BLOOM_BYTELEN nbits)) 0)) as (bv & E & Hl & Hb).
  { rewrite length_replicate. lia. }
  exists bv. split; [done|]. intros v. assert (Hv := bloom_index_range v). rewrite length_replicate in Hl.
  destruct (bittest_ok bv (bloom_index nbits v)) as (b & Et & Hbit); [lia|]. exists b. split; [done|]. rewrite Hbit, Hb by lia. split.
  - intros [Hz|(w & Hw & Ew)]; [|exists w; by rewrite !bloom_index_mod in Ew]. exfalso. unfold bit in Hz.
    destruct (_ !! _) as [x|] eqn:Ex; [|done]. apply lookup_replicate in Ex as [-> _]. by rewrite Z.bits_0 in Hz.
  - intros (w & Hw & Ew). right. exists w. by rewrite !bloom_index_mod.
Qed.

End Filter.
End BloomFacts.

(** ** Properties *)

Section HashProperties.
Import Uthash HashFn.

(** C39 Every hash function of the header stays inside the key and inside the table: it
    returns after reading bytes of the key only, with a 32-bit value that does not depend
    on the table and, for a table of 2^lg buckets, the number of one of its buckets.  For
    the three functions that shift a char this needs keys of bytes below 128, the others
    take any key. *)
Theorem hash_functions_inside (f : hash_fn) (k : list Z)
  (Hk : key_for f k) (Hl : Z.of_nat (length k) < 2 ^ 32) :
  exists v, 0 <= v < 2 ^ 32 /\ forall fuel lg, (length k <= fuel)%nat -> 0 <= lg < 32 ->
    hash_with f fuel k (Z.of_nat (length k)) (2 ^ lg) = Ret (v, v mod 2 ^ lg) /\ 0 <= v mod 2 ^ lg < 2 ^ lg.
Proof.
  destruct (hashes_all f k Hk Hl) as (v & Hv & E). exists v. split; [done|]. intros fuel lg Hf Hlg.
  rewrite E, to_bkt by (done || lia). split; [done|]. apply Z.mod_pos_bound, Z.pow_pos_nonneg; lia.
Qed.

Lemma hash_functions_inside_witness :
  exists v, hash_with (MurAligned 3) 30 (Z.of_nat <$> seq 60 21) 21 (2 ^ 5) = Ret (v, v mod 2 ^ 5) /\ 0 <= v mod 2 ^ 5 < 2 ^ 5.
Proof.
  destruct (hash_functions_inside (MurAligned 3) (Z.of_nat <$> seq 60 21)) as (v & _ & H).
  - split; [lia|]. apply (bool_decide_eq_true_1 _). vm_compute. reflexivity.
  - cbn. lia.
  - exists v. apply (H 30%nat 5); [cbn; lia|lia].
Defined.

(** The MurmurHash for aligned reads computes the same as the one for unaligned reads, at
    every address, for keys of text with fewer than four bytes or a length that is a multiple
    of four or leaves at least as many bytes as precede the first aligned address. *)
Theorem murmur_versions_agree (fuel : nat) (a : nat) (k : list Z) (num_bkts : Z)
  (Ha : (a < 4)%nat) (Hp : plain k) (Hl : Z.of_nat (length k) < 2 ^ 32) (Hf : (length k <= fuel)%nat)
  (Ht : a = O \/ (length k < 4)%nat \/ tail_ok a (length k)) :
  HASH_MUR_ALIGNED fuel (Z.of_nat a) k (Z.of_nat (length k)) num_bkts = HASH_MUR_UNALIGNED fuel k (Z.of_nat (length k)) num_bkts.
Proof. by apply mur_aligned_same. Qed.

Lemma murmur_versions_agree_witness :
  HASH_MUR_ALIGNED 20 3 (Z.of_nat <$> seq 60 17) 17 32 = HASH_MUR_UNALIGNED 20 (Z.of_nat <$> seq 60 17) 17 32.
Proof.
  assert (H := murmur_versions_agree 20 3 (Z.of_nat <$> seq 60 17) 32 ltac:(lia)
    ltac:(apply (bool_decide_eq_true_1 _); vm_compute; reflexivity) ltac:(cbn; lia) ltac:(cbn; lia)
    ltac:(right; right; right; cbn; lia)).
  exact H.
Defined.

(** For the other lengths the aligned version misses the last bytes: it advances the word
    it has just used instead of the key. *)
Lemma murmur_misreads_tail :
  HASH_MUR_ALIGNED 20 1 [97; 98; 99; 100; 101] 5 32 <> HASH_MUR_UNALIGNED 20 [97; 98; 99; 100; 101] 5 32.
Proof. vm_compute. discriminate. Qed.

(** A byte of 128 or more is a negative char, and its shift is undefined. *)
Lemma sfh_shifts_negative : HASH_SFH [97; 98; 200] 3 32 = Crash ArithUB.
Proof. reflexivity. Qed.

Lemma table_of_same p m T m1 : table_of p m = Ret (T, m1) -> m1 = m.
Proof.
  unfold table_of, tbl_of, table, hh, mbind, prog_bind. destruct p as [a|]; [|done]. destruct (elems m !! a) as [h|]; [|done]. cbn.
  destruct (tbl h) as [t|]; [|done]. destruct (tables m !! t); [|done]. by intros [= _ <-].
Qed.

(** A filter that holds the hash values of all keys does not change what HASH_FIND answers. *)
Lemma bloom_find_ok (nbits : Z) (fuel : nat) (hs : list Z) (m : mem) (head : option positive) (M : gmap (list Z) positive) (k bv : list Z)
  (Hn : 1 <= nbits <= 32) (HR : represents m head M) (Hs : forall k' a, M !! k' = Some a -> jen_hash k' ∈ hs)
  (Hbv : (bv ← HASH_BLOOM_MAKE nbits false; bloom_adds nbits bv hs) = Ret bv)
  (Hk : (length k <= fuel)%nat) (Hsz : (size M <= fuel)%nat) (Hf : Z.of_nat fuel < 2 ^ 32) :
  HASH_FIND_BLOOM nbits fuel bv head k (Z.of_nat (length k)) m = HASH_FIND fuel head k (Z.of_nat (length k)) m.
Proof.
  assert (Ef := find_ok fuel m head M k (represents_weaken _ _ _ HR) Hk Hsz Hf). destruct head as [a|]; [|done].
  destruct (bloom_test_ok nbits Hn hs) as (bv' & Ebv & Ht). rewrite Hbv in Ebv. injection Ebv as <-.
  destruct (Ht (jen_hash k)) as (b & Eb & Hb). destruct (jen_ok k ltac:(lia)) as [_ Ej].
  unfold HASH_FIND_BLOOM. unfold HASH_FIND in Ef |- *. unfold mbind, prog_bind in *.
  destruct (table_of (Some a) m) as [[T m1]|c] eqn:ET; [|done]. unfold lift in *. rewrite Ej in * by done. rewrite Eb.
  destruct (Z.eqb_spec b 0) as [->|Hne]; [|done]. rewrite Ef.
  assert (HM : M !! k = None).
  { apply eq_None_not_Some. intros [x Hx]. apply Hb; [|done]. exists (jen_hash k). split; [by eapply Hs|done]. }
  rewrite HM. by rewrite (table_of_same _ _ _ _ ET).
Qed.

(** A Bloom filter of up to 32 bits is exact on the low bits of the hash values and hides
    no element: once the hash values [hs] have been added to a new filter, a test is positive
    exactly for the values that agree with one of them in these bits, no access is outside
    the bit vector, and on a table whose elements all went into the filter HASH_FIND answers
    the same with the filter as without it. *)
Theorem bloom_filter_transparent (nbits : Z) (hs : list Z) (Hn : 1 <= nbits <= 32) :
  exists bv, (bv ← HASH_BLOOM_MAKE nbits false; bloom_adds nbits bv hs) = Ret bv /\
    (forall v, exists b, HASH_BLOOM_TEST nbits bv v = Ret b /\ (b <> 0 <-> exists w, w ∈ hs /\ w mod 2 ^ nbits = v mod 2 ^ nbits)) /\
    forall fuel m head M k, represents m head M -> (forall k' a, M !! k' = Some a -> jen_hash k' ∈ hs) ->
      (length k <= fuel)%nat -> (size M <= fuel)%nat -> Z.of_nat fuel < 2 ^ 32 ->
      HASH_FIND_BLOOM nbits fuel bv head k (Z.of_nat (length k)) m = HASH_FIND fuel head k (Z.of_nat (length k)) m.
Proof.
  destruct (bloom_test_ok nbits Hn hs) as (bv & E & Ht). exists bv. split; [done|]. split; [done|].
  intros fuel m head M k HR Hs Hk Hsz Hf. by apply (bloom_find_ok nbits fuel hs m head M k bv).
Qed.

Lemma bloom_filter_transparent_witness :
  exists bv b, (bv ← HASH_BLOOM_MAKE 4 false; bloom_adds 4 bv [7; 12]) = Ret bv /\ HASH_BLOOM_TEST 4 bv 23 = Ret b /\ b <> 0.
Proof.
  destruct (bloom_filter_transparent 4 [7; 12] ltac:(lia)) as (bv & E & H & _). destruct (H 23) as (b & Eb & Hb).
  exists bv, b. split; [exact E|]. split; [exact Eb|]. apply Hb. exists 7. split; [set_solver|reflexivity].
Defined.

End HashProperties.
