(* ===== verification/Trace.v ===== *)
(** * Messages: common/trace.c

    Every component reports through these functions.  A message is formatted into a
    buffer of 1024 bytes, a line end is appended and the line is written.  [Trace]
    translates them from the formatted text on; the buffer is a C string with a
    capacity, and writing past it is [OutOfBounds].  The theorems say for which messages
    the line is written whole, and that longer ones run over the buffer. *)

From Stdlib Require Import Ascii.
From S2P Require Import Prelude.

#[local] Open Scope Z_scope.

Module Trace.

Definition MAX_ERR_BUF_SIZE : Z := 1024.

(** stderr, the log file and the system log. *)
Class TraceOps (W : Type) : Type := {
  errno : W -> Z;
  strerror : Z -> string;
  fprintf : string -> W -> Z * W;
  fprintf_stdout : string -> W -> W;
  fputs_stderr : string -> W -> W;
  syslog : Z -> string -> W -> W
}.

Definition LOG_ERR : Z := 3.
Definition LOG_INFO : Z := 6.

Definition newline : string := String (ascii_of_nat 10) EmptyString.

(** vsprintf and vsnprintf into a buffer of [size] bytes, from its start. *)
Definition vsprintf (size : Z) (msg : string) : outcome string :=
  if Z.of_nat (String.length msg) <? size then Ret msg else Crash OutOfBounds.
Definition vsnprintf (size : Z) (msg : string) : string := CString.firstn (Z.to_nat (size - 1)) msg.

(** strcat onto the string that a buffer of [size] bytes holds. *)
Definition strcat (size : Z) (buf s : string) : outcome string :=
  if Z.of_nat (String.length buf + String.length s) <? size then Ret (buf ++ s)%string else Crash OutOfBounds.

Section Trace.
Context {W : Type} `{TraceOps W}.
#[local] Abbreviation M := (prog W).

Definition call (f : W -> W) : M unit := modify f.

(** HAVE_VSNPRINTF is not defined anywhere, so the message goes through vsprintf. *)
Definition err_doit (daemon_proc errnoflag : bool) (level : Z) (msg : string) : M unit :=
  errno_save ← gets errno;
  buf ← lift (vsprintf MAX_ERR_BUF_SIZE msg);
  let n := Z.of_nat (String.length buf) in
  let buf := if errnoflag
             then (buf ++ vsnprintf (MAX_ERR_BUF_SIZE - n) ("[" ++ strerror errno_save ++ "]"))%string
             else buf in
  buf ← lift (strcat MAX_ERR_BUF_SIZE buf newline);
  if daemon_proc then call (syslog level buf) else call (fputs_stderr buf).

Definition err_ret (daemon_proc : bool) (msg : string) : M unit := err_doit daemon_proc true LOG_INFO msg.

Definition err_sys (daemon_proc : bool) (msg : string) : M unit :=
  _ ← err_doit daemon_proc true LOG_ERR msg; crash_with ProcessExit.

Definition err_dump (daemon_proc : bool) (msg : string) : M unit :=
  _ ← err_doit daemon_proc true LOG_ERR msg; crash_with ProcessAbort.

Definition err_msg (daemon_proc : bool) (msg : string) : M unit := err_doit daemon_proc false LOG_INFO msg.

Definition err_quit (daemon_proc : bool) (msg : string) : M unit :=
  _ ← err_doit daemon_proc false LOG_ERR msg; crash_with ProcessExit.

(** [None]: the format could not be printed. *)
Definition dbg_msg_fp_va (msg : option string) : M Z :=
  match msg with
  | None => e ← gets errno; mret (- e)
  | Some msg =>
      buffer ← lift (strcat MAX_ERR_BUF_SIZE (vsnprintf MAX_ERR_BUF_SIZE msg) newline);
      ret ← (fun w => let '(r, w) := fprintf buffer w in Ret (r, w));
      if ret <? 0 then e ← gets errno; mret (- e) else mret 0
  end.

(** DBG_ENABLED and DBG_FUNC_ENABLED are set in trace.h. *)
Definition dbg_msg (msg : option string) : M unit :=
  ret_val ← dbg_msg_fp_va msg;
  if ret_val <? 0 then call (fprintf_stdout "[dbg_msg] tracing error ") else mret tt.

Definition dbg_msg_func (msg : option string) : M unit :=
  ret_val ← dbg_msg_fp_va msg;
  if ret_val <? 0 then call (fprintf_stdout "[dbg_msg_func] tracing error ") else mret tt.

End Trace.
End Trace.

Section TraceFacts.
Import Trace.

Lemma firstn_length n s : String.length (CString.firstn n s) = Nat.min n (String.length s).
Proof. revert s. induction n as [|n IH]; intros [|a s]; cbn; [done..|]. by rewrite IH. Qed.

Lemma firstn_all n s : (String.length s <= n)%nat -> CString.firstn n s = s.
Proof.
  revert s. induction n as [|n IH]; intros [|a s] Hl; cbn in *; [done|lia|done|]. by rewrite IH by lia.
Qed.

End TraceFacts.

Section TraceProperties.
Import Trace.
Context {W : Type} `{TraceOps W}.

(** An error message is written whole or runs over its buffer: [err_msg] writes the
    text and a line end when the text has at most 1022 bytes, and writes past the buffer
    of 1024 bytes otherwise. *)
Theorem error_message_bounds (msg : string) (w : W) :
  err_msg false msg w =
    if Z.of_nat (String.length msg) <=? 1022 then Ret (tt, fputs_stderr (msg ++ newline)%string w) else Crash OutOfBounds.
Proof.
  unfold err_msg, err_doit, vsprintf, MAX_ERR_BUF_SIZE. unfold mbind, prog_bind, gets, lift.
  destruct (Z.leb_spec (Z.of_nat (String.length msg)) 1022).
  - destruct (Z.ltb_spec (Z.of_nat (String.length msg)) 1024); [|lia]. unfold strcat.
    destruct (Z.ltb_spec (Z.of_nat (String.length msg + String.length newline)) 1024); [done|cbn in *; lia].
  - destruct (Z.ltb_spec (Z.of_nat (String.length msg)) 1024); [|done]. unfold strcat.
    destruct (Z.ltb_spec (Z.of_nat (String.length msg + String.length newline)) 1024); [cbn in *; lia|done].
Qed.

(** A debug message is never cut off safely: [dbg_msg] writes a text of at most 1022
    bytes and a line end; a longer text is cut to 1023 bytes by vsnprintf and the line end
    then runs over the buffer. *)
Theorem debug_message_bounds (msg : string) (w : W) :
  dbg_msg_fp_va (Some msg) w =
    if Z.of_nat (String.length msg) <=? 1022
    then let '(r, w') := fprintf (msg ++ newline)%string w in Ret ((if r <? 0 then - errno w' else 0), w')
    else Crash OutOfBounds.
Proof.
  unfold dbg_msg_fp_va, strcat, vsnprintf, MAX_ERR_BUF_SIZE. unfold mbind, prog_bind, lift. rewrite firstn_length.
  change (Z.to_nat (1024 - 1)) with 1023%nat. change (String.length newline) with 1%nat. destruct (Z.leb_spec (Z.of_nat (String.length msg)) 1022).
  - destruct (Z.ltb_spec (Z.of_nat (Nat.min 1023 (String.length msg) + 1)) 1024); [|lia].
    rewrite firstn_all by lia. destruct (fprintf _ w) as [r w']. by destruct (r <? 0).
  - destruct (Z.ltb_spec (Z.of_nat (Nat.min 1023 (String.length msg) + 1)) 1024); [lia|done].
Qed.

End TraceProperties.
