(* ===== verification/Pvfs.v ===== *)
(** * The PVFS system interface and the C library, as the program calls them

    PVFS, the C library's clock and allocator and the RPC transport are not part of
    the repository.  [PvfsOps] has one field for each function the sources call: a
    world [W] goes in, the return value, what the call stored through its response
    pointer, and the next world come out.  The constants of the PVFS headers are
    fields too.  [PvfsSpec] states what the sources rely on, through an abstract
    view of the world: which directory objects exist and which entries they list.
    [MemFs] is an in-memory file system that satisfies [PvfsSpec]. *)

From S2P Require Import Prelude.

From Stdlib Require Import Ascii.

#[local] Open Scope Z_scope.

(** ** Error numbers of the C library (Linux) *)

Definition ENOENT : Z := 2.
Definition EIO : Z := 5.
Definition EAGAIN : Z := 11.
Definition ENOMEM : Z := 12.
Definition EEXIST : Z := 17.
Definition EACCES : Z := 13.
Definition EDEADLK : Z := 35.
Definition ENAMETOOLONG : Z := 36.
Definition ENOSYS : Z := 38.

Module Pvfs.

Record PVFS_object_ref : Type := mkRef { handle : Z; fs_id : Z }.

#[export] Instance object_ref_eq_dec : EqDecision PVFS_object_ref.
Proof. solve_decision. Defined.

#[export] Instance object_ref_countable : Countable PVFS_object_ref.
Proof.
  apply (inj_countable' (fun r => (handle r, fs_id r)) (fun p => mkRef p.1 p.2)).
  by intros [].
Defined.

(** A zeroed response structure. *)
Definition zero_ref : PVFS_object_ref := mkRef 0 0.

Record PVFS_credentials : Type := mkCreds { uid : Z; gid : Z }.

Inductive PVFS_ds_type : Type :=
| PVFS_TYPE_NONE
| PVFS_TYPE_METAFILE
| PVFS_TYPE_DATAFILE
| PVFS_TYPE_DIRECTORY
| PVFS_TYPE_SYMLINK
| PVFS_TYPE_DIRDATA
| PVFS_TYPE_INTERNAL.

#[export] Instance ds_type_eq_dec : EqDecision PVFS_ds_type.
Proof. solve_decision. Defined.

Record PVFS_sys_attr : Type := mkAttr {
  owner : Z;
  group : Z;
  perms : Z;
  atime : Z;
  mtime : Z;
  ctime : Z;
  size : Z;
  link_target : option string;
  dfile_count : Z;
  dirent_count : Z;
  objtype : PVFS_ds_type;
  mask : Z
}.

(** memset(&attr, 0, sizeof attr) *)
Definition zero_attr : PVFS_sys_attr :=
  mkAttr 0 0 0 0 0 0 0 None 0 0 PVFS_TYPE_NONE 0.

Record PVFS_dirent : Type := mkDirent { d_name : string; d_handle : Z }.

(** PVFS_sysresp_readdir: pvfs_dirent_outcount is the length of the array. *)
Record PVFS_sysresp_readdir : Type := mkReaddir {
  token : Z;
  dirent_array : list PVFS_dirent
}.

Definition outcount (r : PVFS_sysresp_readdir) : Z := Z.of_nat (length (dirent_array r)).

(** enum clnt_stat, as far as the sources tell its values apart. *)
Inductive clnt_stat : Type := RPC_SUCCESS | RPC_FAILED.

#[export] Instance clnt_stat_eq_dec : EqDecision clnt_stat.
Proof. solve_decision. Defined.

(** What the program calls of PVFS, of the C library and of pthreads. *)
Class PvfsOps (W : Type) : Type := {
  PVFS_READDIR_START : Z;
  PVFS_ENOENT : Z;
  PVFS_ATTR_SYS_ALL_NOHINT : Z;
  PVFS_ATTR_SYS_ALL_SETABLE : Z;
  PVFS_ATTR_SYS_DIRENT_COUNT : Z;
  PVFS_get_errno_mapping : Z -> Z;

  PVFS_util_gen_credentials : W -> PVFS_credentials * W;
  PVFS_sys_lookup : Z -> string -> PVFS_credentials -> W -> Z * PVFS_object_ref * W;
  PVFS_sys_ref_lookup : Z -> string -> PVFS_object_ref -> PVFS_credentials -> W ->
                        Z * PVFS_object_ref * W;
  PVFS_sys_getattr : PVFS_object_ref -> Z -> PVFS_credentials -> W -> Z * PVFS_sys_attr * W;
  PVFS_sys_create : string -> PVFS_object_ref -> PVFS_sys_attr -> PVFS_credentials -> W ->
                    Z * PVFS_object_ref * W;
  PVFS_sys_mkdir : string -> PVFS_object_ref -> PVFS_sys_attr -> PVFS_credentials -> W ->
                   Z * PVFS_object_ref * W;
  PVFS_sys_remove : string -> PVFS_object_ref -> PVFS_credentials -> W -> Z * W;
  PVFS_sys_rename : string -> PVFS_object_ref -> string -> PVFS_object_ref ->
                    PVFS_credentials -> W -> Z * W;
  PVFS_sys_readdir : PVFS_object_ref -> Z -> Z -> PVFS_credentials -> W ->
                     Z * PVFS_sysresp_readdir * W;
  PVFS_mgmt_map_handle : Z -> Z -> W -> Z * Z * W;

  time : W -> Z * W;
  malloc : W -> bool * W;
  pthread_rwlock_init : W -> Z * W;
  sem_timedout : W -> bool * W
}.

(** ** What the program relies on *)

(** A name of one component. *)
Definition simple (n : string) : Prop := CString.count "/"%char n = O.

(** The handle a directory lists for a name. *)
Fixpoint assoc (n : string) (l : list (string * Z)) : option Z :=
  match l with
  | [] => None
  | (m, h) :: l' => if decide (m = n) then Some h else assoc n l'
  end.

(** The abstract view of a world: whether the file system is consistent, and the
    entries of each directory object in the order they are listed. *)
Class PvfsView (W : Type) : Type := {
  fs_ok : W -> Prop;
  dirs : W -> Z -> option (list (string * Z))
}.

(** A step after which every directory is as before. *)
Definition quiet {W} `{PvfsView W} (w w' : W) : Prop := fs_ok w' /\ forall h, dirs w' h = dirs w h.

(** A step that changes the listing of one directory to [es]. *)
Definition relisted {W} `{PvfsView W} (p : Z) (es : list (string * Z)) (w w' : W) : Prop :=
  fs_ok w' /\ forall h, dirs w' h = if decide (h = p) then Some es else dirs w h.

(** The documented behaviour of the calls on a consistent file system whose
    objects the credentials may use. *)
Class PvfsSpec (W : Type) {P : PvfsOps W} {V : PvfsView W} : Prop := {
  errno_ok : PVFS_get_errno_mapping 0 = 0;
  errno_enoent : PVFS_get_errno_mapping (- PVFS_ENOENT) = ENOENT;
  enoent_positive : 0 < PVFS_ENOENT;
  start_large : 2 ^ 30 < PVFS_READDIR_START;
  names_ok w h es : fs_ok w -> dirs w h = Some es ->
    NoDup es.*1 /\ Forall (fun n => simple n /\ (String.length n < 256)%nat) es.*1 /\
    Z.of_nat (length es) < 2 ^ 30;
  credentials_quiet w : fs_ok w -> exists c w', PVFS_util_gen_credentials w = (c, w') /\ quiet w w';
  time_quiet w : fs_ok w -> exists t w', time w = (t, w') /\ quiet w w';
  malloc_quiet w : fs_ok w -> exists b w', malloc w = (b, w') /\ quiet w w';
  rwlock_init_quiet w : fs_ok w -> exists rc w', pthread_rwlock_init w = (rc, w') /\ quiet w w';
  map_handle_quiet w fs h : fs_ok w ->
    exists rc a w', PVFS_mgmt_map_handle fs h w = (rc, a, w') /\ quiet w w';
  lookup_found w c fs n p es h : fs_ok w -> dirs w (handle p) = Some es -> simple n ->
    assoc n es = Some h ->
    exists w', PVFS_sys_ref_lookup fs n p c w = (0, mkRef h (fs_id p), w') /\ quiet w w';
  lookup_absent w c fs n p es : fs_ok w -> dirs w (handle p) = Some es -> simple n ->
    assoc n es = None ->
    exists r w', PVFS_sys_ref_lookup fs n p c w = (- PVFS_ENOENT, r, w') /\ quiet w w';
  getattr_directory w c m p es : fs_ok w -> dirs w (handle p) = Some es ->
    exists a w', PVFS_sys_getattr p m c w = (0, a, w') /\ objtype a = PVFS_TYPE_DIRECTORY /\
      dirent_count a = Z.of_nat (length es) /\ quiet w w';
  readdir_from w c p tok n es : fs_ok w -> dirs w (handle p) = Some es -> 0 <= n ->
    (tok = PVFS_READDIR_START \/ 0 <= tok < PVFS_READDIR_START) ->
    let from := if tok =? PVFS_READDIR_START then 0 else tok + 1 in
    let batch := take (Z.to_nat n) (drop (Z.to_nat from) es) in
    exists w', PVFS_sys_readdir p tok n c w =
        (0, mkReaddir (from + Z.of_nat (length batch) - 1)
              ((fun e => mkDirent e.1 e.2) <$> batch), w') /\ quiet w w';
  create_absent w c a n p es : fs_ok w -> dirs w (handle p) = Some es -> simple n ->
    (String.length n < 256)%nat -> Z.of_nat (length es) + 1 < 2 ^ 30 -> assoc n es = None ->
    exists h es' w', PVFS_sys_create n p a c w = (0, mkRef h (fs_id p), w') /\
      es' ≡ₚ (n, h) :: es /\ relisted (handle p) es' w w';
  create_present w c a n p es h : fs_ok w -> dirs w (handle p) = Some es -> assoc n es = Some h ->
    exists rc r w', PVFS_sys_create n p a c w = (rc, r, w') /\ rc <> 0 /\ rc <> - PVFS_ENOENT /\
      PVFS_get_errno_mapping rc = EEXIST /\ quiet w w';
  rename_across w c n p q es eq h : fs_ok w ->
    dirs w (handle p) = Some es -> dirs w (handle q) = Some eq -> handle p <> handle q ->
    assoc n es = Some h -> assoc n eq = None -> Z.of_nat (length eq) + 1 < 2 ^ 30 ->
    exists eq' w', PVFS_sys_rename n p n q c w = (0, w') /\ eq' ≡ₚ (n, h) :: eq /\ fs_ok w' /\
      forall k, dirs w' k = if decide (k = handle p) then Some (filter (fun e => e.1 <> n) es)
                            else if decide (k = handle q) then Some eq' else dirs w k
}.

(** The documented behaviour of making and removing directories. *)
Class PvfsMakes (W : Type) {P : PvfsOps W} {V : PvfsView W} : Prop := {
  mkdir_absent w c a n p es : fs_ok w -> dirs w (handle p) = Some es -> simple n ->
    (String.length n < 256)%nat -> Z.of_nat (length es) + 1 < 2 ^ 30 -> assoc n es = None ->
    exists h es' w', PVFS_sys_mkdir n p a c w = (0, mkRef h (fs_id p), w') /\ dirs w h = None /\
      es' ≡ₚ (n, h) :: es /\ fs_ok w' /\
      forall k, dirs w' k = if decide (k = handle p) then Some es'
                            else if decide (k = h) then Some [] else dirs w k;
  remove_empty w c n p es h : fs_ok w -> dirs w (handle p) = Some es -> assoc n es = Some h ->
    h <> handle p -> dirs w h = Some [] ->
    exists w', PVFS_sys_remove n p c w = (0, w') /\ fs_ok w' /\
      forall k, dirs w' k = if decide (k = handle p) then Some (filter (fun e => e.1 <> n) es)
                            else if decide (k = h) then None else dirs w k
}.

(** The documented behaviour of removing and renaming files, and of asking for the type
    of an object that is not a directory. *)
Class PvfsFiles (W : Type) {P : PvfsOps W} {V : PvfsView W} : Prop := {
  getattr_other w c m p : fs_ok w -> dirs w (handle p) = None ->
    exists rc a w', PVFS_sys_getattr p m c w = (rc, a, w') /\ objtype a <> PVFS_TYPE_DIRECTORY /\ quiet w w';
  remove_file w c n p es h : fs_ok w -> dirs w (handle p) = Some es -> assoc n es = Some h -> dirs w h = None ->
    exists w', PVFS_sys_remove n p c w = (0, w') /\ relisted (handle p) (filter (fun e => e.1 <> n) es) w w';
  mkdir_present w c a n p es h : fs_ok w -> dirs w (handle p) = Some es -> assoc n es = Some h ->
    exists rc r w', PVFS_sys_mkdir n p a c w = (rc, r, w') /\ rc <> 0 /\ PVFS_get_errno_mapping rc = EEXIST /\
      quiet w w';
  rename_within w c n n' p es h : fs_ok w -> dirs w (handle p) = Some es -> assoc n es = Some h ->
    assoc n' es = None -> simple n' -> (String.length n' < 256)%nat ->
    exists es' w', PVFS_sys_rename n p n' p c w = (0, w') /\
      es' ≡ₚ (n', h) :: filter (fun e => e.1 <> n) es /\ relisted (handle p) es' w w';
  rename_between w c n n' p q es eq h : fs_ok w ->
    dirs w (handle p) = Some es -> dirs w (handle q) = Some eq -> handle p <> handle q ->
    assoc n es = Some h -> assoc n' eq = None -> simple n' -> (String.length n' < 256)%nat ->
    Z.of_nat (length eq) + 1 < 2 ^ 30 ->
    exists eq' w', PVFS_sys_rename n p n' q c w = (0, w') /\ eq' ≡ₚ (n', h) :: eq /\ fs_ok w' /\
      forall k, dirs w' k = if decide (k = handle p) then Some (filter (fun e => e.1 <> n) es)
                            else if decide (k = handle q) then Some eq' else dirs w k
}.

(** Absolute paths of at most one component, below the directory object [root]. *)
Class PvfsPaths (W : Type) {P : PvfsOps W} {V : PvfsView W} (root : Z) : Prop := {
  path_root w c fs : fs_ok w -> exists w', PVFS_sys_lookup fs "/" c w = (0, mkRef root fs, w') /\ quiet w w';
  path_found w c fs n es h : fs_ok w -> dirs w root = Some es -> simple n -> n <> EmptyString ->
    assoc n es = Some h ->
    exists w', PVFS_sys_lookup fs (String "/" n) c w = (0, mkRef h fs, w') /\ quiet w w';
  path_absent w c fs n es : fs_ok w -> dirs w root = Some es -> simple n -> n <> EmptyString ->
    assoc n es = None ->
    exists r w', PVFS_sys_lookup fs (String "/" n) c w = (- PVFS_ENOENT, r, w') /\ quiet w w'
}.

(** The stubs rpcgen generates for the calls between servers (common/skye_rpc.x). *)
Class BucketRpc (W : Type) : Type := {
  skye_rpc_bucket_add_1 : PVFS_object_ref -> Z -> Z -> W -> clnt_stat * Z * W;
  skye_rpc_bucket_remove_1 : PVFS_credentials -> PVFS_object_ref -> Z -> Z -> W ->
                             clnt_stat * Z * W
}.

End Pvfs.

(** A call of the world inside a process with local state [L]. *)
Definition sys {L W A} (f : W -> A * W) : prog (L * W) A := fun s =>
  let '(a, w) := f s.2 in Ret (a, (s.1, w)).

Definition getl {L W} : prog (L * W) L := fun s => Ret (s.1, s).
Definition modl {L W} (f : L -> L) : prog (L * W) unit := fun s => Ret (tt, (f s.1, s.2)).
Definition in_world {L W A} (m : prog W A) : prog (L * W) A := fun s =>
  match m s.2 with Ret (a, w) => Ret (a, (s.1, w)) | Crash c => Crash c end.

Lemma wp_sys {L W A} E (f : W -> A * W) (Q : A -> L * W -> Prop) s :
  (forall a w, f s.2 = (a, w) -> Q a (s.1, w)) -> wp E (sys f) Q s.
Proof. unfold wp, sys. destruct (f s.2) as [a w]. auto. Qed.

Lemma wp_getl {L W} E (Q : L -> L * W -> Prop) s : Q s.1 s -> wp E getl Q s.
Proof. done. Qed.

Lemma wp_modl {L W} E (f : L -> L) (Q : unit -> L * W -> Prop) s :
  Q tt (f s.1, s.2) -> wp E (modl f) Q s.
Proof. done. Qed.

Lemma wp_in_world {L W A} E (m : prog W A) (Q : A -> L * W -> Prop) s :
  wp E m (fun a w => Q a (s.1, w)) s.2 -> wp E (in_world m) Q s.
Proof. unfold wp, in_world. by destruct (m s.2) as [[a w]|c]. Qed.

Lemma wp_sys_eq {L W A} E (f : W -> A * W) (Q : A -> L * W -> Prop) s a w :
  f s.2 = (a, w) -> Q a (s.1, w) -> wp E (sys f) Q s.
Proof. intros Hf HQ. apply wp_sys. intros a' w' E'. rewrite Hf in E'. by injection E' as <- <-. Qed.

Section Views.
Import Pvfs.
Context {W : Type} `{PvfsView W}.

Lemma quiet_dirs w w' h : quiet w w' -> dirs w' h = dirs w h.
Proof. by intros [_ Hq]. Qed.

Lemma quiet_ok w w' : quiet w w' -> fs_ok w'.
Proof. by intros [Hq _]. Qed.

Lemma quiet_trans w1 w2 w3 : quiet w1 w2 -> quiet w2 w3 -> quiet w1 w3.
Proof. intros [_ H1] [H2 H3]. split; [done|]. intros h. by rewrite H3, H1. Qed.

Lemma assoc_None n l : assoc n l = None <-> n ∉ l.*1.
Proof.
  induction l as [|[m h] l IH]; cbn; [split; [by intros _ ?%elem_of_nil|done]|].
  destruct (decide (m = n)) as [->|]; [split; [done|set_solver]|]. rewrite IH. set_solver.
Qed.

Lemma assoc_Some n h l : NoDup l.*1 -> (n, h) ∈ l -> assoc n l = Some h.
Proof.
  induction l as [|[m k] l IH]; cbn; intros Hnd Hin; [by apply elem_of_nil in Hin|].
  apply list.NoDup_cons in Hnd as [Hm Hnd]. apply elem_of_cons in Hin as [[= <- <-]|Hin].
  - by rewrite decide_True.
  - rewrite decide_False; [by apply IH|]. intros ->. apply Hm. change n with (n, h).1.
    by eapply list_elem_of_fmap_2.
Qed.

Lemma assoc_In n h l : assoc n l = Some h -> (n, h) ∈ l.
Proof.
  induction l as [|[m k] l IH]; cbn; [done|]. destruct (decide (m = n)) as [->|].
  - intros [= ->]. by left.
  - intros E. right. auto.
Qed.

End Views.
