(* ===== verification/Rpc.v ===== *)
(** * RPC messages: common/skye_rpc.x and common/skye_rpc_helper.c

    The result unions of skye_rpc.x and the XDR routines that put PVFS references,
    credentials, modes and GIGA+ mappings on the wire.  An XDR routine is one function
    for both directions, driven by the operation of the stream; [Xdr] keeps it that
    way.  The stubs rpcgen generates for the clients are the class [SkyeRpc]. *)

From S2P Require Import Prelude GigaIndex Pvfs.

#[local] Open Scope Z_scope.

Module Rpc.
Import Pvfs Giga.

(** The arm of a result union that was stored last. *)
Inductive arm : Type :=
| U_none
| U_ref (r : PVFS_object_ref)
| U_bitmap (m : giga_mapping_t).

(** union skye_lookup; union skye_result is the same without a reference. *)
Record skye_lookup : Type := mkLookup { errnum : Z; lookup_u : arm }.

(** The procedures for clients: the connection is the number clnttcp_create gave. *)
Class SkyeRpc (W : Type) : Type := {
  skye_rpc_lookup_1 : PVFS_credentials -> PVFS_object_ref -> string -> Z -> W ->
                      clnt_stat * skye_lookup * W;
  skye_rpc_partition_1 : PVFS_credentials -> PVFS_object_ref -> string -> Z -> W ->
                         clnt_stat * skye_lookup * W;
  skye_rpc_create_1 : PVFS_credentials -> PVFS_object_ref -> string -> Z -> Z -> W ->
                      clnt_stat * skye_lookup * W;
  skye_rpc_mkdir_1 : PVFS_credentials -> PVFS_object_ref -> string -> Z -> Z -> W ->
                     clnt_stat * skye_lookup * W;
  skye_rpc_rename_1 : PVFS_credentials -> string -> PVFS_object_ref -> string -> PVFS_object_ref ->
                      Z -> W -> clnt_stat * skye_lookup * W;
  skye_rpc_remove_1 : PVFS_credentials -> PVFS_object_ref -> string -> Z -> W ->
                      clnt_stat * skye_lookup * W
}.

End Rpc.

Module Xdr.
Import Pvfs Giga Rpc.

Inductive xdr_op : Type := XDR_ENCODE | XDR_DECODE.

(** The stream: bytes written so far, or bytes still to read. *)
Record XDR : Type := mkXDR { x_op : xdr_op; x_bytes : list Z }.

(** An XDR routine on an object: [None] is FALSE. *)
Definition routine (A : Type) : Type := A -> XDR -> option (A * XDR).

Definition be32 (v : Z) : list Z :=
  [u8 (Z.shiftr v 24); u8 (Z.shiftr v 16); u8 (Z.shiftr v 8); u8 v].

(** xdr_u_int and xdr_uint32_t: four bytes, most significant first. *)
Definition xdr_u_int : routine Z := fun v x =>
  match x_op x with
  | XDR_ENCODE => Some (v, mkXDR XDR_ENCODE (x_bytes x ++ be32 v))
  | XDR_DECODE =>
      match x_bytes x with
      | a :: b :: c :: d :: rest =>
          Some (2 ^ 24 * a + 2 ^ 16 * b + 2 ^ 8 * c + d, mkXDR XDR_DECODE rest)
      | _ => None
      end
  end.

(** xdr_int, and xdr_char through it: the character is sent as an int. *)
Definition xdr_int : routine Z := fun v x =>
  '(v', x) ← xdr_u_int (u32 v) x;
  Some (match x_op x with XDR_ENCODE => v | XDR_DECODE => i32 v' end, x).

(** The plain char of the platform is signed. *)
Definition i8 (v : Z) : Z := (v + 2 ^ 7) mod 2 ^ 8 - 2 ^ 7.

Definition xdr_char : routine Z := fun v x =>
  '(i, x) ← xdr_int (i8 v) x;
  Some (match x_op x with XDR_ENCODE => v | XDR_DECODE => u8 i end, x).

(** xdr_uint64_t: the high word first. *)
Definition xdr_uint64_t : routine Z := fun v x =>
  '(hi, x) ← xdr_u_int (Z.shiftr v 32) x;
  '(lo, x) ← xdr_u_int (u32 v) x;
  Some (match x_op x with XDR_ENCODE => v | XDR_DECODE => 2 ^ 32 * hi + lo end, x).

(** xdr_vector with xdr_char on the elements of an array. *)
Fixpoint xdr_vector (l : list Z) (x : XDR) : option (list Z * XDR) :=
  match l with
  | [] => Some ([], x)
  | c :: l' =>
      '(c, x) ← xdr_char c x;
      '(l', x) ← xdr_vector l' x;
      Some (c :: l', x)
  end.

Definition xdr_PVFS_object_ref : routine PVFS_object_ref := fun r x =>
  '(h, x) ← xdr_uint64_t (handle r) x;
  '(f, x) ← xdr_u_int (fs_id r) x;
  Some (mkRef h f, x).

Definition xdr_PVFS_credentials : routine PVFS_credentials := fun c x =>
  '(u, x) ← xdr_u_int (uid c) x;
  '(g, x) ← xdr_u_int (gid c) x;
  Some (mkCreds u g, x).

Definition xdr_mode_t : routine Z := fun m x => xdr_u_int m x.

Definition xdr_giga_mapping_t : routine giga_mapping_t := fun m x =>
  '(r, x) ← xdr_u_int (curr_radix m) x;
  '(z, x) ← xdr_u_int (zeroth_server m) x;
  '(n, x) ← xdr_u_int (server_count m) x;
  '(b, x) ← xdr_vector (bitmap m) x;
  Some (mkMapping b r z n, x).

(** The union skye_lookup of skye_rpc.x: the error number selects the arm. *)
Definition xdr_skye_lookup : routine skye_lookup := fun l x =>
  '(e, x) ← xdr_int (errnum l) x;
  if e =? 0 then
    '(r, x) ← xdr_PVFS_object_ref (match lookup_u l with U_ref r => r | _ => zero_ref end) x;
    Some (mkLookup e (U_ref r), x)
  else if e =? - EAGAIN then
    '(m, x) ← xdr_giga_mapping_t
      (match lookup_u l with
       | U_bitmap m => m | _ => mkMapping (replicate (Z.to_nat MAX_BMAP_LEN) 0) 0 0 0 end) x;
    Some (mkLookup e (U_bitmap m), x)
  else Some (mkLookup e U_none, x).

End Xdr.

(** ** Round trips *)

Section XdrFacts.
Import Pvfs Giga Rpc Xdr.

(** A routine reads back what it wrote, from any object of the same shape. *)
Definition reads_back {A} (f : routine A) (v v0 : A) : Prop :=
  forall out, exists bytes, f v (mkXDR XDR_ENCODE out) = Some (v, mkXDR XDR_ENCODE (out ++ bytes)) /\
    forall rest, f v0 (mkXDR XDR_DECODE (bytes ++ rest)) = Some (v, mkXDR XDR_DECODE rest).

Lemma be32_value v : 0 <= v < 2 ^ 32 ->
  2 ^ 24 * u8 (Z.shiftr v 24) + 2 ^ 16 * u8 (Z.shiftr v 16) + 2 ^ 8 * u8 (Z.shiftr v 8) + u8 v = v.
Proof.
  intros Hv. unfold u8. rewrite !Z.shiftr_div_pow2 by lia. change (2 ^ 24) with 16777216.
  change (2 ^ 16) with 65536. change (2 ^ 8) with 256. Z.div_mod_to_equations. lia.
Qed.

Lemma u_int_reads_back v v0 : 0 <= v < 2 ^ 32 -> reads_back xdr_u_int v v0.
Proof.
  intros Hv out. exists (be32 v). split; [done|]. intros rest. cbn -[Z.shiftr Z.pow Z.mul].
  by rewrite be32_value.
Qed.

Lemma int_reads_back v v0 : -2 ^ 31 <= v < 2 ^ 31 -> reads_back xdr_int v v0.
Proof.
  intros Hv out. destruct (u_int_reads_back (u32 v) (u32 v0) (u32_range v) out) as (b & E & D).
  exists b. unfold xdr_int. split; [by rewrite E|]. intros rest. rewrite D. cbn. do 2 f_equal.
  unfold i32, u32. rewrite Zplus_mod_idemp_l. fold (i32 v). by apply i32_small.
Qed.

Lemma char_reads_back v v0 : 0 <= v < 2 ^ 8 -> reads_back xdr_char v v0.
Proof.
  intros Hv out. assert (H8 : -2 ^ 7 <= i8 v < 2 ^ 7).
  { unfold i8. assert (Hm := Z.mod_pos_bound (v + 2 ^ 7) (2 ^ 8)). lia. }
  destruct (int_reads_back (i8 v) (i8 v0) ltac:(lia) out) as (b & E & D).
  exists b. unfold xdr_char. split; [by rewrite E|]. intros rest. rewrite D. cbn. do 2 f_equal.
  unfold i8, u8. rewrite Zminus_mod_idemp_l. replace (v + 2 ^ 7 - 2 ^ 7) with v by lia. by apply Z.mod_small.
Qed.

Lemma uint64_reads_back v v0 : 0 <= v < 2 ^ 64 -> reads_back xdr_uint64_t v v0.
Proof.
  intros Hv out. assert (Hhi : 0 <= Z.shiftr v 32 < 2 ^ 32).
  { rewrite Z.shiftr_div_pow2 by lia. split; [apply Z.div_pos; lia|apply Z.div_lt_upper_bound; lia]. }
  destruct (u_int_reads_back _ (Z.shiftr v0 32) Hhi out) as (b1 & E1 & D1).
  destruct (u_int_reads_back _ (u32 v0) (u32_range v) (out ++ b1)) as (b2 & E2 & D2).
  exists (b1 ++ b2). unfold xdr_uint64_t. split.
  { rewrite E1. cbn [mbind option_bind]. rewrite E2. cbn. by rewrite app_assoc. }
  intros rest. rewrite <- app_assoc, D1. cbn [mbind option_bind]. rewrite D2. cbn. do 2 f_equal. rewrite Z.shiftr_div_pow2 by lia. unfold u32.
  symmetry. apply Z.div_mod. lia.
Qed.

Lemma vector_reads_back l l0 :
  length l0 = length l -> Forall (fun v => 0 <= v < 2 ^ 8) l -> reads_back xdr_vector l l0.
Proof.
  intros Hlen Hl. revert l0 Hlen. induction Hl as [|v l Hv Hl IH]; intros [|v0 l0] Hlen out; try done.
  { exists []. split; [cbn; by rewrite app_nil_r|done]. }
  destruct (char_reads_back v v0 Hv out) as (b1 & E1 & D1).
  destruct (IH l0 ltac:(cbn in Hlen; lia) (out ++ b1)) as (b2 & E2 & D2).
  exists (b1 ++ b2). cbn [xdr_vector]. split.
  { rewrite E1. cbn [mbind option_bind]. rewrite E2. cbn. by rewrite app_assoc. }
  intros rest. rewrite <- app_assoc, D1. cbn [mbind option_bind].
  by rewrite D2.
Qed.

(** Composition of two routines on the parts of an object. *)
Lemma bind_reads_back {A B C} (f : routine A) (g : routine B) (k : A -> B -> C) (a a0 : A) (b b0 : B) :
  reads_back f a a0 -> reads_back g b b0 ->
  forall out, exists bytes,
    ('(a', x) ← f a (mkXDR XDR_ENCODE out); '(b', x) ← g b x; Some (k a' b', x))
      = Some (k a b, mkXDR XDR_ENCODE (out ++ bytes)) /\
    forall rest, ('(a', x) ← f a0 (mkXDR XDR_DECODE (bytes ++ rest)); '(b', x) ← g b0 x; Some (k a' b', x))
      = Some (k a b, mkXDR XDR_DECODE rest).
Proof.
  intros Hf Hg out. destruct (Hf out) as (b1 & E1 & D1). destruct (Hg (out ++ b1)) as (b2 & E2 & D2).
  exists (b1 ++ b2). split.
  { rewrite E1. cbn [mbind option_bind]. rewrite E2. cbn [mbind option_bind]. by rewrite app_assoc. }
  intros rest. rewrite <- app_assoc, D1. cbn [mbind option_bind].
  by rewrite D2.
Qed.


Lemma object_ref_reads_back r r0 :
  0 <= handle r < 2 ^ 64 -> 0 <= fs_id r < 2 ^ 32 -> reads_back xdr_PVFS_object_ref r r0.
Proof.
  intros Hh Hf out. destruct r as [h f], r0 as [h0 f0].
  exact (bind_reads_back xdr_uint64_t xdr_u_int mkRef h h0 f f0
    (uint64_reads_back h h0 Hh) (u_int_reads_back f f0 Hf) out).
Qed.

Lemma credentials_read_back c c0 :
  0 <= uid c < 2 ^ 32 -> 0 <= gid c < 2 ^ 32 -> reads_back xdr_PVFS_credentials c c0.
Proof.
  intros Hu Hg out. destruct c as [u g], c0 as [u0 g0].
  exact (bind_reads_back xdr_u_int xdr_u_int mkCreds u u0 g g0
    (u_int_reads_back u u0 Hu) (u_int_reads_back g g0 Hg) out).
Qed.

(** A mapping that fits its C types. *)
Definition mapping_fits (m : giga_mapping_t) : Prop :=
  0 <= curr_radix m < 2 ^ 32 /\ 0 <= zeroth_server m < 2 ^ 32 /\ 0 <= server_count m < 2 ^ 32 /\
  length (bitmap m) = Z.to_nat MAX_BMAP_LEN /\ Forall (fun v => 0 <= v < 2 ^ 8) (bitmap m).

#[local] Opaque xdr_u_int xdr_vector.

Lemma mapping_reads_back m m0 :
  mapping_fits m -> length (bitmap m0) = Z.to_nat MAX_BMAP_LEN -> reads_back xdr_giga_mapping_t m m0.
Proof.
  intros (H1 & H2 & H3 & H4 & H5) H0 out. destruct m as [b r z n], m0 as [b0 r0 z0 n0].
  cbn [curr_radix zeroth_server server_count bitmap] in *.
  destruct (u_int_reads_back r r0 H1 out) as (b1 & E1 & D1).
  destruct (u_int_reads_back z z0 H2 (out ++ b1)) as (b2 & E2 & D2).
  destruct (u_int_reads_back n n0 H3 ((out ++ b1) ++ b2)) as (b3 & E3 & D3).
  destruct (vector_reads_back b b0 ltac:(congruence) H5 (((out ++ b1) ++ b2) ++ b3)) as (b4 & E4 & D4).
  exists (b1 ++ b2 ++ b3 ++ b4). unfold xdr_giga_mapping_t. cbn [curr_radix zeroth_server server_count bitmap]. split.
  - rewrite E1. cbn [mbind option_bind]. rewrite E2. cbn [mbind option_bind]. rewrite E3. cbn [mbind option_bind].
    rewrite E4. cbn [mbind option_bind]. by rewrite !app_assoc.
  - intros rest. rewrite <- !app_assoc, D1. cbn [mbind option_bind]. rewrite D2. cbn [mbind option_bind].
    rewrite D3. cbn [mbind option_bind]. by rewrite D4.
Qed.

#[local] Opaque xdr_int xdr_PVFS_object_ref xdr_giga_mapping_t.

(** The answers a handler can give: the arm fits the error number. *)
Definition answer_fits (l : skye_lookup) : Prop :=
  -2 ^ 31 <= errnum l < 2 ^ 31 /\
  match lookup_u l with
  | U_ref r => errnum l = 0 /\ 0 <= handle r < 2 ^ 64 /\ 0 <= fs_id r < 2 ^ 32
  | U_bitmap m => errnum l = - EAGAIN /\ mapping_fits m
  | U_none => errnum l <> 0 /\ errnum l <> - EAGAIN
  end.

(** C38 Messages survive the wire: a reference, credentials and a mode read back as
    they were written whatever the receiver's memory held, and an answer of a handler
    (a reference on success, the server's mapping with -EAGAIN, an error number alone
    otherwise) is decoded to the same answer with nothing left over, although the
    bitmap's bytes travel as sign-extended integers. *)
Theorem answers_survive_the_wire (l : skye_lookup) (r : PVFS_object_ref) (c : PVFS_credentials) (mode : Z)
  (Hl : answer_fits l)
  (Hr : 0 <= handle r < 2 ^ 64 /\ 0 <= fs_id r < 2 ^ 32)
  (Hc : 0 <= uid c < 2 ^ 32 /\ 0 <= gid c < 2 ^ 32) (Hm : 0 <= mode < 2 ^ 32) :
  (exists bytes, xdr_skye_lookup l (mkXDR XDR_ENCODE []) = Some (l, mkXDR XDR_ENCODE bytes) /\
     xdr_skye_lookup (mkLookup 0 U_none) (mkXDR XDR_DECODE bytes) = Some (l, mkXDR XDR_DECODE [])) /\
  (forall r0, reads_back xdr_PVFS_object_ref r r0) /\
  (forall c0, reads_back xdr_PVFS_credentials c c0) /\ (forall m0, reads_back xdr_mode_t mode m0).
Proof.
  split; [|split_and!; intros; (apply object_ref_reads_back || apply credentials_read_back
    || apply u_int_reads_back); tauto].
  destruct l as [e u]. destruct Hl as [He Hu]. cbn [errnum lookup_u] in *.
  destruct (int_reads_back e 0 He []) as (b1 & E1 & D1). cbn [app] in E1.
  assert (Hdec : forall rest v, v = mkLookup 0 U_none -> xdr_int (errnum v) (mkXDR XDR_DECODE (b1 ++ rest))
    = Some (e, mkXDR XDR_DECODE rest)) by (by intros rest v ->).
  destruct u as [|ref|m].
  - destruct Hu as [H1 H2]. apply Z.eqb_neq in H1, H2. exists b1. unfold xdr_skye_lookup. cbn [errnum].
    rewrite E1. cbn [mbind option_bind]. rewrite H1, H2. split; [done|].
    rewrite <- (app_nil_r b1), (Hdec _ (mkLookup 0 U_none)) by done. cbn [mbind option_bind]. by rewrite H1, H2.
  - destruct Hu as (-> & H1 & H2). destruct (object_ref_reads_back ref zero_ref H1 H2 b1) as (b2 & E2 & D2).
    exists (b1 ++ b2). unfold xdr_skye_lookup. cbn [errnum lookup_u]. rewrite E1. cbn [mbind option_bind Z.eqb].
    rewrite E2. split; [done|]. rewrite (Hdec _ (mkLookup 0 U_none)) by done. cbn [mbind option_bind Z.eqb].
    by rewrite <- (app_nil_r b2), D2.
  - destruct Hu as (-> & H1). set (m0 := mkMapping (replicate (Z.to_nat MAX_BMAP_LEN) 0) 0 0 0).
    destruct (mapping_reads_back m m0 H1 (length_replicate _ _) b1) as (b2 & E2 & D2).
    exists (b1 ++ b2). unfold xdr_skye_lookup. cbn [errnum lookup_u]. fold m0. rewrite E1.
    cbn [mbind option_bind]. change (- EAGAIN =? 0) with false. rewrite Z.eqb_refl. cbv iota. rewrite E2.
    split; [done|]. rewrite (Hdec _ (mkLookup 0 U_none)) by done. cbn [mbind option_bind].
    change (- EAGAIN =? 0) with false. rewrite Z.eqb_refl. cbv iota. by rewrite <- (app_nil_r b2), D2.
Qed.

Lemma answers_survive_the_wire_witness :
  exists bytes, xdr_skye_lookup (mkLookup (- EAGAIN) (U_bitmap three_partitions)) (mkXDR XDR_ENCODE [])
      = Some (mkLookup (- EAGAIN) (U_bitmap three_partitions), mkXDR XDR_ENCODE bytes) /\
    xdr_skye_lookup (mkLookup 0 U_none) (mkXDR XDR_DECODE bytes)
      = Some (mkLookup (- EAGAIN) (U_bitmap three_partitions), mkXDR XDR_DECODE []).
Proof.
  apply (answers_survive_the_wire (mkLookup (- EAGAIN) (U_bitmap three_partitions)) (mkRef 5 1)
    (mkCreds 0 0) 511); cbn [handle fs_id uid gid]; [|lia|lia|lia].
  split; [vm_compute; split; congruence|]. split; [reflexivity|].
  split; [vm_compute; split; congruence|]. split; [vm_compute; split; congruence|].
  split; [vm_compute; split; congruence|]. split; [reflexivity|].
  cbn. repeat (apply Forall_cons_2; [lia|]). by apply Forall_nil_2.
Defined.

End XdrFacts.
