(* ===== verification/Connection.v ===== *)
(** * Connections to PVFS and to the servers: common/connection.c, options.h

    [Conn] translates connection.c: the connection string and the list of server
    addresses are parsed, the RPC connections are opened and closed, a handle is
    mapped to the number of its metadata server, and a directory is listed batch by
    batch.  [conn_state] holds the globals of the file with those of options.h. *)

From Stdlib Require Import Ascii.
From S2P Require Import Prelude Pvfs.

#[local] Open Scope Z_scope.

Module Conn.
Import Pvfs.

(** struct skye_options *)
Record skye_options : Type := mkOptions {
  pvfs_spec : option string;
  servercount : Z;
  servernum : Z;
  serverlist : option (list string);
  serveraddrs : option (list Z)
}.

(** The part of struct PVFS_sys_mntent that connection.c fills in. *)
Record mntent : Type := mkMntent {
  integrity_check : Z;
  num_pvfs_config_servers : Z;
  pvfs_config_servers : list (option string);
  pvfs_fs_name : option string
}.

Record conn_state : Type := mkConn {
  opts : skye_options;
  rpc_clients : option (list (option Z));
  pvfs_fsid : Z;
  pvfs_mntent : mntent;
  myhostname : option string
}.

Definition set_opts (f : skye_options -> skye_options) (c : conn_state) : conn_state :=
  mkConn (f (opts c)) (rpc_clients c) (pvfs_fsid c) (pvfs_mntent c) (myhostname c).
Definition set_rpc_clients (r : option (list (option Z))) (c : conn_state) : conn_state :=
  mkConn (opts c) r (pvfs_fsid c) (pvfs_mntent c) (myhostname c).
Definition set_fsid (i : Z) (c : conn_state) : conn_state :=
  mkConn (opts c) (rpc_clients c) i (pvfs_mntent c) (myhostname c).
Definition set_mntent (m : mntent) (c : conn_state) : conn_state :=
  mkConn (opts c) (rpc_clients c) (pvfs_fsid c) m (myhostname c).
Definition set_myhostname (h : option string) (c : conn_state) : conn_state :=
  mkConn (opts c) (rpc_clients c) (pvfs_fsid c) (pvfs_mntent c) h.

(** The calls of connection.c at start-up: PVFS management, the environment and
    the RPC library. *)
Class ConnOps (W : Type) : Type := {
  getenv_HOSTNAME : W -> option string;
  gethostname : W -> string;
  PVFS_sys_initialize : W -> Z * W;
  PVFS_sys_fs_add : mntent -> W -> Z * Z * W;
  PVFS_sys_set_info_timeouts : W -> W;
  PVFS_mgmt_count_servers : Z -> PVFS_credentials -> W -> Z * Z * W;
  PVFS_mgmt_get_server_array : Z -> PVFS_credentials -> Z -> W -> Z * list Z * Z * W;
  PVFS_mgmt_map_addr : Z -> PVFS_credentials -> Z -> W -> string * W;
  gethostbyname : string -> W -> option Z * W;
  clnttcp_create : Z -> Z -> W -> option Z * W;
  clnt_destroy : Z -> W -> W
}.

Section Conn.
Context {W : Type} `{PvfsOps W} `{ConnOps W}.

#[local] Abbreviation M := (prog (conn_state * W)).

(** #define pvfs2errno(n) *)
Definition pvfs2errno (n : Z) : Z := -1 * PVFS_get_errno_mapping n.

(** The server portion of tcp://servername:port.  The two pointers come from
    rindex; a missing character leaves NULL.  strndup's length argument is a
    size_t, so a negative difference is a huge length. *)
Definition server_portion (addr : string) : outcome string :=
  match CString.rindex ":"%char addr, CString.rindex "/"%char addr with
  | Some e, Some st =>
      let len := u64 (Z.of_nat e - Z.of_nat st - 1) in
      let rest := CString.skip (S st) addr in
      Ret (CString.firstn (Nat.min (Z.to_nat (Z.min len (Z.of_nat (String.length rest))))
                                   (String.length rest)) rest)
  | _, _ => Crash NullDeref
  end.

(** The loop of [pvfs_generate_serverlist] over the servers, from [i] on. *)
Fixpoint server_names (credentials : PVFS_credentials) (i : Z) (addrs : list Z) : M (option (list string)) :=
  match addrs with
  | [] => mret (Some [])
  | a :: addrs' =>
      c ← getl;
      s ← sys (PVFS_mgmt_map_addr (pvfs_fsid c) credentials a);
      name ← lift (server_portion s);
      ok ← sys malloc;
      if negb ok then mret None
      else
        _ ← (if decide (Some name = myhostname c)
             then modl (set_opts (fun o => mkOptions (pvfs_spec o) (servercount o) i
                                             (serverlist o) (serveraddrs o)))
             else mret tt);
        names ← server_names credentials (i + 1) addrs';
        mret (cons name <$> names)
  end.

Definition pvfs_generate_serverlist : M Z :=
  credentials ← sys PVFS_util_gen_credentials;
  c ← getl;
  s ← get_st;
  _ ← (match myhostname c with
       | Some _ => mret tt
       | None =>
           match getenv_HOSTNAME s.2 with
           | Some h => modl (set_myhostname (Some h))
           | None =>
               ok ← sys malloc;
               if negb ok then crash_with NullDeref
               else modl (set_myhostname (Some (gethostname s.2)))
           end
       end);
  _ ← modl (set_opts (fun o => mkOptions (pvfs_spec o) (servercount o) (-1)
                                (serverlist o) (serveraddrs o)));
  '(ret, count) ← sys (PVFS_mgmt_count_servers (pvfs_fsid c) credentials);
  if ret <? 0 then mret ret else
  ok ← sys malloc;
  _ ← modl (set_opts (fun o => mkOptions (pvfs_spec o) (servercount o) (servernum o)
                       (serverlist o) (if ok : bool then Some [] else None)));
  if negb ok then mret (- ENOMEM) else
  '(ret, addrs, count) ← sys (PVFS_mgmt_get_server_array (pvfs_fsid c) credentials count);
  _ ← modl (set_opts (fun o => mkOptions (pvfs_spec o) (servercount o) (servernum o)
                       (serverlist o) (Some addrs)));
  if ret <? 0 then mret ret else
  ok ← sys malloc;
  if negb ok then mret (- ENOMEM) else
  servers ← server_names credentials 0 (take (Z.to_nat count) addrs);
  match servers with
  | None => mret (- ENOMEM)
  | Some servers =>
      _ ← modl (set_opts (fun o => mkOptions (pvfs_spec o) count (servernum o)
                           (Some servers) (serveraddrs o)));
      mret 0
  end.

Definition get_connection (c : conn_state) (serverid : Z) : outcome (option Z) :=
  _ ← c_assert ((0 <=? serverid) && (serverid <? servercount (opts c)));
  match rpc_clients c with
  | None => Crash NullDeref
  | Some l => c_read l serverid
  end.

(** Where the servers listen. *)
Definition DEFAULT_PORT : Z := 55677.

(** The connection, and the value returned. *)
Definition rpc_host_connect (host : string) : M (option Z * Z) :=
  he ← sys (gethostbyname host);
  match he with
  | None => mret (None, -1)
  | Some addr =>
      cl ← sys (clnttcp_create addr DEFAULT_PORT);
      match cl with
      | None => mret (None, -1)
      | Some k => mret (Some k, 0)
      end
  end.

(** The loop of [rpc_connect] that opens the connections, from server [i] on. *)
Fixpoint connect_hosts (n : nat) (i : Z) : M Z :=
  match n with
  | O => mret 0
  | S n' =>
      c ← getl;
      hosts ← lift (match serverlist (opts c) with Some l => Ret l | None => Crash NullDeref end);
      host ← lift (c_read hosts i);
      '(cl, ret) ← rpc_host_connect host;
      c ← getl;
      clients ← lift (match rpc_clients c with Some l => Ret l | None => Crash NullDeref end);
      clients ← lift (c_write clients i cl);
      _ ← modl (set_rpc_clients (Some clients));
      if ret <? 0 then mret ret else connect_hosts n' (i + 1)
  end.

(** The second loop of the source sets the time-out of every connection. *)
Definition rpc_connect : M Z :=
  c ← getl;
  ok ← sys malloc;
  let n := Z.to_nat (servercount (opts c)) in
  _ ← modl (set_rpc_clients (if ok : bool then Some (replicate n None) else None));
  if negb ok then mret (- ENOMEM) else connect_hosts n 0.

Fixpoint destroy_clients (n : nat) (i : Z) : M unit :=
  match n with
  | O => mret tt
  | S n' =>
      c ← getl;
      clients ← lift (match rpc_clients c with Some l => Ret l | None => Crash NullDeref end);
      cl ← lift (c_read clients i);
      match cl with
      | None => crash_with NullDeref
      | Some k => _ ← sys (fun w => (tt, clnt_destroy k w)); destroy_clients n' (i + 1)
      end
  end.

Definition rpc_disconnect : M unit :=
  c ← getl; destroy_clients (Z.to_nat (servercount (opts c))) 0.

(** One token of the connection string: exactly three slashes, split at the
    last; [exit(-1)] otherwise. *)
Definition split_fs_spec (tok : string) : outcome (string * string) :=
  if negb (Nat.eqb (CString.count "/"%char tok) 3) then Crash ProcessExit
  else match CString.rindex "/"%char tok with
       | None => Crash NullDeref
       | Some n => Ret (CString.firstn n tok, CString.skip (S n) tok)
       end.

(** The [for (;;)] of [pvfs_connect] over the tokens: the array of servers and
    the file system's name so far; each strdup can fail. *)
Fixpoint config_servers (cur : Z) (toks : list string)
  (servers : list (option string)) (fs_name : option string)
  : M (list (option string) * option string) :=
  match toks with
  | [] => mret (servers, fs_name)
  | tok :: toks' =>
      '(server, name) ← lift (split_fs_spec tok);
      ok ← sys malloc;
      servers ← lift (c_write servers cur (if ok : bool then Some server else None));
      if negb ok then crash_with ProcessExit else
      if cur =? 0 then
        ok ← sys malloc;
        if negb ok then crash_with ProcessExit
        else config_servers (cur + 1) toks' servers (Some name)
      else if decide (Some name = fs_name) then config_servers (cur + 1) toks' servers fs_name
      else crash_with ProcessExit
  end.

(** The mount entry for a connection string. *)
Definition parse_fs_spec (fs_spec : string) : M mntent :=
  let n := 1 + Z.of_nat (CString.count ","%char fs_spec) in
  ok ← sys malloc;
  if negb ok then crash_with ProcessExit else
  '(servers, fs_name) ← config_servers 0 (CString.strsep_all ","%char fs_spec)
                          (replicate (Z.to_nat n) None) None;
  mret (mkMntent 1 n servers fs_name).

Definition pvfs_connect (fs_spec : string) : M Z :=
  ret ← sys PVFS_sys_initialize;
  if ret <? 0 then mret ret else
  me ← parse_fs_spec fs_spec;
  _ ← modl (set_mntent me);
  '(ret, id) ← sys (PVFS_sys_fs_add me);
  if ret <? 0 then mret (-1) else
  _ ← modl (set_fsid id);
  ret ← pvfs_generate_serverlist;
  _ ← sys (fun w => (tt, PVFS_sys_set_info_timeouts w));
  mret ret.

End Conn.

Section Queries.
Context {W : Type} `{PvfsOps W}.

(** The loop of [pvfs_get_mds]: the first server from [i] on with this address,
    or servercount. *)
Fixpoint find_addr (n : nat) (i addr : Z) (addrs : list Z) : outcome Z :=
  match n with
  | O => Ret i
  | S n' =>
      a ← c_read addrs i;
      if a =? addr then Ret i else find_addr n' (i + 1) addr addrs
  end.

Definition pvfs_get_mds (c : conn_state) (ref : PVFS_object_ref) : prog W Z := fun w =>
  let '(rc, addr, w) := PVFS_mgmt_map_handle (fs_id ref) (handle ref) w in
  if negb (rc =? 0) then Ret (rc, w) else
  let n := servercount (opts c) in
  i ← find_addr (Z.to_nat n) 0 addr (default [] (serveraddrs (opts c)));
  _ ← c_assert (negb (i =? n));
  Ret (i, w).

(** The callback over one batch: a non-zero result ends the batch. *)
Fixpoint visit {S} (callback : PVFS_dirent -> prog S Z) (l : list PVFS_dirent) : prog S unit :=
  match l with
  | [] => mret tt
  | d :: l' => r ← callback d; if r =? 0 then visit callback l' else mret tt
  end.

Fixpoint readdir_loop {L} (fuel : nat) (credentials : PVFS_credentials) (ref : PVFS_object_ref)
  (callback : PVFS_dirent -> prog (L * W) Z) (tok : Z) : prog (L * W) Z :=
  match fuel with
  | O => crash_with NoFuel
  | S fuel' =>
      '(ret, rd) ← sys (PVFS_sys_readdir ref tok 256 credentials);
      if ret <? 0 then mret (pvfs2errno ret)
      else
        _ ← visit callback (dirent_array rd);
        if outcount rd =? 256 then readdir_loop fuel' credentials ref callback (token rd)
        else mret 0
  end.

Definition pvfs_readdir {L} (fuel : nat) (credentials : PVFS_credentials) (ref : PVFS_object_ref)
  (callback : PVFS_dirent -> prog (L * W) Z) : prog (L * W) Z :=
  readdir_loop fuel credentials ref callback PVFS_READDIR_START.

End Queries.

End Conn.
