(* ===== verification/MemFs.v ===== *)
(** * An in-memory PVFS

    A concrete world for the operations of [PvfsOps]: directories are lists of named
    handles, handles are given out in order, and the metadata server of a handle is
    its residue.  Its address space is that of one or more servers, allocations
    succeed, and calls between servers reach nobody.  The theorems that depend on
    PVFS are exercised on it. *)

From Stdlib Require Import Ascii.
From S2P Require Import Prelude Pvfs Connection.

#[local] Open Scope Z_scope.

Module MemFs.
Import Pvfs.

Inductive obj : Type :=
| Dir (entries : list (string * Z))
| File.

Record mem : Type := mkMem {
  objs : gmap Z obj;
  next_handle : Z;
  clock : Z;
  servers : Z
}.

Definition set_objs (o : gmap Z obj) (w : mem) : mem := mkMem o (next_handle w) (clock w) (servers w).

Definition entries_of (w : mem) (h : Z) : option (list (string * Z)) :=
  match objs w !! h with Some (Dir l) => Some l | _ => None end.

Definition MEM_ENOENT : Z := 1073741826.
Definition MEM_EEXIST : Z := 1073741841.
Definition MEM_ENOTDIR : Z := 1073741844.
Definition MEM_START : Z := 2147483646.

(** The low bits of a PVFS error are the error number of the host. *)
Definition errno_of (e : Z) : Z := Z.land (Z.abs e) 127.

(** Walking a path of names from a directory. *)
Fixpoint walk (w : mem) (h : Z) (path : list string) : Z + Z :=
  match path with
  | [] => inr h
  | n :: path' =>
      match entries_of w h with
      | None => inl (- MEM_ENOTDIR)
      | Some l => match assoc n l with
                  | None => inl (- MEM_ENOENT)
                  | Some h' => walk w h' path'
                  end
      end
  end.

Definition ref_lookup (path : string) (p : PVFS_object_ref) (w : mem) : Z * PVFS_object_ref * mem :=
  match walk w (handle p) (CString.strsep_all "/"%char path) with
  | inl e => (e, zero_ref, w)
  | inr h => (0, mkRef h (fs_id p), w)
  end.

(** An absolute path: empty components are skipped. *)
Definition abs_lookup (path : string) (fs : Z) (w : mem) : Z * PVFS_object_ref * mem :=
  match walk w 1 (filter (fun n => n <> EmptyString) (CString.strsep_all "/"%char path)) with
  | inl e => (e, zero_ref, w)
  | inr h => (0, mkRef h fs, w)
  end.

(** A new object under a name, at the end of the directory. *)
Definition add_entry (o : obj) (n : string) (p : PVFS_object_ref) (w : mem) : Z * PVFS_object_ref * mem :=
  match entries_of w (handle p) with
  | None => (- MEM_ENOTDIR, zero_ref, w)
  | Some l =>
      match assoc n l with
      | Some _ => (- MEM_EEXIST, zero_ref, w)
      | None =>
          let h := next_handle w in
          (0, mkRef h (fs_id p),
           mkMem (<[h := o]> (<[handle p := Dir (l ++ [(n, h)])]> (objs w))) (h + 1)
             (clock w) (servers w))
      end
  end.

Definition without (n : string) (l : list (string * Z)) : list (string * Z) :=
  filter (fun e => e.1 <> n) l.

Definition remove (n : string) (p : PVFS_object_ref) (w : mem) : Z * mem :=
  match entries_of w (handle p) with
  | None => (- MEM_ENOTDIR, w)
  | Some l =>
      match assoc n l with
      | None => (- MEM_ENOENT, w)
      | Some h => (0, set_objs (<[handle p := Dir (without n l)]> (delete h (objs w))) w)
      end
  end.

Definition rename (n : string) (p : PVFS_object_ref) (n' : string) (q : PVFS_object_ref) (w : mem) : Z * mem :=
  match entries_of w (handle p) with
  | None => (- MEM_ENOTDIR, w)
  | Some l =>
      match assoc n l with
      | None => (- MEM_ENOENT, w)
      | Some h =>
          let w1 := set_objs (<[handle p := Dir (without n l)]> (objs w)) w in
          match entries_of w1 (handle q) with
          | None => (- MEM_ENOTDIR, w)
          | Some l' => (0, set_objs (<[handle q := Dir (without n' l' ++ [(n', h)])]> (objs w1)) w1)
          end
      end
  end.

Definition readdir (p : PVFS_object_ref) (tok n : Z) (w : mem) : Z * PVFS_sysresp_readdir * mem :=
  match entries_of w (handle p) with
  | None => (- MEM_ENOTDIR, mkReaddir 0 [], w)
  | Some l =>
      let start := if tok =? MEM_START then 0 else tok + 1 in
      let batch := take (Z.to_nat n) (drop (Z.to_nat start) l) in
      (0, mkReaddir (start + Z.of_nat (length batch) - 1) ((fun e => mkDirent e.1 e.2) <$> batch), w)
  end.

Definition getattr (p : PVFS_object_ref) (w : mem) : Z * PVFS_sys_attr * mem :=
  match objs w !! handle p with
  | None => (- MEM_ENOENT, zero_attr, w)
  | Some (Dir l) =>
      (0, mkAttr 0 0 511 0 0 0 0 None 0 (Z.of_nat (length l)) PVFS_TYPE_DIRECTORY 0, w)
  | Some File => (0, mkAttr 0 0 511 0 0 0 0 None 0 0 PVFS_TYPE_METAFILE 0, w)
  end.

#[global] Instance mem_ops : PvfsOps mem := {
  PVFS_READDIR_START := MEM_START;
  PVFS_ENOENT := MEM_ENOENT;
  PVFS_ATTR_SYS_ALL_NOHINT := 0;
  PVFS_ATTR_SYS_ALL_SETABLE := 0;
  PVFS_ATTR_SYS_DIRENT_COUNT := 0;
  PVFS_get_errno_mapping := errno_of;
  PVFS_util_gen_credentials := fun w => (mkCreds 0 0, w);
  PVFS_sys_lookup := fun fs path _ w => abs_lookup path fs w;
  PVFS_sys_ref_lookup := fun _ path p _ w => ref_lookup path p w;
  PVFS_sys_getattr := fun p _ _ w => getattr p w;
  PVFS_sys_create := fun n p _ _ w => add_entry File n p w;
  PVFS_sys_mkdir := fun n p _ _ w => add_entry (Dir []) n p w;
  PVFS_sys_remove := fun n p _ w => remove n p w;
  PVFS_sys_rename := fun n p n' q _ w => rename n p n' q w;
  PVFS_sys_readdir := fun p tok n _ w => readdir p tok n w;
  PVFS_mgmt_map_handle := fun _ h w => (0, h mod servers w, w);
  time := fun w => (clock w, w);
  malloc := fun w => (true, w);
  pthread_rwlock_init := fun w => (0, w);
  sem_timedout := fun w => (true, w)
}.

#[global] Instance mem_rpc : BucketRpc mem := {
  skye_rpc_bucket_add_1 := fun _ _ _ w => (RPC_FAILED, 0, w);
  skye_rpc_bucket_remove_1 := fun _ _ _ _ w => (RPC_FAILED, 0, w)
}.

Definition listing_ok (l : list (string * Z)) : Prop :=
  NoDup l.*1 /\ Forall (fun n => simple n /\ (String.length n < 256)%nat) l.*1 /\
  Z.of_nat (length l) < 2 ^ 30.

Definition mem_ok (w : mem) : Prop :=
  (forall h l, objs w !! h = Some (Dir l) -> listing_ok l) /\
  (forall h o, objs w !! h = Some o -> h < next_handle w).

(** The consistent file systems of an installation with [n] servers. *)
Definition mem_view_of (n : Z) : PvfsView mem :=
  {| fs_ok := fun w => mem_ok w /\ servers w = n; dirs := entries_of |}.

#[global] Instance mem_view : PvfsView mem := mem_view_of 1.

(** The root directory with its partition 0, which holds one file, on one
    server; the process has opened no connection. *)
Definition small_fs : mem :=
  mkMem {[ 1 := Dir [("p00000", 2)%string]; 2 := Dir [("hello", 3)%string]; 3 := File ]} 4 1000 1.

Definition one_server : Conn.conn_state :=
  Conn.mkConn (Conn.mkOptions None 1 0 (Some ["localhost"%string]) (Some [0])) None 7
    (Conn.mkMntent 1 0 [] None) None.

End MemFs.

Section MemFacts.
Import Pvfs MemFs.

Lemma entries_of_Some w h l : entries_of w h = Some l <-> objs w !! h = Some (Dir l).
Proof. unfold entries_of. destruct (objs w !! h) as [[]|]; split; congruence. Qed.

Lemma without_absent n l : n ∉ l.*1 -> without n l = l.
Proof.
  intros Hn. unfold without. apply filter_all, list.Forall_forall. intros [m h] Hin. cbn.
  intros ->. apply Hn. change n with (n, h).1. by eapply list_elem_of_fmap_2.
Qed.

Lemma listing_ok_without n l : listing_ok l -> listing_ok (without n l).
Proof.
  intros (H1 & H2 & H3). unfold without. assert (Hs : filter (fun e => e.1 <> n) l `sublist_of` l)
    by apply sublist_filter. split_and!.
  - eapply sublist_NoDup; [exact H1|]. by apply fmap_sublist.
  - eapply Forall_sublist; [|exact H2]. by apply fmap_sublist.
  - apply sublist_length in Hs. lia.
Qed.

Lemma listing_ok_add n h l :
  listing_ok l -> n ∉ l.*1 -> simple n -> (String.length n < 256)%nat ->
  Z.of_nat (length l) + 1 < 2 ^ 30 -> listing_ok (l ++ [(n, h)]).
Proof.
  intros (H1 & H2 & H3) Hn Hs Hl Hb. unfold listing_ok. rewrite fmap_app, length_app. cbn. split_and!.
  - apply list.NoDup_app. split_and!; [done|set_solver|apply NoDup_singleton].
  - apply Forall_app. split; [done|]. by constructor.
  - lia.
Qed.


Lemma strsep_simple n : simple n -> CString.strsep_all "/"%char n = [n].
Proof.
  unfold simple. induction n as [|a n IH]; cbn; [done|].
  destruct (decide (a = "/"%char)); [done|]. intros Hn. by rewrite IH.
Qed.

Lemma ref_lookup_simple n p w l :
  simple n -> entries_of w (handle p) = Some l ->
  ref_lookup n p w = match assoc n l with
                     | Some h => (0, mkRef h (fs_id p), w)
                     | None => (- MEM_ENOENT, zero_ref, w)
                     end.
Proof.
  intros Hn Hl. unfold ref_lookup. rewrite strsep_simple by done. cbn. rewrite Hl.
  by destruct (assoc n l).
Qed.

(** Replacing one directory's listing. *)
Lemma relist_ok w p l :
  mem_ok w -> is_Some (objs w !! p) -> listing_ok l ->
  mem_ok (set_objs (<[p := Dir l]> (objs w)) w).
Proof.
  intros [H1 H2] [o Ho] Hl. split; cbn; intros h x; destruct (decide (h = p)) as [->|];
    rewrite ?lookup_insert_eq, ?lookup_insert_ne by done; [by intros [= <-]|by eauto| |by eauto].
  intros _. by eapply H2.
Qed.

Lemma entries_relist w p l h :
  entries_of (set_objs (<[p := Dir l]> (objs w)) w) h = if decide (h = p) then Some l else entries_of w h.
Proof.
  unfold entries_of. cbn. destruct (decide (h = p)) as [->|]; [by rewrite lookup_insert_eq|].
  by rewrite lookup_insert_ne.
Qed.

(** A new object at the end of a directory. *)
Lemma add_entry_ok w o n p es :
  mem_ok w -> entries_of w (handle p) = Some es -> simple n ->
  (String.length n < 256)%nat -> Z.of_nat (length es) + 1 < 2 ^ 30 -> assoc n es = None ->
  match o with Dir l => listing_ok l | File => True end ->
  let h := next_handle w in
  exists w', add_entry o n p w = (0, mkRef h (fs_id p), w') /\ mem_ok w' /\ servers w' = servers w /\
    next_handle w' = h + 1 /\ entries_of w h = None /\ h <> handle p /\
    forall k, entries_of w' k = if decide (k = handle p) then Some (es ++ [(n, h)])
                                else if decide (k = h) then match o with Dir l => Some l | File => None end
                                else entries_of w k.
Proof.
  intros Hok He Hn Hl Hb Ha Ho h. unfold add_entry. rewrite He, Ha. eexists. split; [done|].
  apply entries_of_Some in He. destruct (Hok) as [H1 H2]. assert (Hp := H2 _ _ He). cbn in Hp.
  assert (Hfr : objs w !! h = None).
  { destruct (objs w !! h) as [o'|] eqn:Eo; [|done]. specialize (H2 _ _ Eo). lia. }
  assert (Hlo := listing_ok_add n h es (H1 _ _ He) (proj1 (assoc_None n es) Ha) Hn Hl Hb).
  split_and!; [split; cbn; intros k x|done|done|by unfold entries_of; rewrite Hfr|unfold h; lia|].
  - destruct (decide (k = h)) as [->|]; [rewrite lookup_insert_eq; intros [= Ex]; by rewrite Ex in Ho|].
    rewrite lookup_insert_ne by done. destruct (decide (k = handle p)) as [->|];
      [rewrite lookup_insert_eq; by intros [= <-]|rewrite lookup_insert_ne by done; eauto].
  - destruct (decide (k = h)) as [->|]; [unfold h; lia|]. rewrite lookup_insert_ne by done.
    destruct (decide (k = handle p)) as [->|]; [unfold h; lia|]. rewrite lookup_insert_ne by done.
    intros Hx. specialize (H2 _ _ Hx). unfold h. lia.
  - intros k. unfold entries_of. cbn. fold h. destruct (decide (k = handle p)) as [->|Hne].
    + rewrite lookup_insert_ne, lookup_insert_eq by (unfold h; lia). done.
    + destruct (decide (k = h)) as [->|]; [rewrite lookup_insert_eq; by destruct o|].
      by rewrite !lookup_insert_ne by done.
Qed.

Lemma mem_rename w c n n' p q es eq h :
  mem_ok w -> entries_of w (handle p) = Some es -> entries_of w (handle q) = Some eq ->
  handle p <> handle q -> assoc n es = Some h -> assoc n' eq = None -> simple n' -> (String.length n' < 256)%nat ->
  Z.of_nat (length eq) + 1 < 2 ^ 30 ->
  exists eq' w', PVFS_sys_rename n p n' q c w = (0, w') /\ eq' ≡ₚ (n', h) :: eq /\ mem_ok w' /\
    servers w' = servers w /\
    forall k, entries_of w' k = if decide (k = handle p) then Some (filter (fun e => e.1 <> n) es)
                                else if decide (k = handle q) then Some eq' else entries_of w k.
Proof.
  intros Hok Hp Hq Hne Ha Hb Hs Hl Hlen. cbn. unfold rename. rewrite Hp, Ha, entries_relist.
  rewrite decide_False, Hq by done. assert (Hn := proj1 (assoc_None n' eq) Hb).
  rewrite (without_absent n' eq Hn). eexists. eexists. split; [done|].
  split; [symmetry; apply Permutation_cons_append|].
  assert (Hpo := proj1 (entries_of_Some _ _ _) Hp). assert (Hqo := proj1 (entries_of_Some _ _ _) Hq).
  split_and!; [|done|].
  - apply relist_ok; [|cbn; rewrite lookup_insert_ne by done; eauto|].
    + apply relist_ok; [done|eauto|]. by apply listing_ok_without, (proj1 Hok _ _ Hpo).
    + apply listing_ok_add; try done. apply (proj1 Hok _ _ Hqo).
  - intros k. rewrite entries_relist, entries_relist.
    destruct (decide (k = handle q)) as [->|]; [by rewrite decide_False|done].
Qed.

Lemma mem_rename_within w c n n' p es h :
  mem_ok w -> entries_of w (handle p) = Some es -> assoc n es = Some h -> assoc n' es = None -> simple n' ->
  (String.length n' < 256)%nat ->
  exists es' w', PVFS_sys_rename n p n' p c w = (0, w') /\ es' ≡ₚ (n', h) :: filter (fun e => e.1 <> n) es /\
    mem_ok w' /\ servers w' = servers w /\
    forall k, entries_of w' k = if decide (k = handle p) then Some es' else entries_of w k.
Proof.
  intros Hok Hp Ha Hb Hs Hl. cbn. unfold rename. rewrite Hp, Ha, entries_relist, decide_True by done.
  assert (Hpo := proj1 (entries_of_Some _ _ _) Hp). assert (Hes := proj1 Hok _ _ Hpo).
  assert (Hsub : filter (fun e => e.1 <> n) es `sublist_of` es) by apply sublist_filter.
  assert (Hn : n' ∉ (without n es).*1).
  { intros Hin. apply (proj1 (assoc_None n' es) Hb).
    destruct (proj1 (list_elem_of_fmap _ _ _) Hin) as (e & -> & [_ He]%list_elem_of_filter). by apply list_elem_of_fmap_2. }
  rewrite (without_absent n' _ Hn). eexists. eexists. split; [done|].
  split; [symmetry; apply Permutation_cons_append|]. split_and!; [|done|].
  - apply relist_ok; [|cbn; rewrite lookup_insert_eq; eauto|].
    + apply relist_ok; [done|eauto|by apply listing_ok_without].
    + apply listing_ok_add; try done; [by apply listing_ok_without|].
      assert (Hlt : (length (without n es) < length es)%nat).
      { apply length_filter_lt with (n, h); [by apply assoc_In|cbn; tauto]. }
      destruct Hes as (_ & _ & Hb'). lia.
  - intros k. rewrite entries_relist, entries_relist. by destruct (decide (k = handle p)).
Qed.

Lemma mem_remove w n p es h :
  mem_ok w -> entries_of w (handle p) = Some es -> assoc n es = Some h -> h <> handle p ->
  exists w', remove n p w = (0, w') /\ mem_ok w' /\ servers w' = servers w /\
    next_handle w' = next_handle w /\
    forall k, entries_of w' k = if decide (k = handle p) then Some (filter (fun e => e.1 <> n) es)
                                else if decide (k = h) then None else entries_of w k.
Proof.
  intros [H1 H2] He Ha Hne. unfold remove. rewrite He, Ha. eexists. split; [done|].
  apply entries_of_Some in He. assert (Hlo := listing_ok_without n es (H1 _ _ He)).
  split_and!; [split; cbn; intros k x|done|done|].
  - destruct (decide (k = handle p)) as [->|]; [rewrite lookup_insert_eq; by intros [= <-]|].
    rewrite lookup_insert_ne by done. intros Hx. apply lookup_delete_Some in Hx as [_ Hx]. eauto.
  - destruct (decide (k = handle p)) as [->|]; [intros _; eauto|].
    rewrite lookup_insert_ne by done. intros Hx. apply lookup_delete_Some in Hx as [_ Hx]. eauto.
  - intros k. unfold entries_of. cbn. destruct (decide (k = handle p)) as [->|]; [by rewrite lookup_insert_eq|].
    rewrite lookup_insert_ne by done. destruct (decide (k = h)) as [->|]; [by rewrite lookup_delete_eq|].
    by rewrite lookup_delete_ne.
Qed.

Section Laws.
Variable n : Z.
#[local] Existing Instance mem_view_of.
#[local] Abbreviation V := (mem_view_of n).

Lemma mem_quiet_refl w : fs_ok (PvfsView := V) w -> quiet (H := V) w w.
Proof. by split. Qed.

Lemma mem_spec_of : PvfsSpec mem (V := V).
Proof.
  assert (Hq := mem_quiet_refl). split.
  - done.
  - done.
  - done.
  - done.
  - intros w h es [[H1 _] _] He. apply entries_of_Some in He. by apply (H1 h).
  - intros w Hw. cbn. eauto.
  - intros w Hw. cbn. eauto.
  - intros w Hw. cbn. eauto.
  - intros w Hw. cbn. eauto.
  - intros w fs h Hw. cbn. do 3 eexists. split; [done|by apply Hq].
  - intros w c fs nm p es h Hw He Hn Ha. cbn. rewrite (ref_lookup_simple nm p w es) by done.
    rewrite Ha. eauto.
  - intros w c fs nm p es Hw He Hn Ha. cbn. rewrite (ref_lookup_simple nm p w es) by done.
    rewrite Ha. eauto.
  - intros w c m p es Hw He. cbn. unfold getattr. apply entries_of_Some in He. rewrite He.
    eexists. exists w. split_and!; try done; by apply Hq.
  - intros w c p tok k es Hw He Hn Ht from batch. cbn. unfold readdir. cbn in He. rewrite He. eauto.
  - intros w c a nm p es [Hw Hs] He Hn Hl Hb Ha.
    destruct (add_entry_ok w File nm p es) as (w' & E & Hok & Hsv & _ & Hf & Hne & Hd); try done.
    exists (next_handle w), (es ++ [(nm, next_handle w)]), w'. split; [done|].
    split; [symmetry; apply Permutation_cons_append|]. split; [split; [done|congruence]|].
    intros k. cbn. rewrite Hd. destruct (decide (k = handle p)); [done|].
    destruct (decide (k = next_handle w)) as [->|]; [by rewrite Hf|done].
  - intros w c a nm p es h Hw He Ha. cbn. unfold add_entry. cbn in He. rewrite He, Ha.
    do 3 eexists. split; [done|]. split_and!; try done; by apply Hq.
  - intros w c nm p q es eq h [Hw Hs] Hp Hq' Hne Ha Hb Hlen.
    assert (Hin : simple nm /\ (String.length nm < 256)%nat).
    { destruct (proj1 Hw _ _ (proj1 (entries_of_Some _ _ _) Hp)) as (_ & Hf & _). rewrite list.Forall_forall in Hf.
      apply Hf. apply assoc_In in Ha. change nm with (nm, h).1. by apply list_elem_of_fmap_2. }
    destruct (mem_rename w c nm nm p q es eq h) as (eq' & w' & E & Hperm & Hok & Hsv & Hd); try done; try apply Hin.
    exists eq', w'. split_and!; try done. split; [done|congruence].
Qed.

Lemma mem_makes_of : PvfsMakes mem (V := V).
Proof.
  split.
  - intros w c a nm p es [Hw Hs] He Hn Hl Hb Ha.
    destruct (add_entry_ok w (Dir []) nm p es) as (w' & E & Hok & Hsv & _ & Hf & Hne & Hd); try done.
    { split_and!; [constructor|constructor|done]. }
    exists (next_handle w), (es ++ [(nm, next_handle w)]), w'. split; [done|]. split; [done|].
    split; [symmetry; apply Permutation_cons_append|]. split; [split; [done|congruence]|done].
  - intros w c nm p es h [Hw Hs] He Ha Hne _.
    destruct (mem_remove w nm p es h) as (w' & E & Hok & Hsv & _ & Hd); try done.
    exists w'. split; [done|]. split; [split; [done|congruence]|done].
Qed.

Lemma mem_files_of : PvfsFiles mem (V := V).
Proof.
  assert (Hq := mem_quiet_refl). split.
  - intros w c m p Hw Hd. cbn in *. unfold getattr, entries_of in *.
    destruct (objs w !! handle p) as [[l|]|]; [done|..]; (do 3 eexists; split; [done|]; split; [done|by apply Hq]).
  - intros w c nm p es h [Hw Hs] He Ha Hd. assert (Hne : h <> handle p) by (intros ->; congruence).
    destruct (mem_remove w nm p es h) as (w' & E & Hok & Hsv & _ & Hk); try done.
    exists w'. split; [done|]. split; [split; [done|congruence]|]. intros k. cbn. rewrite Hk.
    destruct (decide (k = handle p)); [done|]. destruct (decide (k = h)) as [->|]; [by rewrite <- Hd|done].
  - intros w c a nm p es h Hw He Ha. cbn. unfold add_entry. cbn in He. rewrite He, Ha.
    do 3 eexists. split; [done|]. split_and!; try done; by apply Hq.
  - intros w c nm nm' p es h [Hw Hs] He Ha Hb Hsi Hl.
    destruct (mem_rename_within w c nm nm' p es h) as (es' & w' & E & Hp & Hok & Hsv & Hd); try done.
    exists es', w'. split; [done|]. split; [done|]. split; [split; [done|congruence]|done].
  - intros w c nm nm' p q es eq h [Hw Hs] Hp Hq' Hne Ha Hb Hsi Hl Hlen.
    destruct (mem_rename w c nm nm' p q es eq h) as (eq' & w' & E & Hperm & Hok & Hsv & Hd); try done.
    exists eq', w'. split_and!; try done. split; [done|congruence].
Qed.

Lemma mem_paths_of : PvfsPaths mem (V := V) 1.
Proof.
  assert (Hsep : forall nm, simple nm -> nm <> EmptyString ->
    filter (fun n => n <> EmptyString) (CString.strsep_all "/"%char (String "/"%char nm)) = [nm]).
  { intros nm Hs Hne. change (CString.strsep_all "/"%char (String "/"%char nm))
      with (EmptyString :: CString.strsep_all "/"%char nm).
    rewrite strsep_simple by done. by rewrite filter_cons_False, filter_cons_True by tauto. }
  split; cbn.
  - intros w c fs Hw. exists w. split; [done|by apply mem_quiet_refl].
  - intros w c fs nm es h Hw He Hs Hne Ha. exists w. unfold abs_lookup. rewrite Hsep by done. cbn [walk].
    rewrite He, Ha. split; [done|by apply mem_quiet_refl].
  - intros w c fs nm es Hw He Hs Hne Ha. eexists _, w. unfold abs_lookup. rewrite Hsep by done. cbn [walk].
    rewrite He, Ha. split; [done|by apply mem_quiet_refl].
Qed.

End Laws.

#[global] Instance mem_files : PvfsFiles mem := mem_files_of 1.

#[global] Instance mem_makes : PvfsMakes mem := mem_makes_of 1.

#[global] Instance mem_spec : PvfsSpec mem := mem_spec_of 1.

(** Deciding consistency of a concrete file system. *)
Definition listing_okb (l : list (string * Z)) : bool :=
  bool_decide (NoDup l.*1) &&
  forallb (fun n => Nat.eqb (CString.count "/"%char n) 0 && Nat.ltb (String.length n) 256) l.*1 &&
  (Z.of_nat (length l) <? 2 ^ 30).

Definition mem_okb (w : mem) : bool :=
  forallb (fun e => (e.1 <? next_handle w) &&
                    match e.2 with Dir l => listing_okb l | File => true end)
    (map_to_list (objs w)).

Lemma mem_okb_ok w : mem_okb w = true -> mem_ok w.
Proof.
  unfold mem_okb. rewrite forallb_forall. intros Hall.
  assert (Hx : forall h o, objs w !! h = Some o ->
    h < next_handle w /\ match o with Dir l => listing_okb l = true | File => True end).
  { intros h o Ho. apply elem_of_map_to_list in Ho. apply list_elem_of_In in Ho.
    specialize (Hall _ Ho). cbn in Hall. apply andb_true_iff in Hall as [H1 H2]. split; [lia|]. by destruct o. }
  split; intros h; [intros l|intros o]; intros Ho; destruct (Hx _ _ Ho) as [H1 H2]; [|done].
  unfold listing_okb in H2. rewrite !andb_true_iff in H2. destruct H2 as [[G1 G2] G3].
  split_and!; [by apply bool_decide_eq_true in G1| |lia]. apply list.Forall_forall. intros n Hn.
  rewrite forallb_forall in G2. apply list_elem_of_In in Hn. specialize (G2 _ Hn).
  apply andb_true_iff in G2 as [A B]. split; [by apply Nat.eqb_eq|by apply Nat.ltb_lt].
Qed.

End MemFacts.
