(* ===== verification/ConnProps.v ===== *)
(** * What connection.c gets right

    The connection string and the server addresses are taken apart without leaving
    their buffers and give back the parts they were made of, and a listing by
    [pvfs_readdir] passes every entry of a directory to its callback, in order, but for the
    rest of a batch that the callback gives up. *)

From Stdlib Require Import Ascii.
From S2P Require Import Prelude Pvfs Connection MemFs.

#[local] Open Scope Z_scope.

(** ** Characters in strings *)

Section Strings.
Implicit Types (c : ascii) (s t : string).

Lemma length_sapp s t : String.length (String.append s t) = (String.length s + String.length t)%nat.
Proof. induction s as [|a s IH]; simpl; [done|]. by rewrite IH. Qed.

Lemma sapp_assoc s t u : String.append (String.append s t) u = String.append s (String.append t u).
Proof. induction s as [|a s IH]; [done|]. exact (f_equal (String a) IH). Qed.

Lemma sapp_nil_r s : String.append s "" = s.
Proof. induction s as [|a s IH]; [done|]. exact (f_equal (String a) IH). Qed.

Lemma count_sapp c s t : CString.count c (String.append s t) = (CString.count c s + CString.count c t)%nat.
Proof. induction s as [|a s IH]; simpl; [done|]. destruct (decide (a = c)); by rewrite IH. Qed.

Lemma rindex_absent c s : CString.count c s = O -> CString.rindex c s = None.
Proof.
  induction s as [|a s IH]; simpl; [done|]. destruct (decide (a = c)); [done|]. intros E. by rewrite IH.
Qed.

(** The last occurrence is in [t] when there is one. *)
Lemma rindex_sapp c s t :
  CString.rindex c (String.append s t) =
  match CString.rindex c t with
  | Some n => Some (String.length s + n)%nat
  | None => CString.rindex c s
  end.
Proof.
  induction s as [|a s IH].
  - change (String.append EmptyString t) with t. by destruct (CString.rindex c t).
  - simpl. rewrite IH. by destruct (CString.rindex c t).
Qed.

Lemma skip_sapp s t : CString.skip (String.length s) (String.append s t) = t.
Proof. induction s as [|a s IH]; simpl; [by destruct t|done]. Qed.

Lemma firstn_sapp s t : CString.firstn (String.length s) (String.append s t) = s.
Proof. induction s as [|a s IH]; simpl; [by destruct t|]. by rewrite IH. Qed.

Lemma sapp_cons s a t : String.append s (String a t) = String.append (String.append s (String a EmptyString)) t.
Proof.
  induction s as [|b s IH]; [done|].
  change (String b (String.append s (String a t)) = String b (String.append (String.append s (String a EmptyString)) t)).
  by rewrite IH.
Qed.

Lemma rindex_last c s t : CString.count c t = O -> CString.rindex c (String.append s (String c t)) = Some (String.length s).
Proof.
  intros Ht. rewrite rindex_sapp. simpl. rewrite (rindex_absent c t Ht), decide_True by done. f_equal. lia.
Qed.

(** The tokens between the commas of a string. *)
Lemma strsep_length c s : length (CString.strsep_all c s) = S (CString.count c s).
Proof.
  induction s as [|a s IH]; simpl; [done|]. destruct (decide (a = c)); simpl; [by rewrite IH|].
  destruct (CString.strsep_all c s); cbn in *; lia.
Qed.

Lemma strsep_absent c s : CString.count c s = O -> CString.strsep_all c s = [s].
Proof.
  induction s as [|a s IH]; simpl; [done|]. destruct (decide (a = c)); [done|]. intros E. by rewrite IH.
Qed.

Lemma strsep_sapp c s t : CString.count c s = O ->
  CString.strsep_all c (String.append s (String c t)) = s :: CString.strsep_all c t.
Proof.
  induction s as [|a s IH].
  - intros _. change (String.append EmptyString (String c t)) with (String c t). simpl. by rewrite decide_True.
  - simpl. destruct (decide (a = c)); [done|]. intros E. by rewrite IH.
Qed.

End Strings.

(** ** The connection string *)

Section Parsing.
Import Pvfs Conn.
Context {W : Type} `{PvfsOps W}.
#[local] Abbreviation St := (conn_state * W)%type.

(** exit(-1) on a malformed string or when memory runs out. *)
Definition exits (c : crash) : Prop := c = ProcessExit.

Lemma wp_config_servers toks : forall cur servers name s, 0 <= cur -> cur + Z.of_nat (length toks) = Z.of_nat (length servers) ->
  wp exits (config_servers (W := W) cur toks servers name) (fun r s' => s'.1 = s.1 /\ length r.1 = length servers /\
    take (Z.to_nat cur) r.1 = take (Z.to_nat cur) servers /\
    forall i tok, toks !! i = Some tok -> exists srv fs, split_fs_spec tok = Ret (srv, fs) /\
      r.1 !! (Z.to_nat cur + i)%nat = Some (Some srv)) s.
Proof.
  induction toks as [|tok toks IH]; intros cur servers name s Hc Hlen; cbn [config_servers].
  { apply wp_ret. split_and!; try done. }
  apply wp_bind, wp_lift. destruct (split_fs_spec tok) as [[srv fs]|e] eqn:E.
  2: { unfold split_fs_spec in E. destruct (negb _) eqn:E3; [by injection E as <-|].
       destruct (CString.rindex _ _) eqn:Er; [done|]. exfalso. apply negb_false_iff, Nat.eqb_eq in E3.
       clear -Er E3. assert (H0 : CString.count "/"%char tok = O); [|lia]. clear E3. induction tok as [|a tok IH]; [done|].
       cbn in *. destruct (CString.rindex "/"%char tok); [done|]. destruct (decide (a = "/"%char)); [done|by apply IH]. }
  cbn [length] in Hlen. apply wp_bind, wp_sys. intros ok w _. apply wp_bind, wp_lift. rewrite c_write_ok by lia.
  destruct ok; cbn [negb]; [|done]. set (servers' := <[Z.to_nat cur := Some srv]> servers).
  assert (Hgo : forall name' s1, s1.1 = s.1 -> wp exits (config_servers (W := W) (cur + 1) toks servers' name')
    (fun r s' => s'.1 = s.1 /\ length r.1 = length servers /\ take (Z.to_nat cur) r.1 = take (Z.to_nat cur) servers /\
      forall i t, (tok :: toks) !! i = Some t -> exists srv fs, split_fs_spec t = Ret (srv, fs) /\
        r.1 !! (Z.to_nat cur + i)%nat = Some (Some srv)) s1).
  { intros name' s1 Es. eapply wp_conseq; [apply (IH (cur + 1) servers' name' s1); [lia|unfold servers'; rewrite length_insert; lia]|].
    intros [r nm] s2 (H1 & H2 & H3 & H4). cbn [fst] in *. unfold servers' in H2, H3. rewrite length_insert in H2.
    replace (Z.to_nat (cur + 1)) with (S (Z.to_nat cur)) in * by lia. split_and!; [congruence|done| |].
    - assert (H5 : take (Z.to_nat cur) (take (S (Z.to_nat cur)) r) = take (Z.to_nat cur) (take (S (Z.to_nat cur)) (<[Z.to_nat cur := Some srv]> servers)))
        by (by rewrite H3). rewrite !take_take, !Nat.min_l in H5 by lia. by rewrite take_insert_ge in H5 by lia.
    - intros [|i] t Ht; cbn in Ht.
      + injection Ht as <-. exists srv, fs. split; [done|]. rewrite Nat.add_0_r.
        assert (H5 : take (S (Z.to_nat cur)) r !! Z.to_nat cur = Some (Some srv))
          by (rewrite H3, lookup_take_lt by lia; apply list_lookup_insert_eq; lia). by rewrite lookup_take_lt in H5 by lia.
      + destruct (H4 i t Ht) as (srv' & fs' & E1 & E2). exists srv', fs'. split; [done|].
        by replace (Z.to_nat cur + S i)%nat with (S (Z.to_nat cur) + i)%nat by lia. }
  destruct (cur =? 0).
  - apply wp_bind, wp_sys. intros ok2 w2 _. destruct ok2; cbn [negb]; [by apply Hgo|done].
  - destruct (decide (Some fs = name)); [by apply Hgo|done].
Qed.

End Parsing.

(** ** Listing a directory *)

Definition dirent_of (e : string * Z) : Pvfs.PVFS_dirent := Pvfs.mkDirent e.1 e.2.

Section Listing.
Import Pvfs Conn.
Context {W : Type} {P : PvfsOps W} {V : PvfsView W} {L : PvfsSpec W} {S : Type}.
Variables (E : crash -> Prop) (cr : PVFS_credentials) (ref : PVFS_object_ref) (callback : PVFS_dirent -> prog (S * W) Z)
  (es : list (string * Z)).

(** What holds once the entries [l] have been passed: the directory is as before, and a call
    either takes the next entry in or gives up the rest of its batch. *)
Variable passed : list PVFS_dirent -> S * W -> Prop.
Hypotheses (Hdir : forall l st, passed l st -> fs_ok st.2 /\ dirs st.2 (handle ref) = Some es)
  (Hquiet : forall l s w w', passed l (s, w) -> quiet w w' -> passed l (s, w'))
  (Hcb : forall d l st, d ∈ dirent_of <$> es -> passed l st -> wp E (callback d)
    (fun r st' => if r =? 0 then passed (l ++ [d]) st' else forall rest, passed (l ++ d :: rest) st') st).

Lemma wp_visit b : b ⊆ dirent_of <$> es -> forall l st, passed l st -> wp E (visit callback b) (fun _ st' => passed (l ++ b) st') st.
Proof.
  induction b as [|d b IH]; intros Hin l st Hp; cbn [visit]; [apply wp_ret; by rewrite app_nil_r|].
  apply wp_bind. eapply wp_conseq; [apply Hcb; [apply Hin; set_solver|done]|]. cbv beta. intros r st' Hr. destruct (r =? 0); [|by apply wp_ret, Hr].
  eapply wp_conseq; [by apply (IH ltac:(set_solver) (l ++ [d]))|]. intros ? st2. cbv beta. by rewrite <- app_assoc.
Qed.

(** From position [pos] on. *)
Lemma wp_readdir_loop fuel : forall tok pos l st, passed l st -> Z.of_nat (length es) < 2 ^ 30 ->
  (tok = PVFS_READDIR_START /\ pos = O \/ 0 <= tok < PVFS_READDIR_START /\ pos = Z.to_nat (tok + 1)) ->
  (pos <= length es)%nat -> (length es < pos + 256 * fuel)%nat ->
  wp E (readdir_loop fuel cr ref callback tok) (fun r st' => r = 0 /\ passed (l ++ (dirent_of <$> drop pos es)) st') st.
Proof.
  induction fuel as [|fuel IH]; intros tok pos l [s w] Hpa Hb Ht Hp Hf; [lia|]. cbn [readdir_loop].
  destruct (Hdir _ _ Hpa) as [Hok Hd]. cbn [snd] in Hok, Hd. assert (Hst := start_large (W := W)).
  destruct (readdir_from w cr ref tok 256 es Hok Hd ltac:(lia)) as (w1 & E1 & Hq); [destruct Ht as [[-> _]|[? _]]; [by left|by right]|].
  assert (Hfrom : Z.to_nat (if tok =? PVFS_READDIR_START then 0 else tok + 1) = pos /\
    0 <= (if tok =? PVFS_READDIR_START then 0 else tok + 1)).
  { destruct Ht as [[-> ->]|[Ht ->]]; [by rewrite Z.eqb_refl|]. destruct (Z.eqb_spec tok PVFS_READDIR_START); lia. }
  set (from := if tok =? PVFS_READDIR_START then 0 else tok + 1) in *. destruct Hfrom as [Ef H0]. rewrite Ef in E1.
  set (batch := take (Z.to_nat 256) (drop pos es)) in *. assert (Hl : length batch = Nat.min 256 (length es - pos)).
  { unfold batch. rewrite length_take, length_drop. done. }
  assert (Hbin : dirent_of <$> batch ⊆ dirent_of <$> es).
  { intros x (e & -> & He)%list_elem_of_fmap. apply list_elem_of_fmap_2. eapply subseteq_drop, subseteq_take. exact He. }
  apply wp_bind. eapply wp_sys_eq; [exact E1|]. cbn [Z.ltb Z.compare dirent_array token fst].
  apply wp_bind. eapply wp_conseq; [apply (wp_visit (dirent_of <$> batch) Hbin l); by eapply Hquiet|]. cbv beta. intros ? st2 Hp2. unfold outcount. cbn [dirent_array].
  rewrite length_fmap, Hl. destruct (Z.eqb_spec (Z.of_nat (Nat.min 256 (length es - pos))) 256) as [E256|Hne].
  - eapply wp_conseq; [apply (IH _ (pos + 256)%nat _ _ Hp2); lia|]. cbv beta. intros r st3 [-> H3]. split; [done|].
    assert (Eb : drop pos es = batch ++ drop (pos + 256) es) by (unfold batch; rewrite <- drop_drop; by rewrite take_drop).
    by rewrite Eb, fmap_app, app_assoc.
  - apply wp_ret. split; [done|]. unfold batch in Hp2. by rewrite take_ge in Hp2 by (rewrite length_drop; lia).
Qed.

(** pvfs_readdir passes every entry of the directory, in order, in batches of 256. *)
Lemma wp_readdir fuel l st : passed l st -> (length es < 256 * fuel)%nat ->
  wp E (pvfs_readdir fuel cr ref callback) (fun r st' => r = 0 /\ passed (l ++ (dirent_of <$> es)) st') st.
Proof.
  intros Hp Hf. destruct (Hdir _ _ Hp) as [Hok Hd]. apply (wp_readdir_loop fuel _ 0 l st Hp); try lia. apply (names_ok st.2 _ es Hok Hd).
Qed.

End Listing.

Section ConnProperties.
Import Pvfs Conn.

(** The server's name comes back out of its address: for an address made of a scheme, a
    host and a port, without further colons or slashes in host and port,
    [pvfs_generate_serverlist] extracts exactly the host. *)
Theorem server_portion_roundtrip (scheme host port : string)
  (Hh : CString.count "/"%char host = O) (Hp : CString.count ":"%char port = O) (Hp' : CString.count "/"%char port = O)
  (Hlen : Z.of_nat (String.length (scheme ++ "//" ++ host ++ ":" ++ port)) < 2 ^ 62) :
  server_portion (scheme ++ "//" ++ host ++ ":" ++ port) = Ret host.
Proof.
  unfold server_portion. set (a := String.append scheme (String "/"%char EmptyString)).
  assert (Ea : String.append scheme ("//" ++ host ++ ":" ++ port) = String.append a (String "/"%char (String.append host (String ":"%char port))))
    by (unfold a; by rewrite <- sapp_cons). rewrite Ea in *.
  assert (Es : CString.rindex "/"%char (String.append a (String "/"%char (String.append host (String ":"%char port)))) = Some (String.length a)).
  { apply rindex_last. rewrite count_sapp. cbn. rewrite Hh. cbn. exact Hp'. }
  assert (Ec : CString.rindex ":"%char (String.append a (String "/"%char (String.append host (String ":"%char port)))) =
    Some (String.length a + S (String.length host))%nat).
  { rewrite rindex_sapp. cbn. rewrite (rindex_last ":"%char host port Hp). done. }
  rewrite Es, Ec. rewrite sapp_cons in *.
  replace (S (String.length a)) with (String.length (String.append a (String "/"%char EmptyString))) by (rewrite length_sapp; cbn; lia).
  rewrite skip_sapp. rewrite !length_sapp in Hlen. cbn in Hlen. rewrite !length_sapp. cbn [String.length].
  rewrite u64_small by lia. f_equal.
  replace (Nat.min _ _) with (String.length host); [apply firstn_sapp|]. lia.
Qed.

(** The connection string is parsed inside its buffers: for every string,
    [pvfs_connect]'s parser either ends the process with exit(-1) or returns a mount entry
    with one slot per comma-separated token, each filled with that token's server; the array of
    servers, sized by counting commas, is never overrun. *)
Theorem fs_spec_in_bounds {W} `{PvfsOps W} (fs_spec : string) (s : conn_state * W) :
  match parse_fs_spec fs_spec s with
  | Ret (me, s') => s'.1 = s.1 /\ num_pvfs_config_servers me = Z.of_nat (length (pvfs_config_servers me)) /\
      length (pvfs_config_servers me) = length (CString.strsep_all ","%char fs_spec) /\
      forall i tok, CString.strsep_all ","%char fs_spec !! i = Some tok ->
        exists srv fs, split_fs_spec tok = Ret (srv, fs) /\ pvfs_config_servers me !! i = Some (Some srv)
  | Crash c => c = ProcessExit
  end.
Proof.
  assert (Hl := strsep_length ","%char fs_spec).
  assert (Hw : wp exits (parse_fs_spec fs_spec) (fun me s' => s'.1 = s.1 /\
    num_pvfs_config_servers me = Z.of_nat (length (pvfs_config_servers me)) /\
    length (pvfs_config_servers me) = length (CString.strsep_all ","%char fs_spec) /\
    forall i tok, CString.strsep_all ","%char fs_spec !! i = Some tok ->
      exists srv fs, split_fs_spec tok = Ret (srv, fs) /\ pvfs_config_servers me !! i = Some (Some srv)) s).
  2: { unfold wp in Hw. by destruct (parse_fs_spec fs_spec s) as [[me s']|]. }
  unfold parse_fs_spec. apply wp_bind, wp_sys. intros ok w _. destruct ok; cbn [negb]; [|done]. apply wp_bind.
  eapply wp_conseq; [apply wp_config_servers; [lia|rewrite length_replicate; lia]|]. intros [r nm] s' (H1 & H2 & _ & H4).
  cbn [fst] in *. rewrite length_replicate in H2. apply wp_ret. cbn [num_pvfs_config_servers pvfs_config_servers].
  split_and!; [done|lia|lia|]. intros i tok Ht. destruct (H4 i tok Ht) as (srv & fs & E1 & E2). by exists srv, fs.
Qed.

Lemma server_portion_roundtrip_witness : server_portion "tcp://node17:3334" = Ret "node17"%string.
Proof. apply (server_portion_roundtrip "tcp:" "node17" "3334"); [reflexivity|reflexivity|reflexivity|vm_compute; reflexivity]. Defined.

End ConnProperties.
