(* ===== verification/ServerCache.v ===== *)
(** * The directory cache of a server: server/cache.c and cache.h

    A server keeps one [skye_directory] per logical directory it has seen, in a hash
    table keyed by the directory's PVFS reference, with a reference count and a
    reader/writer lock.  [server] is the state of a server process: the cache's
    objects live in a store with explicit addresses, because handlers, the split
    thread and the table share them.  [Cache] translates cache.c. *)

From S2P Require Import Prelude GigaIndex Names Utlist Pvfs Connection.

#[local] Open Scope Z_scope.

(** ** pthread reader/writer locks *)

Module Rwlock.

(** How many readers hold the lock, and the thread that holds it for writing. *)
Record rwlock : Type := mkLock { readers : Z; writer : option Z }.

Definition unlocked : rwlock := mkLock 0 None.

(** The value returned and the new lock; waiting for another thread is
    [Blocked].  A thread that already is the writer gets EDEADLK. *)
Definition rdlock (self : Z) (l : rwlock) : outcome (Z * rwlock) :=
  match writer l with
  | Some t => if t =? self then Ret (EDEADLK, l) else Crash Blocked
  | None => Ret (0, mkLock (readers l + 1) None)
  end.

Definition wrlock (self : Z) (l : rwlock) : outcome (Z * rwlock) :=
  match writer l with
  | Some t => if t =? self then Ret (EDEADLK, l) else Crash Blocked
  | None => if readers l =? 0 then Ret (0, mkLock 0 (Some self)) else Crash Blocked
  end.

(** Releasing a lock the thread cannot hold is undefined. *)
Definition unlock (self : Z) (l : rwlock) : outcome rwlock :=
  match writer l with
  | Some t => if t =? self then Ret (mkLock (readers l) None) else Crash LockMisuse
  | None => if 0 <? readers l then Ret (mkLock (readers l - 1) None) else Crash LockMisuse
  end.

End Rwlock.

(** ** The state of a server process *)

Module Server.
Import Pvfs Giga.

(** struct skye_directory (server/cache.h); a failed calloc leaves NULL. *)
Record skye_directory : Type := mkDir {
  mapping : giga_mapping_t;
  refcount : Z;
  handle : PVFS_object_ref;
  splitting_index : Z;
  rwlock : Rwlock.rwlock;
  partition_handles_length : Z;
  partition_handles : option (list Z)
}.

(** struct split_task (server/split.c); its links are those of [Dl.node]. *)
Record split_task : Type := mkTask { parent : PVFS_object_ref; pindex : Z }.

Record server : Type := mkServer {
  conn : Conn.conn_state;
  heap : gmap positive skye_directory;
  dircache : gmap PVFS_object_ref positive;
  flow_sem : Z;
  create_count : Z;
  tasks : gmap positive (Dl.node split_task);
  queue : option positive;
  queue_mutex : option Z
}.

Definition set_heap (h : gmap positive skye_directory) (s : server) : server :=
  mkServer (conn s) h (dircache s) (flow_sem s) (create_count s) (tasks s) (queue s) (queue_mutex s).
Definition set_dircache (c : gmap PVFS_object_ref positive) (s : server) : server :=
  mkServer (conn s) (heap s) c (flow_sem s) (create_count s) (tasks s) (queue s) (queue_mutex s).
Definition set_flow_sem (n : Z) (s : server) : server :=
  mkServer (conn s) (heap s) (dircache s) n (create_count s) (tasks s) (queue s) (queue_mutex s).
Definition set_create_count (n : Z) (s : server) : server :=
  mkServer (conn s) (heap s) (dircache s) (flow_sem s) n (tasks s) (queue s) (queue_mutex s).
Definition set_queue (t : gmap positive (Dl.node split_task)) (q : option positive) (s : server) : server :=
  mkServer (conn s) (heap s) (dircache s) (flow_sem s) (create_count s) t q (queue_mutex s).
Definition set_queue_mutex (o : option Z) (s : server) : server :=
  mkServer (conn s) (heap s) (dircache s) (flow_sem s) (create_count s) (tasks s) (queue s) o.

Definition set_mapping (m : giga_mapping_t) (d : skye_directory) : skye_directory :=
  mkDir m (refcount d) (handle d) (splitting_index d) (rwlock d)
    (partition_handles_length d) (partition_handles d).
Definition set_refcount (n : Z) (d : skye_directory) : skye_directory :=
  mkDir (mapping d) n (handle d) (splitting_index d) (rwlock d)
    (partition_handles_length d) (partition_handles d).
Definition set_splitting_index (i : Z) (d : skye_directory) : skye_directory :=
  mkDir (mapping d) (refcount d) (handle d) i (rwlock d)
    (partition_handles_length d) (partition_handles d).
Definition set_rwlock (l : Rwlock.rwlock) (d : skye_directory) : skye_directory :=
  mkDir (mapping d) (refcount d) (handle d) (splitting_index d) l
    (partition_handles_length d) (partition_handles d).
Definition set_partition_handles (n : Z) (l : option (list Z)) (d : skye_directory) : skye_directory :=
  mkDir (mapping d) (refcount d) (handle d) (splitting_index d) (rwlock d) n l.

Section Access.
Context {W : Type}.

(** Dereferencing the address of a directory. *)
Definition deref (a : positive) : prog (server * W) skye_directory := fun s =>
  match heap s.1 !! a with
  | Some d => Ret (d, s)
  | None => Crash UseAfterFree
  end.

Definition store (a : positive) (d : skye_directory) : prog (server * W) unit :=
  modl (fun s => set_heap (<[a := d]> (heap s)) s).

Definition update (a : positive) (f : skye_directory -> skye_directory) : prog (server * W) unit :=
  d ← deref a; store a (f d).

(** The object and, in this model, the array of handles it owns go together; that the array
    is a block of its own, which the code never frees, is in CacheThreads.v. *)
Definition free (a : positive) : prog (server * W) unit :=
  _ ← deref a; modl (fun s => set_heap (delete a (heap s)) s).

(** A pointer that may be NULL. *)
Definition nonnull (p : option positive) : prog (server * W) positive :=
  match p with Some a => mret a | None => crash_with NullDeref end.

End Access.

End Server.

(** ** server/cache.c *)

Module Cache.
Import Pvfs Giga Server.

(** The position after a batch of [n] entries: token is zero before the first
    batch.  PVFS_ds_position is a 64-bit unsigned integer, the count 32-bit. *)
Definition next_token (tok n : Z) : Z :=
  if tok =? 0 then u32 (n - 1) else u64 (tok + n).

Section Cache.
Context {W : Type} `{PvfsOps W}.
#[local] Abbreviation M := (prog (server * W)).

(** The token [PVFS_sys_readdir] is called with. *)
Definition start_token (tok : Z) : Z := if tok =? 0 then PVFS_READDIR_START else tok.

(** The calling thread, and a bound on the batches of a listing. *)
Variable self : Z.
Variable fuel : nat.

(** The loop of [fill_bitmap] over the entries of one batch. *)
Fixpoint fill_entries (m : giga_mapping_t) (l : list PVFS_dirent) : outcome giga_mapping_t :=
  match l with
  | [] => Ret m
  | d :: l' =>
      match PartName.scan_part (d_name d) with
      | Some index => m ← giga_update_mapping m index; fill_entries m l'
      | None => fill_entries m l'
      end
  end.

Fixpoint fill_batches (n : nat) (m : giga_mapping_t) (ref : PVFS_object_ref)
  (credentials : PVFS_credentials) (tok : Z) : prog W giga_mapping_t :=
  match n with
  | O => crash_with NoFuel
  | S n' => fun w =>
      let '(ret, rd, w) := PVFS_sys_readdir ref (start_token tok) 32 credentials w in
      if ret <? 0 then Ret (m, w)
      else
        m ← fill_entries m (dirent_array rd);
        let tok := next_token tok (outcount rd) in
        if outcount rd =? 32 then fill_batches n' m ref credentials tok w else Ret (m, w)
  end.

Definition fill_bitmap (m : giga_mapping_t) (ref : PVFS_object_ref) : prog W giga_mapping_t := fun w =>
  let '(credentials, w) := PVFS_util_gen_credentials w in
  fill_batches fuel m ref credentials 0 w.

(** HASH_ADD and HASH_DEL on the table of directories. *)
Definition hash_add (r : PVFS_object_ref) (a : positive) : M unit :=
  modl (fun s => set_dircache (<[r := a]> (dircache s)) s).

Definition hash_del (a : positive) : M unit :=
  d ← deref a;
  modl (fun s => set_dircache (delete (handle d) (dircache s)) s).

Definition new_directory (ref : PVFS_object_ref) : M (option positive) :=
  ok ← sys malloc;
  if negb ok then mret None else
  callocd ← sys malloc;
  let n := MAX_BKTS_PER_SERVER * 2 in
  rc ← sys pthread_rwlock_init;
  if negb (rc =? 0) then mret None else
  s ← getl;
  zeroth ← in_world (Conn.pvfs_get_mds (conn s) ref);
  m ← lift (giga_init_mapping (-1) (u32 zeroth) (u32 (Conn.servercount (Conn.opts (conn s)))));
  let a := fresh (dom (heap s)) in
  _ ← store a (mkDir m 1 ref (-1) Rwlock.unlocked n
                 (if callocd : bool then Some (replicate (Z.to_nat n) 0) else None));
  _ ← hash_add ref a;
  m ← in_world (fill_bitmap m ref);
  _ ← update a (set_mapping m);
  mret (Some a).

Definition fetch (ref : PVFS_object_ref) : M (option positive) :=
  s ← getl;
  dir ← (match dircache s !! ref with
         | Some a => mret (Some a)
         | None => new_directory ref
         end);
  match dir with
  | None => mret None
  | Some a => _ ← update a (fun d => set_refcount (i32 (refcount d + 1)) d); mret (Some a)
  end.

Definition lock_with (op : Rwlock.rwlock -> outcome (Z * Rwlock.rwlock)) (a : positive) : M unit :=
  d ← deref a;
  '(_, l) ← lift (op (rwlock d));
  store a (set_rwlock l d).

Definition cache_fetch (ref : PVFS_object_ref) : M (option positive) :=
  dir ← fetch ref;
  match dir with
  | None => mret None
  | Some a => _ ← lock_with (Rwlock.rdlock self) a; mret (Some a)
  end.

Definition cache_fetch_w (ref : PVFS_object_ref) : M (option positive) :=
  dir ← fetch ref;
  match dir with
  | None => mret None
  | Some a =>
      _ ← sys time;
      _ ← lock_with (Rwlock.wrlock self) a;
      _ ← sys time;
      mret (Some a)
  end.

Definition unlock_dir (a : positive) : M unit :=
  d ← deref a;
  l ← lift (Rwlock.unlock self (rwlock d));
  store a (set_rwlock l d).

Definition cache_return (a : positive) : M unit :=
  _ ← unlock_dir a;
  d ← deref a;
  _ ← lift (c_assert (0 <? refcount d));
  let n := i32 (refcount d - 1) in
  _ ← store a (set_refcount n d);
  if n =? 0 then free a else mret tt.

(** The lock the caller holds is not released. *)
Definition cache_destroy (a : positive) : M unit :=
  d ← deref a;
  _ ← lift (c_assert (1 <? refcount d));
  _ ← store a (set_refcount (i32 (refcount d - 1)) d);
  _ ← hash_del a;
  d ← deref a;
  let n := i32 (refcount d - 1) in
  _ ← store a (set_refcount n d);
  if n =? 0 then free a else mret tt.

End Cache.

End Cache.
