(* ===== verification/Split.v ===== *)
(** * Splitting a partition: server/split.c

    A handler that finds a partition too large queues a task; the split thread takes
    the tasks in order and moves the migrating entries of the partition into a new
    one.  [Split] translates split.c.  [do_split] holds the directory's lock except
    between the batches it moves, so it is the composition of the stretches in which
    it holds the lock: [split_begin], [move_batch] and [split_finish]. *)

From S2P Require Import Prelude GigaIndex Names Utlist Pvfs Connection ServerCache.

#[local] Open Scope Z_scope.

Module Split.
Import Pvfs Giga Server Cache.

(** server.h *)
Definition SPLIT_THRESHOLD : Z := 4000.

Section Split.
Context {W : Type} `{PvfsOps W} `{BucketRpc W}.
#[local] Abbreviation M := (prog (server * W)).

(** The calling thread, and a bound on the steps of each loop. *)
Variable self : Z.
Variable fuel : nat.

Definition lock_queue : M unit :=
  s ← getl;
  match queue_mutex s with
  | None => modl (set_queue_mutex (Some self))
  | Some _ => crash_with Blocked
  end.

Definition unlock_queue : M unit := modl (set_queue_mutex None).

(** memcmp(&last->parent, parent, sizeof(parent)): the size is that of a pointer,
    eight bytes, and those are the handle. *)
Definition same_task (t : split_task) (parent : PVFS_object_ref) (pindex : Z) : bool :=
  (Pvfs.handle (Server.parent t) =? Pvfs.handle parent) && (Server.pindex t =? pindex).

Definition perform_split (parent : PVFS_object_ref) (pindex : Z) : M unit :=
  _ ← lock_queue;
  s ← getl;
  last ← (match queue s with
          | Some _ =>
              p ← lift (Dl.get_prev (tasks s) (queue s));
              match p with
              | None => mret None
              | Some _ => '(_, n) ← lift (Dl.get (tasks s) p); mret (Some (Dl.payload n))
              end
          | None => mret None
          end);
  if match last with Some t => same_task t parent pindex | None => false end
  then unlock_queue
  else
    ok ← sys malloc;
    if negb ok then mret tt
    else
      let a := fresh (dom (tasks s)) in
      let h := <[a := Dl.mkNode None None (mkTask parent pindex)]> (tasks s) in
      '(h, q) ← lift (Dl.DL_APPEND h (queue s) (Some a));
      _ ← modl (set_queue h q);
      unlock_queue.

(** -1 when the attributes cannot be read. *)
Definition isdir_overflow (creds : PVFS_credentials) (ref : PVFS_object_ref) : M Z :=
  '(ret, attrs) ← sys (PVFS_sys_getattr ref PVFS_ATTR_SYS_DIRENT_COUNT creds);
  mret (if ret <? 0 then -1 else if SPLIT_THRESHOLD <? dirent_count attrs then 1 else 0).

(** The [while (1)] of [pvfs_mkdir_server]: the reference of the directory that
    was created on the wanted server, or an error. *)
Fixpoint mkdir_until (n : nat) (creds : PVFS_credentials) (parent : PVFS_object_ref)
  (dirname : string) (attr : PVFS_sys_attr) (server : Z) : M (Z + PVFS_object_ref) :=
  match n with
  | O => crash_with NoFuel
  | S n' =>
      '(rc, ref) ← sys (PVFS_sys_mkdir dirname parent attr creds);
      if negb (rc =? 0) then mret (inl (-1 * PVFS_get_errno_mapping rc)) else
      s ← getl;
      created_on ← in_world (Conn.pvfs_get_mds (conn s) ref);
      if created_on =? server then mret (inr ref) else
      rc ← sys (PVFS_sys_remove dirname parent creds);
      if negb (rc =? 0) then mret (inl (-1 * PVFS_get_errno_mapping rc))
      else mkdir_until n' creds parent dirname attr server
  end.

(** The value returned, and what is stored in [child] when it is. *)
Definition pvfs_mkdir_server (creds : PVFS_credentials) (parent : PVFS_object_ref)
  (dirname : string) (attr : PVFS_sys_attr) (server : Z) : M (Z * option PVFS_object_ref) :=
  r ← mkdir_until fuel creds parent dirname attr server;
  mret (match r with inl rc => (rc, None) | inr ref => (0, Some ref) end).

(** What [do_split] keeps in its local variables while it moves files. *)
Record split_ctx : Type := mkCtx {
  sc_creds : PVFS_credentials;
  sc_parent : PVFS_object_ref;
  sc_cindex : Z;
  sc_dir : positive;
  sc_phandle : PVFS_object_ref;
  sc_chandle : PVFS_object_ref;
  sc_server : Z
}.

(** attr of the new partition. *)
Definition partition_attr (creds : PVFS_credentials) : PVFS_sys_attr :=
  mkAttr (uid creds) (gid creds) 511 0 0 0 0 None 0 0 PVFS_TYPE_NONE PVFS_ATTR_SYS_ALL_SETABLE.

(** [do_split] up to the first release of the lock; [None] when it ended early. *)
Definition split_begin (parent : PVFS_object_ref) (pindex : Z) : M (option split_ctx) :=
  creds ← sys PVFS_util_gen_credentials;
  _ ← sys time;
  p ← cache_fetch_w self fuel parent;
  match p with
  | None => mret None
  | Some a =>
      d ← deref a;
      cindex ← lift (giga_index_for_splitting (mapping d) pindex);
      s ← getl;
      '(ret, ref) ← sys (PVFS_sys_ref_lookup (Conn.pvfs_fsid (conn s))
                           (PartName.physical_path pindex) parent creds);
      if ret <? 0 then _ ← cache_return self a; mret None else
      over ← isdir_overflow creds ref;
      if over =? 0 then _ ← cache_return self a; mret None else
      d ← deref a;
      server ← lift (giga_get_server_for_index (mapping d) cindex);
      '(ret, child) ← pvfs_mkdir_server creds parent (PartName.physical_path cindex)
                        (partition_attr creds) server;
      if ret <? 0 then _ ← cache_return self a; mret None else
      match child with
      | None => crash_with Uninitialised
      | Some chandle =>
          _ ← update a (set_splitting_index pindex);
          _ ← unlock_dir self a;
          mret (Some (mkCtx creds parent cindex a ref chandle server))
      end
  end.

(** The entries of a batch: those that migrate are renamed into the new
    partition; [moved] counts the attempts. *)
Fixpoint move_entries (x : split_ctx) (l : list PVFS_dirent) (moved : Z) : M Z :=
  match l with
  | [] => mret moved
  | e :: l' =>
      migrates ← lift (giga_file_migration_status (d_name e) (sc_cindex x));
      if migrates =? 0 then move_entries x l' moved
      else
        _ ← sys (PVFS_sys_rename (d_name e) (sc_phandle x) (d_name e) (sc_chandle x) (sc_creds x));
        moved ← lift (c_int (moved + 1));
        move_entries x l' moved
  end.

(** One iteration of the inner loop: the next token, the count of moved entries,
    and whether the batch was full.  An empty batch leaves the lock held. *)
Definition move_batch (x : split_ctx) (tok moved : Z) : M (Z * Z * bool) :=
  _ ← lock_with (Rwlock.wrlock self) (sc_dir x);
  '(ret, rd) ← sys (PVFS_sys_readdir (sc_phandle x) (start_token tok) 128 (sc_creds x));
  if ret <? 0 then crash_with ProcessAbort else
  moved ← (if outcount rd =? 0 then mret moved
           else
             moved ← move_entries x (dirent_array rd) moved;
             _ ← unlock_dir self (sc_dir x);
             mret moved);
  mret (next_token tok (outcount rd), moved, outcount rd =? 128).

Fixpoint move_batches (n : nat) (x : split_ctx) (tok moved : Z) : M Z :=
  match n with
  | O => crash_with NoFuel
  | S n' =>
      '(tok, moved, full) ← move_batch x tok moved;
      if full : bool then move_batches n' x tok moved else mret moved
  end.

Fixpoint move_rounds (n : nat) (x : split_ctx) : M unit :=
  match n with
  | O => crash_with NoFuel
  | S n' =>
      moved ← move_batches fuel x 0 0;
      if 0 <? moved then move_rounds n' x else mret tt
  end.

(** Announcing the new partition and recording it. *)
Definition split_finish (x : split_ctx) : M unit :=
  _ ← lock_with (Rwlock.wrlock self) (sc_dir x);
  s ← getl;
  _ ← (if negb (sc_server x =? Conn.servernum (Conn.opts (conn s))) then
         client ← lift (Conn.get_connection (conn s) (sc_server x));
         match client with
         | None => crash_with NullDeref
         | Some k =>
             '(stat, _) ← sys (skye_rpc_bucket_add_1 (sc_parent x) (sc_cindex x) k);
             match stat with
             | RPC_SUCCESS => mret tt
             | RPC_FAILED => crash_with ProcessAbort
             end
         end
       else mret tt);
  _ ← update (sc_dir x) (set_splitting_index (-1));
  d ← deref (sc_dir x);
  m ← lift (giga_update_mapping (mapping d) (sc_cindex x));
  _ ← store (sc_dir x) (set_mapping m d);
  _ ← sys time;
  cache_return self (sc_dir x).

Definition do_split (parent : PVFS_object_ref) (pindex : Z) : M unit :=
  c ← split_begin parent pindex;
  match c with
  | None => mret tt
  | Some x => _ ← move_rounds fuel x; split_finish x
  end.

(** The inner loop of [split_thread]: the mutex is held on entry and on exit,
    and free while a task runs. *)
Fixpoint drain_queue (n : nat) : M unit :=
  match n with
  | O => crash_with NoFuel
  | S n' =>
      s ← getl;
      match queue s with
      | None => mret tt
      | Some a =>
          '(h, q) ← lift (Dl.DL_DELETE (tasks s) (queue s) (Some a));
          '(_, t) ← lift (Dl.get h (Some a));
          _ ← modl (set_queue h q);
          _ ← unlock_queue;
          _ ← do_split (parent (Dl.payload t)) (pindex (Dl.payload t));
          _ ← lock_queue;
          _ ← modl (fun s => set_queue (delete a (tasks s)) (queue s) s);
          drain_queue n'
      end
  end.

(** One wake-up of [split_thread]: pthread_cond_wait returns holding the mutex,
    the queue is drained, and waiting again releases it. *)
Definition split_thread_wakeup : M unit :=
  _ ← lock_queue; _ ← drain_queue fuel; unlock_queue.

End Split.
End Split.
