(* ===== verification/Startup.v ===== *)
(** * Starting a server and a client: server/server.c, client/client.c

    [Startup] translates [main] of the server up to the point where it is online, the
    making of the root's partition, the set-up of the listening socket, the loop that
    accepts connections and the thread of one connection; and [skye_init] and
    [skye_destroy] of the client.  The sockets and threads of the operating system are
    an interface.  Online.v says what holds when a server has come up. *)

From Stdlib Require Import Ascii.
From S2P Require Import Prelude GigaIndex Names Utlist Pvfs Connection ServerCache Split.

#[local] Open Scope Z_scope.

Module Startup.
Import Pvfs Giga Server Split.

(** The calls of server.c to the operating system. *)
Inductive sockopt : Type := SO_REUSEADDR | SO_KEEPALIVE | TCP_NODELAY.

Class SockOps (W : Type) : Type := {
  pthread_rwlockattr_setkind_np : W -> Z * W;
  socket : W -> Z * W;
  fcntl_GETFL : Z -> W -> Z * W;
  fcntl_SETFL : Z -> Z -> W -> Z * W;
  O_NONBLOCK : Z;
  setsockopt : Z -> sockopt -> W -> Z * W;
  bind : Z -> Z -> W -> Z * W;
  listen : Z -> Z -> W -> Z * W;
  close : Z -> W -> W;
  pthread_create : W -> Z * W;
  pthread_detach : W -> Z * W
}.

Definition NUM_BACKLOG_CONN : Z := 128.
Definition DEFAULT_PVFS_FS : string := "tcp://localhost:3334/pvfs2-fs".

(** atoi, that is (int)strtol(s, NULL, 10): blanks, a sign, digits. *)
Fixpoint digits (s : string) (acc : Z) : Z :=
  match s with
  | EmptyString => acc
  | String c s' =>
      let d := byte_of_ascii c - 48 in
      if (0 <=? d) && (d <=? 9) then digits s' (10 * acc + d) else acc
  end.

Fixpoint atoi (s : string) : Z :=
  match s with
  | EmptyString => 0
  | String c s' =>
      let b := byte_of_ascii c in
      if (b =? 32) || ((9 <=? b) && (b <=? 13)) then atoi s'
      else if b =? 45 then i32 (Z.max (- 2 ^ 63) (- digits s' 0))
      else if b =? 43 then i32 (Z.min (2 ^ 63 - 1) (digits s' 0))
      else i32 (Z.min (2 ^ 63 - 1) (digits s 0))
  end.

Section Server.
Context {W : Type} `{PvfsOps W} `{Conn.ConnOps W} `{BucketRpc W} `{SockOps W}.
#[local] Abbreviation M := (prog (server * W)).

(** The making of directories tries this many times. *)
Variable fuel : nat.

(** A step of connection.c inside the server. *)
Definition on_conn {A} (m : prog (Conn.conn_state * W) A) : M A := fun s =>
  match m (conn s.1, s.2) with
  | Ret (a, (c, w)) =>
      Ret (a, (mkServer c (heap s.1) (dircache s.1) (flow_sem s.1) (create_count s.1) (tasks s.1) (queue s.1)
                 (queue_mutex s.1), w))
  | Crash c => Crash c
  end.

Definition root_attr (creds : PVFS_credentials) : PVFS_sys_attr :=
  mkAttr (uid creds) (gid creds) 511 0 0 0 0 None 0 0 PVFS_TYPE_NONE PVFS_ATTR_SYS_ALL_SETABLE.

Definition create_root_partition : M unit :=
  creds ← sys PVFS_util_gen_credentials;
  s ← getl;
  '(ret, _) ← sys (PVFS_sys_lookup (Conn.pvfs_fsid (conn s)) "/p00000" creds);
  if ret =? 0 then mret tt else
  if negb (PVFS_get_errno_mapping ret =? ENOENT) then crash_with ProcessExit else
  '(ret, root) ← sys (PVFS_sys_lookup (Conn.pvfs_fsid (conn s)) "/" creds);
  if negb (ret =? 0) then crash_with ProcessExit else
  server ← in_world (Conn.pvfs_get_mds (conn s) root);
  '(ret, _) ← pvfs_mkdir_server fuel creds root "p00000" (root_attr creds) server;
  if negb (ret =? 0) then crash_with ProcessExit else mret tt.

(** The options that getopt returns, in order: the port and the file system. *)
Fixpoint parse_options (l : list (ascii * string)) (port : Z) (fs_spec : option string) : M (Z * option string) :=
  match l with
  | [] => mret (port, fs_spec)
  | (c, optarg) :: l' =>
      if decide (c = "p"%char) then parse_options l' (atoi optarg) fs_spec
      else if decide (c = "f"%char) then
        ok ← sys malloc;
        parse_options l' port (if ok : bool then Some optarg else None)
      else crash_with ProcessExit
  end.

Definition cache_init : M unit :=
  ret ← sys pthread_rwlockattr_setkind_np;
  if negb (ret =? 0) then crash_with ProcessExit else mret tt.

(** err_ret only prints. *)
Definition set_sockopt_server (sock_fd : Z) : M unit :=
  flags ← sys (fcntl_GETFL sock_fd);
  if flags <? 0 then _ ← sys (fun w => (tt, close sock_fd w)); crash_with ProcessExit else
  ret ← sys (fcntl_SETFL sock_fd (Z.lor flags O_NONBLOCK));
  if ret <? 0 then _ ← sys (fun w => (tt, close sock_fd w)); crash_with ProcessExit else
  _ ← sys (setsockopt sock_fd SO_REUSEADDR);
  _ ← sys (setsockopt sock_fd SO_KEEPALIVE);
  _ ← sys (setsockopt sock_fd TCP_NODELAY);
  mret tt.

(** htons keeps sixteen bits of the port. *)
Definition setup_listener (port listen_fd : Z) : M unit :=
  ret ← sys (bind listen_fd (port mod 2 ^ 16));
  if ret <? 0 then _ ← sys (fun w => (tt, close listen_fd w)); crash_with ProcessExit else
  ret ← sys (listen listen_fd NUM_BACKLOG_CONN);
  if ret <? 0 then _ ← sys (fun w => (tt, close listen_fd w)); crash_with ProcessExit else
  _ ← sys pthread_create;
  mret tt.

Definition server_socket (port : Z) : M unit :=
  listen_fd ← sys socket;
  if listen_fd <? 0 then crash_with ProcessExit else
  _ ← set_sockopt_server listen_fd;
  setup_listener port listen_fd.

Definition set_servernum (i : Z) : M unit :=
  on_conn (modl (Conn.set_opts (fun o => Conn.mkOptions (Conn.pvfs_spec o) (Conn.servercount o) i
                                           (Conn.serverlist o) (Conn.serveraddrs o)))).

(** [main] up to the message that the server is online; the result of [pvfs_connect] is
    not looked at.  From the end of [server_socket] on other threads accept connections and
    handle requests, and a little later one does splits: [meanwhile] is what they do between
    two steps of main and while it sleeps. *)
Definition server_main (meanwhile : M unit) (argc : Z) (options : list (ascii * string)) : M unit :=
  if argc =? 2 then crash_with ProcessExit else
  '(port, fs_spec) ← parse_options options Conn.DEFAULT_PORT None;
  fs_spec ← (match fs_spec with
             | Some f => mret f
             | None => ok ← sys malloc; if ok : bool then mret DEFAULT_PVFS_FS else crash_with ProcessExit
             end);
  _ ← cache_init;
  _ ← modl (set_flow_sem 12);
  _ ← on_conn (Conn.pvfs_connect fs_spec);
  s ← getl;
  _ ← (if Conn.servercount (Conn.opts (conn s)) =? 1 then set_servernum 0 else mret tt);
  s ← getl;
  if Conn.servernum (Conn.opts (conn s)) =? -1 then crash_with ProcessExit else
  _ ← (if Conn.servernum (Conn.opts (conn s)) =? 0 then create_root_partition else mret tt);
  _ ← server_socket port;
  _ ← meanwhile;
  ret ← sys pthread_create;
  if ret <? 0 then crash_with ProcessAbort else
  _ ← meanwhile;
  _ ← sys pthread_detach;
  _ ← meanwhile;
  ret ← on_conn Conn.rpc_connect;
  if negb (ret =? 0) then crash_with ProcessExit else meanwhile.

End Server.

(** ** Connections of clients *)

(** What select reports for one connection. *)
Record select_result : Type := mkSelect { sel_ret : Z; sel_except : bool; sel_read : bool }.

(** What a connection's thread does with its descriptor. *)
Inductive action : Type := Serve | Destroy | Close.

#[export] Instance action_eq_dec : EqDecision action.
Proof. solve_decision. Defined.

(** The loop of [handler_thread] over what select reports; whether it has ended. *)
Fixpoint handler_loop (l : list select_result) : list action * bool :=
  match l with
  | [] => ([], false)
  | r :: l' =>
      if sel_ret r <? 0 then ([], true)
      else if sel_except r then ([], true)
      else let '(t, e) := handler_loop l' in ((if sel_read r then [Serve] else []) ++ t, e)
  end.

Definition handler_thread (registered : bool) (l : list select_result) : list action * bool :=
  if negb registered then ([Destroy; Close], true)
  else let '(t, e) := handler_loop l in (t ++ (if e then [Close] else []), e).

(** One round of the listening thread: what select, accept and pthread_create answer. *)
Record round : Type := mkRound { rd_select : Z; rd_accept : Z; rd_create : Z }.

(** What becomes of an accepted descriptor: a thread has it, it is closed, or nobody has
    it because pthread_create failed with a positive error number. *)
Inductive dispatch : Type := Spawned (fd : Z) | Closed (fd : Z) | Dropped (fd : Z).

(** The connections it has dealt with, and whether the process has ended: err_sys after
    a failed accept is exit. *)
Fixpoint main_select_loop (l : list round) : list dispatch * bool :=
  match l with
  | [] => ([], false)
  | r :: l' =>
      if rd_select r <=? 0 then main_select_loop l'
      else if rd_accept r <? 0 then ([], true)
      else if rd_create r <? 0 then
        let '(t, e) := main_select_loop l' in (Closed (rd_accept r) :: t, e)
      else
        let '(t, e) := main_select_loop l' in
        ((if rd_create r =? 0 then Spawned (rd_accept r) else Dropped (rd_accept r)) :: t, e)
  end.

(** ** The client *)

Section Client.
Context {W : Type} `{PvfsOps W} `{Conn.ConnOps W}.

(** [fs_spec] is the value of the option pvfs=. *)
Definition skye_init (fs_spec : string) : prog (Conn.conn_state * W) unit :=
  ret ← Conn.pvfs_connect fs_spec;
  if ret <? 0 then crash_with ProcessExit else
  ret ← Conn.rpc_connect;
  if ret <? 0 then crash_with ProcessExit else mret tt.

Definition skye_destroy : prog (Conn.conn_state * W) unit := Conn.rpc_disconnect.

End Client.
End Startup.
