(* ===== verification/Handlers.v ===== *)
(** * The RPC handlers of a server: server/handlers.c

    [Handlers] translates each procedure of common/skye_rpc.x as the server
    implements it, with the helpers of handlers.c.  A result is the union of
    skye_rpc.x ([Rpc.skye_lookup]): its error number and the arm that was stored last. *)

From S2P Require Import Prelude GigaIndex Names Utlist Pvfs Rpc Connection ServerCache Split.

#[local] Open Scope Z_scope.

Module Handlers.
Import Pvfs Rpc Giga Server Cache Split.

Section Handlers.
Context {W : Type} `{PvfsOps W} `{BucketRpc W}.
#[local] Abbreviation M := (prog (server * W)).

(** The calling thread, and a bound on the steps of each loop. *)
Variable self : Z.
Variable fuel : nat.

Definition servernum : M Z := s ← getl; mret (Conn.servernum (Conn.opts (conn s))).
Definition pvfs_fsid : M Z := s ← getl; mret (Conn.pvfs_fsid (conn s)).

(** realloc to twice the length, the new half zeroed. *)
Definition grow_handles (d : skye_directory) : M skye_directory :=
  ok ← sys malloc;
  _ ← lift (c_assert ok);
  match partition_handles d with
  | None => crash_with Uninitialised
  | Some l =>
      n ← lift (c_int (partition_handles_length d * 2));
      mret (set_partition_handles n
              (Some (l ++ replicate (Z.to_nat (partition_handles_length d)) 0)) d)
  end.

Definition get_partition_handle (creds : PVFS_credentials) (a : positive) (index : Z) : M Z :=
  d ← deref a;
  bucket_number ← lift (giga_get_bucket_num_for_server (mapping d) index);
  _ ← (if partition_handles_length d - 1 <=? bucket_number
       then d ← grow_handles d; store a d else mret tt);
  d ← deref a;
  handles ← lift (match partition_handles d with Some l => Ret l | None => Crash NullDeref end);
  h ← lift (c_read handles bucket_number);
  if negb (h =? 0) then mret h else
  fsid ← pvfs_fsid;
  '(ret, ref) ← sys (PVFS_sys_ref_lookup fsid (PartName.physical_path index) (Server.handle d) creds);
  _ ← lift (c_assert (ret =? 0));
  handles ← lift (c_write handles bucket_number (Pvfs.handle ref));
  _ ← store a (set_partition_handles (partition_handles_length d) (Some handles) d);
  mret (Pvfs.handle ref).

(** The value returned, the reference stored through [handle], and what is
    copied into [bitmap]; [check] says whether the caller passed a bitmap. *)
Definition enter_bucket (creds : PVFS_credentials) (a : positive) (name : string)
  (ref : PVFS_object_ref) (check : bool) : M (Z * PVFS_object_ref * option giga_mapping_t) :=
  d ← deref a;
  index ← lift (giga_get_index_for_file (mapping d) name);
  away ← (if check then
            server ← lift (giga_get_server_for_index (mapping d) index);
            me ← servernum;
            mret (negb (server =? me))
          else mret false);
  if away : bool then mret (- EAGAIN, ref, Some (mapping d)) else
  if index =? splitting_index d then
    cindex ← lift (giga_index_for_splitting (mapping d) index);
    migrates ← lift (giga_file_migration_status name cindex);
    let index := if migrates =? 0 then index else cindex in
    fsid ← pvfs_fsid;
    '(ret, lk) ← sys (PVFS_sys_ref_lookup fsid (PartName.physical_path index) ref creds);
    mret (-1 * PVFS_get_errno_mapping ret, lk, None)
  else
    h ← get_partition_handle creds a index;
    mret (0, mkRef h (Pvfs.fs_id (Server.handle d)), None).

Definition isdir (creds : PVFS_credentials) (ref : PVFS_object_ref) : M bool :=
  '(ret, attrs) ← sys (PVFS_sys_getattr ref PVFS_ATTR_SYS_ALL_NOHINT creds);
  mret (if ret <? 0 then false else bool_decide (objtype attrs = PVFS_TYPE_DIRECTORY)).

(** sem_timedwait: a unit is taken if there is one; otherwise the call times out
    or waits for another thread to post one. *)
Definition flow_start : M Z :=
  s ← getl;
  if 0 <? flow_sem s then _ ← modl (set_flow_sem (flow_sem s - 1)); mret 0
  else timedout ← sys sem_timedout; if timedout : bool then mret (-1) else crash_with Blocked.

Definition flow_stop (start_ret : Z) : M unit :=
  if start_ret =? 0 then s ← getl; modl (set_flow_sem (flow_sem s + 1)) else mret tt.

Definition skye_rpc_init_1_svc : M bool := mret true.

Definition skye_rpc_lookup_1_svc (creds : PVFS_credentials) (parent : PVFS_object_ref)
  (path : string) : M skye_lookup :=
  flow ← flow_start;
  p ← cache_fetch self fuel parent;
  match p with
  | None => mret (mkLookup (- EIO) U_none)
  | Some a =>
      d ← deref a;
      index ← lift (giga_get_index_for_file (mapping d) path);
      server ← lift (giga_get_server_for_index (mapping d) index);
      me ← servernum;
      result ←
        (if negb (server =? me) then mret (mkLookup (- EAGAIN) (U_bitmap (mapping d)))
         else
           h ← get_partition_handle creds a index;
           fsid ← pvfs_fsid;
           '(ret, ref) ← sys (PVFS_sys_ref_lookup fsid path (mkRef h (Pvfs.fs_id parent)) creds);
           let err := -1 * PVFS_get_errno_mapping ret in
           d ← deref a;
           if (err =? - ENOENT) && (index =? splitting_index d) then
             (* the path of the child partition is built, and [path] is looked up *)
             _ ← lift (giga_index_for_splitting (mapping d) index);
             '(ret, ref) ← sys (PVFS_sys_ref_lookup fsid path parent creds);
             mret (mkLookup (-1 * PVFS_get_errno_mapping ret) (U_ref ref))
           else mret (mkLookup err (U_ref ref)));
      _ ← cache_return self a;
      _ ← flow_stop flow;
      mret result
  end.

(** From the label [gotindex]. *)
Fixpoint partition_from (n : nat) (creds : PVFS_credentials) (parent : PVFS_object_ref)
  (path : string) (a : positive) (index : Z) : M skye_lookup :=
  match n with
  | O => crash_with NoFuel
  | S n' =>
      d ← deref a;
      server ← lift (giga_get_server_for_index (mapping d) index);
      me ← servernum;
      if negb (server =? me) then mret (mkLookup (- EAGAIN) (U_bitmap (mapping d))) else
      fsid ← pvfs_fsid;
      '(ret, _) ← sys (PVFS_sys_ref_lookup fsid (PartName.physical_file_path index path) parent creds);
      if ret <? 0 then
        let err := -1 * PVFS_get_errno_mapping ret in
        if (err =? - ENOENT) && (index =? splitting_index d) then
          index ← lift (giga_index_for_splitting (mapping d) index);
          partition_from n' creds parent path a index
        else mret (mkLookup err U_none)
      else
        '(ret, ref) ← sys (PVFS_sys_ref_lookup fsid (PartName.physical_path index) parent creds);
        mret (mkLookup (-1 * PVFS_get_errno_mapping ret) (U_ref ref))
  end.

(** The jump to [gotindex] is taken at most once. *)
Definition skye_rpc_partition_1_svc (creds : PVFS_credentials) (parent : PVFS_object_ref)
  (path : string) : M skye_lookup :=
  flow ← flow_start;
  p ← cache_fetch self fuel parent;
  match p with
  | None => mret (mkLookup (- EIO) U_none)
  | Some a =>
      d ← deref a;
      index ← lift (giga_get_index_for_file (mapping d) path);
      result ← partition_from 2 creds parent path a index;
      _ ← cache_return self a;
      _ ← flow_stop flow;
      mret result
  end.

Definition create_attr (creds : PVFS_credentials) (mode now : Z) : PVFS_sys_attr :=
  mkAttr (uid creds) (gid creds) mode now now 0 0 None 0 0 PVFS_TYPE_NONE PVFS_ATTR_SYS_ALL_SETABLE.

(** The check for a split, on every hundredth create while none is running. *)
Definition maybe_split (creds : PVFS_credentials) (a : positive) (filename : string)
  (bucket : PVFS_object_ref) : M unit :=
  d ← deref a;
  if negb (splitting_index d =? -1) then mret tt else
  s ← getl;
  let n := create_count s in
  n1 ← lift (c_int (n + 1));
  _ ← modl (set_create_count n1);
  if negb (Z.rem n 100 =? 0) then mret tt else
  index ← lift (giga_get_index_for_file (mapping d) filename);
  splittable ← lift (giga_is_splittable (mapping d) index);
  if splittable =? 0 then mret tt else
  over ← isdir_overflow creds bucket;
  if over =? 0 then mret tt else perform_split self (Server.handle d) index.

Definition skye_rpc_create_1_svc (creds : PVFS_credentials) (parent : PVFS_object_ref)
  (filename : string) (mode : Z) : M skye_lookup :=
  _ ← sys time;
  flow ← flow_start;
  p ← cache_fetch self fuel parent;
  match p with
  | None => mret (mkLookup (- EIO) U_none)
  | Some a =>
      '(rc, bucket, bm) ← enter_bucket creds a filename parent true;
      if rc <? 0 then
        _ ← cache_return self a;
        _ ← flow_stop flow;
        mret (mkLookup rc (from_option U_bitmap U_none bm))
      else
        now ← sys time;
        '(rc, ref) ← sys (PVFS_sys_create filename bucket (create_attr creds mode now) creds);
        if negb (rc =? 0) then
          _ ← cache_return self a;
          _ ← flow_stop flow;
          mret (mkLookup (if rc =? - PVFS_ENOENT then - EACCES
                          else -1 * PVFS_get_errno_mapping rc) U_none)
        else
          _ ← maybe_split creds a filename bucket;
          _ ← cache_return self a;
          _ ← flow_stop flow;
          _ ← sys time;
          mret (mkLookup 0 (U_ref ref))
  end.

Definition mkdir_attr (creds : PVFS_credentials) (mode : Z) : PVFS_sys_attr :=
  mkAttr (uid creds) (gid creds) mode 0 0 0 0 None 0 0 PVFS_TYPE_NONE PVFS_ATTR_SYS_ALL_SETABLE.

Definition skye_rpc_mkdir_1_svc (creds : PVFS_credentials) (parent : PVFS_object_ref)
  (dirname : string) (mode : Z) : M skye_lookup :=
  flow ← flow_start;
  p ← cache_fetch self fuel parent;
  match p with
  | None => _ ← flow_stop flow; mret (mkLookup (- EIO) U_none)
  | Some a =>
      '(rc, bucket, bm) ← enter_bucket creds a dirname parent true;
      if rc <? 0 then
        _ ← cache_return self a;
        _ ← flow_stop flow;
        mret (mkLookup rc (from_option U_bitmap U_none bm))
      else
        let attr := mkdir_attr creds mode in
        '(rc, ref) ← sys (PVFS_sys_mkdir dirname bucket attr creds);
        if negb (rc =? 0) then
          _ ← cache_return self a;
          _ ← flow_stop flow;
          mret (mkLookup (-1 * PVFS_get_errno_mapping rc) U_none)
        else
          s ← getl;
          server ← in_world (Conn.pvfs_get_mds (conn s) ref);
          '(rc, _) ← pvfs_mkdir_server fuel creds ref "p00000" attr server;
          _ ← cache_return self a;
          _ ← flow_stop flow;
          mret (mkLookup rc (U_ref ref))
  end.

Definition remove_bucket (creds : PVFS_credentials) (a : positive) (index : Z) : M Z :=
  d ← deref a;
  rc ← sys (PVFS_sys_remove (PartName.physical_path index) (Server.handle d) creds);
  if rc <? 0 then mret (-1 * PVFS_get_errno_mapping rc) else
  d ← deref a;
  m ← lift (giga_update_mapping_remove (mapping d) index);
  _ ← store a (set_mapping m d);
  mret 0.

(** The entries of one batch; a non-zero value ends [remove_all_buckets].  The
    result of sscanf is not checked, so a name it cannot read leaves [index]
    unset. *)
Fixpoint remove_entries (creds : PVFS_credentials) (a : positive) (l : list PVFS_dirent) : M Z :=
  match l with
  | [] => mret 0
  | e :: l' =>
      index ← lift (match PartName.scan_part (d_name e) with
                    | Some i => Ret i | None => Crash Uninitialised end);
      if index =? 0 then remove_entries creds a l' else
      d ← deref a;
      server ← lift (giga_get_server_for_index (mapping d) index);
      me ← servernum;
      ret ←
        (if server =? me then remove_bucket creds a index
         else
           s ← getl;
           client ← lift (Conn.get_connection (conn s) server);
           match client with
           | None => crash_with NullDeref
           | Some k =>
               '(stat, ret) ← sys (skye_rpc_bucket_remove_1 creds (Server.handle d) index k);
               mret (match stat with RPC_SUCCESS => ret | RPC_FAILED => - EIO end)
           end);
      if negb (ret =? 0) then mret ret else remove_entries creds a l'
  end.

Fixpoint remove_batches (n : nat) (creds : PVFS_credentials) (a : positive) (tok : Z) : M Z :=
  match n with
  | O => crash_with NoFuel
  | S n' =>
      d ← deref a;
      '(ret, rd) ← sys (PVFS_sys_readdir (Server.handle d) (start_token tok) 32 creds);
      if ret <? 0 then mret (-1 * PVFS_get_errno_mapping ret) else
      ret ← remove_entries creds a (dirent_array rd);
      if negb (ret =? 0) then mret ret else
      let tok := next_token tok (outcount rd) in
      if outcount rd =? 32 then remove_batches n' creds a tok else mret 0
  end.

Definition remove_all_buckets (creds : PVFS_credentials) (a : positive) : M Z :=
  remove_batches fuel creds a 0.

(** The branch of [skye_rpc_remove_1_svc] for a directory: its cached object, if
    it is still to be returned, and the error number. *)
Definition remove_directory (creds : PVFS_credentials) (target bucket : PVFS_object_ref)
  (filename : string) : M (option positive * Z) :=
  p ← cache_fetch_w self fuel target;
  a ← nonnull p;
  rc ← remove_all_buckets creds a;
  if rc <? 0 then mret (Some a, rc) else
  d ← deref a;
  rc ← sys (PVFS_sys_remove "p00000" (Server.handle d) creds);
  if rc <? 0 then mret (Some a, -1 * PVFS_get_errno_mapping rc) else
  rc ← sys (PVFS_sys_remove filename bucket creds);
  _ ← cache_destroy a;
  mret (None, if rc <? 0 then -1 * PVFS_get_errno_mapping rc else 0).

Definition skye_rpc_remove_1_svc (creds : PVFS_credentials) (parent : PVFS_object_ref)
  (filename : string) : M skye_lookup :=
  flow ← flow_start;
  p ← cache_fetch self fuel parent;
  match p with
  | None => _ ← flow_stop flow; mret (mkLookup (- EIO) U_none)
  | Some a =>
      '(rc, bucket, bm) ← enter_bucket creds a filename parent true;
      '(held, result) ←
        (if rc <? 0 then mret (Some a, mkLookup rc (from_option U_bitmap U_none bm)) else
         fsid ← pvfs_fsid;
         '(rc, target) ← sys (PVFS_sys_ref_lookup fsid filename bucket creds);
         if rc <? 0 then mret (Some a, mkLookup (-1 * PVFS_get_errno_mapping rc) U_none) else
         is_dir ← isdir creds target;
         if is_dir : bool then
           _ ← cache_return self a;
           '(held, err) ← remove_directory creds target bucket filename;
           mret (held, mkLookup err U_none)
         else
           rc ← sys (PVFS_sys_remove filename bucket creds);
           mret (Some a, mkLookup (-1 * PVFS_get_errno_mapping rc) U_none));
      _ ← (match held with Some b => cache_return self b | None => mret tt end);
      _ ← flow_stop flow;
      mret result
  end.

Definition skye_rpc_rename_1_svc (creds : PVFS_credentials) (src_name : string)
  (src_parent : PVFS_object_ref) (dst_name : string) (dst_parent : PVFS_object_ref) : M skye_lookup :=
  flow ← flow_start;
  p ← cache_fetch self fuel dst_parent;
  match p with
  | None => _ ← flow_stop flow; mret (mkLookup (- EIO) U_none)
  | Some a =>
      '(rc, bucket, bm) ← enter_bucket creds a dst_name dst_parent true;
      if rc <? 0 then
        _ ← cache_return self a;
        _ ← flow_stop flow;
        mret (mkLookup rc (from_option U_bitmap U_none bm))
      else
        rc ← sys (PVFS_sys_rename src_name src_parent dst_name bucket creds);
        _ ← cache_return self a;
        _ ← flow_stop flow;
        mret (mkLookup (-1 * PVFS_get_errno_mapping rc) U_none)
  end.

(** The result of the pointer's fetch is not checked. *)
Definition skye_rpc_bucket_add_1_svc (ref : PVFS_object_ref) (index : Z) : M unit :=
  p ← cache_fetch_w self fuel ref;
  a ← nonnull p;
  d ← deref a;
  m ← lift (giga_update_mapping (mapping d) index);
  _ ← store a (set_mapping m d);
  cache_return self a.

Definition skye_rpc_bucket_remove_1_svc (creds : PVFS_credentials) (ref : PVFS_object_ref)
  (index : Z) : M Z :=
  p ← cache_fetch_w self fuel ref;
  match p with
  | None => mret (- ENOMEM)
  | Some a =>
      rc ← remove_bucket creds a index;
      _ ← cache_return self a;
      mret rc
  end.

End Handlers.
End Handlers.
