(* ===== verification/Balance.v ===== *)
(** * Locks and reference counts of the directory cache

    Whatever PVFS answers, the handlers of server/handlers.c use the cache of
    server/cache.c with discipline: no freed directory is touched, no lock is released
    that is not held, and a handler that returns has given back every reference and
    lock it took.  [tame] computations cannot end in the crashes that discipline rules
    out; [keeps] is the frame property of the code between the fetch and the return of
    a directory; [balanced] relates the states before and after a handler. *)

From S2P Require Import Prelude Sha GigaIndex Names Utlist Pvfs Rpc Connection MemFs ServerCache Split Handlers.

#[local] Open Scope Z_scope.

(** ** Computations that cannot break the discipline *)

Section Tame.
Import Pvfs Giga.

(** The crashes that reference counts and locks are there to exclude. *)
Definition disciplined (c : crash) : Prop := c <> UseAfterFree /\ c <> LockMisuse.

Definition tame {A} (m : outcome A) : Prop :=
  match m with Ret _ => True | Crash c => disciplined c end.

Lemma tame_bind {A B} (m : outcome A) (f : A -> outcome B) :
  tame m -> (forall a, tame (f a)) -> tame (m ≫= f).
Proof. destruct m; cbn; auto. Qed.

Lemma tame_Ret {A} (a : A) : tame (Ret a).
Proof. done. Qed.

Lemma tame_Crash {A} c : disciplined c -> tame (A := A) (Crash c).
Proof. done. Qed.

Lemma tame_assert b : tame (c_assert b).
Proof. by destruct b. Qed.

Lemma tame_int x : tame (c_int x).
Proof. unfold c_int. by case_match. Qed.

Lemma tame_one_shl n : tame (c_one_shl n).
Proof. unfold c_one_shl. by case_match. Qed.

Lemma tame_read {A} (l : list A) i : tame (c_read l i).
Proof. unfold c_read. case_match; [|done]. by case_match. Qed.

Lemma tame_write {A} (l : list A) i x : tame (c_write l i x).
Proof. unfold c_write. by case_match. Qed.

Create HintDb tame.
Hint Resolve tame_bind tame_Ret tame_assert tame_int tame_one_shl tame_read tame_write : tame.

(** Walk through a computation by its binds and conditionals. *)
Ltac tame_tac :=
  repeat first
    [ done
    | solve [auto with tame nocore]
    | apply tame_bind; [|intros ?]
    | case_match ].

Lemma tame_hash f : tame (giga_hash_name f).
Proof.
  assert (Hu : forall fuel sc data, tame (Sha1.update_loop fuel sc data)).
  { intros fuel. induction fuel as [|fuel IH]; intros sc [|x data]; cbn [Sha1.update_loop]; [done|done|done|].
    destruct (Sha1.update_step sc (x :: data)). apply IH. }
  unfold giga_hash_name, Sha1.shahash, Sha1.SHA1Final, Sha1.SHA1Update. tame_tac; apply Hu.
Qed.

Lemma tame_floor_log2 x : tame (floor_log2 x).
Proof. unfold floor_log2. tame_tac. Qed.
Hint Resolve tame_hash tame_floor_log2 : tame.

Lemma tame_radix_index i : tame (get_radix_from_index i).
Proof. unfold get_radix_from_index. tame_tac. Qed.
Lemma tame_parent_index i : tame (get_parent_index i).
Proof. unfold get_parent_index. tame_tac. Qed.
Lemma tame_child_index i r : tame (get_child_index i r).
Proof. unfold get_child_index. tame_tac. Qed.
Lemma tame_bit_status bm i : tame (get_bit_status bm i).
Proof. unfold get_bit_status. tame_tac. Qed.
Lemma tame_highest_element n bm : tame (highest_element n bm).
Proof. induction n as [|n IH]; cbn [highest_element]; tame_tac. Qed.
Hint Resolve tame_radix_index tame_parent_index tame_child_index tame_bit_status
  tame_highest_element : tame.

Lemma tame_radix_bmap bm : tame (get_radix_from_bmap bm).
Proof. unfold get_radix_from_bmap, get_highest_index. tame_tac. Qed.
Lemma tame_first_free n bm i k : tame (first_free_child n bm i k).
Proof. revert k. induction n as [|n IH]; intros k; cbn [first_free_child]; tame_tac. Qed.
Lemma tame_nearest n bm i : tame (nearest_ancestor n bm i).
Proof. revert i. induction n as [|n IH]; intros i; cbn [nearest_ancestor]; tame_tac. Qed.
Lemma tame_whole_bytes n i b x : tame (whole_bytes n i b x).
Proof. revert i x. induction n as [|n IH]; intros i x; cbn [whole_bytes]; tame_tac. Qed.
Hint Resolve tame_radix_bmap tame_first_free tame_nearest tame_whole_bytes : tame.

Lemma tame_compute_index h r : tame (compute_index h r).
Proof. unfold compute_index. tame_tac. Qed.
Hint Resolve tame_compute_index : tame.

Lemma tame_index_for_file m f : tame (giga_get_index_for_file m f).
Proof. unfold giga_get_index_for_file. tame_tac. Qed.
Lemma tame_server_for_index m i : tame (giga_get_server_for_index m i).
Proof. unfold giga_get_server_for_index. tame_tac. Qed.
Lemma tame_bucket_num m i : tame (giga_get_bucket_num_for_server m i).
Proof. unfold giga_get_bucket_num_for_server. tame_tac. Qed.
Lemma tame_index_for_splitting m i : tame (giga_index_for_splitting m i).
Proof. unfold giga_index_for_splitting. tame_tac. Qed.
Hint Resolve tame_index_for_splitting : tame.
Lemma tame_is_splittable m i : tame (giga_is_splittable m i).
Proof. unfold giga_is_splittable. tame_tac. Qed.
Lemma tame_migration f i : tame (giga_file_migration_status f i).
Proof. unfold giga_file_migration_status. tame_tac. Qed.
Lemma tame_update_mapping m i : tame (giga_update_mapping m i).
Proof. unfold giga_update_mapping. tame_tac. Qed.
Lemma tame_update_mapping_remove m i : tame (giga_update_mapping_remove m i).
Proof. unfold giga_update_mapping_remove. tame_tac. Qed.
Lemma tame_init_mapping f z n : tame (giga_init_mapping f z n).
Proof. unfold giga_init_mapping. tame_tac. Qed.
Lemma tame_fill_entries m l : tame (Cache.fill_entries m l).
Proof.
  revert m. induction l as [|d l IH]; intros m; cbn [Cache.fill_entries]; [done|].
  case_match; [|done]. apply tame_bind; [apply tame_update_mapping|done].
Qed.
Lemma tame_get_connection c i : tame (Conn.get_connection c i).
Proof. unfold Conn.get_connection. tame_tac. Qed.
Lemma tame_find_addr n i a l : tame (Conn.find_addr n i a l).
Proof. revert i. induction n as [|n IH]; intros i; cbn [Conn.find_addr]; tame_tac. Qed.

End Tame.

#[export] Hint Resolve tame_Ret tame_assert tame_int tame_one_shl tame_read tame_write
  tame_index_for_file tame_server_for_index tame_bucket_num tame_index_for_splitting
  tame_is_splittable tame_migration tame_update_mapping tame_update_mapping_remove
  tame_init_mapping tame_fill_entries tame_get_connection tame_find_addr : skye.

(** ** The frame of the code between fetch and return *)

(** How a handler may leave the mutex of the queue, when not as it found it. *)
Class Mislaid : Type := mislaid : option Z -> Prop.

Section Frame.
Import Pvfs Rpc Giga Server Cache Split Handlers.
Context {W : Type} `{PvfsOps W} `{BucketRpc W} {Ml : Mislaid}.
#[local] Abbreviation M := (prog (server * W)).
#[local] Abbreviation St := (server * W)%type.

(** The fields of a directory that belong to locking, counting and splitting. *)
Definition same_hold (d d' : skye_directory) : Prop :=
  refcount d' = refcount d /\ rwlock d' = rwlock d /\
  Server.handle d' = Server.handle d /\ splitting_index d' = splitting_index d.

Definition queue_ok (s : server) : Prop := exists l, Dl.dl (tasks s) (queue s) l.

(** The same objects are alive, held the same way, and the table is the same. *)
Record inner (s s' : server) : Prop := mkInner {
  inner_conn : conn s' = conn s;
  inner_table : dircache s' = dircache s;
  inner_flow : flow_sem s' = flow_sem s;
  inner_heap : forall a, option_Forall2 same_hold (heap s !! a) (heap s' !! a);
  inner_queue : queue_ok s -> queue_ok s';
  inner_mutex : queue_mutex s' = queue_mutex s \/ mislaid (queue_mutex s')
}.

#[export] Instance same_hold_preorder : PreOrder same_hold.
Proof. split; [done|]. unfold same_hold. intros d1 d2 d3 (-> & -> & -> & ->) (-> & -> & -> & ->). done. Qed.

#[export] Instance inner_preorder : PreOrder inner.
Proof.
  split.
  - intros s. split; try done. by left.
  - intros s1 s2 s3 [A1 A2 A3 A4 A5 A6] [B1 B2 B3 B4 B5 B6]. split; try congruence; [|auto|].
    + intros a. specialize (A4 a). specialize (B4 a). by transitivity (heap s2 !! a).
    + destruct B6 as [B6|]; [rewrite B6|by right]. exact A6.
Qed.

(** A change of the counters and the queue only. *)
Lemma inner_local s s' :
  conn s' = conn s -> dircache s' = dircache s -> flow_sem s' = flow_sem s -> heap s' = heap s ->
  (queue_ok s -> queue_ok s') -> queue_mutex s' = queue_mutex s \/ mislaid (queue_mutex s') -> inner s s'.
Proof. intros. split; try done. intros a. by replace (heap s' !! a) with (heap s !! a) by congruence. Qed.

(** A live directory and a sound queue: what the code in between relies on. *)
Definition ready (a : positive) (s : St) : Prop := is_Some (heap s.1 !! a) /\ queue_ok s.1.

Lemma ready_inner a s s' : ready a s -> inner s.1 s'.1 -> ready a s'.
Proof.
  intros [[d Hd] Hq] [_ _ _ Hh Hq' _]. split; [|auto]. specialize (Hh a). rewrite Hd in Hh.
  inversion Hh; eauto.
Qed.

Definition keeps {A} (a : positive) (m : M A) : Prop :=
  forall s, ready a s -> wp disciplined m (fun _ s' => inner s.1 s'.1) s.

Lemma keeps_bind {A B} a (m : M A) (f : A -> M B) :
  keeps a m -> (forall x, keeps a (f x)) -> keeps a (m ≫= f).
Proof.
  intros Hm Hf s Hs. apply wp_bind. eapply wp_conseq; [by apply Hm|]. intros x s1 H1. cbn beta.
  eapply wp_conseq; [by apply Hf, (ready_inner a s)|]. intros y s2 H2. by transitivity s1.1.
Qed.

Lemma keeps_ret {A} a (x : A) : keeps a (mret x : M A).
Proof. intros s _. apply wp_ret. reflexivity. Qed.

Lemma keeps_crash {A} a c : disciplined c -> keeps a (crash_with c : M A).
Proof. by intros Hc s _. Qed.

Lemma keeps_lift {A} a (m : outcome A) : tame m -> keeps a (lift m : M A).
Proof. intros Hm s _. apply wp_lift. destruct m; [reflexivity|done]. Qed.

Lemma keeps_sys {A} a (f : W -> A * W) : keeps a (sys f : M A).
Proof. intros s _. apply wp_sys. intros x w _. reflexivity. Qed.

Lemma keeps_getl a : keeps a (getl : M server).
Proof. intros s _. apply wp_getl. reflexivity. Qed.

Lemma keeps_in_world {A} a (m : prog W A) :
  (forall w, match m w with Ret _ => True | Crash c => disciplined c end) -> keeps a (in_world m : M A).
Proof.
  intros Hm s _. apply wp_in_world. specialize (Hm s.2). unfold wp.
  destruct (m s.2) as [[x w]|c]; [reflexivity|done].
Qed.

Lemma keeps_deref a : keeps a (deref a : M skye_directory).
Proof. intros s [[d Hd] _]. unfold wp, deref. rewrite Hd. reflexivity. Qed.

Lemma inner_store a d d' s :
  heap s !! a = Some d -> same_hold d d' -> inner s (set_heap (<[a := d']> (heap s)) s).
Proof.
  intros Hd Hh. split; try done; [|by left]. intros b. cbn. destruct (decide (b = a)) as [->|Hne].
  - rewrite lookup_insert_eq, Hd. by constructor.
  - rewrite lookup_insert_ne by done. reflexivity.
Qed.

(** A [deref] whose value is used to write the object back. *)
Lemma keeps_deref_bind {B} a (f : skye_directory -> M B) :
  (forall s d, ready a s -> heap s.1 !! a = Some d ->
     wp disciplined (f d) (fun _ s' => inner s.1 s'.1) s) ->
  keeps a (deref a ≫= f).
Proof.
  intros Hf s Hs. apply wp_bind. destruct Hs as [[d Hd] Hq]. eapply wp_Ret.
  - unfold deref. rewrite Hd. reflexivity.
  - cbn beta. apply Hf; [|done]. split; eauto.
Qed.

Lemma wp_store a d d' s :
  heap s.1 !! a = Some d -> same_hold d d' ->
  wp disciplined (store a d' : M unit) (fun _ s' => inner s.1 s'.1) s.
Proof. intros. apply wp_modl. cbn. by eapply inner_store. Qed.

Lemma pvfs_get_mds_tame c r (w : W) :
  match Conn.pvfs_get_mds c r w with Ret _ => True | Crash c => disciplined c end.
Proof.
  unfold Conn.pvfs_get_mds. destruct (PVFS_mgmt_map_handle _ _ w) as [[rc addr] w'].
  destruct (negb (rc =? 0)); [done|].
  assert (Ht := tame_find_addr (Z.to_nat (Conn.servercount (Conn.opts c))) 0 addr
    (default [] (Conn.serveraddrs (Conn.opts c)))).
  destruct (Conn.find_addr _ _ _ _) as [i|]; cbn; [|done]. by destruct (negb _).
Qed.

Lemma keeps_get_mds a c r : keeps a (in_world (Conn.pvfs_get_mds c r) : M Z).
Proof. apply keeps_in_world. intros w. apply pvfs_get_mds_tame. Qed.

End Frame.

Create HintDb keeps.
#[export] Hint Resolve keeps_ret keeps_sys keeps_getl keeps_deref keeps_get_mds : keeps.
#[export] Hint Extern 1 (keeps _ (lift _)) => apply keeps_lift; auto with skye : keeps.
#[export] Hint Extern 1 (keeps _ (crash_with _)) => apply keeps_crash; by split : keeps.

(** Split a program at its binds and conditionals and close the pieces. *)
Ltac keeps_tac :=
  repeat first
    [ solve [auto with keeps nocore]
    | progress intros
    | apply keeps_bind
    | case_match ].

Section Pieces.
Import Pvfs Rpc Giga Server Cache Split Handlers.
Context {W : Type} `{PvfsOps W} `{BucketRpc W} {Ml : Mislaid}.
#[local] Abbreviation M := (prog (server * W)).

Lemma keeps_servernum a : keeps a (servernum : M Z).
Proof. unfold servernum. keeps_tac. Qed.
Lemma keeps_fsid a : keeps a (pvfs_fsid : M Z).
Proof. unfold pvfs_fsid. keeps_tac. Qed.
Lemma keeps_isdir a c r : keeps a (isdir c r : M bool).
Proof. unfold isdir. keeps_tac. Qed.
Lemma keeps_overflow a c r : keeps a (isdir_overflow c r : M Z).
Proof. unfold isdir_overflow. keeps_tac. Qed.
Lemma keeps_mkdir_until a n c p x attr sv : keeps a (mkdir_until n c p x attr sv : M _).
Proof. induction n as [|n IH]; cbn [mkdir_until]; keeps_tac. Qed.
Hint Resolve keeps_servernum keeps_fsid keeps_isdir keeps_overflow keeps_mkdir_until : keeps.
Lemma keeps_mkdir_server a n c p x attr sv : keeps a (pvfs_mkdir_server n c p x attr sv : M _).
Proof. unfold pvfs_mkdir_server. keeps_tac. Qed.


(** Code that keeps the frame, run in the middle of a proof. *)
Lemma wp_keeps {A} a (m : M A) (Q : A -> server * W -> Prop) s0 s :
  keeps a m -> ready a s -> inner s0 s.1 ->
  (forall x s', ready a s' -> inner s0 s'.1 -> Q x s') -> wp disciplined m Q s.
Proof.
  intros Hm Hr Hi HQ. eapply wp_conseq; [by apply Hm|]. intros x s' Hs'. cbn beta in Hs'.
  apply HQ; [by apply (ready_inner a s)|by transitivity s.1].
Qed.

Lemma wp_deref a d (Q : skye_directory -> server * W -> Prop) s :
  heap s.1 !! a = Some d -> Q d s -> wp disciplined (deref a) Q s.
Proof. intros Hd HQ. eapply wp_Ret; [|done]. unfold deref. by rewrite Hd. Qed.

Lemma wp_tame {A} (m : outcome A) (Q : A -> server * W -> Prop) s :
  tame m -> (forall x, m = Ret x -> Q x s) -> wp disciplined (lift m) Q s.
Proof. intros Hm HQ. apply wp_lift. destruct m; [by apply HQ|done]. Qed.

Lemma wp_store' a d (Q : unit -> server * W -> Prop) s :
  Q tt (set_heap (<[a := d]> (heap s.1)) s.1, s.2) -> wp disciplined (store a d) Q s.
Proof. intros. by apply wp_modl. Qed.

Lemma wp_grow d (Q : skye_directory -> server * W -> Prop) s :
  (forall d' w, same_hold d d' -> Q d' (s.1, w)) -> wp disciplined (grow_handles d) Q s.
Proof.
  intros HQ. unfold grow_handles. apply wp_bind, wp_sys. intros ok w _. apply wp_bind, wp_tame; [apply tame_assert|].
  intros _ _. destruct (partition_handles d); [|by split].
  apply wp_bind, wp_tame; [apply tame_int|]. intros n _. by apply wp_ret, HQ.
Qed.

Lemma keeps_grow_store a d0 :
  (forall s, ready a s -> heap s.1 !! a = Some d0 ->
     wp disciplined (d ← grow_handles d0; store a d : M unit)
       (fun _ s' => inner s.1 s'.1) s).
Proof.
  intros s Hr Hd. apply wp_bind, wp_grow. intros d' w Hh. by apply (wp_store a d0 d' (s.1, w)).
Qed.

Lemma keeps_partition_handle c a i : keeps a (get_partition_handle c a i : M Z).
Proof.
  unfold get_partition_handle. apply keeps_deref_bind. intros s d Hr Hd. apply wp_bind.
  apply wp_tame; [apply tame_bucket_num|]. intros b _. apply wp_bind.
  apply wp_conseq with (Q := fun _ s' => inner s.1 s'.1).
  { case_match; [by apply keeps_grow_store|]. by apply wp_ret. }
  intros ? s1 H1. assert (Hr1 := ready_inner a s s1 Hr H1).
  destruct Hr1 as [[d1 Hd1] Hq1]. apply wp_bind. eapply wp_deref; [exact Hd1|].
  apply wp_bind, wp_lift. destruct (partition_handles d1) as [l|]; [|by split].
  apply wp_bind, wp_tame; [apply tame_read|]. intros h _. destruct (negb (h =? 0)); [by apply wp_ret|].
  unfold pvfs_fsid. apply wp_bind, wp_bind, wp_getl, wp_ret, wp_bind, wp_sys. intros [ret ref] w _.
  apply wp_bind, wp_tame; [apply tame_assert|]. intros _ _.
  apply wp_bind, wp_tame; [apply tame_write|]. intros l' _. apply wp_bind.
  eapply wp_conseq; [by apply (wp_store a d1 _ (s1.1, w))|]. intros ? s2 H2. apply wp_ret.
  by transitivity s1.1.
Qed.
Hint Resolve keeps_partition_handle keeps_mkdir_server : keeps.

Lemma keeps_enter_bucket c a name r b : keeps a (enter_bucket c a name r b : M _).
Proof. unfold enter_bucket. keeps_tac. Qed.

Lemma keeps_partition_from n c p path a i : keeps a (partition_from n c p path a i : M _).
Proof. revert i. induction n as [|n IH]; intros i; cbn [partition_from]; keeps_tac. Qed.

Lemma keeps_remove_bucket c a i : keeps a (remove_bucket c a i : M Z).
Proof.
  unfold remove_bucket. apply keeps_bind; [keeps_tac|intros d]. apply keeps_bind; [keeps_tac|intros rc].
  case_match; [keeps_tac|]. apply keeps_deref_bind. intros s d1 Hr Hd1. apply wp_bind.
  apply wp_tame; [apply tame_update_mapping_remove|]. intros m _. apply wp_bind.
  eapply wp_conseq; [by apply (wp_store a d1)|]. intros ? s2 H2. by apply wp_ret.
Qed.
Hint Resolve keeps_enter_bucket keeps_partition_from keeps_remove_bucket : keeps.

Lemma keeps_remove_entries c a l : keeps a (remove_entries c a l : M Z).
Proof.
  induction l as [|e l IH]; cbn [remove_entries]; [keeps_tac|].
  apply keeps_bind; [apply keeps_lift; by case_match|]. keeps_tac.
Qed.
Hint Resolve keeps_remove_entries : keeps.

Lemma keeps_remove_batches n c a t : keeps a (remove_batches n c a t : M Z).
Proof. revert t. induction n as [|n IH]; intros t; cbn [remove_batches]; keeps_tac. Qed.


Lemma dl_head_prev (h : gmap positive (Dl.node split_task)) a l :
  Dl.dl h (Some a) l ->
  exists z n, Dl.get_prev h (Some a) = Ret (Some z) /\ Dl.get h (Some z) = Ret (z, n).
Proof.
  intros (_ & Ha & Hl). symmetry in Ha. destruct (Hl O a Ha) as [x Hx].
  destruct (list.last l) as [z|] eqn:Ez; [|apply last_None in Ez; by subst].
  rewrite last_lookup in Ez. destruct (Hl _ z Ez) as [y Hy].
  exists z. eexists. split; [by rewrite (get_prev_ok h a _ Hx)|]. by apply get_ok.
Qed.

Lemma dl_enqueue (h : gmap positive (Dl.node split_task)) q l n :
  Dl.dl h q l -> let a := fresh (dom h) in
  exists h' q', Dl.DL_APPEND (<[a := n]> h) q (Some a) = Ret (h', q') /\
    Dl.dl h' q' (l ++ [a]).
Proof.
  intros (Hnd & Hq & Hl) a. assert (Hf : a ∉ dom h) by apply is_fresh.
  assert (Ha : a ∉ l).
  { intros Hin. apply list_elem_of_lookup in Hin as [i Hi]. apply Hf, elem_of_dom.
    by apply (links_lookup h l i). }
  destruct (DL_APPEND_dl (<[a := n]> h) q l a n) as (h' & E & Hdl & _).
  - split; [done|]. split; [done|]. intros i b Hb. destruct (Hl i b Hb) as [x Hx]. exists x.
    rewrite lookup_insert_ne; [done|]. intros <-. apply Ha. by eapply list_elem_of_lookup_2.
  - done.
  - by rewrite lookup_insert_eq.
  - eauto.
Qed.

(** The queue is locked and unlocked again, but for the return without memory. *)
Lemma keeps_perform_split self a r i :
  (forall w : W, (malloc w).1 = false -> mislaid (Some self)) -> keeps a (perform_split self r i : M unit).
Proof.
  intros Hml s Hr. unfold perform_split, lock_queue. apply wp_bind, wp_bind, wp_getl.
  destruct (queue_mutex s.1) as [t|] eqn:Em; [by split|]. apply wp_modl.
  destruct (Hr) as [_ [l Hl]]. apply wp_bind, wp_getl. cbn [fst snd queue tasks set_queue_mutex]. apply wp_bind.
  apply wp_conseq with (Q := fun _ s' => s' = (set_queue_mutex (Some self) s.1, s.2)).
  { destruct (queue s.1) as [b|] eqn:Eq; [|by apply wp_ret].
    destruct (dl_head_prev _ _ _ Hl) as (z & n & E1 & E2). apply wp_bind, wp_lift. rewrite E1.
    apply wp_bind, wp_lift. rewrite E2. by apply wp_ret. }
  intros last s' ->. destruct (match last with Some t => _ | None => _ end).
  { apply wp_modl. apply inner_local; try done. by left. }
  apply wp_bind, wp_sys. intros ok w Ew. cbn [fst snd] in Ew. destruct ok; cbn [negb].
  2: { apply wp_ret. apply inner_local; try done. right. apply (Hml s.2). by rewrite Ew. }
  destruct (dl_enqueue (tasks s.1) (queue s.1) l (Dl.mkNode None None (mkTask r i)) Hl)
    as (h' & q' & E & Hdl). apply wp_bind, wp_lift. rewrite E.
  apply wp_bind, wp_modl, wp_modl. apply inner_local; try done; [intros _; by eexists|by left].
Qed.

Lemma keeps_maybe_split self c a f r :
  (forall w : W, (malloc w).1 = false -> mislaid (Some self)) -> keeps a (maybe_split self c a f r : M unit).
Proof.
  intros Hml. assert (Hp := fun r i => keeps_perform_split self a r i Hml). unfold maybe_split. apply keeps_bind; [keeps_tac|intros d]. case_match; [keeps_tac|].
  apply keeps_bind; [keeps_tac|intros s]. apply keeps_bind; [keeps_tac|intros n].
  apply keeps_bind; [intros s0 _; apply wp_modl; apply inner_local; try done; by left|]. keeps_tac.
Qed.

End Pieces.

#[export] Hint Resolve keeps_servernum keeps_fsid keeps_isdir keeps_overflow keeps_mkdir_server
  keeps_partition_handle keeps_enter_bucket keeps_partition_from keeps_remove_bucket
  keeps_remove_batches : keeps.

(** ** Fetching and returning a directory *)

Section Holding.
Import Pvfs Rpc Giga Server Cache Split Handlers.
Context {W : Type} `{PvfsOps W} `{BucketRpc W} {Ml : Mislaid}.
#[local] Abbreviation M := (prog (server * W)).
#[local] Abbreviation St := (server * W)%type.
Variable self : Z.
Variable fuel : nat.

(** The cache between requests of thread [self]: the table points to live
    objects, every live object is counted, and the thread holds no write lock. *)
Record sound (s : server) : Prop := mkSound {
  sound_table : forall r a, dircache s !! r = Some a ->
    exists d, heap s !! a = Some d /\ Server.handle d = r;
  sound_count : forall a d, heap s !! a = Some d ->
    1 <= refcount d < 2 ^ 31 - 1 /\ 0 <= Rwlock.readers (rwlock d) /\
    Rwlock.writer (rwlock d) <> Some self;
  sound_queue : queue_ok s
}.

(** Every reference and lock is as before; directories that were not cached yet
    may have entered the table, unlocked and counted once. *)
Record balanced (s s' : server) : Prop := mkBalanced {
  bal_conn : conn s' = conn s;
  bal_flow : flow_sem s' = flow_sem s;
  bal_old : forall a d, heap s !! a = Some d -> exists d', heap s' !! a = Some d' /\ same_hold d d';
  bal_new : forall a d', heap s' !! a = Some d' -> heap s !! a = None ->
    refcount d' = 1 /\ rwlock d' = Rwlock.unlocked /\ splitting_index d' = -1 /\
    dircache s' !! Server.handle d' = Some a;
  bal_table : forall r a, dircache s !! r = Some a -> dircache s' !! r = Some a;
  bal_entries : forall r a, dircache s' !! r = Some a -> dircache s !! r = Some a \/
    heap s !! a = None /\ exists d', heap s' !! a = Some d' /\ Server.handle d' = r;
  bal_queue : queue_ok s -> queue_ok s';
  bal_mutex : queue_mutex s' = queue_mutex s \/ mislaid (queue_mutex s')
}.

Lemma balanced_refl s : balanced s s.
Proof.
  split; try done; [|by intros a d -> |by left|by left]. intros a d Hd. exists d. by split.
Qed.

Lemma balanced_trans s1 s2 s3 : balanced s1 s2 -> balanced s2 s3 -> balanced s1 s3.
Proof.
  intros [A1 A2 A3 A4 A5 A6 A7 A8] [B1 B2 B3 B4 B5 B6 B7 B8].
  assert (Hnew : forall a, heap s2 !! a = None -> heap s1 !! a = None).
  { intros a Ha. destruct (heap s1 !! a) as [d|] eqn:E; [|done]. destruct (A3 a d E) as (d' & E' & _). congruence. }
  split; [congruence|congruence| | |auto| |auto|].
  - intros a d Hd. destruct (A3 a d Hd) as (d2 & H2 & S2). destruct (B3 a d2 H2) as (d3 & H3 & S3).
    exists d3. split; [done|]. by transitivity d2.
  - intros a d3 H3 Ha. destruct (heap s2 !! a) as [d2|] eqn:E2; [|by apply B4].
    destruct (B3 a d2 E2) as (d3' & H3' & E). rewrite H3 in H3'. injection H3' as <-.
    destruct E as (-> & -> & -> & ->), (A4 a d2 E2 Ha) as (? & ? & ? & ?). auto.
  - intros r a Hr. destruct (B6 r a Hr) as [Hr2|(Hn & Hx)]; [|right; auto].
    destruct (A6 r a Hr2) as [|(Hn & d' & Hd' & <-)]; [by left|right]. split; [done|].
    destruct (B3 a d' Hd') as (d3 & H3 & _ & _ & E & _). exists d3. done.
  - destruct B8 as [->|]; [done|by right].
Qed.

Lemma balanced_sound s s' : sound s -> balanced s s' -> sound s'.
Proof.
  intros [St Sc Sq] [_ _ Bo Bn _ Be Bq _]. split; [| |auto].
  - intros r a Ha. destruct (Be r a Ha) as [Ha'|(_ & d' & Hd' & Hr)]; [|eauto].
    destruct (St r a Ha') as (d & Hd & Hr). destruct (Bo a d Hd) as (d' & Hd' & _ & _ & E & _).
    exists d'. split; [done|congruence].
  - intros a d' Hd'. destruct (heap s !! a) as [d|] eqn:Hd.
    + destruct (Bo a d Hd) as (d2 & Hd2 & E1 & E2 & _). rewrite Hd' in Hd2. injection Hd2 as <-.
      rewrite E1, E2. by apply (Sc a).
    + destruct (Bn a d' Hd' Hd) as (-> & -> & _). cbn. split; [lia|]. split; [lia|done].
Qed.

(** [d'] is [d] with one more reference and a lock of this thread. *)
Definition grabbed (d d' : skye_directory) : Prop :=
  refcount d' = refcount d + 1 /\ Rwlock.unlock self (rwlock d') = Ret (rwlock d) /\
  Server.handle d' = Server.handle d /\ splitting_index d' = splitting_index d.

(** Since [s] the thread has taken directory [a] and nothing else. *)
Definition holding (s : server) (a : positive) (s' : server) : Prop :=
  exists s0 d d', balanced s s0 /\ heap s0 !! a = Some d /\ dircache s0 !! Server.handle d = Some a /\ grabbed d d' /\
    inner (set_heap (<[a := d']> (heap s0)) s0) s'.

Lemma holding_ready s a (s' : St) : sound s -> holding s a s'.1 -> ready a s'.
Proof.
  intros Hs (s0 & d & d' & Hb & Hd & _ & Hg & Hi). assert (Hs0 := balanced_sound _ _ Hs Hb).
  apply (ready_inner a (set_heap (<[a := d']> (heap s0)) s0, s'.2)); [|done].
  split; cbn; [by rewrite lookup_insert_eq; eexists|apply Hs0].
Qed.

Lemma wp_holding {A} s a (m : M A) (Q : A -> St -> Prop) s1 :
  keeps a m -> sound s -> holding s a s1.1 ->
  (forall x s2, holding s a s2.1 -> Q x s2) -> wp disciplined m Q s1.
Proof.
  intros Hm Hs Hh HQ. eapply wp_keeps; [done|by eapply holding_ready|reflexivity|].
  intros x s2 _ Hi. apply HQ. destruct Hh as (s0 & d & d' & Hb & Hd & Ht & Hg & Hi0).
  exists s0, d, d'. split_and!; try done. by transitivity s1.1.
Qed.

Lemma fill_bitmap_tame m r (w : W) :
  match fill_bitmap fuel m r w with Ret _ => True | Crash c => disciplined c end.
Proof.
  unfold fill_bitmap. destruct (PVFS_util_gen_credentials w) as [c w1].
  generalize 0 as t. revert m w1. induction fuel as [|n IH]; intros m w1 t; [by split|].
  cbn [fill_batches]. destruct (PVFS_sys_readdir _ _ _ _ w1) as [[ret rd] w2].
  destruct (ret <? 0); [done|]. assert (Ht := tame_fill_entries m (dirent_array rd)).
  destruct (fill_entries m _) as [m'|]; cbn; [|done]. destruct (_ =? _); [apply IH|done].
Qed.

Lemma balanced_new s r a d :
  dircache s !! r = None -> heap s !! a = None ->
  refcount d = 1 -> rwlock d = Rwlock.unlocked -> splitting_index d = -1 -> Server.handle d = r ->
  balanced s (set_heap (<[a := d]> (heap s)) (set_dircache (<[r := a]> (dircache s)) s)).
Proof.
  intros Hr Ha H1 H2 H3 H4. split; cbn; try done; [| | | |by left].
  - intros b x Hx. exists x. rewrite lookup_insert_ne by congruence. by split.
  - intros b x Hx Hb. destruct (decide (b = a)) as [->|].
    + rewrite lookup_insert_eq in Hx. injection Hx as <-. by rewrite H4, lookup_insert_eq.
    + rewrite lookup_insert_ne in Hx by done. congruence.
  - intros q b Hq. rewrite lookup_insert_ne by congruence. done.
  - intros q b Hq. destruct (decide (q = r)) as [->|].
    + rewrite lookup_insert_eq in Hq. injection Hq as <-. right. split; [done|].
      exists d. by rewrite lookup_insert_eq.
    + rewrite lookup_insert_ne in Hq by done. by left.
Qed.

(** A directory object could not be made. *)
Definition unallocated : Prop :=
  (exists w : W, (malloc w).1 = false) \/ exists w : W, (pthread_rwlock_init w).1 <> 0.

Lemma wp_new_directory (s : St) r (Q : option positive -> St -> Prop) :
  dircache s.1 !! r = None ->
  (unallocated -> forall w, Q None (s.1, w)) ->
  (forall a s', balanced s.1 s'.1 -> dircache s'.1 !! r = Some a -> is_Some (heap s'.1 !! a) ->
     Q (Some a) s') ->
  wp disciplined (new_directory fuel r : M _) Q s.
Proof.
  intros Hr HN HS. unfold new_directory. apply wp_bind, wp_sys. intros ok w Ew.
  destruct ok; cbn [negb]; [|apply wp_ret, HN; left; exists s.2; by rewrite Ew].
  apply wp_bind, wp_sys. intros cal w1 _. apply wp_bind, wp_sys. intros rc w2 Ew2. cbn [fst snd] in Ew2.
  destruct (Z.eqb_spec rc 0) as [->|Hrc]; cbn [negb]; [|apply wp_ret, HN; right; exists w1; by rewrite Ew2].
  apply wp_bind, wp_getl. apply wp_bind, wp_in_world. cbn [fst snd].
  assert (Ht := pvfs_get_mds_tame (conn s.1) r w2). unfold wp.
  destruct (Conn.pvfs_get_mds (conn s.1) r w2) as [[z w3]|]; [|done].
  apply wp_bind, wp_tame; [apply tame_init_mapping|]. intros m _.
  apply wp_bind, wp_store', wp_bind. apply wp_modl. cbn [fst snd].
  apply wp_bind, wp_in_world. cbn [fst snd]. assert (Hf := fill_bitmap_tame m r w3). unfold wp.
  destruct (fill_bitmap fuel m r w3) as [[m' w4]|]; [|done].
  set (a := fresh (dom (heap s.1))). assert (Ha : heap s.1 !! a = None) by (apply not_elem_of_dom, is_fresh).
  apply wp_bind. unfold update. apply wp_bind. eapply wp_deref; [cbn; by rewrite lookup_insert_eq|].
  apply wp_store', wp_ret. apply HS; cbn; rewrite ?insert_insert_eq.
  - by refine (balanced_new s.1 r a (mkDir m' 1 r (-1) Rwlock.unlocked _ _) Hr Ha _ _ _ _).
  - by rewrite lookup_insert_eq.
  - rewrite lookup_insert_eq. by eexists.
Qed.


(** [fetch] adds one reference to the object it returns. *)
Lemma wp_fetch (s : St) r (Q : option positive -> St -> Prop) :
  sound s.1 ->
  (unallocated -> forall w, Q None (s.1, w)) ->
  (forall a s0 d w, balanced s.1 s0 -> heap s0 !! a = Some d -> dircache s0 !! Server.handle d = Some a ->
     Q (Some a) (set_heap (<[a := set_refcount (refcount d + 1) d]> (heap s0)) s0, w)) ->
  wp disciplined (fetch fuel r : M _) Q s.
Proof.
  intros Hs HN HS. unfold fetch. apply wp_bind, wp_getl, wp_bind.
  apply wp_conseq with (Q := fun p s' => match p with
    | None => unallocated /\ s'.1 = s.1
    | Some a => balanced s.1 s'.1 /\ dircache s'.1 !! r = Some a /\ is_Some (heap s'.1 !! a) end).
  { destruct (dircache s.1 !! r) as [a|] eqn:Ea.
    - apply wp_ret. destruct (sound_table _ Hs r a Ea) as (d & Hd & _).
      split; [apply balanced_refl|]. split; [done|by eexists].
    - by apply wp_new_directory. }
  intros [a|] s1; [|intros [Hu E]; apply wp_ret; destruct s1; cbn in E; subst; by apply HN].
  intros (Hb & Ha & d & Hd). unfold update. apply wp_bind, wp_bind. eapply wp_deref; [exact Hd|].
  apply wp_store', wp_ret. assert (Hc := sound_count _ (balanced_sound _ _ Hs Hb) a d Hd).
  rewrite i32_small by lia. apply HS; [done|done|].
  destruct (sound_table _ (balanced_sound _ _ Hs Hb) r a Ha) as (d' & Hd' & <-). rewrite Hd in Hd'. by injection Hd' as <-.
Qed.

Lemma holding_intro s s0 a d d' :
  balanced s s0 -> heap s0 !! a = Some d -> dircache s0 !! Server.handle d = Some a -> grabbed d d' ->
  holding s a (set_heap (<[a := d']> (heap s0)) s0).
Proof. intros. exists s0, d, d'. split_and!; try done. Qed.

(** Locking the object after [fetch], when it does not block. *)
Lemma wp_lock_fetched s s0 a d op w (Q : unit -> St -> Prop) :
  (op = Rwlock.rdlock self \/ op = Rwlock.wrlock self) ->
  sound s0 -> balanced s s0 -> heap s0 !! a = Some d -> dircache s0 !! Server.handle d = Some a ->
  (forall s1 w, holding s a s1 -> Q tt (s1, w)) ->
  wp disciplined (lock_with op a : M unit) Q
    (set_heap (<[a := set_refcount (refcount d + 1) d]> (heap s0)) s0, w).
Proof.
  intros Hop Hs0 Hb Hd Htb HQ. unfold lock_with. apply wp_bind.
  eapply wp_deref; [cbn; by rewrite lookup_insert_eq|]. apply wp_bind, wp_lift.
  destruct (sound_count _ Hs0 a d Hd) as (Hc & Hr & Hw). cbn [rwlock set_refcount].
  assert (Hrun : match op (rwlock d) with
    | Ret (_, l) => Rwlock.unlock self l = Ret (rwlock d) | Crash c => disciplined c end).
  { destruct (rwlock d) as [n [t|]] eqn:El; cbn in Hr, Hw.
    - assert (t <> self) by congruence. destruct Hop as [-> | ->]; cbn;
        destruct (Z.eqb_spec t self); by try split.
    - destruct Hop as [-> | ->]; cbn.
      + unfold Rwlock.unlock. cbn. destruct (Z.ltb_spec 0 (n + 1)); [|lia].
        by replace (n + 1 - 1) with n by lia.
      + destruct (Z.eqb_spec n 0) as [->|]; [|by split]. cbn. by rewrite Z.eqb_refl. }
  destruct (op (rwlock d)) as [[rc l]|]; [|done]. apply wp_store'. cbn [fst snd].
  replace (set_heap _ (set_heap _ _)) with (set_heap (<[a := set_rwlock l (set_refcount (refcount d + 1) d)]> (heap s0)) s0)
    by (unfold set_heap; cbn; by rewrite insert_insert_eq).
  apply HQ. by eapply holding_intro.
Qed.

Lemma wp_cache_fetch (s : St) r (Q : option positive -> St -> Prop) :
  sound s.1 -> (unallocated -> forall w, Q None (s.1, w)) ->
  (forall a s', holding s.1 a s'.1 -> Q (Some a) s') ->
  wp disciplined (cache_fetch self fuel r : M _) Q s.
Proof.
  intros Hs HN HS. unfold cache_fetch. apply wp_bind, wp_fetch; [done|intros; apply wp_ret; auto|].
  intros a s0 d w Hb Hd Htb. apply wp_bind. apply (wp_lock_fetched s.1); [by left| |done..|].
  - by eapply balanced_sound.
  - intros s1 w1 Hh. by apply wp_ret, HS.
Qed.

Lemma wp_cache_fetch_w (s : St) r (Q : option positive -> St -> Prop) :
  sound s.1 -> (unallocated -> forall w, Q None (s.1, w)) ->
  (forall a s', holding s.1 a s'.1 -> Q (Some a) s') ->
  wp disciplined (cache_fetch_w self fuel r : M _) Q s.
Proof.
  intros Hs HN HS. unfold cache_fetch_w. apply wp_bind, wp_fetch; [done|intros; apply wp_ret; auto|].
  intros a s0 d w Hb Hd Htb. apply wp_bind, wp_sys. intros t w0 _. apply wp_bind.
  apply (wp_lock_fetched s.1); [by right| |done..|].
  - by eapply balanced_sound.
  - intros s1 w1 Hh. apply wp_bind, wp_sys. intros t' w2 _. by apply wp_ret, HS.
Qed.

(** Returning the directory restores the balance. *)
Lemma balanced_put s s0 s1 a d d' d2 :
  balanced s s0 -> heap s0 !! a = Some d ->
  inner (set_heap (<[a := d']> (heap s0)) s0) s1 ->
  same_hold d d2 -> balanced s (set_heap (<[a := d2]> (heap s1)) s1).
Proof.
  intros [Bc Bf Bo Bn Bt Be Bq Bm] Hd [Ic It If Ih Iq Im] Hh. cbn in *.
  assert (Hother : forall b, b <> a -> option_Forall2 same_hold (heap s0 !! b) (heap s1 !! b)).
  { intros b Hb. specialize (Ih b). by rewrite lookup_insert_ne in Ih. }
  split; cbn; rewrite ?It, ?Ic, ?If; try done.
  - intros b x Hx. destruct (Bo b x Hx) as (y & Hy & Hxy). destruct (decide (b = a)) as [->|Hb].
    + rewrite lookup_insert_eq. exists d2. split; [done|]. rewrite Hd in Hy. injection Hy as <-.
      by etransitivity.
    + rewrite lookup_insert_ne by done. specialize (Hother b Hb). rewrite Hy in Hother.
      inversion Hother as [? z Hz E1 E2|]; subst. exists z. split; [done|by etransitivity].
  - intros b x Hx Hb. destruct (decide (b = a)) as [->|Hne].
    + rewrite lookup_insert_eq in Hx. injection Hx as <-.
      destruct Hh as (-> & -> & -> & ->). by apply Bn.
    + rewrite lookup_insert_ne in Hx by done. specialize (Hother b Hne). rewrite Hx in Hother.
      inversion Hother as [y z Hyz E1 E2|]; subst. destruct Hyz as (-> & -> & -> & ->). by apply Bn.
  - intros r b Hr. destruct (Be r b Hr) as [|(Hb & y & Hy & Er)]; [by left|]. right. split; [done|].
    destruct (decide (b = a)) as [->|Hne].
    + rewrite lookup_insert_eq. exists d2. split; [done|]. rewrite Hd in Hy. injection Hy as <-.
      by destruct Hh as (_ & _ & -> & _).
    + rewrite lookup_insert_ne by done. specialize (Hother b Hne). rewrite Hy in Hother.
      inversion Hother as [y' z Hyz E1 E2|]; subst. exists z. split; [done|].
      by destruct Hyz as (_ & _ & -> & _).
  - intros Hq. apply Bq, Iq in Hq. by unfold queue_ok in *.
  - destruct Im as [->|]; [done|by right].
Qed.

Lemma wp_cache_return s a (s1 : St) (Q : unit -> St -> Prop) :
  sound s -> holding s a s1.1 -> (forall s2, balanced s s2 -> Q tt (s2, s1.2)) ->
  wp disciplined (cache_return self a : M unit) Q s1.
Proof.
  intros Hs (s0 & d & d' & Hb & Hd & _ & (Hc & Hu & Hh & Hsp) & Hi) HQ.
  assert (Hs0 := balanced_sound _ _ Hs Hb). destruct (sound_count _ Hs0 a d Hd) as (Hc0 & _ & _).
  assert (Hh1 := inner_heap _ _ Hi a). cbn in Hh1. rewrite lookup_insert_eq in Hh1.
  inversion Hh1 as [d0 x Hx0 Ex Hx|]; subst. symmetry in Hx. destruct Hx0 as (E1 & E2 & E3 & E4).
  unfold cache_return, unlock_dir. apply wp_bind, wp_bind. eapply wp_deref; [exact Hx|].
  apply wp_bind, wp_lift. rewrite E2, Hu. apply wp_store', wp_bind.
  eapply wp_deref; [cbn; by rewrite lookup_insert_eq|]. cbn [refcount set_rwlock].
  apply wp_bind, wp_lift. rewrite E1, Hc. unfold c_assert. destruct (Z.ltb_spec 0 (refcount d + 1)); [|lia].
  rewrite i32_small by lia. apply wp_bind, wp_store'. cbn [fst snd].
  destruct (Z.eqb_spec (refcount d + 1 - 1) 0); [lia|]. apply wp_ret.
  replace (set_heap _ (set_heap _ _)) with
    (set_heap (<[a := set_refcount (refcount d + 1 - 1) (set_rwlock (rwlock d) x)]> (heap s1.1)) s1.1)
    by (unfold set_heap; cbn; by rewrite insert_insert_eq).
  apply HQ. eapply balanced_put; [done|done|done|]. split_and!; cbn; [lia|done|congruence|congruence].
Qed.

End Holding.

(** ** The handlers *)

Section Serving.
Import Pvfs Rpc Giga Server Cache Split Handlers.
Context {W : Type} `{PvfsOps W} `{BucketRpc W} {Ml : Mislaid}.
#[local] Abbreviation M := (prog (server * W)).
#[local] Abbreviation St := (server * W)%type.
Variable self : Z.
Variable fuel : nat.

(** The requests whose handlers take a directory and give it back. *)
Inductive request : Type :=
| Lookup (c : PVFS_credentials) (p : PVFS_object_ref) (name : string)
| Partition (c : PVFS_credentials) (p : PVFS_object_ref) (name : string)
| Create (c : PVFS_credentials) (p : PVFS_object_ref) (name : string) (mode : Z)
| Mkdir (c : PVFS_credentials) (p : PVFS_object_ref) (name : string) (mode : Z)
| Rename (c : PVFS_credentials) (src : string) (sp : PVFS_object_ref) (dst : string) (dp : PVFS_object_ref)
| Remove (c : PVFS_credentials) (p : PVFS_object_ref) (name : string)
| Bucket_add (p : PVFS_object_ref) (index : Z)
| Bucket_remove (c : PVFS_credentials) (p : PVFS_object_ref) (index : Z).

(** The handler of a request, and its answer; the calls between servers answer
    a number only. *)
Definition serve (q : request) : M skye_lookup :=
  match q with
  | Lookup c p n => skye_rpc_lookup_1_svc self fuel c p n
  | Partition c p n => skye_rpc_partition_1_svc self fuel c p n
  | Create c p n m => skye_rpc_create_1_svc self fuel c p n m
  | Mkdir c p n m => skye_rpc_mkdir_1_svc self fuel c p n m
  | Rename c s sp d dp => skye_rpc_rename_1_svc self fuel c s sp d dp
  | Remove c p n => skye_rpc_remove_1_svc self fuel c p n
  | Bucket_add p i => _ ← skye_rpc_bucket_add_1_svc self fuel p i; mret (mkLookup 0 U_none)
  | Bucket_remove c p i => rc ← skye_rpc_bucket_remove_1_svc self fuel c p i; mret (mkLookup rc U_none)
  end.

(** The state after [flow_start] returned [f]. *)
Definition flowed (f : Z) (s s1 : server) : Prop :=
  f = 0 /\ s1 = set_flow_sem (flow_sem s - 1) s \/ f = -1 /\ s1 = s.

Lemma wp_flow_start (s : St) (Q : Z -> St -> Prop) :
  sound self s.1 -> (forall f s1 w, flowed f s.1 s1 -> sound self s1 -> Q f (s1, w)) ->
  wp disciplined (flow_start : M Z) Q s.
Proof.
  intros [S1 S2 S3] HQ. unfold flow_start. apply wp_bind, wp_getl. destruct (0 <? flow_sem s.1).
  - apply wp_bind, wp_modl, wp_ret, HQ; [by left|by split].
  - apply wp_bind, wp_sys. intros [] w _; [|by split]. apply wp_ret, HQ; [by right|by split].
Qed.

Lemma wp_flow_stop f s s1 (s2 : St) (Q : unit -> St -> Prop) :
  flowed f s s1 -> balanced s1 s2.1 -> (forall s3, balanced s s3 -> Q tt (s3, s2.2)) ->
  wp disciplined (flow_stop f : M unit) Q s2.
Proof.
  intros Hf Hb HQ. unfold flow_stop. destruct Hf as [[-> ->] | [-> ->]]; cbn [Z.eqb].
  - apply wp_bind, wp_getl, wp_modl, HQ. destruct Hb as [B1 B2 B3 B4 B5 B6 B7 B8]. cbn in *.
    split; try done. cbn. lia.
  - apply wp_ret. destruct s2. by apply HQ.
Qed.

(** The tail of every handler. *)
Lemma wp_finish {A} s f s1 a (s2 : St) (k : M A) (Q : A -> St -> Prop) :
  flowed f s s1 -> sound self s1 -> holding self s1 a s2.1 ->
  (forall s', balanced s s'.1 -> wp disciplined k Q s') ->
  wp disciplined (_ ← cache_return self a; _ ← flow_stop f; k) Q s2.
Proof.
  intros Hf Hs Hh HQ. apply wp_bind. eapply wp_cache_return; [done..|]. intros s3 Hb. apply wp_bind.
  eapply wp_flow_stop; [done..|]. intros s4 Hb4. by apply HQ.
Qed.

(** The three handlers that return without flow_stop when there is no directory object. *)
Definition keeps_unit (q : request) : bool :=
  match q with Lookup _ _ _ | Partition _ _ _ | Create _ _ _ _ => true | _ => false end.

Definition is_remove (q : request) : bool := match q with Remove _ _ _ => true | _ => false end.

(** Directory [a], which is [d] between requests, out of the table; [o] is its object now. *)
Definition destroyed (a : positive) (d : skye_directory) (o : option skye_directory) (s : server) : server :=
  set_dircache (delete (Server.handle d) (dircache s)) (set_heap (match o with Some d' => <[a := d']> (heap s) | None => delete a (heap s) end) s).

(** A directory was removed: its object is gone, or is still there for the other threads that
    have a reference, with the lock that this thread does not release. *)
Inductive ruined (s : server) : server -> Prop :=
| ruined_freed s0 a d : balanced s s0 -> heap s0 !! a = Some d ->
    dircache s0 !! Server.handle d = Some a -> refcount d = 1 -> ruined s (destroyed a d None s0)
| ruined_locked s0 a d d' : balanced s s0 -> heap s0 !! a = Some d ->
    dircache s0 !! Server.handle d = Some a -> 1 < refcount d -> refcount d' = refcount d - 1 ->
    Server.handle d' = Server.handle d -> Rwlock.unlock self (rwlock d') = Ret (rwlock d) ->
    ruined s (destroyed a d (Some d') s0).

(** What the handler of [q] leaves behind when it answers [err]: everything as it was; or a unit
    of the flow semaphore less, when no directory object could be made; or a removed directory. *)
Inductive settled (q : request) (s : server) (err : Z) : server -> Prop :=
| settled_balanced s' : balanced s s' -> settled q s err s'
| settled_unit : keeps_unit q = true -> err = - EIO -> unallocated (W := W) ->
    settled q s err (set_flow_sem (flow_sem s - 1) s)
| settled_ruined s' : is_remove q = true -> ruined s s' -> settled q s err s'.

Lemma settled_unfetched q s f s1 : keeps_unit q = true -> unallocated (W := W) -> flowed f s s1 -> settled q s (- EIO) s1.
Proof. intros Hq Hu [[_ ->] | [_ ->]]; [by apply settled_unit|apply settled_balanced, balanced_refl]. Qed.

(** No lock is left with this thread. *)
Definition unlocked_by (s : server) : Prop := forall a d, heap s !! a = Some d -> Rwlock.writer (rwlock d) <> Some self.

Lemma destroyed_sound s a d o : sound self s -> heap s !! a = Some d -> dircache s !! Server.handle d = Some a ->
  (forall d', o = Some d' -> 1 <= refcount d' < 2 ^ 31 - 1 /\ 0 <= Rwlock.readers (rwlock d')) ->
  unlocked_by (destroyed a d o s) -> sound self (destroyed a d o s).
Proof.
  intros [St Sc Sq] Hd Ht Ho Hu.
  assert (Hne : forall b, b <> a -> heap (destroyed a d o s) !! b = heap s !! b).
  { intros b Hb. cbn. destruct o; [by rewrite lookup_insert_ne|by rewrite lookup_delete_ne]. }
  assert (He : heap (destroyed a d o s) !! a = o) by (cbn; destruct o; [by rewrite lookup_insert_eq|by rewrite lookup_delete_eq]).
  split; [| |done].
  - intros r b Hb. cbn [dircache destroyed set_dircache] in Hb. apply lookup_delete_Some in Hb as [Hr Hb].
    destruct (St r b Hb) as (x & Hx & Er).
    exists x. split; [|done]. rewrite Hne; [done|]. intros ->. rewrite Hd in Hx. congruence.
  - intros b x Hx. assert (Hw := Hu b x Hx). destruct (decide (b = a)) as [->|Hb].
    + rewrite He in Hx. destruct (Ho x Hx). done.
    + rewrite Hne in Hx by done. destruct (Sc b x Hx) as (? & ? & ?). done.
Qed.

Lemma settled_sound q s err s' : sound self s -> settled q s err s' -> unlocked_by s' -> sound self s'.
Proof.
  intros Hs Hset Hu. destruct Hset as [s' Hb|_ _ _|s' _ [s0 a d Hb Hd Ht _|s0 a d d' Hb Hd Ht Hc Hc' _ Hl]].
  - by eapply balanced_sound.
  - by destruct Hs.
  - apply destroyed_sound; try done. by eapply balanced_sound.
  - assert (Hs0 := balanced_sound _ _ _ Hs Hb). destruct (sound_count _ _ Hs0 a d Hd) as (Hr & Hn & _).
    apply destroyed_sound; try done. intros x [= <-]. split; [lia|]. unfold Rwlock.unlock in Hl.
    destruct (rwlock d) as [n0 t0], (rwlock d') as [n [t|]]; cbn in *; repeat case_match; simplify_eq; cbn in *; lia.
Qed.

Lemma ruined_after s s1 s2 : balanced s s1 -> ruined s1 s2 -> ruined s s2.
Proof.
  intros Hb [s0 a d Hb0 Hd Ht Hc|s0 a d d' Hb0 Hd Ht Hc Hc' Hh Hl].
  - apply ruined_freed; try done. by eapply balanced_trans.
  - apply ruined_locked; try done. by eapply balanced_trans.
Qed.

(** A directory that is held is destroyed. *)
Lemma wp_cache_destroy s a (s1 : St) (Q : unit -> St -> Prop) :
  sound self s -> holding self s a s1.1 -> (forall s2, ruined s s2 -> Q tt (s2, s1.2)) ->
  wp disciplined (cache_destroy a : M unit) Q s1.
Proof.
  intros Hs (s0 & d & d' & Hb & Hd & Htb & (Hc & Hu & Hh & Hsp) & Hi) HQ.
  assert (Hs0 := balanced_sound _ _ _ Hs Hb). destruct (sound_count _ _ Hs0 a d Hd) as (Hc0 & _ & _).
  assert (Hh1 := inner_heap _ _ Hi a). cbn in Hh1. rewrite lookup_insert_eq in Hh1.
  inversion Hh1 as [d0 x Hx0 Ex Hx|]; subst. symmetry in Hx. destruct Hx0 as (E1 & E2 & E3 & E4).
  unfold cache_destroy, hash_del. apply wp_bind. eapply wp_deref; [exact Hx|]. apply wp_bind, wp_lift.
  rewrite c_assert_true by lia. rewrite i32_small by lia. apply wp_bind, wp_store', wp_bind, wp_bind.
  eapply wp_deref; [cbn; by rewrite lookup_insert_eq|]. apply wp_modl, wp_bind. cbn [fst snd].
  eapply wp_deref; [cbn; by rewrite lookup_insert_eq|]. cbn [refcount set_refcount]. rewrite i32_small by lia.
  apply wp_bind, wp_store'. cbn [fst snd Server.handle set_refcount].
  set (d2 := set_rwlock (rwlock d) (set_refcount (refcount d) x)). set (B := set_heap (<[a := d2]> (heap s1.1)) s1.1).
  assert (HB : balanced s B) by (eapply balanced_put; [done|done|done|]; split_and!; cbn; [done|done|congruence|congruence]).
  assert (HBd : heap B !! a = Some d2) by (cbn; by rewrite lookup_insert_eq).
  assert (HBt : dircache B !! Server.handle d2 = Some a) by (cbn; rewrite (inner_table _ _ Hi), E3, Hh; exact Htb).
  destruct (Z.eqb_spec (refcount x - 1 - 1) 0) as [E0|Hn0].
  - apply wp_bind. eapply wp_deref; [cbn; by rewrite lookup_insert_eq|]. apply wp_modl. cbn [fst snd].
    replace (set_heap _ _) with (destroyed a d2 None B); [apply HQ, ruined_freed; try done; cbn; lia|].
    unfold destroyed, B, set_heap, set_dircache. cbn. by rewrite !delete_insert_eq.
  - apply wp_ret. set (x' := set_refcount (refcount x - 1 - 1) (set_refcount (refcount x - 1) x)).
    replace (set_heap _ _) with (destroyed a d2 (Some x') B);
      [apply HQ, ruined_locked; try done; cbn; try lia; by rewrite E2|].
    unfold destroyed, B, set_heap, set_dircache. cbn. by rewrite !insert_insert_eq.
Qed.

Lemma wp_flow_ruined f s s1 (s2 : St) (Q : unit -> St -> Prop) :
  flowed f s s1 -> ruined s1 s2.1 -> (forall s3, ruined s s3 -> Q tt (s3, s2.2)) ->
  wp disciplined (flow_stop f : M unit) Q s2.
Proof.
  intros Hf Hr HQ. unfold flow_stop. destruct Hf as [[-> ->] | [-> ->]]; cbn [Z.eqb]; [|apply wp_ret; destruct s2; by apply HQ].
  apply wp_bind, wp_getl, wp_modl, HQ.
  assert (Hup : forall s0, balanced (set_flow_sem (flow_sem s - 1) s) s0 -> balanced s (set_flow_sem (flow_sem s0 + 1) s0)).
  { intros s0 [B1 B2 B3 B4 B5 B6 B7 B8]. cbn in *. split; try done. cbn. lia. }
  destruct Hr as [s0 a d Hb Hd Ht Hc|s0 a d d' Hb Hd Ht Hc Hc' Hh Hl].
  - exact (ruined_freed s _ a d (Hup _ Hb) Hd Ht Hc).
  - exact (ruined_locked s _ a d d' (Hup _ Hb) Hd Ht Hc Hc' Hh Hl).
Qed.

End Serving.

(** Run code that keeps the frame while a directory is held. *)
Ltac hold_step :=
  apply wp_bind; eapply wp_holding; [solve [keeps_tac]|eassumption|eassumption|intros ? ? ?].

(** Enter a handler: the flow semaphore and the fetch of its directory. *)
Ltac enter_handler :=
  apply wp_bind; eapply wp_flow_start; [eassumption|intros f s1 w Hf Hs1];
  apply wp_bind, wp_cache_fetch; [done| |].

Section Serving2.
Import Pvfs Rpc Giga Server Cache Split Handlers.
Context {W : Type} `{PvfsOps W} `{BucketRpc W} {Ml : Mislaid}.
#[local] Abbreviation M := (prog (server * W)).
#[local] Abbreviation St := (server * W)%type.
Variable self : Z.
Variable fuel : nat.

Lemma lookup_settled c p n (s : St) :
  sound self s.1 -> wp disciplined (serve self fuel (Lookup c p n)) (fun r s' => settled self (Lookup c p n) s.1 (errnum r) s'.1) s.
Proof.
  intros Hs. cbn [serve]. unfold skye_rpc_lookup_1_svc. enter_handler.
  - intros Hu w1. apply wp_ret. by eapply settled_unfetched.
  - intros a s2 Hh. do 5 hold_step.
    eapply wp_finish; [done..|]. intros s' Hb. apply wp_ret. by constructor.
Qed.

Lemma partition_settled c p n (s : St) :
  sound self s.1 -> wp disciplined (serve self fuel (Partition c p n)) (fun r s' => settled self (Partition c p n) s.1 (errnum r) s'.1) s.
Proof.
  intros Hs. cbn [serve]. unfold skye_rpc_partition_1_svc. enter_handler.
  - intros Hu w1. apply wp_ret. by eapply settled_unfetched.
  - intros a s2 Hh. do 3 hold_step. eapply wp_finish; [done..|]. intros s' Hb. apply wp_ret. by constructor.
Qed.

Lemma create_settled c p n m (s : St) :
  (forall w : W, (malloc w).1 = false -> mislaid (Some self)) -> sound self s.1 -> wp disciplined (serve self fuel (Create c p n m)) (fun r s' => settled self (Create c p n m) s.1 (errnum r) s'.1) s.
Proof.
  intros Hml Hs. cbn [serve]. unfold skye_rpc_create_1_svc.
  apply wp_bind, wp_sys. intros t w0 _. apply wp_bind.
  apply wp_flow_start with (self := self); [done|intros f s1 w Hf Hs1]. apply wp_bind, wp_cache_fetch; [done| |].
  - intros Hu w1. apply wp_ret. by eapply settled_unfetched.
  - intros a s2 Hh. hold_step. case_match; case_match; case_match.
    { eapply wp_finish; [done..|]. intros s' Hb. apply wp_ret. by constructor. }
    do 2 hold_step. case_match. case_match.
    { eapply wp_finish; [done..|]. intros s' Hb. apply wp_ret. by constructor. }
    apply wp_bind. eapply wp_holding; [by apply keeps_maybe_split|eassumption|eassumption|intros ? ? ?].
    eapply wp_finish; [done..|]. intros s' Hb. apply wp_bind, wp_sys. intros ? ? _.
    apply wp_ret. by constructor.
Qed.

Lemma mkdir_settled c p n m (s : St) :
  sound self s.1 -> wp disciplined (serve self fuel (Mkdir c p n m)) (fun r s' => settled self (Mkdir c p n m) s.1 (errnum r) s'.1) s.
Proof.
  intros Hs. cbn [serve]. unfold skye_rpc_mkdir_1_svc. enter_handler.
  - intros _ w1. apply wp_bind. eapply wp_flow_stop; [done|apply balanced_refl|]. intros s3 Hb.
    apply wp_ret. by constructor.
  - intros a s2 Hh. hold_step. case_match; case_match; case_match.
    { eapply wp_finish; [done..|]. intros s' Hb. apply wp_ret. by constructor. }
    hold_step. case_match. case_match.
    { eapply wp_finish; [done..|]. intros s' Hb. apply wp_ret. by constructor. }
    do 3 hold_step. case_match. eapply wp_finish; [done..|]. intros s' Hb. apply wp_ret. by constructor.
Qed.

Lemma rename_settled c n sp n' dp (s : St) :
  sound self s.1 -> wp disciplined (serve self fuel (Rename c n sp n' dp)) (fun r s' => settled self (Rename c n sp n' dp) s.1 (errnum r) s'.1) s.
Proof.
  intros Hs. cbn [serve]. unfold skye_rpc_rename_1_svc. enter_handler.
  - intros _ w1. apply wp_bind. eapply wp_flow_stop; [done|apply balanced_refl|]. intros s3 Hb.
    apply wp_ret. by constructor.
  - intros a s2 Hh. hold_step. case_match; case_match; case_match.
    { eapply wp_finish; [done..|]. intros s' Hb. apply wp_ret. by constructor. }
    hold_step. eapply wp_finish; [done..|]. intros s' Hb. apply wp_ret. by constructor.
Qed.

Lemma keeps_set_mapping a i :
  keeps a (d ← deref a; m ← lift (giga_update_mapping (mapping d) i); store a (set_mapping m d) : M unit).
Proof.
  apply keeps_deref_bind. intros s d Hr Hd. apply wp_bind, wp_tame; [apply tame_update_mapping|].
  intros m _. by apply (wp_store a d).
Qed.

Lemma bucket_add_settled p i (s : St) :
  sound self s.1 -> wp disciplined (serve self fuel (Bucket_add p i)) (fun r s' => settled self (Bucket_add p i) s.1 (errnum r) s'.1) s.
Proof.
  intros Hs. cbn [serve]. unfold skye_rpc_bucket_add_1_svc. apply wp_bind, wp_bind, wp_cache_fetch_w; [done| |].
  - intros _ w. apply wp_bind. by split.
  - intros a s2 Hh. apply wp_bind, wp_ret. apply wp_bind. assert (Hr := holding_ready self s.1 a s2 Hs Hh).
    destruct Hr as [[d Hd] _]. eapply wp_deref; [exact Hd|]. apply wp_bind, wp_tame; [apply tame_update_mapping|].
    intros m E. apply wp_bind, wp_store'. eapply wp_cache_return; [done| |].
    + destruct Hh as (s0 & d0 & d' & Hb & Hd0 & Ht & Hg & Hi). exists s0, d0, d'. split_and!; try done.
      etransitivity; [exact Hi|]. by apply (inner_store a d).
    + intros s3 Hb. apply wp_ret. by constructor.
Qed.

Lemma bucket_remove_settled c p i (s : St) :
  sound self s.1 -> wp disciplined (serve self fuel (Bucket_remove c p i)) (fun r s' => settled self (Bucket_remove c p i) s.1 (errnum r) s'.1) s.
Proof.
  intros Hs. cbn [serve]. unfold skye_rpc_bucket_remove_1_svc. apply wp_bind, wp_bind, wp_cache_fetch_w; [done| |].
  - intros _ w. apply wp_ret, wp_ret. constructor. apply balanced_refl.
  - intros a s2 Hh. hold_step. apply wp_bind. eapply wp_cache_return; [done..|].
    intros s3 Hb. apply wp_ret, wp_ret. by constructor.
Qed.

(** The branch for a directory: what it still holds, or that it is gone. *)
Lemma wp_remove_directory c t b name (s : St) (Q : option positive * Z -> St -> Prop) :
  sound self s.1 ->
  (forall a e s', holding self s.1 a s'.1 -> Q (Some a, e) s') ->
  (forall e s', ruined self s.1 s'.1 -> Q (None, e) s') ->
  wp disciplined (remove_directory self fuel c t b name : M _) Q s.
Proof.
  intros Hs HS HN. unfold remove_directory. apply wp_bind, wp_cache_fetch_w; [done|intros _ w; apply wp_bind; by split|].
  intros a s2 Hh. apply wp_bind, wp_ret. unfold remove_all_buckets. hold_step. case_match; [apply wp_ret; auto|].
  hold_step. apply wp_bind, wp_sys. intros rc w1 _. case_match; [apply wp_ret; auto|].
  apply wp_bind, wp_sys. intros rc' w2 _. apply wp_bind. eapply wp_cache_destroy; [done|eassumption|].
  intros s3 Hr. apply wp_ret. by apply HN.
Qed.

Lemma remove_settled c p n (s : St) :
  sound self s.1 -> wp disciplined (serve self fuel (Remove c p n)) (fun r s' => settled self (Remove c p n) s.1 (errnum r) s'.1) s.
Proof.
  intros Hs. cbn [serve]. unfold skye_rpc_remove_1_svc. enter_handler.
  { intros _ w1. apply wp_bind. eapply wp_flow_stop; [done|apply balanced_refl|]. intros s3 Hb. apply wp_ret. by constructor. }
  intros a s2 Hh. assert (Hend : forall b res s0 (s3 : St), balanced s1 s0 -> holding self s0 b s3.1 ->
    wp disciplined (_ ← cache_return self b; _ ← flow_stop f; mret res)
      (fun r s' => settled self (Remove c p n) s.1 (errnum r) s'.1) s3).
  { intros b res s0 s3 Hb0 Hb3. assert (Hs0 := balanced_sound _ _ _ Hs1 Hb0). apply wp_bind. eapply wp_cache_return; [done..|].
    intros s4 Hb4. apply wp_bind. eapply wp_flow_stop; [done|by eapply balanced_trans|]. intros s5 Hb5. apply wp_ret. by constructor. }
  assert (Hkeep : forall s3 : St, holding self s1 a s3.1 -> exists s0, balanced s1 s0 /\ holding self s0 a s3.1)
    by (intros s3 H3; exists s1; split; [apply balanced_refl|done]).
  hold_step. case_match; case_match.
  apply wp_bind. eapply (wp_conseq _ _ (fun x s3 =>
    match x.1 with
    | Some b => exists s0, balanced s1 s0 /\ holding self s0 b s3.1
    | None => ruined self s1 s3.1
    end)).
  2: { intros [[b|] res] s3; cbn [fst].
       - intros (sb & Hb0 & Hb3). by eapply Hend.
       - intros Hr. apply wp_bind, wp_ret, wp_bind. eapply wp_flow_ruined; [done..|]. intros s4 Hr4. apply wp_ret.
         by apply settled_ruined. }
  case_match; [by apply wp_ret, Hkeep|]. hold_step. apply wp_bind, wp_sys. intros [rc' target] w3 _.
  case_match; [by apply wp_ret, Hkeep|]. hold_step. case_match.
  - apply wp_bind. eapply wp_cache_return; [done|eassumption|]. intros sb Hb4. apply wp_bind.
    apply wp_remove_directory; [by eapply balanced_sound| |].
    + intros b e sc Hb5. apply wp_ret. by exists sb.
    + intros e sc Hr5. apply wp_ret. by eapply ruined_after.
  - apply wp_bind, wp_sys. intros ? ? _. by apply wp_ret, Hkeep.
Qed.

End Serving2.

Section BalanceProperties.
Import Pvfs Rpc Giga Server Cache Split Handlers.

(** The mutex of the queue stays with the thread only when [perform_split], which create
    calls, finds no memory. *)
Definition queue_left {W} `{PvfsOps W} (self : Z) (q : request) : Mislaid := fun m =>
  match q with Create _ _ _ _ => m = Some self /\ exists w : W, (malloc w).1 = false | _ => False end.

(** C6 Discipline of the cache, whatever PVFS, the allocator and the other servers
    answer: a request handled by a thread that holds no lock never touches a freed
    directory and never releases a lock it does not hold; when its handler returns,
    every directory has the reference count and the lock state it had before, new
    table entries are unlocked and counted once, the flow semaphore has its old value,
    the mutex of the queue its old owner, and the cache is sound again.  There are three
    exceptions.  Lookup, partition and create, when no directory object can be made, answer -EIO
    and keep a unit of the flow semaphore for ever.  Create keeps the mutex when the memory for a
    task cannot be allocated.  Remove of a directory takes it out of the table and frees its
    object, or, when other threads have references to it, leaves it to them with a lock that is
    never released; the cache is sound again also then, but for this lock. *)
Theorem requests_balanced {W} `{PvfsOps W} `{BucketRpc W} (self : Z) (fuel : nat)
  (q : request) (s : server * W) (Hs : sound self s.1) :
  wp disciplined (serve self fuel q)
    (fun r s' => settled (Ml := queue_left (W := W) self q) self q s.1 (errnum r) s'.1 /\
                 (unlocked_by self s'.1 -> sound self s'.1)) s.
Proof.
  assert (Hw : wp disciplined (serve self fuel q)
    (fun r s' => settled (Ml := queue_left (W := W) self q) self q s.1 (errnum r) s'.1) s).
  { destruct q; [apply lookup_settled|apply partition_settled|apply create_settled|apply mkdir_settled|apply rename_settled|
      apply remove_settled|apply bucket_add_settled|apply bucket_remove_settled]; try done.
    intros w Hw. split; [done|by exists w]. }
  eapply wp_conseq; [exact Hw|]. intros err s' Hset. split; [done|]. intros Hu. exact (settled_sound self q s.1 _ _ Hs Hset Hu).
Qed.

(** A server that has just started. *)
Definition idle_server : server := mkServer MemFs.one_server ∅ ∅ 12 0 ∅ None None.

Lemma idle_sound self : sound self idle_server.
Proof.
  split; [done|done|]. exists []. split; [constructor|]. split; [done|]. intros i a Ha.
  by rewrite lookup_nil in Ha.
Qed.

Lemma requests_balanced_witness :
  exists r s', serve 1 10 (Create (mkCreds 0 0) (mkRef 1 7) "foo" 511) (idle_server, MemFs.small_fs)
      = Ret (r, s') /\ errnum r = 0 /\
    settled (W := MemFs.mem) (Ml := queue_left (W := MemFs.mem) 1 (Create (mkCreds 0 0) (mkRef 1 7) "foo" 511)) 1
      (Create (mkCreds 0 0) (mkRef 1 7) "foo" 511) idle_server 0 s'.1.
Proof.
  assert (Hw := requests_balanced (W := MemFs.mem) 1 10 (Create (mkCreds 0 0) (mkRef 1 7) "foo" 511)
    (idle_server, MemFs.small_fs) (idle_sound 1)).
  unfold wp in Hw.
  destruct (serve 1 10 _ _) as [[r s']|c] eqn:E; [|vm_compute in E; discriminate].
  assert (Er : errnum r = 0) by (vm_compute in E; injection E as <- _; reflexivity).
  exists r, s'. rewrite Er in Hw. split; [reflexivity|]. split; [exact Er|exact (proj1 Hw)].
Defined.

End BalanceProperties.
