(* ===== verification/Placement.v ===== *)
(** * Where files live, and what a split does to them

    The functional correctness of server/split.c against the laws of [PvfsSpec].
    [move_rounds] lists the partition that is being split batch by batch while the
    renames shift the positions of the entries, and starts over until a whole round
    moves nothing; the theorems show that it terminates with exactly the migrating
    entries moved. *)

From S2P Require Import Prelude Sha GigaIndex Names Utlist Pvfs.
From S2P Require Import Rpc Connection MemFs ServerCache Split Handlers Balance.

#[local] Open Scope Z_scope.

(** ** Entries that migrate *)

Section Entries.
Import Pvfs Giga Tree.

(** The entries of a partition that belong to the new partition [c]. *)
Definition migrates (c : Z) (e : string * Z) : Prop := covers c (name_hash e.1) = true.

#[export] Instance migrates_dec c e : Decision (migrates c e).
Proof. unfold migrates. apply _. Defined.

Definition stays (c : Z) (e : string * Z) : Prop := ~ migrates c e.

#[export] Instance stays_dec c e : Decision (stays c e).
Proof. unfold stays. apply _. Defined.

Definition count_migrating (c : Z) (l : list (string * Z)) : nat := length (filter (migrates c) l).

Lemma migration_status_migrates c e :
  0 <= c < 512 -> name_ok e.1 ->
  giga_file_migration_status e.1 c = Ret (if decide (migrates c e) then 1 else 0).
Proof.
  intros Hc Hn. rewrite migration_status_ok by done. f_equal.
  destruct (decide (migrates c e)) as [Hm|Hm]; unfold migrates in Hm; [by rewrite Hm|].
  by apply not_true_is_false in Hm as ->.
Qed.

(** Taking one entry out of a listing without duplicate names. *)
Lemma perm_take_out n h (l : list (string * Z)) :
  NoDup l.*1 -> (n, h) ∈ l -> l ≡ₚ (n, h) :: filter (fun e => e.1 <> n) l.
Proof.
  induction l as [|[m k] l IH]; intros Hnd Hin; [by apply elem_of_nil in Hin|]. cbn in Hnd.
  apply list.NoDup_cons in Hnd as [Hm Hnd]. apply elem_of_cons in Hin as [[= <- <-]|Hin].
  - rewrite filter_cons_False by (cbn; tauto). f_equiv. rewrite filter_all; [done|].
    apply list.Forall_forall. intros [m' k'] Hin'. cbn. intros ->. apply Hm.
    change n with (n, k').1. by eapply list_elem_of_fmap_2.
  - assert (m <> n). { intros ->. apply Hm. change n with (n, h).1. by eapply list_elem_of_fmap_2. }
    rewrite filter_cons_True by done. rewrite (IH Hnd Hin) at 1. apply Permutation_swap.
Qed.

Lemma filter_stays_take_out c n (l : list (string * Z)) :
  covers c (name_hash n) = true -> filter (stays c) (filter (fun e => e.1 <> n) l) = filter (stays c) l.
Proof.
  intros Hc. induction l as [|[m k] l IH]; [done|]. destruct (decide (m = n)) as [->|].
  - rewrite (filter_cons_False _ (n, k)) by (cbn; tauto).
    rewrite (filter_cons_False (stays c)) by (intros Hs; by apply Hs). done.
  - rewrite (filter_cons_True (fun e : string * Z => e.1 <> n)) by done.
    rewrite !filter_cons. by rewrite IH.
Qed.

(** The entries of the two partitions [pe] and [ce] while those of [es] that
    migrate move to join [ec]. *)
Record moving (c : Z) (es ec pe ce : list (string * Z)) : Prop := mkMoving {
  mv_perm : pe ++ ce ≡ₚ es ++ ec;
  mv_stay : filter (stays c) pe = filter (stays c) es
}.

Lemma moving_refl c es ec : moving c es ec es ec.
Proof. by split. Qed.

Lemma fmap_NoDup_perm (l k : list (string * Z)) : l ≡ₚ k -> NoDup l.*1 -> NoDup k.*1.
Proof. intros E. by rewrite E. Qed.

Lemma moving_step c es ec pe ce ce' n h :
  NoDup (pe ++ ce).*1 -> moving c es ec pe ce -> (n, h) ∈ pe -> migrates c (n, h) ->
  ce' ≡ₚ (n, h) :: ce ->
  moving c es ec (filter (fun e => e.1 <> n) pe) ce' /\
  NoDup (filter (fun e => e.1 <> n) pe ++ ce').*1 /\
  S (count_migrating c (filter (fun e => e.1 <> n) pe)) = count_migrating c pe.
Proof.
  intros Hnd [Hp Hs] Hin Hm Hce. assert (Hndp : NoDup pe.*1)
    by (rewrite fmap_app in Hnd; by apply list.NoDup_app in Hnd as (? & _)).
  assert (E := perm_take_out n h pe Hndp Hin).
  assert (Hperm : filter (fun e => e.1 <> n) pe ++ ce' ≡ₚ pe ++ ce).
  { rewrite Hce, <- Permutation_middle, app_comm_cons. by rewrite <- E. }
  split_and!.
  - split; [by rewrite Hperm|]. by rewrite filter_stays_take_out.
  - by rewrite Hperm.
  - unfold count_migrating. rewrite E at 2. rewrite filter_cons_True by done. done.
Qed.

(** Once nothing migrating is left, the two partitions are what they should be. *)
Lemma moving_done c es ec pe ce :
  moving c es ec pe ce -> count_migrating c pe = O ->
  pe = filter (stays c) es /\ ce ≡ₚ filter (migrates c) es ++ ec.
Proof.
  intros [Hp Hs] Hc. apply nil_length_inv in Hc.
  assert (Hall : Forall (stays c) pe).
  { apply list.Forall_forall. intros e He Hm. assert (Hx : e ∈ filter (migrates c) pe)
      by (by apply list_elem_of_filter). rewrite Hc in Hx. by apply elem_of_nil in Hx. }
  rewrite filter_all in Hs by done. split; [done|]. subst pe.
  apply (Permutation_app_inv_l (filter (stays c) es)). rewrite Hp, app_assoc. f_equiv.
  clear. induction es as [|e es IH]; [done|]. rewrite !filter_cons.
  destruct (decide (migrates c e)) as [Hm|Hm].
  - rewrite decide_False by (intros Hs; by apply Hs). by rewrite <- Permutation_middle, <- IH.
  - rewrite decide_True by done. cbn. by rewrite <- IH.
Qed.

End Entries.

(** ** Listing a directory by positions *)

Section Listing.
Import Pvfs Cache.
Context {W : Type} {P : PvfsOps W} {V : PvfsView W} {L : PvfsSpec W}.

(** The token after [pos] entries were listed. *)
Definition token_at (pos : nat) : Z := if decide (pos = O) then 0 else Z.of_nat pos - 1.

Lemma start_token_at pos :
  pos <> 1%nat -> Z.of_nat pos < 2 ^ 30 ->
  let t := start_token (token_at pos) in
  (t = PVFS_READDIR_START \/ 0 <= t < PVFS_READDIR_START) /\
  (if t =? PVFS_READDIR_START then 0 else t + 1) = Z.of_nat pos.
Proof.
  intros Hp Hlt. assert (Hs := start_large). unfold start_token, token_at. destruct (decide (pos = O)) as [->|].
  - cbn. rewrite Z.eqb_refl. split; [by left|done].
  - destruct (Z.eqb_spec (Z.of_nat pos - 1) 0); [lia|].
    destruct (Z.eqb_spec (Z.of_nat pos - 1) PVFS_READDIR_START); [lia|]. split; [right|]; lia.
Qed.

Lemma next_token_at pos n :
  pos <> 1%nat -> (0 < n)%nat -> Z.of_nat pos + Z.of_nat n < 2 ^ 31 ->
  next_token (token_at pos) (Z.of_nat n) = token_at (pos + n).
Proof.
  intros Hp Hn Hlt. unfold next_token, token_at. rewrite (decide_False (P := (pos + n)%nat = O)) by lia.
  destruct (decide (pos = O)) as [->|].
  - cbn. rewrite u32_small by lia. lia.
  - destruct (Z.eqb_spec (Z.of_nat pos - 1) 0); [lia|]. rewrite u64_small by lia. lia.
Qed.

Definition dirents (l : list (string * Z)) : list PVFS_dirent := (fun e => mkDirent e.1 e.2) <$> l.

Lemma dirents_names l : d_name <$> dirents l = l.*1.
Proof. unfold dirents. by rewrite <- list_fmap_compose. Qed.

Lemma batch_sublist pos (pe : list (string * Z)) n : take n (drop pos pe) `sublist_of` pe.
Proof. etransitivity; [apply sublist_take|apply sublist_drop]. Qed.

End Listing.

(** ** Moving the entries *)

Section Moving.
Import Pvfs Giga Tree Server Cache Split.
Context {W : Type} {P : PvfsOps W} {V : PvfsView W} {L : PvfsSpec W} {R : BucketRpc W}.
#[local] Abbreviation St := (server * W)%type.
Variable self : Z.

(** The split, and the listings of its two partitions when it began. *)
Variable x : split_ctx.
Variables es ec : list (string * Z).
Hypothesis child_small : 0 <= sc_cindex x < 512.
Hypothesis two_handles : Pvfs.handle (sc_phandle x) <> Pvfs.handle (sc_chandle x).
Hypothesis few_entries : Z.of_nat (length es) + Z.of_nat (length ec) + 256 < 2 ^ 30.

#[local] Abbreviation mig := (migrates (sc_cindex x)).
#[local] Abbreviation cnt := (count_migrating (sc_cindex x)).
#[local] Abbreviation ph := (Pvfs.handle (sc_phandle x)).
#[local] Abbreviation ch := (Pvfs.handle (sc_chandle x)).

(** The file system while files move: the entries of the two partitions, and
    the rest of the world [w0] untouched. *)
Record between (w0 : W) (pe ce : list (string * Z)) (w : W) : Prop := mkBetween {
  bt_ok : fs_ok w;
  bt_parent : dirs w ph = Some pe;
  bt_child : dirs w ch = Some ce;
  bt_rest : forall k, k <> ph -> k <> ch -> dirs w k = dirs w0 k;
  bt_moving : moving (sc_cindex x) es ec pe ce;
  bt_nodup : NoDup (pe ++ ce).*1
}.

Lemma between_quiet w0 pe ce w w' : between w0 pe ce w -> quiet w w' -> between w0 pe ce w'.
Proof.
  intros [H1 H2 H3 H4 H5 H6] [Q1 Q2]. split; try done; rewrite ?Q2; try done.
  intros k Hk Hk'. rewrite Q2. auto.
Qed.

Lemma between_lengths w0 pe ce w : between w0 pe ce w ->
  (length pe + length ce = length es + length ec)%nat.
Proof. intros [_ _ _ _ [Hp _] _]. apply Permutation_length in Hp. by rewrite !length_app in Hp. Qed.

Lemma entry_name_ok w h l e : fs_ok w -> dirs w h = Some l -> e ∈ l -> name_ok e.1.
Proof.
  intros Hok Hl He. destruct (names_ok w h l Hok Hl) as (_ & Hf & _). rewrite list.Forall_forall in Hf.
  destruct (Hf e.1) as [_ Hlen]; [by eapply list_elem_of_fmap_2|]. unfold name_ok. lia.
Qed.

(** One rename of a migrating entry. *)
Lemma rename_step w0 pe ce w n h :
  between w0 pe ce w -> (n, h) ∈ pe -> mig (n, h) ->
  exists pe' ce' w', PVFS_sys_rename n (sc_phandle x) n (sc_chandle x) (sc_creds x) w = (0, w') /\
    pe' = filter (fun e => e.1 <> n) pe /\ between w0 pe' ce' w' /\ S (cnt pe') = cnt pe.
Proof.
  intros Hb Hin Hm. assert (Hlen := between_lengths _ _ _ _ Hb). destruct Hb as [H1 H2 H3 H4 H5 H6].
  assert (Hnd : NoDup pe.*1 /\ n ∉ ce.*1).
  { rewrite fmap_app in H6. apply list.NoDup_app in H6 as (Hnd & Hd & _). split; [done|].
    apply Hd. change n with (n, h).1. by eapply list_elem_of_fmap_2. }
  destruct Hnd as [Hnd Hnc].
  destruct (rename_across w (sc_creds x) n (sc_phandle x) (sc_chandle x) pe ce h)
    as (ce' & w' & E & Hce & Hok & Hd); try done; [by apply assoc_Some|by apply assoc_None|lia|].
  destruct (moving_step (sc_cindex x) es ec pe ce ce' n h) as (M1 & M2 & M3); try done.
  eexists _, ce', w'. split; [done|]. split; [done|]. split; [|done].
  split; try done.
  - rewrite Hd. by rewrite decide_True.
  - rewrite Hd. by rewrite decide_False, decide_True.
  - intros k Hk Hk'. rewrite Hd, !decide_False by done. auto.
Qed.

Definition entry_of (d : PVFS_dirent) : string * Z := (d_name d, d_handle d).

(** A batch: every migrating entry of it moves, and the count goes up by their
    number. *)
Lemma wp_move_entries w0 (s : server) l pe ce w moved (Q : Z -> St -> Prop) :
  between w0 pe ce w -> Forall (fun d => entry_of d ∈ pe) l -> NoDup (d_name <$> l) ->
  0 <= moved -> moved + Z.of_nat (length l) < 2 ^ 31 ->
  (forall k pe' ce' w', between w0 pe' ce' w' -> (cnt pe' + k = cnt pe)%nat ->
     (length pe' <= length pe)%nat ->
     (k = O -> pe' = pe /\ ce' = ce /\ Forall (fun d => ~ mig (entry_of d)) l) ->
     Q (moved + Z.of_nat k) (s, w')) ->
  wp no_crash (move_entries x l moved) Q (s, w).
Proof.
  revert pe ce w moved Q. induction l as [|d l IH]; intros pe ce w moved Q Hb Hl Hnd H0 Hmax HQ.
  { apply wp_ret. replace moved with (moved + Z.of_nat 0) by lia. eapply HQ; [done|lia|done|done]. }
  apply list.Forall_cons in Hl as [Hd Hl]. cbn in Hnd. apply list.NoDup_cons in Hnd as [Hdn Hnd].
  cbn [move_entries length] in *. apply wp_bind, wp_lift.
  assert (Hok : name_ok (d_name d)) by (eapply (entry_name_ok w _ _ (entry_of d)); [apply Hb|apply Hb|done]).
  assert (Em := migration_status_migrates (sc_cindex x) (entry_of d) child_small Hok).
  cbn [fst entry_of] in Em. rewrite Em. clear Em.
  destruct (decide (mig (entry_of d))) as [Hm|Hm]; cbn [Z.eqb].
  - destruct (rename_step w0 pe ce w (d_name d) (d_handle d) Hb Hd Hm)
      as (pe' & ce' & w' & E & Epe & Hb' & Hcnt). apply wp_bind. eapply wp_sys_eq; [exact E|].
    apply wp_bind, wp_lift. rewrite c_int_ok by lia. cbn [fst snd].
    assert (Hle : (length pe' <= length pe)%nat) by (rewrite Epe; apply length_filter).
    apply (IH pe' ce'); try done; [|lia|lia|].
    + rewrite Epe. apply list.Forall_forall. intros d' Hd'. rewrite list.Forall_forall in Hl.
      apply list_elem_of_filter. split; [|by apply Hl]. cbn. intros Hx. apply Hdn. rewrite <- Hx.
      by eapply list_elem_of_fmap_2.
    + intros k pe2 ce2 w2 Hb2 Hk Hl2 _. replace (moved + 1 + Z.of_nat k) with (moved + Z.of_nat (S k)) by lia.
      eapply HQ; [done|lia|lia|done].
  - apply (IH pe ce); try done; [lia|]. intros k pe2 ce2 w2 Hb2 Hk Hl2 Hz. eapply HQ; [done..|].
    intros ->. destruct Hz as (-> & -> & Hf); [done|]. split_and!; [done..|]. by constructor.
Qed.


(** The server while files move: only the lock of the directory changes. *)
Definition mine : Rwlock.rwlock := Rwlock.mkLock 0 (Some self).

Definition relocked (s0 : server) (d : skye_directory) (l : Rwlock.rwlock) : server :=
  set_heap (<[sc_dir x := set_rwlock l d]> (heap s0)) s0.

Lemma relocked_again s0 d l l' :
  set_heap (<[sc_dir x := set_rwlock l' (set_rwlock l d)]> (heap (relocked s0 d l))) (relocked s0 d l)
  = relocked s0 d l'.
Proof. unfold relocked, set_heap. cbn. by rewrite insert_insert_eq. Qed.

Lemma wp_lock_mine s0 d l w (Q : unit -> St -> Prop) :
  l = Rwlock.unlocked \/ l = mine -> Q tt (relocked s0 d mine, w) ->
  wp no_crash (lock_with (Rwlock.wrlock self) (sc_dir x)) Q (relocked s0 d l, w).
Proof.
  intros Hl HQ. eapply wp_Ret; [|exact HQ]. unfold lock_with, mbind, prog_bind, deref, lift, store, modl.
  cbn. rewrite lookup_insert_eq.
  destruct Hl as [-> | ->]; cbn; rewrite ?Z.eqb_refl; do 2 f_equal; f_equal; apply relocked_again.
Qed.

Lemma wp_unlock_mine s0 d w (Q : unit -> St -> Prop) :
  Q tt (relocked s0 d Rwlock.unlocked, w) ->
  wp no_crash (unlock_dir self (sc_dir x)) Q (relocked s0 d mine, w).
Proof.
  intros HQ. eapply wp_Ret; [|exact HQ]. unfold unlock_dir, mbind, prog_bind, deref, lift, store, modl.
  cbn. rewrite lookup_insert_eq. cbn. rewrite Z.eqb_refl. do 2 f_equal. f_equal. apply relocked_again.
Qed.

(** The lock after a listing of [n] entries in batches of 128 in which nothing moved: an empty
    batch jumps past the unlock. *)
Definition left_lock (n : nat) : Rwlock.rwlock := if Nat.eqb (Nat.modulo n 128) 0 then mine else Rwlock.unlocked.

(** One batch from position [pos]. *)
Lemma wp_move_batch w0 s0 d l pos pe ce w moved (Q : Z * Z * bool -> St -> Prop) :
  l = Rwlock.unlocked \/ l = mine -> between w0 pe ce w ->
  pos <> 1%nat -> Z.of_nat pos < 2 ^ 30 -> 0 <= moved < 2 ^ 30 ->
  (forall tok' k pe' ce' w' l', between w0 pe' ce' w' -> (l' = Rwlock.unlocked \/ l' = mine) ->
     (cnt pe' + k = cnt pe)%nat -> (length pe' <= length pe)%nat ->
     (k = O -> pe' = pe /\ ce' = ce /\ Forall (fun e => ~ mig e) (take 128 (drop pos pe))) ->
     let full := Nat.eqb (length (take 128 (drop pos pe))) 128 in
     (full = true -> tok' = token_at (pos + 128)) ->
     l' = (if Nat.eqb (length (take 128 (drop pos pe))) 0 then mine else Rwlock.unlocked) ->
     Q (tok', moved + Z.of_nat k, full) (relocked s0 d l', w')) ->
  wp no_crash (move_batch self x (token_at pos) moved) Q (relocked s0 d l, w).
Proof.
  intros Hl Hb Hpos Hmax Hmv HQ. cbv zeta in HQ. unfold move_batch. apply wp_bind, wp_lock_mine; [done|]. apply wp_bind.
  destruct (start_token_at pos Hpos Hmax) as [Ht Hfrom].
  destruct (readdir_from w (sc_creds x) (sc_phandle x) (start_token (token_at pos)) 128 pe)
    as (w1 & E & Hq); [apply Hb|apply Hb|lia|done|]. cbv zeta in Hfrom. rewrite Hfrom in E. cbv zeta in E.
  rewrite Nat2Z.id in E. change (Z.to_nat 128) with 128%nat in E.
  set (batch := take 128 (drop pos pe)) in *. eapply wp_sys_eq; [exact E|]. cbn [fst snd Z.ltb Z.compare].
  assert (Hb1 := between_quiet _ _ _ _ _ Hb Hq). assert (Hlen : (length batch <= 128)%nat)
    by (unfold batch; rewrite length_take; lia).
  unfold outcount. cbn [dirent_array]. rewrite length_fmap.
  assert (Hfull : (Z.of_nat (length batch) =? 128) = Nat.eqb (length batch) 128)
    by (destruct (Nat.eqb_spec (length batch) 128), (Z.eqb_spec (Z.of_nat (length batch)) 128); (done || lia)).
  rewrite Hfull. apply wp_bind. destruct (Z.eqb_spec (Z.of_nat (length batch)) 0) as [E0|E0].
  - assert (Enil : batch = []) by (apply nil_length_inv; lia). apply wp_ret, wp_ret.
    assert (HQ0 := HQ (next_token (token_at pos) (Z.of_nat (length batch))) O pe ce w1 mine Hb1).
    change (Z.of_nat 0) with 0 in HQ0. rewrite Z.add_0_r in HQ0.
    apply HQ0; [by right|lia|done|by rewrite Enil| |]; by rewrite Enil.
  - apply wp_bind. apply (wp_move_entries w0 _ _ pe ce); try done; [| |lia|rewrite length_fmap; lia|].
    + apply Forall_fmap, list.Forall_forall. intros [n h] Hin. cbn.
      eapply elem_of_sublist; [apply batch_sublist|exact Hin].
    + rewrite dirents_names. eapply sublist_NoDup; [|by apply fmap_sublist, batch_sublist].
      destruct Hb as [_ _ _ _ _ Hnd]. rewrite fmap_app in Hnd. by apply list.NoDup_app in Hnd as (? & _).
    + intros k pe' ce' w' Hb' Hk Hle Hz. apply wp_bind, wp_unlock_mine, wp_ret, wp_ret.
      eapply HQ; [done|by left|done|done| | |].
      * intros ->. destruct Hz as (-> & -> & Hf); [done|]. split_and!; [done..|].
        apply list.Forall_forall. intros [n h] Hin.
        apply (proj1 (list.Forall_forall _ _) Hf (mkDirent n h)). by apply (list_elem_of_fmap_2 (fun e => mkDirent e.1 e.2) _ (n, h)).
      * intros Hf. apply Nat.eqb_eq in Hf. fold batch in Hf. rewrite next_token_at by lia. by rewrite Hf.
      * fold batch. destruct (Nat.eqb_spec (length batch) 0); [lia|done].
Qed.


(** A round from position [pos]: every full batch advances the position, so the
    round ends; when it moved nothing, nothing from [pos] on migrates. *)
Lemma wp_move_batches w0 s0 d n pos l pe ce w moved (Q : Z -> St -> Prop) :
  l = Rwlock.unlocked \/ l = mine -> between w0 pe ce w -> pos <> 1%nat ->
  (pos <= length es + length ec + 128)%nat -> (1 <= n)%nat -> (length pe < 128 * n + pos)%nat ->
  0 <= moved -> moved + Z.of_nat (cnt pe) < 2 ^ 30 ->
  (forall k pe' ce' w' l', between w0 pe' ce' w' -> (l' = Rwlock.unlocked \/ l' = mine) ->
     (cnt pe' + k = cnt pe)%nat -> (length pe' <= length pe)%nat ->
     (k = O -> pe' = pe /\ Forall (fun e => ~ mig e) (drop pos pe) /\ l' = left_lock (length (drop pos pe))) ->
     Q (moved + Z.of_nat k) (relocked s0 d l', w')) ->
  wp no_crash (move_batches self n x (token_at pos) moved) Q (relocked s0 d l, w).
Proof.
  revert pos l pe ce w moved Q. induction n as [|n IH]; intros pos l pe ce w moved Q Hl Hb Hp Hpl Hn1 Hn H0 Hm HQ.
  { lia. }
  assert (Hlen := between_lengths _ _ _ _ Hb). cbn [move_batches]. apply wp_bind.
  apply (wp_move_batch w0 s0 d l pos pe ce); try done; [lia|lia|].
  intros tok' k pe' ce' w' l' Hb' Hl' Hk Hle Hz full Hfull Elk. cbn beta iota.
  assert (Hfl : full = true -> (pos + 128 <= length pe)%nat).
  { unfold full. intros Hf%Nat.eqb_eq. rewrite length_take, length_drop in Hf. lia. }
  destruct full eqn:Ef; unfold full in Ef.
  - rewrite Hfull by done. specialize (Hfl eq_refl).
    apply (IH (pos + 128)%nat l' pe' ce'); try done; [lia..|].
    intros k2 pe2 ce2 w2 l2 Hb2 Hl2 Hk2 Hle2 Hz2.
    replace (moved + Z.of_nat k + Z.of_nat k2) with (moved + Z.of_nat (k + k2)) by lia.
    eapply HQ; [done|done|lia|lia|]. intros E0. destruct Hz as (-> & -> & Hf1); [lia|].
    destruct Hz2 as (-> & Hf2 & ->); [lia|]. split; [done|]. split.
    + rewrite <- (take_drop 128 (drop pos pe)), drop_drop. by apply Forall_app.
    + unfold left_lock. rewrite !length_drop. replace (length pe - pos)%nat with ((length pe - (pos + 128)) + 1 * 128)%nat by lia.
      by rewrite Nat.Div0.mod_add.
  - apply wp_ret. eapply HQ; [done|done|done|done|]. intros ->. destruct Hz as (-> & _ & Hf1); [done|].
    split; [done|]. apply Nat.eqb_neq in Ef. rewrite length_take, length_drop in Ef.
    rewrite take_ge in Hf1, Elk by (rewrite length_drop; lia). split; [done|].
    rewrite Elk. unfold left_lock. by rewrite Nat.mod_small by (rewrite length_drop; lia).
Qed.

(** The rounds: each one that moves something leaves fewer migrating entries, and
    the first one that moves nothing has seen the whole partition. *)
Lemma wp_move_rounds w0 s0 d fuel n l pe ce w (Q : unit -> St -> Prop) :
  l = Rwlock.unlocked \/ l = mine -> between w0 pe ce w ->
  (length es + length ec + 128 < fuel)%nat -> (cnt pe < n)%nat ->
  (forall pe' ce' w' l', between w0 pe' ce' w' -> cnt pe' = O ->
     (l' = Rwlock.unlocked \/ l' = mine) -> l' = left_lock (length pe') -> Q tt (relocked s0 d l', w')) ->
  wp no_crash (move_rounds self fuel n x) Q (relocked s0 d l, w).
Proof.
  revert l pe ce w Q. induction n as [|n IH]; intros l pe ce w Q Hl Hb Hf Hn HQ; [lia|].
  assert (Hlen := between_lengths _ _ _ _ Hb). cbn [move_rounds]. apply wp_bind.
  assert (Hc : (cnt pe <= length pe)%nat) by apply length_filter.
  apply (wp_move_batches w0 s0 d fuel 0 l pe ce); try done; [lia..|].
  intros k pe' ce' w' l' Hb' Hl' Hk Hle Hz. rewrite Z.add_0_l.
  destruct (Z.ltb_spec 0 (Z.of_nat k)) as [Hk0|Hk0].
  - apply (IH l' pe' ce'); try done. lia.
  - destruct Hz as (-> & Hnone & Elk); [lia|]. rewrite drop_0 in Hnone, Elk. apply wp_ret, (HQ pe ce'); try done.
    unfold count_migrating. by rewrite filter_none.
Qed.

End Moving.

Section PlacementProperties.
Import Pvfs Giga Tree Server Cache Split.

(** C5 Moving the files of a split, for every PVFS that behaves as documented: on a
    partition with listing [es] and a new partition with listing [ec], the rounds of
    [do_split] terminate although every rename shifts the positions that the listing
    relies on; afterwards the old partition lists exactly the entries that do not
    migrate, in their old order, the new partition lists exactly the migrating ones
    besides [ec], no other directory of the file system has changed, and the server's
    state differs at most in the lock of the directory.  The lock is free again unless the
    number of entries that stay is a multiple of 128: then the last batch is empty, the
    loop jumps past the unlock and the split thread still holds it. *)
Theorem move_rounds_spec {W} {P : PvfsOps W} {V : PvfsView W} {L : PvfsSpec W} {R : BucketRpc W}
  (self : Z) (fuel : nat) (x : split_ctx) (s : server) (d : skye_directory) (w : W)
  (es ec : list (string * Z))
  (Hc : 0 <= sc_cindex x < 512)
  (Hne : Pvfs.handle (sc_phandle x) <> Pvfs.handle (sc_chandle x))
  (Hok : fs_ok w)
  (Hp : dirs w (Pvfs.handle (sc_phandle x)) = Some es)
  (Hch : dirs w (Pvfs.handle (sc_chandle x)) = Some ec)
  (Hnd : NoDup (es ++ ec).*1)
  (Hsmall : Z.of_nat (length es) + Z.of_nat (length ec) + 256 < 2 ^ 30)
  (Hfuel : (length es + length ec + 128 < fuel)%nat)
  (Hd : heap s !! sc_dir x = Some d) (Hl : rwlock d = Rwlock.unlocked) :
  let stay := filter (stays (sc_cindex x)) es in
  exists w' ec', move_rounds self fuel fuel x (s, w) =
      Ret (tt, (relocked x s d (if Nat.eqb (Nat.modulo (length stay) 128) 0 then mine self else Rwlock.unlocked), w')) /\
    fs_ok w' /\
    dirs w' (Pvfs.handle (sc_phandle x)) = Some stay /\
    dirs w' (Pvfs.handle (sc_chandle x)) = Some ec' /\
    ec' ≡ₚ filter (migrates (sc_cindex x)) es ++ ec /\
    (forall k, k <> Pvfs.handle (sc_phandle x) -> k <> Pvfs.handle (sc_chandle x) ->
       dirs w' k = dirs w k).
Proof.
  assert (Hb : between x es ec w es ec w) by (split; try done; apply moving_refl).
  assert (Es : s = relocked x s d Rwlock.unlocked).
  { unfold relocked. rewrite insert_id; [by destruct s|]. rewrite Hd, <- Hl. by destruct d. }
  assert (Hcnt : (count_migrating (sc_cindex x) es < fuel)%nat)
    by (unfold count_migrating; pose proof (length_filter (migrates (sc_cindex x)) es); lia).
  assert (Erun : move_rounds self fuel fuel x (s, w) =
    move_rounds self fuel fuel x (relocked x s d Rwlock.unlocked, w)) by (by rewrite <- Es).
  rewrite Erun.
  destruct (wp_run (move_rounds self fuel fuel x) (fun _ s' => exists l w' pe' ce',
    s' = (relocked x s d l, w') /\ l = left_lock self (length pe') /\
    between x es ec w pe' ce' w' /\ count_migrating (sc_cindex x) pe' = O)
    (relocked x s d Rwlock.unlocked, w)) as ([] & s' & E & l & w' & pe' & ce' & -> & Hl' & Hb' & H0).
  { apply (wp_move_rounds self x es ec Hc Hne Hsmall w s d fuel fuel _ es ec w); try done; [by left|].
    intros pe' ce' w' l' Hb' H0 _ Hl'. exists l', w', pe', ce'. done. }
  destruct Hb' as [B1 B2 B3 B4 B5 B6]. destruct (moving_done _ _ _ _ _ B5 H0) as [-> Hperm].
  exists w', ce'. unfold left_lock in Hl'. rewrite Hl' in E. done.
Qed.


(** A split of partition 0 into partition 1: directory 1 has the partitions with
    handles 2 and 5, and partition 0 holds five files. *)
Definition split_fs : MemFs.mem :=
  MemFs.mkMem {[ 1 := MemFs.Dir [("p00000", 2); ("p00001", 5)]%string;
                 2 := MemFs.Dir [("a", 10); ("b", 11); ("c", 12); ("d", 13); ("e", 14)]%string;
                 5 := MemFs.Dir [];
                 10 := MemFs.File; 11 := MemFs.File; 12 := MemFs.File; 13 := MemFs.File;
                 14 := MemFs.File ]} 20 1000 1.

Definition split_dir : skye_directory :=
  mkDir (mkMapping (<[0%nat := 1]> (replicate 147 0)) 0 0 1) 2 (mkRef 1 7) 0 Rwlock.unlocked 4
    (Some [2; 0; 0; 0]).

Definition split_server : server :=
  mkServer MemFs.one_server {[ 1%positive := split_dir ]} {[ mkRef 1 7 := 1%positive ]} 12 0 ∅ None None.

Definition split_of_0 : split_ctx :=
  mkCtx (mkCreds 0 0) (mkRef 1 7) 1 1%positive (mkRef 2 7) (mkRef 5 7) 0.

Lemma move_rounds_spec_witness :
  exists l w', move_rounds 9 200 200 split_of_0 (split_server, split_fs) =
      Ret (tt, (relocked split_of_0 split_server split_dir l, w')) /\
    dirs w' 2 = Some (filter (stays 1) [("a", 10); ("b", 11); ("c", 12); ("d", 13); ("e", 14)]%string) /\
    dirs w' 5 = Some [("e", 14)]%string.
Proof.
  destruct (move_rounds_spec (W := MemFs.mem) 9 200 split_of_0 split_server split_dir split_fs
    [("a", 10); ("b", 11); ("c", 12); ("d", 13); ("e", 14)]%string [])
    as (w' & ec' & E & _ & H1 & _).
  - cbn. lia.
  - cbn. lia.
  - split; [apply mem_okb_ok; vm_compute; reflexivity|reflexivity].
  - vm_compute. reflexivity.
  - vm_compute. reflexivity.
  - apply (bool_decide_eq_true_1 _). vm_compute. reflexivity.
  - cbn. lia.
  - cbn. lia.
  - reflexivity.
  - reflexivity.
  - cbv zeta in E. match type of E with context [relocked _ _ _ ?l] => exists l, w' end. split; [exact E|]. split; [exact H1|].
    assert (Er : (match move_rounds 9 200 200 split_of_0 (split_server, split_fs) with
                  | Ret (_, s) => dirs s.2 5 | Crash _ => None end) = Some [("e", 14)]%string) by (vm_compute; reflexivity).
    rewrite E in Er. exact Er.
Defined.

End PlacementProperties.
