(* ===== verification/Reload.v ===== *)
(** * Loading a directory into the cache of a server

    What [fill_bitmap] and [cache_fetch] of server/cache.c do with a directory that is
    not cached yet, against the laws of [PvfsSpec]: the mapping is rebuilt from the
    partitions that PVFS lists, so a server that starts again, or first hears of a
    directory, routes names as the servers that split it. *)

From S2P Require Import Prelude Sha GigaIndex Names Utlist Pvfs.
From S2P Require Import Rpc Connection MemFs ServerCache Split Handlers Balance Placement.

#[local] Open Scope Z_scope.

Section Filling.
Import Pvfs Giga Tree Server Cache.

(** The partitions a listing names. *)
Definition names_part (l : list (string * Z)) (i : Z) : Prop :=
  exists e, e ∈ l /\ PartName.scan_part e.1 = Some i.

Lemma names_part_app l k i : names_part (l ++ k) i <-> names_part l i \/ names_part k i.
Proof. unfold names_part. setoid_rewrite elem_of_app. naive_solver. Qed.

(** What filling a mapping with the entries [l] makes of it. *)
Record filled (l : list (string * Z)) (m m' : giga_mapping_t) : Prop := mkFilled {
  fd_ok : bitmap_ok (bitmap m');
  fd_has : forall i, has (bitmap m') i = true <-> has (bitmap m) i = true \/ names_part l i;
  fd_zeroth : zeroth_server m' = zeroth_server m;
  fd_count : server_count m' = server_count m
}.

Lemma filled_nil m : bitmap_ok (bitmap m) -> filled [] m m.
Proof.
  intros Hok. split; [done| |done|done]. intros i. split; [by left|]. intros [Hi|(e & He & _)]; [done|].
  by apply elem_of_nil in He.
Qed.

Lemma filled_app l k m1 m2 m3 : filled l m1 m2 -> filled k m2 m3 -> filled (l ++ k) m1 m3.
Proof.
  intros [H1 H2 H3 H4] [K1 K2 K3 K4]. split; [done| |congruence|congruence].
  intros i. rewrite K2, H2, names_part_app. tauto.
Qed.

Lemma fill_entries_ok l m :
  bitmap_ok (bitmap m) -> (forall i, names_part l i -> 0 <= i < 1029) ->
  exists m', fill_entries m (dirents l) = Ret m' /\ filled l m m'.
Proof.
  revert m. induction l as [|[n h] l IH]; intros m Hok Hl; [exists m; split; [done|by apply filled_nil]|].
  change (dirents ((n, h) :: l)) with (mkDirent n h :: dirents l). cbn [fill_entries d_name].
  assert (Hl' : forall i, names_part l i -> 0 <= i < 1029)
    by (intros i (e & He & Es); apply Hl; exists e; split; [by right|done]).
  destruct (PartName.scan_part n) as [i|] eqn:Es.
  - destruct (giga_update_mapping_ok m i Hok) as (m1 & E1 & Hok1 & Hh1 & Hz1 & Hc1).
    { apply Hl. exists (n, h). split; [by left|done]. }
    rewrite E1, bind_Ret. destruct (IH m1 Hok1 Hl') as (m' & E & Hf). exists m'. split; [done|].
    apply (filled_app [(n, h)] l m m1 m'); [|done]. split; [done| |done|done].
    intros j. rewrite Hh1, orb_true_iff, Z.eqb_eq. split; intros [Hj|Hj].
    + right. exists (n, h). split; [by left|]. by subst j.
    + by left.
    + by right.
    + left. destruct Hj as (e & He & Ee). apply list_elem_of_singleton in He as ->. cbn in Ee. congruence.
  - destruct (IH m Hok Hl') as (m' & E & Hf). exists m'. split; [done|].
    apply (filled_app [(n, h)] l m m m'); [|done]. split; [done| |done|done].
    intros j. split; [by left|]. intros [Hj|(e & He & Ee)]; [done|].
    apply list_elem_of_singleton in He as ->. cbn in Ee. congruence.
Qed.

Context {W : Type} {P : PvfsOps W} {V : PvfsView W} {L : PvfsSpec W}.

(** The batches from position [pos] cover the rest of the listing. *)
Lemma fill_batches_ok n pos m ref c w es :
  fs_ok w -> dirs w (Pvfs.handle ref) = Some es -> bitmap_ok (bitmap m) ->
  (forall i, names_part es i -> 0 <= i < 1029) -> pos <> 1%nat -> (pos <= length es)%nat ->
  (length es < 32 * n + pos)%nat ->
  exists m' w', fill_batches n m ref c (token_at pos) w = Ret (m', w') /\ quiet w w' /\
    filled (drop pos es) m m'.
Proof.
  revert pos m w. induction n as [|n IH]; intros pos m w Hok Hd Hm Hes Hp1 Hpl Hn; [lia|].
  destruct (names_ok w _ es Hok Hd) as (_ & _ & Hsmall).
  destruct (start_token_at pos Hp1) as [Ht Hfrom]; [lia|].
  destruct (readdir_from w c ref (start_token (token_at pos)) 32 es Hok Hd) as (w1 & E & Hq); [lia|done|].
  cbv zeta in Hfrom. rewrite Hfrom in E. cbv zeta in E. rewrite Nat2Z.id in E.
  change (Z.to_nat 32) with 32%nat in E. cbn [fill_batches]. rewrite E. cbn [Z.ltb Z.compare].
  set (batch := take 32 (drop pos es)) in *. cbn [dirent_array].
  destruct (fill_entries_ok batch m Hm) as (m1 & E1 & Hf1).
  { intros i (e & He & Ee). apply Hes. exists e. split; [|done]. eapply elem_of_sublist; [apply batch_sublist|exact He]. }
  change ((fun e : string * Z => mkDirent e.1 e.2) <$> batch) with (dirents batch). rewrite E1, bind_Ret.
  unfold outcount. cbn [dirent_array]. unfold dirents. rewrite length_fmap.
  assert (Hlen : length batch = Nat.min 32 (length es - pos)) by (unfold batch; by rewrite length_take, length_drop).
  destruct (Z.eqb_spec (Z.of_nat (length batch)) 32) as [Ef|Ef].
  - rewrite next_token_at by lia. replace (length batch) with 32%nat by lia.
    destruct (IH (pos + 32)%nat m1 w1) as (m' & w' & E2 & Hq2 & Hf2); try done; [apply Hq| |apply Hf1|lia|lia|lia|].
    { by rewrite (quiet_dirs _ _ _ Hq). }
    exists m', w'. split; [done|]. split; [by eapply quiet_trans|].
    rewrite <- (take_drop 32 (drop pos es)), drop_drop. by eapply filled_app.
  - exists m1, w1. split; [done|]. split; [done|]. unfold batch in Hf1. rewrite take_ge in Hf1; [done|].
    rewrite length_drop. lia.
Qed.

Lemma fill_bitmap_ok fuel m ref w es :
  fs_ok w -> dirs w (Pvfs.handle ref) = Some es -> bitmap_ok (bitmap m) ->
  (forall i, names_part es i -> 0 <= i < 1029) -> (length es < 32 * fuel)%nat ->
  exists m' w', fill_bitmap fuel m ref w = Ret (m', w') /\ quiet w w' /\ filled es m m'.
Proof.
  intros Hok Hd Hm Hes Hn. unfold fill_bitmap.
  destruct (credentials_quiet w Hok) as (c & w1 & -> & Hq1).
  destruct (fill_batches_ok fuel 0 m ref c w1 es) as (m' & w' & E & Hq2 & Hf); try done; [apply Hq1| |lia|lia|].
  { by rewrite (quiet_dirs _ _ _ Hq1). }
  exists m', w'. split; [done|]. split; [by eapply quiet_trans|done].
Qed.

End Filling.

Section Loading.
Import Pvfs Giga Tree Server Cache.
Context {W : Type} {P : PvfsOps W} {V : PvfsView W} {L : PvfsSpec W}.
#[local] Abbreviation St := (server * W)%type.
Variables (self : Z) (fuel : nat) (ref : PVFS_object_ref) (s : server) (es : list (string * Z)) (z : Z).

(** Every entry is a partition, every partition's parent is there, and PVFS knows the
    directory's server. *)
Record partitioned : Prop := mkPartitioned {
  pt_names : forall e, e ∈ es -> exists i, 0 <= i < 512 /\ e.1 = PartName.physical_path i;
  pt_tree : forall i, 0 < i < 512 -> PartName.physical_path i ∈ es.*1 ->
    Tree.parent i = 0 \/ PartName.physical_path (Tree.parent i) ∈ es.*1;
  pt_server : forall w : W, fs_ok w -> exists w', Conn.pvfs_get_mds (conn s) ref w = Ret (z, w') /\ quiet w w';
  pt_zeroth : 0 <= z < 2 ^ 32;
  pt_count : 1 <= Conn.servercount (Conn.opts (conn s)) < 2 ^ 30
}.

Hypothesis Hpt : partitioned.

(** The mapping that belongs to the listing. *)
Definition recovered (m : giga_mapping_t) : Prop :=
  wf_mapping m /\ zeroth_server m = z /\ server_count m = Conn.servercount (Conn.opts (conn s)) /\
  forall i, has (bitmap m) i = true <-> i = 0 \/ 0 <= i < 512 /\ PartName.physical_path i ∈ es.*1.

Lemma names_part_iff i : names_part es i <-> 0 <= i < 512 /\ PartName.physical_path i ∈ es.*1.
Proof.
  split.
  - intros (e & He & Es). destruct (pt_names Hpt e He) as (j & Hj & Ej).
    rewrite Ej, scan_part_physical_path in Es by lia. injection Es as <-. split; [done|]. rewrite <- Ej.
    by eapply list_elem_of_fmap_2.
  - intros (Hi & Hin). apply list_elem_of_fmap in Hin as (e & Ee & He). exists e. split; [done|].
    rewrite <- Ee. apply scan_part_physical_path. lia.
Qed.

Lemma filled_recovered m m' :
  wf_mapping m -> (forall i, has (bitmap m) i = (i =? 0)) -> zeroth_server m = z ->
  server_count m = Conn.servercount (Conn.opts (conn s)) -> filled es m m' -> recovered m'.
Proof.
  intros Hwf H0 Hz Hc [F1 F2 F3 F4].
  assert (Hh : forall i, has (bitmap m') i = true <-> i = 0 \/ 0 <= i < 512 /\ PartName.physical_path i ∈ es.*1).
  { intros i. by rewrite F2, names_part_iff, H0, Z.eqb_eq. }
  split; [|split_and!; [congruence|congruence|done]].
  destruct Hwf as (_ & _ & Hcnt & Hzr). split; [done|]. rewrite F3, F4. split; [|done]. split_and!.
  - apply Hh. by left.
  - intros i Hi. apply Hh in Hi as [->|(Hi & Hin)]; apply Hh; [by left|].
    destruct (Z.eq_dec i 0) as [->|]; [by left|].
    assert (Hpr := parent_range i ltac:(lia)). destruct (pt_tree Hpt i) as [Hp|Hp]; [lia|done|by left|].
    right. split; [lia|done].
  - intros i Hi. apply Hh in Hi as [->|[Hi _]]; lia.
Qed.

(** A directory object as [new_directory] leaves it. *)
Definition loaded (d : skye_directory) : Prop :=
  Server.handle d = ref /\ refcount d = 1 /\ splitting_index d = -1 /\ rwlock d = Rwlock.unlocked /\
  recovered (mapping d).

Definition with_directory (a : positive) (d : skye_directory) : server :=
  set_heap (<[a := d]> (heap s)) (set_dircache (<[ref := a]> (dircache s)) s).

Lemma wp_quiet_sys {A} (f : W -> A * W) w (Q : A -> St -> Prop) :
  (exists x w', f w = (x, w') /\ quiet w w') -> (forall x w', f w = (x, w') -> quiet w w' -> Q x (s, w')) ->
  wp no_crash (sys f) Q (s, w).
Proof. intros (x & w' & E & Hq) HQ. eapply wp_sys_eq; [exact E|]. by apply HQ. Qed.

(** [new_directory] called in [w] gets no memory for the object, or no lock. *)
Definition no_object (w : W) : Prop :=
  (malloc w).1 = false \/ (malloc w).1 = true /\ (pthread_rwlock_init (malloc (malloc w).2).2).1 <> 0.

Lemma wp_load w (Q : option positive -> St -> Prop) :
  fs_ok w -> dirs w (Pvfs.handle ref) = Some es -> (length es < 32 * fuel)%nat ->
  (forall w', no_object w -> quiet w w' -> Q None (s, w')) ->
  (forall a d w', ~ no_object w -> quiet w w' -> heap s !! a = None -> loaded d -> Q (Some a) (with_directory a d, w')) ->
  wp no_crash (new_directory fuel ref) Q (s, w).
Proof.
  intros Hok Hd Hn HN HS. unfold new_directory. apply wp_bind.
  apply wp_quiet_sys; [by apply malloc_quiet|]. intros ok w1 E1 Q1.
  destruct ok; [|apply wp_ret, HN; [left; by rewrite E1|done]].
  cbn [negb]. apply wp_bind, wp_quiet_sys; [by apply malloc_quiet, (quiet_ok w)|]. intros c w2 E2 Q2.
  assert (Q02 := quiet_trans _ _ _ Q1 Q2). apply wp_bind, wp_quiet_sys; [by apply rwlock_init_quiet, (quiet_ok w)|].
  intros rc w3 E3 Q3. assert (Q03 := quiet_trans _ _ _ Q02 Q3).
  assert (Hno : no_object w <-> rc <> 0) by (unfold no_object; rewrite E1; cbn; rewrite E2; cbn; rewrite E3; naive_solver).
  destruct (Z.eqb_spec rc 0) as [Erc|Hrc]; [|apply wp_ret, HN; [by apply Hno|done]].
  cbn [negb]. apply wp_bind, wp_getl, wp_bind, wp_in_world. cbn [fst snd].
  destruct (pt_server Hpt w3 (quiet_ok _ _ Q03)) as (w4 & E4 & Q4). eapply wp_Ret; [exact E4|].
  assert (Q04 := quiet_trans _ _ _ Q03 Q4). destruct (pt_count Hpt) as [Hc1 Hc2]. apply wp_bind, wp_lift.
  assert (Hz := pt_zeroth Hpt). rewrite (u32_small z), u32_small by lia.
  destruct (giga_init_mapping (-1) z _) as [m|] eqn:Ei; [|discriminate].
  destruct (init_ok z (Conn.servercount (Conn.opts (conn s))) m Hz) as (I1 & I2 & I3 & I4); [lia|exact Ei|].
  apply wp_bind, wp_modl, wp_bind, wp_modl, wp_bind, wp_in_world. cbn [fst snd].
  destruct (fill_bitmap_ok fuel m ref w4 es) as (m' & w5 & E5 & Q5 & Hf);
    [by apply (quiet_ok w)|by rewrite (quiet_dirs _ _ _ Q04)|apply I1| |done|].
  { intros i Hi%names_part_iff. lia. }
  eapply wp_Ret; [exact E5|]. set (a := fresh (dom (heap s))).
  assert (Ha : heap s !! a = None) by (apply not_elem_of_dom, is_fresh).
  apply wp_bind. unfold update. apply wp_bind. eapply wp_Ret.
  { unfold deref. cbn. by rewrite lookup_insert_eq. }
  apply wp_modl, wp_ret. cbn [fst snd heap set_heap set_dircache].
  rewrite insert_insert_eq. apply (HS a); [by intros Hx%Hno|by eapply quiet_trans|done|].
  split_and!; try done. cbn [mapping set_mapping]. apply (filled_recovered m); try done. rewrite I3. lia.
Qed.

Lemma wp_load_fetch w (Q : option positive -> St -> Prop) :
  fs_ok w -> dirs w (Pvfs.handle ref) = Some es -> (length es < 32 * fuel)%nat ->
  dircache s !! ref = None -> (forall w', no_object w -> quiet w w' -> Q None (s, w')) ->
  (forall a d w', ~ no_object w -> quiet w w' -> heap s !! a = None -> loaded d ->
     Q (Some a) (with_directory a (set_rwlock (Rwlock.mkLock 1 None) (set_refcount 2 d)), w')) ->
  wp no_crash (cache_fetch self fuel ref) Q (s, w).
Proof.
  intros Hok Hd Hn Hm HN HS. unfold cache_fetch, fetch. apply wp_bind, wp_bind, wp_getl. cbn [fst].
  rewrite Hm. apply wp_bind, wp_load; [done|done|done| |].
  - intros w' Hno Hq. apply wp_ret, wp_ret. by apply HN.
  - intros a d w' Hno Hq Ha Hl. specialize (HS a d w' Hno Hq Ha Hl). destruct Hl as (_ & Hr & _ & Hlk & _).
    apply wp_bind. unfold update. apply wp_bind.
    eapply wp_Ret; [unfold deref; cbn; by rewrite lookup_insert_eq|]. apply wp_modl, wp_ret.
    apply wp_bind. unfold lock_with. apply wp_bind.
    eapply wp_Ret; [unfold deref; cbn; by rewrite lookup_insert_eq|]. apply wp_bind, wp_lift.
    cbn [rwlock set_refcount]. rewrite Hlk.
    assert (El : Rwlock.rdlock self Rwlock.unlocked = Ret (0, Rwlock.mkLock 1 None)) by reflexivity.
    rewrite El. cbv beta iota. apply wp_modl, wp_ret. cbn [fst snd].
    rewrite Hr. cbn [heap set_heap with_directory]. rewrite !insert_insert_eq. exact HS.
Qed.

End Loading.

Section ReloadProperties.
Import Pvfs Giga Tree Server Cache.

(** C12 Recovery of a mapping: when a server fetches a directory it has not cached, on a
    PVFS that lists directories by position, [cache_fetch] returns.  If the object
    cannot be allocated or its lock not be initialised, it returns NULL and nothing has
    changed; otherwise, and only then, the cache has one new object, held
    once by the table and once, with a read lock, by the caller, and its mapping is
    well formed and has exactly partition 0 and the partitions whose directories PVFS
    lists, however many batches the listing takes. *)
Theorem cache_miss_recovers {W} {P : PvfsOps W} {V : PvfsView W} {L : PvfsSpec W} (self : Z) (fuel : nat)
  (ref : PVFS_object_ref) (s : server) (w : W) (es : list (string * Z)) (z : Z)
  (Hpt : partitioned (W := W) ref s es z) (Hok : fs_ok w) (Hd : dirs w (Pvfs.handle ref) = Some es)
  (Hmiss : dircache s !! ref = None) (Hfuel : (length es < 32 * fuel)%nat) :
  exists r s' w', cache_fetch self fuel ref (s, w) = Ret (r, (s', w')) /\ quiet w w' /\
    (no_object w /\ r = None /\ s' = s \/
     ~ no_object w /\ exists a d, r = Some a /\ heap s !! a = None /\ s' = with_directory ref s a d /\
       Server.handle d = ref /\ refcount d = 2 /\ splitting_index d = -1 /\
       rwlock d = Rwlock.mkLock 1 None /\ wf_mapping (mapping d) /\ zeroth_server (mapping d) = z /\
       forall i, has (bitmap (mapping d)) i = true <->
         i = 0 \/ 0 <= i < 512 /\ PartName.physical_path i ∈ es.*1).
Proof.
  destruct (wp_run (cache_fetch self fuel ref) (fun r s' => quiet w s'.2 /\
    (no_object w /\ r = None /\ s'.1 = s \/ ~ no_object w /\ exists a d, r = Some a /\ heap s !! a = None /\ loaded ref s es z d /\
       s'.1 = with_directory ref s a (set_rwlock (Rwlock.mkLock 1 None) (set_refcount 2 d)))) (s, w))
    as (r & [s' w'] & E & Hq & Hr).
  { apply (wp_load_fetch self fuel ref s es z Hpt); try done.
    - intros w' Hno Hq. split; [done|]. by left.
    - intros a d w' Hno Hq Ha Hl. split; [done|]. right. split; [done|]. by exists a, d. }
  exists r, s', w'. split; [done|]. split; [done|].
  destruct Hr as [Hr|(Hno & a & d & -> & Ha & (L1 & L2 & L3 & L4 & R1 & R2 & R3 & R4) & Es)]; [by left|right].
  split; [done|]. eexists a, _. split; [done|]. split; [done|]. split; [exact Es|]. by split_and!.
Qed.

(** A directory of forty partitions. *)
Definition forty : list (string * Z) :=
  (fun i => (PartName.physical_path (Z.of_nat i), 100 + Z.of_nat i)) <$> seq 0 40.

Definition forty_fs : MemFs.mem := MemFs.mkMem {[ 1 := MemFs.Dir forty ]} 200 1000 1.

Lemma forty_in i : 0 <= i < 2 ^ 31 -> PartName.physical_path i ∈ forty.*1 <-> i < 40.
Proof.
  intros Hi. unfold forty. rewrite <- list_fmap_compose. rewrite list_elem_of_fmap. split.
  - intros (k & E & Hk). cbn [compose fst] in E. apply physical_path_inj in E; [|lia|apply elem_of_seq in Hk; lia].
    apply elem_of_seq in Hk. lia.
  - intros H40. exists (Z.to_nat i). cbn [compose fst]. rewrite Z2Nat.id by lia. split; [done|]. apply elem_of_seq. lia.
Qed.

Lemma forty_partitioned : partitioned (W := MemFs.mem) (mkRef 1 7) idle_server forty 0.
Proof.
  split.
  - intros e He. unfold forty in He. apply list_elem_of_fmap in He as (k & -> & Hk). apply elem_of_seq in Hk.
    exists (Z.of_nat k). cbn. split; [lia|done].
  - intros i Hi Hin. apply forty_in in Hin; [|lia]. assert (Hp := parent_range i ltac:(lia)).
    right. apply forty_in; lia.
  - intros w Hw. exists w. split; [|by apply mem_quiet_refl]. destruct Hw as [_ Hs].
    unfold Conn.pvfs_get_mds. cbn. by rewrite Hs.
  - lia.
  - cbn. lia.
Qed.

Lemma cache_miss_recovers_witness :
  exists a s' w', cache_fetch 1 2 (mkRef 1 7) (idle_server, forty_fs) = Ret (Some a, (s', w')) /\
    exists d, heap s' !! a = Some d /\ refcount d = 2 /\ wf_mapping (mapping d) /\
      has (bitmap (mapping d)) 39 = true.
Proof.
  destruct (cache_miss_recovers (W := MemFs.mem) 1 2 (mkRef 1 7) idle_server forty_fs forty 0)
    as (r & s' & w' & E & Hq & [(Hno & _) | (_ & a & d & -> & Ha & -> & _ & Hr & _ & _ & Hwf & _ & Hh)]).
  - exact forty_partitioned.
  - split; [apply mem_okb_ok; vm_compute; reflexivity|reflexivity].
  - reflexivity.
  - reflexivity.
  - unfold forty. rewrite length_fmap, length_seq. lia.
  - exfalso. destruct Hno as [Hno|[_ Hno]]; [discriminate|by apply Hno].
  - exists a, (with_directory (mkRef 1 7) idle_server a d), w'. split; [exact E|]. exists d.
    split; [apply lookup_insert_eq|]. split; [exact Hr|]. split; [exact Hwf|].
    apply Hh. right. split; [lia|]. apply forty_in; lia.
Defined.

End ReloadProperties.
