(* ===== verification/Directory.v ===== *)
(** * A distributed directory, abstractly

    What a logical directory is, seen from the file system: partition directories below
    the logical directory's object, each file in the partition that owns the hash of its
    name.  [placed] is the invariant that makes a directory usable and [listed] its
    contents.  A split changes the mapping and the partitions; [split_placed] shows
    that the invariant and the contents survive it. *)

From S2P Require Import Prelude Sha GigaIndex Names Pvfs ServerCache Split Placement.

#[local] Open Scope Z_scope.

Section Assoc.
Import Pvfs.

Lemma assoc_perm n (l k : list (string * Z)) : NoDup l.*1 -> l ≡ₚ k -> assoc n l = assoc n k.
Proof.
  intros Hl Hp. assert (Hk : NoDup k.*1) by (by rewrite <- Hp). destruct (assoc n l) as [h|] eqn:El.
  - apply assoc_In in El. rewrite Hp in El. symmetry. by apply assoc_Some.
  - apply assoc_None in El. rewrite Hp in El. symmetry. by apply assoc_None.
Qed.

Lemma assoc_cons_ne n m h (l : list (string * Z)) : m <> n -> assoc n ((m, h) :: l) = assoc n l.
Proof. intros Hne. cbn. by rewrite decide_False. Qed.

Lemma assoc_filter (P : string * Z -> Prop) `{!forall x, Decision (P x)} n h (l : list (string * Z)) :
  NoDup l.*1 -> assoc n (filter P l) = Some h <-> assoc n l = Some h /\ P (n, h).
Proof.
  intros Hnd. assert (Hf : NoDup (filter P l).*1)
    by (eapply sublist_NoDup; [exact Hnd|]; by apply fmap_sublist, sublist_filter). split.
  - intros Hin%assoc_In%list_elem_of_filter. destruct Hin as [HP Hin]. split; [by apply assoc_Some|done].
  - intros [Hin%assoc_In HP]. apply assoc_Some; [done|]. by apply list_elem_of_filter.
Qed.

End Assoc.

Section Directory.
Import Pvfs Giga Tree.
Context {W : Type} {V : PvfsView W}.

(** Partition [i] of the directory object [p]: its own object and its entries. *)
Definition part_dir (w : W) (p i hp : Z) (es : list (string * Z)) : Prop :=
  exists ps, dirs w p = Some ps /\ assoc (PartName.physical_path i) ps = Some hp /\ dirs w hp = Some es.

(** The partitions of the mapping exist, and only those; they are different objects;
    every file is in the partition that owns its name. *)
Record placed (w : W) (p : Z) (m : giga_mapping_t) : Prop := mkPlaced {
  pl_part : forall i, has (bitmap m) i = true -> exists hp es, part_dir w p i hp es;
  pl_only : forall i ps, 0 <= i < 512 -> dirs w p = Some ps -> PartName.physical_path i ∈ ps.*1 ->
    has (bitmap m) i = true;
  pl_apart : forall i j h es es', has (bitmap m) i = true -> has (bitmap m) j = true ->
    part_dir w p i h es -> part_dir w p j h es' -> i = j;
  pl_root : forall i h es, has (bitmap m) i = true -> part_dir w p i h es -> h <> p;
  pl_home : forall i hp es e, has (bitmap m) i = true -> part_dir w p i hp es -> e ∈ es ->
    owner (bitmap m) (name_hash e.1) i
}.

(** The directory lists name [n] with handle [k]. *)
Definition listed (w : W) (p : Z) (m : giga_mapping_t) (n : string) (k : Z) : Prop :=
  exists i hp es, owner (bitmap m) (name_hash n) i /\ part_dir w p i hp es /\ assoc n es = Some k.

Lemma part_dir_fun w p i h es h' es' :
  part_dir w p i h es -> part_dir w p i h' es' -> h = h' /\ es = es'.
Proof. intros (ps & E1 & E2 & E3) (ps' & F1 & F2 & F3). naive_solver congruence. Qed.

Lemma part_dir_same w w' p i h es :
  (forall k, dirs w' k = dirs w k) -> part_dir w p i h es <-> part_dir w' p i h es.
Proof. intros Hd. unfold part_dir. setoid_rewrite Hd. done. Qed.

Lemma placed_quiet w w' p m : quiet w w' -> placed w p m -> placed w' p m.
Proof.
  intros [_ Hq] [H1 H2 H3 H4 H5]. assert (Hs := fun i h es => part_dir_same w w' p i h es Hq).
  split.
  - intros i Hi. destruct (H1 i Hi) as (hp & es & Hp). exists hp, es. by apply Hs.
  - intros i ps Hi Hd. rewrite Hq in Hd. eauto.
  - intros i j h es es' Hi Hj A B. apply Hs in A, B. eauto.
  - intros i h es Hi A. apply Hs in A. eauto.
  - intros i hp es e Hi A. apply Hs in A. eauto.
Qed.

Lemma listed_quiet w w' p m n k : quiet w w' -> listed w' p m n k <-> listed w p m n k.
Proof.
  intros [_ Hq]. unfold listed. setoid_rewrite (part_dir_same w w' p _ _ _ Hq). done.
Qed.

(** ** A split *)

Section Splitting.
Variables (w w' : W) (p pi k ph ch : Z) (m m' : giga_mapping_t) (ps ps' es ec : list (string * Z)).
Let c := pi + 2 ^ k.
Hypotheses (Hwf : wf_mapping m) (Hpl : placed w p m) (Hpi : has (bitmap m) pi = true)
  (Hk : radix_of pi <= k) (Hc : c < 512) (Hnc : has (bitmap m) c = false)
  (Hm' : forall i, has (bitmap m') i = (i =? c) || has (bitmap m) i).
Hypotheses (Hps : dirs w p = Some ps) (Hnd : NoDup ps.*1) (Hndp : NoDup ps'.*1)
  (Hph : assoc (PartName.physical_path pi) ps = Some ph)
  (Hes : dirs w ph = Some es) (Hch : dirs w ch = None) (Hnde : NoDup es.*1) (Hndc : NoDup ec.*1).
Hypotheses (Hps' : ps' ≡ₚ (PartName.physical_path c, ch) :: ps)
  (Hec : ec ≡ₚ filter (migrates c) es)
  (Hw' : forall h, dirs w' h = if decide (h = p) then Some ps' else if decide (h = ph) then Some (filter (stays c) es)
                              else if decide (h = ch) then Some ec else dirs w h).

Lemma split_child_range : 0 <= pi < 512 /\ 0 < 2 ^ k /\ 0 <= c.
Proof.
  assert (H0 := has_nonneg _ _ Hpi). destruct (radix_of_range pi H0) as [Hr _].
  assert (0 < 2 ^ k) by (apply Z.pow_pos_nonneg; lia). unfold c in *. lia.
Qed.

Lemma split_pi_dir : part_dir w p pi ph es.
Proof. by exists ps. Qed.

Lemma split_ph_root : ph <> p /\ ch <> p /\ ch <> ph.
Proof. split; [apply (pl_root _ _ _ Hpl pi ph es Hpi split_pi_dir)|]. split; intros E; congruence. Qed.

Lemma split_old_assoc i : has (bitmap m) i = true ->
  assoc (PartName.physical_path i) ps' = assoc (PartName.physical_path i) ps.
Proof.
  intros Hi. rewrite (assoc_perm _ ps' _ Hndp Hps'). apply assoc_cons_ne. intros E.
  destruct split_child_range as (Hr & _ & Hc0). assert (Hi0 := has_nonneg _ _ Hi).
  assert (Hi5 : i < 512) by (by apply Hwf). apply physical_path_inj in E; [|lia|lia]. congruence.
Qed.

(** A partition of the old mapping afterwards. *)
Lemma split_old_dir i hp l : has (bitmap m) i = true ->
  part_dir w' p i hp l <->
  exists l0, part_dir w p i hp l0 /\ l = if decide (i = pi) then filter (stays c) l0 else l0.
Proof.
  intros Hi. destruct split_ph_root as (Hphp & Hchp & Hcph). split.
  - intros (qs & E1 & E2 & E3). rewrite Hw', decide_True in E1 by done. injection E1 as <-.
    rewrite split_old_assoc in E2 by done. destruct (pl_part _ _ _ Hpl i Hi) as (h0 & l0 & Hd).
    assert (Hd0 := Hd). destruct Hd0 as (ps0 & F1 & F2 & F3). rewrite Hps in F1. injection F1 as <-.
    rewrite E2 in F2. injection F2 as <-. exists l0. split; [done|].
    assert (hp <> p) by (by eapply (pl_root _ _ _ Hpl)). rewrite Hw', decide_False in E3 by done.
    destruct (decide (i = pi)) as [->|Hne].
    + rewrite Hph in E2. injection E2 as <-. rewrite decide_True in E3 by done. congruence.
    + assert (hp <> ph). { intros ->. apply Hne. eapply (pl_apart _ _ _ Hpl); [done|done|exact Hd|apply split_pi_dir]. }
      assert (hp <> ch) by congruence. rewrite !decide_False in E3 by done. congruence.
  - intros (l0 & Hd & ->). assert (Hd0 := Hd). destruct Hd0 as (ps0 & F1 & F2 & F3). rewrite Hps in F1.
    injection F1 as <-. exists ps'. rewrite Hw', decide_True, split_old_assoc by done. split; [done|].
    split; [done|]. assert (hp <> p) by (by eapply (pl_root _ _ _ Hpl)). rewrite Hw', decide_False by done.
    destruct (decide (i = pi)) as [->|Hne].
    + rewrite Hph in F2. injection F2 as <-. rewrite decide_True by done. congruence.
    + assert (hp <> ph). { intros ->. apply Hne. eapply (pl_apart _ _ _ Hpl); [done|done|exact Hd|apply split_pi_dir]. }
      assert (hp <> ch) by congruence. by rewrite !decide_False.
Qed.

Lemma split_new_dir hp l : part_dir w' p c hp l <-> hp = ch /\ l = ec.
Proof.
  destruct split_ph_root as (Hphp & Hchp & Hcph). unfold part_dir. rewrite Hw', decide_True by done.
  assert (Ea : assoc (PartName.physical_path c) ps' = Some ch).
  { rewrite (assoc_perm _ ps' _ Hndp Hps'). cbn. by rewrite decide_True. }
  assert (Ed : dirs w' ch = Some ec) by (rewrite Hw', !decide_False, decide_True by done; done). split.
  - intros (qs & [= <-] & E2 & E3). rewrite Ea in E2. injection E2 as <-. split; [done|congruence].
  - intros [-> ->]. by exists ps'.
Qed.

Lemma split_owner h i : owner (bitmap m) h i ->
  (covers c h = true -> i = pi) /\ owner (bitmap m') h (if covers c h then c else i).
Proof. intros Ho. apply (owner_split (bitmap m)); try done. apply Hwf. Qed.

Lemma has_split_inv i : has (bitmap m') i = true -> i = c \/ has (bitmap m) i = true /\ i <> c.
Proof.
  rewrite Hm'. intros [E%Z.eqb_eq|E]%orb_true_iff; [by left|right]. split; [done|]. intros ->. congruence.
Qed.

Lemma split_moved e : e ∈ ec <-> e ∈ es /\ migrates c e.
Proof. rewrite Hec, list_elem_of_filter. tauto. Qed.

(** An entry of an old partition that is still there does not migrate. *)
Lemma split_kept i hp l l0 e : has (bitmap m) i = true -> part_dir w p i hp l0 ->
  l = (if decide (i = pi) then filter (stays c) l0 else l0) -> e ∈ l ->
  e ∈ l0 /\ owner (bitmap m') (name_hash e.1) i.
Proof.
  intros Hi Hd -> He. assert (He0 : e ∈ l0).
  { destruct (decide (i = pi)); [|done]. by apply list_elem_of_filter in He as [_ He]. }
  split; [done|]. assert (Ho := pl_home _ _ _ Hpl i hp l0 e Hi Hd He0).
  destruct (split_owner _ _ Ho) as [Hmv Ho']. destruct (covers c (name_hash e.1)) eqn:Ec; [|done].
  rewrite Hmv in He by done. rewrite decide_True in He by done.
  apply list_elem_of_filter in He as [Hs _]. by destruct Hs.
Qed.

Lemma split_placed : placed w' p m'.
Proof.
  destruct split_child_range as (Hr & _ & Hc0). destruct split_ph_root as (Hphp & Hchp & Hcph).
  assert (Hold : forall i hp l, has (bitmap m) i = true -> part_dir w' p i hp l -> hp <> ch).
  { intros i hp l Hi Hd ->. apply split_old_dir in Hd as (l0 & (qs & _ & _ & E) & _); [|done]. congruence. }
  split.
  - intros i [->|[Hi _]]%has_split_inv; [exists ch, ec; by apply split_new_dir|].
    destruct (pl_part _ _ _ Hpl i Hi) as (hp & l0 & Hd). eexists hp, _. apply split_old_dir; [done|]. by exists l0.
  - intros i qs Hi E Hin. rewrite Hw', decide_True in E by done. injection E as <-. rewrite Hps' in Hin.
    cbn in Hin. rewrite Hm'. apply orb_true_iff. apply elem_of_cons in Hin as [E|Hin]; [left|right].
    + apply physical_path_inj in E; lia.
    + by eapply (pl_only _ _ _ Hpl).
  - intros i j h l l' [->|[Hi _]]%has_split_inv [->|[Hj _]]%has_split_inv Hd Hd'; [done| | |].
    + apply split_new_dir in Hd as [-> _]. by apply Hold in Hd'.
    + apply split_new_dir in Hd' as [-> _]. by apply Hold in Hd.
    + apply split_old_dir in Hd as (l0 & Hd & _), Hd' as (l1 & Hd' & _); [|done|done].
      by eapply (pl_apart _ _ _ Hpl).
  - intros i h l [->|[Hi _]]%has_split_inv Hd; [by apply split_new_dir in Hd as [-> _]|].
    apply split_old_dir in Hd as (l0 & Hd & _); [|done]. by eapply (pl_root _ _ _ Hpl).
  - intros i hp l e [->|[Hi _]]%has_split_inv Hd He.
    + apply split_new_dir in Hd as [_ ->]. apply split_moved in He as [He Hmg].
      destruct (split_owner (name_hash e.1) pi) as [_ Ho]; [exact (pl_home _ _ _ Hpl pi ph es e Hpi split_pi_dir He)|].
      by rewrite Hmg in Ho.
    + apply split_old_dir in Hd as (l0 & Hd & El); [|done]. by eapply split_kept.
Qed.

(** Every name is found where it was found before, and with the same handle. *)
Lemma split_listed n h : listed w' p m' n h <-> listed w p m n h.
Proof.
  split.
  - intros (i & hp & l & Ho & Hd & Ha). destruct (has_split_inv i) as [->|[Hi _]]; [apply Ho| |].
    + apply split_new_dir in Hd as [_ ->]. apply assoc_In, split_moved in Ha as [Ha _].
      exists pi, ph, es. split; [exact (pl_home _ _ _ Hpl pi ph es (n, h) Hpi split_pi_dir Ha)|].
      split; [apply split_pi_dir|]. by apply assoc_Some.
    + apply split_old_dir in Hd as (l0 & Hd & El); [|done].
      destruct (split_kept i hp l l0 (n, h) Hi Hd El (assoc_In _ _ _ Ha)) as [Hin _].
      exists i, hp, l0. split; [exact (pl_home _ _ _ Hpl i hp l0 (n, h) Hi Hd Hin)|]. split; [done|].
      destruct (decide (i = pi)) as [->|]; [|by subst l]. subst l.
      destruct (part_dir_fun w p pi hp l0 ph es Hd split_pi_dir) as [-> ->]. by apply assoc_Some.
  - intros (i & hp & l0 & Ho & Hd & Ha). destruct (split_owner _ _ Ho) as [Hmv Ho'].
    destruct (covers c (name_hash n)) eqn:Ec.
    + rewrite Hmv in Hd by done. destruct (part_dir_fun w p pi hp l0 ph es Hd split_pi_dir) as [-> ->].
      exists c, ch, ec. split; [done|]. split; [by apply split_new_dir|]. apply assoc_Some; [done|].
      apply split_moved. split; [by apply assoc_In|done].
    + eexists i, hp, _. split; [done|]. split; [apply split_old_dir; [apply Ho|]; by exists l0|].
      destruct (decide (i = pi)) as [->|]; [|done].
      destruct (part_dir_fun w p pi hp l0 ph es Hd split_pi_dir) as [-> ->].
      apply assoc_filter; [done|]. split; [done|]. unfold stays, migrates. cbn. by rewrite Ec.
Qed.

End Splitting.

(** ** A change of the partitions' entries *)

(** Partition [j] with entries [l] lists [new j l] afterwards; the partitions stay. *)
Definition rewritten (p : Z) (m : giga_mapping_t) (new : Z -> list (string * Z) -> list (string * Z)) (w w' : W) : Prop :=
  fs_ok w' /\ dirs w' p = dirs w p /\
  forall j q l, has (bitmap m) j = true -> part_dir w p j q l -> dirs w' q = Some (new j l).

(** The new entries of each partition have names that it owns. *)
Definition at_home (w : W) (p : Z) (m : giga_mapping_t) (new : Z -> list (string * Z) -> list (string * Z)) : Prop :=
  forall j q l e, has (bitmap m) j = true -> part_dir w p j q l -> e ∈ new j l -> owner (bitmap m) (name_hash e.1) j.

Section Changing.
Variables (w w' : W) (p : Z) (m : giga_mapping_t) (new : Z -> list (string * Z) -> list (string * Z)).
Hypotheses (Hpl : placed w p m) (Hhome : at_home w p m new) (Hr : rewritten p m new w w').

Lemma change_dir j q l : has (bitmap m) j = true ->
  part_dir w' p j q l <-> exists l0, part_dir w p j q l0 /\ l = new j l0.
Proof.
  intros Hj. destruct Hr as (_ & Hp & Hw). split.
  - intros (ps & E1 & E2 & E3). rewrite Hp in E1. destruct (pl_part _ _ _ Hpl j Hj) as (q0 & l0 & D).
    assert (D0 := D). destruct D0 as (ps0 & F1 & F2 & F3). assert (q0 = q) as -> by congruence. exists l0.
    split; [done|]. specialize (Hw j q l0 Hj D). congruence.
  - intros (l0 & D & ->). assert (D0 := D). destruct D0 as (ps & E1 & E2 & E3). exists ps. rewrite Hp.
    split; [done|]. split; [done|]. by apply Hw.
Qed.

Lemma change_placed : placed w' p m.
Proof.
  split.
  - intros j Hj. destruct (pl_part _ _ _ Hpl j Hj) as (q & l & D). eexists q, _. apply change_dir; [done|]. by exists l.
  - intros j ps Hj E. destruct Hr as (_ & Hp & _). rewrite Hp in E. by apply (pl_only _ _ _ Hpl).
  - intros j k q l l' Hj Hk D D'. apply change_dir in D as (? & D & _), D' as (? & D' & _); [|done|done].
    by eapply (pl_apart _ _ _ Hpl).
  - intros j q l Hj D. apply change_dir in D as (? & D & _); [|done]. by eapply (pl_root _ _ _ Hpl).
  - intros j q l e Hj D He. apply change_dir in D as (l0 & D & ->); [|done]. by eapply Hhome.
Qed.

Lemma change_listed n k : listed w' p m n k <->
  exists j q l, owner (bitmap m) (name_hash n) j /\ part_dir w p j q l /\ assoc n (new j l) = Some k.
Proof.
  split.
  - intros (j & q & l & Ho & D & A). apply change_dir in D as (l0 & D & ->); [|apply Ho]. by exists j, q, l0.
  - intros (j & q & l & Ho & D & A). exists j, q, (new j l). split; [done|]. split; [|done].
    apply change_dir; [apply Ho|]. by exists l.
Qed.

(** What changes in the same way in every partition changes so in the directory: names
    [A] are new, of the old ones those in [B] stay. *)
Lemma change_entries n k (A B : Prop) : (A -> exists j, owner (bitmap m) (name_hash n) j) ->
  (forall j q l, owner (bitmap m) (name_hash n) j -> part_dir w p j q l ->
     assoc n (new j l) = Some k <-> A \/ B /\ assoc n l = Some k) ->
  listed w' p m n k <-> A \/ B /\ listed w p m n k.
Proof.
  intros HA Hn. rewrite change_listed. split.
  - intros (j & q & l & Ho & D & E). apply (Hn j q l Ho D) in E as [E|[HB E]]; [by left|]. right. split; [done|].
    by exists j, q, l.
  - intros [Ha|[HB (j & q & l & Ho & D & E)]].
    + destruct (HA Ha) as (j & Ho). destruct (pl_part _ _ _ Hpl j (proj1 Ho)) as (q & l & D).
      exists j, q, l. split; [done|]. split; [done|]. apply (Hn j q l Ho D). by left.
    + exists j, q, l. split; [done|]. split; [done|]. apply (Hn j q l Ho D). by right.
Qed.

End Changing.

(** The entries of one partition. *)
Definition only_at (i : Z) (es' : list (string * Z)) (j : Z) (l : list (string * Z)) : list (string * Z) :=
  if decide (j = i) then es' else l.

Section Entry.
Variables (w w' : W) (p i hp h : Z) (n : string) (m : giga_mapping_t) (es es' : list (string * Z)).
Hypotheses (Hpl : placed w p m) (Ho : owner (bitmap m) (name_hash n) i) (Hd : part_dir w p i hp es).

Lemma only_rewritten :
  fs_ok w' -> dirs w' hp = Some es' -> (forall k l, k <> hp -> dirs w k = Some l -> dirs w' k = Some l) ->
  rewritten p m (only_at i es') w w'.
Proof.
  intros Hok Hn Hw. assert (Hhp : hp <> p) by (eapply (pl_root _ _ _ Hpl), Hd; apply Ho). split_and!; [done| |].
  - assert (Hd' := Hd). destruct Hd' as (ps & E & _). rewrite E. by apply Hw.
  - intros j q l Hj D. unfold only_at. destruct (decide (j = i)) as [->|Hne].
    + by destruct (part_dir_fun _ _ _ _ _ _ _ D Hd) as [-> _].
    + apply Hw; [|by destruct D as (? & _ & _ & ?)]. intros ->. apply Hne.
      eapply (pl_apart _ _ _ Hpl); [done|apply Ho|done|done].
Qed.

Lemma relisted_rewritten : relisted hp es' w w' -> rewritten p m (only_at i es') w w'.
Proof.
  intros [Hok Hw]. apply only_rewritten; [done|by rewrite Hw, decide_True|].
  intros k l Hk Hl. by rewrite Hw, decide_False.
Qed.

(** Every name of another partition is as before. *)
Lemma only_other fs n' j q l k (A B : Prop) :
  (A -> n' = n) -> (n' <> n -> B) -> owner (bitmap m) (name_hash n') j -> part_dir w p j q l ->
  (j = i -> assoc n' fs = Some k <-> A \/ B /\ assoc n' es = Some k) ->
  assoc n' (only_at i fs j l) = Some k <-> A \/ B /\ assoc n' l = Some k.
Proof.
  intros HA HB Hj D Hi. unfold only_at. destruct (decide (j = i)) as [->|Hne].
  - destruct (part_dir_fun _ _ _ _ _ _ _ D Hd) as [_ ->]. by apply Hi.
  - assert (n' <> n) by (intros ->; apply Hne; by eapply owner_unique). tauto.
Qed.

(** A new entry. *)
Lemma add_home : es' ≡ₚ (n, h) :: es -> at_home w p m (only_at i es').
Proof.
  intros Hes j q l e Hj D. unfold only_at. destruct (decide (j = i)) as [->|]; [|by eapply (pl_home _ _ _ Hpl)].
  rewrite Hes, elem_of_cons. intros [->|He]; [done|]. by eapply (pl_home _ _ _ Hpl); [apply Ho|exact Hd|].
Qed.

Lemma add_listed n' k : rewritten p m (only_at i es') w w' -> es' ≡ₚ (n, h) :: es -> NoDup es'.*1 ->
  listed w' p m n' k <-> n' = n /\ k = h \/ n' <> n /\ listed w p m n' k.
Proof.
  intros Hr Hes Hnd. apply (change_entries w w' p m (only_at i es') Hpl Hr); [intros [-> _]; by exists i|].
  intros j q l Hj D. apply (only_other es' n' j q l k); [tauto|tauto|done|done|]. intros _.
  rewrite (assoc_perm n' es' _ Hnd Hes). cbn [assoc]. destruct (decide (n = n')) as [->|]; intuition congruence.
Qed.

(** An entry that is gone. *)
Lemma remove_home : at_home w p m (only_at i (filter (fun e => e.1 <> n) es)).
Proof.
  intros j q l e Hj D. unfold only_at. destruct (decide (j = i)) as [->|]; [|by eapply (pl_home _ _ _ Hpl)].
  intros [_ He]%list_elem_of_filter. by eapply (pl_home _ _ _ Hpl); [apply Ho|exact Hd|].
Qed.

Lemma remove_listed n' k : rewritten p m (only_at i (filter (fun e => e.1 <> n) es)) w w' -> NoDup es.*1 ->
  listed w' p m n' k <-> n' <> n /\ listed w p m n' k.
Proof.
  intros Hr Hnd. rewrite (change_entries w w' p m _ Hpl Hr n' k False (n' <> n)); [tauto|done|].
  intros j q l Hj D. apply (only_other _ n' j q l k); [tauto|tauto|done|done|]. intros _.
  rewrite (assoc_filter _ n' k es Hnd). cbn [fst]. tauto.
Qed.

End Entry.

(** ** A directory of one partition *)

Section Single.
Variables (w : W) (p h : Z) (m : giga_mapping_t) (ps es : list (string * Z)).
Hypotheses (Hm : forall i, has (bitmap m) i = (i =? 0)) (Hp : dirs w p = Some ps)
  (H0 : assoc (PartName.physical_path 0) ps = Some h)
  (Honly : forall i, 0 <= i < 512 -> PartName.physical_path i ∈ ps.*1 -> i = 0)
  (Hh : dirs w h = Some es) (Hne : h <> p).

Lemma single_part i hp l : has (bitmap m) i = true -> part_dir w p i hp l -> i = 0 /\ hp = h /\ l = es.
Proof.
  rewrite Hm. intros ->%Z.eqb_eq (ps' & E1 & E2 & E3). rewrite Hp in E1. injection E1 as <-.
  assert (hp = h) as -> by congruence. split; [done|]. split; [done|]. congruence.
Qed.

Lemma single_owner n : owner (bitmap m) (name_hash n) 0.
Proof.
  split; [by rewrite Hm|]. split; [apply covers_iff; by rewrite Z.mod_1_r|]. intros j. rewrite Hm. lia.
Qed.

Lemma single_dir : part_dir w p 0 h es.
Proof. by exists ps. Qed.

Lemma single_placed : placed w p m.
Proof.
  split.
  - intros i. rewrite Hm. intros ->%Z.eqb_eq. exists h, es. apply single_dir.
  - intros i ps' Hi E Hin. rewrite Hp in E. injection E as <-. rewrite Hm. by apply Z.eqb_eq, Honly.
  - intros i j q l l' Hi Hj D D'. apply single_part in D as [-> _], D' as [-> _]; done.
  - intros i q l Hi D. apply single_part in D as (_ & -> & _); done.
  - intros i q l e Hi D He. apply single_part in D as (-> & _); [|done]. apply single_owner.
Qed.

Lemma single_listed n k : listed w p m n k <-> assoc n es = Some k.
Proof.
  split.
  - intros (i & hp & l & Ho & D & A). by apply single_part in D as (_ & _ & ->); [|apply Ho].
  - intros A. exists 0, h, es. split; [apply single_owner|]. split; [apply single_dir|done].
Qed.

End Single.

(** The only partition of a listing with one entry. *)
Lemma lone_partition (h i : Z) :
  0 <= i < 512 -> PartName.physical_path i ∈ [(PartName.physical_path 0, h)].*1 -> i = 0.
Proof. intros Hi Hin. apply list_elem_of_singleton in Hin. apply (physical_path_inj i 0); [lia|lia|exact Hin]. Qed.

End Directory.
