(* ===== verification/Splitting.v ===== *)
(** * A whole split

    [do_split] of server/split.c from its first line to its last, on a file system that
    keeps the laws of [PvfsSpec] and [PvfsMakes]: the new partition directory is made
    on the right server, the files that belong there are moved, the owner of the new
    partition is told and the mapping records it.  Afterwards the directory is again
    [placed] and lists the same files. *)

From S2P Require Import Prelude Sha GigaIndex Names Utlist Pvfs Rpc Connection MemFs.
From S2P Require Import ServerCache Split Handlers Balance Placement Directory.

#[local] Open Scope Z_scope.

(** ** Making a directory on a given server *)

Section Making.
Import Pvfs Giga Server Cache Split.
Context {W : Type} {P : PvfsOps W} {V : PvfsView W} {L : PvfsSpec W} {K : PvfsMakes W}.
#[local] Abbreviation St := (server * W)%type.

(** PVFS spreads new directories over its servers: [tries w t] more directories may be
    made elsewhere before one is made on server [t]. *)
Class Spreads (c : Conn.conn_state) (tries : W -> Z -> nat) (bound : nat) : Prop := {
  spread_known w ref : fs_ok w ->
    exists sv w', Conn.pvfs_get_mds c ref w = Ret (sv, w') /\ quiet w w';
  spread_bound w t : fs_ok w -> (tries w t < bound)%nat;
  spread_step w cr a n p ref w1 sv w2 w3 t : fs_ok w -> 0 <= t < Conn.servercount (Conn.opts c) ->
    PVFS_sys_mkdir n p a cr w = (0, ref, w1) -> Conn.pvfs_get_mds c ref w1 = Ret (sv, w2) ->
    sv <> t -> PVFS_sys_remove n p cr w2 = (0, w3) -> (tries w3 t < tries w t)%nat
}.

Variables (s : server) (tries : W -> Z -> nat) (bound : nat).
Context {SP : Spreads (conn s) tries bound}.

(** What a new directory changes. *)
Definition made (w : W) (p : Z) (n : string) (ps : list (string * Z)) (h : Z) (ps' : list (string * Z)) (w' : W)
  : Prop :=
  dirs w h = None /\ ps' ≡ₚ (n, h) :: ps /\ fs_ok w' /\
  forall k, dirs w' k = if decide (k = p) then Some ps' else if decide (k = h) then Some [] else dirs w k.

(** The last thing PVFS told: directory [ref] is on server [t]. *)
Definition told_on (ref : PVFS_object_ref) (t : Z) (w' : W) : Prop :=
  exists w, Conn.pvfs_get_mds (conn s) ref w = Ret (t, w').

(** A directory made on a wrong server and removed again leaves the listing as it
    was, up to its order. *)
Lemma remade n ps ps1 h :
  NoDup ps.*1 -> n ∉ ps.*1 -> ps1 ≡ₚ (n, h) :: ps -> filter (fun e : string * Z => e.1 <> n) ps1 ≡ₚ ps.
Proof.
  intros Hnd Hn Hp. rewrite Hp. rewrite filter_cons_False by (cbn; tauto). rewrite filter_all; [done|].
  apply list.Forall_forall. intros e He Ee. apply Hn. rewrite <- Ee. by eapply list_elem_of_fmap_2.
Qed.

Lemma wp_mkdir_until fuel cr p n a t w ps (Q : Z + PVFS_object_ref -> St -> Prop) :
  fs_ok w -> dirs w (Pvfs.handle p) = Some ps -> simple n -> (String.length n < 256)%nat ->
  Z.of_nat (length ps) + 1 < 2 ^ 30 -> n ∉ ps.*1 -> 0 <= t < Conn.servercount (Conn.opts (conn s)) ->
  (tries w t < fuel)%nat ->
  (forall h ps' w', made w (Pvfs.handle p) n ps h ps' w' -> told_on (mkRef h (Pvfs.fs_id p)) t w' ->
     Q (inr (mkRef h (Pvfs.fs_id p))) (s, w')) ->
  wp no_crash (mkdir_until fuel cr p n a t) Q (s, w).
Proof.
  revert w ps Q. induction fuel as [|fuel IH]; intros w ps Q Hok Hd Hs Hl Hb Hn Ht Hf HQ; [lia|].
  destruct (names_ok w _ ps Hok Hd) as (Hnd & _). assert (Ha := proj2 (assoc_None n ps) Hn).
  destruct (mkdir_absent w cr a n p ps Hok Hd Hs Hl Hb Ha) as (h & ps1 & w1 & E1 & Hh & Hp1 & Hok1 & Hd1).
  cbn [mkdir_until]. apply wp_bind. eapply wp_sys_eq; [exact E1|]. cbn [fst snd negb Z.eqb].
  apply wp_bind, wp_getl, wp_bind, wp_in_world. cbn [fst snd].
  destruct (spread_known w1 (mkRef h (Pvfs.fs_id p)) Hok1) as (sv & w2 & E2 & Q2). eapply wp_Ret; [exact E2|].
  assert (Hok2 := quiet_ok _ _ Q2). destruct (Z.eqb_spec sv t) as [->|Hne].
  - apply wp_ret, (HQ h ps1); [|by exists w1]. split_and!; try done. intros k. by rewrite (quiet_dirs _ _ _ Q2), Hd1.
  - assert (Hhp : h <> Pvfs.handle p) by congruence.
    assert (Hp2 : dirs w2 (Pvfs.handle p) = Some ps1)
      by (rewrite (quiet_dirs _ _ _ Q2), Hd1; by rewrite decide_True).
    assert (Hh2 : dirs w2 h = Some []) by (rewrite (quiet_dirs _ _ _ Q2), Hd1, decide_False, decide_True by done; done).
    destruct (names_ok w2 _ ps1 Hok2 Hp2) as (Hnd1 & _).
    assert (Ha1 : assoc n ps1 = Some h) by (rewrite (assoc_perm n ps1 _ Hnd1 Hp1); cbn; by rewrite decide_True).
    destruct (remove_empty w2 cr n p ps1 h Hok2 Hp2 Ha1 Hhp Hh2) as (w3 & E3 & Hok3 & Hd3).
    apply wp_bind. eapply wp_sys_eq; [exact E3|]. cbn [fst snd negb Z.eqb].
    assert (Hre := remade n ps ps1 h Hnd Hn Hp1).
    assert (Hdec := spread_step w cr a n p _ w1 sv w2 w3 t Hok Ht E1 E2 Hne E3).
    eapply (IH w3 (filter (fun e => e.1 <> n) ps1)); try done; [by rewrite Hd3, decide_True| | |lia|].
    + by rewrite Hre.
    + by rewrite Hre.
    + intros h' ps' w' (M1 & M2 & M3 & M4) Hon. apply (HQ h' ps'); [|done].
      assert (Hback : forall k, k <> Pvfs.handle p -> dirs w3 k = dirs w k).
      { intros k Hk. rewrite Hd3, decide_False by done. destruct (decide (k = h)) as [->|]; [done|].
        rewrite (quiet_dirs _ _ _ Q2), Hd1, !decide_False by done. done. }
      assert (Hh' : h' <> Pvfs.handle p) by (intros ->; rewrite Hd3, decide_True in M1; done).
      split_and!; [by rewrite <- (Hback h' Hh')|by rewrite M2, Hre|done|].
      intros k. rewrite M4. destruct (decide (k = Pvfs.handle p)); [done|].
      destruct (decide (k = h')); [done|]. by apply Hback.
Qed.

Lemma wp_mkdir_made fuel cr p n a t w ps (Q : Z * option PVFS_object_ref -> St -> Prop) :
  fs_ok w -> dirs w (Pvfs.handle p) = Some ps -> simple n -> (String.length n < 256)%nat ->
  Z.of_nat (length ps) + 1 < 2 ^ 30 -> n ∉ ps.*1 -> 0 <= t < Conn.servercount (Conn.opts (conn s)) ->
  (bound <= fuel)%nat ->
  (forall h ps' w', made w (Pvfs.handle p) n ps h ps' w' -> told_on (mkRef h (Pvfs.fs_id p)) t w' ->
     Q (0, Some (mkRef h (Pvfs.fs_id p))) (s, w')) ->
  wp no_crash (pvfs_mkdir_server fuel cr p n a t) Q (s, w).
Proof.
  intros Hok Hd Hs Hl Hb Hn Ht Hf HQ. unfold pvfs_mkdir_server. apply wp_bind.
  assert (Hbd := spread_bound w t Hok). eapply (wp_mkdir_until fuel cr p n a t w ps); [done|done|done|done|done|done|done|lia|].
  intros h ps' w' Hm Hon. by apply wp_ret, (HQ h ps').
Qed.

End Making.

(** ** The directory in the cache *)

Section Locked.
Import Pvfs Giga Server Cache.
Context {W : Type} {P : PvfsOps W} {V : PvfsView W} {L : PvfsSpec W}.
#[local] Abbreviation St := (server * W)%type.
Variables (self : Z) (fuel : nat) (a : positive) (s : server).

(** The cache with the object at [a] replaced. *)
Definition locked_dir (d : skye_directory) (l : Rwlock.rwlock) : server :=
  set_heap (<[a := set_rwlock l d]> (heap s)) s.

Lemma locked_dir_deref d l (w : W) : deref a (locked_dir d l, w) = Ret (set_rwlock l d, (locked_dir d l, w)).
Proof. unfold deref. cbn. by rewrite lookup_insert_eq. Qed.

Lemma locked_dir_store d l d' l' (w : W) (Q : unit -> St -> Prop) :
  Q tt (locked_dir d' l', w) -> wp no_crash (store a (set_rwlock l' d')) Q (locked_dir d l, w).
Proof.
  intros HQ. apply wp_modl. cbn [fst snd]. unfold locked_dir, set_heap in *. cbn.
  by rewrite insert_insert_eq.
Qed.

Lemma locked_dir_id d : heap s !! a = Some d -> locked_dir d (rwlock d) = s.
Proof.
  intros Hd. unfold locked_dir, set_heap. rewrite insert_id; [by destruct s|]. rewrite Hd. by destruct d.
Qed.

Lemma wp_fetch_w ref d w (Q : option positive -> St -> Prop) :
  dircache s !! ref = Some a -> heap s !! a = Some d -> rwlock d = Rwlock.unlocked ->
  1 <= refcount d < 2 ^ 31 - 1 -> fs_ok w ->
  (forall w', quiet w w' -> Q (Some a) (locked_dir (set_refcount (refcount d + 1) d) (mine self), w')) ->
  wp no_crash (cache_fetch_w self fuel ref) Q (s, w).
Proof.
  intros Ht Hd Hl Hc Hok HQ. unfold cache_fetch_w, fetch. apply wp_bind, wp_bind, wp_getl. cbn [fst].
  rewrite Ht. apply wp_bind, wp_ret, wp_bind. unfold update. apply wp_bind.
  eapply wp_Ret; [unfold deref; cbn; by rewrite Hd|]. apply wp_modl, wp_ret. cbn [fst snd].
  destruct (time_quiet w Hok) as (t & w1 & E1 & Q1). apply wp_bind. eapply wp_sys_eq; [exact E1|].
  apply wp_bind. unfold lock_with. apply wp_bind.
  eapply wp_Ret; [unfold deref; cbn; by rewrite lookup_insert_eq|]. apply wp_bind, wp_lift.
  cbn [rwlock set_refcount]. rewrite Hl.
  assert (El : Rwlock.wrlock self Rwlock.unlocked = Ret (0, mine self)) by reflexivity. rewrite El. cbv beta iota.
  apply wp_modl. cbn [fst snd]. destruct (time_quiet w1 (quiet_ok _ _ Q1)) as (t' & w2 & E2 & Q2).
  apply wp_bind. eapply wp_sys_eq; [exact E2|]. apply wp_ret. cbn [fst snd].
  rewrite i32_small by lia. unfold set_heap. cbn. rewrite insert_insert_eq. apply HQ. by eapply quiet_trans.
Qed.

Lemma wp_unlock_locked d w (Q : unit -> St -> Prop) :
  Q tt (locked_dir d Rwlock.unlocked, w) -> wp no_crash (unlock_dir self a) Q (locked_dir d (mine self), w).
Proof.
  intros HQ. unfold unlock_dir. apply wp_bind. eapply wp_Ret; [apply locked_dir_deref|].
  apply wp_bind, wp_lift. cbn [rwlock set_rwlock]. unfold Rwlock.unlock, mine. cbn. rewrite Z.eqb_refl.
  by apply (locked_dir_store d (mine self) d Rwlock.unlocked).
Qed.

Lemma wp_return_locked d n w (Q : unit -> St -> Prop) :
  refcount d = n + 1 -> 1 <= n < 2 ^ 31 - 1 ->
  Q tt (locked_dir (set_refcount n d) Rwlock.unlocked, w) ->
  wp no_crash (cache_return self a) Q (locked_dir d (mine self), w).
Proof.
  intros Hc Hn HQ. unfold cache_return. apply wp_bind, wp_unlock_locked, wp_bind.
  eapply wp_Ret; [apply locked_dir_deref|]. cbn [refcount set_rwlock]. apply wp_bind, wp_lift.
  rewrite c_assert_true by lia. apply wp_bind. rewrite Hc, i32_small by lia.
  apply (locked_dir_store d Rwlock.unlocked (set_refcount (n + 1 - 1) d) Rwlock.unlocked).
  destruct (Z.eqb_spec (n + 1 - 1) 0); [lia|]. apply wp_ret. by replace (n + 1 - 1) with n by lia.
Qed.

End Locked.

Section Restored.
Import Giga Server.

Lemma set_mapping_same (d : skye_directory) : set_mapping (mapping d) d = d.
Proof. by destruct d. Qed.

Lemma restored (d : skye_directory) m i n :
  rwlock d = Rwlock.unlocked -> splitting_index d = -1 ->
  set_rwlock Rwlock.unlocked (set_refcount (refcount d) (set_mapping m
    (set_splitting_index (-1) (set_splitting_index i (set_refcount n d))))) = set_mapping m d.
Proof. destruct d. cbn. by intros -> ->. Qed.

End Restored.

(** ** The three stretches of [do_split] *)

Section Whole.
Import Pvfs Giga Tree Server Cache Split.
Context {W : Type} {P : PvfsOps W} {V : PvfsView W} {L : PvfsSpec W} {K : PvfsMakes W} {R : BucketRpc W}.
#[local] Abbreviation St := (server * W)%type.
Variables (self : Z) (fuel : nat) (parent : PVFS_object_ref) (pi c : Z) (s : server) (a : positive)
  (d : skye_directory) (w : W) (tries : W -> Z -> nat) (bound : nat).
Context {SP : Spreads (W := W) (conn s) tries bound}.

(** The owner of the new partition is this server, or answers when it is told. *)
Definition announced (sv : Z) : Prop :=
  sv = Conn.servernum (Conn.opts (conn s)) \/
  exists k, Conn.get_connection (conn s) sv = Ret (Some k) /\
    forall w : W, fs_ok w -> exists r w', skye_rpc_bucket_add_1 parent c k w = (RPC_SUCCESS, r, w') /\ quiet w w'.

(** A cached directory at rest whose partition [pi] may be split into [c]. *)
Record splittable : Prop := mkSplittable {
  sb_table : dircache s !! parent = Some a;
  sb_heap : heap s !! a = Some d;
  sb_count : 1 <= refcount d < 2 ^ 31 - 2;
  sb_lock : rwlock d = Rwlock.unlocked;
  sb_idle : splitting_index d = -1;
  sb_wf : wf_mapping (mapping d);
  sb_zeroth : zeroth_server (mapping d) < 2 ^ 30;
  sb_servers : server_count (mapping d) = Conn.servercount (Conn.opts (conn s));
  sb_child : giga_index_for_splitting (mapping d) pi = Ret c;
  sb_small : c < 512;
  sb_ok : fs_ok w;
  sb_placed : placed w (Pvfs.handle parent) (mapping d);
  sb_partitions : forall ps, dirs w (Pvfs.handle parent) = Some ps -> Z.of_nat (length ps) + 1 < 2 ^ 30;
  sb_entries : forall hp es, part_dir w (Pvfs.handle parent) pi hp es ->
    (length es + 128 < fuel)%nat /\ Z.of_nat (length es) + 256 < 2 ^ 30;
  sb_bound : (bound <= fuel)%nat;
  sb_peer : forall sv, giga_get_server_for_index (mapping d) c = Ret sv -> announced sv
}.

Hypothesis Hsb : splittable.

(** What it knows of the mapping. *)
Lemma split_child : exists k, c = pi + 2 ^ k /\ has (bitmap (mapping d)) pi = true /\ radix_of pi <= k /\
  has (bitmap (mapping d)) c = false /\ 0 <= pi < 512 /\ 0 <= c < 512.
Proof.
  assert (Hp := split_parent_exists _ _ _ (sb_wf Hsb) (sb_child Hsb)).
  destruct (index_for_splitting_ok _ _ (sb_wf Hsb) Hp) as (k & E & Hk & Hn & _).
  rewrite (sb_child Hsb) in E. injection E as ->. exists k. assert (H0 := has_nonneg _ _ Hp).
  destruct (radix_of_range pi H0) as [Hr _]. assert (0 < 2 ^ k) by (apply Z.pow_pos_nonneg; lia).
  assert (Hsm := sb_small Hsb). split_and!; (done || lia).
Qed.

(** The partition that is split, and its directory. *)
Lemma split_source : exists ps ph es, dirs w (Pvfs.handle parent) = Some ps /\
  assoc (PartName.physical_path pi) ps = Some ph /\ dirs w ph = Some es /\ ph <> Pvfs.handle parent /\
  PartName.physical_path c ∉ ps.*1 /\ NoDup ps.*1 /\ NoDup es.*1.
Proof.
  destruct split_child as (k & _ & Hp & Hk & Hn & Hpr & Hcr).
  destruct (pl_part _ _ _ (sb_placed Hsb) pi Hp) as (ph & es & ps & E1 & E2 & E3).
  exists ps, ph, es. split_and!; try done.
  - apply (pl_root _ _ _ (sb_placed Hsb) pi ph es Hp). by exists ps.
  - intros Hin. apply (pl_only _ _ _ (sb_placed Hsb)) in Hin; [congruence|done|done].
  - by apply (names_ok w (Pvfs.handle parent) ps (sb_ok Hsb)).
  - by apply (names_ok w ph es (sb_ok Hsb)).
Qed.

(** The stretch up to the first release of the lock. *)
Lemma wp_split_begin ps ph es (Q : option split_ctx -> St -> Prop) :
  dirs w (Pvfs.handle parent) = Some ps -> assoc (PartName.physical_path pi) ps = Some ph ->
  dirs w ph = Some es -> PartName.physical_path c ∉ ps.*1 ->
  (forall w', Z.of_nat (length es) <= SPLIT_THRESHOLD -> quiet w w' -> Q None (s, w')) ->
  (forall cr sv h ps' w', SPLIT_THRESHOLD < Z.of_nat (length es) ->
     giga_get_server_for_index (mapping d) c = Ret sv ->
     made w (Pvfs.handle parent) (PartName.physical_path c) ps h ps' w' ->
     Q (Some (mkCtx cr parent c a (mkRef ph (Pvfs.fs_id parent)) (mkRef h (Pvfs.fs_id parent)) sv))
       (locked_dir a s (set_splitting_index pi (set_refcount (refcount d + 1) d)) Rwlock.unlocked, w')) ->
  wp no_crash (split_begin self fuel parent pi) Q (s, w).
Proof.
  intros Hps Hph Hes Hcn HN HS. assert (Hok := sb_ok Hsb). unfold split_begin.
  destruct (credentials_quiet w Hok) as (cr & w1 & E1 & Q1). apply wp_bind. eapply wp_sys_eq; [exact E1|].
  destruct (time_quiet w1 (quiet_ok _ _ Q1)) as (t & w2 & E2 & Q2). apply wp_bind. eapply wp_sys_eq; [exact E2|].
  assert (Q02 := quiet_trans _ _ _ Q1 Q2). destruct (sb_count Hsb) as [Hc1 Hc2].
  apply wp_bind. eapply (wp_fetch_w self fuel a s parent d w2 _ (sb_table Hsb) (sb_heap Hsb) (sb_lock Hsb));
    [lia|by apply (quiet_ok w)|]. intros w3 Q3. assert (Q03 := quiet_trans _ _ _ Q02 Q3).
  set (d1 := set_refcount (refcount d + 1) d). apply wp_bind. eapply wp_Ret; [apply locked_dir_deref|].
  apply wp_bind, wp_lift. cbn [mapping set_rwlock set_refcount d1]. rewrite (sb_child Hsb).
  apply wp_bind, wp_getl, wp_bind. cbn [fst snd conn locked_dir set_heap].
  destruct split_child as (k & _ & Hp & _ & _ & Hpr & Hcr).
  destruct (physical_path_plain pi ltac:(lia)) as [Hsi _]. destruct (physical_path_plain c ltac:(lia)) as [Hsc Hlc].
  destruct (lookup_found w3 cr (Conn.pvfs_fsid (conn s)) (PartName.physical_path pi) parent ps ph)
    as (w4 & E4 & Q4); [by apply (quiet_ok w)|by rewrite (quiet_dirs _ _ _ Q03)|done|done|].
  eapply wp_sys_eq; [exact E4|]. cbn [fst snd Z.ltb Z.compare]. assert (Q04 := quiet_trans _ _ _ Q03 Q4).
  destruct (getattr_directory w4 cr PVFS_ATTR_SYS_DIRENT_COUNT (mkRef ph (Pvfs.fs_id parent)) es)
    as (at5 & w5 & E5 & _ & Hcnt & Q5); [by apply (quiet_ok w)|cbn; by rewrite (quiet_dirs _ _ _ Q04)|].
  assert (Q05 := quiet_trans _ _ _ Q04 Q5). unfold isdir_overflow. apply wp_bind, wp_bind.
  eapply wp_sys_eq; [exact E5|]. cbn [Z.ltb Z.compare]. rewrite Hcnt. apply wp_ret. cbn [fst snd].
  destruct (Z.ltb_spec SPLIT_THRESHOLD (Z.of_nat (length es))) as [Hmany|Hfew]; cbn [Z.eqb].
  - apply wp_bind. eapply wp_Ret; [apply locked_dir_deref|]. cbn [mapping set_rwlock set_refcount d1].
    assert (Esv := server_for_index_ok (mapping d) c (sb_wf Hsb) (sb_zeroth Hsb) Hcr).
    apply wp_bind, wp_lift. rewrite Esv. apply wp_bind.
    eapply (wp_mkdir_made (locked_dir a s d1 (mine self)) tries bound fuel cr parent _ _ _ w5 ps);
      [by apply (quiet_ok w)|by rewrite (quiet_dirs _ _ _ Q05)|done|done|by apply (sb_partitions Hsb)|done| |apply Hsb|].
    { cbn [conn locked_dir set_heap]. rewrite <- (sb_servers Hsb). apply Z.mod_pos_bound. assert (Hw := sb_wf Hsb). unfold wf_mapping in Hw. lia. }
    intros h ps' w6 (M1 & M2 & M3 & M4) _. cbn [Z.ltb Z.compare]. apply wp_bind. unfold update. apply wp_bind.
    eapply wp_Ret; [apply locked_dir_deref|].
    apply (locked_dir_store a s d1 (mine self) (set_splitting_index pi d1) (mine self)).
    apply wp_bind, wp_unlock_locked, wp_ret, (HS _ _ _ ps'); [done|done|]. split_and!; try done.
    + by rewrite <- (quiet_dirs _ _ _ Q05).
    + intros k'. by rewrite M4, (quiet_dirs _ _ _ Q05).
  - apply wp_bind. apply (wp_return_locked self a s d1 (refcount d)); [done|lia|]. apply wp_ret.
    replace (locked_dir a s (set_refcount (refcount d) d1) Rwlock.unlocked) with s; [by apply HN|].
    rewrite <- (locked_dir_id a s d (sb_heap Hsb)) at 1. rewrite (sb_lock Hsb). by destruct d.
Qed.

(** The object while the split runs, and when it is over. *)
Definition splitting : skye_directory := set_splitting_index pi (set_refcount (refcount d + 1) d).
Definition recorded (m : giga_mapping_t) : server := set_heap (<[a := set_mapping m d]> (heap s)) s.

(** The stretch after the last file. *)
Lemma wp_split_finish x l w1 m (Q : unit -> St -> Prop) :
  sc_dir x = a -> sc_parent x = parent -> sc_cindex x = c ->
  giga_get_server_for_index (mapping d) c = Ret (sc_server x) ->
  giga_update_mapping (mapping d) c = Ret m ->
  l = Rwlock.unlocked \/ l = mine self -> fs_ok w1 ->
  (forall w', quiet w1 w' -> Q tt (recorded m, w')) ->
  wp no_crash (split_finish self x) Q (relocked x s splitting l, w1).
Proof.
  intros Ea Ep Ec Esv Em Hl Hok HQ. unfold split_finish. apply wp_bind, wp_lock_mine; [done|].
  apply wp_bind, wp_getl, wp_bind. cbn [fst snd conn relocked set_heap].
  assert (Hend : forall w2, quiet w1 w2 -> wp no_crash
    (_ ← update (sc_dir x) (set_splitting_index (-1)); d ← deref (sc_dir x);
     m ← lift (giga_update_mapping (mapping d) (sc_cindex x)); _ ← store (sc_dir x) (set_mapping m d);
     _ ← sys time; cache_return self (sc_dir x)) Q (relocked x s splitting (mine self), w2)).
  { intros w2 Q2. unfold relocked. rewrite Ea, Ec. fold (locked_dir a s splitting (mine self)).
    destruct (sb_count Hsb) as [Hc1 Hc2]. apply wp_bind. unfold update. apply wp_bind.
    eapply wp_Ret; [apply locked_dir_deref|].
    apply (locked_dir_store a s splitting (mine self) (set_splitting_index (-1) splitting) (mine self)).
    apply wp_bind. eapply wp_Ret; [apply locked_dir_deref|].
    apply wp_bind, wp_lift. cbn [mapping set_rwlock set_splitting_index set_refcount splitting]. rewrite Em.
    apply wp_bind, (locked_dir_store a s _ (mine self) (set_mapping m (set_splitting_index (-1) splitting)) (mine self)).
    destruct (time_quiet w2 (quiet_ok _ _ Q2)) as (t & w3 & E3 & Q3). apply wp_bind. eapply wp_sys_eq; [exact E3|].
    apply (wp_return_locked self a s _ (refcount d)); [done|lia|]. cbn [fst snd].
    assert (Er : locked_dir a s (set_refcount (refcount d) (set_mapping m (set_splitting_index (-1) splitting)))
      Rwlock.unlocked = recorded m).
    { unfold locked_dir, recorded. do 2 f_equal. apply restored; apply Hsb. }
    rewrite Er. apply HQ. by eapply quiet_trans. }
  destruct (sb_peer Hsb _ Esv) as [Hme|(k & Ek & Hrpc)].
  - rewrite Hme, Z.eqb_refl. cbn [negb]. apply wp_ret, Hend. by split.
  - destruct (Z.eqb_spec (sc_server x) (Conn.servernum (Conn.opts (conn s)))); cbn [negb].
    { apply wp_ret, Hend. by split. }
    apply wp_bind, wp_lift. rewrite Ek. destruct (Hrpc w1 Hok) as (r & w2 & E2 & Q2).
    apply wp_bind. eapply wp_sys_eq; [rewrite Ep, Ec; exact E2|]. by apply wp_ret, Hend.
Qed.

(** What a split leaves of the directory. *)
Definition split_done (m' : giga_mapping_t) (w' : W) : Prop :=
  fs_ok w' /\ wf_mapping m' /\ placed w' (Pvfs.handle parent) m' /\
  forall n h, listed w' (Pvfs.handle parent) m' n h <-> listed w (Pvfs.handle parent) (mapping d) n h.

(** The file system after the files have moved. *)
Lemma split_world ps ph es h ps' w1 pe ce w2 x m :
  dirs w (Pvfs.handle parent) = Some ps -> assoc (PartName.physical_path pi) ps = Some ph ->
  dirs w ph = Some es -> ph <> Pvfs.handle parent -> NoDup ps.*1 -> NoDup es.*1 ->
  made w (Pvfs.handle parent) (PartName.physical_path c) ps h ps' w1 ->
  sc_cindex x = c -> Pvfs.handle (sc_phandle x) = ph -> Pvfs.handle (sc_chandle x) = h ->
  between x es [] w1 pe ce w2 -> count_migrating c pe = O ->
  giga_update_mapping (mapping d) c = Ret m -> split_done m w2.
Proof.
  intros Hps Hph Hes Hne Hnd Hnde (M1 & M2 & M3 & M4) Ec Eph Ech [B1 B2 B3 B4 B5 B6] H0 Em.
  destruct split_child as (k & Ek & Hp & Hk & Hn & Hpr & Hcr).
  rewrite Ec in B5. destruct (moving_done _ _ _ _ _ B5 H0) as [Epe Hce]. rewrite app_nil_r in Hce.
  destruct (giga_update_mapping_ok (mapping d) c (proj1 (sb_wf Hsb)) ltac:(lia)) as (m1 & E1 & _ & Hh & _).
  rewrite Em in E1. injection E1 as <-.
  assert (Hwf : wf_mapping m) by (eapply (wf_add_child (mapping d)); [apply Hsb|exact Hp|exact Hk|lia|by rewrite <- Ek]).
  assert (Hhp : h <> Pvfs.handle parent) by congruence. assert (Hhph : h <> ph) by congruence.
  rewrite Eph, Ech in *.
  assert (Hp2 : dirs w2 (Pvfs.handle parent) = Some ps') by (rewrite B4, M4 by congruence; by rewrite decide_True).
  destruct (names_ok w2 _ ps' B1 Hp2) as (Hnd' & _). destruct (names_ok w2 _ ce B1 B3) as (Hndc & _).
  assert (Hw2 : forall j, dirs w2 j = if decide (j = Pvfs.handle parent) then Some ps'
    else if decide (j = ph) then Some (filter (stays c) es) else if decide (j = h) then Some ce else dirs w j).
  { intros j. destruct (decide (j = Pvfs.handle parent)) as [->|]; [done|].
    destruct (decide (j = ph)) as [->|]; [by rewrite B2, Epe|]. destruct (decide (j = h)) as [->|]; [done|].
    by rewrite B4, M4, !decide_False. }
  rewrite Ek in *. split; [done|]. split; [done|]. split.
  - eapply (split_placed w w2 _ pi k ph h (mapping d) m ps ps' es ce); try done; [apply Hsb|apply Hsb|lia].
  - intros n j. eapply (split_listed w w2 _ pi k ph h (mapping d) m ps ps' es ce); try done; [apply Hsb|apply Hsb|lia].
Qed.

(** The composition of the stretches. *)
Lemma wp_do_split ps ph es :
  dirs w (Pvfs.handle parent) = Some ps -> assoc (PartName.physical_path pi) ps = Some ph ->
  dirs w ph = Some es -> ph <> Pvfs.handle parent -> PartName.physical_path c ∉ ps.*1 ->
  NoDup ps.*1 -> NoDup es.*1 -> 0 <= c < 512 ->
  (length es + 128 < fuel)%nat -> Z.of_nat (length es) + 256 < 2 ^ 30 ->
  wp no_crash (do_split self fuel parent pi) (fun _ s' => exists m', s'.1 = recorded m' /\
    split_done m' s'.2 /\ forall i, has (bitmap m') i = true <-> has (bitmap (mapping d)) i = true \/
      i = c /\ SPLIT_THRESHOLD < Z.of_nat (length es)) (s, w).
Proof.
  intros E1 E2 E3 Hne Hcn Hnd Hnde Hcr Hfuel Hsmall.
  unfold do_split. apply wp_bind. eapply (wp_split_begin ps ph es); try done.
  - intros w' Hfew Hq. apply wp_ret. exists (mapping d). split.
    { cbn. unfold recorded, set_heap. rewrite insert_id; [by destruct s|].
      rewrite (sb_heap Hsb). f_equal. symmetry. apply set_mapping_same. }
    split; [split_and!; [apply Hq|apply Hsb|by eapply placed_quiet, Hsb|intros n h; by apply listed_quiet]|].
    intros i. split; [by left|]. intros [Hi|[_ Hlt]]; [done|lia].
  - intros cr sv h ps' w1 Hmany Esv Hm. set (x := mkCtx cr parent c a _ _ sv). apply wp_bind.
    destruct (giga_update_mapping_ok (mapping d) c (proj1 (sb_wf Hsb)) ltac:(lia))
      as (m' & Em & _ & Hh & _). assert (Hm' := Hm). destruct Hm' as (M1 & M2 & M3 & M4).
    assert (Hhp : h <> Pvfs.handle parent) by congruence. assert (Hhph : h <> ph) by congruence.
    assert (Hb : between x es [] w1 es [] w1).
    { split; cbn; [done|rewrite M4, !decide_False by done; done|rewrite M4, decide_False, decide_True by done; done
        |done|apply moving_refl|by rewrite app_nil_r]. }
    assert (Hcnt : (count_migrating c es <= length es)%nat) by apply length_filter.
    change (locked_dir a s _ Rwlock.unlocked) with (relocked x s splitting Rwlock.unlocked).
    eapply (wp_move_rounds self x es [] Hcr); [cbn; congruence|cbn; lia|by left|exact Hb|cbn; lia|cbn; lia|].
    intros pe ce w2 l Hb2 H0 Hl _. eapply (wp_split_finish x); try done; [apply Hb2|].
    intros w3 Q3. exists m'. split; [done|]. split.
    + destruct (split_world ps ph es h ps' w1 pe ce w2 x m')
        as (D1 & D2 & D3 & D4); try done.
      split_and!; [apply Q3|done|by eapply placed_quiet|]. intros n j. by rewrite (listed_quiet w2 w3 _ _ _ _ Q3).
    + intros i. rewrite Hh, orb_true_iff, Z.eqb_eq. tauto.
Qed.

End Whole.

Section SplittingProperties.
Import Pvfs Giga Tree Server Cache Split.

(** C1 A split keeps the directory: on a file system that behaves as documented,
    [do_split] of a partition of a directory at rest terminates without a failed
    assertion or an abort, gives up its lock and its reference, and changes nothing of
    the server but the directory's mapping.  The mapping gains the new partition exactly
    when the old one has more than SPLIT_THRESHOLD entries, stays well formed, and
    again puts every file into the partition that owns its name; the directory lists
    exactly the names and handles that it listed before. *)
Theorem split_keeps_directory {W} {P : PvfsOps W} {V : PvfsView W} {L : PvfsSpec W} {K : PvfsMakes W}
  {R : BucketRpc W} (self : Z) (fuel : nat) (parent : PVFS_object_ref) (pi c : Z) (s : server) (a : positive)
  (d : skye_directory) (w : W) (tries : W -> Z -> nat) (bound : nat)
  (SP : Spreads (W := W) (conn s) tries bound) (Hsb : splittable fuel parent pi c s a d w bound) :
  exists m' w', do_split self fuel parent pi (s, w) = Ret (tt, (recorded s a d m', w')) /\
    split_done parent d w m' w' /\
    forall i, has (bitmap m') i = true <-> has (bitmap (mapping d)) i = true \/
      i = c /\ exists hp es, part_dir w (Pvfs.handle parent) pi hp es /\ SPLIT_THRESHOLD < Z.of_nat (length es).
Proof.
  destruct (split_source fuel parent pi c s a d w bound Hsb) as (ps & ph & es & E1 & E2 & E3 & Hne & Hcn & Hnd & Hnde).
  destruct (split_child fuel parent pi c s a d w bound Hsb) as (k & _ & Hp & _ & _ & Hpr & Hcr).
  assert (Hpd : part_dir w (Pvfs.handle parent) pi ph es) by (by exists ps).
  assert (Hbig : forall hp es', part_dir w (Pvfs.handle parent) pi hp es' -> es' = es)
    by (intros hp es' Hd; exact (proj2 (part_dir_fun w _ pi hp es' ph es Hd Hpd))).
  destruct (sb_entries _ _ _ _ _ _ _ _ _ Hsb ph es Hpd) as [Hfuel Hsmall].
  destruct (wp_run (do_split self fuel parent pi) (fun _ s' => exists m', s'.1 = recorded s a d m' /\
    split_done parent d w m' s'.2 /\ forall i, has (bitmap m') i = true <-> has (bitmap (mapping d)) i = true \/
      i = c /\ SPLIT_THRESHOLD < Z.of_nat (length es)) (s, w)) as ([] & [s' w'] & E & m' & Es & Hdone & Hh).
  2: { exists m', w'. rewrite E. cbn in Es. rewrite Es. split; [done|]. split; [done|]. intros i. rewrite Hh.
       split; (intros [Hi|[-> Hi]]; [by left|right; split; [done|]]); [by exists ph, es|].
       destruct Hi as (hp & es' & Hd' & Hlen). by rewrite <- (Hbig hp es' Hd'). }
  by apply wp_do_split with tries bound ps ph.
Qed.

(** Two servers that answer each other; the first one has a directory whose only
    partition holds 4001 files. *)
Definition talking : BucketRpc MemFs.mem := {|
  skye_rpc_bucket_add_1 := fun _ _ _ w => (RPC_SUCCESS, 0, w);
  skye_rpc_bucket_remove_1 := fun _ _ _ _ w => (RPC_SUCCESS, 0, w)
|}.

Definition many : list (string * Z) :=
  (fun i => (PartName.physical_path (Z.of_nat i), 100 + Z.of_nat i)) <$> seq 0 (Z.to_nat 4001).

Definition full_fs : MemFs.mem :=
  MemFs.mkMem {[ 1 := MemFs.Dir [("p00000", 2)%string]; 2 := MemFs.Dir many ]} 10 1000 2.

Definition full_conn : Conn.conn_state :=
  Conn.mkConn (Conn.mkOptions None 2 0 (Some ["a"; "b"]%string) (Some [0; 1])) (Some [Some 0; Some 1]) 7
    (Conn.mkMntent 1 0 [] None) None.

Definition one_partition : giga_mapping_t :=
  {| bitmap := <[0%nat := 1]> (replicate 147 0); curr_radix := 1; zeroth_server := 0; server_count := 2 |}.

Definition full_dir : skye_directory :=
  mkDir one_partition 1 (mkRef 1 7) (-1) Rwlock.unlocked 4 (Some [2; 0; 0; 0]).

Definition full_server : server :=
  mkServer full_conn {[ 1%positive := full_dir ]} {[ mkRef 1 7 := 1%positive ]} 12 0 ∅ None None.

Lemma many_names : NoDup many.*1 /\ Forall (fun n => simple n /\ (String.length n < 256)%nat) many.*1 /\
  length many = Z.to_nat 4001.
Proof.
  unfold many. rewrite <- list_fmap_compose, length_fmap, length_seq. split_and!; [|apply Forall_fmap|done].
  - apply NoDup_fmap_2_strong; [|apply NoDup_seq]. intros i j Hi%elem_of_seq Hj%elem_of_seq E.
    apply physical_path_inj in E; lia.
  - apply list.Forall_forall. intros i Hi%elem_of_seq. apply physical_path_plain. lia.
Qed.

Lemma full_fs_ok : fs_ok (PvfsView := MemFs.mem_view_of 2) full_fs.
Proof.
  destruct many_names as (H1 & H2 & H3). split; [|done]. split; intros h x; cbn [MemFs.objs full_fs].
  - intros [[<- [= <-]]|[_ [<- [= <-]]%lookup_singleton_Some]]%lookup_insert_Some.
    + split_and!; [apply NoDup_singleton|repeat constructor|done].
    + split; [done|]. split; [done|]. lia.
  - intros [[<- _]|[_ [<- _]%lookup_singleton_Some]]%lookup_insert_Some; cbn; lia.
Qed.

Lemma full_spreads : Spreads (V := MemFs.mem_view_of 2) full_conn
  (fun w t => Z.to_nat ((t - MemFs.next_handle w) mod 2)) 2.
Proof.
  split.
  - intros w ref [Hw Hs]. assert (Hm := Z.mod_pos_bound (Pvfs.handle ref) 2 ltac:(lia)).
    exists (Pvfs.handle ref mod 2), w. split; [|by split]. unfold Conn.pvfs_get_mds. cbn. rewrite Hs.
    destruct (Z.eq_dec (Pvfs.handle ref mod 2) 0) as [->|]; [done|].
    by replace (Pvfs.handle ref mod 2) with 1 by lia.
  - intros w t _. assert (Hm := Z.mod_pos_bound (t - MemFs.next_handle w) 2 ltac:(lia)). lia.
  - intros w cr at' n p ref w1 sv w2 w3 t [_ Hs] Ht E1 E2 Hne E3. cbn in E1, Ht. unfold MemFs.add_entry in E1.
    destruct (MemFs.entries_of w (Pvfs.handle p)) as [l|]; [|discriminate]. destruct (assoc n l); [discriminate|].
    injection E1 as <- <-. unfold Conn.pvfs_get_mds in E2. cbn in E2. rewrite Hs in E2.
    assert (Hsv : w2 = MemFs.mkMem (<[MemFs.next_handle w := MemFs.Dir []]>
        (<[Pvfs.handle p := MemFs.Dir (l ++ [(n, MemFs.next_handle w)])]> (MemFs.objs w)))
        (MemFs.next_handle w + 1) (MemFs.clock w) 2 /\ sv = MemFs.next_handle w mod 2).
    { assert (Hm := Z.mod_pos_bound (MemFs.next_handle w) 2 ltac:(lia)).
      destruct (Z.eq_dec (MemFs.next_handle w mod 2) 0) as [E0|].
      - rewrite E0 in *. cbn in E2. by injection E2 as <- <-.
      - replace (MemFs.next_handle w mod 2) with 1 in * by lia. cbn in E2. by injection E2 as <- <-. }
    destruct Hsv as [-> ->]. cbn in E3. unfold MemFs.remove in E3.
    destruct (MemFs.entries_of _ _) as [l'|]; [|discriminate]. destruct (assoc n l'); [|discriminate].
    injection E3 as <-. cbn. zify. Z.div_mod_to_equations. lia.
Qed.

Lemma one_partition_has i : has (bitmap one_partition) i = (i =? 0).
Proof. by apply (init_ok 0 2 one_partition). Qed.

Lemma full_part i hp es :
  has (bitmap one_partition) i = true ->
  part_dir (V := MemFs.mem_view_of 2) full_fs 1 i hp es -> i = 0 /\ hp = 2 /\ es = many.
Proof. by apply (single_part full_fs 1 2 one_partition [("p00000", 2)%string] many); [exact one_partition_has|..]. Qed.

Lemma full_placed : placed (V := MemFs.mem_view_of 2) full_fs 1 one_partition.
Proof.
  apply (single_placed full_fs 1 2 one_partition [("p00000", 2)%string] many);
    [exact one_partition_has|reflexivity|reflexivity|apply (lone_partition 2)|reflexivity|lia].
Qed.

Lemma split_keeps_directory_witness :
  exists m' w', do_split (H0 := talking) 9 (Z.to_nat 5000) (mkRef 1 7) 0 (full_server, full_fs)
      = Ret (tt, (recorded full_server 1 full_dir m', w')) /\
    placed (V := MemFs.mem_view_of 2) w' 1 m' /\ has (bitmap m') 1 = true.
Proof.
  destruct (split_keeps_directory (V := MemFs.mem_view_of 2) (L := mem_spec_of 2) (K := mem_makes_of 2)
    (R := talking) 9 (Z.to_nat 5000) (mkRef 1 7) 0 1 full_server 1 full_dir full_fs _ 2 full_spreads)
    as (m' & w' & E & (_ & _ & Hpl & _) & Hh).
  - split.
    + reflexivity.
    + reflexivity.
    + cbn. lia.
    + reflexivity.
    + reflexivity.
    + destruct (init_ok 0 2 one_partition) as [H _]; [lia|lia|reflexivity|exact H].
    + cbn. lia.
    + reflexivity.
    + vm_compute. reflexivity.
    + lia.
    + exact full_fs_ok.
    + exact full_placed.
    + intros ps Hps. cbn in Hps. injection Hps as <-. reflexivity.
    + intros hp es Hd. apply full_part in Hd as (_ & _ & ->); [|apply one_partition_has].
      rewrite (proj2 (proj2 many_names)). lia.
    + lia.
    + intros sv Hsv. vm_compute in Hsv. injection Hsv as <-. right. exists 1. split; [reflexivity|].
      intros w Hw. exists 0, w. split; [reflexivity|]. by split.
  - exists m', w'. split; [exact E|]. split; [exact Hpl|]. apply Hh. right. split; [reflexivity|].
    exists 2, many. split; [exists [("p00000", 2)%string]; split; [reflexivity|split; reflexivity]|].
    rewrite (proj2 (proj2 many_names)). unfold SPLIT_THRESHOLD. lia.
Defined.

End SplittingProperties.
