(* ===== verification/Client.v ===== *)
(** * The FUSE client: client/cache.c, client/cache.h and client/operations.c

    The client caches one GIGA+ mapping per logical directory and serves the FUSE
    low-level operations: it sends a request to the server its mapping names, merges
    the mapping of an -EAGAIN answer into its own and tries again.  [client] is the
    state of the process with the replies given to FUSE; [Client] translates the cache
    and [Operations] the operations. *)

From Stdlib Require Import Ascii.
From S2P Require Import Prelude GigaIndex Pvfs Rpc Connection.

#[local] Open Scope Z_scope.

Module Client.
Import Pvfs Giga.

(** struct skye_directory (client/cache.h) *)
Record skye_directory : Type := mkDir {
  mapping : giga_mapping_t;
  refcount : Z;
  handle : PVFS_object_ref
}.

(** struct stat, as far as the client fills it in. *)
Record stat : Type := mkStat {
  st_dev : Z; st_ino : Z; st_mode : Z; st_nlink : Z; st_uid : Z; st_gid : Z; st_rdev : Z;
  st_size : Z; st_blksize : Z; st_blocks : Z; st_atime : Z; st_mtime : Z; st_ctime : Z
}.

Definition zero_stat : stat := mkStat 0 0 0 0 0 0 0 0 0 0 0 0 0.

(** struct fuse_entry_param *)
Record fuse_entry_param : Type := mkEntry {
  e_ino : Z; e_attr : stat; e_attr_timeout : Z; e_entry_timeout : Z
}.

(** The fuse_reply_ functions the client calls. *)
Inductive reply : Type :=
| reply_err (e : Z)
| reply_entry (e : fuse_entry_param)
| reply_create (e : fuse_entry_param) (fh : Z)
| reply_attr (s : stat) (timeout : Z)
| reply_buf (bytes : list Z)
| reply_open (fh : Z)
| reply_write (n : Z).

Record client : Type := mkClient {
  conn : Conn.conn_state;
  heap : gmap positive skye_directory;
  dircache : gmap PVFS_object_ref positive;
  pvfs_root_handle : Z;
  dirbufs : gmap positive (option (list Z));
  replies : list reply
}.

Definition set_heap (h : gmap positive skye_directory) (c : client) : client :=
  mkClient (conn c) h (dircache c) (pvfs_root_handle c) (dirbufs c) (replies c).
Definition set_dircache (t : gmap PVFS_object_ref positive) (c : client) : client :=
  mkClient (conn c) (heap c) t (pvfs_root_handle c) (dirbufs c) (replies c).
Definition set_root (h : Z) (c : client) : client :=
  mkClient (conn c) (heap c) (dircache c) h (dirbufs c) (replies c).
Definition set_dirbufs (b : gmap positive (option (list Z))) (c : client) : client :=
  mkClient (conn c) (heap c) (dircache c) (pvfs_root_handle c) b (replies c).
Definition add_reply (r : reply) (c : client) : client :=
  mkClient (conn c) (heap c) (dircache c) (pvfs_root_handle c) (dirbufs c) (replies c ++ [r]).

Section Cache.
Context {W : Type} `{PvfsOps W}.
#[local] Abbreviation M := (prog (client * W)).

Definition deref (a : positive) : M skye_directory := fun s =>
  match heap s.1 !! a with
  | Some d => Ret (d, s)
  | None => Crash UseAfterFree
  end.

Definition store (a : positive) (d : skye_directory) : M unit :=
  modl (fun s => set_heap (<[a := d]> (heap s)) s).

Definition new_directory (ref : PVFS_object_ref) : M (option positive) :=
  ok ← sys malloc;
  if negb ok then mret None else
  s ← getl;
  mds ← in_world (Conn.pvfs_get_mds (conn s) ref);
  m ← lift (giga_init_mapping (-1) (u32 mds) (u32 (Conn.servercount (Conn.opts (conn s)))));
  let a := fresh (dom (heap s)) in
  _ ← store a (mkDir m 0 ref);
  _ ← modl (fun s => set_dircache (<[ref := a]> (dircache s)) s);
  mret (Some a).

Definition cache_fetch (ref : PVFS_object_ref) : M (option positive) :=
  s ← getl;
  dir ← (match dircache s !! ref with
         | Some a => mret (Some a)
         | None => new_directory ref
         end);
  match dir with
  | None => mret None
  | Some a =>
      d ← deref a;
      n ← lift (c_int (refcount d + 1));
      _ ← store a (mkDir (mapping d) n (handle d));
      mret (Some a)
  end.

Definition cache_return (a : positive) : M unit :=
  d ← deref a;
  _ ← lift (c_assert (0 <? refcount d));
  store a (mkDir (mapping d) (refcount d - 1) (handle d)).

End Cache.
End Client.

(** ** client/operations.c *)

Module Operations.
Import Pvfs Rpc Giga Client.

Definition MAX_FILENAME_LEN : Z := 256.
Definition FUSE_CACHE_TIME_S : Z := 10.

(** Mode bits of the C library. *)
Definition S_IFREG : Z := 32768.
Definition S_IFDIR : Z := 16384.
Definition S_IFLNK : Z := 40960.
Definition S_ISUID : Z := 2048.
Definition S_ISGID : Z := 1024.
Definition S_IRUSR : Z := 256.
Definition S_IWUSR : Z := 128.
Definition S_IXUSR : Z := 64.
Definition S_IRGRP : Z := 32.
Definition S_IWGRP : Z := 16.
Definition S_IXGRP : Z := 8.
Definition S_IROTH : Z := 4.
Definition S_IWOTH : Z := 2.
Definition S_IXOTH : Z := 1.

(** fuse_req_ctx(req) *)
Record fuse_req : Type := mkReq { req_uid : Z; req_gid : Z }.

(** What the client calls besides [PvfsOps]: file data and attributes of PVFS, the
    constants of the PVFS and FUSE headers, and FUSE's directory entries. *)
Class ClientOps (W : Type) : Type := {
  FUSE_ROOT_ID : Z;
  FUSE_SET_ATTR_MODE : Z;
  FUSE_SET_ATTR_UID : Z;
  FUSE_SET_ATTR_GID : Z;
  FUSE_SET_ATTR_SIZE : Z;
  FUSE_SET_ATTR_ATIME : Z;
  FUSE_SET_ATTR_MTIME : Z;
  FUSE_SET_ATTR_ATIME_NOW : Z;
  FUSE_SET_ATTR_MTIME_NOW : Z;
  PVFS_PERM_VALID : Z;
  PVFS_ATTR_SYS_SIZE : Z;
  PVFS_ATTR_SYS_PERM : Z;
  PVFS_ATTR_SYS_UID : Z;
  PVFS_ATTR_SYS_GID : Z;
  PVFS_ATTR_SYS_ATIME : Z;
  PVFS_ATTR_SYS_MTIME : Z;
  PVFS_O_EXECUTE : Z; PVFS_O_WRITE : Z; PVFS_O_READ : Z;
  PVFS_G_EXECUTE : Z; PVFS_G_WRITE : Z; PVFS_G_READ : Z;
  PVFS_U_EXECUTE : Z; PVFS_U_WRITE : Z; PVFS_U_READ : Z;
  PVFS_G_SGID : Z; PVFS_U_SUID : Z;
  (** the bytes of an entry with a name, an inode and an offset; their number
      depends on the name only *)
  fuse_dirent_size : string -> Z;
  fuse_dirent : string -> Z -> Z -> list Z;
  PVFS_Request_contiguous : Z -> W -> Z * W;
  PVFS_sys_setattr : PVFS_object_ref -> PVFS_sys_attr -> PVFS_credentials -> W -> Z * W;
  PVFS_sys_truncate : PVFS_object_ref -> Z -> PVFS_credentials -> W -> Z * W;
  PVFS_sys_read : PVFS_object_ref -> Z -> Z -> PVFS_credentials -> W -> Z * list Z * W;
  PVFS_sys_write : PVFS_object_ref -> Z -> list Z -> PVFS_credentials -> W -> Z * Z * W
}.

Section Operations.
Context {W : Type} `{PvfsOps W} `{ClientOps W} `{SkyeRpc W}.
#[local] Abbreviation M := (prog (client * W)).

(** A bound on the turns of each loop. *)
Variable fuel : nat.

Definition answer (r : reply) : M unit := modl (add_reply r).

Definition gen_credentials (req : fuse_req) : PVFS_credentials := mkCreds (req_uid req) (req_gid req).

Definition fsid : M Z := s ← getl; mret (Conn.pvfs_fsid (conn s)).

(** When the root cannot be looked up, the error number is returned as the handle. *)
Definition inode2handle (credentials : PVFS_credentials) (ino : Z) : M Z :=
  if negb (ino =? FUSE_ROOT_ID) then mret ino else
  s ← getl;
  if negb (pvfs_root_handle s =? 0) then mret (pvfs_root_handle s) else
  '(ret, ref) ← sys (PVFS_sys_lookup (Conn.pvfs_fsid (conn s)) "/" credentials);
  if ret <? 0 then mret (u64 (-1 * Conn.pvfs2errno ret)) else
  _ ← modl (set_root (Pvfs.handle ref));
  mret (Pvfs.handle ref).

(** ref.handle = inode2handle(..); ref.fs_id = pvfs_fsid *)
Definition inode_ref (credentials : PVFS_credentials) (ino : Z) : M PVFS_object_ref :=
  h ← inode2handle credentials ino;
  f ← fsid;
  mret (mkRef h f).

Definition get_server_for_file (d : skye_directory) (name : string) : outcome Z :=
  giga_get_server_for_file (mapping d) name.

Definition update_client_mapping (a : positive) (m : giga_mapping_t) : M unit :=
  d ← deref a;
  m' ← lift (giga_update_cache (mapping d) m);
  store a (mkDir m' (refcount d) (handle d)).

(** An RPC stub called with the connection to a server. *)
Definition call_server {A} (server_id : Z) (call : Z -> W -> A * W) : M A :=
  s ← getl;
  client ← lift (Conn.get_connection (conn s) server_id);
  match client with
  | None => crash_with NullDeref
  | Some k => sys (call k)
  end.

(** The bitmap of an answer with -EAGAIN. *)
Definition answer_bitmap (r : skye_lookup) : outcome giga_mapping_t :=
  match lookup_u r with U_bitmap m => Ret m | _ => Crash Uninitialised end.

Definition answer_ref (r : skye_lookup) : outcome PVFS_object_ref :=
  match lookup_u r with U_ref ref => Ret ref | _ => Crash Uninitialised end.

(** The loop from the label [bitmap] that every operation has: [None] when the RPC
    failed, otherwise the first answer that is not -EAGAIN. *)
Fixpoint rpc_loop (n : nat) (a : positive) (name : string)
  (call : Z -> W -> clnt_stat * skye_lookup * W) : M (option skye_lookup) :=
  match n with
  | O => crash_with NoFuel
  | S n' =>
      d ← deref a;
      server_id ← lift (get_server_for_file d name);
      '(retval, result) ← call_server server_id call;
      match retval with
      | RPC_FAILED => mret None
      | RPC_SUCCESS =>
          if errnum result =? - EAGAIN then
            m ← lift (answer_bitmap result);
            _ ← update_client_mapping a m;
            rpc_loop n' a name call
          else mret (Some result)
      end
  end.

(** The value returned, and the reference stored through [ref]. *)
Definition lookup (credentials : PVFS_credentials) (ref : PVFS_object_ref) (pathname : string)
  : M (Z * PVFS_object_ref) :=
  if MAX_FILENAME_LEN <=? Z.of_nat (String.length pathname) then mret (- ENAMETOOLONG, ref) else
  p ← cache_fetch ref;
  match p with
  | None => mret (- EIO, ref)
  | Some a =>
      r ← rpc_loop fuel a pathname (skye_rpc_lookup_1 credentials ref pathname);
      out ← (match r with
             | None => mret (- EIO, ref)
             | Some result =>
                 if errnum result <? 0 then mret (errnum result, ref)
                 else ref' ← lift (answer_ref result); mret (0, ref')
             end);
      _ ← cache_return a;
      mret out
  end.

Definition partition (credentials : PVFS_credentials) (ref : PVFS_object_ref) (pathname : string)
  : M (Z * PVFS_object_ref) :=
  if MAX_FILENAME_LEN <=? Z.of_nat (String.length pathname) then mret (- ENAMETOOLONG, ref) else
  p ← cache_fetch ref;
  match p with
  | None => mret (- EIO, ref)
  | Some a =>
      r ← rpc_loop fuel a pathname (skye_rpc_partition_1 credentials ref pathname);
      out ← (match r with
             | None => mret (- EIO, ref)
             | Some result =>
                 if errnum result <? 0 then mret (errnum result, ref)
                 else ref' ← lift (answer_ref result); mret (0, ref')
             end);
      _ ← cache_return a;
      mret out
  end.

(** The nested function [add_to_buf] of [skye_ll_opendir]: the buffer grows by one
    entry, whose offset is the size of the buffer after it. *)
Definition add_to_buf (b : positive) (e : PVFS_dirent) : M Z :=
  s ← getl;
  match dirbufs s !! b with
  | None => crash_with UseAfterFree
  | Some buf =>
      let bytes := default [] buf in
      let entrysize := fuse_dirent_size (d_name e) in
      ok ← sys malloc;
      if negb ok then mret (-1)
      else
        let entry := fuse_dirent (d_name e) (d_handle e) (Z.of_nat (length bytes) + entrysize) in
        _ ← modl (fun s => set_dirbufs (<[b := Some (bytes ++ take (Z.to_nat entrysize) entry)]> (dirbufs s)) s);
        mret 0
  end.

(** The nested function [recurse]: the entries of a partition. *)
Definition recurse (credentials : PVFS_credentials) (b : positive) (e : PVFS_dirent) : M Z :=
  match d_name e with
  | String "p"%char _ =>
      f ← fsid;
      Conn.pvfs_readdir fuel credentials (mkRef (d_handle e) f) (add_to_buf b)
  | _ => mret 0
  end.

Definition skye_ll_opendir (req : fuse_req) (ino : Z) : M unit :=
  ok ← sys malloc;
  if negb ok then answer (reply_err EIO) else
  s ← getl;
  let b := fresh (dom (dirbufs s)) in
  _ ← modl (fun s => set_dirbufs (<[b := None]> (dirbufs s)) s);
  let credentials := gen_credentials req in
  ref ← inode_ref credentials ino;
  _ ← Conn.pvfs_readdir fuel credentials ref (recurse credentials b);
  answer (reply_open (Zpos b)).

(** [fh] is the address of a buffer, or NULL. *)
Definition skye_ll_releasedir (fh : option positive) : M unit :=
  _ ← (match fh with
       | None => mret tt
       | Some b =>
           s ← getl;
           match dirbufs s !! b with
           | None => crash_with UseAfterFree
           | Some _ => modl (fun s => set_dirbufs (delete b (dirbufs s)) s)
           end
       end);
  answer (reply_err 0).

Definition skye_ll_readdir (size offset : Z) (fh : option positive) : M unit :=
  match fh with
  | None => crash_with NullDeref
  | Some b =>
      s ← getl;
      match dirbufs s !! b with
      | None => crash_with UseAfterFree
      | Some buf =>
          let bytes := default [] buf in
          let dbsize := Z.of_nat (length bytes) in
          if dbsize <=? offset then answer (reply_buf [])
          else if offset <? 0 then crash_with OutOfBounds
          else
            let n := if size <? dbsize - offset then size else dbsize - offset in
            answer (reply_buf (take (Z.to_nat n) (drop (Z.to_nat offset) bytes)))
      end
  end.

(** if (perms & pvfs_bit) perm_mode |= mode_bit *)
Definition perm_bit (perms pvfs_bit mode_bit perm_mode : Z) : Z :=
  if Z.land perms pvfs_bit =? 0 then perm_mode else Z.lor perm_mode mode_bit.

Definition perm_mode (perms : Z) : Z :=
  let m := perm_bit perms PVFS_O_EXECUTE S_IXOTH 0 in
  let m := perm_bit perms PVFS_O_WRITE S_IWOTH m in
  let m := perm_bit perms PVFS_O_READ S_IROTH m in
  let m := perm_bit perms PVFS_G_EXECUTE S_IXGRP m in
  let m := perm_bit perms PVFS_G_WRITE S_IWGRP m in
  let m := perm_bit perms PVFS_G_READ S_IRGRP m in
  let m := perm_bit perms PVFS_U_EXECUTE S_IXUSR m in
  let m := perm_bit perms PVFS_U_WRITE S_IWUSR m in
  let m := perm_bit perms PVFS_U_READ S_IRUSR m in
  let m := perm_bit perms PVFS_G_SGID S_ISGID m in
  perm_bit perms PVFS_U_SUID S_ISUID m.

Definition type_bits (t : PVFS_ds_type) : Z :=
  match t with
  | PVFS_TYPE_METAFILE => S_IFREG
  | PVFS_TYPE_DIRECTORY => S_IFDIR
  | PVFS_TYPE_SYMLINK => S_IFLNK
  | _ => 0
  end.

(** st_size and st_blocks. *)
Definition size_and_blocks (a : PVFS_sys_attr) : Z * Z :=
  if decide (objtype a = PVFS_TYPE_METAFILE) then
    if Z.land (mask a) PVFS_ATTR_SYS_SIZE =? 0 then (0, 0)
    else
      let inode_size := u64 (size a) in
      let rounded_up_size := u64 (inode_size + (4096 - inode_size mod 4096)) in
      (inode_size, rounded_up_size / 512)
  else
    match objtype a, link_target a with
    | PVFS_TYPE_SYMLINK, Some target => (Z.of_nat (String.length target), 0)
    | _, _ => (4096, 4096 / 512)
    end.

Definition stat_of (ref : PVFS_object_ref) (a : PVFS_sys_attr) : stat :=
  let '(sz, blocks) := size_and_blocks a in
  mkStat (fs_id ref) (Pvfs.handle ref) (Z.lor (perm_mode (perms a)) (type_bits (objtype a))) 1
    (owner a) (group a) 0 sz 4096 blocks (atime a) (mtime a) (ctime a).

(** The value returned, and *stbuf, which an error leaves alone. *)
Definition pvfs_getattr (credentials : PVFS_credentials) (ref : PVFS_object_ref) (stbuf : stat)
  : M (Z * stat) :=
  '(ret, attrs) ← sys (PVFS_sys_getattr ref PVFS_ATTR_SYS_ALL_NOHINT credentials);
  mret (if ret <? 0 then (Conn.pvfs2errno ret, stbuf) else (0, stat_of ref attrs)).

Definition skye_ll_getattr (req : fuse_req) (ino : Z) : M unit :=
  let credentials := gen_credentials req in
  ref ← inode_ref credentials ino;
  '(ret, stbuf) ← pvfs_getattr credentials ref zero_stat;
  if ret <? 0 then answer (reply_err ret) else answer (reply_attr stbuf 10).

(** The result of [pvfs_getattr] is returned, and no caller looks at it. *)
Definition generate_fuse_entry (credentials : PVFS_credentials) (ref : PVFS_object_ref)
  : M fuse_entry_param :=
  '(_, attr) ← pvfs_getattr credentials ref zero_stat;
  mret (mkEntry (Pvfs.handle ref) attr FUSE_CACHE_TIME_S FUSE_CACHE_TIME_S).

Definition skye_ll_lookup (req : fuse_req) (parent : Z) (name : string) : M unit :=
  let credentials := gen_credentials req in
  ref ← inode_ref credentials parent;
  '(ret, ref) ← lookup credentials ref name;
  if ret <? 0 then answer (reply_err ENOENT) else
  e ← generate_fuse_entry credentials ref;
  answer (reply_entry e).

(** The body that mknod, create and mkdir share: [finish] gives the reply. *)
Definition create_with (credentials : PVFS_credentials) (ref : PVFS_object_ref) (filename : string)
  (call : Z -> W -> clnt_stat * skye_lookup * W)
  (finish : PVFS_object_ref -> fuse_entry_param -> reply) : M unit :=
  p ← cache_fetch ref;
  match p with
  | None => answer (reply_err EIO)
  | Some a =>
      r ← rpc_loop fuel a filename call;
      _ ← (match r with
           | None => answer (reply_err EIO)
           | Some result =>
               if errnum result <? 0 then answer (reply_err (-1 * errnum result))
               else
                 child ← lift (answer_ref result);
                 e ← generate_fuse_entry credentials child;
                 answer (finish child e)
           end);
      cache_return a
  end.

Definition skye_ll_mknod (req : fuse_req) (parent : Z) (filename : string) (mode : Z) : M unit :=
  if Z.land mode S_IFREG =? 0 then answer (reply_err ENOSYS) else
  let credentials := gen_credentials req in
  ref ← inode_ref credentials parent;
  create_with credentials ref filename (skye_rpc_create_1 credentials ref filename mode)
    (fun _ e => reply_entry e).

Definition skye_ll_create (req : fuse_req) (parent : Z) (filename : string) (mode : Z) : M unit :=
  let credentials := gen_credentials req in
  ref ← inode_ref credentials parent;
  create_with credentials ref filename (skye_rpc_create_1 credentials ref filename mode)
    (fun child e => reply_create e (Pvfs.handle child)).

Definition skye_ll_mkdir (req : fuse_req) (parent : Z) (filename : string) (mode : Z) : M unit :=
  let credentials := gen_credentials req in
  ref ← inode_ref credentials parent;
  create_with credentials ref filename (skye_rpc_mkdir_1 credentials ref filename mode)
    (fun _ e => reply_entry e).

(** The loop of [skye_ll_rename] from the label [bitmap]: the error number it ends
    with.  A failed RPC is answered with EIO, and the loop goes on with what [result]
    held before. *)
Fixpoint rename_loop (n : nat) (a : positive) (dst_name : string)
  (call : Z -> W -> clnt_stat * skye_lookup * W) (result : option skye_lookup) : M Z :=
  match n with
  | O => crash_with NoFuel
  | S n' =>
      d ← deref a;
      server_id ← lift (get_server_for_file d dst_name);
      '(retval, res) ← call_server server_id call;
      result ← (match retval with
                | RPC_SUCCESS => mret (Some res)
                | RPC_FAILED => _ ← answer (reply_err EIO); mret result
                end);
      match result with
      | None => crash_with Uninitialised
      | Some r =>
          if errnum r =? - EAGAIN then
            m ← lift (answer_bitmap r);
            _ ← update_client_mapping a m;
            rename_loop n' a dst_name call result
          else mret (errnum r)
      end
  end.

(** From the label [retry]; the directory is not returned to the cache. *)
Fixpoint rename_from (retry_count : nat) (credentials : PVFS_credentials) (src_parent : Z)
  (src_name : string) (dst_parent : Z) (dst_name : string) : M unit :=
  src ← inode_ref credentials src_parent;
  dst ← inode_ref credentials dst_parent;
  '(ret, src) ← partition credentials src src_name;
  if ret <? 0 then answer (reply_err ret) else
  p ← cache_fetch dst;
  match p with
  | None => answer (reply_err EIO)
  | Some a =>
      ret ← rename_loop fuel a dst_name
              (skye_rpc_rename_1 credentials src_name src dst_name dst) None;
      if ret =? - ENOENT then
        match retry_count with
        | S n => rename_from n credentials src_parent src_name dst_parent dst_name
        | O => answer (reply_err EIO)
        end
      else answer (reply_err 0)
  end.

Definition skye_ll_rename (req : fuse_req) (src_parent : Z) (src_name : string)
  (dst_parent : Z) (dst_name : string) : M unit :=
  rename_from 3 (gen_credentials req) src_parent src_name dst_parent dst_name.

Definition skye_remove (req : fuse_req) (parent : Z) (filename : string) : M Z :=
  let credentials := gen_credentials req in
  ref ← inode_ref credentials parent;
  p ← cache_fetch ref;
  match p with
  | None => mret EIO
  | Some a =>
      r ← rpc_loop fuel a filename (skye_rpc_remove_1 credentials ref filename);
      let ret := match r with
                 | None => EIO
                 | Some result => if errnum result <? 0 then -1 * errnum result else 0
                 end in
      _ ← cache_return a;
      mret ret
  end.

Definition skye_ll_unlink (req : fuse_req) (parent : Z) (name : string) : M unit :=
  e ← skye_remove req parent name; answer (reply_err e).

Definition skye_ll_rmdir (req : fuse_req) (parent : Z) (name : string) : M unit :=
  e ← skye_remove req parent name; answer (reply_err e).

(** if (to_set & flag) ... *)
Definition set_if (to_set flag : Z) (f : PVFS_sys_attr -> PVFS_sys_attr) (a : PVFS_sys_attr) : PVFS_sys_attr :=
  if Z.land to_set flag =? 0 then a else f a.

(** The attributes passed to PVFS_sys_setattr; [now1] and [now2] are the two calls
    of time(NULL). *)
Definition new_attr (attr : stat) (to_set now1 now2 : Z) : PVFS_sys_attr :=
  let a := zero_attr in
  let a := set_if to_set FUSE_SET_ATTR_MODE (fun a =>
    mkAttr (owner a) (group a) (Z.land (st_mode attr) PVFS_PERM_VALID) (atime a) (mtime a) (ctime a) (size a)
      (link_target a) (dfile_count a) (dirent_count a) (objtype a) (Z.lor (mask a) PVFS_ATTR_SYS_PERM)) a in
  let a := set_if to_set FUSE_SET_ATTR_UID (fun a =>
    mkAttr (st_uid attr) (group a) (perms a) (atime a) (mtime a) (ctime a) (size a)
      (link_target a) (dfile_count a) (dirent_count a) (objtype a) (Z.lor (mask a) PVFS_ATTR_SYS_UID)) a in
  let a := set_if to_set FUSE_SET_ATTR_GID (fun a =>
    mkAttr (owner a) (st_gid attr) (perms a) (atime a) (mtime a) (ctime a) (size a)
      (link_target a) (dfile_count a) (dirent_count a) (objtype a) (Z.lor (mask a) PVFS_ATTR_SYS_GID)) a in
  let set_atime t := fun a =>
    mkAttr (owner a) (group a) (perms a) t (mtime a) (ctime a) (size a)
      (link_target a) (dfile_count a) (dirent_count a) (objtype a) (Z.lor (mask a) PVFS_ATTR_SYS_ATIME) in
  let set_mtime t := fun a =>
    mkAttr (owner a) (group a) (perms a) (atime a) t (ctime a) (size a)
      (link_target a) (dfile_count a) (dirent_count a) (objtype a) (Z.lor (mask a) PVFS_ATTR_SYS_MTIME) in
  let a := set_if to_set FUSE_SET_ATTR_ATIME (set_atime (st_atime attr)) a in
  let a := set_if to_set FUSE_SET_ATTR_MTIME (set_mtime (st_mtime attr)) a in
  let a := set_if to_set FUSE_SET_ATTR_ATIME_NOW (set_atime now1) a in
  set_if to_set FUSE_SET_ATTR_MTIME_NOW (set_mtime now2) a.

Definition skye_ll_setattr (req : fuse_req) (ino : Z) (attr : stat) (to_set : Z) : M unit :=
  let credentials := gen_credentials req in
  ref ← inode_ref credentials ino;
  now1 ← (if Z.land to_set FUSE_SET_ATTR_ATIME_NOW =? 0 then mret 0 else sys time);
  now2 ← (if Z.land to_set FUSE_SET_ATTR_MTIME_NOW =? 0 then mret 0 else sys time);
  ret ← sys (PVFS_sys_setattr ref (new_attr attr to_set now1 now2) credentials);
  if ret <? 0 then answer (reply_err (Conn.pvfs2errno ret)) else
  ret ← (if Z.land to_set FUSE_SET_ATTR_SIZE =? 0 then mret 0
         else sys (PVFS_sys_truncate ref (st_size attr) credentials));
  if ret <? 0 then answer (reply_err (Conn.pvfs2errno ret)) else
  '(ret, stbuf) ← pvfs_getattr credentials ref zero_stat;
  if ret <? 0 then answer (reply_err ret) else answer (reply_attr stbuf FUSE_CACHE_TIME_S).

Definition skye_ll_open (req : fuse_req) (ino : Z) : M unit :=
  h ← inode2handle (gen_credentials req) ino;
  answer (reply_open h).

(** The bytes PVFS_sys_read stores in the buffer are the ones it completed. *)
Definition skye_ll_read (req : fuse_req) (ino size offset : Z) : M unit :=
  let credentials := gen_credentials req in
  ref ← inode_ref credentials ino;
  ret ← sys (PVFS_Request_contiguous size);
  if ret <? 0 then answer (reply_err (Conn.pvfs2errno ret)) else
  '(ret, bytes) ← sys (PVFS_sys_read ref offset size credentials);
  if ret <? 0 then answer (reply_err (Conn.pvfs2errno ret)) else
  answer (reply_buf bytes).

Definition skye_ll_write (req : fuse_req) (ino : Z) (buf : list Z) (offset : Z) : M unit :=
  let credentials := gen_credentials req in
  ref ← inode_ref credentials ino;
  ret ← sys (PVFS_Request_contiguous (Z.of_nat (length buf)));
  if ret <? 0 then answer (reply_err (Conn.pvfs2errno ret)) else
  '(ret, total_completed) ← sys (PVFS_sys_write ref offset buf credentials);
  if ret <? 0 then answer (reply_err (Conn.pvfs2errno ret)) else
  answer (reply_write total_completed).

End Operations.
End Operations.
