(* ===== verification/Listing.v ===== *)
(** * Listing a logical directory: skye_ll_opendir and skye_ll_readdir

    The client opens a directory by reading the entries of all its partitions into a buffer,
    from which FUSE reads: the buffer holds the entries of every directory object 'p...' of
    the logical directory, in the order of the listings.  When realloc fails, the rest of
    the batch in hand is left out, and the listing goes on with the next batch. *)

From Stdlib Require Import Ascii.
From S2P Require Import Prelude GigaIndex Pvfs Rpc Connection MemFs ConnProps Client.

#[local] Open Scope Z_scope.

Section Listing.
Import Pvfs Client Operations.
Context {W : Type} {P : PvfsOps W} {C : ClientOps W} {V : PvfsView W} {L : PvfsSpec W}.

(** The directory that an inode number stands for, once the root is known. *)
Definition opened (c : client) (ino : Z) : Z := if ino =? FUSE_ROOT_ID then pvfs_root_handle c else ino.

(** One more entry at the end of a buffer; its offset is the size of the buffer after it. *)
Definition put (bytes : list Z) (e : PVFS_dirent) : list Z :=
  bytes ++ take (Z.to_nat (fuse_dirent_size (d_name e)))
    (fuse_dirent (d_name e) (d_handle e) (Z.of_nat (length bytes) + fuse_dirent_size (d_name e))).

(** The buffer of some entries. *)
Definition buffer_of (l : list PVFS_dirent) : list Z := foldl put [] l.

(** A directory object that is a partition. *)
Definition is_partition (n : string) : bool := match n with String "p"%char _ => true | _ => false end.

(** The entries of the partitions among [ps], in the order of the listings. *)
Definition partition_entries (w : W) (ps : list (string * Z)) : list PVFS_dirent :=
  ps ≫= fun e => if is_partition e.1 then dirent_of <$> default [] (dirs w e.2) else [].

Lemma partition_entries_quiet w w' ps : quiet w w' -> partition_entries w' ps = partition_entries w ps.
Proof. intros Hq. unfold partition_entries. induction ps as [|e ps IH]; [done|]. cbn. by rewrite IH, (quiet_dirs _ _ _ Hq). Qed.

Section Opening.
Variables (fuel : nat) (cr : PVFS_credentials) (b : positive) (c0 : client) (w0 : W).

(** Whether every allocation succeeds. *)
Definition roomy : Prop := forall w, quiet w0 w -> (malloc w).1 = true.

(** The buffer holds some of the entries [l], in their order, and all of them when no
    allocation fails; nothing else has changed. *)
Definition listed (l : list PVFS_dirent) (st : client * W) : Prop :=
  quiet w0 st.2 /\ exists l', l' `sublist_of` l /\ (roomy -> l' = l) /\
    exists buf, default [] buf = buffer_of l' /\ st.1 = set_dirbufs (<[b := buf]> (dirbufs c0)) c0.

Lemma listing_quiet l s w w' : listed l (s, w) -> quiet w w' -> listed l (s, w').
Proof. intros [H1 H2] Hq. split; [by eapply quiet_trans|done]. Qed.

(** add_to_buf takes the entry in, or gives up the batch. *)
Lemma wp_add_to_buf base d l st : listed (base ++ l) st ->
  wp no_crash (add_to_buf b d) (fun r st' => if r =? 0 then listed (base ++ l ++ [d]) st' else forall rest, listed (base ++ l ++ d :: rest) st') st.
Proof.
  destruct st as [s w]. intros [Hq (l' & Hs & Hr & buf & Hb & Est)]. cbn [fst snd] in *. unfold add_to_buf. apply wp_bind, wp_getl. cbn [fst]. rewrite Est at 1.
  cbn [dirbufs set_dirbufs]. rewrite lookup_insert_eq. apply wp_bind.
  destruct (malloc_quiet w (quiet_ok _ _ Hq)) as (ok & w1 & Em & Hq1). eapply wp_sys_eq; [exact Em|]. cbn [fst].
  assert (Hq' : quiet w0 w1) by by eapply quiet_trans. destruct ok; cbn [negb].
  - apply wp_bind, wp_modl, wp_ret. cbn [Z.eqb fst snd]. split; [done|]. exists (l' ++ [d]).
    split; [rewrite app_assoc; by apply sublist_app|]. split; [intros Hro; by rewrite (Hr Hro), app_assoc|].
    eexists. split; [|rewrite Est; unfold set_dirbufs; cbn; by rewrite insert_insert_eq].
    cbn [default]. unfold buffer_of. rewrite foldl_app. cbn [foldl]. fold (buffer_of l'). by rewrite <- Hb.
  - apply wp_ret. cbn [Z.eqb]. intros rest. split; [done|]. exists l'. split; [rewrite app_assoc; by apply sublist_inserts_r|].
    split; [|by exists buf]. intros Hro. assert (H := Hro w Hq). by rewrite Em in H.
Qed.

(** recurse passes the entries of a partition. *)
Lemma wp_recurse ps d l st : Forall (fun e => is_partition e.1 = true -> exists es, dirs w0 e.2 = Some es /\ (length es < 256 * fuel)%nat) ps ->
  listed (partition_entries w0 l) st -> d ∈ dirent_of <$> ps ->
  wp no_crash (recurse fuel cr b d) (fun r st' => r = 0 /\ listed (partition_entries w0 (l ++ [(d_name d, d_handle d)])) st') st.
Proof.
  intros Hps Hl ([n h] & -> & Hin)%list_elem_of_fmap. rewrite list.Forall_forall in Hps. cbn [dirent_of d_name d_handle fst snd].
  assert (Ep : partition_entries w0 (l ++ [(n, h)]) = partition_entries w0 l ++ (if is_partition n then dirent_of <$> default [] (dirs w0 h) else [])).
  { unfold partition_entries. rewrite bind_app. cbn. by rewrite app_nil_r. }
  rewrite Ep. unfold recurse. cbn [dirent_of d_name d_handle fst snd]. destruct (is_partition n) eqn:En.
  - assert (Hn : forall A (x y : A), match n with String "p"%char _ => x | _ => y end = x).
    { intros A x y. unfold is_partition in En. destruct n as [|a n]; [done|]. destruct a as [[] [] [] [] [] [] [] []]; done. }
    rewrite Hn. destruct (Hps _ Hin En) as (es & Hd & Hf). cbn [snd] in Hd. rewrite Hd. cbn [default].
    apply wp_bind, wp_bind, wp_getl, wp_ret. eapply wp_conseq.
    + apply (wp_readdir no_crash cr (mkRef h (Conn.pvfs_fsid (conn st.1))) (add_to_buf b) es
        (fun l1 st1 => listed (partition_entries w0 l ++ l1) st1)) with (l := []); [| | |by rewrite app_nil_r|exact Hf].
      * intros l1 st1 [Hq _]. split; [by eapply quiet_ok|]. cbn [handle]. by rewrite (quiet_dirs _ _ _ Hq).
      * intros l1 s w w'. apply listing_quiet.
      * intros d l1 st1 _. apply wp_add_to_buf.
    + cbv beta. cbn [app]. done.
  - assert (Hn : forall A (x y : A), match n with String "p"%char _ => x | _ => y end = y).
    { intros A x y. unfold is_partition in En. destruct n as [|a n]; [done|]. destruct a as [[] [] [] [] [] [] [] []]; done. }
    rewrite Hn. apply wp_ret. by rewrite app_nil_r.
Qed.

(** The listing of the logical directory [h]. *)
Lemma wp_listing h f ps st : listed [] st -> dirs w0 h = Some ps -> (length ps < 256 * fuel)%nat ->
  Forall (fun e => is_partition e.1 = true -> exists es, dirs w0 e.2 = Some es /\ (length es < 256 * fuel)%nat) ps ->
  wp no_crash (Conn.pvfs_readdir fuel cr (mkRef h f) (recurse fuel cr b)) (fun _ st' => listed (partition_entries w0 ps) st') st.
Proof.
  intros Hl Hd Hf Hps.
  pose (of_dirent (d : PVFS_dirent) := (d_name d, d_handle d)).
  assert (Eo : of_dirent <$> (dirent_of <$> ps) = ps) by (clear; induction ps as [|[n k] ps IH]; [done|]; rewrite !fmap_cons, IH; done).
  eapply wp_conseq.
  - apply (wp_readdir no_crash cr (mkRef h f) (recurse fuel cr b) ps (fun l st => listed (partition_entries w0 (of_dirent <$> l)) st)) with (l := []);
      [| | |exact Hl|exact Hf].
    + intros l st1 [Hq _]. split; [by eapply quiet_ok|]. cbn [handle]. by rewrite (quiet_dirs _ _ _ Hq).
    + intros l s w w'. apply listing_quiet.
    + intros d l st1 Hd1 Hl1. eapply wp_conseq; [by apply (wp_recurse ps)|]. cbv beta. intros r st2 [-> H]. cbn [Z.eqb]. by rewrite fmap_app.
  - cbv beta. intros r st' [_ H]. cbn [app] in H. by rewrite Eo in H.
Qed.

End Opening.
End Listing.

Section ListingProperties.
Import Pvfs Client Operations.

(** What FUSE reads from a buffer at an offset. *)
Definition slice (bytes : list Z) (size offset : Z) : list Z := take (Z.to_nat size) (drop (Z.to_nat offset) bytes).

Lemma readdir_reads {W : Type} (size offset : Z) b (c : client) (w : W) buf : dirbufs c !! b = Some buf -> 0 <= size -> 0 <= offset ->
  skye_ll_readdir size offset (Some b) (c, w) = Ret (tt, (add_reply (reply_buf (slice (default [] buf) size offset)) c, w)).
Proof.
  intros Hb Hs Ho. unfold skye_ll_readdir, getl, mbind, prog_bind. cbn [fst]. rewrite Hb. set (bytes := default [] buf).
  destruct (Z.leb_spec (Z.of_nat (length bytes)) offset) as [Hle|Hgt].
  - unfold slice. rewrite drop_ge by lia. by rewrite take_nil.
  - destruct (Z.ltb_spec offset 0); [lia|]. destruct (Z.ltb_spec size (Z.of_nat (length bytes) - offset)); [done|].
    unfold slice. rewrite !(take_ge (drop _ _)) by (rewrite length_drop; lia). done.
Qed.

(** C28 A directory is listed in full: skye_ll_opendir of a logical directory whose entries
    'p...' are directory objects always replies.  Either it replies EIO because its buffer
    cannot be allocated, or it opens a buffer with entries of these partitions, each entry
    once and in the order of the listings, however many batches of 256 that takes, and with
    all of them when no allocation fails; skye_ll_readdir replies with the bytes of the buffer
    from the offset on.  PVFS and the rest of the client are as before.  (When realloc fails
    the entry and the rest of its batch are left out, and the reply is the same.) *)
Theorem opendir_lists_all {W} {P : PvfsOps W} {C : ClientOps W} {V : PvfsView W} {L : PvfsSpec W} (fuel : nat)
  (req : fuse_req) (ino : Z) (c : client) (w : W) (ps : list (string * Z))
  (Hok : fs_ok w) (Hino : ino = FUSE_ROOT_ID -> pvfs_root_handle c <> 0) (Hd : dirs w (opened c ino) = Some ps)
  (Hf : (length ps < 256 * fuel)%nat)
  (Hps : Forall (fun e => is_partition e.1 = true -> exists es, dirs w e.2 = Some es /\ (length es < 256 * fuel)%nat) ps) :
  exists c' w', skye_ll_opendir fuel req ino (c, w) = Ret (tt, (c', w')) /\ quiet w w' /\
  ((malloc w).1 = false /\ c' = add_reply (reply_err EIO) c \/
   exists b buf l, dirbufs c !! b = None /\ c' = add_reply (reply_open (Zpos b)) (set_dirbufs (<[b := buf]> (dirbufs c)) c) /\
     default [] buf = buffer_of l /\ l `sublist_of` partition_entries w ps /\
     ((forall w1, quiet w w1 -> (malloc w1).1 = true) -> l = partition_entries w ps) /\
     forall size offset (w1 : W), 0 <= size -> 0 <= offset ->
       skye_ll_readdir size offset (Some b) (c', w1) = Ret (tt, (add_reply (reply_buf (slice (buffer_of l) size offset)) c', w1))).
Proof.
  destruct (malloc_quiet w Hok) as (ok & w1 & Em & Hq1).
  assert (Hw : wp no_crash (skye_ll_opendir fuel req ino) (fun _ st => quiet w st.2 /\
    (ok = false /\ st.1 = add_reply (reply_err EIO) c \/ exists b buf l, dirbufs c !! b = None /\
       st.1 = add_reply (reply_open (Zpos b)) (set_dirbufs (<[b := buf]> (dirbufs c)) c) /\ default [] buf = buffer_of l /\
       l `sublist_of` partition_entries w ps /\ (roomy w -> l = partition_entries w ps))) (c, w)).
  { unfold skye_ll_opendir. apply wp_bind. eapply wp_sys_eq; [exact Em|]. destruct ok; cbn [negb fst]; [|apply wp_modl; split; [done|by left]].
    apply wp_bind, wp_getl, wp_bind, wp_modl. cbn [fst snd]. set (b := fresh (dom (dirbufs c))).
    assert (Hb : dirbufs c !! b = None) by apply not_elem_of_dom, is_fresh. apply wp_bind.
    assert (Hh : forall Q st, (forall f, Q (mkRef (opened c ino) f) st) -> st.1 = set_dirbufs (<[b := None]> (dirbufs c)) c ->
      wp no_crash (inode_ref (gen_credentials req) ino) Q st).
    { intros Q st HQ Est. unfold inode_ref. apply wp_bind. unfold inode2handle, opened in *. destruct (Z.eqb_spec ino FUSE_ROOT_ID) as [E|Hne]; cbn [negb].
      - apply wp_bind, wp_getl. rewrite Est. cbn [pvfs_root_handle set_dirbufs]. destruct (Z.eqb_spec (pvfs_root_handle c) 0) as [E0|_]; [by destruct (Hino E)|].
        cbn [negb]. apply wp_ret, wp_bind. unfold fsid. by apply wp_bind, wp_getl, wp_ret, wp_ret.
      - apply wp_ret, wp_bind. unfold fsid. by apply wp_bind, wp_getl, wp_ret, wp_ret. }
    apply Hh; [|done]. intros f. apply wp_bind. eapply wp_conseq; [apply (wp_listing fuel _ b c w _ f ps); try done|].
    - split; [done|]. exists []. split; [done|]. split; [done|]. by exists None.
    - cbv beta. intros r [s w2] [Hq (l & H1 & H2 & buf & H3 & H4)]. cbn [fst snd] in *. subst s. apply wp_modl. split; [done|]. right. by exists b, buf, l. }
  apply wp_run in Hw as ([] & [c' w'] & E & Hq & Hc). exists c', w'. split; [done|]. split; [done|]. rewrite Em. cbn [fst snd] in *.
  destruct Hc as [Hc|(b & buf & l & Hb & -> & Hbuf & Hl & Hr)]; [by left|right]. exists b, buf, l. do 5 (split; [done|]).
  intros size offset w2 Hs Ho. rewrite <- Hbuf. apply readdir_reads; [|done..]. cbn. apply lookup_insert_eq.
Qed.

(** The constants and entries of FUSE, as far as a listing needs them: an entry is the
    inode, the offset and the characters of the name. *)
Definition a_dirent (n : string) (ino off : Z) : list Z := ino :: off :: (Z.of_nat ∘ nat_of_ascii <$> String.list_ascii_of_string n).

#[local] Instance listing_ops : ClientOps MemFs.mem := {|
  FUSE_ROOT_ID := 1; FUSE_SET_ATTR_MODE := 0; FUSE_SET_ATTR_UID := 0; FUSE_SET_ATTR_GID := 0; FUSE_SET_ATTR_SIZE := 0; FUSE_SET_ATTR_ATIME := 0;
  FUSE_SET_ATTR_MTIME := 0; FUSE_SET_ATTR_ATIME_NOW := 0; FUSE_SET_ATTR_MTIME_NOW := 0; PVFS_PERM_VALID := 0; PVFS_ATTR_SYS_SIZE := 0;
  PVFS_ATTR_SYS_PERM := 0; PVFS_ATTR_SYS_UID := 0; PVFS_ATTR_SYS_GID := 0; PVFS_ATTR_SYS_ATIME := 0; PVFS_ATTR_SYS_MTIME := 0;
  PVFS_O_EXECUTE := 0; PVFS_O_WRITE := 0; PVFS_O_READ := 0; PVFS_G_EXECUTE := 0; PVFS_G_WRITE := 0; PVFS_G_READ := 0;
  PVFS_U_EXECUTE := 0; PVFS_U_WRITE := 0; PVFS_U_READ := 0; PVFS_G_SGID := 0; PVFS_U_SUID := 0;
  fuse_dirent_size := fun n => 2 + Z.of_nat (String.length n); fuse_dirent := a_dirent;
  PVFS_Request_contiguous := fun _ w => (0, w); PVFS_sys_setattr := fun _ _ _ w => (0, w); PVFS_sys_truncate := fun _ _ _ w => (0, w);
  PVFS_sys_read := fun _ _ _ _ w => (0, [], w); PVFS_sys_write := fun _ _ _ _ w => (0, 0, w) |}.

(** A client that has looked up nothing but the root. *)
Definition a_client : client := mkClient MemFs.one_server ∅ ∅ 1 ∅ [].

Lemma opendir_lists_all_witness : exists c' w', skye_ll_opendir 1 (mkReq 0 0) 1 (a_client, MemFs.small_fs) = Ret (tt, (c', w')) /\
  replies c' = [reply_open 1] /\ dirbufs c' !! 1%positive = Some (Some [3; 7; 104; 101; 108; 108; 111]).
Proof.
  destruct (opendir_lists_all 1 (mkReq 0 0) 1 a_client MemFs.small_fs [("p00000", 2)%string]) as (c' & w' & E & _ & H).
  - split; [apply mem_okb_ok; vm_compute; reflexivity|reflexivity].
  - discriminate.
  - reflexivity.
  - cbn. lia.
  - apply Forall_singleton. intros _. exists [("hello", 3)%string]. split; [reflexivity|cbn; lia].
  - exists c', w'. split; [exact E|]. vm_compute in E. injection E as <- <-. split; reflexivity.
Defined.

End ListingProperties.
