(* ===== verification/Routing.v ===== *)
(** * Routing: what a server answers to a misrouted request, and why clients arrive

    A client picks the server of a name with its own, possibly outdated mapping.  The
    first part shows what every handler does with a name whose partition lives on
    another server; the second shows that the retry loop of client/operations.c ends
    against any servers that answer that way ([Informed] is the interface between
    the two), because each -EAGAIN answer teaches the client a partition it did not
    know. *)

From S2P Require Import Prelude Sha GigaIndex Names Utlist Pvfs Rpc.
From S2P Require Import Connection MemFs ServerCache Split Handlers Balance Client.

#[local] Open Scope Z_scope.

(** ** The handlers *)

Section Misrouted.
Import Pvfs Rpc Giga Tree Server Cache Split Handlers.
Context {W : Type} `{PvfsOps W} `{BucketRpc W}.
Variable self : Z.
Variable fuel : nat.

(** A cached directory that this thread may read. *)
Record readable (s : server) (ref : PVFS_object_ref) (a : positive) (d : skye_directory) : Prop :=
  mkReadable {
    rd_table : dircache s !! ref = Some a;
    rd_heap : heap s !! a = Some d;
    rd_count : 1 <= refcount d < 2 ^ 31 - 1;
    rd_lock : exists n, 0 <= n /\ rwlock d = Rwlock.mkLock n None
  }.

(** The directory while one more reader has it. *)
Definition with_reader (d : skye_directory) : skye_directory :=
  set_rwlock (Rwlock.mkLock (Rwlock.readers (rwlock d) + 1) None) (set_refcount (refcount d + 1) d).

Definition reading (s : server) (a : positive) (d : skye_directory) : server :=
  set_heap (<[a := with_reader d]> (heap s)) s.

Lemma cache_fetch_run s ref a d (w : W) :
  readable s ref a d -> cache_fetch self fuel ref (s, w) = Ret (Some a, (reading s a d, w)).
Proof.
  intros [Ht Hh Hc (n & Hn & Hl)]. unfold cache_fetch, fetch, lock_with, update, deref, store, getl, modl,
    lift, mbind, prog_bind, mret, prog_ret. cbn. rewrite Ht. cbn. rewrite Hh. cbn. rewrite lookup_insert_eq. cbn.
  rewrite Hl. cbn. rewrite i32_small by lia. unfold reading, with_reader, set_heap. cbn.
  rewrite insert_insert_eq, Hl. reflexivity.
Qed.

Lemma cache_return_run s ref a d (w : W) :
  readable s ref a d -> cache_return self a (reading s a d, w) = Ret (tt, (s, w)).
Proof.
  intros [Ht Hh Hc (n & Hn & Hl)]. unfold cache_return, unlock_dir, deref, store, modl, lift, mbind,
    prog_bind, mret, prog_ret, Rwlock.unlock. cbn. rewrite lookup_insert_eq. cbn. rewrite Hl. cbn.
  destruct (Z.ltb_spec 0 (n + 1)); [|lia]. cbn. rewrite lookup_insert_eq. cbn.
  destruct (Z.ltb_spec 0 (refcount d + 1)); [|lia]. cbn.
  rewrite i32_small by lia. destruct (Z.eqb_spec (refcount d + 1 - 1) 0); [lia|].
  unfold set_heap. cbn. rewrite !insert_insert_eq. do 3 f_equal. destruct s; cbn. f_equal. apply insert_id. cbn in Hh. rewrite Hh.
  f_equal. destruct d as [m0 rc h0 si lk len ph]; cbn in *. subst lk. cbn.
  by replace (rc + 1 - 1) with rc by lia; replace (n + 1 - 1) with n by lia.
Qed.

(** The name is looked up in a partition of another server. *)
Definition elsewhere (s : server) (d : skye_directory) (name : string) : Prop :=
  exists i sv, giga_get_index_for_file (mapping d) name = Ret i /\
    giga_get_server_for_index (mapping d) i = Ret sv /\ sv <> Conn.servernum (Conn.opts (conn s)).

(** The partition of a name lives on this server, and is not being split. *)
Definition here (s : server) (d : skye_directory) (name : string) : Prop :=
  exists i, giga_get_index_for_file (mapping d) name = Ret i /\
    giga_get_server_for_index (mapping d) i = Ret (Conn.servernum (Conn.opts (conn s))) /\
    i <> splitting_index d.

(** The requests that carry a name, and the directory and name they are routed by. *)
Definition routed (q : request) : option (PVFS_object_ref * string) :=
  match q with
  | Lookup _ p n | Partition _ p n | Remove _ p n => Some (p, n)
  | Create _ p n _ | Mkdir _ p n _ => Some (p, n)
  | Rename _ _ _ n p => Some (p, n)
  | Bucket_add _ _ | Bucket_remove _ _ _ => None
  end.

Lemma enter_bucket_elsewhere c s a d name ref (w : W) :
  elsewhere s d name ->
  enter_bucket c a name ref true (reading s a d, w) =
    Ret (- EAGAIN, ref, Some (mapping d), (reading s a d, w)).
Proof.
  intros (i & sv & E1 & E2 & Hne). unfold enter_bucket, deref, servernum, getl, lift, mbind, prog_bind,
    mret, prog_ret. cbn. rewrite lookup_insert_eq. cbn. rewrite E1, E2. cbn.
  apply Z.eqb_neq in Hne. by rewrite Hne.
Qed.

Lemma flow_run (s : server) ref a d :
  0 < flow_sem s -> readable s ref a d ->
  let s1 := set_flow_sem (flow_sem s - 1) s in
  (forall w : W, flow_start (s, w) = Ret (0, (s1, w))) /\ readable s1 ref a d /\
  (forall w : W, flow_stop 0 (s1, w) = Ret (tt, (s, w))).
Proof.
  intros Hf [Ht Hh Hc Hl] s1. split_and!; [|by split|].
  - intros w. unfold flow_start, mbind, prog_bind, getl. cbn. by destruct (Z.ltb_spec 0 (flow_sem s)); [|lia].
  - intros w. unfold flow_stop, mbind, prog_bind, getl, modl. cbn. unfold set_flow_sem. cbn.
    replace (flow_sem s - 1 + 1) with (flow_sem s) by lia. by destruct s.
Qed.

(** The head of every handler up to the fetched directory. *)
Lemma handler_head {A} (k : Z -> option positive -> prog (server * W) A) s ref a d (w : W) :
  0 < flow_sem s -> readable s ref a d ->
  (f ← flow_start; p ← cache_fetch self fuel ref; k f p) (s, w) =
  k 0 (Some a) (reading (set_flow_sem (flow_sem s - 1) s) a d, w).
Proof.
  intros Hf Hr. destruct (flow_run s ref a d Hf Hr) as (E1 & Hr1 & _).
  rewrite (prog_bind_Ret _ _ _ _ _ (E1 w)). cbv beta.
  by rewrite (prog_bind_Ret _ _ _ _ _ (cache_fetch_run _ ref a d w Hr1)).
Qed.

(** And its tail. *)
Lemma handler_tail {A} (x : A) s ref a d (w : W) :
  0 < flow_sem s -> readable s ref a d ->
  (_ ← cache_return self a; _ ← flow_stop 0; mret x)
    (reading (set_flow_sem (flow_sem s - 1) s) a d, w) = Ret (x, (s, w)).
Proof.
  intros Hf Hr. destruct (flow_run s ref a d Hf Hr) as (_ & Hr1 & E2).
  rewrite (prog_bind_Ret _ _ _ _ _ (cache_return_run _ ref a d w Hr1)). cbv beta.
  by rewrite (prog_bind_Ret _ _ _ _ _ (E2 w)).
Qed.

Lemma reading_deref s a d (w : W) : deref a (reading s a d, w) = Ret (with_reader d, (reading s a d, w)).
Proof. unfold deref. cbn. by rewrite lookup_insert_eq. Qed.

Lemma lift_run {A} (m : outcome A) x (s : server * W) : m = Ret x -> lift m s = Ret (x, s).
Proof. by intros ->. Qed.

Lemma servernum_run (s : server * W) : servernum s = Ret (Conn.servernum (Conn.opts (conn s.1)), s).
Proof. reflexivity. Qed.

Lemma mret_run {A} (x : A) (s : server * W) : (mret x : prog (server * W) A) s = Ret (x, s).
Proof. reflexivity. Qed.

(** The common middle of the handlers that enter a bucket. *)
Lemma enter_refused {A} c s ref a d name (w : W) (k : Z * PVFS_object_ref * option giga_mapping_t -> prog (server * W) A) :
  elsewhere s d name ->
  (enter_bucket c a name ref true ≫= k) (reading (set_flow_sem (flow_sem s - 1) s) a d, w) =
  k (- EAGAIN, ref, Some (mapping d)) (reading (set_flow_sem (flow_sem s - 1) s) a d, w).
Proof.
  intros He. apply prog_bind_Ret. by apply enter_bucket_elsewhere.
Qed.

End Misrouted.

Section RoutingProperties.
Import Pvfs Rpc Giga Tree Server Cache Split Handlers.

Lemma lookup_misrouted {W} `{PvfsOps W} `{BucketRpc W} self fuel c s p a d name (w : W) :
  readable s p a d -> 0 < flow_sem s -> elsewhere s d name ->
  skye_rpc_lookup_1_svc self fuel c p name (s, w) =
    Ret (mkLookup (- EAGAIN) (U_bitmap (mapping d)), (s, w)).
Proof.
  intros Hr Hf (i & sv & E1 & E2 & Hne). unfold skye_rpc_lookup_1_svc.
  rewrite (handler_head self fuel _ s p a d w Hf Hr). cbv beta iota.
  rewrite (prog_bind_Ret _ _ _ _ _ (reading_deref _ a d w)). cbv beta.
  rewrite (prog_bind_Ret _ _ _ _ _ (lift_run _ i _ E1)). cbv beta.
  rewrite (prog_bind_Ret _ _ _ _ _ (lift_run _ sv _ E2)). cbv beta.
  assert (Hneb : negb (sv =? Conn.servernum (Conn.opts (conn s))) = true)
    by (apply Z.eqb_neq in Hne; by rewrite Hne).
  rewrite (prog_bind_Ret _ _ _ _ _ (servernum_run _)). cbv beta. cbn [fst conn reading set_heap set_flow_sem]. rewrite Hneb.
  rewrite (prog_bind_Ret _ _ _ _ _ (mret_run _ _)). cbv beta. by apply (handler_tail self _ s p a d w).
Qed.

Lemma partition_misrouted {W} `{PvfsOps W} `{BucketRpc W} self fuel c s p a d name (w : W) :
  readable s p a d -> 0 < flow_sem s -> elsewhere s d name ->
  skye_rpc_partition_1_svc self fuel c p name (s, w) =
    Ret (mkLookup (- EAGAIN) (U_bitmap (mapping d)), (s, w)).
Proof.
  intros Hr Hf (i & sv & E1 & E2 & Hne). unfold skye_rpc_partition_1_svc.
  rewrite (handler_head self fuel _ s p a d w Hf Hr). cbv beta iota.
  rewrite (prog_bind_Ret _ _ _ _ _ (reading_deref _ a d w)). cbv beta.
  rewrite (prog_bind_Ret _ _ _ _ _ (lift_run _ i _ E1)). cbv beta.
  assert (Hneb : negb (sv =? Conn.servernum (Conn.opts (conn s))) = true)
    by (apply Z.eqb_neq in Hne; by rewrite Hne).
  rewrite (prog_bind_Ret _ _ _ (mkLookup (- EAGAIN) (U_bitmap (mapping d)))
    (reading (set_flow_sem (flow_sem s - 1) s) a d, w)).
  { by apply (handler_tail self _ s p a d w). }
  cbn [partition_from]. rewrite (prog_bind_Ret _ _ _ _ _ (reading_deref _ a d w)). cbv beta.
  rewrite (prog_bind_Ret _ _ _ _ _ (lift_run _ sv _ E2)). cbv beta.
  rewrite (prog_bind_Ret _ _ _ _ _ (servernum_run _)). cbv beta. cbn [fst conn reading set_heap set_flow_sem]. by rewrite Hneb.
Qed.

(** The refusal of a request whose name lives elsewhere. *)
Definition refusal (d : skye_directory) : skye_lookup := mkLookup (- EAGAIN) (U_bitmap (mapping d)).

Lemma remove_misrouted {W} `{PvfsOps W} `{BucketRpc W} self fuel c s p name a d (w : W) :
  readable s p a d -> 0 < flow_sem s -> elsewhere s d name ->
  skye_rpc_remove_1_svc self fuel c p name (s, w) = Ret (refusal d, (s, w)).
Proof.
  intros Hr Hf He. unfold skye_rpc_remove_1_svc. rewrite (handler_head self fuel _ s p a d w Hf Hr).
  cbv beta iota. rewrite enter_refused by done. cbv beta iota.
  change (- EAGAIN <? 0) with true. cbv iota.
  rewrite (prog_bind_Ret _ _ _ _ _ (mret_run _ _)). cbv beta iota. by apply (handler_tail self _ s p a d).
Qed.

Lemma serve_misrouted {W} `{PvfsOps W} `{BucketRpc W} self fuel q s p name a d (w : W) :
  routed q = Some (p, name) -> readable s p a d -> 0 < flow_sem s -> elsewhere s d name ->
  exists w', serve self fuel q (s, w) = Ret (refusal d, (s, w')) /\ (w' = w \/ w' = (time w).2).
Proof.
  intros Hq Hr Hf He. destruct q; cbn in Hq; try discriminate; injection Hq as -> ->; cbn [serve].
  - exists w. split; [by apply lookup_misrouted with (a := a)|by left].
  - exists w. split; [by apply partition_misrouted with (a := a)|by left].
  - exists (time w).2. split; [|by right]. unfold skye_rpc_create_1_svc.
    rewrite (prog_bind_Ret _ _ _ (time w).1 (s, (time w).2)) by (unfold sys; cbn; by destruct (time w)).
    cbv beta. rewrite (handler_head self fuel _ s p a d _ Hf Hr). cbv beta iota.
    rewrite enter_refused by done. by apply (handler_tail self _ s p a d).
  - exists w. split; [|by left]. unfold skye_rpc_mkdir_1_svc.
    rewrite (handler_head self fuel _ s p a d w Hf Hr). cbv beta iota.
    rewrite enter_refused by done. by apply (handler_tail self _ s p a d).
  - exists w. split; [|by left]. unfold skye_rpc_rename_1_svc.
    rewrite (handler_head self fuel _ s p a d w Hf Hr). cbv beta iota.
    rewrite enter_refused by done. by apply (handler_tail self _ s p a d).
  - exists w. split; [by apply remove_misrouted with (a := a)|by left].
Qed.

(** C18 A misrouted request changes nothing: when a name belongs to a partition that,
    by the server's mapping of a cached directory, lives on another server, every
    handler that takes a name (lookup, partition, create, mkdir, rename and remove)
    returns -EAGAIN together with that mapping, calls PVFS for nothing, and leaves the
    server's whole state (caches, counts, locks, semaphore, queue) exactly as it was. *)
Theorem misrouted_request {W} `{PvfsOps W} `{BucketRpc W} (self : Z) (fuel : nat) (q : request)
  (c : PVFS_credentials) (s : server) (p : PVFS_object_ref) (name : string) (a : positive)
  (d : skye_directory) (w : W)
  (Hq : routed q = Some (p, name)) (Hr : readable s p a d) (Hf : 0 < flow_sem s)
  (He : elsewhere s d name) :
  (exists w', serve self fuel q (s, w) = Ret (refusal d, (s, w')) /\ (w' = w \/ w' = (time w).2)) /\
  skye_rpc_remove_1_svc self fuel c p name (s, w) = Ret (refusal d, (s, w)).
Proof. split; [by apply serve_misrouted with p name a|by apply remove_misrouted with a]. Qed.

End RoutingProperties.

(** ** The client's retry loop *)

Section Sizes.
Import Giga Tree.

(** How many partitions a mapping knows. *)
Definition partitions : list Z := Z.of_nat <$> seq 0 512.
Definition known_count (bm : list Z) : nat := length (filter (fun i => has bm i = true) partitions).

Lemma in_partitions i : 0 <= i < 512 -> i ∈ partitions.
Proof.
  intros Hi. unfold partitions. apply list_elem_of_fmap. exists (Z.to_nat i). rewrite elem_of_seq. lia.
Qed.

Lemma known_count_le bm : (known_count bm <= 512)%nat.
Proof.
  unfold known_count. etransitivity; [apply length_filter|]. unfold partitions.
  by rewrite length_fmap, length_seq.
Qed.

Lemma filter_length_mono {A} (P Q : A -> Prop) `{!forall x, Decision (P x), !forall x, Decision (Q x)} (l : list A) :
  (forall x, P x -> Q x) -> (length (filter P l) <= length (filter Q l))%nat.
Proof.
  intros HPQ. induction l as [|y l IH]; [done|]. rewrite !filter_cons.
  destruct (decide (P y)) as [Hp|Hp]; [rewrite decide_True by auto; cbn; lia|].
  destruct (decide (Q y)); cbn; lia.
Qed.

Lemma known_count_lt a b j :
  (forall i, has a i = true -> has b i = true) -> 0 <= j < 512 -> has a j = false -> has b j = true ->
  (known_count a < known_count b)%nat.
Proof.
  intros Hsub Hj Ha Hb. unfold known_count. apply in_partitions, list_elem_of_split in Hj as (l1 & l2 & ->).
  rewrite !list.filter_app, !length_app, !filter_cons. rewrite decide_False, decide_True by congruence. cbn.
  assert (H1 := filter_length_mono (fun i => has a i = true) (fun i => has b i = true) l1 Hsub).
  assert (H2 := filter_length_mono (fun i => has a i = true) (fun i => has b i = true) l2 Hsub). lia.
Qed.

(** A mapping that knows the partition the client chose but sends the name to
    another server has a deeper partition for it, which the client lacks. *)
Lemma refusal_teaches c m z n i j f :
  owner (bitmap c) (name_hash f) i -> owner (bitmap m) (name_hash f) j ->
  has (bitmap m) i = true -> server_of z n j <> server_of z n i ->
  has (bitmap c) j = false.
Proof.
  intros (Hi & Ci & Mi) (Hj & Cj & Mj) Him Hne. destruct (has (bitmap c) j) eqn:E; [|done].
  exfalso. apply Hne. f_equal. specialize (Mi j E Cj). specialize (Mj i Him Ci). lia.
Qed.

End Sizes.

Section Retrying.
Import Pvfs Rpc Giga Tree Client Operations.
Context {W : Type} {P : PvfsOps W} {C : ClientOps W} {R : SkyeRpc W}.

(** What the client needs of the servers for a name [f] of one directory whose
    partition 0 is on server [z] of [n], as long as [inv] holds: an answer -EAGAIN
    carries a mapping of the directory, within the partitions [known] anywhere, that
    lists every known partition of the answering server and sends the name to another
    one. *)
Class Informed (inv : W -> Prop) (known : Z -> bool) (z n : Z) (f : string)
  (call : Z -> W -> clnt_stat * skye_lookup * W) : Prop := {
  refusals k w r w' : inv w -> call k w = (RPC_SUCCESS, r, w') -> errnum r = - EAGAIN ->
    inv w' /\ exists m, lookup_u r = U_bitmap m /\ wf_mapping m /\ zeroth_server m = z /\ server_count m = n /\
      (forall i, has (bitmap m) i = true -> known i = true) /\
      (forall i, known i = true -> server_of z n i = k -> has (bitmap m) i = true) /\
      (forall i, giga_get_index_for_file m f = Ret i -> giga_get_server_for_index m i <> Ret k)
}.

Variables (inv : W -> Prop) (known : Z -> bool) (z n : Z) (f : string).
Variable call : Z -> W -> clnt_stat * skye_lookup * W.
Context {I : Informed inv known z n f call}.
Hypothesis (Hz : 0 <= z < 2 ^ 30) (Hf : name_ok f).

(** The client's mapping of the directory. *)
Definition fits (m : giga_mapping_t) : Prop :=
  wf_mapping m /\ zeroth_server m = z /\ server_count m = n /\
  forall i, has (bitmap m) i = true -> known i = true.

(** Connection [i] leads to server [i]. *)
Definition connected (c : Conn.conn_state) : Prop :=
  forall i, 0 <= i < n -> Conn.get_connection c i = Ret (Some i).

(** A refusal makes the client's mapping grow. *)
Lemma refusal_grows m w w' i res :
  inv w -> fits m -> owner (bitmap m) (name_hash f) i -> call (server_of z n i) w = (RPC_SUCCESS, res, w') ->
  errnum res = - EAGAIN ->
  inv w' /\ exists mr m', lookup_u res = U_bitmap mr /\ giga_update_cache m mr = Ret m' /\ fits m' /\
    (forall k, has (bitmap m) k = true -> has (bitmap m') k = true) /\
    (known_count (bitmap m) < known_count (bitmap m'))%nat.
Proof.
  intros Hinv (Hwf & Ez & En & Hkn) Ho Ecall Ee.
  destruct (refusals _ _ _ _ Hinv Ecall Ee) as (Hinv' & mr & Em & Hwm & Emz & Emn & Hmk & Hmi & Hms).
  split; [done|]. destruct (giga_update_cache_ok m mr 0) as (m' & Eu & Hok & Hh & Hz' & Hs');
    [apply Hwf|apply Hwm|apply Hwf|]. assert (Hwf' := wf_join _ _ _ Hwf Hwm Eu).
  destruct (index_for_file_owner mr f Hwm Hf) as (j & Ej & Hoj).
  assert (Hjb : 0 <= j < 512). { destruct Hoj as (Hj & _). split; [by eapply has_nonneg|by apply Hwm]. }
  assert (Hnew : has (bitmap m) j = false).
  { apply (refusal_teaches m mr z n i j f); [done|done| |].
    - apply Hmi; [|done]. apply Hkn, Ho.
    - intros E. apply (Hms j Ej). rewrite server_for_index_ok by (done || lia). by rewrite Emz, Emn, E. }
  exists mr, m'. split_and!; [done|done| | |].
  - split_and!; [done|congruence|rewrite Hs'; lia|]. intros k. rewrite Hh. intros [Hk|Hk]%orb_true_iff; auto.
  - intros k Hk. by rewrite Hh, Hk.
  - apply (known_count_lt _ _ j); [|lia|done|].
    + intros k Hk. by rewrite Hh, Hk.
    + rewrite Hh. destruct Hoj as (-> & _). apply orb_true_r.
Qed.

(** The states after some refusals, from [w0] on. *)
Inductive refused_to (w0 : W) : W -> Prop :=
| refused_none : refused_to w0 w0
| refused_once k w r w' : refused_to w0 w -> call k w = (RPC_SUCCESS, r, w') -> errnum r = - EAGAIN -> refused_to w0 w'.

Lemma refused_first k w0 r w w' : call k w0 = (RPC_SUCCESS, r, w) -> errnum r = - EAGAIN -> refused_to w w' -> refused_to w0 w'.
Proof.
  intros E Er. induction 1 as [|k1 w1 r1 w2 _ IH E1 Er1]; [|by eapply refused_once].
  by eapply refused_once; [apply refused_none|..].
Qed.

(** After some refusals a server of the directory does not answer its call. *)
Definition unreached (w0 : W) : Prop := exists k w, 0 <= k < n /\ refused_to w0 w /\ (call k w).1.1 = RPC_FAILED.

Lemma unreached_first k w0 r w : call k w0 = (RPC_SUCCESS, r, w) -> errnum r = - EAGAIN -> unreached w -> unreached w0.
Proof. intros E Er (k' & w' & Hk & Hw & Hf'). exists k', w'. split; [done|]. split; [by eapply refused_first|done]. Qed.

(** One round of the loops: the server that is asked. *)
Lemma wp_round {A} a (s : client) w d (k : clnt_stat * skye_lookup -> prog (client * W) A) Q :
  connected (conn s) -> heap s !! a = Some d -> fits (mapping d) ->
  (forall i st res w', owner (bitmap (mapping d)) (name_hash f) i -> 0 <= server_of z n i < n ->
     call (server_of z n i) w = (st, res, w') -> wp no_crash (k (st, res)) Q (s, w')) ->
  wp no_crash (d ← deref a; sv ← lift (get_server_for_file d f); x ← call_server sv call; k x) Q (s, w).
Proof.
  intros Hc Hd Hfit HQ. assert (Hfit' := Hfit). destruct Hfit' as (Hwf & Ez & En & Hkn). apply wp_bind.
  eapply wp_Ret; [unfold deref; cbn; by rewrite Hd|].
  destruct (index_for_file_owner (mapping d) f Hwf Hf) as (i & Ei & Ho).
  assert (Hib : 0 <= i < 512). { destruct Ho as (Hi & _). split; [by eapply has_nonneg|by apply Hwf]. }
  assert (Es : get_server_for_file d f = Ret (server_of z n i)).
  { unfold get_server_for_file, giga_get_server_for_file. rewrite Ei. cbn.
    rewrite server_for_index_ok by (done || lia). by rewrite Ez, En. }
  apply wp_bind, wp_lift. rewrite Es.
  assert (Hn : 1 <= n < 2 ^ 30) by (rewrite <- En; apply Hwf).
  assert (Hsrv : 0 <= server_of z n i < n) by (apply Z.mod_pos_bound; lia).
  unfold call_server. apply wp_bind, wp_bind, wp_getl, wp_bind, wp_lift. cbn [fst]. rewrite Hc by done.
  apply wp_sys. intros [st res] w' Ecall. by apply (HQ i).
Qed.

(** The mapping of the client after a refusal. *)
Lemma wp_learn {A} a (s : client) w' d m m' (k : unit -> prog (client * W) A) Q :
  heap s !! a = Some d -> giga_update_cache (mapping d) m = Ret m' ->
  wp no_crash (k tt) Q (set_heap (<[a := mkDir m' (refcount d) (handle d)]> (heap s)) s, w') ->
  wp no_crash (x ← update_client_mapping a m; k x) Q (s, w').
Proof.
  intros Hd Eu HQ. apply wp_bind. unfold update_client_mapping. apply wp_bind.
  eapply wp_Ret; [unfold deref; cbn; by rewrite Hd|]. apply wp_bind, wp_lift. rewrite Eu. by apply wp_modl.
Qed.

(** The state of a client whose mapping of directory [a] has grown from that of [d]. *)
Definition learnt (a : positive) (s : client) (d : skye_directory) (s' : client) : Prop :=
  exists m, fits m /\ s' = set_heap (<[a := mkDir m (refcount d) (handle d)]> (heap s)) s /\
    forall i, has (bitmap (mapping d)) i = true -> has (bitmap m) i = true.

Lemma learnt_refl a s d : heap s !! a = Some d -> fits (mapping d) -> learnt a s d s.
Proof.
  intros Hd Hfit. exists (mapping d). split; [done|]. split; [|done]. unfold set_heap.
  rewrite insert_id by (rewrite Hd; by destruct d). by destruct s.
Qed.

Lemma learnt_step a s d m s' : (forall i, has (bitmap (mapping d)) i = true -> has (bitmap m) i = true) ->
  let d' := mkDir m (refcount d) (handle d) in
  learnt a (set_heap (<[a := d']> (heap s)) s) d' s' -> learnt a s d s'.
Proof.
  intros Hsub d' (m2 & Hf2 & E2 & Hsub2). exists m2. split; [done|].
  split; [rewrite E2; unfold set_heap; cbn; by rewrite insert_insert_eq|]. auto.
Qed.

Lemma wp_rpc_loop fuel a (s : client) w d :
  inv w -> connected (conn s) -> heap s !! a = Some d -> fits (mapping d) ->
  (512 < fuel + known_count (bitmap (mapping d)))%nat ->
  wp no_crash (rpc_loop fuel a f call)
    (fun r s' => learnt a s d s'.1 /\ match r with Some res => errnum res <> - EAGAIN | None => unreached w end) (s, w).
Proof.
  revert s w d. induction fuel as [|fuel IH]; intros s w d Hinv Hc Hd Hfit Hfuel.
  { assert (Hk := known_count_le (bitmap (mapping d))). lia. }
  cbn [rpc_loop]. apply (wp_round _ _ _ d); try done. intros i st res w' Ho Hi Ecall.
  assert (Hstop := learnt_refl a s d Hd Hfit).
  destruct st; [|apply wp_ret; split; [done|]; exists (server_of z n i), w; rewrite Ecall; split; [done|]; split; [constructor|done]].
  destruct (Z.eqb_spec (errnum res) (- EAGAIN)) as [Ee|Ee]; [|by apply wp_ret].
  destruct (refusal_grows (mapping d) w w' i res Hinv Hfit Ho Ecall Ee) as (Hinv' & m & m' & Em & Eu & Hf' & Hsub & Hlt).
  apply wp_bind, wp_lift. unfold answer_bitmap. rewrite Em. eapply wp_learn; [done..|]. cbv beta.
  eapply wp_conseq; [apply (IH _ w' (mkDir m' (refcount d) (handle d)) Hinv'); [done|cbn; by rewrite lookup_insert_eq|done|cbn [mapping]; lia]|].
  intros r s2 [H2 Hr]. split; [by eapply learnt_step|]. destruct r; [done|]. by eapply unreached_first.
Qed.

(** The loop of rename goes on after a failed RPC; if none fails it ends the same way. *)
Lemma rename_loop_ends fuel a (s : client) w d prior :
  inv w -> connected (conn s) -> heap s !! a = Some d -> fits (mapping d) ->
  (512 < fuel + known_count (bitmap (mapping d)))%nat ->
  unreached w \/ wp no_crash (rename_loop fuel a f call prior) (fun e s' => learnt a s d s'.1 /\ e <> - EAGAIN) (s, w).
Proof.
  revert s w d prior. induction fuel as [|fuel IH]; intros s w d prior Hinv Hc Hd Hfit Hfuel.
  { assert (Hk := known_count_le (bitmap (mapping d))). lia. }
  destruct (index_for_file_owner (mapping d) f (proj1 Hfit) Hf) as (i & Ei & Ho).
  assert (Hn : 1 <= n) by (destruct Hfit as (Hwf & _ & <- & _); apply Hwf).
  assert (Hi : 0 <= server_of z n i < n) by (apply Z.mod_pos_bound; lia).
  destruct (call (server_of z n i) w) as [[st res] w'] eqn:Ecall.
  destruct st; [|left; exists (server_of z n i), w; rewrite Ecall; split; [done|]; split; [constructor|done]].
  assert (Hround : forall Q, wp no_crash (
      if errnum res =? - EAGAIN then m ← lift (answer_bitmap res); _ ← update_client_mapping a m; rename_loop fuel a f call (Some res)
      else mret (errnum res)) Q (s, w') -> wp no_crash (rename_loop (S fuel) a f call prior) Q (s, w)).
  { intros Q HQ. cbn [rename_loop]. apply (wp_round _ _ _ d); try done. intros j st' res' w2 Hoj _ Ej.
    assert (j = i) as -> by (by eapply owner_unique). rewrite Ecall in Ej. injection Ej as <- <- <-. by apply wp_bind, wp_ret. }
  destruct (Z.eqb_spec (errnum res) (- EAGAIN)) as [Ee|Ee].
  2: { right. apply Hround, wp_ret. split; [by apply learnt_refl|done]. }
  destruct (refusal_grows (mapping d) w w' i res Hinv Hfit Ho Ecall Ee) as (Hinv' & m & m' & Em & Eu & Hf' & Hsub & Hlt).
  destruct (IH (set_heap (<[a := mkDir m' (refcount d) (handle d)]> (heap s)) s) w' (mkDir m' (refcount d) (handle d)) (Some res) Hinv')
    as [Hun|Hwp]; [done|cbn; by rewrite lookup_insert_eq|done|cbn [mapping]; lia|left; by eapply unreached_first|right].
  apply Hround. apply wp_bind, wp_lift. unfold answer_bitmap. rewrite Em. eapply wp_learn; [done..|].
  eapply wp_conseq; [exact Hwp|]. intros e s2 [H2 He]. split; [|done]. by eapply learnt_step.
Qed.

End Retrying.

Section RetryProperties.
Import Pvfs Rpc Giga Tree Client Operations.

(** C19 The retry loops of the client operations end: against servers that answer -EAGAIN only
    with a mapping of existing partitions that lists all of their own and sends the name to
    another server, a client whose mapping knows only existing partitions stops after at most
    513 calls, without a failed assertion: the loop of lookup, partition, create, mkdir and remove
    with an answer other than -EAGAIN, or because a call to a server of the directory failed; the
    loop of rename, which goes on after a failed call, with such an answer unless a call fails.
    Meanwhile the mapping of the directory only gains existing partitions and stays well formed,
    and nothing else of the client's state changes. *)
Theorem retry_loop_converges {W} (inv : W -> Prop) (known : Z -> bool) (z n : Z) (f : string)
  (call : Z -> W -> clnt_stat * skye_lookup * W) (I : Informed inv known z n f call)
  (a : positive) (s : client) (w : W) (d : skye_directory) (Hinv : inv w)
  (Hz : 0 <= z < 2 ^ 30) (Hf : name_ok f) (Hc : connected n (conn s))
  (Hd : heap s !! a = Some d) (Hm : fits known z n (mapping d)) :
  (exists r s' w', rpc_loop 513 a f call (s, w) = Ret (r, (s', w')) /\ learnt known z n a s d s' /\
     match r with Some res => errnum res <> - EAGAIN | None => unreached n call w end) /\
  (unreached n call w \/
   exists e s' w', rename_loop 513 a f call None (s, w) = Ret (e, (s', w')) /\ learnt known z n a s d s' /\ e <> - EAGAIN).
Proof.
  split.
  - destruct (wp_run _ _ _ (wp_rpc_loop inv known z n f call Hz Hf 513 a s w d Hinv Hc Hd Hm ltac:(lia)))
      as (r & [s' w'] & E & H1 & H2). by exists r, s', w'.
  - destruct (rename_loop_ends inv known z n f call Hz Hf 513 a s w d None Hinv Hc Hd Hm ltac:(lia)) as [Hu|Hw]; [by left|right].
    destruct (wp_run _ _ _ Hw) as (e & [s' w'] & E & H1 & H2). by exists e, s', w'.
Qed.

(** Two servers, of which server 1 has partition 1 of the directory. *)
Definition two_partitions : giga_mapping_t :=
  {| bitmap := <[0%nat := 3]> (replicate 147 0); curr_radix := 1; zeroth_server := 0; server_count := 2 |}.

Definition two_servers (k : Z) (w : unit) : clnt_stat * skye_lookup * unit :=
  if k =? 0 then (RPC_SUCCESS, mkLookup (- EAGAIN) (U_bitmap two_partitions), w)
  else (RPC_SUCCESS, mkLookup 0 (U_ref (mkRef 14 7)), w).

Lemma two_has i : has (bitmap two_partitions) i = (i =? 0) || (i =? 1).
Proof.
  destruct (Z.leb_spec 0 i) as [Hi|Hi].
  - change (bitmap two_partitions) with (<[Z.to_nat 0 := 3]> (replicate 147 0)).
    rewrite has_write by (done || lia). destruct (div7_range i Hi) as (H1 & H2 & H3).
    destruct (Z.eqb_spec (i / 7) 0) as [E|E].
    + assert (Hc : i = 0 \/ i = 1 \/ i = 2 \/ i = 3 \/ i = 4 \/ i = 5 \/ i = 6) by lia.
      destruct Hc as [-> | [-> | [-> | [-> | [-> | [-> | ->]]]]]]; reflexivity.
    + destruct (Z.eqb_spec i 0) as [->|]; [done|]. destruct (Z.eqb_spec i 1) as [->|]; [done|].
      unfold has. destruct (Z.leb_spec 0 i); [|lia]. cbn [andb orb].
      rewrite nth_lookup. destruct (_ !! _) as [v|] eqn:Ev; [|by rewrite Z.bits_0].
      apply lookup_replicate in Ev as [-> _]. by rewrite Z.bits_0.
  - unfold has. destruct (Z.leb_spec 0 i), (Z.eqb_spec i 0), (Z.eqb_spec i 1); (lia || done).
Qed.

Lemma two_servers_informed :
  Informed (fun _ => True) (fun i => (i =? 0) || (i =? 1)) 0 2 "e" two_servers.
Proof.
  split. intros k w r w' _ E Hr. unfold two_servers in E. destruct (Z.eqb_spec k 0) as [->|].
  - injection E as <- <-. split; [done|]. exists two_partitions. split; [done|].
    split; [apply wf_mappingb_ok; vm_compute; reflexivity|].
    split; [reflexivity|]. split; [reflexivity|].
    split; [intros i; rewrite two_has; exact id|]. split; [intros i Hi _; rewrite two_has; exact Hi|].
    intros i Ei. vm_compute in Ei. injection Ei as <-. vm_compute. discriminate.
  - injection E as <- <-. discriminate.
Qed.

Definition fresh_mapping : giga_mapping_t :=
  {| bitmap := <[0%nat := 1]> (replicate 147 0); curr_radix := 1; zeroth_server := 0; server_count := 2 |}.

Definition two_server_client : client :=
  mkClient
    (Conn.mkConn (Conn.mkOptions None 2 (-1) (Some ["a"; "b"]%string) (Some [0; 1])) (Some [Some 0; Some 1]) 7
       (Conn.mkMntent 1 0 [] None) None)
    {[ 1%positive := mkDir fresh_mapping 1 (mkRef 1 7) ]} {[ mkRef 1 7 := 1%positive ]} 0 ∅ [].

Lemma retry_loop_converges_witness :
  (exists r s', rpc_loop 513 1 "e" two_servers (two_server_client, tt) = Ret (r, (s', tt)) /\
    (exists res, r = Some res /\ errnum res = 0)) /\
  exists s', rename_loop 513 1 "e" two_servers None (two_server_client, tt) = Ret (0, (s', tt)).
Proof.
  destruct (retry_loop_converges (fun _ => True) (fun i => (i =? 0) || (i =? 1)) 0 2 "e" two_servers two_servers_informed
    1 two_server_client tt (mkDir fresh_mapping 1 (mkRef 1 7))) as [(r & s' & w' & E & _) Hren].
  - exact I.
  - lia.
  - vm_compute. reflexivity.
  - intros i Hi. assert (Hc : i = 0 \/ i = 1) by lia. destruct Hc as [-> | ->]; reflexivity.
  - reflexivity.
  - destruct (init_ok 0 2 fresh_mapping) as (H1 & H2 & H3 & H4); [lia|lia|reflexivity|].
    split; [exact H1|]. split; [reflexivity|]. split; [reflexivity|].
    intros i Hi. cbn [mapping] in Hi. rewrite H2 in Hi. by rewrite Hi.
  - split.
    + exists r, s'. destruct w'. split; [exact E|].
      assert (Er : (match rpc_loop 513 1 "e" two_servers (two_server_client, tt) with
                    | Ret (Some res, _) => Some (errnum res) | _ => None end) = Some 0) by (vm_compute; reflexivity).
      rewrite E in Er. destruct r as [res|]; [|discriminate]. exists res. split; [reflexivity|]. by injection Er.
    + destruct Hren as [(k & w & _ & _ & Hk)|(e & s2 & [] & E2 & _)]; [exfalso; unfold two_servers in Hk; by destruct (k =? 0)|].
      exists s2. assert (Ee : (match rename_loop 513 1 "e" two_servers None (two_server_client, tt) with
                    | Ret (e, _) => e | _ => 1 end) = 0) by (vm_compute; reflexivity).
      rewrite E2 in Ee. by rewrite E2, Ee.
Defined.

(** A server that refused once and is then down: the loop of rename asks it for ever, and answers
    EIO each time. *)
Definition refused_then_down (k : Z) (w : bool) : clnt_stat * skye_lookup * bool :=
  if w then (RPC_FAILED, mkLookup 0 U_none, true) else (RPC_SUCCESS, mkLookup (- EAGAIN) (U_bitmap fresh_mapping), true).

Lemma rename_asks_for_ever : rename_loop 20 1 "e" refused_then_down None (two_server_client, false) = Crash NoFuel.
Proof. vm_compute. reflexivity. Qed.

(** The same directory on server 0, which has it cached. *)
Definition refusing_server : Server.server :=
  Server.mkServer (conn two_server_client)
    {[ 1%positive := Server.mkDir two_partitions 1 (mkRef 1 7) (-1) Rwlock.unlocked 4 (Some [2; 0; 0; 0]) ]}
    {[ mkRef 1 7 := 1%positive ]} 12 0 ∅ None None.

Lemma misrouted_request_witness :
  exists w', serve 1 10 (Create (mkCreds 0 0) (mkRef 1 7) "e" 511) (refusing_server, MemFs.small_fs)
    = Ret (mkLookup (- EAGAIN) (U_bitmap two_partitions), (refusing_server, w')).
Proof.
  destruct (misrouted_request (W := MemFs.mem) 1 10 (Create (mkCreds 0 0) (mkRef 1 7) "e" 511) (mkCreds 0 0)
    refusing_server (mkRef 1 7) "e" 1
    (Server.mkDir two_partitions 1 (mkRef 1 7) (-1) Rwlock.unlocked 4 (Some [2; 0; 0; 0])) MemFs.small_fs)
    as [(w' & E & _) _].
  - reflexivity.
  - split; [reflexivity|reflexivity|cbn; lia|]. exists 0. split; [lia|reflexivity].
  - cbn. lia.
  - exists 1, 1. split; [vm_compute; reflexivity|]. split; [vm_compute; reflexivity|]. cbn. lia.
  - exists w'. exact E.
Defined.

End RetryProperties.
