(* ===== verification/Serving.v ===== *)
(** * What the handlers answer

    The functional behaviour of the lookup and create handlers of server/handlers.c on
    a directory that is [placed] in a file system with the laws of [PvfsSpec]: a lookup
    finds exactly the listed files, a create adds one file and nothing else, and the
    cache of partition handles stays right. *)

From S2P Require Import Prelude Sha GigaIndex Names Utlist Pvfs Rpc Connection MemFs.
From S2P Require Import ServerCache Split Handlers Balance Placement Directory Client Routing Splitting.

#[local] Open Scope Z_scope.

Section Serving.
Import Pvfs Rpc Giga Tree Server Cache Split Handlers.
Context {W : Type} {P : PvfsOps W} {V : PvfsView W} {L : PvfsSpec W} {R : BucketRpc W}.
#[local] Abbreviation St := (server * W)%type.

(** The cached handles of the partitions of server [me] are theirs. *)
Definition handles_ok (w : W) (p me : Z) (d : skye_directory) : Prop :=
  let m := mapping d in
  exists l, partition_handles d = Some l /\ Z.of_nat (length l) = partition_handles_length d /\
    (forall i, has (bitmap m) i = true -> i / server_count m < partition_handles_length d - 1) /\
    (forall i h, has (bitmap m) i = true -> server_of (zeroth_server m) (server_count m) i = me ->
       l !! Z.to_nat (i / server_count m) = Some h -> h <> 0 -> exists es, part_dir w p i h es).

Definition self_number (s : server) : Z := Conn.servernum (Conn.opts (conn s)).

(** A server that can answer for directory [p]. *)
Record serving (s : server) (w : W) (p : PVFS_object_ref) (a : positive) (d : skye_directory) : Prop :=
  mkServing {
    sv_read : readable s p a d;
    sv_flow : 0 < flow_sem s;
    sv_handle : Server.handle d = p;
    sv_wf : wf_mapping (mapping d);
    sv_zeroth : zeroth_server (mapping d) < 2 ^ 30;
    sv_idle : splitting_index d = -1;
    sv_ok : fs_ok w;
    sv_placed : placed w (Pvfs.handle p) (mapping d);
    sv_handles : handles_ok w (Pvfs.handle p) (self_number s) d
  }.

(** The handle of partition [i] is remembered. *)
Definition remember (d : skye_directory) (l : list Z) (i h : Z) : skye_directory :=
  set_partition_handles (partition_handles_length d)
    (Some (<[Z.to_nat (i / server_count (mapping d)) := h]> l)) d.

(** Partitions of one server have different bucket numbers. *)
Lemma bucket_inj z n i j :
  0 < n -> 0 <= i -> 0 <= j -> server_of z n i = server_of z n j -> i / n = j / n -> i = j.
Proof.
  unfold server_of. intros Hn Hi Hj Es Eb.
  assert (Em : i mod n = j mod n).
  { rewrite <- (Z.add_simpl_r i z), <- (Z.add_simpl_r j z).
    rewrite (Zminus_mod (i + z) z n), (Zminus_mod (j + z) z n). congruence. }
  rewrite (Z.div_mod i n), (Z.div_mod j n) by lia. congruence.
Qed.

Lemma remember_ok w p me d l i h es :
  wf_mapping (mapping d) -> has (bitmap (mapping d)) i = true ->
  server_of (zeroth_server (mapping d)) (server_count (mapping d)) i = me ->
  partition_handles d = Some l -> handles_ok w p me d -> part_dir w p i h es ->
  handles_ok w p me (remember d l i h).
Proof.
  intros Hwf Hi Hs El (l0 & E0 & Hlen & Hb & Hc) Hd. rewrite El in E0. injection E0 as <-.
  eexists. split; [reflexivity|]. cbn [mapping remember set_partition_handles partition_handles_length].
  rewrite length_insert. split; [done|]. split; [done|]. intros j h' Hj Hsj Hl Hh.
  destruct (decide (Z.to_nat (j / server_count (mapping d)) = Z.to_nat (i / server_count (mapping d)))) as [Eb|Hne].
  - assert (Hn : 0 < server_count (mapping d)) by (destruct Hwf as (_ & _ & Hn & _); lia).
    assert (Hi0 := has_nonneg _ _ Hi). assert (Hj0 := has_nonneg _ _ Hj).
    assert (Hdi : 0 <= i / server_count (mapping d)) by (apply Z.div_pos; lia).
    assert (Hdj : 0 <= j / server_count (mapping d)) by (apply Z.div_pos; lia).
    assert (j = i) as -> by (eapply bucket_inj; [exact Hn|done|done|by rewrite Hsj, Hs|lia]).
    rewrite list_lookup_insert_eq in Hl; [injection Hl as <-; by exists es|].
    specialize (Hb i Hi). lia.
  - rewrite list_lookup_insert_ne in Hl by congruence. by eapply Hc.
Qed.

(** [get_partition_handle] finds the partition, from the cache or from PVFS. *)
Lemma wp_partition_handle cr s a d w p l i hp es (Q : Z -> St -> Prop) :
  wf_mapping (mapping d) -> has (bitmap (mapping d)) i = true ->
  server_of (zeroth_server (mapping d)) (server_count (mapping d)) i = self_number s ->
  Server.handle d = p -> fs_ok w -> handles_ok w (Pvfs.handle p) (self_number s) d ->
  partition_handles d = Some l -> part_dir w (Pvfs.handle p) i hp es ->
  (forall w', quiet w w' -> Q hp (reading s a (remember d l i hp), w')) ->
  wp no_crash (get_partition_handle cr a i) Q (reading s a d, w).
Proof.
  intros Hwf Hi Hs Eh Hok Hh El Hd HQ. assert (Hh0 := Hh). destruct Hh0 as (l0 & E0 & Hlen & Hb & Hc).
  rewrite El in E0. injection E0 as <-. set (n := server_count (mapping d)) in *.
  assert (Hn : 1 <= n < 2 ^ 30) by (destruct Hwf as (_ & _ & Hn & _); exact Hn).
  assert (Hi0 := has_nonneg _ _ Hi). assert (Hi5 : i < 512) by (by apply Hwf).
  assert (Hbd : 0 <= i / n <= i) by (split; [apply Z.div_pos; lia|apply Z.div_le_upper_bound; nia]).
  assert (Hbl := Hb i Hi). assert (Eb : giga_get_bucket_num_for_server (mapping d) i = Ret (i / n)).
  { unfold giga_get_bucket_num_for_server. fold n. destruct (Z.eqb_spec n 0); [lia|].
    rewrite u32_small, i32_small by lia. done. }
  unfold get_partition_handle. apply wp_bind. eapply wp_Ret; [apply reading_deref|].
  cbn [mapping with_reader set_rwlock set_refcount partition_handles_length]. apply wp_bind, wp_lift. rewrite Eb.
  destruct (Z.leb_spec (partition_handles_length d - 1) (i / n)); [lia|]. apply wp_bind, wp_ret, wp_bind.
  eapply wp_Ret; [apply reading_deref|]. cbn [partition_handles with_reader set_rwlock set_refcount Server.handle].
  rewrite El. apply wp_bind, wp_lift. cbv beta iota.
  destruct (lookup_lt_is_Some_2 l (Z.to_nat (i / n))) as [h Hl]; [lia|].
  apply wp_bind, wp_lift. rewrite (c_read_ok l (i / n) h) by (done || lia).
  destruct (Z.eqb_spec h 0) as [->|Hne]; cbn [negb].
  - destruct Hd as (ps & D1 & D2 & D3). destruct (physical_path_plain i ltac:(lia)) as [Hsi _].
    apply wp_bind. eapply wp_Ret; [reflexivity|]. apply wp_bind. rewrite Eh.
    destruct (lookup_found w cr (Conn.pvfs_fsid (conn s)) (PartName.physical_path i) p ps hp Hok D1 Hsi D2)
      as (w' & E & Hq). eapply wp_sys_eq; [exact E|]. cbn [fst snd]. apply wp_bind, wp_lift.
    rewrite c_assert_true by done. apply wp_bind, wp_lift. rewrite c_write_ok by lia.
    apply wp_bind, wp_modl, wp_ret. cbn [fst snd Pvfs.handle].
    assert (Er : set_heap (<[a := set_partition_handles (partition_handles_length d)
      (Some (<[Z.to_nat (i / n) := hp]> l)) (with_reader d)]> (heap (reading s a d))) (reading s a d)
      = reading s a (remember d l i hp)).
    { unfold reading, set_heap. cbn. by rewrite insert_insert_eq. }
    cbn [partition_handles_length with_reader set_rwlock set_refcount]. rewrite Er. by apply HQ.
  - apply wp_ret. destruct (Hc i h Hi Hs Hl Hne) as (es' & Hd').
    destruct (part_dir_fun _ _ _ _ _ _ _ Hd Hd') as [<- _].
    assert (Er : remember d l i hp = d).
    { unfold remember. fold n. rewrite list_insert_id by done. rewrite <- El. by destruct d. }
    rewrite <- Er. apply HQ. by split.
Qed.

(** The server with the object at [a] replaced. *)
Definition cached (s : server) (a : positive) (d : skye_directory) : server :=
  set_heap (<[a := d]> (heap s)) s.

Lemma cached_readable s p a d l i h : readable s p a d -> readable (cached s a (remember d l i h)) p a (remember d l i h).
Proof. intros [H1 H2 H3 H4]. split; [done|apply lookup_insert_eq|done|done]. Qed.

(** A tail that does something more at the end. *)
Lemma tail_with {A} self s p a d l i h (w : W) (k : prog St A) :
  0 < flow_sem s -> readable s p a d ->
  (_ ← cache_return self a; _ ← flow_stop 0; k)
    (reading (set_flow_sem (flow_sem s - 1) s) a (remember d l i h), w) = k (cached s a (remember d l i h), w).
Proof.
  intros Hf Hr. set (s1 := cached s a (remember d l i h)).
  destruct (flow_run s1 p a (remember d l i h) Hf (cached_readable s p a d l i h Hr)) as (_ & Hr1 & E2).
  assert (Es : reading (set_flow_sem (flow_sem s - 1) s) a (remember d l i h) =
    reading (set_flow_sem (flow_sem s1 - 1) s1) a (remember d l i h)).
  { unfold reading, s1, cached, set_heap, set_flow_sem. cbn. by rewrite insert_insert_eq. }
  rewrite Es, (prog_bind_Ret _ _ _ _ _ (cache_return_run self _ p a _ w Hr1)). cbv beta.
  by rewrite (prog_bind_Ret _ _ _ _ _ (E2 w)).
Qed.

(** The tail of a handler after the partition's handle was remembered. *)
Lemma wp_tail {A} self s p a d l i h (w : W) (x : A) (Q : A -> St -> Prop) :
  0 < flow_sem s -> readable s p a d -> Q x (cached s a (remember d l i h), w) ->
  wp no_crash (_ ← cache_return self a; _ ← flow_stop 0; mret x) Q
    (reading (set_flow_sem (flow_sem s - 1) s) a (remember d l i h), w).
Proof.
  intros Hf Hr HQ. unfold wp. by rewrite (tail_with self s p a d l i h w (mret x) Hf Hr).
Qed.

Lemma handles_quiet w w' p me d : quiet w w' -> handles_ok w p me d -> handles_ok w' p me d.
Proof.
  intros Hq (l & H1 & H2 & H3 & H4). exists l. split_and!; try done. intros i h Hi Hs Hl Hh.
  destruct (H4 i h Hi Hs Hl Hh) as (es & Hd). exists es. by apply (part_dir_same w w' _ _ _ _ (proj2 Hq)).
Qed.

(** The partition of a name on this server. *)
Lemma serving_partition s w p a d name :
  serving s w p a d -> name_ok name -> here s d name ->
  exists i l hp es, giga_get_index_for_file (mapping d) name = Ret i /\
    giga_get_server_for_index (mapping d) i = Ret (self_number s) /\ i <> splitting_index d /\
    owner (bitmap (mapping d)) (name_hash name) i /\
    server_of (zeroth_server (mapping d)) (server_count (mapping d)) i = self_number s /\
    partition_handles d = Some l /\ part_dir w (Pvfs.handle p) i hp es /\ NoDup es.*1.
Proof.
  intros [S1 S2 S3 S4 S5 S6 S7 S8 S9] Hn (i & E1 & E2 & Hsp). destruct S9 as (l & El & _).
  destruct (index_for_file_owner (mapping d) name S4 Hn) as (i0 & E0 & Ho).
  rewrite E1 in E0. injection E0 as <-.
  destruct (pl_part _ _ _ S8 i (proj1 Ho)) as (hp & es & Hd).
  assert (Hi : 0 <= i < 512) by (split; [eapply has_nonneg, Ho|apply S4, Ho]).
  assert (Es := server_for_index_ok (mapping d) i S4 S5 Hi). rewrite E2 in Es. injection Es as Es.
  exists i, l, hp, es. split_and!; try done. destruct Hd as (ps & _ & _ & D3). by apply (names_ok w hp es).
Qed.

(** The answer to a lookup in a partition with entries [es]. *)
Definition lookup_answer (es : list (string * Z)) (p : PVFS_object_ref) (name : string) (r : skye_lookup) : Prop :=
  match assoc name es with
  | Some h => r = mkLookup 0 (U_ref (mkRef h (Pvfs.fs_id p)))
  | None => errnum r = - ENOENT
  end.

Lemma wp_lookup self fuel cr s w p a d name i l hp es (Q : skye_lookup -> St -> Prop) :
  serving s w p a d -> simple name -> giga_get_index_for_file (mapping d) name = Ret i ->
  giga_get_server_for_index (mapping d) i = Ret (self_number s) -> i <> splitting_index d ->
  has (bitmap (mapping d)) i = true ->
  server_of (zeroth_server (mapping d)) (server_count (mapping d)) i = self_number s ->
  partition_handles d = Some l -> part_dir w (Pvfs.handle p) i hp es ->
  (forall r w', quiet w w' -> lookup_answer es p name r -> Q r (cached s a (remember d l i hp), w')) ->
  wp no_crash (skye_rpc_lookup_1_svc self fuel cr p name) Q (s, w).
Proof.
  intros [S1 S2 S3 S4 S5 S6 S7 S8 S9] Hn E1 E2 Hsp Hi Hs El Hd HQ. unfold skye_rpc_lookup_1_svc. unfold wp at 1.
  rewrite (handler_head self fuel _ s p a d w S2 S1). cbv beta iota. set (s1 := set_flow_sem (flow_sem s - 1) s).
  apply wp_bind. eapply wp_Ret; [apply reading_deref|]. cbn [mapping with_reader set_rwlock set_refcount].
  apply wp_bind, wp_lift. rewrite E1. apply wp_bind, wp_lift. rewrite E2.
  apply wp_bind. eapply wp_Ret; [apply servernum_run|]. cbn [fst conn reading set_heap].
  change (Conn.servernum (Conn.opts (conn s1))) with (self_number s). rewrite Z.eqb_refl. cbn [negb].
  apply wp_bind, wp_bind. eapply (wp_partition_handle cr s1 a d w p l i hp es); try done.
  intros w1 Q1. apply wp_bind. eapply wp_Ret; [reflexivity|]. apply wp_bind.
  destruct Hd as (ps & D1 & D2 & D3). set (ref := mkRef hp (Pvfs.fs_id p)).
  assert (Hpd : dirs w1 (Pvfs.handle ref) = Some es) by (cbn; by rewrite (quiet_dirs _ _ _ Q1)).
  unfold lookup_answer in HQ. destruct (assoc name es) as [h|] eqn:Ea.
  - destruct (lookup_found w1 cr (Conn.pvfs_fsid (conn s)) name ref es h (quiet_ok _ _ Q1) Hpd Hn Ea)
      as (w2 & E & Q2). eapply wp_sys_eq; [exact E|]. cbn [fst snd]. rewrite errno_ok. apply wp_bind.
    eapply wp_Ret; [apply reading_deref|]. cbn [Z.eqb Z.mul Z.opp ENOENT andb]. apply wp_ret.
    apply (wp_tail self s p a d l i hp); [done|done|]. apply HQ; [by eapply quiet_trans|done].
  - destruct (lookup_absent w1 cr (Conn.pvfs_fsid (conn s)) name ref es (quiet_ok _ _ Q1) Hpd Hn Ea)
      as (r & w2 & E & Q2). eapply wp_sys_eq; [exact E|]. cbn [fst snd]. rewrite errno_enoent. apply wp_bind.
    eapply wp_Ret; [apply reading_deref|].
    cbn [splitting_index with_reader set_rwlock set_refcount remember set_partition_handles].
    destruct (Z.eqb_spec i (splitting_index d)); [done|]. rewrite andb_false_r. apply wp_ret.
    apply (wp_tail self s p a d l i hp); [done|done|]. apply HQ; [by eapply quiet_trans|]. cbn. lia.
Qed.

(** Remembering a handle keeps the server able to serve. *)
Lemma serving_remember s w w' p a d l i hp es :
  serving s w p a d -> has (bitmap (mapping d)) i = true ->
  server_of (zeroth_server (mapping d)) (server_count (mapping d)) i = self_number s ->
  partition_handles d = Some l -> part_dir w (Pvfs.handle p) i hp es -> quiet w w' ->
  serving (cached s a (remember d l i hp)) w' p a (remember d l i hp).
Proof.
  intros [S1 S2 S3 S4 S5 S6 S7 S8 S9] Hi Hs El Hd Hq.
  split; try done; [by apply cached_readable|apply Hq|by eapply placed_quiet|].
  eapply handles_quiet; [exact Hq|]. by eapply remember_ok.
Qed.

(** So does a change of entries that keeps names at home. *)
Lemma serving_changed s w w' p a d l i hp es new :
  serving s w p a d -> has (bitmap (mapping d)) i = true ->
  server_of (zeroth_server (mapping d)) (server_count (mapping d)) i = self_number s ->
  partition_handles d = Some l -> part_dir w (Pvfs.handle p) i hp es ->
  at_home w (Pvfs.handle p) (mapping d) new -> rewritten (Pvfs.handle p) (mapping d) new w w' ->
  serving (cached s a (remember d l i hp)) w' p a (remember d l i hp).
Proof.
  intros [S1 S2 S3 S4 S5 S6 S7 S8 S9] Hi Hs El Hd Hhome Hr.
  split; try done; [by apply cached_readable|apply Hr|by eapply change_placed|].
  destruct (remember_ok w _ _ d l i hp es S4 Hi Hs El S9 Hd) as (l' & R1 & R2 & R3 & R4).
  exists l'. split_and!; try done. intros j q Hj Hsj Hl Hq. destruct (R4 j q Hj Hsj Hl Hq) as (l0 & Hl0).
  eexists. eapply (change_dir w w' _ (mapping d) new S8 Hr); [exact Hj|]. by exists l0.
Qed.

(** The count of creates plays no part. *)
Lemma serving_count s w p a d n : serving s w p a d -> serving (set_create_count n s) w p a d.
Proof. intros [S1 S2 S3 S4 S5 S6 S7 S8 S9]. split; try done. by destruct S1. Qed.

(** [enter_bucket] for a name of this server's partition [i]. *)
Lemma wp_enter_serving cr s a d w p name i l hp es (Q : Z * PVFS_object_ref * option giga_mapping_t -> St -> Prop) :
  wf_mapping (mapping d) -> giga_get_index_for_file (mapping d) name = Ret i ->
  giga_get_server_for_index (mapping d) i = Ret (self_number s) -> i <> splitting_index d ->
  has (bitmap (mapping d)) i = true ->
  server_of (zeroth_server (mapping d)) (server_count (mapping d)) i = self_number s ->
  Server.handle d = p -> fs_ok w -> handles_ok w (Pvfs.handle p) (self_number s) d ->
  partition_handles d = Some l -> part_dir w (Pvfs.handle p) i hp es ->
  (forall w', quiet w w' -> Q (0, mkRef hp (Pvfs.fs_id p), None) (reading s a (remember d l i hp), w')) ->
  wp no_crash (enter_bucket cr a name p true) Q (reading s a d, w).
Proof.
  intros Hwf E1 E2 Hsp Hi Hs Eh Hok Hh El Hd HQ. unfold enter_bucket. apply wp_bind.
  eapply wp_Ret; [apply reading_deref|]. cbn [mapping with_reader set_rwlock set_refcount].
  apply wp_bind, wp_lift. rewrite E1. apply wp_bind, wp_bind, wp_lift. rewrite E2.
  apply wp_bind. eapply wp_Ret; [apply servernum_run|]. apply wp_ret. cbn [fst conn reading set_heap].
  change (Conn.servernum (Conn.opts (conn s))) with (self_number s). rewrite Z.eqb_refl. cbn [negb].
  cbn [splitting_index with_reader set_rwlock set_refcount].
  destruct (Z.eqb_spec i (splitting_index d)); [done|]. apply wp_bind.
  eapply (wp_partition_handle cr s a d w p l i hp es); try done. intros w' Hq. apply wp_ret.
  cbn [Server.handle with_reader set_rwlock set_refcount]. rewrite Eh. by apply HQ.
Qed.

(** The occasional check for a split finds nothing to do in a small partition. *)
Lemma wp_no_split self cr s a d w name i ref es (Q : unit -> St -> Prop) :
  wf_mapping (mapping d) -> giga_get_index_for_file (mapping d) name = Ret i ->
  has (bitmap (mapping d)) i = true -> splitting_index d = -1 -> 0 <= create_count s < 2 ^ 31 - 1 ->
  fs_ok w -> dirs w (Pvfs.handle ref) = Some es -> Z.of_nat (length es) <= SPLIT_THRESHOLD ->
  (forall w', quiet w w' -> Q tt (reading (set_create_count (create_count s + 1) s) a d, w')) ->
  wp no_crash (maybe_split self cr a name ref) Q (reading s a d, w).
Proof.
  intros Hwf E1 Hi Hsp Hc Hok Hd Hlen HQ. unfold maybe_split. apply wp_bind.
  eapply wp_Ret; [apply reading_deref|]. cbn [mapping splitting_index with_reader set_rwlock set_refcount].
  rewrite Hsp. cbn [Z.eqb Pos.eqb negb]. apply wp_bind, wp_getl. cbn [fst create_count reading set_heap].
  apply wp_bind, wp_lift. rewrite c_int_ok by lia. apply wp_bind, wp_modl. cbn [fst snd].
  assert (Hq : quiet w w) by (by split). destruct (Z.eqb_spec (Z.rem (create_count s) 100) 0); cbn [negb]; [|by apply wp_ret, HQ].
  apply wp_bind, wp_lift. rewrite E1. destruct (is_splittable_ok (mapping d) i Hwf Hi) as (c & _ & Esp).
  apply wp_bind, wp_lift. rewrite Esp. destruct (c <? 2 * server_count (mapping d)); cbn [Z.eqb]; [|by apply wp_ret, HQ].
  destruct (getattr_directory w cr PVFS_ATTR_SYS_DIRENT_COUNT ref es Hok Hd) as (at' & w' & E & _ & Hcnt & Hq').
  unfold isdir_overflow. apply wp_bind, wp_bind. eapply wp_sys_eq; [exact E|]. cbn [Z.ltb Z.compare]. rewrite Hcnt.
  apply wp_ret. destruct (Z.ltb_spec SPLIT_THRESHOLD (Z.of_nat (length es))); [lia|]. by apply wp_ret, HQ.
Qed.

(** A create in a partition with entries [es]: the error for a name that is there, a new
    entry otherwise. *)
Lemma wp_create self fuel cr s w p a d name mode i l hp es (Q : skye_lookup -> St -> Prop) :
  serving s w p a d -> simple name -> (String.length name < 256)%nat ->
  giga_get_index_for_file (mapping d) name = Ret i ->
  giga_get_server_for_index (mapping d) i = Ret (self_number s) -> i <> splitting_index d ->
  has (bitmap (mapping d)) i = true ->
  server_of (zeroth_server (mapping d)) (server_count (mapping d)) i = self_number s ->
  partition_handles d = Some l -> part_dir w (Pvfs.handle p) i hp es ->
  Z.of_nat (length es) < SPLIT_THRESHOLD -> 0 <= create_count s < 2 ^ 31 - 1 ->
  (forall k w', assoc name es = Some k -> quiet w w' ->
     Q (mkLookup (- EEXIST) U_none) (cached s a (remember d l i hp), w')) ->
  (forall h es' w', assoc name es = None -> es' ≡ₚ (name, h) :: es -> relisted hp es' w w' ->
     Q (mkLookup 0 (U_ref (mkRef h (Pvfs.fs_id p))))
       (cached (set_create_count (create_count s + 1) s) a (remember d l i hp), w')) ->
  wp no_crash (skye_rpc_create_1_svc self fuel cr p name mode) Q (s, w).
Proof.
  intros [S1 S2 S3 S4 S5 S6 S7 S8 S9] Hn Hln E1 E2 Hsp Hi Hs El Hd Hlen Hc HE HN. unfold skye_rpc_create_1_svc.
  destruct (time_quiet w S7) as (t0 & w0 & Et0 & Q0). apply wp_bind. eapply wp_sys_eq; [exact Et0|]. cbn [fst snd].
  unfold wp at 1. rewrite (handler_head self fuel _ s p a d w0 S2 S1). cbv beta iota.
  set (s1 := set_flow_sem (flow_sem s - 1) s). apply wp_bind.
  assert (Hh0 : handles_ok w0 (Pvfs.handle p) (self_number s1) d) by (by eapply handles_quiet).
  eapply (wp_enter_serving cr s1 a d w0 p name i l hp es); try done;
    [apply Q0|by apply (part_dir_same w w0 _ _ _ _ (proj2 Q0))|].
  intros w1 Q1. cbn [Z.ltb Z.compare]. assert (Q01 := quiet_trans _ _ _ Q0 Q1).
  destruct (time_quiet w1 (quiet_ok _ _ Q1)) as (t2 & w2 & Et2 & Q2). apply wp_bind. eapply wp_sys_eq; [exact Et2|].
  cbn [fst snd]. assert (Q02 := quiet_trans _ _ _ Q01 Q2). set (ref := mkRef hp (Pvfs.fs_id p)).
  destruct Hd as (ps & D1 & D2 & D3).
  assert (Hpd : dirs w2 (Pvfs.handle ref) = Some es) by (cbn; by rewrite (quiet_dirs _ _ _ Q02)).
  apply wp_bind. destruct (assoc name es) as [k|] eqn:Ea.
  - destruct (create_present w2 cr (create_attr cr mode t2) name ref es k (quiet_ok _ _ Q2) Hpd Ea)
      as (rc & r & w3 & E & Hrc & Hrc' & Her & Q3). eapply wp_sys_eq; [exact E|]. cbn [fst snd].
    destruct (Z.eqb_spec rc 0); [done|]. cbn [negb]. apply (wp_tail self s p a d l i hp); [done|done|].
    destruct (Z.eqb_spec rc (- PVFS_ENOENT)); [done|]. rewrite Her. by eapply (HE k), quiet_trans.
  - unfold SPLIT_THRESHOLD in *. destruct (create_absent w2 cr (create_attr cr mode t2) name ref es (quiet_ok _ _ Q2) Hpd Hn Hln)
      as (h & es' & w3 & E & Hes & Hok3 & Hd3); [lia|done|]. eapply wp_sys_eq; [exact E|]. cbn [fst snd Z.eqb negb].
    assert (Hr3 : dirs w3 (Pvfs.handle ref) = Some es') by (by rewrite Hd3, decide_True).
    apply wp_bind. eapply (wp_no_split self cr s1 a (remember d l i hp) w3 name i ref es'); try done.
    { apply Permutation_length in Hes. cbn in Hes. unfold SPLIT_THRESHOLD. lia. }
    intros w4 Q4. destruct (time_quiet w4 (quiet_ok _ _ Q4)) as (t5 & w5 & Et5 & Q5).
    assert (Q35 := quiet_trans _ _ _ Q4 Q5). unfold wp at 1.
    rewrite (tail_with self (set_create_count (create_count s + 1) s) p a d l i hp w4 _ S2).
    2: { by destruct S1. }
    eapply wp_bind, wp_sys_eq; [exact Et5|]. apply wp_ret, (HN h es'); [done|done|].
    split; [apply Q35|]. intros k. rewrite (quiet_dirs _ _ _ Q35), Hd3. cbn [Pvfs.handle ref].
    destruct (decide (k = hp)); [done|]. by rewrite (quiet_dirs _ _ _ Q02).
Qed.

(** What a lookup answers. *)
Definition lookup_result (w : W) (p : PVFS_object_ref) (m : giga_mapping_t) (name : string) (r : skye_lookup) : Prop :=
  (exists h, listed w (Pvfs.handle p) m name h /\ r = mkLookup 0 (U_ref (mkRef h (Pvfs.fs_id p)))) \/
  (forall h, ~ listed w (Pvfs.handle p) m name h) /\ errnum r = - ENOENT.

Lemma lookup_ok self fuel cr s w p a d name :
  serving s w p a d -> name_ok name -> simple name -> here s d name ->
  exists r s' w' d', skye_rpc_lookup_1_svc self fuel cr p name (s, w) = Ret (r, (s', w')) /\
    quiet w w' /\ s' = cached s a d' /\ mapping d' = mapping d /\ serving s' w' p a d' /\
    lookup_result w p (mapping d) name r.
Proof.
  intros Hsv Hn Hsi Hh.
  destruct (serving_partition s w p a d name Hsv Hn Hh)
    as (i & l & hp & es & E1 & E2 & Hsp & Ho & Hs & El & Hd & Hnd).
  destruct (wp_run (skye_rpc_lookup_1_svc self fuel cr p name) (fun r s' => quiet w s'.2 /\
    lookup_answer es p name r /\ s'.1 = cached s a (remember d l i hp)) (s, w)) as (r & [s' w'] & E & Hq & Ha & Es).
  { eapply (wp_lookup self fuel cr s w p a d name i l hp es); try done. apply Ho. }
  cbn in Es, Hq. exists r, s', w', (remember d l i hp). rewrite Es in *.
  split_and!; try done; [by eapply serving_remember, Hq; try done; apply Ho|].
  unfold lookup_answer in Ha. destruct (assoc name es) as [h|] eqn:Ea.
  - left. exists h. split; [|done]. by exists i, hp, es.
  - right. split; [|done]. intros h (j & hp' & es' & Ho' & Hd' & Ha').
    rewrite (owner_unique _ _ _ _ Ho' Ho) in Hd'. destruct (part_dir_fun _ _ _ _ _ _ _ Hd Hd') as [_ ->]. congruence.
Qed.

(** What a create answers and does to the contents. *)
Definition create_result (w w' : W) (p : PVFS_object_ref) (m : giga_mapping_t) (name : string) (r : skye_lookup) : Prop :=
  (exists h, listed w (Pvfs.handle p) m name h /\ r = mkLookup (- EEXIST) U_none /\
     forall n k, listed w' (Pvfs.handle p) m n k <-> listed w (Pvfs.handle p) m n k) \/
  (forall h, ~ listed w (Pvfs.handle p) m name h) /\
  exists h, r = mkLookup 0 (U_ref (mkRef h (Pvfs.fs_id p))) /\
    forall n k, listed w' (Pvfs.handle p) m n k <-> n = name /\ k = h \/ listed w (Pvfs.handle p) m n k.

Lemma create_ok self fuel cr s w p a d name mode :
  serving s w p a d -> simple name -> (String.length name < 256)%nat -> here s d name ->
  0 <= create_count s < 2 ^ 31 - 1 ->
  (forall i hp es, owner (bitmap (mapping d)) (name_hash name) i -> part_dir w (Pvfs.handle p) i hp es ->
     Z.of_nat (length es) < SPLIT_THRESHOLD) ->
  exists r s' w' d', skye_rpc_create_1_svc self fuel cr p name mode (s, w) = Ret (r, (s', w')) /\
    mapping d' = mapping d /\ serving s' w' p a d' /\ conn s' = conn s /\
    create_result w w' p (mapping d) name r.
Proof.
  intros Hsv Hsi Hln Hh Hcc Hroom. assert (Hn : name_ok name) by (unfold name_ok; lia).
  destruct (serving_partition s w p a d name Hsv Hn Hh)
    as (i & l & hp & es & E1 & E2 & Hsp & Ho & Hs & El & Hd & Hnd).
  assert (Hnone : assoc name es = None -> forall h, ~ listed w (Pvfs.handle p) (mapping d) name h).
  { intros Ea h (j & q & es' & Ho' & Hd' & Ha'). rewrite (owner_unique _ _ _ _ Ho' Ho) in Hd'.
    destruct (part_dir_fun _ _ _ _ _ _ _ Hd Hd') as [_ ->]. congruence. }
  destruct (wp_run (skye_rpc_create_1_svc self fuel cr p name mode) (fun r s' => exists d',
    mapping d' = mapping d /\ serving s'.1 s'.2 p a d' /\ conn s'.1 = conn s /\
    create_result w s'.2 p (mapping d) name r) (s, w)) as (r & [s' w'] & E & d' & Hres).
  2: { exists r, s', w', d'. done. }
  eapply (wp_create self fuel cr s w p a d name mode i l hp es); try done; [apply Ho|by eapply Hroom| |].
  - intros k w' Ea Hq. exists (remember d l i hp). split_and!; [done|by eapply serving_remember; [done|apply Ho|..]|done|].
    left. exists k. split; [by exists i, hp, es|]. split; [done|]. intros n k'. by apply listed_quiet.
  - intros h es' w' Ea Hes Hr. exists (remember d l i hp). assert (Hna := proj1 (assoc_None name es) Ea).
    assert (Hd' : dirs w' hp = Some es') by (rewrite (proj2 Hr), decide_True by done; done).
    assert (Hnd' : NoDup es'.*1) by (by apply (names_ok w' hp es' (proj1 Hr) Hd')).
    assert (Hpl := sv_placed _ _ _ _ _ Hsv). assert (Hw := relisted_rewritten w w' _ i hp name _ es es' Hpl Ho Hd Hr).
    split_and!; [done| |done|].
    + eapply (serving_changed _ w w' p a d l i hp es (only_at i es')); try done; [by apply serving_count|apply Ho|].
      by eapply add_home.
    + right. split; [by apply Hnone|]. exists h. split; [done|]. intros n k.
      rewrite (add_listed w w' _ i hp h name (mapping d) es es') by done.
      split; [tauto|]. intros [Hx|Hl]; [by left|]. right. split; [|done]. intros ->. by eapply Hnone.
Qed.

End Serving.

Section ServingProperties.
Import Pvfs Rpc Giga Tree Server Cache Split Handlers.

(** C3 A lookup is correct: on a server that has the directory cached and the name's
    partition, when files are placed by the mapping, the lookup handler returns; it
    answers 0 with a file's reference if the directory lists the name, and -ENOENT if
    no partition does; it changes no directory of the file system and at most the
    server's cache of partition handles, which stays right. *)
Theorem lookup_correct {W} {P : PvfsOps W} {V : PvfsView W} {L : PvfsSpec W} {R : BucketRpc W} (self : Z)
  (fuel : nat) (cr : PVFS_credentials) (s : server) (w : W) (p : PVFS_object_ref) (a : positive)
  (d : skye_directory) (name : string)
  (Hsv : serving s w p a d) (Hn : name_ok name) (Hsi : simple name) (Hh : here s d name) :
  exists r s' w' d', skye_rpc_lookup_1_svc self fuel cr p name (s, w) = Ret (r, (s', w')) /\
    quiet w w' /\ s' = cached s a d' /\ mapping d' = mapping d /\ serving s' w' p a d' /\
    lookup_result w p (mapping d) name r.
Proof. by apply lookup_ok. Qed.

(** C2 A create is correct: on a server that has the directory cached and the name's
    partition, below the split threshold, the create handler returns; a name that the
    directory lists already is answered -EEXIST and nothing changes; otherwise the
    answer is 0 with a reference, and the directory lists that new file and besides it
    exactly what it listed before.  Files stay placed by the mapping and the server's
    cache of partition handles stays right. *)
Theorem create_correct {W} {P : PvfsOps W} {V : PvfsView W} {L : PvfsSpec W} {R : BucketRpc W} (self : Z)
  (fuel : nat) (cr : PVFS_credentials) (s : server) (w : W) (p : PVFS_object_ref) (a : positive)
  (d : skye_directory) (name : string) (mode : Z)
  (Hsv : serving s w p a d) (Hsi : simple name) (Hln : (String.length name < 256)%nat) (Hh : here s d name)
  (Hcc : 0 <= create_count s < 2 ^ 31 - 1)
  (Hroom : forall i hp es, owner (bitmap (mapping d)) (name_hash name) i -> part_dir w (Pvfs.handle p) i hp es ->
     Z.of_nat (length es) < SPLIT_THRESHOLD) :
  exists r s' w' d', skye_rpc_create_1_svc self fuel cr p name mode (s, w) = Ret (r, (s', w')) /\
    mapping d' = mapping d /\ serving s' w' p a d' /\ conn s' = conn s /\
    create_result w w' p (mapping d) name r.
Proof. by apply create_ok. Qed.

(** C8 What is created is found: when the create handler has answered 0 with a
    reference, a lookup of the same name on the same server answers 0 with the same
    reference. *)
Theorem create_then_lookup {W} {P : PvfsOps W} {V : PvfsView W} {L : PvfsSpec W} {R : BucketRpc W} (self : Z)
  (fuel : nat) (cr : PVFS_credentials) (s : server) (w : W) (p : PVFS_object_ref) (a : positive)
  (d : skye_directory) (name : string) (mode : Z)
  (Hsv : serving s w p a d) (Hsi : simple name) (Hln : (String.length name < 256)%nat) (Hh : here s d name)
  (Hcc : 0 <= create_count s < 2 ^ 31 - 1)
  (Hroom : forall i hp es, owner (bitmap (mapping d)) (name_hash name) i -> part_dir w (Pvfs.handle p) i hp es ->
     Z.of_nat (length es) < SPLIT_THRESHOLD)
  (Hnew : forall h, ~ listed w (Pvfs.handle p) (mapping d) name h) :
  exists r s', (r ← skye_rpc_create_1_svc self fuel cr p name mode;
                r' ← skye_rpc_lookup_1_svc self fuel cr p name; mret (r, r')) (s, w) = Ret ((r, r), s') /\
    errnum r = 0.
Proof.
  destruct (create_ok self fuel cr s w p a d name mode Hsv Hsi Hln Hh Hcc Hroom)
    as (r & s1 & w1 & d1 & E1 & Em & Hsv1 & Ec & Hres).
  destruct Hres as [(h & Hl & _)|(_ & h & -> & Hl)]; [by apply Hnew in Hl|].
  assert (Hh1 : here s1 d1 name).
  { destruct Hh as (i & H1 & H2 & H3). exists i. rewrite Em, Ec. split_and!; [done|done|].
    rewrite (sv_idle _ _ _ _ _ Hsv1). by rewrite <- (sv_idle _ _ _ _ _ Hsv). }
  destruct (lookup_ok self fuel cr s1 w1 p a d1 name Hsv1) as (r' & s2 & w2 & d2 & E2 & _ & _ & _ & _ & Hr');
    [unfold name_ok; lia|done|done|]. rewrite Em in Hr'.
  exists (mkLookup 0 (U_ref (mkRef h (Pvfs.fs_id p)))), (s2, w2). split; [|reflexivity].
  rewrite (prog_bind_Ret _ _ _ _ _ E1), (prog_bind_Ret _ _ _ _ _ E2). unfold mret, prog_ret. do 3 f_equal.
  destruct Hr' as [(h' & Hl' & ->)|(Hno & _)]; [|destruct (Hno h); apply Hl; by left].
  apply Hl in Hl' as [[_ ->]|Hl']; [done|]. by apply Hnew in Hl'.
Qed.

(** One server, which has the root directory of [MemFs.small_fs] cached; it holds the
    file "hello". *)
Definition small_mapping : giga_mapping_t :=
  {| bitmap := <[0%nat := 1]> (replicate 147 0); curr_radix := 1; zeroth_server := 0; server_count := 1 |}.

Definition small_dir : skye_directory :=
  mkDir small_mapping 1 (mkRef 1 7) (-1) Rwlock.unlocked 4 (Some [0; 0; 0; 0]).

Definition small_server : server :=
  mkServer MemFs.one_server {[ 1%positive := small_dir ]} {[ mkRef 1 7 := 1%positive ]} 12 0 ∅ None None.

Lemma small_mapping_ok : wf_mapping small_mapping /\ forall i, has (bitmap small_mapping) i = (i =? 0).
Proof. by destruct (init_ok 0 1 small_mapping) as (H1 & H2 & _). Qed.

Lemma small_part i hp es :
  has (bitmap small_mapping) i = true -> part_dir MemFs.small_fs 1 i hp es ->
  i = 0 /\ hp = 2 /\ es = [("hello", 3)%string].
Proof.
  by apply (single_part MemFs.small_fs 1 2 small_mapping [("p00000", 2)%string]); [apply small_mapping_ok|..].
Qed.

Lemma small_serving : serving (W := MemFs.mem) small_server MemFs.small_fs (mkRef 1 7) 1 small_dir.
Proof.
  split; try (cbn; lia || done).
  - split; [reflexivity|reflexivity|cbn; lia|]. exists 0. split; [lia|reflexivity].
  - apply small_mapping_ok.
  - split; [apply mem_okb_ok; vm_compute; reflexivity|reflexivity].
  - apply (single_placed _ 1 2 small_mapping [("p00000", 2)%string] [("hello", 3)%string]);
      [apply small_mapping_ok|reflexivity|reflexivity|apply (lone_partition 2)|reflexivity|lia].
  - exists [0; 0; 0; 0]. split_and!; [done|done| |].
    + intros i. rewrite (proj2 small_mapping_ok). cbn. intros ->%Z.eqb_eq. done.
    + intros i h. rewrite (proj2 small_mapping_ok). intros ->%Z.eqb_eq _ Hl Hh. injection Hl as <-. done.
Qed.

Lemma small_here name : name_ok name -> here small_server small_dir name.
Proof.
  intros Hn. destruct (index_for_file_owner small_mapping name (proj1 small_mapping_ok) Hn) as (i & E & Hi & _).
  rewrite (proj2 small_mapping_ok) in Hi. apply Z.eqb_eq in Hi as ->. exists 0. split_and!; [done|reflexivity|done].
Qed.

Lemma lookup_correct_witness :
  exists r s' w', skye_rpc_lookup_1_svc 9 10 (mkCreds 0 0) (mkRef 1 7) "hello" (small_server, MemFs.small_fs)
      = Ret (r, (s', w')) /\ r = mkLookup 0 (U_ref (mkRef 3 7)).
Proof.
  destruct (lookup_correct (W := MemFs.mem) 9 10 (mkCreds 0 0) small_server MemFs.small_fs (mkRef 1 7) 1 small_dir
    "hello" small_serving) as (r & s' & w' & d' & E & _ & _ & _ & _ & [(h & (i & hp & es & Ho & Hd & Ha) & ->)|(Hno & _)]).
  - unfold name_ok. cbn. lia.
  - reflexivity.
  - apply small_here. unfold name_ok. cbn. lia.
  - exists (mkLookup 0 (U_ref (mkRef h 7))), s', w'. split; [exact E|].
    destruct (small_part i hp es (proj1 Ho) Hd) as (_ & _ & ->). injection Ha as <-. reflexivity.
  - exfalso. apply (Hno 3). exists 0, 2, [("hello", 3)%string]. split; [apply single_owner, small_mapping_ok|].
    split; [|reflexivity]. exists [("p00000", 2)%string].
    split; [reflexivity|]. split; [vm_compute; reflexivity|reflexivity].
Defined.

Lemma small_room name i hp es :
  owner (bitmap (mapping small_dir)) (name_hash name) i -> part_dir MemFs.small_fs (Pvfs.handle (mkRef 1 7)) i hp es ->
  Z.of_nat (length es) < SPLIT_THRESHOLD.
Proof. intros Ho Hd. by destruct (small_part i hp es (proj1 Ho) Hd) as (_ & _ & ->). Qed.

Lemma small_unlisted name h :
  name <> "hello"%string -> ~ listed MemFs.small_fs (Pvfs.handle (mkRef 1 7)) (mapping small_dir) name h.
Proof.
  intros Hne (i & hp & es & Ho & Hd & Ha). destruct (small_part i hp es (proj1 Ho) Hd) as (_ & _ & ->).
  rewrite assoc_cons_ne in Ha by congruence. discriminate.
Qed.

Lemma create_correct_witness :
  exists h s' w', skye_rpc_create_1_svc 9 10 (mkCreds 0 0) (mkRef 1 7) "foo" 511 (small_server, MemFs.small_fs)
      = Ret (mkLookup 0 (U_ref (mkRef h 7)), (s', w')) /\ listed w' 1 small_mapping "foo" h.
Proof.
  destruct (create_correct (W := MemFs.mem) 9 10 (mkCreds 0 0) small_server MemFs.small_fs (mkRef 1 7) 1 small_dir
    "foo" 511 small_serving) as (r & s' & w' & d' & E & _ & _ & _ & Hr).
  - reflexivity.
  - cbn. lia.
  - apply small_here. unfold name_ok. cbn. lia.
  - cbn. lia.
  - apply small_room.
  - destruct Hr as [(h & Hl & _)|(_ & h & -> & Hl)]; [destruct (small_unlisted "foo" h ltac:(discriminate) Hl)|].
    exists h, s', w'. split; [exact E|]. apply Hl. left. split; reflexivity.
Defined.

Lemma create_then_lookup_witness :
  exists r s', (r ← skye_rpc_create_1_svc 9 10 (mkCreds 0 0) (mkRef 1 7) "foo" 511;
                r' ← skye_rpc_lookup_1_svc 9 10 (mkCreds 0 0) (mkRef 1 7) "foo"; mret (r, r'))
      (small_server, MemFs.small_fs) = Ret ((r, r), s') /\ errnum r = 0.
Proof.
  apply (create_then_lookup (W := MemFs.mem) 9 10 (mkCreds 0 0) small_server MemFs.small_fs (mkRef 1 7) 1 small_dir
    "foo" 511 small_serving).
  - reflexivity.
  - cbn. lia.
  - apply small_here. unfold name_ok. cbn. lia.
  - cbn. lia.
  - apply small_room.
  - intros h. apply small_unlisted. discriminate.
Defined.

End ServingProperties.
