(* ===== verification/Online.v ===== *)
(** * A server that is online

    What holds when the start-up code of Startup.v has run: the root directory is ready
    to be served, every server can be reached, and each connection's descriptor is
    closed once. *)

From Stdlib Require Import Ascii.
From S2P Require Import Prelude GigaIndex Names Utlist Pvfs Connection MemFs ServerCache Split Startup.
From S2P Require Import Rpc Handlers Balance Placement Directory Splitting.

#[local] Open Scope Z_scope.

(** ** The RPC connections *)

Section Connected.
Import Pvfs Conn.
Context {W : Type} `{PvfsOps W} `{ConnOps W}.
#[local] Abbreviation St := (conn_state * W)%type.

(** Every server has an open connection. *)
Definition connected (c : conn_state) : Prop :=
  exists l, rpc_clients c = Some l /\ length l = Z.to_nat (servercount (opts c)) /\ Forall is_Some l.

Lemma connected_get c i :
  connected c -> 0 <= i < servercount (opts c) -> exists k, get_connection c i = Ret (Some k).
Proof.
  intros (l & El & Hl & Hall) Hi. unfold get_connection. rewrite c_assert_true by lia. rewrite bind_Ret, El.
  destruct (lookup_lt_is_Some_2 l (Z.to_nat i)) as [x Hx]; [lia|]. rewrite (c_read_ok l i x) by (done || lia).
  destruct (Forall_lookup_1 _ _ _ _ Hall Hx) as [k ->]. by exists k.
Qed.

Definition any_crash (c : crash) : Prop := True.

Lemma wp_host_connect host (Q : option Z * Z -> St -> Prop) s :
  (forall k w, Q (Some k, 0) (s.1, w)) -> (forall w, Q (None, -1) (s.1, w)) -> wp any_crash (rpc_host_connect host) Q s.
Proof.
  intros HS HN. unfold rpc_host_connect. apply wp_bind, wp_sys. intros [addr|] w _; [|by apply wp_ret].
  apply wp_bind, wp_sys. intros [k|] w' _; by apply wp_ret.
Qed.

(** The first [i] connections are open; the loop opens the others or fails. *)
Lemma wp_connect_hosts n : forall i c w l, rpc_clients c = Some l -> (i + n = length l)%nat ->
  Forall is_Some (take i l) ->
  wp any_crash (connect_hosts n (Z.of_nat i)) (fun r s => opts s.1 = opts c /\
    (r < 0 \/ exists l', rpc_clients s.1 = Some l' /\ length l' = length l /\ Forall is_Some l')) (c, w).
Proof.
  induction n as [|n IH]; intros i c w l El Hi Hl; cbn [connect_hosts].
  { apply wp_ret. split; [done|]. right. exists l. split_and!; try done. by rewrite take_ge in Hl by lia. }
  apply wp_bind, wp_getl, wp_bind, wp_lift. cbn [fst]. destruct (serverlist (opts c)) as [hosts|]; [|exact I].
  apply wp_bind, wp_lift. destruct (c_read hosts (Z.of_nat i)) as [host|]; [|exact I]. apply wp_bind.
  apply wp_host_connect.
  - intros k w1. cbn [fst]. apply wp_bind, wp_getl, wp_bind, wp_lift. cbn [fst]. rewrite El. apply wp_bind, wp_lift.
    rewrite c_write_ok by lia. apply wp_bind, wp_modl. cbn [fst snd Z.ltb Z.compare]. rewrite Nat2Z.id.
    replace (Z.of_nat i + 1) with (Z.of_nat (S i)) by lia.
    eapply wp_conseq; [apply (IH (S i) _ _ (<[i := Some k]> l))|].
    + done.
    + rewrite length_insert. lia.
    + rewrite (take_S_r _ i (Some k)) by (apply list_lookup_insert_eq; lia). apply Forall_app.
      split; [|by constructor]. by rewrite take_insert_ge by lia.
    + intros r s [H1 H2]. rewrite length_insert in H2. done.
  - intros w1. cbn [fst]. apply wp_bind, wp_getl, wp_bind, wp_lift. cbn [fst]. rewrite El. apply wp_bind, wp_lift.
    rewrite c_write_ok by lia. apply wp_bind, wp_modl. cbn [fst snd Z.ltb Z.compare]. apply wp_ret. split; [done|]. by left.
Qed.

Lemma wp_rpc_connect c w :
  wp any_crash rpc_connect (fun r s => opts s.1 = opts c /\ (r < 0 \/ connected s.1)) (c, w).
Proof.
  unfold rpc_connect. apply wp_bind, wp_getl, wp_bind, wp_sys. intros ok w' _. apply wp_bind, wp_modl. cbn [fst snd].
  destruct ok; cbn [negb]; [|apply wp_ret; by split; [|left]].
  eapply wp_conseq; [apply (wp_connect_hosts _ 0 _ _ (replicate (Z.to_nat (servercount (opts c))) None))|].
  - done.
  - by rewrite length_replicate.
  - constructor.
  - intros r s [H1 H2]. split; [done|]. destruct H2 as [H2|(l & E & Hl & Hall)]; [by left|right].
    exists l. rewrite H1. rewrite length_replicate in Hl. done.
Qed.

(** Closing the connections of a connected process. *)
Lemma wp_destroy n : forall i (c : conn_state) (w : W) l, rpc_clients c = Some l -> (i + n = length l)%nat -> Forall is_Some l ->
  wp no_crash (destroy_clients n (Z.of_nat i)) (fun _ s => s.1 = c) (c, w).
Proof.
  induction n as [|n IH]; intros i c w l El Hi Hl; cbn [destroy_clients]; [by apply wp_ret|].
  apply wp_bind, wp_getl, wp_bind, wp_lift. cbn [fst]. rewrite El. apply wp_bind, wp_lift.
  destruct (lookup_lt_is_Some_2 l i) as [x Hx]; [lia|]. rewrite (c_read_ok l (Z.of_nat i) x) by (rewrite ?Nat2Z.id; done || lia).
  destruct (Forall_lookup_1 _ _ _ _ Hl Hx) as [k ->]. apply wp_bind, wp_sys. intros [] w' _.
  replace (Z.of_nat i + 1) with (Z.of_nat (S i)) by lia. eapply IH; [exact El|lia|done].
Qed.

End Connected.

Section Root.
Import Pvfs Giga Tree Server Split Startup.
Context {W : Type} {P : PvfsOps W} {V : PvfsView W} {L : PvfsSpec W} {K : PvfsMakes W}.
Variables (root : Z) (s : server) (tries : W -> Z -> nat) (bound fuel : nat) (w : W) (ps : list (string * Z)) (z : Z).
Context {PP : PvfsPaths W root} {SP : Spreads (conn s) tries bound}.

(** A root directory on server [z] that has partition 0, or no partition at all. *)
Record bootable : Prop := mkBootable {
  bt_ok : fs_ok w;
  bt_dir : dirs w root = Some ps;
  bt_new : assoc (PartName.physical_path 0) ps = None -> forall i, 0 <= i < 512 -> PartName.physical_path i ∉ ps.*1;
  bt_small : Z.of_nat (length ps) + 1 < 2 ^ 30;
  bt_server : 0 <= z < Conn.servercount (Conn.opts (conn s));
  bt_mds : forall w0, fs_ok w0 -> exists w', Conn.pvfs_get_mds (conn s) (mkRef root (Conn.pvfs_fsid (conn s))) w0 = Ret (z, w') /\
    quiet w0 w';
  bt_fuel : (bound <= fuel)%nat
}.

Lemma made_quiet w1 w2 n l h l' w3 :
  quiet w1 w2 -> made w2 root n l h l' w3 -> made w1 root n l h l' w3.
Proof.
  intros Hq (M1 & M2 & M3 & M4). split_and!; [by rewrite <- (quiet_dirs _ _ _ Hq)|done|done|].
  intros k. rewrite M4. destruct (decide (k = root)), (decide (k = h)); try done. by apply quiet_dirs.
Qed.

Lemma wp_create_root (Q : unit -> server * W -> Prop) :
  bootable ->
  (forall h w', assoc (PartName.physical_path 0) ps = Some h -> quiet w w' -> Q tt (s, w')) ->
  (forall h ps' w', assoc (PartName.physical_path 0) ps = None ->
     made w root (PartName.physical_path 0) ps h ps' w' -> told_on s (mkRef h (Conn.pvfs_fsid (conn s))) z w' -> Q tt (s, w')) ->
  wp no_crash (create_root_partition fuel) Q (s, w).
Proof.
  intros [B1 B2 B3 B5 B6 B7 B8] HF HN. destruct (physical_path_plain 0 ltac:(lia)) as [Hsi Hln].
  destruct (credentials_quiet w B1) as (cr & w1 & E1 & Q1). unfold create_root_partition.
  apply wp_bind. eapply wp_sys_eq; [exact E1|]. apply wp_bind, wp_getl. cbn [fst snd].
  set (fs := Conn.pvfs_fsid (conn s)) in *. assert (Hd1 : dirs w1 root = Some ps) by (by rewrite (quiet_dirs _ _ _ Q1)).
  change "/p00000"%string with (String "/"%char (PartName.physical_path 0)). change "p00000"%string with (PartName.physical_path 0).
  apply wp_bind. destruct (assoc (PartName.physical_path 0) ps) as [h|] eqn:Ea.
  - destruct (path_found w1 cr fs (PartName.physical_path 0) ps h (quiet_ok _ _ Q1) Hd1 Hsi) as (w2 & E2 & Q2); [done|done|].
    eapply wp_sys_eq; [exact E2|]. cbn [Z.eqb]. apply wp_ret, (HF h); [done|]. by eapply quiet_trans.
  - destruct (path_absent w1 cr fs (PartName.physical_path 0) ps (quiet_ok _ _ Q1) Hd1 Hsi) as (r & w2 & E2 & Q2); [done|done|].
    eapply wp_sys_eq; [exact E2|]. cbv beta iota. assert (Hpos := enoent_positive (W := W)). replace (- @PVFS_ENOENT W P =? 0) with false by lia.
    rewrite (errno_enoent (W := W)), Z.eqb_refl. cbn [negb fst snd]. assert (Q12 := quiet_trans _ _ _ Q1 Q2).
    destruct (path_root w2 cr fs (quiet_ok _ _ Q2)) as (w3 & E3 & Q3). apply wp_bind. eapply wp_sys_eq; [exact E3|].
    cbn [Z.eqb negb fst snd]. assert (Q13 := quiet_trans _ _ _ Q12 Q3).
    destruct (B7 w3 (quiet_ok _ _ Q3)) as (w4 & E4 & Q4). apply wp_bind, wp_in_world. cbn [fst snd].
    eapply wp_Ret; [exact E4|]. assert (Q14 := quiet_trans _ _ _ Q13 Q4).
    apply wp_bind, (wp_mkdir_made s tries bound fuel cr (mkRef root fs) _ _ z w4 ps); try done.
    + by eapply quiet_ok.
    + cbn. by rewrite (quiet_dirs _ _ _ Q14).
    + by apply assoc_None.
    + intros h ps' w5 Hm Hon. cbn [Z.eqb negb]. apply wp_ret, (HN h ps'); [done| |done]. by eapply made_quiet.
Qed.

(** The partition that has been made is the only one. *)
Lemma made_root m h ps' w' :
  bootable -> (forall i, has (bitmap m) i = (i =? 0)) -> assoc (PartName.physical_path 0) ps = None ->
  made w root (PartName.physical_path 0) ps h ps' w' ->
  placed w' root m /\ forall n k, ~ listed w' root m n k.
Proof.
  intros [B1 B2 B3 B5 B6 B7 B8] Hm Ha (M1 & M2 & M3 & M4). assert (Hne : h <> root) by congruence.
  assert (Hr : dirs w' root = Some ps') by (by rewrite M4, decide_True).
  assert (Hh : dirs w' h = Some []) by (by rewrite M4, decide_False, decide_True).
  assert (H0 : assoc (PartName.physical_path 0) ps' = Some h).
  { rewrite (assoc_perm _ ps' _ (proj1 (names_ok w' root ps' M3 Hr)) M2). cbn [assoc]. by rewrite decide_True. }
  assert (Honly : forall i, 0 <= i < 512 -> PartName.physical_path i ∈ ps'.*1 -> i = 0).
  { intros i Hi Hin. rewrite M2 in Hin. apply elem_of_cons in Hin as [E|Hin]; [|by destruct (B3 Ha i Hi)].
    apply (physical_path_inj i 0); [lia|lia|exact E]. }
  split; [by apply (single_placed w' root h m ps' [])|]. intros n k Hl.
  by rewrite (single_listed w' root h m ps' [] Hm Hr H0 Hh n k) in Hl.
Qed.

End Root.

(** ** Steps that change the world only *)

(** ** Threads that leave the connections alone *)

Section Connections.
Import Pvfs Rpc Giga Server Cache Split Handlers.
Context {W : Type} {P : PvfsOps W} {R : BucketRpc W}.
#[local] Abbreviation M := (prog (server * W)).
Variables (self : Z) (fuel : nat).

Definition same_conn {A} (m : M A) : Prop := forall s, wp any_crash m (fun _ s' => conn s'.1 = conn s.1) s.

Lemma same_conn_bind {A B} (m : M A) (f : A -> M B) : same_conn m -> (forall a, same_conn (f a)) -> same_conn (m ≫= f).
Proof.
  intros Hm Hf s. apply wp_bind. eapply wp_conseq; [apply Hm|]. intros a s1 E1. eapply wp_conseq; [apply Hf|].
  intros b s2 E2. congruence.
Qed.

Lemma same_conn_ret {A} (a : A) : same_conn (mret a).
Proof. intros s. by apply wp_ret. Qed.
Lemma same_conn_sys {A} (f : W -> A * W) : same_conn (sys f).
Proof. intros s. by apply wp_sys. Qed.
Lemma same_conn_getl : same_conn (getl : M server).
Proof. intros s. by apply wp_getl. Qed.
Lemma same_conn_modl f : (forall s, conn (f s) = conn s) -> same_conn (modl f : M unit).
Proof. intros Hf s. apply wp_modl. apply Hf. Qed.
Lemma same_conn_crash {A} c : same_conn (crash_with c : M A).
Proof. intros s. exact I. Qed.
Lemma same_conn_lift {A} (m : outcome A) : same_conn (lift m : M A).
Proof. intros s. apply wp_lift. by destruct m. Qed.
Lemma same_conn_world {A} (m : prog W A) : same_conn (in_world m : M A).
Proof. intros s. apply wp_in_world. unfold wp. by destruct (m _) as [[a w']|]. Qed.
Lemma same_conn_deref a : same_conn (deref a : M skye_directory).
Proof. intros s. unfold wp, deref. by destruct (_ !! _). Qed.

Create HintDb same_conn.
Hint Resolve same_conn_ret same_conn_sys same_conn_getl same_conn_crash same_conn_lift same_conn_world same_conn_deref : same_conn.
Hint Extern 1 (same_conn (modl _)) => apply same_conn_modl; reflexivity : same_conn.
Hint Extern 1 (same_conn (store _ _)) => unfold store; apply same_conn_modl; reflexivity : same_conn.

Ltac same_tac :=
  repeat first [ solve [auto with same_conn nocore] | apply same_conn_bind; [|intros ?] | case_match ].

(** cache.c *)
Lemma same_fetch r : same_conn (fetch fuel r : M _).
Proof. unfold fetch, new_directory, hash_add, update. same_tac. Qed.
Lemma same_lock op a : same_conn (lock_with op a : M unit).
Proof. unfold lock_with. same_tac. Qed.
Lemma same_unlock a : same_conn (unlock_dir self a : M unit).
Proof. unfold unlock_dir. same_tac. Qed.
Lemma same_free a : same_conn (free a : M unit).
Proof. unfold free. same_tac. Qed.
Hint Resolve same_fetch same_lock same_unlock same_free : same_conn.
Lemma same_cache_fetch r : same_conn (cache_fetch self fuel r : M _).
Proof. unfold cache_fetch. same_tac. Qed.
Lemma same_cache_fetch_w r : same_conn (cache_fetch_w self fuel r : M _).
Proof. unfold cache_fetch_w. same_tac. Qed.
Lemma same_cache_return a : same_conn (cache_return self a : M unit).
Proof. unfold cache_return. same_tac. Qed.
Lemma same_cache_destroy a : same_conn (cache_destroy a : M unit).
Proof. unfold cache_destroy, hash_del. same_tac. Qed.
Hint Resolve same_cache_fetch same_cache_fetch_w same_cache_return same_cache_destroy : same_conn.

(** split.c *)
Lemma same_perform_split r i : same_conn (perform_split self r i : M unit).
Proof. unfold perform_split, lock_queue, unlock_queue. same_tac. Qed.
Lemma same_overflow c r : same_conn (isdir_overflow c r : M Z).
Proof. unfold isdir_overflow. same_tac. Qed.
Lemma same_mkdir_until n c p x attr sv : same_conn (mkdir_until n c p x attr sv : M _).
Proof. induction n as [|n IH]; cbn [mkdir_until]; same_tac. Qed.
Hint Resolve same_perform_split same_overflow same_mkdir_until : same_conn.
Lemma same_mkdir_server n c p x attr sv : same_conn (pvfs_mkdir_server n c p x attr sv : M _).
Proof. unfold pvfs_mkdir_server. same_tac. Qed.
Lemma same_move_entries x l : forall k, same_conn (move_entries x l k : M Z).
Proof. induction l as [|e l IH]; intros k; cbn [move_entries]; same_tac. Qed.
Hint Resolve same_mkdir_server same_move_entries : same_conn.
Lemma same_move_batches x n : forall t k, same_conn (move_batches self n x t k : M Z).
Proof. induction n as [|n IH]; intros t k; cbn [move_batches]; unfold move_batch; same_tac. Qed.
Hint Resolve same_move_batches : same_conn.
Lemma same_move_rounds x n : same_conn (move_rounds self fuel n x : M unit).
Proof. induction n as [|n IH]; cbn [move_rounds]; same_tac. Qed.
Hint Resolve same_move_rounds : same_conn.
Lemma same_do_split p i : same_conn (do_split self fuel p i : M unit).
Proof. unfold do_split, split_begin, split_finish, update. same_tac. Qed.
Hint Resolve same_do_split : same_conn.
Lemma same_drain n : same_conn (drain_queue self fuel n : M unit).
Proof. induction n as [|n IH]; cbn [drain_queue]; unfold lock_queue, unlock_queue; same_tac. Qed.
Hint Resolve same_drain : same_conn.

(** The split thread, from one wake-up to the next. *)
Lemma same_split_thread : same_conn (split_thread_wakeup self fuel : M unit).
Proof. unfold split_thread_wakeup, lock_queue, unlock_queue. same_tac. Qed.

(** handlers.c *)
Lemma same_flow_start : same_conn (flow_start : M Z).
Proof. unfold flow_start. same_tac. Qed.
Lemma same_flow_stop f : same_conn (flow_stop f : M unit).
Proof. unfold flow_stop. same_tac. Qed.
Lemma same_partition_handle c a i : same_conn (get_partition_handle c a i : M Z).
Proof. unfold get_partition_handle, grow_handles, pvfs_fsid. same_tac. Qed.
Lemma same_isdir c r : same_conn (isdir c r : M bool).
Proof. unfold isdir. same_tac. Qed.
Hint Resolve same_flow_start same_flow_stop same_partition_handle same_isdir : same_conn.
Lemma same_enter c a n r b : same_conn (enter_bucket c a n r b : M _).
Proof. unfold enter_bucket, servernum. same_tac. Qed.
Lemma same_partition_from n c p path a : forall i, same_conn (partition_from n c p path a i : M _).
Proof. induction n as [|n IH]; intros i; cbn [partition_from]; unfold servernum, pvfs_fsid; same_tac. Qed.
Lemma same_maybe_split c a f r : same_conn (maybe_split self c a f r : M unit).
Proof. unfold maybe_split. same_tac. Qed.
Lemma same_remove_bucket c a i : same_conn (remove_bucket c a i : M Z).
Proof. unfold remove_bucket. same_tac. Qed.
Hint Resolve same_enter same_partition_from same_maybe_split same_remove_bucket : same_conn.
Lemma same_remove_entries c a l : same_conn (remove_entries c a l : M Z).
Proof. induction l as [|e l IH]; cbn [remove_entries]; unfold servernum; same_tac. Qed.
Hint Resolve same_remove_entries : same_conn.
Lemma same_remove_batches n c a : forall t, same_conn (remove_batches n c a t : M Z).
Proof. induction n as [|n IH]; intros t; cbn [remove_batches]; same_tac. Qed.
Hint Resolve same_remove_batches : same_conn.

(** A handler. *)
Lemma same_serve q : same_conn (serve self fuel q : M _).
Proof.
  destruct q; cbn [serve]; unfold skye_rpc_lookup_1_svc, skye_rpc_partition_1_svc, skye_rpc_create_1_svc, skye_rpc_mkdir_1_svc,
    skye_rpc_rename_1_svc, skye_rpc_remove_1_svc, skye_rpc_bucket_add_1_svc, skye_rpc_bucket_remove_1_svc, remove_directory,
    remove_all_buckets, servernum, pvfs_fsid, nonnull; same_tac.
Qed.

End Connections.

Section Keeps.
Import Pvfs Server Split Startup.
Context {W : Type} {P : PvfsOps W} {C : Conn.ConnOps W} {S : SockOps W}.

Definition stays {A} (m : prog (server * W) A) : Prop :=
  forall s w, wp any_crash m (fun _ s' => s'.1 = s) (s, w).

Lemma stays_bind {A B} (m : prog (server * W) A) (f : A -> prog (server * W) B) :
  stays m -> (forall a, stays (f a)) -> stays (m ≫= f).
Proof.
  intros Hm Hf s w. apply wp_bind. eapply wp_conseq; [apply Hm|]. intros a [s' w'] E. cbn in E. subst s'. apply Hf.
Qed.

Lemma stays_ret {A} (a : A) : stays (mret a).
Proof. intros s w. by apply wp_ret. Qed.

Lemma stays_sys {A} (f : W -> A * W) : stays (sys f).
Proof. intros s w. by apply wp_sys. Qed.

Lemma stays_getl : stays getl.
Proof. intros s w. by apply wp_getl. Qed.

Lemma stays_crash {A} c : stays (crash_with (A := A) c).
Proof. intros s w. exact I. Qed.

Lemma stays_world {A} (m : prog W A) : stays (in_world m).
Proof. intros s w. apply wp_in_world. unfold wp. by destruct (m _) as [[a w']|]. Qed.

(** Take a program apart into its steps. *)
Ltac stay :=
  repeat first [ apply stays_ret | apply stays_sys | apply stays_getl | apply stays_crash | apply stays_world
               | apply stays_bind; [|intros ?]
               | match goal with
                 | |- stays (if ?b then _ else _) => destruct b
                 | |- stays (match ?x with _ => _ end) => destruct x
                 end
               | assumption ].

Lemma stays_parse l : forall port spec, stays (parse_options l port spec).
Proof.
  induction l as [|[c arg] l IH]; intros port spec; cbn [parse_options]; [stay|].
  destruct (decide _); [apply IH|]. destruct (decide _); [|stay]. stay. apply IH.
Qed.

Lemma stays_mkdir n : forall cr p dir a t, stays (mkdir_until n cr p dir a t).
Proof. induction n as [|n IH]; intros; cbn [mkdir_until]; stay. apply IH. Qed.

Lemma stays_root fuel : stays (create_root_partition fuel).
Proof. unfold create_root_partition, pvfs_mkdir_server. stay. apply stays_mkdir. Qed.

Lemma stays_socket port : stays (server_socket port).
Proof. unfold server_socket, set_sockopt_server, setup_listener. stay. Qed.

Lemma stays_cache_init : stays cache_init.
Proof. unfold cache_init. stay. Qed.

Lemma wp_on_conn {A} (m : prog (Conn.conn_state * W) A) (R : A -> Conn.conn_state -> Prop) s w :
  wp any_crash m (fun a c => R a c.1) (conn s, w) ->
  wp any_crash (on_conn m) (fun a s' => R a (conn s'.1)) (s, w).
Proof. unfold wp, on_conn. cbn [fst snd]. destruct (m (conn s, w)) as [[a [c w']]|]; [|done]. by intros HR. Qed.

Lemma wp_any {St A} (m : prog St A) s : wp any_crash m (fun _ _ => True) s.
Proof. unfold wp. by destruct (m s) as [[a s']|]. Qed.

Lemma wp_server_main meanwhile fuel argc options s w :
  same_conn meanwhile ->
  wp any_crash (server_main fuel meanwhile argc options) (fun _ s' => Conn.servernum (Conn.opts (conn s'.1)) <> -1 /\
    connected (conn s'.1)) (s, w).
Proof.
  intros Hmw. unfold server_main. destruct (argc =? 2); [exact I|].
  apply wp_bind. eapply wp_conseq; [apply stays_parse|]. intros [port spec] [s0 w0] _.
  apply wp_bind. eapply wp_conseq; [apply wp_any|]. intros spec' [s1 w1] _. apply wp_bind.
  eapply wp_conseq; [apply wp_any|]. intros [] [s2 w2] _. apply wp_bind, wp_modl, wp_bind.
  eapply wp_conseq; [apply wp_any|]. intros r [s3 w3] _. apply wp_bind, wp_getl, wp_bind.
  eapply wp_conseq; [apply wp_any|]. intros [] [s4 w4] _. apply wp_bind, wp_getl. cbn [fst].
  destruct (Z.eqb_spec (Conn.servernum (Conn.opts (conn s4))) (-1)) as [|Hnum]; [exact I|]. apply wp_bind.
  eapply (wp_conseq _ _ (fun _ s' => s'.1 = s4)). { destruct (_ =? 0); [apply stays_root|by apply wp_ret]. }
  intros [] [s5 w5] E. cbn in E. subst s5. apply wp_bind. eapply wp_conseq; [apply stays_socket|].
  intros [] [s6 w6] E. cbn in E. subst s6. apply wp_bind. eapply wp_conseq; [apply Hmw|]. intros [] [s7 w7] E7.
  apply wp_bind, wp_sys. intros ret w8 _. destruct (ret <? 0); [exact I|].
  apply wp_bind. eapply wp_conseq; [apply Hmw|]. intros [] [s9 w9] E9.
  apply wp_bind, wp_sys. intros r10 w10 _. apply wp_bind. eapply wp_conseq; [apply Hmw|]. intros [] [s11 w11] E11.
  apply wp_bind. cbn [fst] in *. assert (Eo : conn s11 = conn s4) by congruence.
  eapply wp_conseq; [apply (wp_on_conn _ (fun r c => Conn.opts c = Conn.opts (conn s4) /\ (r < 0 \/ connected c)));
    rewrite Eo; apply wp_rpc_connect|].
  intros r12 [s12 w12] [Ho Hr]. cbn [fst] in *. destruct (Z.eqb_spec r12 0) as [->|]; [|exact I]. cbn [negb].
  eapply wp_conseq; [apply Hmw|]. intros [] s13 E13. cbn [fst] in E13. rewrite E13, Ho. destruct Hr as [Hr|Hr]; [lia|done].
Qed.

End Keeps.

(** The reports before the first error or exception. *)
Fixpoint healthy (l : list Startup.select_result) : list Startup.select_result :=
  match l with
  | [] => []
  | r :: l' => if (0 <=? Startup.sel_ret r) && negb (Startup.sel_except r) then r :: healthy l' else []
  end.

Lemma handler_loop_serves l :
  (Startup.handler_loop l).1 = const Startup.Serve <$> filter (fun r => Startup.sel_read r = true) (healthy l).
Proof.
  induction l as [|r l IH]; [done|]. cbn [Startup.handler_loop healthy].
  destruct (Z.ltb_spec (Startup.sel_ret r) 0); [destruct (Z.leb_spec 0 (Startup.sel_ret r)); [lia|done]|].
  destruct (Z.leb_spec 0 (Startup.sel_ret r)); [|lia]. destruct (Startup.sel_except r); [done|]. cbn [andb negb].
  destruct (Startup.handler_loop l) as [t e]. cbn [fst] in *. rewrite IH. destruct (Startup.sel_read r) eqn:E.
  - rewrite filter_cons_True by done. done.
  - rewrite filter_cons_False by congruence. done.
Qed.

Section StartupProperties.
Import Pvfs Giga Tree Server Split Startup.

(** C26 The root is ready: on a file system whose root directory has partition 0 or no
    partition at all, [create_root_partition] returns and changes nothing of the server.  With
    partition 0 it changes nothing of the file system either, so that the root stays placed, and
    lists the same files, for whatever partitions it has.  Without it makes partition 0 as an empty
    directory on the metadata server of the root, as PVFS tells, and nothing else; the root is then
    placed for the mapping with this one partition and lists no file. *)
Theorem root_partition_ready {W} {P : PvfsOps W} {V : PvfsView W} {L : PvfsSpec W} {K : PvfsMakes W} (root : Z)
  {PP : PvfsPaths W root} (s : server) (tries : W -> Z -> nat) (bound fuel : nat) (w : W) (ps : list (string * Z)) (z : Z)
  (m : giga_mapping_t) (SP : Spreads (W := W) (conn s) tries bound) (Hb : bootable (W := W) root s bound fuel w ps z)
  (Hm : giga_init_mapping (-1) z (Conn.servercount (Conn.opts (conn s))) = Ret m) (Hz : z < 2 ^ 30)
  (Hn : Conn.servercount (Conn.opts (conn s)) < 2 ^ 30) :
  exists w', create_root_partition fuel (s, w) = Ret (tt, (s, w')) /\
    match assoc (PartName.physical_path 0) ps with
    | Some _ => quiet w w' /\ forall m', (placed w root m' -> placed w' root m') /\
                                        forall n k, listed w' root m' n k <-> listed w root m' n k
    | None => exists h ps', made w root (PartName.physical_path 0) ps h ps' w' /\
                told_on s (mkRef h (Conn.pvfs_fsid (conn s))) z w' /\ placed w' root m /\ forall n k, ~ listed w' root m n k
    end.
Proof.
  assert (Hs := bt_server _ _ _ _ _ _ _ Hb).
  assert (Hh : forall i, has (bitmap m) i = (i =? 0)) by (apply (init_ok z _ m) in Hm as (_ & H & _); [exact H|lia|lia]).
  destruct (wp_run (create_root_partition fuel) (fun _ s' => s'.1 = s /\
    match assoc (PartName.physical_path 0) ps with
    | Some _ => quiet w s'.2
    | None => exists h ps', made w root (PartName.physical_path 0) ps h ps' s'.2 /\ told_on s (mkRef h (Conn.pvfs_fsid (conn s))) z s'.2
    end) (s, w)) as ([] & [s' w'] & E & Es & Hw').
  { apply (wp_create_root root s tries bound fuel w ps z); [done|..].
    - intros h w' Ha Hq. by rewrite Ha.
    - intros h ps' w' Ha Hmd Hon. rewrite Ha. split; [done|]. by exists h, ps'. }
  cbn in Es, Hw'. subst s'. exists w'. split; [done|]. destruct (assoc _ ps) as [h|] eqn:Ea.
  - split; [done|]. intros m'. split; [by apply placed_quiet|]. intros n k. by apply listed_quiet.
  - destruct Hw' as (h & ps' & Hmd & Hon). exists h, ps'. split; [done|]. split; [done|].
    by apply (made_root root s bound fuel w ps z m h ps' w').
Qed.

(** C27 A server that is online reaches every server: when [main] of the server gets to
    its message, whatever PVFS, the name service and the RPC library answered and whatever the
    threads did that handle requests and splits from the moment the socket listens, the process
    has a server number, and [get_connection] returns an open connection for every server number.
    That handlers and splits do not change the connections, which is all that is asked of these
    threads, is shown by [same_serve] and [same_split_thread]. *)
Theorem online_server_connected {W} {P : PvfsOps W} {C : Conn.ConnOps W} {S : SockOps W} (fuel : nat)
  (meanwhile : prog (server * W) unit) (argc : Z)
  (options : list (ascii * string)) (s s' : server) (w w' : W) (Hmw : same_conn meanwhile)
  (Hrun : server_main fuel meanwhile argc options (s, w) = Ret (tt, (s', w'))) :
  Conn.servernum (Conn.opts (conn s')) <> -1 /\
  forall i, 0 <= i < Conn.servercount (Conn.opts (conn s')) ->
    exists k, Conn.get_connection (conn s') i = Ret (Some k).
Proof.
  assert (H := wp_server_main meanwhile fuel argc options s w Hmw). unfold wp in H. rewrite Hrun in H. cbn [fst] in H.
  destruct H as [H1 H2]. split; [done|]. intros i Hi. by apply connected_get.
Qed.

(** Before that there are no connections: a handler or split that asks for one dereferences NULL. *)
Lemma early_connection (c : Conn.conn_state) i : Conn.rpc_clients c = None -> 0 <= i < Conn.servercount (Conn.opts c) ->
  Conn.get_connection c i = Crash NullDeref.
Proof. intros Hc Hi. unfold Conn.get_connection. rewrite c_assert_true by lia. by rewrite bind_Ret, Hc. Qed.

(** A connection's descriptor is closed exactly once: whatever select reports, the
    thread of a connection closes the descriptor when it ends and not before, and
    serves nothing after it; it serves one request for every report that the descriptor is
    readable up to the first error or exception. *)
Theorem connection_closed_once (registered : bool) (l : list select_result) :
  let '(t, ended) := handler_thread registered l in
  length (filter (fun a => a = Close) t) = (if ended : bool then 1 else 0)%nat /\
  (ended = true -> list.last t = Some Close) /\
  (registered = true -> filter (fun a => a = Serve) t =
     const Serve <$> filter (fun r => sel_read r = true) (healthy l)).
Proof.
  unfold handler_thread. destruct registered; cbn [negb]; [|done].
  assert (Hs := handler_loop_serves l). destruct (handler_loop l) as [t e]. cbn [fst] in Hs.
  assert (Hall : Forall (fun a => a = Serve) t) by (rewrite Hs; apply Forall_fmap; by apply Forall_true).
  assert (Hc : filter (fun a => a = Close) t = []) by (apply filter_none; eapply list.Forall_impl; [exact Hall|]; by intros a ->).
  split_and!.
  - rewrite list.filter_app, Hc. by destruct e.
  - intros ->. apply last_snoc.
  - intros _. rewrite list.filter_app, (filter_all _ t Hall), Hs. destruct e; [|by rewrite app_nil_r].
    by rewrite filter_cons_False, app_nil_r.
Qed.

(** A client that came up shuts down: whatever PVFS, the name service and the RPC library
    answer, once [skye_init] has returned, [skye_destroy] finds an open connection for
    every server, destroys each and returns. *)
Theorem client_init_destroy {W} {P : PvfsOps W} {C : Conn.ConnOps W} (fs_spec : string) (c c' : Conn.conn_state) (w w' : W)
  (Hrun : skye_init fs_spec (c, w) = Ret (tt, (c', w'))) :
  connected c' /\ exists w'', skye_destroy (c', w') = Ret (tt, (c', w'')).
Proof.
  assert (Hw : wp any_crash (skye_init fs_spec) (fun _ s => connected s.1) (c, w)).
  { unfold skye_init. apply wp_bind. eapply wp_conseq; [apply wp_any|]. intros r [c1 w1] _. destruct (r <? 0); [exact I|].
    apply wp_bind. eapply wp_conseq; [apply wp_rpc_connect|]. intros r2 [c2 w2] [_ Hr].
    destruct (Z.ltb_spec r2 0); [exact I|]. apply wp_ret. destruct Hr as [Hr|Hr]; [lia|done]. }
  unfold wp in Hw. rewrite Hrun in Hw. cbn in Hw. split; [done|]. destruct Hw as (l & El & Hl & Hall).
  destruct (wp_run skye_destroy (fun _ s => s.1 = c') (c', w')) as ([] & [c2 w2] & E & Ec).
  { unfold skye_destroy, Conn.rpc_disconnect. apply wp_bind, wp_getl. cbn [fst]. rewrite <- Hl.
    by apply (wp_destroy _ 0 c' w' l). }
  cbn in Ec. subst c2. by exists w2.
Qed.

(** One server with an empty file system. *)
Definition empty_fs : MemFs.mem := MemFs.mkMem {[ 1 := MemFs.Dir [] ]} 2 1000 1.

Definition booting : server := mkServer MemFs.one_server ∅ ∅ 0 0 ∅ None None.

Lemma one_server_mds fs w : fs_ok w -> exists w', Conn.pvfs_get_mds MemFs.one_server fs w = Ret (0, w') /\ quiet w w'.
Proof.
  intros Hw. assert (Hw' := Hw). destruct Hw' as [_ Hs]. exists w. split; [|by apply mem_quiet_refl].
  unfold Conn.pvfs_get_mds. cbn. rewrite Hs, Z.mod_1_r. done.
Qed.

Lemma one_server_spreads : Spreads (W := MemFs.mem) MemFs.one_server (fun _ _ => 0%nat) 1.
Proof.
  split.
  - intros w ref Hw. destruct (one_server_mds ref w Hw) as (w' & E & Hq). by exists 0, w'.
  - intros w t Hw. lia.
  - intros w cr a n p ref w1 sv w2 w3 t Hw Ht E1 E2 Hne E3. exfalso. apply Hne. cbn in E1, Ht. assert (t = 0) as -> by lia.
    unfold MemFs.add_entry in E1. destruct (MemFs.entries_of w (Pvfs.handle p)) as [l|]; [|discriminate].
    destruct (assoc n l); [discriminate|]. injection E1 as <- <-. unfold Conn.pvfs_get_mds in E2. cbn in E2.
    destruct Hw as [_ Hs]. rewrite Hs, Z.mod_1_r in E2. cbn in E2. by injection E2.
Qed.

Lemma root_partition_ready_witness :
  exists w', create_root_partition 3 (booting, empty_fs) = Ret (tt, (booting, w')) /\
    exists m h, giga_init_mapping (-1) 0 1 = Ret m /\ placed w' 1 m /\ told_on (W := MemFs.mem) booting (mkRef h 7) 0 w'.
Proof.
  destruct (giga_init_mapping (-1) 0 1) as [m|c] eqn:Em; [|vm_compute in Em; discriminate].
  destruct (root_partition_ready (W := MemFs.mem) (PP := mem_paths_of 1) 1 booting (fun _ _ => 0%nat) 1 3 empty_fs [] 0 m
    one_server_spreads) as (w' & E & h & ps' & _ & Hon & Hp & _).
  - split.
    + split; [apply mem_okb_ok; vm_compute; reflexivity|reflexivity].
    + reflexivity.
    + intros _ i _ Hin. by apply elem_of_nil in Hin.
    + cbn. lia.
    + cbn. lia.
    + intros w0 Hw0. by apply one_server_mds.
    + lia.
  - exact Em.
  - lia.
  - cbn. lia.
  - exists w'. split; [exact E|]. exists m, h. split; [reflexivity|]. split; [exact Hp|exact Hon].
Defined.

(** An installation with one server, on which all calls succeed. *)
#[local] Instance easy_conn : Conn.ConnOps MemFs.mem := {|
  Conn.getenv_HOSTNAME := fun _ => Some "localhost"%string;
  Conn.gethostname := fun _ => "localhost"%string;
  Conn.PVFS_sys_initialize := fun w => (0, w);
  Conn.PVFS_sys_fs_add := fun _ w => (0, 7, w);
  Conn.PVFS_sys_set_info_timeouts := fun w => w;
  Conn.PVFS_mgmt_count_servers := fun _ _ w => (0, 1, w);
  Conn.PVFS_mgmt_get_server_array := fun _ _ _ w => (0, [0], 1, w);
  Conn.PVFS_mgmt_map_addr := fun _ _ _ w => ("tcp://localhost:3334"%string, w);
  Conn.gethostbyname := fun _ w => (Some 127, w);
  Conn.clnttcp_create := fun _ _ w => (Some 5, w);
  Conn.clnt_destroy := fun _ w => w
|}.

#[local] Instance easy_sock : SockOps MemFs.mem := {|
  pthread_rwlockattr_setkind_np := fun w => (0, w);
  socket := fun w => (3, w);
  fcntl_GETFL := fun _ w => (2, w);
  fcntl_SETFL := fun _ _ w => (0, w);
  O_NONBLOCK := 2048;
  setsockopt := fun _ _ w => (0, w);
  bind := fun _ _ w => (0, w);
  listen := fun _ _ w => (0, w);
  close := fun _ w => w;
  pthread_create := fun w => (0, w);
  pthread_detach := fun w => (0, w)
|}.

Definition nothing : Conn.conn_state :=
  Conn.mkConn (Conn.mkOptions None 0 0 None None) None 0 (Conn.mkMntent 0 0 [] None) None.

(** A request that is handled while main starts. *)
Definition early_request : prog (server * MemFs.mem) unit :=
  _ ← serve 1 10 (Create (mkCreds 0 0) (mkRef 1 7) "foo" 511); mret tt.

Lemma online_server_connected_witness :
  exists s' w', server_main 3 early_request 3 [("p"%char, "55677"%string)] (mkServer nothing ∅ ∅ 0 0 ∅ None None, empty_fs) = Ret (tt, (s', w')) /\
    is_Some (dircache s' !! mkRef 1 7) /\ forall i, 0 <= i < Conn.servercount (Conn.opts (conn s')) ->
      exists k, Conn.get_connection (conn s') i = Ret (Some k).
Proof.
  destruct (server_main 3 early_request 3 [("p"%char, "55677"%string)] (mkServer nothing ∅ ∅ 0 0 ∅ None None, empty_fs))
    as [[[] [s' w']]|c] eqn:E; [|vm_compute in E; discriminate].
  assert (Hmw : same_conn early_request) by (apply same_conn_bind; [apply same_serve|intros _; apply same_conn_ret]).
  destruct (online_server_connected (W := MemFs.mem) 3 early_request 3 [("p"%char, "55677"%string)]
    (mkServer nothing ∅ ∅ 0 0 ∅ None None) s' empty_fs w' Hmw E) as (_ & H2).
  exists s', w'. split; [reflexivity|]. split; [vm_compute in E; injection E as <- _; eexists; reflexivity|exact H2].
Defined.

Lemma client_init_destroy_witness :
  exists c' w' w'', skye_init "tcp://localhost:3334/pvfs2-fs" (nothing, empty_fs) = Ret (tt, (c', w')) /\
    skye_destroy (c', w') = Ret (tt, (c', w'')).
Proof.
  destruct (skye_init "tcp://localhost:3334/pvfs2-fs" (nothing, empty_fs)) as [[[] [c' w']]|c] eqn:E;
    [|vm_compute in E; discriminate].
  destruct (client_init_destroy (W := MemFs.mem) "tcp://localhost:3334/pvfs2-fs" nothing c' empty_fs w' E) as (_ & w'' & H).
  exists c', w', w''. split; [reflexivity|exact H].
Defined.

End StartupProperties.
