(* ===== verification/Changes.v ===== *)
(** * Removing, making and renaming

    The functional behaviour of the remove, mkdir and rename handlers of
    server/handlers.c on a directory that is [placed], in a file system with the laws of
    [PvfsFiles] and [PvfsMakes]: what each answers and which files the directory lists
    afterwards. *)

From S2P Require Import Prelude Sha GigaIndex Names Utlist Pvfs Rpc Connection MemFs.
From S2P Require Import ServerCache Split Handlers Balance Placement Directory Client Routing Splitting Serving Online.

#[local] Open Scope Z_scope.

Section Changes.
Import Pvfs Rpc Giga Tree Server Cache Split Handlers.
Context {W : Type} {P : PvfsOps W} {V : PvfsView W} {L : PvfsSpec W} {F : PvfsFiles W} {R : BucketRpc W}.
#[local] Abbreviation St := (server * W)%type.

(** The partition [i] with object [hp] and entries [es] where this server keeps [name]. *)
Record keeper (s : server) (w : W) (p : PVFS_object_ref) (d : skye_directory) (name : string) (i : Z) (l : list Z)
  (hp : Z) (es : list (string * Z)) : Prop := mkKeeper {
    kp_index : giga_get_index_for_file (mapping d) name = Ret i;
    kp_server : giga_get_server_for_index (mapping d) i = Ret (self_number s);
    kp_idle : i <> splitting_index d;
    kp_owner : owner (bitmap (mapping d)) (name_hash name) i;
    kp_here : server_of (zeroth_server (mapping d)) (server_count (mapping d)) i = self_number s;
    kp_handles : partition_handles d = Some l;
    kp_dir : part_dir w (Pvfs.handle p) i hp es;
    kp_nodup : NoDup es.*1
  }.

Lemma serving_keeper s w p a d name :
  serving s w p a d -> name_ok name -> here s d name -> exists i l hp es, keeper s w p d name i l hp es.
Proof.
  intros Hsv Hn Hh. destruct (serving_partition s w p a d name Hsv Hn Hh) as (i & l & hp & es & HK).
  exists i, l, hp, es. by destruct HK as (K1 & K2 & K3 & K4 & K5 & K6 & K7 & K8).
Qed.

(** The name is listed exactly if its partition lists it. *)
Lemma keeper_listed s w p d name i l hp es k :
  keeper s w p d name i l hp es -> listed w (Pvfs.handle p) (mapping d) name k <-> assoc name es = Some k.
Proof.
  intros [K1 K2 K3 K4 K5 K6 K7 K8]. split.
  - intros (j & q & es' & Ho & D & A). rewrite (owner_unique _ _ _ _ Ho K4) in D.
    by destruct (part_dir_fun _ _ _ _ _ _ _ K7 D) as [_ ->].
  - intros A. by exists i, hp, es.
Qed.

(** The head of a handler that changes a directory, up to the partition it works in. *)
Lemma wp_enter_keeper {A} cr s w p a d name i l hp es
  (k : Z * PVFS_object_ref * option giga_mapping_t -> prog St A) (Q : A -> St -> Prop) :
  serving s w p a d -> keeper s w p d name i l hp es ->
  (forall w', quiet w w' -> wp no_crash (k (0, mkRef hp (Pvfs.fs_id p), None)) Q
     (reading (set_flow_sem (flow_sem s - 1) s) a (remember d l i hp), w')) ->
  wp no_crash (r ← enter_bucket cr a name p true; k r) Q (reading (set_flow_sem (flow_sem s - 1) s) a d, w).
Proof.
  intros [S1 S2 S3 S4 S5 S6 S7 S8 S9] [K1 K2 K3 K4 K5 K6 K7 K8] HQ. apply wp_bind.
  eapply (wp_enter_serving cr _ a d w p name i l hp es); try done. apply K4.
Qed.

(** ** Removing a file *)

Lemma wp_remove self fuel cr s w p a d name i l hp es (Q : skye_lookup -> St -> Prop) :
  serving s w p a d -> simple name -> keeper s w p d name i l hp es ->
  (forall h, assoc name es = Some h -> dirs w h = None) ->
  (forall w', assoc name es = None -> quiet w w' ->
     Q (mkLookup (- ENOENT) U_none) (cached s a (remember d l i hp), w')) ->
  (forall h w', assoc name es = Some h -> relisted hp (filter (fun e => e.1 <> name) es) w w' ->
     Q (mkLookup 0 U_none) (cached s a (remember d l i hp), w')) ->
  wp no_crash (skye_rpc_remove_1_svc self fuel cr p name) Q (s, w).
Proof.
  intros Hsv Hn HK Hfile HA HP. assert (Hf := sv_flow _ _ _ _ _ Hsv). assert (Hr := sv_read _ _ _ _ _ Hsv).
  assert (Hpd : dirs w hp = Some es) by (by destruct (kp_dir _ _ _ _ _ _ _ _ _ HK) as (? & _ & _ & ?)).
  unfold skye_rpc_remove_1_svc. unfold wp at 1. rewrite (handler_head self fuel _ s p a d w Hf Hr). cbv beta iota.
  eapply (wp_enter_keeper cr s w p a d name i l hp es); [done|done|].
  intros w1 Q1. cbv beta iota. cbn [Z.ltb Z.compare]. set (ref := mkRef hp (Pvfs.fs_id p)).
  assert (Hpd1 : dirs w1 (Pvfs.handle ref) = Some es) by (by rewrite (quiet_dirs _ _ _ Q1)).
  apply wp_bind, wp_bind. eapply wp_Ret; [reflexivity|]. apply wp_bind. destruct (assoc name es) as [h|] eqn:Ea.
  - destruct (lookup_found w1 cr (Conn.pvfs_fsid (conn s)) name ref es h (quiet_ok _ _ Q1) Hpd1 Hn Ea)
      as (w2 & E2 & Q2). eapply wp_sys_eq; [exact E2|]. cbn [fst snd Z.ltb Z.compare].
    assert (Q12 := quiet_trans _ _ _ Q1 Q2). assert (Hfd : dirs w2 h = None)
      by (rewrite (quiet_dirs _ _ _ Q12); by apply Hfile).
    destruct (getattr_other w2 cr PVFS_ATTR_SYS_ALL_NOHINT (mkRef h (Pvfs.fs_id ref)) (quiet_ok _ _ Q2) Hfd)
      as (rc & at' & w3 & E3 & Hty & Q3). unfold isdir. apply wp_bind, wp_bind. eapply wp_sys_eq; [exact E3|].
    cbn [fst snd]. apply wp_ret. rewrite (bool_decide_eq_false_2 _ Hty).
    replace (if rc <? 0 then false else false) with false by (by destruct (rc <? 0)).
    assert (Q13 := quiet_trans _ _ _ Q12 Q3).
    assert (Hpd3 : dirs w3 (Pvfs.handle ref) = Some es) by (by rewrite (quiet_dirs _ _ _ Q13)).
    destruct (remove_file w3 cr name ref es h (quiet_ok _ _ Q3) Hpd3 Ea) as (w4 & E4 & Hok4 & Hd4);
      [by rewrite (quiet_dirs _ _ _ Q3)|].
    apply wp_bind. eapply wp_sys_eq; [exact E4|]. cbn [fst snd]. rewrite errno_ok. apply wp_ret.
    apply (wp_tail self s p a d l i hp); [done|done|]. apply (HP h); [done|]. split; [done|]. intros k. rewrite Hd4.
    cbn [Pvfs.handle ref]. destruct (decide (k = hp)); [done|]. by apply quiet_dirs.
  - destruct (lookup_absent w1 cr (Conn.pvfs_fsid (conn s)) name ref es (quiet_ok _ _ Q1) Hpd1 Hn Ea)
      as (r & w2 & E2 & Q2). eapply wp_sys_eq; [exact E2|]. cbn [fst snd]. assert (Hpos := enoent_positive (W := W)).
    replace (- @PVFS_ENOENT W P <? 0) with true by lia. rewrite errno_enoent. apply wp_ret.
    apply (wp_tail self s p a d l i hp); [done|done|]. apply HA; [done|]. by eapply quiet_trans.
Qed.

(** What a remove answers and does to the contents. *)
Definition remove_result (w w' : W) (p : PVFS_object_ref) (m : giga_mapping_t) (name : string) (r : skye_lookup) : Prop :=
  ((exists h, listed w (Pvfs.handle p) m name h) /\ r = mkLookup 0 U_none \/
   (forall h, ~ listed w (Pvfs.handle p) m name h) /\ r = mkLookup (- ENOENT) U_none) /\
  forall n k, listed w' (Pvfs.handle p) m n k <-> n <> name /\ listed w (Pvfs.handle p) m n k.

Lemma remove_ok self fuel cr s w p a d name :
  serving s w p a d -> name_ok name -> simple name -> here s d name ->
  (forall h, listed w (Pvfs.handle p) (mapping d) name h -> dirs w h = None) ->
  exists r s' w' d', skye_rpc_remove_1_svc self fuel cr p name (s, w) = Ret (r, (s', w')) /\
    mapping d' = mapping d /\ serving s' w' p a d' /\ conn s' = conn s /\ remove_result w w' p (mapping d) name r.
Proof.
  intros Hsv Hn Hsi Hh Hfile. destruct (serving_keeper s w p a d name Hsv Hn Hh) as (i & l & hp & es & HK).
  assert (Hls := fun k => keeper_listed s w p d name i l hp es k HK). assert (HK' := HK).
  destruct HK' as [K1 K2 K3 K4 K5 K6 K7 K8]. assert (Hpl := sv_placed _ _ _ _ _ Hsv).
  destruct (wp_run (skye_rpc_remove_1_svc self fuel cr p name) (fun r s' => serving s'.1 s'.2 p a (remember d l i hp) /\
    conn s'.1 = conn s /\ remove_result w s'.2 p (mapping d) name r) (s, w)) as (r & [s' w'] & E & Hres).
  2: { by exists r, s', w', (remember d l i hp). }
  eapply (wp_remove self fuel cr s w p a d name i l hp es); try done.
  - intros h Ha. by apply Hfile, Hls.
  - intros w' Ea Hq. split; [by eapply serving_remember; [done|apply K4|..]|]. split; [done|].
    assert (Hno : forall h, ~ listed w (Pvfs.handle p) (mapping d) name h) by (intros h Hl%Hls; congruence).
    split; [by right|]. intros n k. rewrite (listed_quiet w w' _ _ n k Hq). split; [|tauto].
    intros Hl. split; [|done]. intros ->. by apply Hno in Hl.
  - intros h w' Ea Hr. assert (Hw := relisted_rewritten w w' _ i hp name _ es _ Hpl K4 K7 Hr).
    split; [eapply (serving_changed s w w' p a d l i hp es); try done; [apply K4|by eapply remove_home]|].
    split; [done|]. split; [left; split; [exists h; by apply Hls|done]|]. intros n k.
    by apply (remove_listed w w' _ i hp name (mapping d) es).
Qed.

(** ** Making a directory *)

Section Making.
Context {K : PvfsMakes W}.
Variables (s : server) (tries : W -> Z -> nat) (bound : nat).
Context {SP : Spreads (W := W) (conn s) tries bound}.

(** The metadata server of an object is one of the servers. *)
Definition mds_known : Prop := forall (w : W) ref sv w', fs_ok w ->
  Conn.pvfs_get_mds (conn s) ref w = Ret (sv, w') -> 0 <= sv < Conn.servercount (Conn.opts (conn s)).

(** The new directory [h] with entry [es'] of its parent partition [hp], and its own
    partition 0, which is empty. *)
Definition made_directory (hp : Z) (name : string) (es : list (string * Z)) (h : Z) (es' : list (string * Z)) (w w' : W) : Prop :=
  dirs w h = None /\ es' ≡ₚ (name, h) :: es /\ fs_ok w' /\ dirs w' hp = Some es' /\
  (forall k l, k <> hp -> dirs w k = Some l -> dirs w' k = Some l) /\
  exists h0, h0 <> h /\ dirs w' h = Some [(PartName.physical_path 0, h0)] /\ dirs w' h0 = Some [].

Lemma wp_mkdir self fuel cr w p a d name mode i l hp es (Q : skye_lookup -> St -> Prop) :
  serving s w p a d -> simple name -> (String.length name < 256)%nat -> keeper s w p d name i l hp es ->
  Z.of_nat (length es) + 1 < 2 ^ 30 -> mds_known -> (bound <= fuel)%nat ->
  (forall k w', assoc name es = Some k -> quiet w w' ->
     Q (mkLookup (- EEXIST) U_none) (cached s a (remember d l i hp), w')) ->
  (forall h es' w', assoc name es = None -> made_directory hp name es h es' w w' ->
     Q (mkLookup 0 (U_ref (mkRef h (Pvfs.fs_id p)))) (cached s a (remember d l i hp), w')) ->
  wp no_crash (skye_rpc_mkdir_1_svc self fuel cr p name mode) Q (s, w).
Proof.
  intros Hsv Hn Hln HK Hlen Hmds Hfu HE HN. assert (Hf := sv_flow _ _ _ _ _ Hsv). assert (Hr := sv_read _ _ _ _ _ Hsv).
  assert (Hpd : dirs w hp = Some es) by (by destruct (kp_dir _ _ _ _ _ _ _ _ _ HK) as (? & _ & _ & ?)).
  unfold skye_rpc_mkdir_1_svc. unfold wp at 1. rewrite (handler_head self fuel _ s p a d w Hf Hr). cbv beta iota.
  eapply (wp_enter_keeper cr s w p a d name i l hp es); [done|done|].
  intros w1 Q1. cbv beta iota. cbn [Z.ltb Z.compare]. set (ref := mkRef hp (Pvfs.fs_id p)).
  assert (Hpd1 : dirs w1 (Pvfs.handle ref) = Some es) by (by rewrite (quiet_dirs _ _ _ Q1)).
  apply wp_bind. destruct (assoc name es) as [h|] eqn:Ea.
  - destruct (mkdir_present w1 cr (mkdir_attr cr mode) name ref es h (quiet_ok _ _ Q1) Hpd1 Ea)
      as (rc & r & w2 & E2 & Hrc & Her & Q2). eapply wp_sys_eq; [exact E2|]. cbn [fst snd].
    destruct (Z.eqb_spec rc 0); [done|]. cbn [negb]. rewrite Her. apply (wp_tail self s p a d l i hp); [done|done|].
    apply (HE h); [done|]. by eapply quiet_trans.
  - destruct (mkdir_absent w1 cr (mkdir_attr cr mode) name ref es (quiet_ok _ _ Q1) Hpd1 Hn Hln Hlen Ea)
      as (h & es' & w2 & E2 & Hh & Hes & Hok2 & Hd2). eapply wp_sys_eq; [exact E2|]. cbn [fst snd Z.eqb negb].
    set (new := mkRef h (Pvfs.fs_id ref)). cbn [Pvfs.handle ref] in Hd2, Hpd1.
    assert (Hhp : h <> hp) by congruence. apply wp_bind, wp_getl, wp_bind, wp_in_world. cbn [fst snd].
    destruct (spread_known w2 new Hok2) as (sv & w3 & E3 & Q3). eapply wp_Ret; [exact E3|].
    assert (Hsv' := Hmds w2 new sv w3 Hok2 E3). change "p00000"%string with (PartName.physical_path 0).
    destruct (physical_path_plain 0 ltac:(lia)) as [Hsi Hl0]. apply wp_bind.
    assert (Hd3 : dirs w3 h = Some []) by (rewrite (quiet_dirs _ _ _ Q3), Hd2, decide_False, decide_True by done; done).
    eapply (wp_mkdir_made (SP := SP) (reading (set_flow_sem (flow_sem s - 1) s) a (remember d l i hp)) tries bound
      fuel cr new _ _ sv w3 []); try done; [by eapply quiet_ok|by apply not_elem_of_nil|].
    intros h0 ps' w4 (M1 & M2 & M3 & M4) _. cbn [Pvfs.handle new] in M4.
    apply (wp_tail self s p a d l i hp); [done|done|]. apply (HN h es'); [done|].
    apply Permutation_singleton_r in M2 as ->. assert (h0 <> h) by congruence.
    assert (Hold : forall k, k <> h -> k <> h0 -> dirs w4 k = dirs w2 k)
      by (intros k H1 H2; rewrite M4, !decide_False by done; by apply quiet_dirs).
    assert (Hn0 : dirs w2 h0 = None) by (by rewrite <- (quiet_dirs _ _ _ Q3)).
    assert (h0 <> hp) by (intros ->; rewrite Hd2, decide_True in Hn0; done).
    split_and!; [by rewrite <- (quiet_dirs _ _ _ Q1)|done|done| | |].
    + rewrite Hold, Hd2 by done. by rewrite decide_True.
    + intros k l0 Hk Hl. rewrite <- (quiet_dirs _ _ _ Q1) in Hl. assert (k <> h) by congruence.
      assert (Hk2 : dirs w2 k = Some l0) by (rewrite Hd2, !decide_False by done; done).
      rewrite Hold; [done|done|congruence].
    + exists h0. split; [done|]. split; [by rewrite M4, decide_True|by rewrite M4, decide_False, decide_True].
Qed.

(** What a mkdir answers and does: the parent lists the new directory, and that is a
    directory of one partition with no files. *)
Definition mkdir_result (w w' : W) (p : PVFS_object_ref) (m : giga_mapping_t) (name : string) (r : skye_lookup) : Prop :=
  (exists h, listed w (Pvfs.handle p) m name h /\ r = mkLookup (- EEXIST) U_none /\ quiet w w') \/
  (forall h, ~ listed w (Pvfs.handle p) m name h) /\
  exists h, r = mkLookup 0 (U_ref (mkRef h (Pvfs.fs_id p))) /\ dirs w h = None /\
    (forall n k, listed w' (Pvfs.handle p) m n k <-> n = name /\ k = h \/ n <> name /\ listed w (Pvfs.handle p) m n k) /\
    forall z c m0, 0 <= z < 2 ^ 30 -> 1 <= c < 2 ^ 30 -> giga_init_mapping (-1) z c = Ret m0 ->
      placed w' h m0 /\ forall n k, ~ listed w' h m0 n k.

Lemma mkdir_ok self fuel cr w p a d name mode :
  serving s w p a d -> simple name -> (String.length name < 256)%nat -> here s d name -> mds_known -> (bound <= fuel)%nat ->
  (forall i hp es, owner (bitmap (mapping d)) (name_hash name) i -> part_dir w (Pvfs.handle p) i hp es ->
     Z.of_nat (length es) + 1 < 2 ^ 30) ->
  exists r s' w' d', skye_rpc_mkdir_1_svc self fuel cr p name mode (s, w) = Ret (r, (s', w')) /\
    mapping d' = mapping d /\ serving s' w' p a d' /\ conn s' = conn s /\ mkdir_result w w' p (mapping d) name r.
Proof.
  intros Hsv Hsi Hln Hh Hmds Hfu Hroom. assert (Hn : name_ok name) by (unfold name_ok; lia).
  destruct (serving_keeper s w p a d name Hsv Hn Hh) as (i & l & hp & es & HK).
  assert (Hls := fun k => keeper_listed s w p d name i l hp es k HK). assert (HK' := HK).
  destruct HK' as [K1 K2 K3 K4 K5 K6 K7 K8]. assert (Hpl := sv_placed _ _ _ _ _ Hsv).
  destruct (wp_run (skye_rpc_mkdir_1_svc self fuel cr p name mode) (fun r s' => serving s'.1 s'.2 p a (remember d l i hp) /\
    conn s'.1 = conn s /\ mkdir_result w s'.2 p (mapping d) name r) (s, w)) as (r & [s' w'] & E & Hres).
  2: { by exists r, s', w', (remember d l i hp). }
  eapply (wp_mkdir self fuel cr w p a d name mode i l hp es); try done; [by eapply Hroom| |].
  - intros k w' Ea Hq. split; [by eapply serving_remember; [done|apply K4|..]|]. split; [done|].
    left. exists k. split; [by apply Hls|done].
  - intros h es' w' Ea (M1 & M2 & M3 & M4 & M5 & h0 & M6 & M7 & M8).
    assert (Hw := only_rewritten w w' _ i hp name _ es es' Hpl K4 K7 M3 M4 M5).
    split; [eapply (serving_changed s w w' p a d l i hp es); try done; [apply K4|by eapply add_home]|].
    split; [done|]. right. split; [intros k Hl%Hls; congruence|]. exists h. split_and!; [done|done| |].
    + intros n k. apply (add_listed w w' _ i hp h name (mapping d) es es'); try done. by apply (names_ok w' hp es').
    + intros z c m0 Hz Hc Hm0. destruct (init_ok z c m0 ltac:(lia) ltac:(lia) Hm0) as (_ & Hb & _).
      assert (H0 : assoc (PartName.physical_path 0) [(PartName.physical_path 0, h0)] = Some h0)
        by (cbn [assoc]; by rewrite decide_True).
      split; [by apply (single_placed w' h h0 m0 _ [] Hb M7 H0 (lone_partition h0))|].
      intros n k Hl. by apply (single_listed w' h h0 m0 _ [] Hb M7 H0 M8) in Hl.
Qed.

End Making.

(** ** Renaming *)

(** Partition [i] has entries [es'], the others have lost the name [src]. *)
Definition renamed_at (i : Z) (es' : list (string * Z)) (src : string) (j : Z) (l : list (string * Z)) :
  list (string * Z) := if decide (j = i) then es' else filter (fun e => e.1 <> src) l.

Section Renaming.
Variables (w : W) (p i hp j hs h : Z) (src dst : string) (m : giga_mapping_t) (es ess : list (string * Z)).
Hypotheses (Hpl : placed w p m) (Ho : owner (bitmap m) (name_hash dst) i) (Hd : part_dir w p i hp es)
  (Hos : owner (bitmap m) (name_hash src) j) (Hds : part_dir w p j hs ess) (Hsrc : assoc src ess = Some h)
  (Hdst : assoc dst es = None).

(** A partition that does not own a name does not list it. *)
Lemma unowned_absent k q l : has (bitmap m) k = true -> part_dir w p k q l -> k <> j ->
  filter (fun e => e.1 <> src) l = l.
Proof.
  intros Hk D Hne. apply filter_all, list.Forall_forall. intros e He E. apply Hne.
  eapply owner_unique; [|exact Hos]. rewrite <- E. by eapply (pl_home _ _ _ Hpl).
Qed.

Lemma renamed_home es' : es' ≡ₚ (dst, h) :: filter (fun e => e.1 <> src) es -> at_home w p m (renamed_at i es' src).
Proof.
  intros Hes k q l e Hk D. unfold renamed_at. destruct (decide (k = i)) as [->|].
  - rewrite Hes, elem_of_cons. intros [->|[_ He]%list_elem_of_filter]; [done|].
    by eapply (pl_home _ _ _ Hpl); [apply Ho|exact Hd|].
  - intros [_ He]%list_elem_of_filter. by eapply (pl_home _ _ _ Hpl).
Qed.

Lemma renamed_listed w' es' n k :
  rewritten p m (renamed_at i es' src) w w' -> es' ≡ₚ (dst, h) :: filter (fun e => e.1 <> src) es -> NoDup es'.*1 ->
  (forall k l q, has (bitmap m) k = true -> part_dir w p k q l -> NoDup l.*1) ->
  listed w' p m n k <-> n = dst /\ k = h \/ n <> src /\ listed w p m n k.
Proof.
  intros Hr Hes Hnd Hall. apply (change_entries w w' p m _ Hpl Hr n k); [intros [-> _]; by exists i|].
  intros x q l Hx D. assert (Hl := Hall x l q (proj1 Hx) D). unfold renamed_at. destruct (decide (x = i)) as [->|Hne].
  - destruct (part_dir_fun _ _ _ _ _ _ _ D Hd) as [_ ->]. rewrite (assoc_perm n es' _ Hnd Hes). cbn [assoc].
    destruct (decide (dst = n)) as [<-|Hn]; [rewrite Hdst; intuition congruence|].
    rewrite (assoc_filter _ n k es Hl). cbn [fst]. split; [tauto|]. intros [[-> _]|?]; tauto.
  - rewrite (assoc_filter _ n k l Hl). cbn [fst]. split; [tauto|]. intros [[-> _]|?]; [|tauto].
    destruct Hne. by eapply owner_unique.
Qed.

(** Renaming from the partition of [src] to the partition of [dst]. *)
Lemma renames w1 cr fs : quiet w w1 -> simple dst -> (String.length dst < 256)%nat -> Z.of_nat (length es) + 1 < 2 ^ 30 ->
  exists es' w', PVFS_sys_rename src (mkRef hs fs) dst (mkRef hp fs) cr w1 = (0, w') /\
    es' ≡ₚ (dst, h) :: filter (fun e => e.1 <> src) es /\ rewritten p m (renamed_at i es' src) w w' /\ dirs w' hp = Some es'.
Proof.
  intros Hq Hsi Hln Hlen. assert (Hq' := fun k => quiet_dirs w w1 k Hq). assert (Hds' := Hds). assert (Hd' := Hd).
  destruct Hds' as (ps & P1 & P2 & P3), Hd' as (ps' & P1' & P2' & P3').
  assert (Hp1 : hp <> p) by (eapply (pl_root _ _ _ Hpl), Hd; apply Ho).
  assert (Hp2 : hs <> p) by (eapply (pl_root _ _ _ Hpl), Hds; apply Hos).
  assert (Hobj : forall k q l, has (bitmap m) k = true -> part_dir w p k q l -> k <> i -> q <> hp).
  { intros k q l Hk D Hne ->. apply Hne. eapply (pl_apart _ _ _ Hpl); [done|apply Ho|exact D|exact Hd]. }
  destruct (decide (j = i)) as [Eji|Hji].
  - assert (Hsd : part_dir w p i hs ess) by (by rewrite <- Eji).
    destruct (part_dir_fun _ _ _ _ _ _ _ Hsd Hd) as [Eh Ee]. assert (Ha : assoc src es = Some h) by congruence. rewrite Eh.
    destruct (rename_within w1 cr src dst (mkRef hp fs) es h) as (es' & w' & E & Hes & Hok & Hw);
      [by eapply quiet_ok|cbn; by rewrite Hq'|done|done|done|done|]. cbn [Pvfs.handle] in Hw.
    exists es', w'. split_and!; [done|done| |by rewrite Hw, decide_True].
    split_and!; [done|by rewrite Hw, decide_False by congruence|]. intros k q l Hk D. unfold renamed_at. rewrite Hw.
    destruct (decide (k = i)) as [->|Hne]; [by destruct (part_dir_fun _ _ _ _ _ _ _ D Hd) as [-> _]; rewrite decide_True|].
    rewrite decide_False by (by eapply Hobj). rewrite (unowned_absent k q l Hk D), Hq' by congruence. by destruct D as (? & _ & _ & ?).
  - assert (Hne : hs <> hp) by (eapply Hobj; [apply Hos|exact Hds|done]).
    destruct (rename_between w1 cr src dst (mkRef hs fs) (mkRef hp fs) ess es h) as (es' & w' & E & Hes & Hok & Hw);
      [by eapply quiet_ok|cbn; by rewrite Hq'|cbn; by rewrite Hq'|done|done|done|done|done|done|]. cbn [Pvfs.handle] in Hw.
    exists es', w'. rewrite (unowned_absent i hp es (proj1 Ho) Hd) by congruence.
    split_and!; [done|done| |by rewrite Hw, decide_False, decide_True].
    split_and!; [done|by rewrite Hw, !decide_False by congruence|]. intros k q l Hk D. unfold renamed_at. rewrite Hw.
    destruct (decide (k = i)) as [->|Hki].
    + destruct (part_dir_fun _ _ _ _ _ _ _ D Hd) as [-> _]. by rewrite decide_False, decide_True.
    + rewrite (decide_False (P := q = hp)) by (by eapply Hobj). destruct (decide (q = hs)) as [->|Hqs].
      * assert (k = j) as -> by (eapply (pl_apart _ _ _ Hpl); [done|apply Hos|exact D|exact Hds]).
        by destruct (part_dir_fun _ _ _ _ _ _ _ D Hds) as [_ ->].
      * rewrite (unowned_absent k q l Hk D), Hq'; [by destruct D as (? & _ & _ & ?)|].
        intros ->. by destruct (part_dir_fun _ _ _ _ _ _ _ D Hds).
Qed.

End Renaming.

(** The rename of a listed file to a name that is not listed, from the partition that
    the client was given for it. *)
Lemma rename_ok self fuel cr s w p a d src dst j hs ess h :
  serving s w p a d -> simple dst -> (String.length dst < 256)%nat -> here s d dst ->
  owner (bitmap (mapping d)) (name_hash src) j -> part_dir w (Pvfs.handle p) j hs ess -> assoc src ess = Some h ->
  (forall k, ~ listed w (Pvfs.handle p) (mapping d) dst k) ->
  (forall i hp es, owner (bitmap (mapping d)) (name_hash dst) i -> part_dir w (Pvfs.handle p) i hp es ->
     Z.of_nat (length es) + 1 < 2 ^ 30) ->
  exists s' w' d', skye_rpc_rename_1_svc self fuel cr src (mkRef hs (Pvfs.fs_id p)) dst p (s, w)
      = Ret (mkLookup 0 U_none, (s', w')) /\
    mapping d' = mapping d /\ serving s' w' p a d' /\ conn s' = conn s /\
    forall n k, listed w' (Pvfs.handle p) (mapping d) n k <->
      n = dst /\ k = h \/ n <> src /\ listed w (Pvfs.handle p) (mapping d) n k.
Proof.
  intros Hsv Hsi Hln Hh Hos Hds Hsrc Hno Hroom. assert (Hn : name_ok dst) by (unfold name_ok; lia).
  destruct (serving_keeper s w p a d dst Hsv Hn Hh) as (i & l & hp & es & HK).
  assert (Hls := fun k => keeper_listed s w p d dst i l hp es k HK). assert (HK' := HK).
  destruct HK' as [K1 K2 K3 K4 K5 K6 K7 K8]. assert (Hpl := sv_placed _ _ _ _ _ Hsv).
  assert (Hdst : assoc dst es = None) by (destruct (assoc dst es) as [k|] eqn:E; [destruct (Hno k); by apply Hls|done]).
  destruct (wp_run (skye_rpc_rename_1_svc self fuel cr src (mkRef hs (Pvfs.fs_id p)) dst p) (fun r s' => r = mkLookup 0 U_none /\
    serving s'.1 s'.2 p a (remember d l i hp) /\ conn s'.1 = conn s /\
    forall n k, listed s'.2 (Pvfs.handle p) (mapping d) n k <->
      n = dst /\ k = h \/ n <> src /\ listed w (Pvfs.handle p) (mapping d) n k) (s, w)) as (r & [s' w'] & E & -> & Hres).
  2: { by exists s', w', (remember d l i hp). }
  assert (Hf := sv_flow _ _ _ _ _ Hsv). assert (Hr := sv_read _ _ _ _ _ Hsv). unfold skye_rpc_rename_1_svc.
  unfold wp at 1. rewrite (handler_head self fuel _ s p a d w Hf Hr). cbv beta iota.
  eapply (wp_enter_keeper cr s w p a d dst i l hp es); [done|done|]. intros w1 Q1. cbv beta iota. cbn [Z.ltb Z.compare].
  destruct (renames w (Pvfs.handle p) i hp j hs h src dst (mapping d) es ess Hpl K4 K7 Hos Hds Hsrc Hdst w1 cr (Pvfs.fs_id p))
    as (es' & w' & E & Hes & Hw & Hd'); [done|done|done|by eapply Hroom|].
  apply wp_bind. eapply wp_sys_eq; [exact E|]. cbn [fst snd]. rewrite errno_ok.
  apply (wp_tail self s p a d l i hp); [done|done|]. split; [done|].
  split; [eapply (serving_changed s w w' p a d l i hp es); try done; [apply K4|by eapply renamed_home]|].
  split; [done|]. intros n k. eapply (renamed_listed w _ i hp h src dst (mapping d) es); try done.
  - by apply (names_ok w' hp es'); [apply Hw|].
  - intros x l0 q _ (? & _ & _ & D). apply (names_ok w q l0); [apply Hsv|done].
Qed.

End Changes.

Section ChangeProperties.
Import Pvfs Rpc Giga Tree Server Cache Split Handlers.

(** C9 A remove is correct: on a server that has the directory cached and the name's
    partition, the remove handler returns for a name that is not a directory's; it
    answers 0 if the directory lists the name and -ENOENT otherwise, and afterwards the
    directory lists exactly the other names, with their handles.  Files stay placed by
    the mapping and the server's cache of partition handles stays right. *)
Theorem remove_correct {W} {P : PvfsOps W} {V : PvfsView W} {L : PvfsSpec W} {F : PvfsFiles W} {R : BucketRpc W}
  (self : Z) (fuel : nat) (cr : PVFS_credentials) (s : server) (w : W) (p : PVFS_object_ref) (a : positive)
  (d : skye_directory) (name : string)
  (Hsv : serving s w p a d) (Hn : name_ok name) (Hsi : simple name) (Hh : here s d name)
  (Hfile : forall h, listed w (Pvfs.handle p) (mapping d) name h -> dirs w h = None) :
  exists r s' w' d', skye_rpc_remove_1_svc self fuel cr p name (s, w) = Ret (r, (s', w')) /\
    mapping d' = mapping d /\ serving s' w' p a d' /\ conn s' = conn s /\ remove_result w w' p (mapping d) name r.
Proof. by apply remove_ok. Qed.

(** C10 A mkdir is correct: on a server that has the parent cached and the name's
    partition, when PVFS spreads new directories over its servers, the mkdir handler
    returns; a listed name is answered -EEXIST and nothing changes; otherwise the parent
    lists the new directory and besides it what it listed before, and the new directory
    is one that every server can use: it is placed for the mapping of a new directory,
    with an empty partition 0. *)
Theorem mkdir_correct {W} {P : PvfsOps W} {V : PvfsView W} {L : PvfsSpec W} {F : PvfsFiles W} {K : PvfsMakes W}
  {R : BucketRpc W} (self : Z) (fuel : nat) (cr : PVFS_credentials) (s : server) (w : W) (p : PVFS_object_ref)
  (a : positive) (d : skye_directory) (name : string) (mode : Z) (tries : W -> Z -> nat) (bound : nat)
  (SP : Spreads (W := W) (conn s) tries bound) (Hmds : mds_known (W := W) s) (Hfu : (bound <= fuel)%nat)
  (Hsv : serving s w p a d) (Hsi : simple name) (Hln : (String.length name < 256)%nat) (Hh : here s d name)
  (Hroom : forall i hp es, owner (bitmap (mapping d)) (name_hash name) i -> part_dir w (Pvfs.handle p) i hp es ->
     Z.of_nat (length es) + 1 < 2 ^ 30) :
  exists r s' w' d', skye_rpc_mkdir_1_svc self fuel cr p name mode (s, w) = Ret (r, (s', w')) /\
    mapping d' = mapping d /\ serving s' w' p a d' /\ conn s' = conn s /\ mkdir_result w w' p (mapping d) name r.
Proof. by eapply mkdir_ok. Qed.

(** C11 A rename is correct: on a server that has the directory cached and the partition
    of the new name, the rename handler, given the partition where the old name is
    listed, returns 0 when the new name is free; afterwards the directory lists the
    file under the new name, not under the old one, and everything else as before,
    whether the two partitions are the same or not. *)
Theorem rename_correct {W} {P : PvfsOps W} {V : PvfsView W} {L : PvfsSpec W} {F : PvfsFiles W} {R : BucketRpc W}
  (self : Z) (fuel : nat) (cr : PVFS_credentials) (s : server) (w : W) (p : PVFS_object_ref) (a : positive)
  (d : skye_directory) (src dst : string) (j hs : Z) (ess : list (string * Z)) (h : Z)
  (Hsv : serving s w p a d) (Hsi : simple dst) (Hln : (String.length dst < 256)%nat) (Hh : here s d dst)
  (Hos : owner (bitmap (mapping d)) (name_hash src) j) (Hds : part_dir w (Pvfs.handle p) j hs ess)
  (Hsrc : assoc src ess = Some h) (Hno : forall k, ~ listed w (Pvfs.handle p) (mapping d) dst k)
  (Hroom : forall i hp es, owner (bitmap (mapping d)) (name_hash dst) i -> part_dir w (Pvfs.handle p) i hp es ->
     Z.of_nat (length es) + 1 < 2 ^ 30) :
  exists s' w' d', skye_rpc_rename_1_svc self fuel cr src (mkRef hs (Pvfs.fs_id p)) dst p (s, w)
      = Ret (mkLookup 0 U_none, (s', w')) /\
    mapping d' = mapping d /\ serving s' w' p a d' /\ conn s' = conn s /\
    forall n k, listed w' (Pvfs.handle p) (mapping d) n k <->
      n = dst /\ k = h \/ n <> src /\ listed w (Pvfs.handle p) (mapping d) n k.
Proof. by eapply rename_ok. Qed.

Lemma small_hello : part_dir MemFs.small_fs 1 0 2 [("hello", 3)%string].
Proof. exists [("p00000", 2)%string]. by repeat split. Qed.

Lemma small_listed_file h : listed MemFs.small_fs 1 small_mapping "hello" h -> h = 3.
Proof.
  intros (i & hp & es & Ho & Hd & Ha). destruct (small_part i hp es (proj1 Ho) Hd) as (_ & _ & ->). by injection Ha.
Qed.

Lemma remove_correct_witness :
  exists s' w', skye_rpc_remove_1_svc 9 10 (mkCreds 0 0) (mkRef 1 7) "hello" (small_server, MemFs.small_fs)
      = Ret (mkLookup 0 U_none, (s', w')) /\ forall h, ~ listed w' 1 small_mapping "hello" h.
Proof.
  destruct (remove_correct (W := MemFs.mem) 9 10 (mkCreds 0 0) small_server MemFs.small_fs (mkRef 1 7) 1 small_dir
    "hello" small_serving) as (r & s' & w' & d' & E & _ & _ & _ & Hr & Hl).
  - unfold name_ok. cbn. lia.
  - reflexivity.
  - apply small_here. unfold name_ok. cbn. lia.
  - intros h Hh. rewrite (small_listed_file h Hh). reflexivity.
  - destruct Hr as [[_ ->]|[Hno _]].
    + exists s', w'. split; [exact E|]. intros h Hh. apply Hl in Hh as [Hne _]. by apply Hne.
    + exfalso. apply (Hno 3). exists 0, 2, [("hello", 3)%string].
      split; [apply single_owner, small_mapping_ok|]. split; [exact small_hello|reflexivity].
Defined.

Lemma small_mds : mds_known (W := MemFs.mem) small_server.
Proof.
  intros w ref sv w' Hw E. destruct (one_server_mds ref w Hw) as (w2 & E2 & _). change (conn small_server) with MemFs.one_server in E. rewrite E2 in E.
  injection E as <- <-. cbn. lia.
Qed.

Lemma mkdir_correct_witness :
  exists h s' w', skye_rpc_mkdir_1_svc 9 10 (mkCreds 0 0) (mkRef 1 7) "sub" 511 (small_server, MemFs.small_fs)
      = Ret (mkLookup 0 (U_ref (mkRef h 7)), (s', w')) /\ listed w' 1 small_mapping "sub" h /\ placed w' h small_mapping.
Proof.
  destruct (mkdir_correct (W := MemFs.mem) 9 10 (mkCreds 0 0) small_server MemFs.small_fs (mkRef 1 7) 1 small_dir
    "sub" 511 (fun _ _ => 0%nat) 1 one_server_spreads small_mds) as (r & s' & w' & d' & E & _ & _ & _ & Hr).
  - lia.
  - exact small_serving.
  - reflexivity.
  - cbn. lia.
  - apply small_here. unfold name_ok. cbn. lia.
  - intros i hp es Ho Hd. assert (Hx := small_room "sub" i hp es Ho Hd). unfold SPLIT_THRESHOLD in Hx. lia.
  - destruct Hr as [(h & Hl & _)|(_ & h & -> & _ & Hl & Hp)]; [destruct (small_unlisted "sub" h ltac:(discriminate) Hl)|].
    exists h, s', w'. split; [exact E|]. split; [apply Hl; left; by split|].
    by destruct (Hp 0 1 small_mapping ltac:(lia) ltac:(lia) eq_refl).
Defined.

Lemma rename_correct_witness :
  exists s' w', skye_rpc_rename_1_svc 9 10 (mkCreds 0 0) "hello" (mkRef 2 7) "bye" (mkRef 1 7) (small_server, MemFs.small_fs)
      = Ret (mkLookup 0 U_none, (s', w')) /\ listed w' 1 small_mapping "bye" 3.
Proof.
  destruct (rename_correct (W := MemFs.mem) 9 10 (mkCreds 0 0) small_server MemFs.small_fs (mkRef 1 7) 1 small_dir
    "hello" "bye" 0 2 [("hello", 3)%string] 3 small_serving) as (s' & w' & d' & E & _ & _ & _ & Hl).
  - reflexivity.
  - cbn. lia.
  - apply small_here. unfold name_ok. cbn. lia.
  - apply single_owner, small_mapping_ok.
  - exact small_hello.
  - reflexivity.
  - intros k. apply small_unlisted. discriminate.
  - intros i hp es Ho Hd. assert (Hx := small_room "bye" i hp es Ho Hd). unfold SPLIT_THRESHOLD in Hx. lia.
  - exists s', w'. split; [exact E|]. apply Hl. left. by split.
Defined.

End ChangeProperties.
