(* ===== verification/Cluster.v ===== *)
(** * Servers and clients together

    A cluster is the servers of an installation and the PVFS they share; an RPC runs
    the handler of the server it is sent to.  The handlers of server/handlers.c satisfy
    the interface [Informed] that the client's retry loop is proved against, so a
    client that asks an idle cluster for a name gets an answer. *)

From S2P Require Import Prelude Sha GigaIndex Names Utlist Pvfs Rpc.
From S2P Require Import Connection MemFs ServerCache Split Handlers Balance Client Routing.

#[local] Open Scope Z_scope.

Section Cluster.
Import Pvfs Rpc Giga Tree Server Cache Split Handlers.
Context {V : Type} `{PvfsOps V} `{BucketRpc V}.

(** The servers by number, and the file system. *)
Record cluster : Type := mkCluster { servers : gmap Z server; pvfs : V }.

(** A request to server [k]: the RPC fails when the server is down or its handler does not
    return, that is, it crashes, waits for a lock or needs more steps than it is given.  Such a
    server is not asked again. *)
Definition rpc_to (self : Z) (fuel : nat) (q : request) (k : Z) (c : cluster)
  : clnt_stat * skye_lookup * cluster :=
  match servers c !! k with
  | None => (RPC_FAILED, mkLookup 0 U_none, c)
  | Some s =>
      match serve self fuel q (s, pvfs c) with
      | Ret (r, (s', w)) => (RPC_SUCCESS, r, mkCluster (<[k := s']> (servers c)) w)
      | Crash _ => (RPC_FAILED, mkLookup 0 U_none, mkCluster (delete k (servers c)) (pvfs c))
      end
  end.

(** Directory [p], whose partition 0 is on server [z] of [n], is cached on every
    server and not being split; a server's mapping has only known partitions and all
    of its own. *)
Definition settled_directory (p : PVFS_object_ref) (z n : Z) (known : Z -> bool) (c : cluster) : Prop :=
  forall k s, servers c !! k = Some s ->
    Conn.servernum (Conn.opts (conn s)) = k /\ 0 < flow_sem s /\
    exists a d, readable s p a d /\ wf_mapping (mapping d) /\ zeroth_server (mapping d) = z /\
      server_count (mapping d) = n /\
      (forall i, has (bitmap (mapping d)) i = true -> known i = true) /\
      (forall i, known i = true -> server_of z n i = k -> has (bitmap (mapping d)) i = true) /\
      splitting_index d = -1.

(** The codes that the PVFS calls of the handlers return. *)
Inductive returned (e : Z) : Prop :=
| lookup_returned fs n p c w r w' : PVFS_sys_ref_lookup fs n p c w = (e, r, w') -> returned e
| create_returned n p a c w r w' : PVFS_sys_create n p a c w = (e, r, w') -> returned e
| mkdir_returned n p a c w r w' : PVFS_sys_mkdir n p a c w = (e, r, w') -> returned e
| remove_returned n p c w w' : PVFS_sys_remove n p c w = (e, w') -> returned e
| rename_returned n p n' q c w w' : PVFS_sys_rename n p n' q c w = (e, w') -> returned e
| readdir_returned p t k c w rd w' : PVFS_sys_readdir p t k c w = (e, rd, w') -> returned e.

(** PVFS, and the servers that are asked to remove a partition, do not themselves ask their
    callers to try again. *)
Definition never_eagain : Prop :=
  (forall e, returned e -> PVFS_get_errno_mapping e <> EAGAIN) /\
  (forall c p i k w st ret w', skye_rpc_bucket_remove_1 c p i k w = (st, ret, w') -> ret <> - EAGAIN).

Hypothesis Hne : never_eagain.

Definition any_crash (c : crash) : Prop := True.

Lemma not_eagain e : returned e -> -1 * PVFS_get_errno_mapping e <> - EAGAIN.
Proof. intros He. assert (H1 := proj1 Hne e He). lia. Qed.

(** A computation whose every answer is not -EAGAIN. *)
Definition decides (m : prog (server * V) skye_lookup) : Prop :=
  forall s, wp any_crash m (fun r _ => errnum r <> - EAGAIN) s.

Lemma decides_ret r : errnum r <> - EAGAIN -> decides (mret r).
Proof. intros Hr s. by apply wp_ret. Qed.

Lemma decides_bind {A} (m : prog (server * V) A) k : (forall x, decides (k x)) -> decides (m ≫= k).
Proof.
  intros Hk s. apply wp_bind. unfold wp. destruct (m s) as [[x s']|]; [apply Hk|done].
Qed.

Lemma decides_tail {A} (m : prog (server * V) skye_lookup) (k : prog (server * V) A) :
  decides m -> decides (r ← m; _ ← k; mret r).
Proof.
  intros Hm s. apply wp_bind. eapply wp_conseq; [apply Hm|]. intros r s1 Hr. apply wp_bind.
  unfold wp. by destruct (k s1) as [[x s2]|].
Qed.

Lemma decides_tail2 {A B} (m : prog (server * V) skye_lookup) (k : prog (server * V) A) (k' : prog (server * V) B) :
  decides m -> decides (r ← m; _ ← k; _ ← k'; mret r).
Proof.
  intros Hm s. apply wp_bind. eapply wp_conseq; [apply Hm|]. intros r s1 Hr. apply wp_bind.
  unfold wp. destruct (k s1) as [[x s2]|]; [|done]. apply wp_bind. unfold wp.
  by destruct (k' s2) as [[y s3]|].
Qed.

Lemma decides_sys {A} (f : V -> A * V) k :
  (forall x w w', f w = (x, w') -> decides (k x)) -> decides (sys f ≫= k).
Proof.
  intros Hk s. apply wp_bind, wp_sys. intros x w E. by eapply Hk.
Qed.

Lemma wp_any_sys {A} (f : V -> A * V) (Q : A -> server * V -> Prop) s :
  (forall x w, Q x (s.1, w)) -> wp any_crash (sys f) Q s.
Proof. intros HQ. apply wp_sys. auto. Qed.

(** Entering the bucket of a name that lives here. *)
Lemma wp_enter_here c s a d name ref w :
  here s d name ->
  wp any_crash (enter_bucket c a name ref true)
    (fun x _ => x.1.1 = 0) (reading s a d, w).
Proof.
  intros (i & E1 & E2 & Hsp). unfold enter_bucket. apply wp_bind. eapply wp_Ret; [apply reading_deref|].
  apply wp_bind, wp_lift. cbn [mapping with_reader set_rwlock set_refcount]. rewrite E1.
  apply wp_bind, wp_bind, wp_lift. rewrite E2. apply wp_bind, wp_bind, wp_getl, wp_ret, wp_ret.
  cbn [fst conn reading set_heap]. rewrite Z.eqb_refl. cbn [negb].
  cbn [splitting_index with_reader set_rwlock set_refcount].
  destruct (Z.eqb_spec i (splitting_index d)); [done|]. apply wp_bind. unfold wp.
  destruct (get_partition_handle _ _ _ _) as [[h s']|]; done.
Qed.

Lemma decides_after_enter c s a d name ref w (k : Z * PVFS_object_ref * option giga_mapping_t -> prog (server * V) skye_lookup) :
  here s d name -> (forall ref' bm, decides (k (0, ref', bm))) ->
  wp any_crash (enter_bucket c a name ref true ≫= k) (fun r _ => errnum r <> - EAGAIN) (reading s a d, w).
Proof.
  intros Hh Hk. apply wp_bind. eapply wp_conseq; [by apply wp_enter_here|]. intros [[rc ref'] bm] s' E.
  cbn in E. subst rc. apply Hk.
Qed.

(** What [pvfs_mkdir_server] returns. *)
Lemma wp_mkdir_server fuel creds p n attr sv s :
  wp any_crash (pvfs_mkdir_server fuel creds p n attr sv) (fun x _ => x.1 <> - EAGAIN) s.
Proof.
  unfold pvfs_mkdir_server. apply wp_bind.
  apply wp_conseq with (Q := fun x _ => match x with inl rc => rc <> - EAGAIN | inr _ => True end).
  2: { intros [rc|ref] s' Hx; by apply wp_ret. }
  revert s. induction fuel as [|fuel IH]; intros s; [done|]. cbn [mkdir_until].
  apply wp_bind, wp_sys. intros [rc ref] w E. cbv beta iota. case_match.
  { apply wp_ret. apply not_eagain. eapply mkdir_returned, E. }
  apply wp_bind, wp_getl, wp_bind. unfold wp. destruct (in_world _ _) as [[on s1]|]; [|done].
  destruct (on =? sv); [done|]. apply wp_bind, wp_sys. intros rc' w' E'. case_match; [|apply IH].
  apply wp_ret. apply not_eagain. eapply remove_returned, E'.
Qed.

(** Once the partition of the name is here, no handler answers -EAGAIN. *)

Section Local.
Variables (self : Z) (fuel : nat) (c : PVFS_credentials) (p : PVFS_object_ref) (name : string).
Variables (s : server) (a : positive) (d : skye_directory) (w : V).
Hypotheses (Hr : readable s p a d) (Hf : 0 < flow_sem s) (Hh : here s d name).

Let s1 := set_flow_sem (flow_sem s - 1) s.
#[local] Abbreviation answers m := (wp any_crash m (fun r _ => errnum r <> - EAGAIN) (s, w)).

Lemma here_s1 : here s1 d name.
Proof. exact Hh. Qed.

Lemma lookup_decides : answers (skye_rpc_lookup_1_svc self fuel c p name).
Proof.
  unfold skye_rpc_lookup_1_svc. unfold wp at 1. rewrite (handler_head self fuel _ s p a d w Hf Hr).
  cbv beta iota. fold s1. destruct here_s1 as (i & E1 & E2 & Hsp).
  apply wp_bind. eapply wp_Ret; [apply reading_deref|]. cbn [mapping with_reader set_rwlock set_refcount].
  apply wp_bind, wp_lift. rewrite E1. apply wp_bind, wp_lift. rewrite E2.
  apply wp_bind. eapply wp_Ret; [apply servernum_run|]. cbn [fst conn reading set_heap]. rewrite Z.eqb_refl.
  cbn [negb]. apply decides_tail2. apply decides_bind. intros h. apply decides_bind. intros fs.
  apply decides_sys. intros [ret ref] w1 w2 El. apply decides_bind. intros d1. case_match.
  + apply decides_bind. intros j. apply decides_sys. intros [ret' ref'] w3 w4 El'.
    apply decides_ret, not_eagain. eapply lookup_returned, El'.
  + apply decides_ret, not_eagain. eapply lookup_returned, El.
Qed.

Lemma partition_decides : answers (skye_rpc_partition_1_svc self fuel c p name).
Proof.
  unfold skye_rpc_partition_1_svc. unfold wp at 1. rewrite (handler_head self fuel _ s p a d w Hf Hr).
  cbv beta iota. fold s1. destruct here_s1 as (i & E1 & E2 & Hsp).
  apply wp_bind. eapply wp_Ret; [apply reading_deref|]. cbn [mapping with_reader set_rwlock set_refcount].
  apply wp_bind, wp_lift. rewrite E1.
  apply wp_bind. apply wp_conseq with (Q := fun r _ => errnum r <> - EAGAIN).
  2: { intros r s2 Hr2. apply decides_bind. intros _. apply decides_bind. intros _. by apply decides_ret. }
  cbn [partition_from]. apply wp_bind. eapply wp_Ret; [apply reading_deref|].
  cbn [mapping with_reader set_rwlock set_refcount splitting_index].
  apply wp_bind, wp_lift. rewrite E2. apply wp_bind. eapply wp_Ret; [apply servernum_run|].
  cbn [fst conn reading set_heap]. rewrite Z.eqb_refl. cbn [negb].
  apply decides_bind. intros fs. apply decides_sys. intros [ret ref] w1 w2 El. case_match.
  + destruct (Z.eqb_spec i (splitting_index d)); [done|]. rewrite andb_false_r. apply decides_ret, not_eagain.
    eapply lookup_returned, El.
  + apply decides_sys. intros [ret' ref'] w3 w4 El'. apply decides_ret, not_eagain.
    eapply lookup_returned, El'.
Qed.

Lemma create_decides mode : answers (skye_rpc_create_1_svc self fuel c p name mode).
Proof.
  unfold skye_rpc_create_1_svc. apply wp_bind, wp_any_sys. intros t w1. unfold wp at 1.
  rewrite (handler_head self fuel _ s p a d w1 Hf Hr). cbv beta iota. fold s1.
  apply decides_after_enter; [apply here_s1|]. intros ref bm. cbn [Z.ltb Z.compare].
  apply decides_bind. intros now. apply decides_sys. intros [rc ref'] w2 w3 Ec. case_match.
  + apply decides_bind. intros _. apply decides_bind. intros _. case_match; [by apply decides_ret|].
    apply decides_ret, not_eagain. eapply create_returned, Ec.
  + do 4 (apply decides_bind; intros _). by apply decides_ret.
Qed.

Lemma mkdir_decides mode : answers (skye_rpc_mkdir_1_svc self fuel c p name mode).
Proof.
  unfold skye_rpc_mkdir_1_svc. unfold wp at 1. rewrite (handler_head self fuel _ s p a d w Hf Hr).
  cbv beta iota. fold s1. apply decides_after_enter; [apply here_s1|]. intros ref bm. cbn [Z.ltb Z.compare].
  apply decides_sys. intros [rc ref'] w1 w2 Em. case_match.
  + do 2 (apply decides_bind; intros _). apply decides_ret, not_eagain. eapply mkdir_returned, Em.
  + do 2 (apply decides_bind; intros ?). intros s2. apply wp_bind.
    eapply wp_conseq; [apply wp_mkdir_server|]. intros [rc' ref2] s3 Hrc. cbn in Hrc.
    do 2 (apply decides_bind; intros _). by apply decides_ret.
Qed.

Lemma rename_decides src sp : answers (skye_rpc_rename_1_svc self fuel c src sp name p).
Proof.
  unfold skye_rpc_rename_1_svc. unfold wp at 1. rewrite (handler_head self fuel _ s p a d w Hf Hr).
  cbv beta iota. fold s1. apply decides_after_enter; [apply here_s1|]. intros ref bm. cbn [Z.ltb Z.compare].
  apply decides_sys. intros rc w1 w2 Er. do 2 (apply decides_bind; intros _). apply decides_ret, not_eagain.
  eapply rename_returned, Er.
Qed.

(** The answers of the loops that remove the partitions of a directory. *)
Definition spares {A} (err : A -> Z) (m : prog (server * V) A) : Prop :=
  forall s, wp any_crash m (fun x _ => err x <> - EAGAIN) s.

Lemma spares_bind {A B} (err : B -> Z) (m : prog (server * V) A) k : (forall x, spares err (k x)) -> spares err (m ≫= k).
Proof. intros Hk s0. apply wp_bind. unfold wp. destruct (m s0) as [[x s']|]; [apply Hk|done]. Qed.

Lemma spares_then {A B} (e1 : A -> Z) (e2 : B -> Z) (m : prog (server * V) A) k :
  spares e1 m -> (forall x, e1 x <> - EAGAIN -> spares e2 (k x)) -> spares e2 (m ≫= k).
Proof. intros Hm Hk s0. apply wp_bind. eapply wp_conseq; [apply Hm|]. intros x s' Hx. by apply Hk. Qed.

Lemma spares_sys {A B} (err : B -> Z) (g : V -> A * V) k :
  (forall x w w', g w = (x, w') -> spares err (k x)) -> spares err (sys g ≫= k).
Proof. intros Hk s0. apply wp_bind, wp_sys. intros x w' E. by eapply Hk. Qed.

Lemma spares_ret {A} (err : A -> Z) x : err x <> - EAGAIN -> spares err (mret x).
Proof. intros Hx s0. by apply wp_ret. Qed.

Lemma spares_remove_bucket b i : spares id (remove_bucket c b i : prog (server * V) Z).
Proof.
  unfold remove_bucket. apply spares_bind. intros d0. apply spares_sys. intros rc w1 w2 E. case_match.
  - apply spares_ret, not_eagain. eapply remove_returned, E.
  - do 3 (apply spares_bind; intros ?). by apply spares_ret.
Qed.

Lemma spares_remove_entries b l : spares id (remove_entries c b l : prog (server * V) Z).
Proof.
  induction l as [|e l IH]; cbn [remove_entries]; [by apply spares_ret|]. apply spares_bind. intros i.
  case_match; [done|]. do 3 (apply spares_bind; intros ?). eapply (spares_then id).
  - case_match; [apply spares_remove_bucket|]. do 2 (apply spares_bind; intros ?). case_match; [|by intros s0].
    apply spares_sys. intros [st ret] w1 w2 E. apply spares_ret. destruct st; [|done]. by eapply (proj2 Hne).
  - intros ret Hret. case_match; [by apply spares_ret|done].
Qed.

Lemma spares_remove_batches b k : forall t, spares id (remove_batches k c b t : prog (server * V) Z).
Proof.
  induction k as [|k IH]; intros t; cbn [remove_batches]; [by intros s0|]. apply spares_bind. intros d0.
  apply spares_sys. intros [ret rd] w1 w2 E. case_match; [apply spares_ret, not_eagain; eapply readdir_returned, E|].
  eapply (spares_then id); [apply spares_remove_entries|]. intros rc Hrc. case_match; [by apply spares_ret|].
  case_match; [done|by apply spares_ret].
Qed.

Lemma spares_remove_directory t b nm : spares snd (remove_directory self fuel c t b nm : prog (server * V) _).
Proof.
  unfold remove_directory, remove_all_buckets. do 2 (apply spares_bind; intros ?).
  eapply (spares_then id); [apply spares_remove_batches|]. intros rc Hrc. case_match; [by apply spares_ret|].
  apply spares_bind. intros d0. apply spares_sys. intros rc1 w1 w2 E1.
  case_match; [apply spares_ret, not_eagain; eapply remove_returned, E1|]. apply spares_sys. intros rc2 w3 w4 E2.
  apply spares_bind. intros _. apply spares_ret. cbn [snd]. case_match; [|done]. apply not_eagain. eapply remove_returned, E2.
Qed.

Lemma remove_decides : answers (skye_rpc_remove_1_svc self fuel c p name).
Proof.
  unfold skye_rpc_remove_1_svc. unfold wp at 1. rewrite (handler_head self fuel _ s p a d w Hf Hr).
  cbv beta iota. fold s1. apply decides_after_enter; [apply here_s1|]. intros ref bm. cbn [Z.ltb Z.compare].
  eapply (spares_then (fun x => errnum x.2) errnum).
  - apply spares_bind. intros fs. apply spares_sys. intros [rc target] w1 w2 El.
    case_match; [apply spares_ret, not_eagain; eapply lookup_returned, El|]. apply spares_bind. intros is_dir. case_match.
    + apply spares_bind. intros _. eapply (spares_then snd); [apply spares_remove_directory|]. intros [held err] He. by apply spares_ret.
    + apply spares_sys. intros rc' w3 w4 E. apply spares_ret, not_eagain. eapply remove_returned, E.
  - intros [held res] Hres. do 2 (apply spares_bind; intros _). by apply spares_ret.
Qed.

End Local.

Lemma serve_decides self fuel q p name s a d w :
  routed q = Some (p, name) -> readable s p a d -> 0 < flow_sem s -> here s d name ->
  wp any_crash (serve self fuel q) (fun r _ => errnum r <> - EAGAIN) (s, w).
Proof.
  intros Hq Hr Hf Hh. destruct q; cbn in Hq; try discriminate; injection Hq as -> ->; cbn [serve].
  - by apply lookup_decides with a d.
  - by apply partition_decides with a d.
  - by apply create_decides with a d.
  - by apply mkdir_decides with a d.
  - by apply rename_decides with a d.
  - by apply remove_decides with a d.
Qed.

(** A refusal of a server: nothing has changed, and its mapping sends the name elsewhere. *)
Lemma handler_refuses self fuel q p name z n known k c r c' :
  0 <= z < 2 ^ 30 -> name_ok name -> routed q = Some (p, name) -> settled_directory p z n known c ->
  rpc_to self fuel q k c = (RPC_SUCCESS, r, c') -> errnum r = - EAGAIN ->
  servers c' = servers c /\ exists m, lookup_u r = U_bitmap m /\ wf_mapping m /\ zeroth_server m = z /\ server_count m = n /\
    (forall i, has (bitmap m) i = true -> known i = true) /\
    (forall i, known i = true -> server_of z n i = k -> has (bitmap m) i = true) /\
    (forall i, giga_get_index_for_file m name = Ret i -> giga_get_server_for_index m i <> Ret k).
Proof.
  destruct c as [sv w]. intros Hz Hn Hq Hinv Ecall Er. unfold rpc_to in Ecall. cbn [servers pvfs] in Ecall.
  destruct (sv !! k) as [s|] eqn:Ek; [|discriminate].
  destruct (Hinv k s Ek) as (Hk & Hf & a & d & Hr & Hwf & Ez & En & Hsub & Hown & Hsp).
  destruct (index_for_file_owner (mapping d) name Hwf Hn) as (i & Ei & Ho).
  assert (Hib : 0 <= i < 512). { destruct Ho as (Hi & _). split; [by eapply has_nonneg|by apply Hwf]. }
  assert (Es := server_for_index_ok (mapping d) i Hwf ltac:(lia) Hib). rewrite Ez, En in Es.
  destruct (decide (server_of z n i = k)) as [Eh|Ea].
  - exfalso. assert (Hd := serve_decides self fuel q p name s a d w Hq Hr Hf).
    unfold wp in Hd. destruct (serve self fuel q (s, w)) as [[r' [s' w']]|]; [|discriminate].
    injection Ecall as -> _. apply Hd; [|done]. exists i. split; [done|].
    split; [by rewrite Es, Eh, Hk|]. lia.
  - destruct (serve_misrouted self fuel q s p name a d w Hq Hr Hf) as (w' & E & _).
    { exists i, (server_of z n i). rewrite Hk. done. }
    rewrite E in Ecall. injection Ecall as <- <-. split; [cbn [servers]; by apply insert_id|].
    exists (mapping d). split_and!; try done. intros j Ej. rewrite Ei in Ej. injection Ej as <-.
    rewrite Es. congruence.
Qed.

(** The handlers are servers as the client's retry loop expects them. *)
Lemma handlers_informed self fuel q p name z n known :
  0 <= z < 2 ^ 30 -> name_ok name -> routed q = Some (p, name) ->
  Informed (settled_directory p z n known) known z n name (rpc_to self fuel q).
Proof.
  intros Hz Hn Hq. split. intros k c r c' Hinv Ecall Er.
  destruct (handler_refuses self fuel q p name z n known k c r c' Hz Hn Hq Hinv Ecall Er) as [Es Hm]. split; [|exact Hm].
  intros k' s'. rewrite Es. apply Hinv.
Qed.

Lemma refused_servers self fuel q p name z n known c c' :
  0 <= z < 2 ^ 30 -> name_ok name -> routed q = Some (p, name) -> settled_directory p z n known c ->
  refused_to (rpc_to self fuel q) c c' -> settled_directory p z n known c' /\ servers c' = servers c.
Proof.
  intros Hz Hn Hq Hc. induction 1 as [|k c1 r c2 _ [IH Es] E Er]; [done|].
  destruct (handler_refuses self fuel q p name z n known k c1 r c2 Hz Hn Hq IH E Er) as [Es2 _].
  split; [|congruence]. intros k' s'. rewrite Es2. apply IH.
Qed.

End Cluster.

Section ClusterProperties.
Import Pvfs Rpc Giga Tree Client Operations.

(** A server of the directory is down, or its handler does not return. *)
Definition silent {V} `{PvfsOps V} `{BucketRpc V} (self : Z) (fuel : nat) (q : Balance.request) (n : Z) (c : cluster (V := V)) : Prop :=
  exists k, 0 <= k < n /\
    (servers c !! k = None \/ exists s v e, servers c !! k = Some s /\ Balance.serve self fuel q (s, v) = Crash e).


(** A directory of two partitions on two servers, both of which have it cached; the
    file is in the second. *)
Definition split_fs : MemFs.mem :=
  MemFs.mkMem {[ 1 := MemFs.Dir [("p00000", 2)%string; ("p00001", 3)%string]; 2 := MemFs.Dir [];
    3 := MemFs.Dir [("e", 4)%string]; 4 := MemFs.File ]} 5 1000 2.

Definition split_dir : Server.skye_directory :=
  Server.mkDir two_partitions 1 (mkRef 1 7) (-1) Rwlock.unlocked 4 (Some [0; 0; 0; 0]).

Definition server_conn (k : Z) : Conn.conn_state :=
  Conn.mkConn (Conn.mkOptions None 2 k (Some ["a"; "b"]%string) (Some [0; 1])) (Some [Some 0; Some 1]) 7
    (Conn.mkMntent 1 0 [] None) None.

Definition split_server (k : Z) : Server.server :=
  Server.mkServer (server_conn k) {[ 1%positive := split_dir ]} {[ mkRef 1 7 := 1%positive ]} 12 0 ∅ None None.

Definition two_server_cluster : cluster := mkCluster {[ 0 := split_server 0; 1 := split_server 1 ]} split_fs.

Lemma mem_never_eagain : never_eagain (V := MemFs.mem).
Proof.
  assert (Hs : forall e, e ∈ [0; - MemFs.MEM_ENOENT; - MemFs.MEM_ENOTDIR; - MemFs.MEM_EEXIST] ->
    MemFs.errno_of e <> EAGAIN) by (apply list.Forall_forall; by repeat constructor).
  assert (Hwalk : forall path w h e, MemFs.walk w h path = inl e -> e ∈ [0; - MemFs.MEM_ENOENT; - MemFs.MEM_ENOTDIR; - MemFs.MEM_EEXIST]).
  { induction path as [|n path IH]; intros w h e E; [done|]. cbn [MemFs.walk] in E.
    repeat case_match; simplify_eq; [eauto|set_solver|set_solver]. }
  split; [|intros c p i k w st ret w' E; cbn in E; by injection E as <- <- <-].
  intros e He. apply Hs.
  destruct He as [fs n p c w r w' E|n p a c w r w' E|n p a c w r w' E|n p c w w' E|n p n' q c w w' E|p t k c w rd w' E]; cbn in E.
  - unfold MemFs.ref_lookup in E. destruct (MemFs.walk _ _ _) eqn:Ew; simplify_eq; [eauto|set_solver].
  - unfold MemFs.add_entry in E. repeat case_match; simplify_eq; set_solver.
  - unfold MemFs.add_entry in E. repeat case_match; simplify_eq; set_solver.
  - unfold MemFs.remove in E. repeat case_match; simplify_eq; set_solver.
  - unfold MemFs.rename in E. repeat case_match; simplify_eq; set_solver.
  - unfold MemFs.readdir in E. repeat case_match; simplify_eq; set_solver.
Qed.

Lemma split_server_readable k : readable (split_server k) (mkRef 1 7) 1 split_dir.
Proof. split; [reflexivity|reflexivity|cbn; lia|]. exists 0. split; [lia|reflexivity]. Qed.

Lemma two_server_cluster_settled :
  settled_directory (mkRef 1 7) 0 2 (fun i => (i =? 0) || (i =? 1)) two_server_cluster.
Proof.
  assert (Hk : forall k, Conn.servernum (Conn.opts (Server.conn (split_server k))) = k /\ 0 < Server.flow_sem (split_server k) /\
    exists a d, readable (split_server k) (mkRef 1 7) a d /\ wf_mapping (Server.mapping d) /\
      zeroth_server (Server.mapping d) = 0 /\ server_count (Server.mapping d) = 2 /\
      (forall i, has (bitmap (Server.mapping d)) i = true -> (i =? 0) || (i =? 1) = true) /\
      (forall i, (i =? 0) || (i =? 1) = true -> server_of 0 2 i = k -> has (bitmap (Server.mapping d)) i = true) /\
      Server.splitting_index d = -1).
  { intros k. split; [reflexivity|]. split; [reflexivity|]. exists 1%positive, split_dir.
    split; [apply split_server_readable|]. split; [apply wf_mappingb_ok; vm_compute; reflexivity|].
    split; [reflexivity|]. split; [reflexivity|]. cbn [Server.mapping split_dir].
    split; [intros i; by rewrite two_has|]. split; [intros i Hi _; by rewrite two_has|reflexivity]. }
  intros k s Es. cbn [servers two_server_cluster] in Es.
  apply lookup_insert_Some in Es as [[<- <-]|[_ [<- <-]%lookup_singleton_Some]]; apply Hk.
Qed.


End ClusterProperties.
