(* ===== verification/CacheThreads.v ===== *)
(** * The directory cache among threads: server/cache.c, interleaved

    The server has a thread per connection and one for the splits, and the functions of
    cache.c take no lock around the table of directories.  [CacheThreads] is the machine
    of these functions: a step is one access to what the threads share, which is a macro
    of the table, an atomic operation on a reference count, an operation on a lock, or
    the filling of a new bitmap; a schedule says who takes the next step.  The theorems
    are about every schedule.  Alone, a thread does what ServerCache.v says.

    HASH_FIND, HASH_ADD and HASH_DEL are one step each: their own accesses to the buckets
    and chains, which nothing orders in the source either, are not interleaved.  What the
    theorems say therefore holds of executions in which no two macros overlap. *)

From S2P Require Import Prelude GigaIndex Names Utlist Pvfs Connection ServerCache.

#[local] Open Scope Z_scope.

Module CacheThreads.
Import Pvfs Giga Server.

(** Where a thread is; [w] tells a writer from a reader and [a] is the address of the
    directory it is at.  In [fetch]: before HASH_FIND, after it found nothing, before
    fill_bitmap, before the increment.  In cache_fetch: before the lock.  [Hold]: between
    cache_fetch and cache_return.  In cache_return: before the assertion, before the
    decrement, before free.  In cache_destroy: before the first decrement, before HASH_DEL,
    before the last decrement. *)
Inductive pc : Type :=
| Idle
| Find (r : PVFS_object_ref) (w : bool)
| Miss (r : PVFS_object_ref) (w : bool)
| Fill (w : bool) (a : positive)
| Count (w : bool) (a : positive)
| Lock (w : bool) (a : positive)
| Hold (w : bool) (a : positive)
| Check (a : positive)
| Drop (a : positive)
| Free (a : positive)
| Leave (a : positive)
| Unhash (a : positive)
| Last (a : positive).

(** The directories, the elements of the table, the threads, and how many arrays of partition
    handles are allocated: an array is a block of its own, which free(dir) does not free.
    An element that is added comes before older ones with its key. *)
Record cache : Type := mkCache {
  objects : gmap positive skye_directory;
  table : list (PVFS_object_ref * positive);
  pcs : list pc;
  arrays : Z
}.

(** What happens next: a thread calls cache_fetch or cache_fetch_w, goes on, gets a new
    directory initialised, or not because malloc or pthread_rwlock_init failed ([callocd] tells
    whether the array of handles was allocated), or its bitmap read, calls cache_return or cache_destroy,
    or releases the lock of its directory and takes it again. *)
Inductive event : Type :=
| Fetch (t : nat) (r : PVFS_object_ref) (w : bool)
| Go (t : nat)
| Make (t : nat) (m : option giga_mapping_t) (callocd : bool)
| Filled (t : nat) (m : giga_mapping_t)
| Return (t : nat)
| Destroy (t : nat)
| Pause (t : nat) (w : bool).

Definition who (e : event) : nat :=
  match e with Fetch t _ _ | Go t | Make t _ _ | Filled t _ | Return t | Destroy t | Pause t _ => t end.

Definition set_pc (t : nat) (p : pc) (s : cache) : cache := mkCache (objects s) (table s) (<[t := p]> (pcs s)) (arrays s).
Definition set_dir (a : positive) (d : skye_directory) (s : cache) : cache := mkCache (<[a := d]> (objects s)) (table s) (pcs s) (arrays s).

Definition the_dir (s : cache) (a : positive) : outcome skye_directory :=
  match objects s !! a with Some d => Ret d | None => Crash UseAfterFree end.

(** HASH_FIND *)
Fixpoint hash_find (r : PVFS_object_ref) (l : list (PVFS_object_ref * positive)) : option positive :=
  match l with [] => None | (k, a) :: l' => if decide (k = r) then Some a else hash_find r l' end.

(** HASH_DEL takes out the element, not its key. *)
Definition hash_remove (a : positive) (l : list (PVFS_object_ref * positive)) : list (PVFS_object_ref * positive) :=
  filter (fun e => e.2 <> a) l.

(** The new object before its bitmap is read; [callocd] tells whether its partition handles
    were allocated. *)
Definition fresh_directory (r : PVFS_object_ref) (m : giga_mapping_t) (callocd : bool) : skye_directory :=
  mkDir m 1 r (-1) Rwlock.unlocked (MAX_BKTS_PER_SERVER * 2)
    (if callocd then Some (replicate (Z.to_nat (MAX_BKTS_PER_SERVER * 2)) 0) else None).

(** The lock is released by thread [t], which goes to [p]. *)
Definition leave_lock (t : nat) (a : positive) (p : pc) (s : cache) : outcome cache :=
  d ← the_dir s a;
  l ← Rwlock.unlock (Z.of_nat t) (rwlock d);
  Ret (set_pc t p (set_dir a (set_rwlock l d) s)).

(** A decrement and what follows when the count is zero. *)
Definition unref (t : nat) (a : positive) (p : pc) (s : cache) : outcome cache :=
  d ← the_dir s a;
  let n := i32 (refcount d - 1) in
  Ret (set_pc t (if n =? 0 then Free a else p) (set_dir a (set_refcount n d) s)).

(** The next step of thread [t], at [p]. *)
Definition go (t : nat) (p : pc) (s : cache) : outcome cache :=
  match p with
  | Find r w =>
      Ret (set_pc t (match hash_find r (table s) with Some a => Count w a | None => Miss r w end) s)
  | Count w a =>
      d ← the_dir s a;
      Ret (set_pc t (Lock w a) (set_dir a (set_refcount (i32 (refcount d + 1)) d) s))
  | Lock w a =>
      d ← the_dir s a;
      '(_, l) ← (if w then Rwlock.wrlock else Rwlock.rdlock) (Z.of_nat t) (rwlock d);
      Ret (set_pc t (Hold w a) (set_dir a (set_rwlock l d) s))
  | Check a =>
      d ← the_dir s a;
      _ ← c_assert (0 <? refcount d);
      Ret (set_pc t (Drop a) s)
  | Drop a => unref t a Idle s
  | Free a =>
      _ ← the_dir s a;
      Ret (set_pc t Idle (mkCache (delete a (objects s)) (table s) (pcs s) (arrays s)))
  | Leave a =>
      d ← the_dir s a;
      Ret (set_pc t (Unhash a) (set_dir a (set_refcount (i32 (refcount d - 1)) d) s))
  | Unhash a =>
      _ ← the_dir s a;
      Ret (set_pc t (Last a) (mkCache (objects s) (hash_remove a (table s)) (pcs s) (arrays s)))
  | Last a => unref t a Idle s
  | _ => Crash Blocked
  end.

(** The calloc of the handles. *)
Definition add_array (callocd : bool) (s : cache) : cache :=
  mkCache (objects s) (table s) (pcs s) (arrays s + (if callocd then 1 else 0)).

(** A step; an event that does not fit the place of its thread is no step. *)
Definition step (s : cache) (e : event) : outcome cache :=
  match pcs s !! who e with
  | None => Crash Blocked
  | Some p =>
      match e, p with
      | Fetch t r w, Idle => Ret (set_pc t (Find r w) s)
      | Go t, _ => go t p s
      | Make t None callocd, Miss r w => Ret (set_pc t Idle (add_array callocd s))
      | Make t (Some m) callocd, Miss r w =>
          let a := fresh (dom (objects s)) in
          let s := add_array callocd s in
          Ret (set_pc t (Fill w a) (mkCache (<[a := fresh_directory r m callocd]> (objects s)) ((r, a) :: table s) (pcs s) (arrays s)))
      | Filled t m, Fill w a =>
          d ← the_dir s a; Ret (set_pc t (Count w a) (set_dir a (set_mapping m d) s))
      | Return t, Hold w a => leave_lock t a (Check a) s
      | Destroy t, Hold true a =>
          d ← the_dir s a; _ ← c_assert (1 <? refcount d); Ret (set_pc t (Leave a) s)
      | Pause t w', Hold w a => leave_lock t a (Lock w' a) s
      | _, _ => Crash Blocked
      end
  end.

Fixpoint run (s : cache) (es : list event) : outcome cache :=
  match es with [] => Ret s | e :: es' => s ← step s e; run s es' end.

(** A thread between HASH_FIND or HASH_ADD and its increment has no reference yet. *)
Definition pending (a : positive) (p : pc) : bool :=
  match p with Fill _ b | Count _ b => bool_decide (b = a) | _ => false end.

(** A directory is taken out of the table only when no thread is about to count it. *)
Definition settled (s : cache) (e : event) : bool :=
  match e with
  | Go t => match pcs s !! t with Some (Unhash a) => forallb (fun p => negb (pending a p)) (pcs s) | _ => true end
  | _ => true
  end.

Definition started (n : nat) : cache := mkCache ∅ [] (replicate n Idle) 0.

(** The states of schedules whose steps are settled. *)
Inductive reachable (n : nat) : cache -> Prop :=
| reach_start : reachable n (started n)
| reach_step s e s' : reachable n s -> settled s e = true -> step s e = Ret s' -> reachable n s'.

(** A schedule that ends where a step is not settled. *)
Fixpoint run_settled (s : cache) (es : list event) : outcome cache :=
  match es with [] => Ret s | e :: es' => if settled s e then s ← step s e; run_settled s es' else Crash Blocked end.

End CacheThreads.

(** ** The invariant *)

Section Invariant.
Import CacheThreads Pvfs Giga Server.

(** The references of a thread, whether it reads or writes, and what it is about to use. *)
Definition refs (a : positive) (p : pc) : Z :=
  match p with
  | Lock _ b | Hold _ b | Check b | Drop b | Leave b | Last b => if decide (b = a) then 1 else 0
  | _ => 0
  end.
Definition reads (a : positive) (p : pc) : Z := match p with Hold false b => if decide (b = a) then 1 else 0 | _ => 0 end.
Definition writes (a : positive) (p : pc) : bool :=
  match p with Hold true b | Leave b | Unhash b | Last b => bool_decide (b = a) | _ => false end.
Definition at_dir (p : pc) : option positive :=
  match p with
  | Idle | Find _ _ | Miss _ _ => None
  | Fill _ a | Count _ a | Lock _ a | Hold _ a | Check a | Drop a | Free a | Leave a | Unhash a | Last a => Some a
  end.

(** A thread that has the lock or will have it; the one that destroyed the directory has
    left without releasing it. *)
Definition keeps (a : positive) (p : pc) : bool :=
  match p with Lock _ b | Hold _ b | Leave b | Unhash b => bool_decide (b = a) | _ => false end.

(** The threads that need the element in the table. *)
Definition tabled (p : pc) : option positive := match p with Fill _ a | Count _ a | Unhash a => Some a | _ => None end.

Definition in_table (a : positive) (l : list (PVFS_object_ref * positive)) : bool := bool_decide (a ∈ l.*2).

Record inv (n : nat) (s : cache) : Prop := mkInv {
  j_len : length (pcs s) = n;
  j_count : forall a d, objects s !! a = Some d -> refcount d = (if in_table a (table s) then 1 else 0) + sum_of (refs a) (pcs s);
  j_nodup : NoDup (table s).*2;
  j_table : forall r a, (r, a) ∈ table s -> exists d, objects s !! a = Some d /\ handle d = r;
  j_alive : forall t p a, pcs s !! t = Some p -> at_dir p = Some a -> is_Some (objects s !! a);
  j_tabled : forall t p a, pcs s !! t = Some p -> tabled p = Some a -> in_table a (table s) = true;
  j_free : forall t a d, pcs s !! t = Some (Free a) -> objects s !! a = Some d -> refcount d = 0;
  j_once : forall t u a, pcs s !! t = Some (Free a) -> pcs s !! u = Some (Free a) -> t = u;
  j_zero : forall a d, objects s !! a = Some d -> refcount d = 0 -> exists t, pcs s !! t = Some (Free a);
  j_readers : forall a d, objects s !! a = Some d -> Rwlock.readers (rwlock d) = sum_of (reads a) (pcs s);
  j_writer : forall a d, objects s !! a = Some d -> Rwlock.writer (rwlock d) <> None -> Rwlock.readers (rwlock d) = 0;
  j_writes : forall t p a d, pcs s !! t = Some p -> writes a p = true -> objects s !! a = Some d -> Rwlock.writer (rwlock d) = Some (Z.of_nat t);
  j_written : forall a d t, objects s !! a = Some d -> Rwlock.writer (rwlock d) = Some (Z.of_nat t) ->
    exists p, pcs s !! t = Some p /\ (if in_table a (table s) then writes a p else negb (keeps a p)) = true;
  j_out : forall a d, objects s !! a = Some d -> in_table a (table s) = false -> exists t, Rwlock.writer (rwlock d) = Some (Z.of_nat t);
  j_last : forall t a, pcs s !! t = Some (Last a) -> in_table a (table s) = false;
  j_thread : forall a d z, objects s !! a = Some d -> Rwlock.writer (rwlock d) = Some z -> 0 <= z
}.

Lemma refs_range a p : 0 <= refs a p <= 1.
Proof. destruct p; cbn; try lia; destruct (decide _); lia. Qed.

Lemma reads_range a p : 0 <= reads a p <= 1.
Proof. destruct p as [| | | | | |[]| | | | | |]; cbn; try lia; destruct (decide _); lia. Qed.

Lemma cache_inv_start n : inv n (started n).
Proof.
  split; cbn [objects table pcs started]; try done.
  - apply length_replicate.
  - apply NoDup_nil_2.
  - intros r a H. by apply elem_of_nil in H.
  - by intros t p a [-> _]%lookup_replicate.
  - by intros t p a [-> _]%lookup_replicate.
  - by intros t u a [? _]%lookup_replicate.
Qed.

(** What a thread does not use does not count. *)
Lemma refs_other a p : at_dir p <> Some a -> refs a p = 0.
Proof. destruct p; cbn; try done; intros H; rewrite decide_False by congruence; done. Qed.

Lemma reads_other a p : at_dir p <> Some a -> reads a p = 0.
Proof. destruct p as [| | | | | |[]| | | | | |]; cbn; try done; intros H; rewrite decide_False by congruence; done. Qed.

Lemma writes_at a p : writes a p = true -> at_dir p = Some a.
Proof. destruct p as [| | | | | |[]| | | | | |]; cbn; try done; intros H; by apply bool_decide_eq_true in H as ->. Qed.

Lemma keeps_at a p : keeps a p = true -> at_dir p = Some a.
Proof. destruct p; cbn; try done; intros H; by apply bool_decide_eq_true in H as ->. Qed.

Lemma keeps_other a p : at_dir p <> Some a -> negb (keeps a p) = true.
Proof. intros H. destruct (keeps a p) eqn:E; [by apply keeps_at in E|done]. Qed.

Lemma tabled_at a p : tabled p = Some a -> at_dir p = Some a.
Proof. by destruct p. Qed.

(** *** A step of one thread at one directory *)

(** Thread [t] goes from [p] to [p'] and the directory [a] from [d] to [d']. *)
Record moves_at (t : nat) (p p' : pc) (a : positive) (d d' : skye_directory) (listed : bool) : Prop := mkMoves {
  m_at : at_dir p <> None -> at_dir p = Some a;
  m_at' : at_dir p' <> None -> at_dir p' = Some a;
  m_near : at_dir p = Some a \/ tabled p' = Some a;
  m_handle : handle d' = handle d;
  m_count : refcount d' = refcount d - refs a p + refs a p';
  m_tabled : tabled p' = Some a -> listed = true;
  m_nofree : p <> Free a;
  m_nolast : forall b, p' <> Last b;
  m_free : p' = Free a <-> refcount d' = 0;
  m_readers : Rwlock.readers (rwlock d') = Rwlock.readers (rwlock d) - reads a p + reads a p';
  m_excl : Rwlock.writer (rwlock d') <> None -> Rwlock.readers (rwlock d') = 0;
  m_writes : writes a p' = true -> Rwlock.writer (rwlock d') = Some (Z.of_nat t);
  m_writer : Rwlock.writer (rwlock d') = Rwlock.writer (rwlock d) \/
    (Rwlock.writer (rwlock d) = Some (Z.of_nat t) /\ Rwlock.writer (rwlock d') = None /\ listed = true) \/
    (Rwlock.writer (rwlock d) = None /\ Rwlock.writer (rwlock d') = Some (Z.of_nat t));
  m_written : Rwlock.writer (rwlock d') = Some (Z.of_nat t) -> (if listed then writes a p' else negb (keeps a p')) = true
}.

Lemma inv_moves n s t p p' a d d' :
  inv n s -> pcs s !! t = Some p -> objects s !! a = Some d -> moves_at t p p' a d d' (in_table a (table s)) ->
  inv n (mkCache (<[a := d']> (objects s)) (table s) (<[t := p']> (pcs s)) (arrays s)).
Proof.
  intros [J1 J2 J3 J4 J5 J6 J7 J8 J9 J10 J11 J12 J13 J14 J15 J16] Ht Ha [M1 M2 M0 M3 M4 M5 M6 M6l M7 M8 M9 M10 M11 M12].
  assert (Hlt := lookup_lt_Some _ _ _ Ht).
  assert (Hpc : forall u q, <[t := p']> (pcs s) !! u = Some q -> (u = t /\ q = p') \/ (u <> t /\ pcs s !! u = Some q)).
  { intros u q H. apply list_lookup_insert_Some in H as [(-> & -> & _)|[? ?]]; [by left|right; done]. }
  assert (Hother : forall b, b <> a -> at_dir p <> Some b /\ at_dir p' <> Some b).
  { intros b Hb. split; intros E; [assert (H := M1 ltac:(by rewrite E))|assert (H := M2 ltac:(by rewrite E))]; congruence. }
  assert (Hobj : forall b e, <[a := d']> (objects s) !! b = Some e -> (b = a /\ e = d') \/ (b <> a /\ objects s !! b = Some e)).
  { intros b e H. apply lookup_insert_Some in H as [[<- <-]|[? ?]]; [by left|right; done]. }
  assert (Hwt : forall u b q, u <> t -> pcs s !! u = Some q -> writes b q = true -> forall e, objects s !! b = Some e -> Rwlock.writer (rwlock e) = Some (Z.of_nat u))
    by (intros; by eapply J12).
  assert (Hno : forall u, u <> t -> pcs s !! u <> Some (Free a)).
  { intros u Hu Hf. assert (H0 := J7 u a d Hf Ha). assert (Hs := J2 a d Ha).
    assert (Hp := sum_of_lookup (refs a) _ _ _ ltac:(intros; apply refs_range) Ht). assert (Hr := refs_range a p).
    assert (Hl : in_table a (table s) = false) by (destruct (in_table a (table s)); [lia|done]). rewrite Hl in Hs.
    destruct M0 as [M0|M0]; [|by rewrite M5 in Hl]. assert (Hz : refs a p = 0) by lia.
    assert (Hpt : tabled p = Some a).
    { destruct p; cbn in M0, Hz |- *; try done; injection M0 as ->; rewrite ?decide_True in Hz by done; done. }
    assert (H := J6 t p a Ht Hpt). congruence. }
  split; cbn [objects table pcs].
  - by rewrite length_insert.
  - intros b e He. rewrite (sum_of_insert _ _ _ p p' Ht). destruct (Hobj b e He) as [[-> ->]|[Hne He']].
    + rewrite M4, (J2 a d Ha). lia.
    + destruct (Hother b Hne). rewrite !refs_other by done. rewrite (J2 b e He'). lia.
  - done.
  - intros r b Hin. destruct (J4 r b Hin) as (e & He & Hr). destruct (decide (b = a)) as [->|Hne].
    + exists d'. rewrite lookup_insert_eq. split; [done|]. rewrite M3. congruence.
    + exists e. by rewrite lookup_insert_ne.
  - intros u q b Hq Hb. destruct (decide (b = a)) as [->|Hne]; [by rewrite lookup_insert_eq|]. rewrite lookup_insert_ne by done.
    destruct (Hpc u q Hq) as [[-> ->]|[_ Hq']]; [by destruct (Hother b Hne)|by eapply J5].
  - intros u q b Hq Hb. destruct (Hpc u q Hq) as [[-> ->]|[_ Hq']]; [|by eapply J6].
    assert (Hb' := tabled_at _ _ Hb). rewrite M2 in Hb' by (by rewrite Hb'). injection Hb' as <-. by apply M5.
  - intros u b e Hu He. destruct (Hpc u _ Hu) as [[-> <-]|[Hne Hu']], (Hobj b e He) as [[-> ->]|[Hnb He']].
    + by apply M7.
    + by destruct (Hother b Hnb).
    + by destruct (Hno u Hne).
    + by eapply J7.
  - intros u v b Hu Hv. destruct (Hpc u _ Hu) as [[-> <-]|[Hu1 Hu2]], (Hpc v _ Hv) as [[-> Ev]|[Hv1 Hv2]]; try done.
    + assert (Hb := M2 ltac:(done)). injection Hb as ->. by destruct (Hno v Hv1).
    + subst p'. assert (Hb := M2 ltac:(done)). injection Hb as ->. by destruct (Hno u Hu1).
    + by eapply J8.
  - intros b e He Hz. destruct (Hobj b e He) as [[-> ->]|[Hnb He']].
    + exists t. rewrite list_lookup_insert_eq by done. f_equal. by apply M7.
    + destruct (J9 b e He' Hz) as [u Hu]. exists u. rewrite list_lookup_insert_ne; [done|]. intros <-.
      rewrite Ht in Hu. injection Hu as ->. by destruct (Hother b Hnb).
  - intros b e He. rewrite (sum_of_insert _ _ _ p p' Ht). destruct (Hobj b e He) as [[-> ->]|[Hnb He']].
    + rewrite M8, (J10 a d Ha). lia.
    + destruct (Hother b Hnb). rewrite !reads_other by done. rewrite (J10 b e He'). lia.
  - intros b e He. destruct (Hobj b e He) as [[-> ->]|[Hnb He']]; [done|by apply (J11 b)].
  - intros u q b e Hu Hb He. destruct (Hpc u q Hu) as [[-> ->]|[Hu1 Hu2]], (Hobj b e He) as [[-> ->]|[Hnb He']].
    + by apply M10.
    + by destruct (Hother b Hnb) as [_ []]; apply writes_at.
    + assert (H := J12 u q a d Hu2 Hb Ha). destruct M11 as [E|[(E1 & E2 & _)|[E1 E2]]]; [congruence| |congruence].
      rewrite E1 in H. injection H as H. lia.
    + by eapply J12.
  - intros b e u He Hw. destruct (Hobj b e He) as [[-> ->]|[Hnb He']].
    + destruct (decide (u = t)) as [->|Hu].
      * exists p'. rewrite list_lookup_insert_eq by done. split; [done|]. by apply M12.
      * assert (Hwd : Rwlock.writer (rwlock d) = Some (Z.of_nat u)).
        { destruct M11 as [E|[(E1 & E2 & _)|[E1 E2]]]; [congruence|congruence|]. rewrite E2 in Hw. injection Hw as Hw. lia. }
        destruct (J13 a d u Ha Hwd) as (q & Hq & Hc). exists q. by rewrite list_lookup_insert_ne.
    + destruct (J13 b e u He' Hw) as (q & Hq & Hc). destruct (decide (u = t)) as [->|Hu].
      * exists p'. rewrite list_lookup_insert_eq by done. split; [done|]. rewrite Ht in Hq. injection Hq as <-.
        destruct (Hother b Hnb) as [H1 H2]. destruct (in_table b (table s)); [by destruct H1; apply writes_at|by apply keeps_other].
      * exists q. by rewrite list_lookup_insert_ne.
  - intros b e He Hl. destruct (Hobj b e He) as [[-> ->]|[Hnb He']]; [|by apply (J14 b)].
    destruct (J14 a d Ha Hl) as [u Hu]. destruct M11 as [E|[(_ & _ & E)|[_ E]]]; [exists u; congruence|congruence|by exists t].
  - intros u b Hu. destruct (Hpc u _ Hu) as [[_ E]|[_ Hu']]; [by destruct (M6l b)|by apply (J15 u)].
  - intros b e z He Hz. destruct (Hobj b e He) as [[-> ->]|[Hnb He']]; [|by apply (J16 b e)].
    destruct M11 as [E|[(_ & E & _)|[_ E]]]; rewrite E in Hz; [by apply (J16 a d)|done|injection Hz as <-; lia].
Qed.

(** *** Steps that change the table or the heap *)

Lemma pcs_set (l : list pc) t p' u q : <[t := p']> l !! u = Some q -> (u = t /\ q = p') \/ (u <> t /\ l !! u = Some q).
Proof. intros H. apply list_lookup_insert_Some in H as [(-> & -> & _)|[? ?]]; [by left|by right]. Qed.

(** A thread that is at no directory before and after its step. *)
Lemma inv_away n s t p p' : inv n s -> pcs s !! t = Some p -> at_dir p = None -> at_dir p' = None -> inv n (set_pc t p' s).
Proof.
  intros [J1 J2 J3 J4 J5 J6 J7 J8 J9 J10 J11 J12 J13 J14 J15 J16] Ht Hp Hp'. assert (Hlt := lookup_lt_Some _ _ _ Ht).
  assert (Hz : forall a, refs a p = 0 /\ refs a p' = 0 /\ reads a p = 0 /\ reads a p' = 0)
    by (intros a; rewrite !refs_other, !reads_other by congruence; done).
  split; cbn [objects table pcs set_pc]; try done.
  - by rewrite length_insert.
  - intros a d Ha. rewrite (sum_of_insert _ _ _ p p' Ht), (J2 a d Ha). destruct (Hz a) as (H1 & H2 & _). lia.
  - intros u q a Hq Ha. destruct (pcs_set _ _ _ _ _ Hq) as [[-> ->]|[_ Hq']]; [congruence|by eapply J5].
  - intros u q a Hq Ha. destruct (pcs_set _ _ _ _ _ Hq) as [[-> ->]|[_ Hq']]; [apply tabled_at in Ha; congruence|by eapply J6].
  - intros u a d Hq Ha. destruct (pcs_set _ _ _ _ _ Hq) as [[-> <-]|[_ Hq']]; [done|by eapply J7].
  - intros u v a Hu Hv. destruct (pcs_set _ _ _ _ _ Hu) as [[-> <-]|[_ Hu']], (pcs_set _ _ _ _ _ Hv) as [[-> Ev]|[_ Hv']]; try done.
    + by subst p'.
    + by eapply J8.
  - intros a d Ha Hr. destruct (J9 a d Ha Hr) as [u Hu]. exists u. rewrite list_lookup_insert_ne; [done|]. intros <-.
    rewrite Ht in Hu. by injection Hu as ->.
  - intros a d Ha. rewrite (sum_of_insert _ _ _ p p' Ht), (J10 a d Ha). destruct (Hz a) as (_ & _ & H1 & H2). lia.
  - intros u q a d Hq Hw Ha. destruct (pcs_set _ _ _ _ _ Hq) as [[-> ->]|[_ Hq']]; [apply writes_at in Hw; congruence|by eapply J12].
  - intros a d u Ha Hw. destruct (J13 a d u Ha Hw) as (q & Hq & Hc). destruct (decide (u = t)) as [->|Hu].
    + exists p'. rewrite list_lookup_insert_eq by done. split; [done|]. rewrite Ht in Hq. injection Hq as <-.
      destruct (in_table a (table s)); [apply writes_at in Hc; congruence|apply keeps_other; congruence].
    + exists q. by rewrite list_lookup_insert_ne.
  - intros u a Hu. destruct (pcs_set _ _ _ _ _ Hu) as [[_ <-]|[_ Hu']]; [done|by apply (J15 u)].
Qed.

Lemma in_table_cons a r b l : in_table a ((r, b) :: l) = bool_decide (a = b) || in_table a l.
Proof. unfold in_table. rewrite fmap_cons. cbn. apply eq_true_iff_eq. rewrite orb_true_iff, !bool_decide_eq_true. apply elem_of_cons. Qed.

(** A new directory at an address that no thread knows. *)
Lemma inv_make n s t r w a m c k : inv n s -> pcs s !! t = Some (Miss r w) -> objects s !! a = None ->
  inv n (mkCache (<[a := fresh_directory r m c]> (objects s)) ((r, a) :: table s) (<[t := Fill w a]> (pcs s)) k).
Proof.
  intros [J1 J2 J3 J4 J5 J6 J7 J8 J9 J10 J11 J12 J13 J14 J15 J16] Ht Ha. assert (Hlt := lookup_lt_Some _ _ _ Ht).
  assert (Hno : forall u q, pcs s !! u = Some q -> at_dir q <> Some a).
  { intros u q Hq E. destruct (J5 u q a Hq E) as [d Hd]. congruence. }
  assert (Hsum : forall f : positive -> pc -> Z, (forall p, at_dir p <> Some a -> f a p = 0) -> sum_of (f a) (pcs s) = 0).
  { intros f Hf. rewrite (sum_of_all _ _ 0); [lia|]. apply list.Forall_forall. intros q Hq. apply list_elem_of_lookup in Hq as [u Hu].
    apply Hf. by eapply Hno. }
  assert (Hnt : in_table a (table s) = false).
  { apply bool_decide_eq_false. intros H. apply list_elem_of_fmap in H as ([r' b] & -> & H). destruct (J4 r' b H) as (d & Hd & _).
    cbn in Ha. congruence. }
  assert (Hne : forall b e, objects s !! b = Some e -> b <> a) by (intros b e H ->; congruence).
  split; cbn [objects table pcs].
  - by rewrite length_insert.
  - intros b e He. rewrite (sum_of_insert _ _ _ _ _ Ht), in_table_cons. cbn [refs]. apply lookup_insert_Some in He as [[<- <-]|[Hb He]].
    + rewrite bool_decide_eq_true_2 by done. rewrite (Hsum refs (refs_other a)). cbn. lia.
    + rewrite bool_decide_eq_false_2 by done. cbn [orb]. rewrite (J2 b e He). lia.
  - rewrite fmap_cons. cbn. apply list.NoDup_cons. split; [by apply bool_decide_eq_false in Hnt|done].
  - intros r' b H. apply elem_of_cons in H as [[= -> ->]|H]; [eexists; by rewrite lookup_insert_eq|].
    destruct (J4 r' b H) as (e & He & Hr). exists e. rewrite lookup_insert_ne by (intros <-; congruence). done.
  - intros u q b Hq Hb. destruct (decide (b = a)) as [->|Hn]; [by rewrite lookup_insert_eq|]. rewrite lookup_insert_ne by done.
    destruct (pcs_set _ _ _ _ _ Hq) as [[-> ->]|[_ Hq']]; [by injection Hb as <-|by eapply J5].
  - intros u q b Hq Hb. rewrite in_table_cons. destruct (pcs_set _ _ _ _ _ Hq) as [[-> ->]|[_ Hq']].
    + injection Hb as <-. by rewrite bool_decide_eq_true_2.
    + rewrite (J6 u q b Hq' Hb). by rewrite orb_true_r.
  - intros u b e Hq He. destruct (pcs_set _ _ _ _ _ Hq) as [[_ ?]|[_ Hq']]; [done|].
    apply lookup_insert_Some in He as [[<- <-]|[Hb He]]; [by destruct (Hno u _ Hq')|by eapply J7].
  - intros u v b Hu Hv. destruct (pcs_set _ _ _ _ _ Hu) as [[_ ?]|[_ Hu']], (pcs_set _ _ _ _ _ Hv) as [[_ ?]|[_ Hv']]; try done. by eapply J8.
  - intros b e He Hz. apply lookup_insert_Some in He as [[<- <-]|[Hb He]]; [done|]. destruct (J9 b e He Hz) as [u Hu]. exists u.
    rewrite list_lookup_insert_ne; [done|]. intros <-. rewrite Ht in Hu. done.
  - intros b e He. rewrite (sum_of_insert _ _ _ _ _ Ht). cbn [reads]. apply lookup_insert_Some in He as [[<- <-]|[Hb He]].
    + rewrite (Hsum reads (reads_other a)). done.
    + rewrite (J10 b e He). lia.
  - intros b e He Hw. apply lookup_insert_Some in He as [[<- <-]|[Hb He]]; [done|by apply (J11 b)].
  - intros u q b e Hq Hw He. destruct (pcs_set _ _ _ _ _ Hq) as [[-> ->]|[_ Hq']]; [done|].
    apply lookup_insert_Some in He as [[<- <-]|[Hb He]]; [by destruct (Hno u q Hq'); apply writes_at|by eapply J12].
  - intros b e u He Hw. apply lookup_insert_Some in He as [[<- <-]|[Hb He]]; [done|]. destruct (J13 b e u He Hw) as (q & Hq & Hc).
    rewrite in_table_cons, bool_decide_eq_false_2 by done. cbn [orb]. destruct (decide (u = t)) as [->|Hu].
    + rewrite Ht in Hq. injection Hq as <-. exists (Fill w a). rewrite list_lookup_insert_eq by done. split; [done|].
      destruct (in_table b (table s)); [done|]. apply keeps_other. cbn. congruence.
    + exists q. by rewrite list_lookup_insert_ne.
  - intros b e He. rewrite in_table_cons. apply lookup_insert_Some in He as [[<- <-]|[Hb He]]; [by rewrite bool_decide_eq_true_2|].
    rewrite bool_decide_eq_false_2 by done. cbn [orb]. by apply J14.
  - intros u b Hu. destruct (pcs_set _ _ _ _ _ Hu) as [[_ ?]|[_ Hu']]; [done|]. rewrite in_table_cons, (J15 u b Hu'), orb_false_r.
    apply bool_decide_eq_false_2. intros ->. by destruct (Hno u _ Hu').
  - intros b e z He Hz. apply lookup_insert_Some in He as [[<- <-]|[Hb He]]; [done|by apply (J16 b e)].
Qed.

(** The last thread at a directory frees it. *)
Lemma inv_freed n s t a : inv n s -> pcs s !! t = Some (Free a) -> inv n (mkCache (delete a (objects s)) (table s) (<[t := Idle]> (pcs s)) (arrays s)).
Proof.
  intros [J1 J2 J3 J4 J5 J6 J7 J8 J9 J10 J11 J12 J13 J14 J15 J16] Ht. assert (Hlt := lookup_lt_Some _ _ _ Ht).
  destruct (J5 t _ a Ht ltac:(done)) as [d Ha]. assert (Hz := J7 t a d Ht Ha). assert (Hs := J2 a d Ha).
  assert (Hn := sum_of_nonneg (refs a) (pcs s) ltac:(intros; apply refs_range)).
  assert (Hl : in_table a (table s) = false) by (destruct (in_table a (table s)); [lia|done]).
  assert (Hno : forall u q, u <> t -> pcs s !! u = Some q -> at_dir q <> Some a).
  { intros u q Hu Hq E. assert (Hr := sum_of_lookup (refs a) _ _ _ ltac:(intros; apply refs_range) Hq).
    assert (Hr' := refs_range a q). rewrite Hl in Hs.
    destruct (decide (tabled q = Some a)) as [Hq'|Hq']; [rewrite (J6 u q a Hq Hq') in Hl; done|].
    destruct q; cbn in E, Hq', Hr; try done; injection E as ->; rewrite ?decide_True in Hr by done; try lia; try done.
    by assert (H := J8 t u a Ht Hq). }
  split; cbn [objects table pcs].
  - by rewrite length_insert.
  - intros b e [Hb He]%lookup_delete_Some. rewrite (sum_of_insert _ _ _ _ _ Ht). cbn [refs]. rewrite (J2 b e He). lia.
  - done.
  - intros r b H. destruct (J4 r b H) as (e & He & Hr). exists e. rewrite lookup_delete_ne; [done|]. intros <-.
    apply bool_decide_eq_false in Hl. destruct Hl. apply list_elem_of_fmap. by exists (r, a).
  - intros u q b Hq Hb. destruct (pcs_set _ _ _ _ _ Hq) as [[-> ->]|[Hu Hq']]; [done|]. rewrite lookup_delete_ne; [by eapply J5|].
    intros <-. by destruct (Hno u q Hu Hq').
  - intros u q b Hq Hb. destruct (pcs_set _ _ _ _ _ Hq) as [[-> ->]|[Hu Hq']]; [done|by eapply J6].
  - intros u b e Hq [Hb He]%lookup_delete_Some. destruct (pcs_set _ _ _ _ _ Hq) as [[-> ?]|[Hu Hq']]; [done|by eapply J7].
  - intros u v b Hu Hv. destruct (pcs_set _ _ _ _ _ Hu) as [[_ ?]|[_ Hu']], (pcs_set _ _ _ _ _ Hv) as [[_ ?]|[_ Hv']]; try done. by eapply J8.
  - intros b e [Hb He]%lookup_delete_Some Hz'. destruct (J9 b e He Hz') as [u Hu]. exists u. rewrite list_lookup_insert_ne; [done|].
    intros <-. rewrite Ht in Hu. by injection Hu as ->.
  - intros b e [Hb He]%lookup_delete_Some. rewrite (sum_of_insert _ _ _ _ _ Ht). cbn [reads]. rewrite (J10 b e He). lia.
  - intros b e [Hb He]%lookup_delete_Some. by apply (J11 b).
  - intros u q b e Hq Hw [Hb He]%lookup_delete_Some. destruct (pcs_set _ _ _ _ _ Hq) as [[-> ->]|[Hu Hq']]; [done|by eapply J12].
  - intros b e u [Hb He]%lookup_delete_Some Hw. destruct (J13 b e u He Hw) as (q & Hq & Hc). destruct (decide (u = t)) as [->|Hu].
    + rewrite Ht in Hq. injection Hq as <-. exists Idle. rewrite list_lookup_insert_eq by done. split; [done|].
      by destruct (in_table b (table s)).
    + exists q. by rewrite list_lookup_insert_ne.
  - intros b e [Hb He]%lookup_delete_Some. by apply J14.
  - intros u b Hu. destruct (pcs_set _ _ _ _ _ Hu) as [[_ ?]|[_ Hu']]; [done|by apply (J15 u)].
  - intros b e z [Hb He]%lookup_delete_Some. by apply (J16 b).
Qed.

Lemma in_table_remove a b l : in_table b (hash_remove a l) = in_table b l && bool_decide (b <> a).
Proof.
  unfold in_table, hash_remove. apply eq_true_iff_eq. rewrite andb_true_iff, !bool_decide_eq_true, !list_elem_of_fmap. split.
  - intros ([r c] & -> & [Hc Hin]%list_elem_of_filter). split; [by exists (r, c)|done].
  - intros [([r c] & -> & Hin) Hb]. exists (r, c). by rewrite list_elem_of_filter.
Qed.

(** HASH_DEL, when no thread is about to count the directory: the reference of the table
    becomes one of the thread. *)
Lemma inv_unhash n s t a : inv n s -> pcs s !! t = Some (Unhash a) -> Forall (fun p => pending a p = false) (pcs s) ->
  inv n (mkCache (objects s) (hash_remove a (table s)) (<[t := Last a]> (pcs s)) (arrays s)).
Proof.
  intros [J1 J2 J3 J4 J5 J6 J7 J8 J9 J10 J11 J12 J13 J14 J15 J16] Ht Hpend. assert (Hlt := lookup_lt_Some _ _ _ Ht).
  destruct (J5 t _ a Ht ltac:(done)) as [d Ha]. assert (Hl := J6 t _ a Ht ltac:(done)).
  assert (Hwd := J12 t _ a d Ht (bool_decide_eq_true_2 _ eq_refl) Ha).
  assert (Hno : forall u q b, pcs s !! u = Some q -> tabled q = Some b -> u <> t -> b <> a).
  { intros u q b Hq Hb Hu ->. assert (Hp := Forall_lookup_1 _ _ _ _ Hpend Hq).
    destruct q; cbn in Hb, Hp; try done; injection Hb as ->; try by rewrite bool_decide_eq_true_2 in Hp.
    assert (Hwu := J12 u _ a d Hq (bool_decide_eq_true_2 _ eq_refl) Ha). rewrite Hwd in Hwu. injection Hwu. lia. }
  split; cbn [objects table pcs].
  - by rewrite length_insert.
  - intros b e He. rewrite (sum_of_insert _ _ _ _ _ Ht), in_table_remove, (J2 b e He). cbn [refs]. destruct (decide (a = b)) as [<-|Hb].
    + rewrite Hl, bool_decide_eq_false_2 by (by intros []). cbn. lia.
    + rewrite bool_decide_eq_true_2 by done. rewrite andb_true_r. lia.
  - eapply sublist_NoDup; [exact J3|apply fmap_sublist, sublist_filter].
  - intros r b [_ H]%list_elem_of_filter. by apply J4.
  - intros u q b Hq Hb. destruct (pcs_set _ _ _ _ _ Hq) as [[-> ->]|[Hu Hq']]; [by injection Hb as <-|by eapply J5].
  - intros u q b Hq Hb. destruct (pcs_set _ _ _ _ _ Hq) as [[-> ->]|[Hu Hq']]; [done|].
    rewrite in_table_remove, (J6 u q b Hq' Hb), bool_decide_eq_true_2; [done|by eapply Hno].
  - intros u b e Hq He. destruct (pcs_set _ _ _ _ _ Hq) as [[-> ?]|[Hu Hq']]; [done|by eapply J7].
  - intros u v b Hu Hv. destruct (pcs_set _ _ _ _ _ Hu) as [[_ ?]|[_ Hu']], (pcs_set _ _ _ _ _ Hv) as [[_ ?]|[_ Hv']]; try done. by eapply J8.
  - intros b e He Hz. destruct (J9 b e He Hz) as [u Hu]. exists u. rewrite list_lookup_insert_ne; [done|].
    intros <-. by rewrite Ht in Hu.
  - intros b e He. rewrite (sum_of_insert _ _ _ _ _ Ht). cbn [reads]. rewrite (J10 b e He). lia.
  - done.
  - intros u q b e Hq Hw He. destruct (pcs_set _ _ _ _ _ Hq) as [[-> ->]|[Hu Hq']]; [|by eapply J12]. by apply (J12 t (Unhash a) b).
  - intros b e u He Hw. destruct (J13 b e u He Hw) as (q & Hq & Hc). rewrite in_table_remove. destruct (decide (b = a)) as [->|Hb].
    + rewrite bool_decide_eq_false_2, andb_false_r by (by intros []). exists (Last a). assert (e = d) as -> by congruence.
      rewrite Hwd in Hw. injection Hw as Hw. apply Nat2Z.inj in Hw as <-. by rewrite list_lookup_insert_eq.
    + rewrite bool_decide_eq_true_2, andb_true_r by done. destruct (decide (u = t)) as [->|Hu].
      * exists (Last a). rewrite list_lookup_insert_eq by done. rewrite Ht in Hq. injection Hq as <-.
        split; [done|]. by destruct (in_table b (table s)).
      * exists q. by rewrite list_lookup_insert_ne.
  - intros b e He Hb. rewrite in_table_remove in Hb. destruct (decide (b = a)) as [->|Hne].
    + exists t. congruence.
    + rewrite bool_decide_eq_true_2, andb_true_r in Hb by done. by apply (J14 b).
  - intros u b Hu. rewrite in_table_remove. destruct (pcs_set _ _ _ _ _ Hu) as [[_ [= ->]]|[_ Hu']]; [|by rewrite (J15 u b Hu')].
    by rewrite bool_decide_eq_false_2, andb_false_r by (by intros []).
  - done.
Qed.

(** *** Every step *)

Context (n : nat) (Hn : Z.of_nat n + 1 < 2 ^ 31).

Lemma inv_at s t p a : inv n s -> pcs s !! t = Some p -> at_dir p = Some a ->
  exists d, objects s !! a = Some d /\ refs a p + (if in_table a (table s) then 1 else 0) <= refcount d <= Z.of_nat n + 1.
Proof.
  intros Hi Ht Hp. destruct (j_alive _ _ Hi t p a Ht Hp) as [d Hd]. exists d. split; [done|]. rewrite (j_count _ _ Hi a d Hd).
  assert (H1 := sum_of_lookup (refs a) _ _ _ ltac:(intros; apply refs_range) Ht).
  assert (H2 := sum_of_le (refs a) (pcs s) 1 ltac:(intros; apply refs_range)). rewrite (j_len _ _ Hi) in H2.
  destruct (in_table a (table s)); lia.
Qed.

(** The thread that holds a directory for writing holds it in the table. *)
Lemma writer_listed s t p a d : inv n s -> pcs s !! t = Some p -> objects s !! a = Some d -> writes a p = true -> keeps a p = true ->
  in_table a (table s) = true /\ Rwlock.writer (rwlock d) = Some (Z.of_nat t) /\ Rwlock.readers (rwlock d) = 0.
Proof.
  intros Hi Ht Hd Hw Hk. assert (Hwt := j_writes _ _ Hi t p a d Ht Hw Hd). split; [|split; [done|]].
  - destruct (j_written _ _ Hi a d t Hd Hwt) as (q & Hq & Hc). rewrite Ht in Hq. injection Hq as <-.
    destruct (in_table a (table s)); [done|]. by rewrite Hk in Hc.
  - apply (j_writer _ _ Hi a d Hd). by rewrite Hwt.
Qed.

Lemma reader_listed s t a d : inv n s -> pcs s !! t = Some (Hold false a) -> objects s !! a = Some d ->
  in_table a (table s) = true /\ Rwlock.writer (rwlock d) = None /\ 0 < Rwlock.readers (rwlock d).
Proof.
  intros Hi Ht Hd. assert (Hr := sum_of_lookup (reads a) _ _ _ ltac:(intros; apply reads_range) Ht).
  cbn in Hr. rewrite decide_True in Hr by done. rewrite <- (j_readers _ _ Hi a d Hd) in Hr.
  assert (Hw : Rwlock.writer (rwlock d) = None).
  { destruct (Rwlock.writer (rwlock d)) eqn:E; [|done]. assert (H := j_writer _ _ Hi a d Hd ltac:(by rewrite E)). lia. }
  split; [|split; [done|lia]]. destruct (in_table a (table s)) eqn:E; [done|]. destruct (j_out _ _ Hi a d Hd E). congruence.
Qed.

(** A thread that waits for the lock is not the writer. *)
Lemma waiter_not_writer s t w a d : inv n s -> pcs s !! t = Some (Lock w a) -> objects s !! a = Some d -> Rwlock.writer (rwlock d) <> Some (Z.of_nat t).
Proof.
  intros Hi Ht Hd Hw. destruct (j_written _ _ Hi a d t Hd Hw) as (q & Hq & Hc). rewrite Ht in Hq. injection Hq as <-.
  cbn in Hc. rewrite bool_decide_eq_true_2 in Hc by done. by destruct (in_table a (table s)).
Qed.

(** A step that leaves the lock as it was. *)
Lemma inv_same_lock s t p p' a d d' : inv n s -> pcs s !! t = Some p -> objects s !! a = Some d ->
  at_dir p = Some a \/ (at_dir p = None /\ tabled p' = Some a) -> at_dir p' = Some a \/ at_dir p' = None ->
  handle d' = handle d -> rwlock d' = rwlock d -> refcount d' = refcount d - refs a p + refs a p' ->
  (tabled p' = Some a -> in_table a (table s) = true) -> p <> Free a -> (forall b, p' <> Last b) -> (p' = Free a <-> refcount d' = 0) ->
  reads a p' = reads a p -> (writes a p' = true -> writes a p = true) ->
  (in_table a (table s) = true -> writes a p = true -> writes a p' = true) ->
  (keeps a p' = true -> keeps a p = true \/ in_table a (table s) = true) ->
  inv n (set_pc t p' (set_dir a d' s)).
Proof.
  intros Hi Ht Hd Hp Hp' Hh Hk Hc Hl Hf Hla Hz Hr Hw1 Hw2 Hk1.
  apply (inv_moves n s t p p' a d d' Hi Ht Hd). split; rewrite ?Hk; auto.
  - by destruct Hp as [?|[-> _]].
  - by destruct Hp' as [?| ->].
  - by destruct Hp as [?|[_ ?]]; [left|right].
  - lia.
  - apply (j_writer _ _ Hi a d Hd).
  - intros H. by apply (j_writes _ _ Hi t p a d Ht (Hw1 H)).
  - intros H. destruct (j_written _ _ Hi a d t Hd H) as (q & Hq & Hqc). rewrite Ht in Hq. injection Hq as <-.
    destruct (in_table a (table s)) eqn:E; [by apply Hw2|]. destruct (keeps a p') eqn:Ek; [|done].
    destruct (Hk1 eq_refl) as [H'|H']; [by rewrite H' in Hqc|done].
Qed.

(** The side conditions above, at a place of the code. *)
Ltac same_lock Hi Ht Hd :=
  eapply (inv_same_lock _ _ _ _ _ _ _ Hi Ht Hd);
  cbn [at_dir refs reads tabled writes keeps handle refcount rwlock set_refcount set_rwlock set_mapping];
  rewrite ?decide_True, ?bool_decide_eq_true_2 by done; auto; try done; try lia; try (split; [done|lia]).

Lemma step_count s t w a d : inv n s -> pcs s !! t = Some (Count w a) -> objects s !! a = Some d ->
  inv n (set_pc t (Lock w a) (set_dir a (set_refcount (i32 (refcount d + 1)) d) s)).
Proof.
  intros Hi Ht Hd. destruct (inv_at s t _ a Hi Ht ltac:(done)) as (d' & Hd' & Hr). assert (d' = d) as -> by congruence. cbn [refs] in Hr.
  assert (Hl := j_tabled _ _ Hi t _ a Ht ltac:(done)). rewrite Hl in Hr. assert (Hs := j_count _ _ Hi a d Hd).
  assert (refcount d <= Z.of_nat n).
  { rewrite Hs, Hl. assert (H := sum_of_insert (refs a) _ _ _ (Drop a) Ht). cbn in H. rewrite decide_True in H by done.
    assert (H2 := sum_of_le (refs a) (<[t := Drop a]> (pcs s)) 1 ltac:(intros; apply refs_range)).
    rewrite length_insert, (j_len _ _ Hi) in H2. lia. }
  rewrite i32_small by lia. same_lock Hi Ht Hd.
Qed.

Lemma step_unref s t p a : inv n s -> pcs s !! t = Some p -> p = Drop a \/ p = Last a ->
  exists s', unref t a Idle s = Ret s' /\ inv n s'.
Proof.
  intros Hi Ht Hp. destruct (inv_at s t p a Hi Ht ltac:(by destruct Hp as [->| ->])) as (d & Hd & Hr).
  assert (E : refs a p = 1) by (destruct Hp as [->| ->]; cbn; by rewrite decide_True). rewrite E in Hr.
  unfold unref, the_dir. rewrite Hd, bind_Ret. eexists. split; [done|]. rewrite i32_small by (destruct (in_table _ _); lia).
  destruct Hp as [->| ->]; [|assert (Hl := j_last _ _ Hi t a Ht)]; destruct (Z.eqb_spec (refcount d - 1) 0); same_lock Hi Ht Hd; congruence.
Qed.

Lemma step_leave s t a d : inv n s -> pcs s !! t = Some (Leave a) -> objects s !! a = Some d ->
  inv n (set_pc t (Unhash a) (set_dir a (set_refcount (i32 (refcount d - 1)) d) s)).
Proof.
  intros Hi Ht Hd. destruct (inv_at s t _ a Hi Ht ltac:(done)) as (d' & Hd' & Hr). assert (d' = d) as -> by congruence. cbn [refs] in Hr.
  rewrite decide_True in Hr by done.
  destruct (writer_listed s t _ a d Hi Ht Hd (bool_decide_eq_true_2 _ eq_refl) (bool_decide_eq_true_2 _ eq_refl)) as (Hl & _).
  rewrite Hl in Hr. rewrite i32_small by lia. same_lock Hi Ht Hd.
Qed.

(** The side conditions of [inv_moves] at a place of the code. *)
Ltac lock_moves Hi Ht Hd :=
  eapply (inv_moves n _ _ _ _ _ _ _ Hi Ht Hd); split;
  cbn [at_dir refs reads tabled writes keeps handle refcount rwlock set_rwlock Rwlock.readers Rwlock.writer];
  rewrite ?decide_True, ?bool_decide_eq_true_2 by done; auto; try done; try lia; try (split; [done|lia]).

(** pthread_rwlock_rdlock and pthread_rwlock_wrlock return with the lock, or wait for another
    thread. *)
Lemma step_lock s t w a d : inv n s -> pcs s !! t = Some (Lock w a) -> objects s !! a = Some d ->
  match (if w then Rwlock.wrlock else Rwlock.rdlock) (Z.of_nat t) (rwlock d) with
  | Ret (_, l) => inv n (set_pc t (Hold w a) (set_dir a (set_rwlock l d) s))
  | Crash c => c = Blocked
  end.
Proof.
  intros Hi Ht Hd. destruct (inv_at s t _ a Hi Ht ltac:(done)) as (d' & Hd' & Hr). assert (d' = d) as -> by congruence. cbn [refs] in Hr.
  rewrite decide_True in Hr by done. assert (Hne := waiter_not_writer s t w a d Hi Ht Hd).
  assert (Hl : Rwlock.writer (rwlock d) = None -> in_table a (table s) = true).
  { intros E. destruct (in_table a (table s)) eqn:El; [done|]. destruct (j_out _ _ Hi a d Hd El). congruence. }
  destruct w; unfold Rwlock.wrlock, Rwlock.rdlock; destruct (Rwlock.writer (rwlock d)) as [u|] eqn:E.
  1,3: destruct (Z.eqb_spec u (Z.of_nat t)) as [->|]; [by destruct Hne|done].
  - destruct (Z.eqb_spec (Rwlock.readers (rwlock d)) 0); [|done]. rewrite Hl in Hr by done. lock_moves Hi Ht Hd; rewrite ?E; auto; try (by rewrite Hl).
  - rewrite Hl in Hr by done. lock_moves Hi Ht Hd.
Qed.

Lemma step_leave_lock s t w a p' : inv n s -> pcs s !! t = Some (Hold w a) -> p' = Check a \/ (exists w', p' = Lock w' a) ->
  exists s', leave_lock t a p' s = Ret s' /\ inv n s'.
Proof.
  intros Hi Ht Hp. destruct (inv_at s t _ a Hi Ht ltac:(done)) as (d & Hd & Hr). cbn [refs] in Hr. rewrite decide_True in Hr by done.
  unfold leave_lock, the_dir. rewrite Hd, bind_Ret. unfold Rwlock.unlock. destruct w.
  - destruct (writer_listed s t _ a d Hi Ht Hd (bool_decide_eq_true_2 _ eq_refl) (bool_decide_eq_true_2 _ eq_refl)) as (Hl & Hw & Hz).
    rewrite Hw, Z.eqb_refl, bind_Ret. eexists. split; [done|]. rewrite Hl in Hr.
    destruct Hp as [->|[w' ->]]; lock_moves Hi Ht Hd; rewrite Hw; auto.
  - destruct (reader_listed s t a d Hi Ht Hd) as (Hl & Hw & Hz). rewrite Hw. destruct (Z.ltb_spec 0 (Rwlock.readers (rwlock d))); [|lia].
    rewrite bind_Ret. eexists. split; [done|]. rewrite Hl in Hr. destruct Hp as [->|[w' ->]]; lock_moves Hi Ht Hd; by left.
Qed.

Lemma hash_find_in r l a : hash_find r l = Some a -> (r, a) ∈ l.
Proof.
  induction l as [|[k b] l IH]; [done|]. cbn. destruct (decide (k = r)) as [->|]; [intros [= ->]; by left|]. intros H. right. by apply IH.
Qed.

Lemma step_find s t r w : inv n s -> pcs s !! t = Some (Find r w) ->
  inv n (set_pc t (match hash_find r (table s) with Some a => Count w a | None => Miss r w end) s).
Proof.
  intros Hi Ht. destruct (hash_find r (table s)) as [a|] eqn:E; [|by eapply inv_away]. apply hash_find_in in E.
  destruct (j_table _ _ Hi r a E) as (d & Hd & _).
  assert (Hl : in_table a (table s) = true) by (apply bool_decide_eq_true_2, list_elem_of_fmap; by exists (r, a)).
  assert (Hr := j_count _ _ Hi a d Hd). rewrite Hl in Hr.
  assert (Hs := sum_of_nonneg (refs a) (pcs s) ltac:(intros; apply refs_range)).
  replace (set_pc t (Count w a) s) with (set_pc t (Count w a) (set_dir a d s))
    by (unfold set_pc, set_dir; cbn; by rewrite insert_id).
  same_lock Hi Ht Hd.
Qed.

Lemma settled_pending s t a : pcs s !! t = Some (Unhash a) -> settled s (Go t) = true -> Forall (fun p => pending a p = false) (pcs s).
Proof.
  cbn. intros -> H. apply list.Forall_forall. intros p Hp. rewrite forallb_forall in H. apply negb_true_iff, H. by apply list_elem_of_In.
Qed.

(** A thread's own next step. *)
Lemma go_safe s t p : inv n s -> pcs s !! t = Some p -> settled s (Go t) = true ->
  match go t p s with Ret s' => inv n s' | Crash c => c = Blocked end.
Proof.
  intros Hi Ht Hset. destruct (at_dir p) as [a|] eqn:Ea; [|destruct p; cbn; try done; by apply step_find].
  destruct (inv_at s t p a Hi Ht Ea) as (d & Hd & Hr).
  destruct p as [| | |w b|w b|w b|w b|b|b|b|b|b|b]; cbn [at_dir] in Ea; try done; injection Ea as ->; cbn [go]; unfold the_dir; rewrite ?Hd, ?bind_Ret; try done.
  - by apply step_count.
  - assert (H := step_lock s t w a d Hi Ht Hd). by destruct ((if w then Rwlock.wrlock else Rwlock.rdlock) _ _) as [[? l]|c].
  - cbn [refs] in Hr. rewrite decide_True in Hr by done. unfold c_assert.
    assert (Hp : 0 < refcount d) by (destruct (in_table a (table s)); lia). apply Z.ltb_lt in Hp as Hb. rewrite Hb, bind_Ret.
    replace (set_pc t (Drop a) s) with (set_pc t (Drop a) (set_dir a d s)) by (unfold set_pc, set_dir; cbn; by rewrite insert_id).
    same_lock Hi Ht Hd.
  - destruct (step_unref s t _ a Hi Ht ltac:(by left)) as (s' & -> & H). done.
  - exact (inv_freed n s t a Hi Ht).
  - by apply step_leave.
  - exact (inv_unhash n s t a Hi Ht (settled_pending s t a Ht Hset)).
  - destruct (step_unref s t _ a Hi Ht ltac:(by right)) as (s' & -> & H). done.
Qed.

Lemma step_safe s e : inv n s -> settled s e = true -> match step s e with Ret s' => inv n s' | Crash c => c = Blocked end.
Proof.
  intros Hi Hset. unfold step. destruct (pcs s !! who e) as [p|] eqn:Ht; [|done].
  destruct e as [t r w|t|t [m|] c|t m|t|t|t w']; cbn [who] in Ht.
  - destruct p; try done. by eapply inv_away.
  - by apply go_safe.
  - destruct p; try done. refine (inv_make n s t _ _ _ m c _ Hi Ht _). apply not_elem_of_dom, is_fresh.
  - destruct p; try done. refine (inv_away n (add_array c s) t _ Idle _ Ht _ _); [by destruct Hi|done..].
  - destruct p as [| | |w a| | | | | | | | |]; try done. destruct (inv_at s t _ a Hi Ht ltac:(done)) as (d & Hd & Hr). unfold the_dir. rewrite Hd, bind_Ret.
    assert (Hl := j_tabled _ _ Hi t _ a Ht ltac:(done)). rewrite Hl in Hr. cbn [refs] in Hr. same_lock Hi Ht Hd.
  - destruct p as [| | | | | |w a| | | | | |]; try done. destruct (step_leave_lock s t w a (Check a) Hi Ht ltac:(by left)) as (s' & -> & H). done.
  - destruct p as [| | | | | |[] a| | | | | |]; try done. destruct (inv_at s t _ a Hi Ht ltac:(done)) as (d & Hd & Hr). unfold the_dir. rewrite Hd, bind_Ret.
    destruct (writer_listed s t _ a d Hi Ht Hd (bool_decide_eq_true_2 _ eq_refl) (bool_decide_eq_true_2 _ eq_refl)) as (Hl & _).
    rewrite Hl in Hr. cbn [refs] in Hr. rewrite decide_True in Hr by done. unfold c_assert.
    assert (Hb : (1 <? refcount d) = true) by (apply Z.ltb_lt; lia). rewrite Hb, bind_Ret.
    replace (set_pc t (Leave a) s) with (set_pc t (Leave a) (set_dir a d s)) by (unfold set_pc, set_dir; cbn; by rewrite insert_id).
    same_lock Hi Ht Hd.
  - destruct p as [| | | | | |w a| | | | | |]; try done. destruct (step_leave_lock s t w a (Lock w' a) Hi Ht ltac:(right; by eexists)) as (s' & -> & H). done.
Qed.

Lemma cache_reachable_inv s : reachable n s -> inv n s.
Proof. induction 1 as [|s e s' H IH Hset Hs]; [apply cache_inv_start|]. assert (H' := step_safe s e IH Hset). by rewrite Hs in H'. Qed.

(** A thread that waits for a lock waits for another thread at the directory, or for the
    lock that cache_destroy did not release. *)
Lemma waits_for_holder s t w a : reachable n s -> pcs s !! t = Some (Lock w a) -> step s (Go t) = Crash Blocked ->
  in_table a (table s) = false \/
  exists u p, u <> t /\ pcs s !! u = Some p /\ (reads a p = 1 \/ (writes a p = true)).
Proof.
  intros Hre Ht Hs. assert (Hi := cache_reachable_inv s Hre). destruct (inv_at s t _ a Hi Ht ltac:(done)) as (d & Hd & _).
  destruct (in_table a (table s)) eqn:El; [right|by left]. unfold step in Hs. cbn [who] in Hs. rewrite Ht in Hs. cbn [go] in Hs.
  unfold the_dir in Hs. rewrite Hd, bind_Ret in Hs. assert (Hne := waiter_not_writer s t w a d Hi Ht Hd).
  destruct (Rwlock.writer (rwlock d)) as [z|] eqn:Ew.
  - assert (Hz := j_thread _ _ Hi a d z Hd Ew). rewrite <- (Z2Nat.id z Hz) in Ew, Hne.
    destruct (j_written _ _ Hi a d _ Hd Ew) as (p & Hp & Hc). rewrite El in Hc. exists (Z.to_nat z), p. split; [congruence|]. auto.
  - assert (Hr : 0 < Rwlock.readers (rwlock d)).
    { rewrite (j_readers _ _ Hi a d Hd). assert (H := sum_of_nonneg (reads a) (pcs s) ltac:(intros; apply reads_range)).
      rewrite <- (j_readers _ _ Hi a d Hd) in H |- *. destruct w; unfold Rwlock.wrlock, Rwlock.rdlock in Hs; rewrite Ew in Hs; [|done].
      destruct (Z.eqb_spec (Rwlock.readers (rwlock d)) 0); [done|lia]. }
    rewrite (j_readers _ _ Hi a d Hd) in Hr. apply sum_of_pos in Hr as (u & p & Hu & Hp). assert (H := reads_range a p).
    exists u, p. split; [|split; [done|left; lia]]. intros ->. rewrite Ht in Hu. injection Hu as <-. done.
Qed.

End Invariant.

(** ** Every schedule *)

Section Schedules.
Import CacheThreads Pvfs Giga Server.

(** C15 For every schedule of any number of threads below 2^31 - 1 that call cache_fetch,
    cache_fetch_w, cache_return and cache_destroy, where HASH_DEL takes a directory out of
    the table only when no thread is between finding it and counting it, and each macro of
    the table is one step: no step uses a freed directory, fails an assertion or releases a lock it does not hold; the reference count of
    a directory is the number of its holders, and one for the table; a writer excludes all
    others; a thread that has to wait waits for another thread at the directory, or at one
    that was destroyed; and when all threads have returned, the directories in memory are
    those of the table, with a count of one.  (The arrays of their partition handles are
    not freed: [destroyed_array_lost].) *)
Theorem cache_threads_safe n s : Z.of_nat n + 1 < 2 ^ 31 -> reachable n s ->
  (forall e, settled s e = true -> (exists s', step s e = Ret s' /\ reachable n s') \/ step s e = Crash Blocked) /\
  (forall a d, objects s !! a = Some d -> refcount d = (if in_table a (table s) then 1 else 0) + sum_of (refs a) (pcs s)) /\
  (forall t u w a, pcs s !! t = Some (Hold true a) -> pcs s !! u = Some (Hold w a) -> u = t) /\
  (forall t w a, pcs s !! t = Some (Lock w a) -> step s (Go t) = Crash Blocked ->
     in_table a (table s) = false \/ exists u p, u <> t /\ pcs s !! u = Some p /\ (reads a p = 1 \/ writes a p = true)) /\
  (Forall (eq Idle) (pcs s) -> forall a d, objects s !! a = Some d -> in_table a (table s) = true /\ refcount d = 1).
Proof.
  intros Hn Hre. assert (Hi := cache_reachable_inv n Hn s Hre). split_and!.
  - intros e Hset. assert (H := step_safe n Hn s e Hi Hset). destruct (step s e) as [s'|c] eqn:E; [left|right; by subst].
    exists s'. split; [done|]. by eapply reach_step.
  - apply (j_count _ _ Hi).
  - intros t u w a Ht Hu. destruct (j_alive _ _ Hi t _ a Ht ltac:(done)) as [d Hd].
    destruct (writer_listed n s t _ a d Hi Ht Hd (bool_decide_eq_true_2 _ eq_refl) (bool_decide_eq_true_2 _ eq_refl)) as (_ & Hw & _).
    destruct w; [|destruct (reader_listed n s u a d Hi Hu Hd) as (_ & Hw' & _); congruence].
    assert (Hw' := j_writes _ _ Hi u _ a d Hu (bool_decide_eq_true_2 _ eq_refl) Hd). rewrite Hw in Hw'. injection Hw'. lia.
  - intros t w a. by apply (waits_for_holder n Hn).
  - intros Hidle a d Hd. assert (Hc := j_count _ _ Hi a d Hd).
    assert (Hz : sum_of (refs a) (pcs s) = 0) by (rewrite (sum_of_all _ _ 0); [lia|]; eapply Forall_impl; [|exact Hidle]; by intros ? <-).
    destruct (in_table a (table s)); [split; [done|lia]|]. destruct (j_zero _ _ Hi a d Hd ltac:(lia)) as [t Ht].
    by assert (H := Forall_lookup_1 _ _ _ _ Hidle Ht).
Qed.

Lemma reach_run n s es s' : reachable n s -> run_settled s es = Ret s' -> reachable n s'.
Proof.
  revert s. induction es as [|e es IH]; cbn; intros s Hr H; [by injection H as <-|]. destruct (settled s e) eqn:E; [|done].
  run_inv. eapply IH; [|done]. by eapply reach_step.
Qed.

(** A directory that is made and returned by one thread, fetched for writing by a second while
    a third waits to read it, and destroyed. *)
Definition a_ref : PVFS_object_ref := mkRef 7 1.
Definition a_mapping : giga_mapping_t := match giga_init_mapping (-1) 0 1 with Ret m => m | Crash _ => mkMapping [] 0 0 0 end.
Definition miss (t : nat) (w : bool) : list event :=
  [Fetch t a_ref w; Go t; Make t (Some a_mapping) true; Filled t a_mapping; Go t; Go t].
Definition hit (t : nat) (w : bool) : list event := [Fetch t a_ref w; Go t; Go t; Go t].
Definition give_back (t : nat) : list event := [Return t; Go t; Go t].
Definition a_schedule : list event :=
  miss 0 false ++ give_back 0 ++ hit 1 true ++ [Fetch 2 a_ref false; Go 2; Go 2].

Lemma cache_threads_safe_witness : exists s a, run_settled (started 3) a_schedule = Ret s /\ pcs s !! 1%nat = Some (Hold true a) /\
  pcs s !! 2%nat = Some (Lock false a) /\ step s (Go 2) = Crash Blocked /\ sum_of (refs a) (pcs s) = 2 /\
  (in_table a (table s) = false \/ exists u p, u <> 2%nat /\ pcs s !! u = Some p /\ (reads a p = 1 \/ writes a p = true)).
Proof.
  destruct (run_settled (started 3) a_schedule) as [s|c] eqn:E; [|vm_compute in E; discriminate].
  assert (Hr := reach_run 3 _ _ _ (reach_start 3) E). exists s, 1%positive.
  assert (H2 : pcs s !! 2%nat = Some (Lock false 1%positive)) by (vm_compute in E; injection E as <-; reflexivity).
  assert (Hb : step s (Go 2) = Crash Blocked) by (vm_compute in E; injection E as <-; reflexivity).
  assert (H := cache_threads_safe 3 s ltac:(lia) Hr). destruct H as (_ & _ & _ & H & _).
  split; [reflexivity|]. split; [vm_compute in E; injection E as <-; reflexivity|]. split; [exact H2|]. split; [exact Hb|].
  split; [vm_compute in E; injection E as <-; reflexivity|exact (H 2%nat false 1%positive H2 Hb)].
Defined.

(** No step frees an array of partition handles, not even one that frees its directory. *)
Lemma arrays_only_grow s e s' : step s e = Ret s' ->
  arrays s' = arrays s + (match e with Make _ _ true => 1 | _ => 0 end).
Proof.
  unfold step, leave_lock. destruct (pcs s !! who e) as [p|]; [|done]. intros H.
  destruct e as [t r w|t|t [m|] []|t m|t|t|t w], p; cbn [go] in H; unfold unref in H; try discriminate H; repeat case_match; run_inv;
    repeat case_match; run_inv; cbn in *; lia.
Qed.

(** A directory that was destroyed is gone from the table and from memory, its array is not. *)
Lemma destroyed_array_lost : run_settled (started 1) (miss 0 true ++ [Destroy 0; Go 0; Go 0; Go 0; Go 0]) = Ret (mkCache ∅ [] [Idle] 1).
Proof. vm_compute. reflexivity. Qed.

(** A directory whose lock cannot be initialised is freed without its array. *)
Lemma failed_array_lost : run_settled (started 1) [Fetch 0 a_ref true; Go 0; Make 0 None true] = Ret (mkCache ∅ [] [Idle] 1).
Proof. vm_compute. reflexivity. Qed.

(** A thread that waits for the lock of a destroyed directory waits for ever: no step of
    another thread releases it. *)
Lemma destroyed_never_released n s t w a : Z.of_nat n + 1 < 2 ^ 31 -> reachable n s ->
  pcs s !! t = Some (Lock w a) -> in_table a (table s) = false -> step s (Go t) = Crash Blocked.
Proof.
  intros Hn Hre Ht Hl. assert (Hi := cache_reachable_inv n Hn s Hre). destruct (inv_at n s t _ a Hi Ht ltac:(done)) as (d & Hd & _).
  destruct (j_out _ _ Hi a d Hd Hl) as [u Hu]. assert (Hne := waiter_not_writer n s t w a d Hi Ht Hd). rewrite Hu in Hne.
  unfold step. cbn [who]. rewrite Ht. cbn [go]. unfold the_dir. rewrite Hd, bind_Ret.
  destruct w; unfold Rwlock.wrlock, Rwlock.rdlock; rewrite Hu; (destruct (Z.eqb_spec (Z.of_nat u) (Z.of_nat t)); [congruence|done]).
Qed.

(** Two threads that miss at the same time both make the directory and both hold it for
    writing: the table has no lock. *)
Lemma both_make_the_directory : exists s a b d e, reachable 2 s /\ pcs s = [Hold true a; Hold true b] /\ a <> b /\
  objects s !! a = Some d /\ objects s !! b = Some e /\ handle d = handle e.
Proof.
  pose (es := [Fetch 0 a_ref true; Go 0; Fetch 1 a_ref true; Go 1; Make 0 (Some a_mapping) true; Make 1 (Some a_mapping) true;
    Filled 0 a_mapping; Filled 1 a_mapping; Go 0; Go 0; Go 1; Go 1]).
  destruct (run_settled (started 2) es) as [s|c] eqn:E; [|vm_compute in E; discriminate].
  assert (Hr := reach_run 2 _ _ _ (reach_start 2) E). vm_compute in E. injection E as <-.
  do 5 eexists. split; [exact Hr|]. split; [reflexivity|]. split; [discriminate|]. by split_and!.
Qed.

(** A thread that finds a directory before it is counted may find it freed. *)
Lemma find_destroy_race : run (started 2) (miss 0 true ++ [Fetch 1 a_ref false; Go 1; Destroy 0; Go 0; Go 0; Go 0; Go 0; Go 1]) = Crash UseAfterFree.
Proof. vm_compute. reflexivity. Qed.

(** A directory is in the table before its bitmap is read: another thread holds it with the
    bitmap of a new one. *)
Lemma holds_unfilled m : exists s a, run (started 2) ([Fetch 0 a_ref true; Go 0; Make 0 (Some m) true] ++ hit 1 false) = Ret s /\
  reachable 2 s /\ pcs s = [Fill true a; Hold false a] /\ exists d, objects s !! a = Some d /\ mapping d = m.
Proof.
  pose (es := [Fetch 0 a_ref true; Go 0; Make 0 (Some m) true] ++ hit 1 false).
  assert (E : exists s, run_settled (started 2) es = Ret s) by (eexists; reflexivity). destruct E as [s E].
  assert (Hr := reach_run 2 _ _ _ (reach_start 2) E). exists s, 1%positive.
  assert (E' : run (started 2) es = Ret s) by (rewrite <- E; reflexivity). split; [exact E'|]. split; [done|].
  injection E as <-. split; [reflexivity|]. eexists. by split.
Qed.

End Schedules.

(** ** A thread alone *)

Section Alone.
Import CacheThreads Pvfs Giga Server Cache.
Context {W : Type} `{PvfsOps W} (t : nat) (fuel : nat).

(** The machine and the state of the sequential model have the same directories, and the
    table is a map. *)
Record agrees (sv : server) (s : cache) : Prop := mkAgrees {
  ag_heap : objects s = heap sv;
  ag_table : forall r, hash_find r (table s) = dircache sv !! r;
  ag_keys : NoDup (table s).*1
}.

Lemma run_app s es es' : run s (es ++ es') = (s' ← run s es; run s' es').
Proof.
  revert s. induction es as [|e es IH]; intros s; [done|]. cbn. destruct (step s e) as [s1|c]; [apply IH|done].
Qed.

Lemma hash_find_none r (l : list (PVFS_object_ref * positive)) : hash_find r l = None <-> r ∉ l.*1.
Proof.
  induction l as [|[k a] l IH]; cbn [hash_find fmap list_fmap fst].
  - split; [intros _ H1; by apply elem_of_nil in H1|done].
  - rewrite not_elem_of_cons. destruct (decide (k = r)) as [->|]; [naive_solver|]. rewrite IH. naive_solver.
Qed.

(** What thread [t] does alone from [s], at the end of which it is at [p]. *)
Definition does (sv : server) (s : cache) (p : pc) : Prop :=
  exists es s', Forall (fun e => who e = t) es /\ run s es = Ret s' /\ agrees sv s' /\ pcs s' !! t = Some p.

Lemma does_step e sv s s1 p : who e = t -> step s e = Ret s1 -> does sv s1 p -> does sv s p.
Proof.
  intros He Hs (es & s' & Hes & Hr & H1). exists (e :: es), s'. split; [by constructor|]. cbn. by rewrite Hs.
Qed.

Lemma does_done sv s p : agrees sv s -> pcs s !! t = Some p -> does sv s p.
Proof. intros Ha Hp. by exists [], s. Qed.

Lemma agrees_pc sv s p : agrees sv s -> agrees sv (set_pc t p s).
Proof. by intros [A B C]. Qed.

Lemma agrees_dir sv s a d : agrees sv s -> agrees (set_heap (<[a := d]> (heap sv)) sv) (set_dir a d s).
Proof. intros [A B C]. split; cbn; [by rewrite A|done|done]. Qed.

Lemma go_step s p : pcs s !! t = Some p -> step s (Go t) = go t p s.
Proof. unfold step. cbn. by intros ->. Qed.

Lemma pc_set s p q : pcs s !! t = Some q -> pcs (set_pc t p s) !! t = Some p.
Proof. intros Hp. cbn. apply list_lookup_insert_eq. by eapply lookup_lt_Some. Qed.

(** What a run that returns has seen: the steps of the machine succeed with it. *)
Definition may_crash (c : crash) : Prop := True.
Implicit Types Q : unit -> server * W -> Prop.

Lemma wp_deref_alone sv w s a (Q : skye_directory -> server * W -> Prop) : agrees sv s ->
  (forall d, objects s !! a = Some d -> Q d (sv, w)) -> wp may_crash (deref a) Q (sv, w).
Proof. intros [A _ _] HQ. unfold wp, deref. cbn [fst]. rewrite <- A. destruct (objects s !! a); [by apply HQ|done]. Qed.

Lemma wp_lift_alone {A} (m : outcome A) sw (Q : A -> server * W -> Prop) : (forall x, m = Ret x -> Q x sw) -> wp may_crash (lift m) Q sw.
Proof. intros HQ. apply wp_lift. destruct m; [by apply HQ|done]. Qed.

Lemma wp_store_alone sv w a d Q : Q tt (set_heap (<[a := d]> (heap sv)) sv, w) -> wp may_crash (store a d) Q (sv, w).
Proof. done. Qed.

(** One decrement and what follows it. *)
Definition release (n : Z) (a : positive) (d : skye_directory) : prog (server * W) unit :=
  _ ← store a (set_refcount n d); if n =? 0 then free a else mret tt.

Lemma release_alone sv w s p a d : agrees sv s -> pcs s !! t = Some p -> objects s !! a = Some d -> go t p s = unref t a Idle s ->
  wp may_crash (release (i32 (refcount d - 1)) a d) (fun _ (st : server * W) => does st.1 s Idle) (sv, w).
Proof.
  intros Ha Ht Hd Hg. apply wp_bind, wp_store_alone. assert (Hs := go_step s p Ht). rewrite Hg in Hs.
  unfold unref, the_dir in Hs. rewrite Hd, bind_Ret in Hs. set (n := i32 (refcount d - 1)) in *.
  assert (Ha' := agrees_dir sv s a (set_refcount n d) Ha). destruct (n =? 0).
  - unfold free. apply wp_bind. eapply wp_deref_alone; [exact Ha'|]. intros d' Hd'.
    eapply (does_step (Go t)); [done|exact Hs|]. assert (Ht' := pc_set (set_dir a (set_refcount n d) s) (Free a) p Ht).
    eapply (does_step (Go t)); [done|rewrite (go_step _ _ Ht'); cbn [go]; unfold the_dir; change (objects (set_pc _ _ _)) with (objects (set_dir a (set_refcount n d) s)); rewrite Hd', bind_Ret; reflexivity|].
    apply does_done; [|exact (pc_set _ _ _ Ht')]. destruct Ha' as [A B C]. apply agrees_pc. split; cbn in *; [by rewrite A|done|done].
  - eapply (does_step (Go t)); [done|exact Hs|]. apply does_done; [by apply agrees_pc|exact (pc_set _ _ _ Ht)].
Qed.

Lemma cache_return_alone sv w wr a s : agrees sv s -> pcs s !! t = Some (Hold wr a) ->
  wp may_crash (cache_return (Z.of_nat t) a) (fun _ (st : server * W) => does st.1 s Idle) (sv, w).
Proof.
  intros Ha Ht. unfold cache_return, unlock_dir. apply wp_bind, wp_bind. eapply wp_deref_alone; [done|]. intros d Hd.
  apply wp_bind, wp_lift_alone. intros l Hl. apply wp_store_alone. assert (Ha' := agrees_dir sv s a (set_rwlock l d) Ha).
  apply wp_bind. eapply wp_deref_alone; [exact Ha'|]. intros d' Hd'. apply wp_bind, wp_lift_alone. intros [] Hc.
  pose (s1 := set_pc t (Check a) (set_dir a (set_rwlock l d) s)). pose (s2 := set_pc t (Drop a) s1).
  assert (H1 : step s (Return t) = Ret s1).
  { unfold step, leave_lock, the_dir. cbn [who]. by rewrite Ht, Hd, bind_Ret, Hl. }
  assert (Ht1 : pcs s1 !! t = Some (Check a)) by exact (pc_set _ _ _ Ht).
  assert (H2 : step s1 (Go t) = Ret s2).
  { rewrite (go_step _ _ Ht1). cbn [go]. unfold the_dir. change (objects s1) with (objects (set_dir a (set_rwlock l d) s)).
    by rewrite Hd', bind_Ret, Hc. }
  eapply wp_conseq; [apply (release_alone _ w s2 (Drop a) a d')|].
  - by apply agrees_pc, agrees_pc.
  - exact (pc_set _ _ _ Ht1).
  - done.
  - done.
  - intros _ [sv' w'] Hdo. eapply does_step; [|exact H1|]; [done|]. by eapply does_step; [|exact H2|].
Qed.

Lemma wp_world_alone {A} (m : prog W A) sv w (Q : A -> server * W -> Prop) : (forall x w', Q x (sv, w')) -> wp may_crash (in_world m) Q (sv, w).
Proof. intros HQ. unfold wp, in_world. cbn [fst snd]. destruct (m w) as [[x w']|c]; [apply HQ|done]. Qed.

(** What thread [t] at [p] does for a call with the result [o]: it ends at a place that
    depends on the result. *)
Definition serves (s : cache) (q : positive -> pc) (o : option positive) (st : server * W) : Prop :=
  does st.1 s (match o with Some a => q a | None => Idle end).

(** A call that goes on from where the thread is after some steps. *)
Lemma does_run sv s es s1 p : Forall (fun e => who e = t) es -> run s es = Ret s1 -> does sv s1 p -> does sv s p.
Proof.
  intros Hes Hr (es' & s' & Hes' & Hr' & H1). exists (es ++ es'), s'. split; [by apply Forall_app|]. by rewrite run_app, Hr, bind_Ret.
Qed.

Lemma new_directory_alone sv w s ref wr : agrees sv s -> pcs s !! t = Some (Miss ref wr) -> dircache sv !! ref = None ->
  wp may_crash (new_directory fuel ref) (serves s (Count wr)) (sv, w).
Proof.
  intros Ha Ht Hmiss. assert (Hno : forall (c : bool) (st : server * W), st.1 = sv -> serves s (Count wr) None st).
  { intros c st Est. unfold serves. rewrite Est. eapply (does_step (Make t None c)); [done|unfold step; cbn [who]; by rewrite Ht|].
    apply does_done; [apply agrees_pc; by destruct Ha|exact (pc_set (add_array c s) _ _ Ht)]. }
  unfold new_directory. apply wp_bind, wp_sys. intros ok w1 _. destruct ok; [|by apply (Hno false)]. cbn [negb fst].
  apply wp_bind, wp_sys. intros callocd w2 _. apply wp_bind, wp_sys. intros rc w3 _. destruct (rc =? 0); [|by apply (Hno callocd)]. cbn [negb fst].
  apply wp_bind. unfold getl. unfold wp at 1. cbn [fst].
  apply wp_bind, wp_world_alone. intros z w4. apply wp_bind, wp_lift_alone. intros m Hm.
  apply wp_bind, wp_store_alone. apply wp_bind. unfold hash_add, modl, wp at 1. cbn [fst snd].
  apply wp_bind, wp_world_alone. intros m' w5. unfold update. apply wp_bind, wp_bind. unfold wp at 1, deref. cbn [fst heap set_dircache set_heap].
  rewrite lookup_insert_eq. apply wp_store_alone, wp_ret. unfold serves. cbn [fst].
  rewrite <- (ag_heap _ _ Ha). set (a := fresh (dom (objects s))). set (d := mkDir _ _ _ _ _ _ _).
  pose (s1 := set_pc t (Fill wr a) (mkCache (<[a := d]> (objects s)) ((ref, a) :: table s) (pcs s) (arrays (add_array callocd s)))).
  eapply (does_step (Make t (Some m) callocd) _ _ s1); [done|unfold step; cbn [who]; by rewrite Ht|].
  assert (Ht1 : pcs s1 !! t = Some (Fill wr a)) by exact (pc_set (mkCache _ _ (pcs s) _) _ _ Ht).
  eapply (does_step (Filled t m') _ s1 (set_pc t (Count wr a) (set_dir a (set_mapping m' d) s1))); [done| |].
  { unfold step, the_dir. cbn [who]. rewrite Ht1. cbn [objects s1 set_pc]. by rewrite lookup_insert_eq. }
  apply does_done; [|exact (pc_set (set_dir _ _ s1) _ _ Ht1)]. apply agrees_pc. split; cbn.
  - by rewrite (ag_heap _ _ Ha).
  - intros r. rewrite (ag_table _ _ Ha r). destruct (decide (ref = r)) as [->|Hne]; [by rewrite lookup_insert_eq|by rewrite lookup_insert_ne].
  - apply list.NoDup_cons. split; [|exact (ag_keys _ _ Ha)]. apply hash_find_none. by rewrite (ag_table _ _ Ha).
Qed.

Lemma fetch_alone sv w s ref wr : agrees sv s -> pcs s !! t = Some Idle ->
  wp may_crash (fetch fuel ref) (serves s (Lock wr)) (sv, w).
Proof.
  intros Ha Ht. pose (s1 := set_pc t (Find ref wr) s). assert (Ht1 : pcs s1 !! t = Some (Find ref wr)) by exact (pc_set _ _ _ Ht).
  assert (H1 : step s (Fetch t ref wr) = Ret s1) by (unfold step; cbn [who]; by rewrite Ht).
  pose (p2 := match dircache sv !! ref with Some a => Count wr a | None => Miss ref wr end). pose (s2 := set_pc t p2 s1).
  assert (H2 : run s [Fetch t ref wr; Go t] = Ret s2).
  { cbn [run]. rewrite H1, bind_Ret, (go_step _ _ Ht1). cbn [go]. change (table s1) with (table s). by rewrite (ag_table _ _ Ha). }
  assert (Ht2 : pcs s2 !! t = Some p2) by exact (pc_set _ _ _ Ht1). assert (Ha2 : agrees sv s2) by by apply agrees_pc, agrees_pc.
  unfold fetch. apply wp_bind. unfold getl, wp at 1. cbn [fst]. apply wp_bind.
  apply (wp_conseq _ _ (serves s2 (Count wr))).
  { subst p2 s2. destruct (dircache sv !! ref) as [a|] eqn:E; [apply wp_ret; by apply does_done|by apply new_directory_alone]. }
  intros [a|] [sv' w'] (es & s3 & Hes & Hr & Ha3 & Ht3); cbn [fst] in Ha3.
  - apply wp_bind. unfold update. apply wp_bind. eapply wp_deref_alone; [exact Ha3|]. intros d Hd. apply wp_store_alone, wp_ret.
    unfold serves. eapply does_run; [|exact H2|]; [by repeat constructor|]. eapply does_run; [exact Hes|exact Hr|].
    eapply (does_step (Go t)); [done|rewrite (go_step _ _ Ht3); cbn [go]; unfold the_dir; rewrite Hd, bind_Ret; reflexivity|].
    apply does_done; [by apply agrees_pc, agrees_dir|exact (pc_set (set_dir _ _ s3) _ _ Ht3)].
  - apply wp_ret. unfold serves. eapply does_run; [|exact H2|]; [by repeat constructor|]. eapply does_run; [exact Hes|exact Hr|]. by apply does_done.
Qed.

Lemma lock_with_alone sv w s a (wr : bool) (Q : unit -> server * W -> Prop) : agrees sv s -> pcs s !! t = Some (Lock wr a) ->
  (forall st, does st.1 s (Hold wr a) -> Q tt st) ->
  wp may_crash (lock_with ((if wr then Rwlock.wrlock else Rwlock.rdlock) (Z.of_nat t)) a) Q (sv, w).
Proof.
  intros Ha Ht HQ. unfold lock_with. apply wp_bind. eapply wp_deref_alone; [done|]. intros d Hd. apply wp_bind, wp_lift_alone.
  intros [rc l] Hl. apply wp_store_alone, HQ. cbn [fst].
  eapply (does_step (Go t)); [done|rewrite (go_step _ _ Ht); cbn [go]; unfold the_dir; rewrite Hd, bind_Ret, Hl, bind_Ret; reflexivity|].
  apply does_done; [by apply agrees_pc, agrees_dir|exact (pc_set (set_dir _ _ s) _ _ Ht)].
Qed.

Lemma cache_fetch_alone sv w s ref : agrees sv s -> pcs s !! t = Some Idle ->
  wp may_crash (cache_fetch (Z.of_nat t) fuel ref) (serves s (Hold false)) (sv, w).
Proof.
  intros Ha Ht. unfold cache_fetch. apply wp_bind. eapply wp_conseq; [by apply (fetch_alone sv w s ref false)|].
  intros [a|] [sv' w'] (es & s1 & Hes & Hr & Ha1 & Ht1); [|apply wp_ret; by exists es, s1].
  apply wp_bind. apply (lock_with_alone sv' w' s1 a false _ Ha1 Ht1). intros st Hst. apply wp_ret. by eapply does_run.
Qed.

Lemma cache_fetch_w_alone sv w s ref : agrees sv s -> pcs s !! t = Some Idle ->
  wp may_crash (cache_fetch_w (Z.of_nat t) fuel ref) (serves s (Hold true)) (sv, w).
Proof.
  intros Ha Ht. unfold cache_fetch_w. apply wp_bind. eapply wp_conseq; [by apply (fetch_alone sv w s ref true)|].
  intros [a|] [sv' w'] (es & s1 & Hes & Hr & Ha1 & Ht1); [|apply wp_ret; by exists es, s1].
  apply wp_bind, wp_sys. intros x w1 _. apply wp_bind. apply (lock_with_alone sv' w1 s1 a true _ Ha1 Ht1). intros st Hst.
  apply wp_bind, wp_sys. intros y w2 _. apply wp_ret. by eapply does_run.
Qed.

Lemma hash_find_elem r a l : NoDup (l : list (PVFS_object_ref * positive)).*1 -> hash_find r l = Some a <-> (r, a) ∈ l.
Proof.
  induction l as [|[k b] l IH]; [intros _; split; [done|intros Hin; by apply elem_of_nil in Hin]|].
  intros [Hk Hl]%list.NoDup_cons. cbn [hash_find]. rewrite list.elem_of_cons, <- (IH Hl). destruct (decide (k = r)) as [->|Hne].
  - split; [intros [= ->]; by left|]. intros [[= ->]|Hr]; [done|]. destruct Hk. apply list_elem_of_fmap. exists (r, a). split; [done|by apply IH].
  - naive_solver.
Qed.

(** Taking out an element takes out its key. *)
Lemma hash_find_remove r k a l : NoDup (l : list (PVFS_object_ref * positive)).*1 -> (forall r', hash_find r' l = Some a <-> r' = k) ->
  hash_find r (hash_remove a l) = if decide (r = k) then None else hash_find r l.
Proof.
  intros Hl Hu. assert (Hl' : NoDup (hash_remove a l).*1) by (eapply sublist_NoDup; [exact Hl|apply fmap_sublist, sublist_filter]).
  apply option_eq. intros b. rewrite (hash_find_elem r b _ Hl'). unfold hash_remove. rewrite list_elem_of_filter, <- (hash_find_elem r b l Hl). cbn [snd].
  destruct (decide (r = k)) as [->|Hr]; [assert (E := proj2 (Hu k) eq_refl)|]; naive_solver.
Qed.

(** HASH_DEL finds the element under its own handle. *)
Lemma cache_destroy_alone sv w s a : agrees sv s -> pcs s !! t = Some (Hold true a) ->
  (forall d r, objects s !! a = Some d -> dircache sv !! r = Some a <-> r = handle d) ->
  wp may_crash (cache_destroy a) (fun _ (st : server * W) => does st.1 s Idle) (sv, w).
Proof.
  intros Ha Ht Hk. unfold cache_destroy. apply wp_bind. eapply wp_deref_alone; [done|]. intros d Hd. apply wp_bind, wp_lift_alone. intros [] Hc.
  apply wp_bind, wp_store_alone. set (d1 := set_refcount _ d). pose (s1 := set_pc t (Leave a) s). pose (s2 := set_pc t (Unhash a) (set_dir a d1 s1)).
  pose (s3 := set_pc t (Last a) (mkCache (objects s2) (hash_remove a (table s2)) (pcs s2) (arrays s2))).
  assert (Ht1 : pcs s1 !! t = Some (Leave a)) by exact (pc_set _ _ _ Ht). assert (Ht2 : pcs s2 !! t = Some (Unhash a)) by exact (pc_set (set_dir _ _ s1) _ _ Ht1).
  assert (Hd2 : objects s2 !! a = Some d1) by apply lookup_insert_eq.
  assert (Hr : run s [Destroy t; Go t; Go t] = Ret s3).
  { assert (E1 : step s (Destroy t) = Ret s1) by (unfold step, the_dir; cbn [who]; by rewrite Ht, Hd, bind_Ret, Hc).
    assert (E2 : step s1 (Go t) = Ret s2).
    { rewrite (go_step _ _ Ht1). cbn [go]. unfold the_dir. change (objects s1) with (objects s). by rewrite Hd. }
    assert (E3 : step s2 (Go t) = Ret s3) by (rewrite (go_step _ _ Ht2); cbn [go]; unfold the_dir; by rewrite Hd2).
    cbn [run]. by rewrite E1, bind_Ret, E2, bind_Ret, E3. }
  assert (Ha2 : agrees (set_heap (<[a := d1]> (heap sv)) sv) s2) by (apply agrees_pc, agrees_dir; by apply agrees_pc).
  unfold hash_del. apply wp_bind, wp_bind. eapply wp_deref_alone; [exact Ha2|]. intros d2 Hd2'. assert (d2 = d1) as -> by congruence.
  unfold modl, wp at 1. cbn [fst snd]. set (sv3 := set_dircache _ _). assert (Ha3 : agrees sv3 s3).
  { destruct Ha2 as [A B C]. apply agrees_pc. split; unfold s3, sv3; cbn [objects table set_pc heap dircache set_dircache set_heap]; [done| |eapply sublist_NoDup; [exact C|apply fmap_sublist, sublist_filter]].
    intros r. rewrite (hash_find_remove r (handle d)); [|done|]; [|intros r'; rewrite B; by apply Hk]. cbn in B. rewrite B.
    destruct (decide (r = handle d)) as [->|Hne]; [by rewrite lookup_delete_eq|by rewrite lookup_delete_ne]. }
  apply wp_bind. eapply wp_deref_alone; [exact Ha3|]. intros d3 Hd3.
  eapply wp_conseq; [apply (release_alone _ w s3 (Last a) a d3 Ha3); [exact (pc_set (mkCache _ _ (pcs s2) _) _ _ Ht2)|done|done]|].
  intros ? st Hst. eapply does_run; [|exact Hr|exact Hst]. by repeat constructor.
Qed.

End Alone.
