(* ===== verification/SplitQueue.v ===== *)
(** * The queue of splits among threads: server/split.c, interleaved

    Handlers that find a partition too large call perform_split, which appends a task to a
    queue under a mutex and signals a condition; one thread, split_thread, waits for the
    condition and takes the tasks in order, without the mutex while it splits.
    [SplitQueue] is the machine of these two functions, one step per access to the mutex,
    the condition or the queue.  The list is the one that Utlist.v and Lists.v show DL_APPEND
    and DL_DELETE keep; what do_split does is Split.v's, here it is the time between two
    steps.  The theorems are about every schedule, with spurious wake-ups. *)

From S2P Require Import Prelude GigaIndex Names Utlist Pvfs Connection ServerCache Split.

#[local] Open Scope Z_scope.

Module SplitQueue.
Import Pvfs Server.

(** Where a handler is in perform_split: not in it, before the lock, before the look at the
    last task, before malloc, before the signal and before the release. *)
Inductive caller : Type :=
| Out
| Locking (k : split_task)
| Looking (k : split_task)
| Allocating (k : split_task)
| Signalling
| Unlocking.

(** Where the split thread is: before its first lock, before pthread_cond_wait, in it without
    the mutex and before taking it back, at the head of the inner loop, in do_split, and before
    the lock that follows it. *)
Inductive splitter : Type :=
| Start
| Begin
| Waiting
| Woken
| Loop
| Work (k : split_task)
| Relock.

Inductive owner : Type := Handler (t : nat) | Splitter.

(** [awake] tells whether the split thread has returned from a wait; [added] and [served] are
    the tasks that were ever appended and the ones whose split has ended. *)
Record state : Type := mkState {
  mutex : option owner;
  queue : list split_task;
  callers : list caller;
  thread : splitter;
  awake : bool;
  added : list split_task;
  served : list split_task
}.

(** A handler calls perform_split, goes on, or gets the answer of malloc; the split thread goes
    on, ends a split, or wakes up without a signal. *)
Inductive event : Type :=
| Ask (t : nat) (k : split_task)
| Next (t : nat)
| Alloc (t : nat) (ok : bool)
| Thread
| Finish
| Spurious.

Definition set_caller (t : nat) (c : caller) (s : state) : state :=
  mkState (mutex s) (queue s) (<[t := c]> (callers s)) (thread s) (awake s) (added s) (served s).
Definition set_mutex (o : option owner) (s : state) : state :=
  mkState o (queue s) (callers s) (thread s) (awake s) (added s) (served s).
Definition set_thread (p : splitter) (s : state) : state :=
  mkState (mutex s) (queue s) (callers s) p (awake s) (added s) (served s).

Definition lock (o : owner) (s : state) : outcome state :=
  match mutex s with None => Ret (set_mutex (Some o) s) | Some _ => Crash Blocked end.

(** queue->prev, the last task, is compared by its handle and index. *)
Definition repeats (k : split_task) (q : list split_task) : bool :=
  match list.last q with Some l => Split.same_task l (parent k) (pindex k) | None => false end.

(** pthread_cond_signal *)
Definition signal (s : state) : state := match thread s with Waiting => set_thread Woken s | _ => s end.

Definition append (k : split_task) (s : state) : state :=
  mkState (mutex s) (queue s ++ [k]) (callers s) (thread s) (awake s) (added s ++ [k]) (served s).

Definition step (s : state) (e : event) : outcome state :=
  match e with
  | Ask t k => match callers s !! t with Some Out => Ret (set_caller t (Locking k) s) | _ => Crash Blocked end
  | Next t =>
      match callers s !! t with
      | Some (Locking k) => s ← lock (Handler t) s; Ret (set_caller t (Looking k) s)
      | Some (Looking k) => Ret (set_caller t (if repeats k (queue s) then Unlocking else Allocating k) s)
      | Some Signalling => Ret (set_caller t Unlocking (signal s))
      | Some Unlocking => Ret (set_caller t Out (set_mutex None s))
      | _ => Crash Blocked
      end
  | Alloc t ok =>
      match callers s !! t with
      | Some (Allocating k) => if ok then Ret (set_caller t Signalling (append k s)) else Ret (set_caller t Out s)
      | _ => Crash Blocked
      end
  | Thread =>
      match thread s with
      | Start => s ← lock Splitter s; Ret (set_thread Begin s)
      | Begin => Ret (set_thread Waiting (set_mutex None s))
      | Woken =>
          s ← lock Splitter s;
          Ret (mkState (mutex s) (queue s) (callers s) Loop true (added s) (served s))
      | Loop =>
          match queue s with
          | [] => Ret (set_thread Begin s)
          | k :: q => Ret (mkState None q (callers s) (Work k) (awake s) (added s) (served s))
          end
      | Relock => s ← lock Splitter s; Ret (set_thread Loop s)
      | Waiting | Work _ => Crash Blocked
      end
  | Finish =>
      match thread s with
      | Work k => Ret (mkState (mutex s) (queue s) (callers s) Relock (awake s) (added s) (served s ++ [k]))
      | _ => Crash Blocked
      end
  | Spurious => match thread s with Waiting => Ret (set_thread Woken s) | _ => Crash Blocked end
  end.

Fixpoint run (s : state) (es : list event) : outcome state :=
  match es with [] => Ret s | e :: es' => s ← step s e; run s es' end.

Definition started (n : nat) : state := mkState None [] (replicate n Out) Start false [] [].

(** Whether an event is a failed allocation, and whether it belongs to work already begun. *)
Definition fails (e : event) : bool := match e with Alloc _ false => true | _ => false end.
Definition own (e : event) : bool := match e with Ask _ _ | Spurious => false | _ => true end.

(** The states that [n] handlers reach; allocations fail only when [failing]. *)
Inductive reachable (failing : bool) (n : nat) : state -> Prop :=
| reach_start : reachable failing n (started n)
| reach_step s e s' : reachable failing n s -> (fails e = true -> failing = true) -> step s e = Ret s' -> reachable failing n s'.

(** The task in do_split. *)
Definition running (s : state) : list split_task := match thread s with Work k => [k] | _ => [] end.

End SplitQueue.

(** ** The invariant *)

Section Invariant.
Import Server SplitQueue.

(** The places with the mutex. *)
Definition holding (c : caller) : bool := match c with Out | Locking _ => false | _ => true end.
Definition inside (p : splitter) : bool := match p with Begin | Loop => true | _ => false end.

(** No task follows an equal one. *)
Definition apart (q : list split_task) : Prop := forall i a b, q !! i = Some a -> q !! S i = Some b -> Split.same_task a (parent b) (pindex b) = false.

Record inv (failing : bool) (s : state) : Prop := mkInv {
  q_fifo : added s = served s ++ running s ++ queue s;
  q_apart : apart (queue s);
  q_new : forall t k, callers s !! t = Some (Allocating k) -> repeats k (queue s) = false;
  q_handler : forall t c, callers s !! t = Some c -> holding c = true -> mutex s = Some (Handler t);
  q_splitter : inside (thread s) = true -> mutex s = Some Splitter;
  q_mutex : failing = false ->
    match mutex s with
    | Some (Handler t) => exists c, callers s !! t = Some c /\ holding c = true
    | Some Splitter => inside (thread s) = true
    | None => True
    end;
  q_begin : thread s = Begin -> awake s = true -> queue s = [];
  q_waiting : thread s = Waiting -> awake s = true -> queue s <> [] -> exists t, callers s !! t = Some Signalling;
  q_start : thread s = Start -> awake s = false
}.

Lemma queue_inv_start failing n : inv failing (started n).
Proof.
  split; cbn; try done. all: by intros t k [-> _]%lookup_replicate.
Qed.

Lemma callers_set (l : list caller) t c u q : <[t := c]> l !! u = Some q -> (u = t /\ q = c) \/ (u <> t /\ l !! u = Some q).
Proof. intros H. apply list_lookup_insert_Some in H as [(-> & -> & _)|[? ?]]; [by left|by right]. Qed.

Lemma apart_snoc q k : apart q -> repeats k q = false -> apart (q ++ [k]).
Proof.
  intros Hq Hr i a b Ha Hb. assert (Hlt := lookup_lt_Some _ _ _ Hb). rewrite length_app in Hlt. cbn in Hlt.
  rewrite lookup_app_l in Ha by lia. destruct (decide (S i < length q)%nat).
  - rewrite lookup_app_l in Hb by done. by apply (Hq i).
  - rewrite lookup_app_r in Hb by lia. replace (S i - length q)%nat with 0%nat in Hb by lia. injection Hb as <-.
    unfold repeats in Hr. rewrite last_lookup in Hr. replace (pred (length q)) with i in Hr by lia. by rewrite Ha in Hr.
Qed.

Lemma apart_tail k q : apart (k :: q) -> apart q.
Proof. intros H i. apply (H (S i)). Qed.

(** A step of handler [t] that leaves the queue and the split thread alone. *)
Lemma inv_caller failing s t c c' m : inv failing s -> callers s !! t = Some c -> c <> Signalling ->
  (forall k, c' = Allocating k -> repeats k (queue s) = false) ->
  (holding c' = true -> m = Some (Handler t)) ->
  (m = mutex s \/ (mutex s = None /\ m = Some (Handler t) /\ holding c' = true) \/ (holding c = true /\ m = None)) ->
  (failing = false -> holding c = true -> m <> None -> holding c' = true) ->
  inv failing (set_caller t c' (set_mutex m s)).
Proof.
  intros [Q1 Q2 Q3 Q4 Q5 Q6 Q7 Q8 Q9] Ht Hc Hk Hh Hm Hf. assert (Hlt := lookup_lt_Some _ _ _ Ht).
  split; cbn [added served queue callers mutex thread awake set_caller set_mutex]; try done.
  - intros u k Hu. destruct (callers_set _ _ _ _ _ Hu) as [[-> <-]|[Hn Hu']]; [by apply Hk|by eapply Q3].
  - intros u q Hu Hq. destruct (callers_set _ _ _ _ _ Hu) as [[-> ->]|[Hn Hu']]; [by apply Hh|].
    assert (Ho := Q4 u q Hu' Hq). destruct Hm as [->|[(E & _)|(E & _)]]; [done|congruence|]. assert (Ho' := Q4 t c Ht E). congruence.
  - intros Hi. assert (Ho := Q5 Hi). destruct Hm as [->|[(E & _)|(E & _)]]; [done|congruence|]. assert (Ho' := Q4 t c Ht E). congruence.
  - intros Hff. assert (Ho := Q6 Hff). destruct Hm as [->|[(E & -> & E')|(E & ->)]]; [|exists c'; by rewrite list_lookup_insert_eq|done].
    destruct (mutex s) as [[u|]|] eqn:Em; try done. destruct Ho as (q & Hq & Hq'). destruct (decide (u = t)) as [->|Hn].
    + exists c'. rewrite list_lookup_insert_eq by done. split; [done|]. assert (q = c) as -> by congruence. by apply Hf.
    + exists q. by rewrite list_lookup_insert_ne.
  - intros Hw Ha Hq. destruct (Q8 Hw Ha Hq) as [u Hu]. exists u. rewrite list_lookup_insert_ne; [done|]. intros <-. congruence.
Qed.

Lemma set_mutex_id s : set_mutex (mutex s) s = s.
Proof. by destruct s. Qed.

(** malloc returned a task: it is appended. *)
Lemma inv_append failing s t k : inv failing s -> callers s !! t = Some (Allocating k) -> inv failing (set_caller t Signalling (append k s)).
Proof.
  intros [Q1 Q2 Q3 Q4 Q5 Q6 Q7 Q8 Q9] Ht. assert (Hlt := lookup_lt_Some _ _ _ Ht). assert (Hm := Q4 t _ Ht eq_refl).
  split; cbn [added served queue callers mutex thread awake set_caller append]; try done.
  - rewrite Q1. unfold running. cbn. by rewrite <- !(assoc_L (++)).
  - apply apart_snoc; [done|by eapply Q3].
  - intros u q Hu. destruct (callers_set _ _ _ _ _ Hu) as [[_ ?]|[Hn Hu']]; [done|]. assert (Ho := Q4 u _ Hu' eq_refl). congruence.
  - intros u q Hu Hq. destruct (callers_set _ _ _ _ _ Hu) as [[-> ->]|[Hn Hu']]; [done|by eapply Q4].
  - intros Hf. rewrite Hm. exists Signalling. by rewrite list_lookup_insert_eq.
  - intros Hb. assert (Ho := Q5 ltac:(by rewrite Hb)). congruence.
  - intros _ _ _. exists t. by rewrite list_lookup_insert_eq.
Qed.

Lemma inv_signal failing s t : inv failing s -> callers s !! t = Some Signalling -> inv failing (set_caller t Unlocking (signal s)).
Proof.
  intros [Q1 Q2 Q3 Q4 Q5 Q6 Q7 Q8 Q9] Ht. assert (Hlt := lookup_lt_Some _ _ _ Ht). assert (Hm := Q4 t _ Ht eq_refl).
  assert (Hs : forall x, signal s = x -> mutex x = mutex s /\ queue x = queue s /\ callers x = callers s /\ awake x = awake s /\
    added x = added s /\ served x = served s /\ running x = running s /\ thread x <> Waiting /\ (inside (thread x) = true \/ thread x = Start -> thread x = thread s)).
  { intros x <-. unfold signal, running. destruct (thread s) eqn:E; cbn; rewrite ?E; split_and!; try done; by intros [?|?]. }
  destruct (Hs _ eq_refl) as (E1 & E2 & E3 & E4 & E5 & E6 & E7 & E8 & E9). clear Hs.
  split; cbn [added served queue callers mutex thread awake set_caller]; rewrite ?E1, ?E2, ?E3, ?E4, ?E5, ?E6; try done.
  - by rewrite Q1, <- E7.
  - intros u q Hu. destruct (callers_set _ _ _ _ _ Hu) as [[_ ?]|[Hn Hu']]; [done|by eapply Q3].
  - intros u q Hu Hq. destruct (callers_set _ _ _ _ _ Hu) as [[-> ->]|[Hn Hu']]; [done|by eapply Q4].
  - intros Hi. apply Q5. rewrite <- E9; auto.
  - intros Hf. rewrite Hm. exists Unlocking. by rewrite list_lookup_insert_eq.
  - intros Hb. assert (Hb' := E9 ltac:(left; by rewrite Hb)). apply Q7. congruence.
  - intros Hb. apply Q9. rewrite <- E9; auto.
Qed.

(** The steps of the split thread. *)
Lemma inv_thread failing s s' : inv failing s -> step s Thread = Ret s' -> inv failing s'.
Proof.
  intros [Q1 Q2 Q3 Q4 Q5 Q6 Q7 Q8 Q9] Hs. cbn [step] in Hs. unfold lock in Hs. unfold running in Q1.
  assert (Hno : forall t c, mutex s = None \/ mutex s = Some Splitter -> callers s !! t = Some c -> holding c = true -> False).
  { intros t c [Hm|Hm] Ht Hc; assert (Ho := Q4 t c Ht Hc); congruence. }
  destruct (thread s) as [| | | | |k|] eqn:Ep; try done.
  - destruct (mutex s) eqn:Em; [done|]. injection Hs as <-. split; cbn; auto; try done.
    + intros t c Ht Hc. by destruct (Hno t c ltac:(by left) Ht Hc).
    + rewrite Q9 by done. done.
  - assert (Em := Q5 eq_refl). injection Hs as <-. split; cbn; auto; try done.
    + intros t c Ht Hc. by destruct (Hno t c ltac:(by right) Ht Hc).
    + intros _ Ha Hq. by destruct (Hq (Q7 eq_refl Ha)).
  - destruct (mutex s) eqn:Em; [done|]. injection Hs as <-. split; cbn; auto; try done.
    intros t c Ht Hc. by destruct (Hno t c ltac:(by left) Ht Hc).
  - assert (Em := Q5 eq_refl). destruct (queue s) as [|k q] eqn:Eq; injection Hs as <-; split; cbn; rewrite ?Eq; auto; try done.
    + by eapply apart_tail.
    + intros t k' Ht. by destruct (Hno t _ ltac:(by right) Ht eq_refl).
    + intros t c Ht Hc. by destruct (Hno t c ltac:(by right) Ht Hc).
  - destruct (mutex s) eqn:Em; [done|]. injection Hs as <-. split; cbn; auto; try done.
    intros t c Ht Hc. by destruct (Hno t c ltac:(by left) Ht Hc).
Qed.

Lemma inv_finish failing s k : inv failing s -> thread s = Work k ->
  inv failing (mkState (mutex s) (queue s) (callers s) Relock (awake s) (added s) (served s ++ [k])).
Proof.
  intros [Q1 Q2 Q3 Q4 Q5 Q6 Q7 Q8 Q9] Hp. unfold running in Q1. rewrite Hp in *. split; cbn; auto; try done.
  by rewrite Q1, <- (assoc_L (++)).
Qed.

Lemma inv_spurious failing s : inv failing s -> thread s = Waiting -> inv failing (set_thread Woken s).
Proof. intros [Q1 Q2 Q3 Q4 Q5 Q6 Q7 Q8 Q9] Hp. unfold running in Q1. rewrite Hp in *. split; cbn; auto; done. Qed.

Lemma inv_step failing s e s' : inv failing s -> (fails e = true -> failing = true) -> step s e = Ret s' -> inv failing s'.
Proof.
  intros Hi Hf Hs. destruct e as [t k|t|t ok| | |]; [| | |by eapply inv_thread| |]; cbn [step] in Hs.
  - destruct (callers s !! t) as [[]|] eqn:Ht; try done. injection Hs as <-. rewrite <- (set_mutex_id s).
    eapply (inv_caller failing s t Out); eauto; done.
  - destruct (callers s !! t) as [[|k|k|k| |]|] eqn:Ht; try done.
    + unfold lock in Hs. destruct (mutex s) eqn:Em; [done|]. injection Hs as <-. eapply (inv_caller failing s t (Locking k)); auto; try done.
    + injection Hs as <-. assert (Hm := q_handler _ _ Hi t _ Ht eq_refl). rewrite <- (set_mutex_id s) at 2.
      destruct (repeats k (queue s)) eqn:Er; eapply (inv_caller failing s t (Looking k)); auto; try done. by intros ? [= <-].
    + injection Hs as <-. by apply inv_signal.
    + injection Hs as <-. eapply (inv_caller failing s t Unlocking); auto; try done.
  - destruct (callers s !! t) as [[|k|k|k| |]|] eqn:Ht; try done. destruct ok; injection Hs as <-; [by apply inv_append|].
    rewrite <- (set_mutex_id s). eapply (inv_caller failing s t (Allocating k)); auto; try done. intros ->. by discriminate Hf.
  - destruct (thread s) eqn:Hp; try done. injection Hs as <-. by apply inv_finish.
  - destruct (thread s) eqn:Hp; try done. injection Hs as <-. by apply inv_spurious.
Qed.

Lemma queue_reachable_inv failing n s : reachable failing n s -> inv failing s /\ length (callers s) = n.
Proof.
  induction 1 as [|s e s' H [IH Hl] Hf Hs]; [split; [apply queue_inv_start|apply length_replicate]|]. split; [by eapply inv_step|].
  rewrite <- Hl. clear -Hs. destruct e; cbn in Hs; unfold lock, signal in Hs;
    repeat case_match; simplify_eq; try done; cbn in *; simplify_eq; cbn; rewrite ?length_insert; done.
Qed.

End Invariant.

(** ** Progress *)

Section Progress.
Import Server SplitQueue.

(** The steps that a handler and the split thread have ahead of them, with those they cause. *)
Definition effort (c : caller) : Z :=
  match c with Out => 0 | Locking _ => 11 | Looking _ => 10 | Allocating _ => 9 | Signalling => 5 | Unlocking => 1 end.
Definition ahead (p : splitter) : Z :=
  match p with Waiting => 0 | Begin => 1 | Start => 2 | Loop => 2 | Woken => 3 | Relock => 3 | Work _ => 4 end.
Definition remaining (s : state) : Z := sum_of effort (callers s) + ahead (thread s) + 3 * Z.of_nat (length (queue s)).

Lemma remaining_nonneg s : 0 <= remaining s.
Proof.
  unfold remaining. assert (H := sum_of_nonneg effort (callers s) ltac:(by intros [])). destruct (thread s); cbn; lia.
Qed.

(** The fields of a state that was just built. *)
Ltac fields := cbn [mutex queue callers thread awake added served set_caller set_thread set_mutex append].

Lemma own_decreases s e s' : own e = true -> step s e = Ret s' -> remaining s' < remaining s.
Proof.
  unfold remaining. destruct e as [t k|t|t ok| | |]; cbn [own step]; intros Ho Hs; try done.
  - destruct (callers s !! t) as [[|k|k|k| |]|] eqn:Ht; try done.
    + unfold lock in Hs. destruct (mutex s); [done|]. injection Hs as <-. fields. rewrite (sum_of_insert _ _ _ _ _ Ht). cbn [effort]. lia.
    + injection Hs as <-. fields. rewrite (sum_of_insert _ _ _ _ _ Ht). destruct (repeats k (queue s)); cbn [effort ahead]; lia.
    + injection Hs as <-. unfold signal. destruct (thread s) eqn:Ep; fields; rewrite ?Ep, (sum_of_insert _ _ _ _ _ Ht); cbn [effort ahead]; lia.
    + injection Hs as <-. fields. rewrite (sum_of_insert _ _ _ _ _ Ht). cbn [effort]. lia.
  - destruct (callers s !! t) as [[|k|k|k| |]|] eqn:Ht; try done.
    destruct ok; injection Hs as <-; fields; rewrite (sum_of_insert _ _ _ _ _ Ht), ?length_app; cbn [length effort]; lia.
  - unfold lock in Hs. destruct (thread s) eqn:Ep; try done; try (destruct (mutex s); [done|]); try (destruct (queue s) as [|k q] eqn:Eq);
      injection Hs as <-; fields; rewrite ?Eq; cbn [length ahead]; lia.
  - destruct (thread s) eqn:Ep; try done. injection Hs as <-. fields. cbn [ahead]. lia.
Qed.

(** Nothing is left to do but to wait. *)
Definition quiet (s : state) : Prop := forall e, own e = true -> fails e = false -> step s e = Crash Blocked.

Lemma quiet_places s : inv false s -> quiet s -> thread s = Waiting /\ Forall (eq Out) (callers s).
Proof.
  intros Hi Hq. assert (Hm := q_mutex _ _ Hi eq_refl).
  assert (Hfree : mutex s = None).
  { destruct (mutex s) as [[t|]|]; [| |done].
    - destruct Hm as (c & Ht & Hc). assert (H1 := Hq (Next t) eq_refl eq_refl). assert (H2 := Hq (Alloc t true) eq_refl eq_refl).
      cbn in H1, H2. rewrite Ht in H1, H2. by destruct c.
    - assert (H1 := Hq Thread eq_refl eq_refl). cbn in H1. destruct (thread s); try done. by destruct (queue s). }
  split.
  - assert (H1 := Hq Thread eq_refl eq_refl). assert (H2 := Hq Finish eq_refl eq_refl). cbn in H1, H2. unfold lock in H1. rewrite Hfree in H1.
    destruct (thread s); try done. by destruct (queue s).
  - apply list.Forall_forall. intros c Hc. apply list_elem_of_lookup in Hc as [t Ht]. assert (H1 := Hq (Next t) eq_refl eq_refl).
    cbn in H1. rewrite Ht in H1. unfold lock in H1. rewrite Hfree in H1. destruct c as [|k|k|k| |]; try done.
    assert (Ho := q_handler _ _ Hi t _ Ht eq_refl). congruence.
Qed.

Lemma own_run_bounded es s s' : Forall (fun e => own e = true) es -> run s es = Ret s' -> Z.of_nat (length es) + remaining s' <= remaining s.
Proof.
  revert s. induction es as [|e es IH]; intros s Hes Hr; [injection Hr as <-; cbn; lia|]. apply Forall_cons_1 in Hes as [He Hes].
  cbn in Hr. run_inv. assert (H1 := own_decreases s e _ He Hrun). assert (H2 := IH _ Hes Hr). cbn [length]. lia.
Qed.

Lemma queue_run_reachable failing n s es s' : reachable failing n s -> Forall (fun e => fails e = true -> failing = true) es -> run s es = Ret s' -> reachable failing n s'.
Proof.
  revert s. induction es as [|e es IH]; intros s Hre Hes Hr; [by injection Hr as <-|]. apply Forall_cons_1 in Hes as [He Hes].
  cbn in Hr. run_inv. eapply IH; [|done|done]. by eapply reach_step.
Qed.

(** *** A failed allocation *)

(** The mutex belongs to a handler that has left perform_split. *)
Definition dead (s : state) : Prop :=
  mutex s <> None /\ (forall t c, callers s !! t = Some c -> holding c = false) /\ inside (thread s) = false.

Lemma dead_step s e s' : dead s -> step s e = Ret s' -> dead s' /\ queue s' = queue s /\ added s' = added s.
Proof.
  intros (Hm & Hc & Hp) Hs. destruct e as [t k|t|t ok| | |]; cbn [step] in Hs; unfold lock in Hs.
  1-3: destruct (callers s !! t) as [c|] eqn:Ht; [|done]; assert (Hh := Hc t c Ht); destruct c; try done.
  - injection Hs as <-. split; [|done]. split_and!; cbn; try done. intros u c Hu.
    destruct (callers_set _ _ _ _ _ Hu) as [[-> ->]|[Hn Hu']]; [done|by eapply Hc].
  - by destruct (mutex s).
  - destruct (thread s) eqn:Ep; try done; by destruct (mutex s).
  - destruct (thread s) eqn:Ep; try done. injection Hs as <-. by split_and!.
  - destruct (thread s) eqn:Ep; try done. injection Hs as <-. by split_and!.
Qed.

Lemma dead_run es s s' : dead s -> run s es = Ret s' -> queue s' = queue s /\ added s' = added s.
Proof.
  revert s. induction es as [|e es IH]; intros s Hd Hr; [by injection Hr as <-|]. cbn in Hr. run_inv.
  destruct (dead_step _ _ _ Hd Hrun) as (Hd' & E1 & E2). destruct (IH _ Hd' Hr). by rewrite <- E1, <- E2.
Qed.

End Progress.

(** ** Every schedule *)

Section Schedules.
Import Server SplitQueue.

(** C16 For every schedule of perform_split and split_thread, with spurious wake-ups and failed
    allocations: the splits end in the order in which their tasks were appended, none is lost
    or done twice; the queue never holds two equal tasks in a row; the mutex excludes; and once
    the split thread has woken up for the first time it never sleeps with a task in the queue
    unless the handler that appended it is about to signal. *)
Theorem split_queue_safe failing n s : reachable failing n s ->
  added s = served s ++ running s ++ queue s /\ apart (queue s) /\
  (forall t u c d, callers s !! t = Some c -> callers s !! u = Some d -> holding c = true -> holding d = true -> t = u) /\
  (forall t c, callers s !! t = Some c -> holding c = true -> inside (thread s) = false) /\
  (thread s = Waiting -> awake s = true -> queue s <> [] -> exists t, callers s !! t = Some Signalling).
Proof.
  intros Hre. destruct (queue_reachable_inv failing n s Hre) as [Hi _]. split_and!.
  - apply (q_fifo _ _ Hi).
  - apply (q_apart _ _ Hi).
  - intros t u c d Ht Hu Hc Hd. assert (H1 := q_handler _ _ Hi t c Ht Hc). assert (H2 := q_handler _ _ Hi u d Hu Hd). congruence.
  - intros t c Ht Hc. assert (H1 := q_handler _ _ Hi t c Ht Hc). destruct (inside (thread s)) eqn:E; [|done].
    assert (H2 := q_splitter _ _ Hi E). congruence.
  - apply (q_waiting _ _ Hi).
Qed.

(** C17 From every state that handlers and the split thread reach without a failed allocation,
    every schedule without new requests and spurious wake-ups ends, after at most
    [remaining] steps; where it ends, no handler waits, the split thread sleeps, and, if it has
    woken up before, the queue is empty and every task that was ever appended is served. *)
Theorem split_queue_drains n s es s' : reachable false n s ->
  Forall (fun e => own e = true /\ fails e = false) es -> run s es = Ret s' ->
  Z.of_nat (length es) <= remaining s /\
  (quiet s' -> thread s' = Waiting /\ Forall (eq Out) (callers s') /\ (awake s' = true -> queue s' = [] /\ served s' = added s')).
Proof.
  intros Hre Hes Hr. assert (Hb : Z.of_nat (length es) + remaining s' <= remaining s)
    by (apply own_run_bounded; [eapply Forall_impl; [|exact Hes]; by intros ? []|done]).
  assert (Hn := remaining_nonneg s'). split; [lia|]. intros Hq.
  assert (Hre' : reachable false n s') by (eapply queue_run_reachable; [exact Hre|eapply Forall_impl; [|exact Hes]; intros ? [_ ->]; done|done]).
  destruct (queue_reachable_inv false n s' Hre') as [Hi _]. destruct (quiet_places s' Hi Hq) as [Hw Ho]. split; [done|]. split; [done|].
  intros Ha. assert (Hempty : queue s' = []).
  { destruct (decide (queue s' = [])) as [|Hne]; [done|]. destruct (q_waiting _ _ Hi Hw Ha Hne) as [t Ht].
    by assert (H := Forall_lookup_1 _ _ _ _ Ho Ht). }
  split; [done|]. assert (Hf := q_fifo _ _ Hi). unfold running in Hf. rewrite Hw, Hempty in Hf. by rewrite Hf, app_nil_r.
Qed.

(** A task whose allocation fails leaves the mutex locked: no task is appended or taken
    from the queue ever after. *)
Lemma malloc_failure_stops_queue n s t k es s1 s' : reachable true n s -> callers s !! t = Some (Allocating k) ->
  step s (Alloc t false) = Ret s1 -> run s1 es = Ret s' -> queue s' = queue s /\ added s' = added s.
Proof.
  intros Hre Ht Hs Hr. destruct (queue_reachable_inv true n s Hre) as [Hi _]. assert (Hm := q_handler _ _ Hi t _ Ht eq_refl).
  cbn [step] in Hs. rewrite Ht in Hs. injection Hs as <-. apply (dead_run es (set_caller t Out s)); [|done]. split_and!.
  - cbn. by rewrite Hm.
  - intros u c Hu. cbn in Hu. destruct (callers_set _ _ _ _ _ Hu) as [[-> ->]|[Hn Hu']]; [done|]. destruct (holding c) eqn:E; [|done].
    assert (Ho := q_handler _ _ Hi u c Hu' E). congruence.
  - cbn. destruct (inside (thread s)) eqn:E; [|done]. assert (Ho := q_splitter _ _ Hi E). congruence.
Qed.

(** Two handlers append a task each, and a third one that the second finds queued. *)
Definition task (i : Z) : split_task := mkTask (Pvfs.mkRef 7 1) i.
Definition asks (t : nat) (k : split_task) : list event := [Ask t k; Next t; Next t; Alloc t true; Next t; Next t].
Definition thread_waits : list event := [Thread; Thread].

Lemma split_queue_safe_witness : exists s, run (started 2) (thread_waits ++ asks 0 (task 0) ++ asks 1 (task 1) ++ [Ask 0 (task 1); Next 0; Next 0; Next 0; Thread; Thread]) = Ret s /\
  added s = [task 0; task 1] /\ running s = [task 0] /\ queue s = [task 1] /\ added s = served s ++ running s ++ queue s.
Proof.
  pose (es := thread_waits ++ asks 0 (task 0) ++ asks 1 (task 1) ++ [Ask 0 (task 1); Next 0; Next 0; Next 0; Thread; Thread]).
  destruct (run (started 2) es) as [s|c] eqn:E; [|vm_compute in E; discriminate].
  assert (Hr : reachable false 2 s) by (eapply (queue_run_reachable false 2); [constructor| |exact E]; repeat constructor; discriminate).
  assert (H := split_queue_safe false 2 s Hr). exists s. split; [exact E|]. destruct H as [H _].
  split; [vm_compute in E; injection E as <-; reflexivity|]. split; [vm_compute in E; injection E as <-; reflexivity|].
  split; [vm_compute in E; injection E as <-; reflexivity|exact H].
Defined.

Lemma split_queue_drains_witness : exists s s', run (started 2) (thread_waits ++ asks 0 (task 0)) = Ret s /\
  run s [Thread; Thread; Finish; Thread; Thread; Thread] = Ret s' /\ quiet s' /\ awake s' = true /\ queue s' = [] /\ served s' = added s'.
Proof.
  destruct (run (started 2) (thread_waits ++ asks 0 (task 0))) as [s|c] eqn:E; [|vm_compute in E; discriminate].
  assert (Hr : reachable false 2 s) by (eapply (queue_run_reachable false 2); [constructor| |exact E]; repeat constructor; discriminate).
  destruct (run s [Thread; Thread; Finish; Thread; Thread; Thread]) as [s'|c] eqn:E'; [|vm_compute in E; injection E as <-; vm_compute in E'; discriminate].
  assert (H := split_queue_drains 2 s [Thread; Thread; Finish; Thread; Thread; Thread] s' Hr ltac:(by repeat constructor) E'). exists s, s'. split; [reflexivity|]. split; [exact E'|].
  assert (Hq : quiet s').
  { vm_compute in E. injection E as <-. vm_compute in E'. injection E' as <-.
    intros [t k|t|t []| | |] Ho Hf; try discriminate; try reflexivity; destruct t as [|[|t]]; reflexivity. }
  assert (Ha : awake s' = true) by (vm_compute in E; injection E as <-; vm_compute in E'; injection E' as <-; reflexivity).
  split; [exact Hq|]. split; [exact Ha|]. destruct H as [_ H]. destruct (H Hq) as (_ & _ & H'). exact (H' Ha).
Defined.

(** A task that is appended before the split thread first waits stays in the queue: nobody
    signals again until another task comes. *)
Lemma early_task_not_served : exists s, run (started 1) (asks 0 (task 0) ++ thread_waits) = Ret s /\ quiet s /\ queue s = [task 0] /\ served s = [].
Proof.
  destruct (run (started 1) (asks 0 (task 0) ++ thread_waits)) as [s|c] eqn:E; [|vm_compute in E; discriminate]. exists s. split; [done|].
  vm_compute in E. injection E as <-. split; [|done]. intros [t k|t|t []| | |] Ho Hf; try discriminate; try reflexivity; destruct t as [|t]; reflexivity.
Qed.

End Schedules.
