(* ===== verification/Mpi.v ===== *)
(** * Processes that pass messages

    The programs of util/ that measure a file system with many processes are written for MPI:
    every process runs the same program, with its rank.  [Mpi] has what they use of it: a
    process makes system calls, waits at a barrier, sends to and receives from another one, and
    takes part in a gathering at rank 0; the machine runs any number of processes in any order.
    MPI, like the system, is not part of the repository: sends are buffered, barriers make all
    wait, MPI_Abort ends all, as the MPI standard says.

    [moves] gives a process the sequence of its synchronisations, and [spmd_progress] and
    [schedules_end] show that processes with the same sequence never wait for each other for
    ever. *)

From S2P Require Import Prelude.
From stdpp Require Import fin_maps gmap.

Module Mpi.

(** Why a process ends all of them: it calls MPI_Abort, or runs into undefined behaviour. *)
Inductive stop : Type := Aborted (code : Z) | Faulty (c : crash).

Section Processes.
Context {C R : Type}.

(** A process with the system calls [C] and their answers [R]. *)
Inductive proc (A : Type) : Type :=
| Done (a : A)
| Call (c : C) (k : R -> proc A)
| Barrier (k : proc A)
| Send (dst : nat) (k : proc A)
| Recv (src : nat) (k : proc A)
| Give (v : Z) (k : proc A)
| Collect (v : Z) (k : list Z -> proc A)
| Stop (s : stop).
#[global] Arguments Done {A} a.
#[global] Arguments Call {A} c k.
#[global] Arguments Barrier {A} k.
#[global] Arguments Send {A} dst k.
#[global] Arguments Recv {A} src k.
#[global] Arguments Give {A} v k.
#[global] Arguments Collect {A} v k.
#[global] Arguments Stop {A} s.

#[export] Instance proc_ret : MRet proc := fun _ a => Done a.
#[export] Instance proc_bind : MBind proc := fun A B f =>
  fix go (p : proc A) : proc B :=
    match p with
    | Done a => f a
    | Call c k => Call c (fun r => go (k r))
    | Barrier k => Barrier (go k)
    | Send d k => Send d (go k)
    | Recv s k => Recv s (go k)
    | Give v k => Give v (go k)
    | Collect v k => Collect v (fun l => go (k l))
    | Stop s => Stop s
    end.

(** ** The machine *)

Context {W : Type}.

(** The world, the processes by rank, the messages from one rank to another that are not
    received yet, and what each rank has given to a gathering. *)
Record config : Type := mkConfig {
  world : W;
  procs : list (proc unit);
  mail : gmap (nat * nat) nat;
  given : list (list Z)
}.

(** Process [i] makes its next step, or all leave a barrier. *)
Inductive event : Type := Run (i : nat) | Sync.

Definition waiting (c : config) (src dst : nat) : nat := default 0%nat (mail c !! (src, dst)).

Definition set_proc (i : nat) (p : proc unit) (c : config) : config :=
  mkConfig (world c) (<[i := p]> (procs c)) (mail c) (given c).
Definition set_mail (src dst n : nat) (c : config) : config :=
  mkConfig (world c) (procs c) (<[(src, dst) := n]> (mail c)) (given c).
Definition set_given (g : list (list Z)) (c : config) : config := mkConfig (world c) (procs c) (mail c) g.

Definition after_barrier (p : proc unit) : option (proc unit) := match p with Barrier k => Some k | _ => None end.

Variable exec : nat -> C -> W -> R * W.

Definition step (c : config) (e : event) : option config :=
  match e with
  | Sync => l ← mapM after_barrier (procs c); Some (mkConfig (world c) l (mail c) (given c))
  | Run i =>
      match procs c !! i with
      | Some (Call x k) =>
          let '(r, w) := exec i x (world c) in
          Some (mkConfig w (<[i := k r]> (procs c)) (mail c) (given c))
      | Some (Send d k) => Some (set_proc i k (set_mail i d (S (waiting c i d)) c))
      | Some (Recv s k) =>
          match waiting c s i with O => None | S n => Some (set_proc i k (set_mail s i n c)) end
      | Some (Give v k) =>
          g ← given c !! i;
          Some (set_proc i k (set_given (<[i := g ++ [v]]> (given c)) c))
      | Some (Collect v k) =>
          heads ← mapM head (drop 1 (given c));
          Some (set_proc i (k (v :: heads)) (set_given (take 1 (given c) ++ (tail <$> drop 1 (given c))) c))
      | _ => None
      end
  end.

Fixpoint run (c : config) (es : list event) : option config :=
  match es with [] => Some c | e :: es' => c ← step c e; run c es' end.

(** [n] processes that run one program. *)
Definition launch (n : nat) (p : nat -> proc unit) (w : W) : config := mkConfig w (p <$> seq 0 n) ∅ (replicate n []).

(** ** The synchronisations of a process *)

Inductive op : Type := ORecv | OSend | OGive | OCollect.

#[export] Instance op_eq_dec : EqDecision op.
Proof. solve_decision. Defined.

(** What happens between two barriers: nothing, a section that [thr] processes pass at a time,
    or a gathering. *)
Inductive phase : Type := Plain | Throttled | Gathered.

Variable n thr : nat.

Definition ops (i : nat) (ph : phase) : list op :=
  match ph with
  | Plain => []
  | Throttled => (if thr <=? i then [ORecv] else []) ++ (if i + thr <? n then [OSend] else [])
  | Gathered => if decide (i = 0) then [OCollect] else [OGive]
  end%nat.

(** Process [p] of rank [i] has [cur] ahead in this phase and then the phases [rest]; when it is
    done it has [cur'] and [rest'] ahead. *)
Inductive moves {A} (i : nat) : list op -> list phase -> proc A -> list op -> list phase -> Prop :=
| m_done cur rest a : moves i cur rest (Done a) cur rest
| m_stop cur rest s cur' rest' : moves i cur rest (Stop s) cur' rest'
| m_call cur rest c k cur' rest' : (forall r, moves i cur rest (k r) cur' rest') -> moves i cur rest (Call c k) cur' rest'
| m_barrier ph rest k cur' rest' : moves i (ops i ph) rest k cur' rest' -> moves i [] (ph :: rest) (Barrier k) cur' rest'
| m_send cur rest d k cur' rest' : d = (i + thr)%nat -> moves i cur rest k cur' rest' -> moves i (OSend :: cur) rest (Send d k) cur' rest'
| m_recv cur rest s k cur' rest' : i = (s + thr)%nat -> moves i cur rest k cur' rest' -> moves i (ORecv :: cur) rest (Recv s k) cur' rest'
| m_give cur rest v k cur' rest' : moves i cur rest k cur' rest' -> moves i (OGive :: cur) rest (Give v k) cur' rest'
| m_collect cur rest v k cur' rest' : (forall l, moves i cur rest (k l) cur' rest') -> moves i (OCollect :: cur) rest (Collect v k) cur' rest'.

End Processes.

#[global] Arguments proc C R A : clear implicits.

End Mpi.

(** ** No process waits for ever *)

Section Progress.
Import Mpi.
Context {C R W : Type} (exec : nat -> C -> W -> R * W) (n thr : nat) (Hthr : (0 < thr)%nat).
Local Abbreviation moves := (moves n thr).
Local Abbreviation ops := (ops n thr).
Implicit Types (c : @config C R W) (p : proc C R unit).

Lemma moves_bind {A B} i cur rest (p : proc C R A) cur1 rest1 (f : A -> proc C R B) cur2 rest2 :
  moves i cur rest p cur1 rest1 -> (forall a, moves i cur1 rest1 (f a) cur2 rest2) -> moves i cur rest (p ≫= f) cur2 rest2.
Proof. intros Hp Hf. induction Hp; cbn; try (constructor; auto); auto. Qed.

(** Every result of a process that does not stop has the property [Q]. *)
Fixpoint returns {A} (Q : A -> Prop) (p : proc C R A) : Prop :=
  match p with
  | Done a => Q a
  | Call _ k => forall r, returns Q (k r)
  | Barrier k | Send _ k | Recv _ k | Give _ k => returns Q k
  | Collect _ k => forall l, returns Q (k l)
  | Stop _ => True
  end.

Lemma returns_bind {A B} (Q : A -> Prop) (Q' : B -> Prop) (p : proc C R A) (f : A -> proc C R B) :
  returns Q p -> (forall a, Q a -> returns Q' (f a)) -> returns Q' (p ≫= f).
Proof. intros Hp Hf. induction p; cbn in *; auto. Qed.

Lemma returns_any {A} (p : proc C R A) : returns (fun _ => True) p.
Proof. induction p; cbn; auto. Qed.

Lemma moves_bind_returns {A B} (Q : A -> Prop) i cur rest (p : proc C R A) cur1 rest1 (f : A -> proc C R B) cur2 rest2 :
  moves i cur rest p cur1 rest1 -> returns Q p -> (forall a, Q a -> moves i cur1 rest1 (f a) cur2 rest2) -> moves i cur rest (p ≫= f) cur2 rest2.
Proof. intros Hp. induction Hp; cbn; intros HQ Hf; try (constructor; auto); auto. Qed.

(** What rank [i] has ahead of it in the phase, [cur i], accounts for the messages. *)
Definition mailed (ph : phase) (cur : nat -> list op) (i j : nat) : nat :=
  match ph with
  | Throttled => if bool_decide (j = (i + thr)%nat /\ (j < n)%nat /\ OSend ∉ cur i /\ ORecv ∈ cur j) then 1 else 0
  | _ => 0
  end%nat.

Definition offered (ph : phase) (cur : nat -> list op) (i : nat) : nat :=
  match ph with
  | Gathered => if bool_decide (i <> 0 /\ cur i = [] /\ cur 0 <> [])%nat then 1 else 0
  | _ => 0
  end%nat.

Record shape (ph : phase) (rest : list phase) (cur : nat -> list op) (c : @config C R W) : Prop := mkShape {
  s_len : length (procs c) = n;
  s_given : length (given c) = n;
  s_moves : forall i p, procs c !! i = Some p -> moves i (cur i) rest p [] [];
  s_cur : forall i, (i < n)%nat -> exists l, ops i ph = l ++ cur i;
  s_mail : forall i j, waiting c i j = mailed ph cur i j;
  s_offer : forall i g, given c !! i = Some g -> length g = offered ph cur i;
  s_order : forall i, (i + thr < n)%nat -> OSend ∈ cur i -> ORecv ∈ cur (i + thr)%nat;
  s_root : forall i, (i < n)%nat -> OGive ∈ cur i -> cur 0%nat <> []
}.

Definition in_step (c : @config C R W) : Prop := exists ph rest cur, shape ph rest cur c.

(** *** What a process is at *)

(** The operations of a phase, by cases. *)
Lemma cur_cases ph i cur : (exists l, ops i ph = l ++ cur) -> cur = [] \/
  (ph = Throttled /\ ((cur = [OSend] /\ (i + thr < n)%nat) \/ (cur = [ORecv] /\ (thr <= i)%nat /\ ~ (i + thr < n)%nat) \/ (cur = [ORecv; OSend] /\ (thr <= i)%nat /\ (i + thr < n)%nat))) \/
  (ph = Gathered /\ ((cur = [OCollect] /\ i = 0%nat) \/ (cur = [OGive] /\ i <> 0%nat))).
Proof.
  intros [l E]. destruct ph; cbn [Mpi.ops] in E.
  - left. symmetry in E. by apply app_nil in E as [_ ->].
  - destruct (Nat.leb_spec thr i), (Nat.ltb_spec (i + thr) n); cbn [app] in E;
      destruct l as [|x [|y [|z l]]]; cbn [app] in E; simplify_eq; try (by left); right; left; (split; [done|]);
      first [left; split; [done|lia] | right; left; split_and!; [done|lia|lia] | right; right; split_and!; [done|lia|lia]].
  - destruct (decide (i = 0%nat)); destruct l as [|x [|y l]]; cbn [app] in E; simplify_eq; try (by left); right; right; auto.
Qed.

(** The processes that cannot move on their own. *)
Definition idle p : bool := match p with Done _ | Barrier _ | Recv _ _ | Collect _ _ => true | _ => false end.
Definition stopped p : bool := match p with Stop _ => true | _ => false end.

Lemma mover_steps c i p : procs c !! i = Some p -> length (given c) = length (procs c) -> idle p = false -> stopped p = false ->
  exists c', step exec c (Run i) = Some c'.
Proof.
  intros Hp Hg Hi Hs. cbn [step]. rewrite Hp. destruct p; try done.
  - destruct (exec i c0 (world c)). by eexists.
  - by eexists.
  - destruct (lookup_lt_is_Some_2 (given c) i) as [g Hgi]; [rewrite Hg; by eapply lookup_lt_Some|]. rewrite Hgi. by eexists.
Qed.

(** At a barrier, or done, a process has nothing ahead of it in the phase. *)
Lemma moves_done i cur rest a : moves i cur rest (Done a : proc C R unit) [] [] -> cur = [] /\ rest = [].
Proof. by inversion 1. Qed.

Lemma moves_barrier i cur rest (k : proc C R unit) cur' rest' : moves i cur rest (Barrier k) cur' rest' ->
  cur = [] /\ exists ph rest1, rest = ph :: rest1 /\ moves i (ops i ph) rest1 k cur' rest'.
Proof. inversion 1; subst. split; [done|]. by do 2 eexists. Qed.

Lemma moves_recv i cur rest s (k : proc C R unit) cur' rest' : moves i cur rest (Recv s k) cur' rest' ->
  i = (s + thr)%nat /\ exists cur1, cur = ORecv :: cur1 /\ moves i cur1 rest k cur' rest'.
Proof. inversion 1; subst. split; [done|]. by eexists. Qed.

Lemma moves_send i cur rest d (k : proc C R unit) cur' rest' : moves i cur rest (Send d k) cur' rest' ->
  d = (i + thr)%nat /\ exists cur1, cur = OSend :: cur1 /\ moves i cur1 rest k cur' rest'.
Proof. inversion 1; subst. split; [done|]. by eexists. Qed.

Lemma moves_give i cur rest v (k : proc C R unit) cur' rest' : moves i cur rest (Give v k) cur' rest' ->
  exists cur1, cur = OGive :: cur1 /\ moves i cur1 rest k cur' rest'.
Proof. inversion 1; subst. by eexists. Qed.

Lemma moves_collect i cur rest v (k : list Z -> proc C R unit) cur' rest' : moves i cur rest (Collect v k) cur' rest' ->
  exists cur1, cur = OCollect :: cur1 /\ forall l, moves i cur1 rest (k l) cur' rest'.
Proof. inversion 1; subst. by eexists. Qed.

(** *** Progress *)

Lemma all_barriers (l : list (proc C R unit)) : (forall i p, l !! i = Some p -> exists k, p = Barrier k) -> exists l', mapM after_barrier l = Some l'.
Proof.
  intros H. apply mapM_is_Some. apply list.Forall_forall. intros p Hp. apply list_elem_of_lookup in Hp as [i Hi].
  destruct (H i p Hi) as [k ->]. by eexists.
Qed.

(** The smallest rank with a property. *)
Lemma smallest (l : list (proc C R unit)) (f : proc C R unit -> bool) i p : l !! i = Some p -> f p = true ->
  exists j q, l !! j = Some q /\ f q = true /\ forall m r, (m < j)%nat -> l !! m = Some r -> f r = false.
Proof.
  revert i. induction l as [|q l IH]; intros i Hi Hf; [done|]. destruct (f q) eqn:Eq.
  - exists 0%nat, q. split; [done|]. split; [done|]. intros m r Hm. lia.
  - destruct i as [|i]; [injection Hi as ->; congruence|]. destruct (IH i Hi Hf) as (j & r & Hj & Hr & Hmin). exists (S j), r.
    split; [done|]. split; [done|]. intros [|m] r' Hm Hr'; [injection Hr' as <-; done|]. eapply Hmin; [|exact Hr']. lia.
Qed.

Definition at_recv (p : proc C R unit) : bool := match p with Recv _ _ => true | _ => false end.
Definition at_collect (p : proc C R unit) : bool := match p with Collect _ _ => true | _ => false end.

(** When all wait at a barrier, or are done, they do so together. *)
Lemma all_together ph rest cur c : shape ph rest cur c -> (forall i p, procs c !! i = Some p -> idle p = true) ->
  (forall i p, procs c !! i = Some p -> at_recv p = false /\ at_collect p = false) ->
  (forall i p, procs c !! i = Some p -> p = Done tt) \/ exists c', step exec c Sync = Some c'.
Proof.
  intros Hs Hidle Hno. destruct rest as [|ph' rest'].
  - left. intros i p Hp. assert (Hm := s_moves _ _ _ _ Hs i p Hp). assert (H1 := Hidle i p Hp). destruct (Hno i p Hp) as [H2 H3].
    destruct p as [[]| | | | | | |]; try done. apply moves_barrier in Hm as (_ & ? & ? & ? & _). done.
  - right. destruct (all_barriers (procs c)) as [l Hl]; [|cbn [step]; rewrite Hl; by eexists].
    intros i p Hp. assert (Hm := s_moves _ _ _ _ Hs i p Hp). assert (H1 := Hidle i p Hp). destruct (Hno i p Hp) as [H2 H3].
    destruct p as [a| |k| | | | |]; try done; [|by exists k]. apply moves_done in Hm as [_ ?]. done.
Qed.

Lemma head_given (l : list (list Z)) : (forall i g, l !! i = Some g -> length g = 1%nat) -> exists h, mapM head l = Some h.
Proof.
  intros H. apply mapM_is_Some, list.Forall_forall. intros g Hg. apply list_elem_of_lookup in Hg as [i Hi].
  assert (Hl := H i g Hi). destruct g; [done|by eexists].
Qed.

(** Either some process stopped all, or all are done, or something can happen. *)
Lemma mpi_progress c : in_step c -> (exists i s, procs c !! i = Some (Stop s)) \/ (forall i p, procs c !! i = Some p -> p = Done tt) \/
  exists e c', step exec c e = Some c'.
Proof.
  intros (ph & rest & cur & Hs). assert (Hlg : length (given c) = length (procs c)) by (rewrite (s_given _ _ _ _ Hs); by rewrite (s_len _ _ _ _ Hs)).
  destruct (decide (Exists (fun p => stopped p = true) (procs c))) as [Hst|Hst].
  { left. apply Exists_exists in Hst as (p & Hp & Hst). apply list_elem_of_lookup in Hp as [i Hi]. destruct p; try done. by do 2 eexists. }
  destruct (decide (Exists (fun p => idle p = false) (procs c))) as [Hid|Hid].
  { right; right. apply Exists_exists in Hid as (p & Hp & Hid). apply list_elem_of_lookup in Hp as [i Hi].
    destruct (mover_steps c i p Hi Hlg Hid) as [c' Hc]; [|by exists (Run i), c'].
    destruct (stopped p) eqn:E; [|done]. destruct Hst. apply Exists_exists. exists p. split; [by eapply list_elem_of_lookup_2|done]. }
  assert (Hidle : forall i p, procs c !! i = Some p -> idle p = true).
  { intros i p Hp. destruct (idle p) eqn:E; [done|]. destruct Hid. apply Exists_exists. exists p. split; [by eapply list_elem_of_lookup_2|done]. }
  clear Hst Hid. right.
  destruct (decide (Exists (fun p => at_recv p = true) (procs c))) as [Hr|Hr].
  { right. apply Exists_exists in Hr as (p & Hp & Hr). apply list_elem_of_lookup in Hp as [i Hi].
    destruct (smallest (procs c) at_recv i p Hi Hr) as (j & q & Hj & Hq & Hmin). destruct q as [| | | |s k| | |]; try done.
    assert (Hm := s_moves _ _ _ _ Hs j _ Hj). apply moves_recv in Hm as (Es & cur1 & Ecur & Hm).
    assert (Hjn : (j < n)%nat) by (rewrite <- (s_len _ _ _ _ Hs); by eapply lookup_lt_Some).
    assert (Hphase : ph = Throttled).
    { destruct (cur_cases ph j (cur j) (s_cur _ _ _ _ Hs j Hjn)) as [E|[[E _]|[_ [[E _]|[E _]]]]]; congruence. }
    destruct (lookup_lt_is_Some_2 (procs c) s) as [r Hsr]; [rewrite (s_len _ _ _ _ Hs); lia|].
    assert (Hcs : cur s = []).
    { assert (Hmr := s_moves _ _ _ _ Hs s r Hsr). assert (H1 := Hidle s r Hsr). assert (H2 := Hmin s r ltac:(lia) Hsr).
      destruct r; try done; [by apply moves_done in Hmr as [-> _]|by apply moves_barrier in Hmr as [-> _]|].
      apply moves_collect in Hmr as (cur2 & E2 & _). destruct (cur_cases ph s (cur s)) as [E|[[_ [[E _]|[[E _]|[E _]]]]|[E _]]]; try congruence.
      apply (s_cur _ _ _ _ Hs). lia. }
    exists (Run j). cbn [step]. rewrite Hj. rewrite (s_mail _ _ _ _ Hs), Hphase. cbn [mailed]. rewrite bool_decide_eq_true_2; [by eexists|].
    rewrite Hcs, Ecur. split_and!; [lia|done|by apply not_elem_of_nil|by left]. }
  assert (Hnr : forall i p, procs c !! i = Some p -> at_recv p = false).
  { intros i p Hp. destruct (at_recv p) eqn:E; [|done]. destruct Hr. apply Exists_exists. exists p. split; [by eapply list_elem_of_lookup_2|done]. }
  destruct (decide (Exists (fun p => at_collect p = true) (procs c))) as [Hc|Hc].
  - right. apply Exists_exists in Hc as (p & Hp & Hc). apply list_elem_of_lookup in Hp as [i Hi]. destruct p as [| | | | | |v k|]; try done.
    assert (Hm := s_moves _ _ _ _ Hs i _ Hi). apply moves_collect in Hm as (cur1 & Ecur & Hm).
    assert (Hin : (i < n)%nat) by (rewrite <- (s_len _ _ _ _ Hs); by eapply lookup_lt_Some).
    assert (Hph : ph = Gathered /\ i = 0%nat).
    { destruct (cur_cases ph i (cur i) (s_cur _ _ _ _ Hs i Hin)) as [E|[[_ [[E _]|[[E _]|[E _]]]]|[E [[_ E']|[E' _]]]]]; try congruence. done. }
    destruct Hph as [-> ->]. destruct (head_given (drop 1 (given c))) as [h Hh].
    { intros j g Hg. rewrite lookup_drop in Hg. rewrite (s_offer _ _ _ _ Hs _ g Hg). cbn [offered Nat.add].
      assert (Hjn : (S j < n)%nat) by (rewrite <- (s_given _ _ _ _ Hs); by eapply lookup_lt_Some).
      rewrite bool_decide_eq_true_2; [done|]. split; [done|]. split; [|by rewrite Ecur].
      destruct (lookup_lt_is_Some_2 (procs c) (S j)) as [r Hr']; [by rewrite (s_len _ _ _ _ Hs)|].
      assert (Hmr := s_moves _ _ _ _ Hs _ r Hr'). assert (H1 := Hidle _ r Hr'). assert (H2 := Hnr _ r Hr').
      destruct r; try done; [by apply moves_done in Hmr as [-> _]|by apply moves_barrier in Hmr as [-> _]|].
      apply moves_collect in Hmr as (cur2 & E2 & _).
      destruct (cur_cases Gathered (S j) (cur (S j)) (s_cur _ _ _ _ Hs _ Hjn)) as [E|[[E _]|[_ [[_ E]|[E _]]]]]; congruence. }
    exists (Run 0). cbn [step]. rewrite Hi, Hh. by eexists.
  - destruct (all_together ph rest cur c Hs Hidle) as [H|[c' H]]; [|by left|right; by exists Sync, c'].
    intros i p Hp. split; [by eapply Hnr|]. destruct (at_collect p) eqn:E; [|done]. destruct Hc. apply Exists_exists. exists p.
    split; [by eapply list_elem_of_lookup_2|done].
Qed.

(** *** Preservation *)

Definition upd (cur : nat -> list op) (i : nat) (l : list op) : nat -> list op := fun j => if decide (j = i) then l else cur j.

Lemma upd_eq cur i l : upd cur i l i = l.
Proof. unfold upd. by rewrite decide_True. Qed.

Lemma upd_ne cur i l j : j <> i -> upd cur i l j = cur j.
Proof. intros H. unfold upd. by rewrite decide_False. Qed.

Lemma procs_set (l : list (proc C R unit)) i p j q : <[i := p]> l !! j = Some q -> (j = i /\ q = p) \/ (j <> i /\ l !! j = Some q).
Proof. intros H. apply list_lookup_insert_Some in H as [(-> & -> & _)|[? ?]]; [by left|by right]. Qed.

Lemma waiting_set c src dst k i j : waiting (set_mail src dst k c) i j = if decide ((i, j) = (src, dst)) then k else waiting c i j.
Proof.
  unfold waiting, set_mail. cbn [mail]. destruct (decide ((i, j) = (src, dst))) as [->|Hne]; [by rewrite lookup_insert_eq|by rewrite lookup_insert_ne].
Qed.

(** The operation [x] that rank [i] has just done was its next one. *)
Lemma shape_upd ph rest cur c i x cur1 p w g m : shape ph rest cur c -> (i < n)%nat -> cur i = x :: cur1 -> moves i cur1 rest p [] [] ->
  length g = n ->
  (forall i' j, default 0%nat (m !! (i', j)) = mailed ph (upd cur i cur1) i' j) ->
  (forall j h, g !! j = Some h -> length h = offered ph (upd cur i cur1) j) ->
  (forall j, (j + thr < n)%nat -> OSend ∈ upd cur i cur1 j -> ORecv ∈ upd cur i cur1 (j + thr)%nat) ->
  (forall j, (j < n)%nat -> OGive ∈ upd cur i cur1 j -> upd cur i cur1 0%nat <> []) ->
  shape ph rest (upd cur i cur1) (mkConfig w (<[i := p]> (procs c)) m g).
Proof.
  intros Hs Hi Hcur Hm Hg Hmail Hoff Hord Hroot. split; cbn [procs given]; try done.
  - by rewrite length_insert, (s_len _ _ _ _ Hs).
  - intros j q Hq. destruct (procs_set _ _ _ _ _ Hq) as [[-> ->]|[Hne Hq']]; [by rewrite upd_eq|rewrite upd_ne by done; by apply (s_moves _ _ _ _ Hs)].
  - intros j Hj. destruct (decide (j = i)) as [->|Hne]; [|rewrite upd_ne by done; by apply (s_cur _ _ _ _ Hs)].
    rewrite upd_eq. destruct (s_cur _ _ _ _ Hs i Hi) as [l El]. exists (l ++ [x]). by rewrite <- app_assoc, El, Hcur.
Qed.

Lemma step_call ph rest cur c i x (k : R -> proc C R unit) r w : shape ph rest cur c -> procs c !! i = Some (Call x k) ->
  shape ph rest cur (mkConfig w (<[i := k r]> (procs c)) (mail c) (given c)).
Proof.
  intros Hs Hi. assert (Hm := s_moves _ _ _ _ Hs i _ Hi). inversion Hm as [| |? ? ? ? ? ? Hk| | | | |]; subst.
  destruct Hs as [S1 S2 S3 S4 S5 S6 S7 S8]. split; cbn [procs given]; try done; [by rewrite length_insert|].
  intros j q Hq. destruct (procs_set _ _ _ _ _ Hq) as [[-> ->]|[Hne Hq']]; [apply Hk|by apply S3].
Qed.

Lemma step_send ph rest cur c i d k : shape ph rest cur c -> procs c !! i = Some (Send d k) ->
  in_step (set_proc i k (set_mail i d (S (waiting c i d)) c)).
Proof.
  intros Hs Hi. assert (Hm := s_moves _ _ _ _ Hs i _ Hi). apply moves_send in Hm as (-> & cur1 & Ecur & Hm).
  assert (Hin : (i < n)%nat) by (rewrite <- (s_len _ _ _ _ Hs); by eapply lookup_lt_Some).
  assert (Hc : ph = Throttled /\ cur1 = [] /\ (i + thr < n)%nat).
  { destruct (cur_cases ph i (cur i) (s_cur _ _ _ _ Hs i Hin)) as [E|[[-> [[E ?]|[[E _]|[E _]]]]|[_ [[E _]|[E _]]]]]; try congruence.
    rewrite Ecur in E. by injection E as ->. }
  destruct Hc as (-> & -> & Hlt). assert (Hrecv := s_order _ _ _ _ Hs i Hlt ltac:(rewrite Ecur; by left)).
  exists Throttled, rest, (upd cur i []). assert (Hg := s_given _ _ _ _ Hs). apply (shape_upd Throttled rest cur c i OSend []); auto.
  - intros a b. change (waiting (set_mail i (i + thr) (S (waiting c i (i + thr))) c) a b = mailed Throttled (upd cur i []) a b).
    rewrite waiting_set. destruct (decide ((a, b) = (i, (i + thr)%nat))) as [[= -> ->]|Hne].
    + rewrite (s_mail _ _ _ _ Hs). cbn [mailed]. rewrite bool_decide_eq_false_2 by (intros (_ & _ & H & _); apply H; rewrite Ecur; by left).
      rewrite bool_decide_eq_true_2; [done|]. rewrite upd_eq, upd_ne by lia. split_and!; [done|done|by apply not_elem_of_nil|done].
    + rewrite (s_mail _ _ _ _ Hs). cbn [mailed].
      assert (Hia : (b = (a + thr)%nat /\ (b < n)%nat /\ OSend ∉ cur a /\ ORecv ∈ cur b) <->
                    (b = (a + thr)%nat /\ (b < n)%nat /\ OSend ∉ upd cur i [] a /\ ORecv ∈ upd cur i [] b)).
      { destruct (decide (a = i)) as [->|Ha]; [naive_solver|]. rewrite (upd_ne _ _ _ a) by done. destruct (decide (b = i)) as [->|Hb]; [|by rewrite upd_ne].
        rewrite upd_eq, Ecur. split; intros (? & ? & ? & H); exfalso; [apply list.elem_of_cons in H as [?|H]; [done|]|]; by apply elem_of_nil in H. }
      by rewrite (bool_decide_ext _ _ Hia).
  - intros j g Hgj. rewrite (s_offer _ _ _ _ Hs j g Hgj). done.
  - intros j Hj Ho. destruct (decide (j = i)) as [->|Hne]; [rewrite upd_eq in Ho; by apply elem_of_nil in Ho|]. rewrite upd_ne in Ho by done.
    assert (H := s_order _ _ _ _ Hs j Hj Ho). destruct (decide ((j + thr)%nat = i)) as [E|Hn]; [|by rewrite upd_ne].
    rewrite E, Ecur in H. apply list.elem_of_cons in H as [?|H]; [done|by apply elem_of_nil in H].
  - intros j Hj Ho. exfalso. destruct (decide (j = i)) as [->|Hne]; [rewrite upd_eq in Ho; by apply elem_of_nil in Ho|]. rewrite upd_ne in Ho by done.
    destruct (cur_cases Throttled j (cur j) (s_cur _ _ _ _ Hs j Hj)) as [E|[[_ [[E _]|[[E _]|[E _]]]]|[E _]]]; try done; rewrite E in Ho; set_solver.
Qed.

Lemma step_recv ph rest cur c i src k m : shape ph rest cur c -> procs c !! i = Some (Recv src k) -> waiting c src i = S m ->
  in_step (set_proc i k (set_mail src i m c)).
Proof.
  intros Hs Hi Hw. assert (Hm := s_moves _ _ _ _ Hs i _ Hi). apply moves_recv in Hm as (Ei & cur1 & Ecur & Hm).
  assert (Hin : (i < n)%nat) by (rewrite <- (s_len _ _ _ _ Hs); by eapply lookup_lt_Some). rewrite (s_mail _ _ _ _ Hs) in Hw.
  assert (Hph : ph = Throttled /\ (cur1 = [] \/ cur1 = [OSend])).
  { destruct (cur_cases ph i (cur i) (s_cur _ _ _ _ Hs i Hin)) as [E|[[-> [[E _]|[[E _]|[E _]]]]|[_ [[E _]|[E _]]]]]; try congruence;
      rewrite Ecur in E; injection E as ->; auto. }
  destruct Hph as [-> Hcur1]. cbn [mailed] in Hw. case_bool_decide as Hsent; [|done]. injection Hw as <-. destruct Hsent as (_ & _ & Hns & _).
  assert (Hnr : ORecv ∉ cur1) by (destruct Hcur1 as [-> | ->]; set_solver).
  assert (Hg := s_given _ _ _ _ Hs). exists Throttled, rest, (upd cur i cur1). apply (shape_upd Throttled rest cur c i ORecv cur1); auto.
  - intros a b. change (waiting (set_mail src i 0 c) a b = mailed Throttled (upd cur i cur1) a b). rewrite waiting_set.
    destruct (decide ((a, b) = (src, i))) as [[= -> ->]|Hne].
    + cbn [mailed]. rewrite bool_decide_eq_false_2; [done|]. rewrite upd_eq. by intros (_ & _ & _ & H).
    + rewrite (s_mail _ _ _ _ Hs). cbn [mailed].
      assert (Hia : (b = (a + thr)%nat /\ (b < n)%nat /\ OSend ∉ cur a /\ ORecv ∈ cur b) <->
                    (b = (a + thr)%nat /\ (b < n)%nat /\ OSend ∉ upd cur i cur1 a /\ ORecv ∈ upd cur i cur1 b)).
      { destruct (decide (b = i)) as [->|Hb]; [split; intros (? & _); assert (a = src) by lia; congruence|].
        rewrite (upd_ne _ _ _ b) by done. destruct (decide (a = i)) as [->|Ha]; [|by rewrite upd_ne].
        rewrite upd_eq, Ecur. destruct Hcur1 as [-> | ->]; set_solver. }
      by rewrite (bool_decide_ext _ _ Hia).
  - intros j g Hgj. by rewrite (s_offer _ _ _ _ Hs j g Hgj).
  - intros j Hj Ho. assert (Ho' : OSend ∈ cur j).
    { destruct (decide (j = i)) as [->|Hne]; [rewrite upd_eq in Ho; rewrite Ecur; by right|by rewrite upd_ne in Ho]. }
    destruct (decide ((j + thr)%nat = i)) as [E|Hn]; [assert (j = src) as -> by lia; by destruct Hns|]. rewrite upd_ne by done. by apply (s_order _ _ _ _ Hs).
  - intros j Hj Ho. exfalso. destruct (decide (j = i)) as [->|Hne]; [rewrite upd_eq in Ho; destruct Hcur1 as [-> | ->]; set_solver|]. rewrite upd_ne in Ho by done.
    destruct (cur_cases Throttled j (cur j) (s_cur _ _ _ _ Hs j Hj)) as [E|[[_ [[E _]|[[E _]|[E _]]]]|[E _]]]; try done; rewrite E in Ho; set_solver.
Qed.

(** In a gathering there are no messages. *)
Lemma gathered_ops cur c rest i : shape Gathered rest cur c -> (i < n)%nat -> OSend ∉ cur i /\ ORecv ∉ cur i.
Proof.
  intros Hs Hi. destruct (cur_cases Gathered i (cur i) (s_cur _ _ _ _ Hs i Hi)) as [E|[[E _]|[_ [[E _]|[E _]]]]]; try done; rewrite E; set_solver.
Qed.

Lemma step_give ph rest cur c i v k g : shape ph rest cur c -> procs c !! i = Some (Give v k) -> given c !! i = Some g ->
  in_step (set_proc i k (set_given (<[i := g ++ [v]]> (given c)) c)).
Proof.
  intros Hs Hi Hgi. assert (Hm := s_moves _ _ _ _ Hs i _ Hi). apply moves_give in Hm as (cur1 & Ecur & Hm).
  assert (Hin : (i < n)%nat) by (rewrite <- (s_len _ _ _ _ Hs); by eapply lookup_lt_Some).
  assert (Hph : ph = Gathered /\ cur1 = [] /\ i <> 0%nat).
  { destruct (cur_cases ph i (cur i) (s_cur _ _ _ _ Hs i Hin)) as [E|[[-> [[E _]|[[E _]|[E _]]]]|[-> [[E _]|[E ?]]]]]; try congruence.
    rewrite Ecur in E. by injection E as ->. }
  destruct Hph as (-> & -> & Hi0). assert (Hroot := s_root _ _ _ _ Hs i Hin ltac:(rewrite Ecur; by left)).
  assert (Hgl := s_offer _ _ _ _ Hs i g Hgi). cbn [offered] in Hgl. rewrite bool_decide_eq_false_2 in Hgl by (rewrite Ecur; naive_solver).
  exists Gathered, rest, (upd cur i []). apply (shape_upd Gathered rest cur c i OGive []); auto.
  - cbn [given set_given]. by rewrite length_insert, (s_given _ _ _ _ Hs).
  - intros a b. apply (s_mail _ _ _ _ Hs).
  - intros j h Hj. cbn [given set_given] in Hj. apply list_lookup_insert_Some in Hj as [(-> & <- & _)|[Hne Hj]].
    + rewrite length_app, Hgl. cbn [offered length Nat.add]. rewrite bool_decide_eq_true_2; [done|]. rewrite upd_eq, upd_ne by done. done.
    + rewrite (s_offer _ _ _ _ Hs j h Hj). cbn [offered]. by rewrite !upd_ne by done.
  - intros j Hj Ho. exfalso. destruct (decide (j = i)) as [->|Hne]; [rewrite upd_eq in Ho; by apply elem_of_nil in Ho|]. rewrite upd_ne in Ho by done.
    by destruct (gathered_ops cur c rest j Hs ltac:(lia)).
  - intros j Hj Ho. by rewrite upd_ne.
Qed.

Lemma step_collect ph rest cur c i v k heads : shape ph rest cur c -> procs c !! i = Some (Collect v k) -> mapM head (drop 1 (given c)) = Some heads ->
  in_step (set_proc i (k (v :: heads)) (set_given (take 1 (given c) ++ (tail <$> drop 1 (given c))) c)).
Proof.
  intros Hs Hi Hh. assert (Hm := s_moves _ _ _ _ Hs i _ Hi). apply moves_collect in Hm as (cur1 & Ecur & Hm).
  assert (Hin : (i < n)%nat) by (rewrite <- (s_len _ _ _ _ Hs); by eapply lookup_lt_Some).
  assert (Hph : ph = Gathered /\ cur1 = [] /\ i = 0%nat).
  { destruct (cur_cases ph i (cur i) (s_cur _ _ _ _ Hs i Hin)) as [E|[[-> [[E _]|[[E _]|[E _]]]]|[-> [[E ?]|[E _]]]]]; try congruence.
    rewrite Ecur in E. by injection E as ->. }
  destruct Hph as (-> & -> & ->).
  assert (Hall : forall j, (0 < j < n)%nat -> cur j = []).
  { intros j Hj. destruct (lookup_lt_is_Some_2 (given c) j) as [g Hg]; [rewrite (s_given _ _ _ _ Hs); lia|].
    assert (Hne : g <> []).
    { intros ->. apply mapM_Some_1 in Hh. assert (Hd : drop 1 (given c) !! (j - 1)%nat = Some []) by (rewrite lookup_drop; by replace (1 + (j - 1))%nat with j by lia).
      eapply Forall2_lookup_l in Hh as (z & _ & Hz); [|exact Hd]. done. }
    assert (Hl := s_offer _ _ _ _ Hs j g Hg). cbn [offered] in Hl. case_bool_decide as Hb; [by destruct Hb as (_ & ? & _)|]. by destruct g. }
  exists Gathered, rest, (upd cur 0 []). apply (shape_upd Gathered rest cur c 0 OCollect []); auto.
  - cbn [given set_given]. rewrite length_app, length_take, length_fmap, length_drop, (s_given _ _ _ _ Hs). lia.
  - intros a b. apply (s_mail _ _ _ _ Hs).
  - intros j h Hj. cbn [offered]. rewrite bool_decide_eq_false_2 by (rewrite upd_eq; naive_solver). cbn [given set_given] in Hj.
    destruct (given c) as [|g0 gs] eqn:Eg; [done|]. cbn [take drop app] in Hj. rewrite take_0, drop_0 in Hj. destruct j as [|j].
    + injection Hj as <-. assert (Hl := s_offer _ _ _ _ Hs 0%nat g0). rewrite Eg in Hl. rewrite (Hl eq_refl). cbn [offered].
      by rewrite bool_decide_eq_false_2 by naive_solver.
    + change ((tail <$> gs) !! j = Some h) in Hj. rewrite list_lookup_fmap in Hj. destruct (gs !! j) as [g|] eqn:Egj; [|done]. injection Hj as <-.
      assert (Hl := s_offer _ _ _ _ Hs (S j) g). rewrite Eg in Hl. assert (Hle : (length g <= 1)%nat) by (rewrite (Hl Egj); cbn [offered]; case_bool_decide; lia).
      destruct g as [|a [|b g]]; [done|done|cbn in Hle; lia].
  - intros j Hj Ho. exfalso. destruct (decide (j = 0%nat)) as [->|Hne]; [rewrite upd_eq in Ho; by apply elem_of_nil in Ho|]. rewrite upd_ne in Ho by done.
    by destruct (gathered_ops cur c rest j Hs ltac:(lia)).
  - intros j Hj Ho. exfalso. destruct (decide (j = 0%nat)) as [->|Hne]; [rewrite upd_eq in Ho; by apply elem_of_nil in Ho|]. rewrite upd_ne, Hall in Ho by lia.
    by apply elem_of_nil in Ho.
Qed.

Lemma step_sync ph rest cur c l : (0 < n)%nat -> shape ph rest cur c -> mapM after_barrier (procs c) = Some l ->
  in_step (mkConfig (world c) l (mail c) (given c)).
Proof.
  intros Hn Hs Hl. apply mapM_Some_1 in Hl.
  assert (Hbar : forall i q, l !! i = Some q -> cur i = [] /\ exists ph' rest', rest = ph' :: rest' /\ moves i (ops i ph') rest' q [] []).
  { intros i q Hq. eapply Forall2_lookup_r in Hl as (p & Hp & Hpq); [|exact Hq]. assert (Hm := s_moves _ _ _ _ Hs i p Hp).
    destruct p; try done. injection Hpq as <-. by apply moves_barrier. }
  assert (Hlen : length l = n) by (rewrite <- (s_len _ _ _ _ Hs); symmetry; by eapply Forall2_length).
  assert (Hcur : forall i, (i < n)%nat -> cur i = []).
  { intros i Hi. destruct (lookup_lt_is_Some_2 l i) as [q Hq]; [by rewrite Hlen|]. by apply (Hbar i q). }
  destruct (lookup_lt_is_Some_2 l 0) as [q0 Hq0]; [by rewrite Hlen|]. destruct (Hbar _ _ Hq0) as (_ & ph' & rest' & -> & _).
  exists ph', rest', (fun i => ops i ph'). split; cbn [procs given]; try done.
  - apply (s_given _ _ _ _ Hs).
  - intros i q Hq. destruct (Hbar i q Hq) as (_ & ph1 & rest1 & [= <- <-] & H). done.
  - intros i Hi. by exists [].
  - intros i j. change (waiting c i j = mailed ph' (fun i => ops i ph') i j). rewrite (s_mail _ _ _ _ Hs).
    assert (E : mailed ph cur i j = 0%nat).
    { unfold mailed. destruct ph; try done. rewrite bool_decide_eq_false_2; [done|]. intros (_ & Hj & _ & H). rewrite Hcur in H by done. by apply elem_of_nil in H. }
    rewrite E. unfold mailed. destruct ph'; try done. rewrite bool_decide_eq_false_2; [done|]. intros (-> & Hj & H & _). apply H. cbn [Mpi.ops].
    destruct (Nat.ltb_spec (i + thr) n); [|lia]. apply list.elem_of_app. right. by left.
  - intros i g Hg. rewrite (s_offer _ _ _ _ Hs i g Hg).
    assert (E : offered ph cur i = 0%nat).
    { unfold offered. destruct ph; try done. rewrite bool_decide_eq_false_2; [done|]. intros (_ & _ & H). apply H, Hcur. lia. }
    rewrite E. unfold offered. destruct ph'; try done. rewrite bool_decide_eq_false_2; [done|]. cbn [Mpi.ops]. intros (H1 & H2 & _).
    by rewrite decide_False in H2.
  - intros i Hi Ho. destruct ph'; cbn [Mpi.ops] in *; [by apply elem_of_nil in Ho| |].
    + destruct (Nat.leb_spec thr (i + thr)); [|lia]. by left.
    + destruct (decide (i = 0%nat)); set_solver.
  - intros i Hi Ho. destruct ph'; cbn [Mpi.ops] in *; [by apply elem_of_nil in Ho| |by rewrite decide_True].
    destruct (Nat.leb_spec thr i), (Nat.ltb_spec (i + thr) n); set_solver.
Qed.

Lemma step_in_step c e c' : (0 < n)%nat -> in_step c -> step exec c e = Some c' -> in_step c'.
Proof.
  intros Hn (ph & rest & cur & Hs) Hst. destruct e as [i|]; cbn [step] in Hst.
  - destruct (procs c !! i) as [p|] eqn:Hi; [|done]. destruct p as [|x k| |d k|src k|v k|v k|]; try done.
    + destruct (exec i x (world c)) as [r w]. injection Hst as <-. exists ph, rest, cur. by eapply step_call.
    + injection Hst as <-. by eapply step_send.
    + destruct (waiting c src i) as [|m] eqn:Ew; [done|]. injection Hst as <-. by eapply step_recv.
    + destruct (given c !! i) as [g|] eqn:Eg; [|done]. injection Hst as <-. by eapply step_give.
    + destruct (mapM head (drop 1 (given c))) as [h|] eqn:Eh; [|done]. injection Hst as <-. by eapply step_collect.
  - destruct (mapM after_barrier (procs c)) as [l|] eqn:El; [|done]. injection Hst as <-. by eapply step_sync.
Qed.

Lemma run_in_step es c c' : (0 < n)%nat -> in_step c -> run exec c es = Some c' -> in_step c'.
Proof.
  intros Hn. revert c. induction es as [|e es IH]; intros c Hc Hr; [by injection Hr as <-|]. cbn [run] in Hr.
  destruct (step exec c e) as [c1|] eqn:E; [|done]. eapply IH; [by eapply step_in_step|done].
Qed.

(** Processes with the same phases ahead start in step. *)
Lemma launch_in_step (p : nat -> proc C R unit) sk w : (forall i, (i < n)%nat -> moves i [] sk (p i) [] []) -> in_step (launch n p w).
Proof.
  intros Hp. exists Plain, sk, (fun _ => []). split; cbn [procs given launch]; try done.
  - by rewrite length_fmap, length_seq.
  - apply length_replicate.
  - intros i q Hq. rewrite list_lookup_fmap in Hq. destruct (seq 0 n !! i) as [j|] eqn:E; [|done]. injection Hq as <-.
    apply lookup_seq in E as [-> Hi]. by apply Hp.
  - intros i Hi. by exists [].
  - by intros i g [-> _]%lookup_replicate.
  - intros i _ H. by apply elem_of_nil in H.
  - intros i _ H. by apply elem_of_nil in H.
Qed.

End Progress.

(** ** Lists of processes *)

Section Below.
Context {A : Type} (sub : A -> A -> Prop).

(** Some elements of a list go one step. *)
Definition leq (q p : A) : Prop := q = p \/ sub q p.

Inductive below : list A -> list A -> Prop :=
| below_here q p l' l : sub q p -> Forall2 leq l' l -> below (q :: l') (p :: l)
| below_there p l' l : below l' l -> below (p :: l') (p :: l).

Lemma leq_refl l : Forall2 leq l l.
Proof. induction l; constructor; [by left|done]. Qed.

Lemma leq_below l' l : Forall2 leq l' l -> l' = l \/ below l' l.
Proof.
  induction 1 as [|q p l' l [->|Hq] Hl IH]; [by left| |right; by constructor]. destruct IH as [->|IH]; [by left|right; by constructor].
Qed.

Lemma below_wf : well_founded sub -> well_founded below.
Proof.
  intros Hwf l. induction l as [|p l IH]; [constructor; intros l' H; inversion H|]. revert l IH.
  induction (Hwf p) as [p _ IHp]. intros l Hl. induction Hl as [l Hl IHl]. constructor. intros l1 H. inversion H; subst.
  - apply IHp; [done|]. destruct (leq_below _ _ H4) as [->|Hb]; [by constructor|by apply Hl].
  - by apply IHl.
Qed.

Lemma below_insert (l : list A) i p q : l !! i = Some p -> sub q p -> below (<[i := q]> l) l.
Proof.
  revert i. induction l as [|r l IH]; intros [|i] Hi Hq; try done.
  - injection Hi as ->. constructor; [done|apply leq_refl].
  - apply (below_there r). by apply (IH i).
Qed.

End Below.

(** ** Every schedule ends *)

Section Ending.
Import Mpi.
Context {C R W : Type} (exec : nat -> C -> W -> R * W).

(** What a process can be after one step. *)
Inductive sub : proc C R unit -> proc C R unit -> Prop :=
| sub_call c k r : sub (k r) (Call c k)
| sub_barrier k : sub k (Barrier k)
| sub_send d k : sub k (Send d k)
| sub_recv s k : sub k (Recv s k)
| sub_give v k : sub k (Give v k)
| sub_collect v k l : sub (k l) (Collect v k).

Lemma sub_wf : well_founded sub.
Proof. intros p. induction p; constructor; intros q Hq; inversion Hq; subst; auto. Qed.

Lemma step_below c e c' : procs c <> [] -> step exec c e = Some c' -> below sub (procs c') (procs c).
Proof.
  intros Hne Hst. destruct e as [i|]; cbn [step] in Hst.
  - destruct (procs c !! i) as [p|] eqn:Hi; [|done]. destruct p as [|x k| |d k|src k|v k|v k|]; try done.
    + destruct (exec i x (world c)) as [r w]. injection Hst as <-. eapply below_insert; [exact Hi|constructor].
    + injection Hst as <-. eapply below_insert; [exact Hi|constructor].
    + destruct (waiting c src i); [done|]. injection Hst as <-. eapply below_insert; [exact Hi|constructor].
    + destruct (given c !! i); [|done]. injection Hst as <-. eapply below_insert; [exact Hi|constructor].
    + destruct (mapM head (drop 1 (given c))); [|done]. injection Hst as <-. eapply below_insert; [exact Hi|constructor].
  - destruct (mapM after_barrier (procs c)) as [l|] eqn:El; [|done]. injection Hst as <-. cbn [procs]. apply mapM_Some_1 in El.
    destruct El as [|p q ps l Hp Hl]; [done|]. destruct p; try done. injection Hp as <-. constructor; [constructor|].
    clear -Hl. induction Hl as [|p q ps l Hp Hl IH]; constructor; [|done]. right. destruct p; try done. injection Hp as <-. constructor.
Qed.

(** No schedule goes on for ever. *)
Lemma schedules_end c : procs c <> [] -> Acc (fun c' c => exists e, step exec c e = Some c') c.
Proof.
  intros Hne. remember (procs c) as l eqn:El. revert c El. induction (below_wf sub sub_wf l) as [l _ IH]. intros c ->. constructor. intros c' [e He].
  assert (Hb := step_below c e c' Hne He). eapply IH; [exact Hb| |done]. by inversion Hb.
Qed.

End Ending.
