(* ===== verification/Groups.v ===== *)
(** * Processes that meet in groups

    util/mdtest.c runs its tests on the first so many processes of an MPI run: it makes
    communicators of a prefix of the ranks and waits at their barriers, next to barriers,
    broadcasts and gatherings of all processes, and rank 0 receives one message from each of the
    others, in any order.  [Groups] has what it uses of MPI: a meeting of the first [m] ranks,
    at which each shows a value to all (a barrier shows nothing, of a broadcast only the value
    of rank 0 is used, of a gathering only rank 0 uses the values), a message to rank 0, and its
    receipt from any source.  That a meeting makes all its members wait is the demand of the MPI
    standard on portable programs, which may rely neither on that nor on the contrary.

    [follows] gives a process the meetings that it attends; processes that follow one list of
    meetings never wait for each other for ever. *)

From S2P Require Import Prelude Mpi.
From stdpp Require Import fin_maps gmap.

Module Groups.
Import Mpi(stop).

Section Processes.
Context {C R V : Type}.

(** A process with the system calls [C], their answers [R] and the values [V]. *)
Inductive proc (A : Type) : Type :=
| Done (a : A)
| Call (c : C) (k : R -> proc A)
| Meet (m : nat) (v : V) (k : list V -> proc A)
| Tell (v : V) (k : proc A)
| Hear (k : V -> proc A)
| Stop (s : stop).
#[global] Arguments Done {A} a.
#[global] Arguments Call {A} c k.
#[global] Arguments Meet {A} m v k.
#[global] Arguments Tell {A} v k.
#[global] Arguments Hear {A} k.
#[global] Arguments Stop {A} s.

#[export] Instance proc_ret : MRet proc := fun _ a => Done a.
#[export] Instance proc_bind : MBind proc := fun A B f =>
  fix go (p : proc A) : proc B :=
    match p with
    | Done a => f a
    | Call c k => Call c (fun r => go (k r))
    | Meet m v k => Meet m v (fun l => go (k l))
    | Tell v k => Tell v (go k)
    | Hear k => Hear (fun v => go (k v))
    | Stop s => Stop s
    end.

(** ** The machine *)

Context {W : Type}.

(** The world, the processes by rank, and the messages to rank 0 that are not received yet. *)
Record config : Type := mkConfig { world : W; procs : list (proc unit); box : list V }.

(** Process [i] makes its next step, or the first [m] processes meet. *)
Inductive event : Type := Run (i : nat) | Together (m : nat).

Definition at_meeting (m : nat) (p : proc unit) : option (V * (list V -> proc unit)) :=
  match p with Meet m' v k => if decide (m' = m) then Some (v, k) else None | _ => None end.

Variable exec : nat -> C -> W -> R * W.

Definition step (c : config) (e : event) : option config :=
  match e with
  | Together m =>
      if (0 <? m)%nat && (m <=? length (procs c))%nat then
        l ← mapM (at_meeting m) (take m (procs c));
        Some (mkConfig (world c) (((fun x => x.2 l.*1) <$> l) ++ drop m (procs c)) (box c))
      else None
  | Run i =>
      match procs c !! i with
      | Some (Call x k) =>
          let '(r, w) := exec i x (world c) in
          Some (mkConfig w (<[i := k r]> (procs c)) (box c))
      | Some (Tell v k) => Some (mkConfig (world c) (<[i := k]> (procs c)) (box c ++ [v]))
      | Some (Hear k) =>
          match box c with [] => None | v :: b => Some (mkConfig (world c) (<[i := k v]> (procs c)) b) end
      | _ => None
      end
  end.

Fixpoint run (c : config) (es : list event) : option config :=
  match es with [] => Some c | e :: es' => c ← step c e; run c es' end.

Definition launch (n : nat) (p : nat -> proc unit) (w : W) : config := mkConfig w (p <$> seq 0 n) [].

(** ** What a process takes part in *)

Inductive op : Type := OTell | OHear | OMeet (m : nat).

(** Process [p] takes part in [ops] and, when it is done, [ops'] is left; it stops all only in
    ways that are [ok]. *)
Variable ok : stop -> Prop.
Inductive follows {A} : list op -> proc A -> list op -> Prop :=
| f_done ops a : follows ops (Done a) ops
| f_stop ops s ops' : ok s -> follows ops (Stop s) ops'
| f_call ops c k ops' : (forall r, follows ops (k r) ops') -> follows ops (Call c k) ops'
| f_meet m ops v k ops' : (forall l, follows ops (k l) ops') -> follows (OMeet m :: ops) (Meet m v k) ops'
| f_tell ops v k ops' : follows ops k ops' -> follows (OTell :: ops) (Tell v k) ops'
| f_hear ops k ops' : (forall v, follows ops (k v) ops') -> follows (OHear :: ops) (Hear k) ops'.

(** Every result of a process that does not stop has the property [Q]. *)
Fixpoint yields {A} (Q : A -> Prop) (p : proc A) : Prop :=
  match p with
  | Done a => Q a
  | Call _ k => forall r, yields Q (k r)
  | Meet _ _ k => forall l, yields Q (k l)
  | Tell _ k => yields Q k
  | Hear k => forall v, yields Q (k v)
  | Stop _ => True
  end.

End Processes.

#[global] Arguments proc C R V A : clear implicits.

End Groups.

(** ** No process waits for ever *)

Section Progress.
Import Groups.
Context {C R V W : Type} (exec : nat -> C -> W -> R * W) (n : nat) (ok : Mpi.stop -> Prop).
Local Abbreviation follows := (Groups.follows ok).
Implicit Types (c : @config C R V W) (p : proc C R V unit).

Lemma follows_bind {A B} ops (p : proc C R V A) ops1 (f : A -> proc C R V B) ops2 :
  follows ops p ops1 -> (forall a, follows ops1 (f a) ops2) -> follows ops (p ≫= f) ops2.
Proof. intros Hp Hf. induction Hp; cbn; try (constructor; auto); auto. Qed.

Lemma yields_bind {A B} (Q : A -> Prop) (Q' : B -> Prop) (p : proc C R V A) (f : A -> proc C R V B) :
  yields Q p -> (forall a, Q a -> yields Q' (f a)) -> yields Q' (p ≫= f).
Proof. intros Hp Hf. induction p; cbn in *; auto. Qed.

Lemma yields_any {A} (p : proc C R V A) : yields (fun _ => True) p.
Proof. induction p; cbn; auto. Qed.

Lemma follows_bind_yields {A B} (Q : A -> Prop) ops (p : proc C R V A) ops1 (f : A -> proc C R V B) ops2 :
  follows ops p ops1 -> yields Q p -> (forall a, Q a -> follows ops1 (f a) ops2) -> follows ops (p ≫= f) ops2.
Proof. intros Hp. induction Hp; cbn; intros HQ Hf; try (constructor; auto); auto. Qed.

(** The meetings of [rest] that rank [i] attends. *)
Definition attends (i : nat) (rest : list nat) : list op := OMeet <$> filter (fun m => i < m)%nat rest.

Definition talk (hears : nat) (tells : list nat) (i : nat) : list op :=
  match i with O => replicate hears OHear | S _ => replicate (default O (tells !! i)) OTell end.

(** Each rank has its messages and then the meetings of [rest] ahead; the messages sent and not
    received, and those still to be sent, are the ones that rank 0 waits for. *)
Record agree (hears : nat) (tells : list nat) (rest : list nat) (c : @config C R V W) : Prop := mkAgree {
  a_len : length (procs c) = n;
  a_tells : length tells = n;
  a_root : tells !! 0%nat = Some 0%nat;
  a_sizes : Forall (fun m => 0 < m <= n)%nat rest;
  a_follows : forall i p, procs c !! i = Some p -> follows (talk hears tells i ++ attends i rest) p [];
  a_count : (Z.of_nat (length (box c)) + sum_of Z.of_nat tells = Z.of_nat hears)%Z
}.

Definition agreed (c : @config C R V W) : Prop := exists hears tells rest, agree hears tells rest c.

Lemma follows_done ops (a : unit) ops' : follows ops (Done a : proc C R V unit) ops' -> ops = ops'.
Proof. by inversion 1. Qed.

Lemma follows_meet ops m v (k : list V -> proc C R V unit) ops' : follows ops (Meet m v k) ops' ->
  exists ops1, ops = OMeet m :: ops1 /\ forall l, follows ops1 (k l) ops'.
Proof. inversion 1; subst. by eexists. Qed.

Lemma follows_tell ops v (k : proc C R V unit) ops' : follows ops (Tell v k) ops' -> exists ops1, ops = OTell :: ops1 /\ follows ops1 k ops'.
Proof. inversion 1; subst. by eexists. Qed.

Lemma follows_hear ops (k : V -> proc C R V unit) ops' : follows ops (Hear k) ops' ->
  exists ops1, ops = OHear :: ops1 /\ forall v, follows ops1 (k v) ops'.
Proof. inversion 1; subst. by eexists. Qed.

Lemma attends_head i rest x ops : attends i rest = x :: ops -> exists m, x = OMeet m.
Proof. unfold attends. destruct (filter _ rest) as [|m l]; [done|]. intros [= <- <-]. by exists m. Qed.

(** What the next operation says of the messages. *)
Lemma talk_tell hears tells i rest ops : talk hears tells i ++ attends i rest = OTell :: ops ->
  exists j k, i = S j /\ tells !! i = Some (S k) /\ ops = talk hears (<[i := k]> tells) i ++ attends i rest.
Proof.
  unfold talk. destruct i as [|j].
  - destruct hears; cbn; [|done]. intros E. by apply attends_head in E as [? ?].
  - destruct (tells !! S j) as [[|k]|] eqn:E; cbn; [intros H; by apply attends_head in H as [? ?]| |intros H; by apply attends_head in H as [? ?]].
    intros [= <-]. exists j, k. rewrite list_lookup_insert_eq by by eapply lookup_lt_Some. done.
Qed.

Lemma talk_hear hears tells i rest ops : talk hears tells i ++ attends i rest = OHear :: ops ->
  exists h, i = 0%nat /\ hears = S h /\ ops = talk h tells i ++ attends i rest.
Proof.
  unfold talk. destruct i as [|j].
  - destruct hears as [|h]; cbn; [intros E; by apply attends_head in E as [? ?]|]. intros [= <-]. by exists h.
  - destruct (default _ _); cbn; [intros E; by apply attends_head in E as [? ?]|done].
Qed.

Lemma talk_meet hears tells i rest m ops : talk hears tells i ++ attends i rest = OMeet m :: ops ->
  talk hears tells i = [] /\ attends i rest = OMeet m :: ops.
Proof. unfold talk. destruct i; [destruct hears|destruct (default _ _)]; done. Qed.

Lemma talk_nil hears tells i rest : talk hears tells i ++ attends i rest = [] -> talk hears tells i = [] /\ attends i rest = [].
Proof. apply app_nil. Qed.

Lemma no_messages hears tells rest c : agree hears tells rest c -> hears = 0%nat -> forall i, talk hears tells i = [].
Proof.
  intros Ha -> i. destruct i as [|i]; [done|]. cbn [talk]. destruct (tells !! S i) as [k|] eqn:E; [|done]. cbn.
  assert (Hc := a_count _ _ _ _ Ha). assert (Hk := sum_of_lookup Z.of_nat tells _ k ltac:(lia) E). assert (k = 0%nat) as -> by lia. done.
Qed.

(** The processes that can move on their own. *)
Definition moving p : bool := match p with Call _ _ | Tell _ _ => true | _ => false end.
Definition halted p : bool := match p with Stop _ => true | _ => false end.
Definition hearing p : bool := match p with Hear _ => true | _ => false end.

Lemma all_or_some (l : list (proc C R V unit)) (f : proc C R V unit -> bool) :
  (exists i p, l !! i = Some p /\ f p = true) \/ forall i p, l !! i = Some p -> f p = false.
Proof.
  destruct (decide (Exists (fun p => f p = true) l)) as [H|H].
  - left. apply Exists_exists in H as (p & Hp & Hf). apply list_elem_of_lookup in Hp as [i Hi]. by exists i, p.
  - right. intros i p Hi. destruct (f p) eqn:E; [|done]. destruct H. apply Exists_exists. exists p. split; [by eapply list_elem_of_lookup_2|done].
Qed.

(** A process that stopped did so in one of the ways that are [ok]. *)
Lemma agreed_stop c i s : agreed c -> procs c !! i = Some (Stop s) -> ok s.
Proof. intros (hears & tells & rest & Ha) Hi. assert (Hf := a_follows _ _ _ _ Ha i _ Hi). by inversion Hf. Qed.

(** *** Progress *)

Lemma meeting_found (l : list (proc C R V unit)) m : (forall i p, l !! i = Some p -> exists v k, p = Meet m v k) ->
  exists l', mapM (at_meeting m) l = Some l'.
Proof.
  intros H. apply mapM_is_Some, list.Forall_forall. intros p Hp. apply list_elem_of_lookup in Hp as [i Hi].
  destruct (H i p Hi) as (v & k & ->). cbn. rewrite decide_True by done. by eexists.
Qed.

Lemma attends_cons i m rest : attends i (m :: rest) = if decide (i < m)%nat then OMeet m :: attends i rest else attends i rest.
Proof. unfold attends. rewrite filter_cons. by destruct (decide (i < m)%nat). Qed.

(** Either some process stopped all, or all are done, or something can happen. *)
Lemma groups_progress c : agreed c -> (exists i s, procs c !! i = Some (Stop s)) \/ (forall i p, procs c !! i = Some p -> p = Done tt) \/
  exists e c', step exec c e = Some c'.
Proof.
  intros (hears & tells & rest & Ha).
  destruct (all_or_some (procs c) halted) as [(i & p & Hi & Hp)|Hstop]; [left; destruct p; try done; by do 2 eexists|].
  destruct (all_or_some (procs c) moving) as [(i & p & Hi & Hp)|Hmove].
  { right; right. exists (Run i). cbn [step]. rewrite Hi. destruct p; try done; [|by eexists]. destruct (exec i c0 (world c)). by eexists. }
  right. destruct (all_or_some (procs c) hearing) as [(i & p & Hi & Hp)|Hhear].
  { right. destruct p as [| | | |k|]; try done. assert (Hf := a_follows _ _ _ _ Ha i _ Hi). apply follows_hear in Hf as (ops & E & _).
    apply talk_hear in E as (h & -> & -> & _). exists (Run 0). cbn [step]. rewrite Hi. assert (Hc := a_count _ _ _ _ Ha).
    destruct (box c); [|by eexists]. exfalso. destruct (sum_of_pos Z.of_nat tells) as (j & t & Hj & Ht); [cbn in Hc; lia|].
    destruct j as [|j]; [assert (E := a_root _ _ _ _ Ha); rewrite E in Hj; injection Hj as <-; lia|]. destruct t as [|t]; [lia|].
    destruct (lookup_lt_is_Some_2 (procs c) (S j)) as [q Hq]; [rewrite (a_len _ _ _ _ Ha), <- (a_tells _ _ _ _ Ha); by eapply lookup_lt_Some|].
    assert (Hf := a_follows _ _ _ _ Ha _ q Hq). cbn [talk] in Hf. rewrite Hj in Hf. cbn in Hf.
    assert (H1 := Hstop _ _ Hq). assert (H2 := Hmove _ _ Hq). destruct q; try done.
    - apply follows_done in Hf. done.
    - apply follows_meet in Hf as (? & ? & _). done.
    - apply follows_hear in Hf as (? & ? & _). done. }
  assert (Hat : forall i p, procs c !! i = Some p -> p = Done tt \/ exists m v k, p = Meet m v k).
  { intros i p Hi. assert (H1 := Hstop _ _ Hi). assert (H2 := Hmove _ _ Hi). assert (H3 := Hhear _ _ Hi). destruct p as [[]| | | | |]; try done; [by left|right; by do 3 eexists]. }
  assert (Hno : forall i p, procs c !! i = Some p -> talk hears tells i = []).
  { intros i p Hi. assert (Hf := a_follows _ _ _ _ Ha i p Hi). destruct (Hat i p Hi) as [->|(m & v & k & ->)].
    - apply follows_done in Hf. by apply talk_nil in Hf as [? _].
    - apply follows_meet in Hf as (ops & E & _). by apply talk_meet in E as [? _]. }
  destruct rest as [|m rest].
  - left. intros i p Hi. destruct (Hat i p Hi) as [?|(m & v & k & ->)]; [done|]. assert (Hf := a_follows _ _ _ _ Ha i _ Hi).
    rewrite (Hno i _ Hi) in Hf. by apply follows_meet in Hf as (? & ? & _).
  - right. assert (Hm := a_sizes _ _ _ _ Ha). apply Forall_cons_1 in Hm as [[Hm0 Hmn] _]. exists (Together m). cbn [step].
    rewrite (a_len _ _ _ _ Ha). destruct (Nat.ltb_spec 0 m); [|lia]. destruct (Nat.leb_spec m n); [|lia]. cbn [andb].
    destruct (meeting_found (take m (procs c)) m) as [l Hl]; [|rewrite Hl; by eexists]. intros i p Hi.
    apply lookup_take_Some in Hi as [Hi Hlt]. assert (Hf := a_follows _ _ _ _ Ha i p Hi). rewrite (Hno i p Hi) in Hf. cbn [app] in Hf.
    rewrite attends_cons, decide_True in Hf by done. destruct (Hat i p Hi) as [->|(m' & v & k & ->)]; [by apply follows_done in Hf|].
    apply follows_meet in Hf as (? & [= <- _] & _). by do 2 eexists.
Qed.

(** *** Preservation *)

Lemma set_lookup (l : list (proc C R V unit)) i p j q : <[i := p]> l !! j = Some q -> (j = i /\ q = p) \/ (j <> i /\ l !! j = Some q).
Proof. intros H. apply list_lookup_insert_Some in H as [(-> & -> & _)|[? ?]]; [by left|by right]. Qed.

Lemma step_together hears tells rest c m l : agree hears tells rest c -> (0 < m <= n)%nat -> mapM (at_meeting m) (take m (procs c)) = Some l ->
  exists rest', rest = m :: rest' /\ agree hears tells rest' (mkConfig (world c) (((fun x => x.2 l.*1) <$> l) ++ drop m (procs c)) (box c)).
Proof.
  intros Ha [Hm0 Hmn] Hl. assert (Hlen := a_len _ _ _ _ Ha).
  assert (Hat : forall i p, (i < m)%nat -> procs c !! i = Some p -> exists v k, l !! i = Some (v, k) /\ p = Meet m v k).
  { intros i p Hi Hp. apply mapM_Some_1 in Hl. eapply (Forall2_lookup_l _ _ _ i p) in Hl as ([v k] & Hk & E); [|by rewrite lookup_take_lt].
    destruct p; try done. cbn in E. destruct (decide _) as [->|]; [|done]. injection E as -> ->. by exists v, k. }
  assert (Hll : length l = m) by (apply mapM_Some_1, list.Forall2_length in Hl; rewrite <- Hl, length_take; lia).
  destruct (lookup_lt_is_Some_2 (procs c) 0) as [p0 Hp0]; [lia|]. destruct (Hat 0%nat p0 ltac:(lia) Hp0) as (v0 & k0 & _ & ->).
  assert (Hf := a_follows _ _ _ _ Ha _ _ Hp0). apply follows_meet in Hf as (ops & E & _). apply talk_meet in E as [Et E].
  assert (Hh : hears = 0%nat) by (destruct hears; done). assert (Hno := no_messages _ _ _ _ Ha Hh).
  assert (Hs := a_sizes _ _ _ _ Ha). destruct rest as [|m' rest]; [done|]. apply Forall_cons_1 in Hs as [[Hs0 Hsn] Hs].
  rewrite attends_cons, decide_True in E by lia. injection E as -> _. exists rest. split; [done|]. split; cbn [procs box].
  - rewrite length_app, length_fmap, length_drop, Hll. lia.
  - apply (a_tells _ _ _ _ Ha).
  - apply (a_root _ _ _ _ Ha).
  - done.
  - intros i p Hi. rewrite Hno. cbn [app]. destruct (Nat.ltb_spec i m).
    + rewrite lookup_app_l in Hi by (rewrite length_fmap; lia). rewrite list_lookup_fmap in Hi.
      destruct (lookup_lt_is_Some_2 (procs c) i) as [q Hq]; [lia|]. destruct (Hat i q ltac:(done) Hq) as (v & k & Hk & ->).
      rewrite Hk in Hi. injection Hi as <-. assert (Hf := a_follows _ _ _ _ Ha _ _ Hq). rewrite Hno in Hf. cbn [app] in Hf.
      rewrite attends_cons, decide_True in Hf by done. apply follows_meet in Hf as (? & [= <-] & Hk'). apply Hk'.
    + rewrite lookup_app_r in Hi by (rewrite length_fmap; lia). rewrite length_fmap, Hll, lookup_drop in Hi.
      replace (m + (i - m))%nat with i in Hi by lia. assert (Hf := a_follows _ _ _ _ Ha _ _ Hi). rewrite Hno in Hf. cbn [app] in Hf.
      by rewrite attends_cons, decide_False in Hf by lia.
  - apply (a_count _ _ _ _ Ha).
Qed.

Lemma step_agreed c e c' : agreed c -> step exec c e = Some c' -> agreed c'.
Proof.
  intros (hears & tells & rest & Ha) Hst. assert (Hlen := a_len _ _ _ _ Ha). destruct e as [i|m]; cbn [step] in Hst.
  - destruct (procs c !! i) as [p|] eqn:Hi; [|done]. assert (Hf := a_follows _ _ _ _ Ha i p Hi).
    assert (Hin : (i < length (procs c))%nat) by by eapply lookup_lt_Some. destruct p as [|x k| |v k|k|]; try done.
    + destruct (exec i x (world c)) as [r w]. injection Hst as <-. inversion Hf as [| |? ? ? ? Hk| | |]; subst. exists hears, tells, rest.
      destruct Ha as [A1 A2 A3 A4 A5 A6]. split; cbn [procs box]; try done. { by rewrite length_insert. }
      intros j q Hj. destruct (set_lookup _ _ _ _ _ Hj) as [[-> ->]|[_ Hj']]; [apply Hk|by apply A5].
    + injection Hst as <-. apply follows_tell in Hf as (ops & E & Hk). apply talk_tell in E as (j & t & -> & Ht & ->).
      exists hears, (<[S j := t]> tells), rest. destruct Ha as [A1 A2 A3 A4 A5 A6]. split; cbn [procs box]; try done.
      * by rewrite length_insert.
      * by rewrite length_insert.
      * by rewrite list_lookup_insert_ne by done.
      * intros i q Hq. destruct (set_lookup _ _ _ _ _ Hq) as [[-> ->]|[Hne Hq']]; [done|]. assert (H := A5 i q Hq').
        destruct i as [|i]; [done|]. cbn [talk] in H |- *. by rewrite list_lookup_insert_ne by done.
      * rewrite length_app, (sum_of_insert _ _ _ (S t)) by done. cbn [length]. lia.
    + destruct (box c) as [|v b] eqn:Eb; [done|]. injection Hst as <-. apply follows_hear in Hf as (ops & E & Hk).
      apply talk_hear in E as (h & -> & -> & ->). exists h, tells, rest. destruct Ha as [A1 A2 A3 A4 A5 A6]. split; cbn [procs box]; try done.
      * by rewrite length_insert.
      * intros i q Hq. destruct (set_lookup _ _ _ _ _ Hq) as [[-> ->]|[Hne Hq']]; [apply Hk|]. assert (H := A5 i q Hq').
        by destruct i as [|i].
      * rewrite Eb in A6. cbn [length] in A6. lia.
  - rewrite Hlen in Hst. destruct (Nat.ltb_spec 0 m); [|done]. destruct (Nat.leb_spec m n); [|done]. cbn [andb] in Hst.
    destruct (mapM (at_meeting m) (take m (procs c))) as [l|] eqn:El; [|done]. injection Hst as <-.
    destruct (step_together _ _ _ _ m l Ha ltac:(lia) El) as (rest' & _ & Ha'). by exists hears, tells, rest'.
Qed.

Lemma run_agreed es c c' : agreed c -> run exec c es = Some c' -> agreed c'.
Proof.
  revert c. induction es as [|e es IH]; intros c Ha Hr; cbn [run] in Hr; [by injection Hr as <-|].
  destruct (step exec c e) as [c1|] eqn:E; [|done]. eapply IH; [|exact Hr]. by eapply step_agreed.
Qed.

(** [n] processes of which all but the first tell it something, if [talking], and then all
    attend [rest]. *)
Lemma launch_agreed (talking : bool) (p : nat -> proc C R V unit) rest w : (0 < n)%nat -> Forall (fun m => 0 < m <= n)%nat rest ->
  (forall i, (i < n)%nat -> follows ((if talking then match i with O => replicate (n - 1) OHear | S _ => [OTell] end else []) ++ attends i rest) (p i) []) ->
  agreed (launch n p w).
Proof.
  intros Hn Hr Hp. set (t := if talking then 1%nat else 0%nat). exists (t * (n - 1))%nat, (0%nat :: replicate (n - 1) t), rest. split; cbn [procs box launch length]; try done.
  - by rewrite length_fmap, length_seq.
  - rewrite length_replicate. lia.
  - intros i q Hq. rewrite list_lookup_fmap in Hq. destruct (seq 0 n !! i) as [j|] eqn:E; [|done]. injection Hq as <-.
    apply lookup_seq in E as [-> Hi]. cbn [Nat.add]. assert (H := Hp i Hi). destruct i as [|i]; unfold talk.
    + unfold t. destruct talking; [by rewrite Nat.mul_1_l|done].
    + change ((0%nat :: replicate (n - 1) t) !! S i) with (replicate (n - 1) t !! i). rewrite lookup_replicate_2 by lia. unfold t. by destruct talking.
  - change (Z.of_nat 0 + sum_of Z.of_nat (0%nat :: replicate (n - 1) t) = Z.of_nat (t * (n - 1)))%Z.
    cbn [sum_of foldr]. change (foldr _ 0%Z (replicate (n - 1) t)) with (sum_of Z.of_nat (replicate (n - 1) t)).
    rewrite (sum_of_all _ _ (Z.of_nat t)), length_replicate; [lia|]. by apply Forall_replicate.
Qed.

End Progress.

(** ** Every schedule ends *)

Section Ending.
Import Groups.
Context {C R V W : Type} (exec : nat -> C -> W -> R * W).

Inductive part : proc C R V unit -> proc C R V unit -> Prop :=
| part_call c k r : part (k r) (Call c k)
| part_meet m v k l : part (k l) (Meet m v k)
| part_tell v k : part k (Tell v k)
| part_hear k v : part (k v) (Hear k).

Lemma part_wf : well_founded part.
Proof. intros p. induction p; constructor; intros q Hq; inversion Hq; subst; auto. Qed.

Lemma step_parts (c : @config C R V W) e c' : step exec c e = Some c' -> below part (procs c') (procs c).
Proof.
  intros Hst. destruct e as [i|m]; cbn [step] in Hst.
  - destruct (procs c !! i) as [p|] eqn:Hi; [|done]. destruct p as [|x k| |v k|k|]; try done.
    + destruct (exec i x (world c)) as [r w]. injection Hst as <-. eapply below_insert; [exact Hi|constructor].
    + injection Hst as <-. eapply below_insert; [exact Hi|constructor].
    + destruct (box c); [done|]. injection Hst as <-. eapply below_insert; [exact Hi|constructor].
  - destruct (Nat.ltb_spec 0 m); [|done]. destruct (Nat.leb_spec m (length (procs c))); [|done]. cbn [andb] in Hst.
    destruct (mapM (at_meeting m) (take m (procs c))) as [l|] eqn:El; [|done]. injection Hst as <-. cbn [procs]. apply mapM_Some_1 in El.
    rewrite <- (take_drop m (procs c)) at 2. generalize (drop m (procs c)) as d. intros d. remember (take m (procs c)) as t eqn:Et.
    assert (Hlt : (0 < length t)%nat) by (rewrite Et, length_take; lia). clear -El Hlt.
    assert (Hall : forall u, Forall2 (leq part) (((fun x : V * (list V -> proc C R V unit) => x.2 u) <$> l) ++ d) (t ++ d)).
    { intros u. clear Hlt. induction El as [|p [v k] t l Hp Hl IH]; [apply leq_refl|]. cbn. constructor; [|done]. right.
      destruct p; try done. cbn in Hp. destruct (decide _); [|done]. injection Hp as -> ->. constructor. }
    specialize (Hall l.*1). destruct El as [|p [v k] t l Hp Hl]; [cbn in Hlt; lia|]. cbn. inversion Hall; subst. constructor; [|done].
    destruct p; try done. cbn in Hp. destruct (decide _); [|done]. injection Hp as -> ->. constructor.
Qed.

(** No schedule goes on for ever. *)
Lemma groups_schedules_end (c : @config C R V W) : Acc (fun c' c => exists e, step exec c e = Some c') c.
Proof.
  remember (procs c) as l eqn:El. revert c El. induction (below_wf part part_wf l) as [l _ IH]. intros c ->. constructor. intros c' [e He].
  eapply IH; [by eapply step_parts|done].
Qed.

End Ending.
