(* ===== verification/ClientMain.v ===== *)
(** * The client's main: client/client.c

    [ClientMain] translates [main] of the client as a function of what FUSE answers: the
    calls it makes, in order, and its status.  FUSE calls the operations of Client.v from
    its session loop, with [Startup.skye_init] before and [Startup.skye_destroy] after
    them. *)

From S2P Require Import Prelude.

#[local] Open Scope Z_scope.

Module ClientMain.

(** The answers of the calls of main that give one; a channel or session is NULL or not. *)
Record answers : Type := mkAnswers {
  opt_parse : Z;
  getpid : Z;
  parse_cmdline : Z;
  mount : bool;
  lowlevel_new : bool;
  set_signal_handlers : Z;
  session_loop : Z
}.

Inductive call : Type :=
| fuse_opt_parse
| fuse_opt_insert_arg (pos : Z) (arg : string)
| fuse_parse_cmdline
| fuse_mount
| fuse_lowlevel_new
| fuse_set_signal_handlers
| fuse_session_add_chan
| fuse_session_loop
| fuse_remove_signal_handlers
| fuse_session_remove_chan
| fuse_session_destroy
| fuse_unmount
| fuse_opt_free_args.

(** The block of a session whose signal handlers are set: ret. *)
Definition run_session (a : answers) (ret : Z) : list call * Z :=
  if negb (set_signal_handlers a =? -1) then
    ([fuse_set_signal_handlers; fuse_session_add_chan; fuse_session_loop;
      fuse_remove_signal_handlers; fuse_session_remove_chan], session_loop a)
  else ([fuse_set_signal_handlers], ret).

(** The block of a mounted channel. *)
Definition run_mounted (a : answers) (ret : Z) : list call * Z :=
  if lowlevel_new a then
    let '(l, ret) := run_session a ret in
    ([fuse_lowlevel_new] ++ l ++ [fuse_session_destroy; fuse_unmount], ret)
  else ([fuse_lowlevel_new; fuse_unmount], ret).

Definition run_parsed (a : answers) (ret : Z) : list call * Z :=
  if negb (parse_cmdline a =? -1) then
    if mount a then let '(l, ret) := run_mounted a ret in ([fuse_parse_cmdline; fuse_mount] ++ l, ret)
    else ([fuse_parse_cmdline; fuse_mount], ret)
  else ([fuse_parse_cmdline], ret).

Definition client_main (a : answers) : list call * Z :=
  let ret := -1 in
  if opt_parse a =? -1 then ([fuse_opt_parse], -1)
  else
    let l := [fuse_opt_parse] ++ (if getpid a =? 0 then [fuse_opt_insert_arg 1 "-oallow_other"] else [])
             ++ [fuse_opt_insert_arg 1 "-s"] in
    let '(l', ret) := run_parsed a ret in
    (l ++ l' ++ [fuse_opt_free_args], if ret =? 0 then 0 else 1).

#[export] Instance call_eq_dec : EqDecision call.
Proof. solve_decision. Defined.

(** ** What the calls hold *)

Inductive held : Type := Args | Mounted | Session | Handlers | Channel.

#[export] Instance held_eq_dec : EqDecision held.
Proof. solve_decision. Defined.

(** What is held after a call that succeeded, in the order of its acquisition; a call on
    something that is not held is a misuse. *)
Definition give (h : held) (l : list held) : option (list held) := if decide (h ∈ l) then None else Some (h :: l).
Definition drop (h : held) (l : list held) : option (list held) :=
  if decide (h ∈ l) then Some (filter (fun x => x <> h) l) else None.
Definition need (h : held) (l : list held) : option (list held) := if decide (h ∈ l) then Some l else None.

Definition after_call (a : answers) (c : call) (l : list held) : option (list held) :=
  match c with
  | fuse_opt_parse => if opt_parse a =? -1 then Some l else give Args l
  | fuse_opt_insert_arg _ _ => need Args l
  | fuse_parse_cmdline => need Args l
  | fuse_mount => l ← need Args l; if mount a then give Mounted l else Some l
  | fuse_lowlevel_new => l ← need Args l; if lowlevel_new a then give Session l else Some l
  | fuse_set_signal_handlers => l ← need Session l; if set_signal_handlers a =? -1 then Some l else give Handlers l
  | fuse_session_add_chan => l ← need Session l; l ← need Mounted l; give Channel l
  | fuse_session_loop => l ← need Session l; need Channel l
  | fuse_remove_signal_handlers => drop Handlers l
  | fuse_session_remove_chan => drop Channel l
  | fuse_session_destroy =>
      if decide (Handlers ∈ l) then None else if decide (Channel ∈ l) then None else drop Session l
  | fuse_unmount => if decide (Session ∈ l) then None else drop Mounted l
  | fuse_opt_free_args => drop Args l
  end.

Fixpoint after_calls (a : answers) (cs : list call) (l : list held) : option (list held) :=
  match cs with [] => Some l | c :: cs' => l ← after_call a c l; after_calls a cs' l end.

End ClientMain.

Import ClientMain.

Lemma elem_of_existsb (c : call) l : c ∈ l <-> existsb (fun x => bool_decide (c = x)) l = true.
Proof.
  rewrite existsb_exists. split.
  - intros H. exists c. split; [by apply list_elem_of_In|by apply bool_decide_eq_true].
  - intros (x & H & E). apply bool_decide_eq_true in E as ->. by apply list_elem_of_In.
Qed.

(** On every path the calls are made on what is held and nothing is held at the end; the
    status is 0 just when the session loop ran and returned 0. *)
Theorem main_releases (a : answers) :
  after_calls a (client_main a).1 [] = Some [] /\
  (((client_main a).2 = 0) <-> (fuse_session_loop ∈ (client_main a).1 /\ session_loop a = 0)) /\
  (0 < getpid a -> fuse_opt_insert_arg 1 "-oallow_other" ∉ (client_main a).1).
Proof.
  rewrite !elem_of_existsb. destruct a as [op pid pc mt ln ss lo]. unfold client_main, run_parsed, run_mounted, run_session.
  cbn [opt_parse getpid parse_cmdline mount lowlevel_new set_signal_handlers session_loop].
  destruct (op =? -1) eqn:Eop; [cbn -[Z.eqb]; rewrite Eop; split_and!; [done|split; [done|by intros [? _]]|done]|].
  assert (Hpid : 0 < pid -> (pid =? 0) = false) by lia.
  destruct (pc =? -1), mt, ln, (ss =? -1) eqn:Ess, (pid =? 0), lo; cbn -[Z.eqb]; rewrite Eop, ?Ess;
    (split_and!; [reflexivity|vm_compute; split; [by intros|by intros [? ?]]|intros Hp; specialize (Hpid Hp); by vm_compute]).
Qed.
