(* ===== verification/ThreadTest.v ===== *)
(** * The thread benchmark: util/threadtest.c

    Ten threads create files in one directory while another one lists it, with the locking
    that the third argument chooses.  [ThreadTest] translates the path splitting, the
    creation of a file on an interface of PVFS, and the threads as a machine whose steps are
    the stretches between two accesses to shared state; a schedule is the list of who moves
    next and of what PVFS answers.  The theorems are about every schedule. *)

From Stdlib Require Import Ascii.
From S2P Require Import Prelude Names Pvfs Connection ConnProps Startup.

#[local] Open Scope Z_scope.

Module ThreadTest.
Import Pvfs PartName.

Definition THREADS : nat := 10.
Definition FILES : Z := 5000.

(** ** Splitting a path *)

Definition slash : ascii := "/"%char.

(** The loop that goes back from offset [p] to a slash or to the start. *)
Fixpoint back_to_slash (path : string) (p : nat) : nat :=
  match String.get p path with
  | Some c => if decide (c = slash) then p else match p with O => O | S p' => back_to_slash path p' end
  | None => match p with O => O | S p' => back_to_slash path p' end
  end.

(** strcpy from offset [p] of a string, which has its terminator at offset [length]. *)
Definition copy_from (s : string) (p : nat) : outcome string :=
  if (p <=? String.length s)%nat then Ret (CString.skip p s) else Crash OutOfBounds.

(** The result, and what is copied to [fileName] and [dirName]. *)
Definition get_path_components (path : option string) (fileName dirName : bool) : outcome (Z * option string * option string) :=
  match path, fileName with
  | Some path, true =>
      if decide (path = "/"%string) then Ret (0, Some "/"%string, if dirName then Some "/"%string else None)
      else
        let p := back_to_slash path (String.length path) in
        name ← copy_from path (p + 1);
        Ret (0, Some name,
             if dirName then Some (if (p =? 0)%nat then "/"%string else CString.firstn p path) else None)
  | _, _ => Ret (-1, None, None)
  end.

(** ** Creating a file *)

(** sprintf(filename, "%s/t%lu-f%d", scratch_dir, tid, i): an unsigned long has at most
    twenty digits and an int ten. *)
Definition print_int (i : Z) : string :=
  if i <? 0 then String "-"%char (string_of_digits (dec_digits 10 (- i))) else string_of_digits (dec_digits 10 i).

Definition format_name (scratch_dir : string) (tid i : Z) : string :=
  String.append scratch_dir (String slash (String "t"%char
    (String.append (string_of_digits (dec_digits 20 tid)) (String "-"%char (String "f"%char (print_int i)))))).

Definition filename_size : nat := 200.

(** The buffer has room for 200 bytes, the terminator included. *)
Definition make_filename (scratch_dir : string) (tid i : Z) : outcome string :=
  let s := format_name scratch_dir tid i in
  if (String.length s <? filename_size)%nat then Ret s else Crash OutOfBounds.

(** The parts of pvfs2fuse that the calls use, fs_id and mntent, are those of
    connection.c. *)
Section Create.
Context {W : Type} `{PvfsOps W} `{Conn.ConnOps W}.
#[local] Abbreviation M := (prog (Conn.conn_state * W)).
Variable PVFS_ERROR_TO_ERRNO : Z -> Z.

Definition gen_credentials : PVFS_credentials := mkCreds 1000 1000.

(** lookup: 0 with the reference of the path, or an error. *)
Definition lookup (path : string) : M (Z * option PVFS_object_ref) :=
  s ← getl;
  '(ret, ref) ← sys (PVFS_sys_lookup (Conn.pvfs_fsid s) path gen_credentials);
  if ret <? 0 then mret (ret, None) else mret (0, Some (mkRef (handle ref) (Conn.pvfs_fsid s))).

(** The answer and the state; the handle of the new file is not kept. *)
Definition pvfs_fuse_create (path : string) (mode : Z) : M Z :=
  '(_, filename, directory) ← lift (get_path_components (Some path) true true);
  '(rc, _) ← lookup path;
  if rc =? 0 then mret 0
  else
    '(rc, dir) ← lookup (default "" directory);
    match dir with
    | None => mret (-1 * PVFS_ERROR_TO_ERRNO rc)
    | Some ref =>
        now ← sys time;
        let attr := mkAttr 1000 1000 mode now now 0 0 None 0 0 PVFS_TYPE_NONE PVFS_ATTR_SYS_ALL_SETABLE in
        '(rc, _) ← sys (PVFS_sys_create (default "" filename) ref attr gen_credentials);
        if negb (rc =? 0) then
          if rc =? - PVFS_ENOENT then mret (- EACCES) else mret (-1 * PVFS_ERROR_TO_ERRNO rc)
        else
          ok ← sys malloc;
          if ok : bool then mret 0 else mret (- ENOMEM)
    end.

(** What main does after the set-up: return a status, or run do_test with a lock. *)
Inductive bench : Type := Return (ret : Z) | Test (locks : Z).

(** atol, that is strtol(s, NULL, 10). *)
Fixpoint atol (s : string) : Z :=
  match s with
  | EmptyString => 0
  | String c s' =>
      let b := byte_of_ascii c in
      if (b =? 32) || ((9 <=? b) && (b <=? 13)) then atol s'
      else if b =? 45 then Z.max (- 2 ^ 63) (- Startup.digits s' 0)
      else if b =? 43 then Z.min (2 ^ 63 - 1) (Startup.digits s' 0)
      else Z.min (2 ^ 63 - 1) (Startup.digits s 0)
  end.

(** The connection string is taken apart as in [pvfs_connect], of which the lines are a
    copy. *)
Definition bench_main (argv : list string) : M bench :=
  match argv with
  | [_; fs_spec; _; locks] =>
      ret ← sys Conn.PVFS_sys_initialize;
      if ret <? 0 then mret (Return ret) else
      me ← Conn.parse_fs_spec fs_spec;
      _ ← modl (Conn.set_mntent me);
      '(ret, id) ← sys (Conn.PVFS_sys_fs_add me);
      if ret <? 0 then mret (Return (-1)) else
      _ ← modl (Conn.set_fsid id);
      mret (Test (atol locks))
  | _ => crash_with ProcessExit
  end.

End Create.

(** The report of the last second and the new value of lastfile. *)
Definition alarmhandler (curfile lastfile : Z) : outcome (Z * Z) :=
  diff ← c_int (curfile - lastfile); Ret (diff, curfile).

(** The handler at the seconds where curfile had these values. *)
Fixpoint reports (lastfile : Z) (seen : list Z) : outcome (list Z) :=
  match seen with
  | [] => Ret []
  | now :: seen' => '(d, last) ← alarmhandler now lastfile; ds ← reports last seen'; Ret (d :: ds)
  end.

(** ** The threads *)

(** Where a thread of [thread_main] is: before the name is made, at the label retry, in
    pvfs_fuse_create, after it with its result, before the counter, after the loop, at the
    end. *)
Inductive pc : Type := Naming | Retry | Creating | Created (rc : Z) | Counting | Stopping | Done.

(** The variable i and the number in the file name. *)
Record worker : Type := mkWorker { w_pc : pc; w_i : Z; w_file : Z }.

(** Where [thread_list] is: before the lookup, before the lock, before a call to readdir
    from [token], after the last one, at the condition of its loop, at the end. *)
Inductive lister_pc : Type := LLookup | LLock | LListing (token : Z) | LUnlock | LTest | LDone.

(** The token after a batch of [outcount] entries. *)
Definition dirent_incount : Z := 500.
Definition next_token (token outcount : Z) : Z :=
  if token =? 0 then u32 (outcount - 1) else u64 (token + outcount).

Inductive holder : Type := Worker (t : nat) | Lister.
#[global] Instance holder_eq_dec : EqDecision holder.
Proof. solve_decision. Defined.

(** The shared state; [succeeded] are the thread and the number of the file of every
    creation that did not fail, also of one that found the file there, and [failed] is the
    number of those that failed. *)
Record threads : Type := mkThreads {
  curfile : Z;
  global_mutex : option holder;
  do_list : bool;
  workers : list worker;
  lister : lister_pc;
  succeeded : list (nat * Z);
  failed : Z
}.

(** Who moves, and what PVFS answers to it. *)
Inductive event : Type := Move (t : nat) (rc : Z) | MoveLister (rc : Z).

Section Threads.
(** The argument global_locks, the number of files and of threads. *)
Variables (locking : Z) (files : Z) (nthreads : nat).

Definition set_worker (t : nat) (w : worker) (s : threads) : threads :=
  mkThreads (curfile s) (global_mutex s) (do_list s) (<[t := w]> (workers s)) (lister s) (succeeded s) (failed s).
Definition set_mutex (m : option holder) (s : threads) : threads :=
  mkThreads (curfile s) m (do_list s) (workers s) (lister s) (succeeded s) (failed s).
Definition set_lister (l : lister_pc) (s : threads) : threads :=
  mkThreads (curfile s) (global_mutex s) (do_list s) (workers s) l (succeeded s) (failed s).

(** pthread_mutex_lock and pthread_mutex_unlock. *)
Definition acquire (who : holder) (s : threads) : outcome threads :=
  match global_mutex s with None => Ret (set_mutex (Some who) s) | Some _ => Crash Blocked end.
Definition release (s : threads) : outcome threads :=
  match global_mutex s with Some _ => Ret (set_mutex None s) | None => Crash LockMisuse end.

(** thread_main.  A file is known by its number, whose text [make_filename] makes, and [rc] is
    what [pvfs_fuse_create] returns when it is called. *)
Definition move (t : nat) (rc : Z) (s : threads) : outcome threads :=
  match workers s !! t with
  | None => Crash OutOfBounds
  | Some w =>
      match w_pc w with
      | Naming =>
          i ← c_int (w_i w + 1);
          Ret (set_worker t (mkWorker Retry i (w_i w)) s)
      | Retry =>
          s ← (if locking =? 0 then Ret s else acquire (Worker t) s);
          Ret (set_worker t (mkWorker Creating (w_i w) (w_file w)) s)
      | Creating => Ret (set_worker t (mkWorker (Created rc) (w_i w) (w_file w)) s)
      | Created rc =>
          s ← (if locking =? 0 then Ret s else release s);
          if rc <? 0 then
            i ← c_int (w_i w - 1);
            let s := set_worker t (mkWorker Retry i (w_file w)) s in
            Ret (mkThreads (curfile s) (global_mutex s) (do_list s) (workers s) (lister s) (succeeded s) (failed s + 1))
          else
            let s := set_worker t (mkWorker Counting (w_i w) (w_file w)) s in
            Ret (mkThreads (curfile s) (global_mutex s) (do_list s) (workers s) (lister s) ((t, w_file w) :: succeeded s) (failed s))
      | Counting =>
          let old := curfile s in
          cur ← c_int (old + 1);
          let s := set_worker t (mkWorker (if old <? files then Naming else Stopping) (w_i w) (w_file w)) s in
          Ret (mkThreads cur (global_mutex s) (do_list s) (workers s) (lister s) (succeeded s) (failed s))
      | Stopping =>
          let s := set_worker t (mkWorker Done (w_i w) (w_file w)) s in
          Ret (mkThreads (curfile s) (global_mutex s) false (workers s) (lister s) (succeeded s) (failed s))
      | Done => Crash Blocked
      end
  end.

(** thread_list; the answer of readdir is an error or the number of entries. *)
Definition move_lister (rc : Z) (s : threads) : outcome threads :=
  match lister s with
  | LLookup => Ret (set_lister (if rc <? 0 then LTest else LLock) s)
  | LLock => s ← (if locking =? 2 then acquire Lister s else Ret s); Ret (set_lister (LListing 0) s)
  | LListing token =>
      Ret (set_lister (if (0 <=? rc) && (rc =? dirent_incount) then LListing (next_token token rc) else LUnlock) s)
  | LUnlock => s ← (if locking =? 2 then release s else Ret s); Ret (set_lister LTest s)
  | LTest => Ret (set_lister (if do_list s then LLookup else LDone) s)
  | LDone => Crash Blocked
  end.

Definition step (s : threads) (e : event) : outcome threads :=
  match e with Move t rc => move t rc s | MoveLister rc => move_lister rc s end.

Fixpoint run (s : threads) (es : list event) : outcome threads :=
  match es with [] => Ret s | e :: es' => s ← step s e; run s es' end.

(** do_test, once every thread has passed the barrier. *)
Definition started : threads := mkThreads 0 None true (replicate nthreads (mkWorker Naming 0 0)) LLookup [] 0.

(** pthread_join of all threads returns. *)
Definition all_done (s : threads) : Prop := Forall (fun w => w_pc w = Done) (workers s).

Inductive reachable : threads -> Prop :=
| reach_start : reachable started
| reach_step s e s' : reachable s -> step s e = Ret s' -> reachable s'.

Lemma run_reachable es : forall s s', reachable s -> run s es = Ret s' -> reachable s'.
Proof.
  induction es as [|e es IH]; intros s s' Hr; cbn; [by intros [= <-]|]. intros H.
  apply bind_Ret_inv in H as (s1 & E & H). eapply IH; [|exact H]. by eapply reach_step.
Qed.

End Threads.
End ThreadTest.

(** ** Paths and names *)

Section Paths.
Import ThreadTest PartName Pvfs.

(** From anywhere in [n] the loop comes back to the slash before it. *)
Lemma get_sapp s t p : String.get (String.length s + p) (String.append s t) = String.get p t.
Proof. induction s as [|a s IH]; [done|exact IH]. Qed.

Lemma get_count n p c : CString.count slash n = O -> String.get p n = Some c -> c <> slash.
Proof.
  revert p. induction n as [|a n IH]; intros p; [by destruct p|]. cbn [CString.count String.get]. destruct (decide (a = slash)); [done|].
  intros Hn. destruct p as [|p]; [by intros [= <-]|]. by apply IH.
Qed.

Lemma back_to_last d n k : CString.count slash n = O -> (k <= S (String.length n))%nat ->
  back_to_slash (String.append d (String slash n)) (String.length d + k) = String.length d.
Proof.
  intros Hn. induction k as [|k IH]; intros Hk.
  - destruct (String.length d + 0)%nat as [|q] eqn:E; cbn [back_to_slash]; rewrite <- E, get_sapp; cbn [String.get];
      rewrite decide_True by done; lia.
  - replace (String.length d + S k)%nat with (S (String.length d + k)) by lia. cbn [back_to_slash].
    replace (S (String.length d + k)) with (String.length d + S k)%nat by lia. rewrite get_sapp. cbn [String.get].
    destruct (String.get k n) as [c|] eqn:E; [rewrite decide_False by (by eapply get_count)|]; apply IH; lia.
Qed.

(** A path is taken apart at its last slash, and the root is the directory of its entries. *)
Lemma path_components d n : CString.count slash n = O -> d <> EmptyString \/ n <> EmptyString ->
  get_path_components (Some (String.append d (String slash n))) true true =
  Ret (0, Some n, Some (if decide (d = EmptyString) then "/"%string else d)).
Proof.
  intros Hn Hne. cbn [get_path_components]. rewrite decide_False; cycle 1.
  { intros E. destruct d as [|a d]; [injection E as ->; by destruct Hne|]. injection E as _ E. by destruct d. }
  rewrite length_sapp, back_to_last by (done || (cbn; lia)).
  unfold copy_from. rewrite length_sapp. cbn [String.length]. destruct (Nat.leb_spec (String.length d + 1) (String.length d + S (String.length n))); [|lia].
  rewrite bind_Ret. f_equal. f_equal; [f_equal; f_equal|f_equal].
  - rewrite sapp_cons. replace (String.length d + 1)%nat with (String.length (String.append d (String slash EmptyString))) by (rewrite length_sapp; cbn; lia).
    apply skip_sapp.
  - destruct d as [|a d]; [done|]. rewrite decide_False by done. cbn [String.length]. cbn [Nat.eqb]. apply (firstn_sapp (String a d)).
Qed.

(** A path without a slash loses its first character, and the empty one is read past its
    terminator. *)
Lemma relative_path_loses : get_path_components (Some "data"%string) true true = Ret (0, Some "ata"%string, Some "/"%string) /\
  get_path_components (Some ""%string) true true = Crash OutOfBounds.
Proof. by vm_compute. Qed.

(** *** Names of files *)

Lemma sapp_inj_l s t u : String.append s t = String.append s u -> t = u.
Proof. induction s as [|a s IH]; [done|]. intros [= E]. by apply IH. Qed.

(** The digits at the start of a string end at the first character that is none. *)
Lemma read_digits_sapp l c t acc any : Forall is_dec l -> is_digit c = false ->
  (read_digits (String.append (string_of_digits l) (String c t)) acc any).1 = digits_value acc l.
Proof.
  intros Hl Hc. revert acc any. induction Hl as [|d l Hd _ IH]; intros acc any.
  - change ((if is_digit c then read_digits t (10 * acc + (char_code c - 48)) true else (acc, any)).1 = acc). by rewrite Hc.
  - change ((if is_digit (digit_char d)
             then read_digits (String.append (string_of_digits l) (String c t)) (10 * acc + (char_code (digit_char d) - 48)) true
             else (acc, any)).1 = digits_value acc (d :: l)).
    rewrite digit_char_is_digit, digit_char_code by done. rewrite IH. unfold digits_value. cbn. f_equal. lia.
Qed.

Lemma print_int_inj i j : - 2 ^ 31 <= i < 2 ^ 31 -> - 2 ^ 31 <= j < 2 ^ 31 -> print_int i = print_int j -> i = j.
Proof.
  assert (Hd : forall n, 0 <= n <= 2 ^ 31 -> exists d l, is_dec d /\ Forall is_dec l /\ dec_digits 10 n = d :: l /\ digits_value 0 (d :: l) = n).
  { intros n Hn. destruct (dec_digits_ok 10 n) as (H1 & H2 & H3); [cbn; lia|lia|]. destruct (dec_digits 10 n) as [|d l]; [done|].
    inversion H1. by exists d, l. }
  assert (Hr : forall n m, 0 <= n <= 2 ^ 31 -> 0 <= m <= 2 ^ 31 -> string_of_digits (dec_digits 10 n) = string_of_digits (dec_digits 10 m) -> n = m).
  { intros n m Hn Hm E. destruct (Hd n Hn) as (d & l & H1 & H2 & H3 & H4). destruct (Hd m Hm) as (e & k & G1 & G2 & G3 & G4).
    rewrite H3, G3 in E. assert (R := read_digits_string (d :: l) 0 false ltac:(by constructor) ltac:(by left)).
    rewrite E, read_digits_string in R by (by constructor || by left). apply (f_equal fst) in R. cbn [fst] in R. congruence. }
  intros Hi Hj. unfold print_int. destruct (Z.ltb_spec i 0), (Z.ltb_spec j 0).
  - intros [= E]. assert (- i = - j) by (apply Hr; [lia|lia|done]). lia.
  - intros E. destruct (Hd j ltac:(lia)) as (d & l & H1 & _ & H3 & _). rewrite H3 in E. injection E as E _. by destruct (digits_no_sign d H1).
  - intros E. destruct (Hd i ltac:(lia)) as (d & l & H1 & _ & H3 & _). rewrite H3 in E. injection E as E _. by destruct (digits_no_sign d H1).
  - apply Hr; lia.
Qed.

(** Files of different threads or with different numbers have different names. *)
Lemma format_name_inj dir t i u j : 0 <= t < 2 ^ 64 -> 0 <= u < 2 ^ 64 -> - 2 ^ 31 <= i < 2 ^ 31 -> - 2 ^ 31 <= j < 2 ^ 31 ->
  format_name dir t i = format_name dir u j -> t = u /\ i = j.
Proof.
  intros Ht Hu Hi Hj E. apply sapp_inj_l in E. apply (sapp_inj_l (String slash (String "t"%char EmptyString))) in E.
  destruct (dec_digits_ok 20 t) as (H1 & _ & H3); [cbn; lia|lia|]. destruct (dec_digits_ok 20 u) as (G1 & _ & G3); [cbn; lia|lia|].
  assert (R := read_digits_sapp _ "-"%char (String "f"%char (print_int i)) 0 false H1 ltac:(done)).
  rewrite E, read_digits_sapp, H3, G3 in R by done. subst u. split; [done|]. apply sapp_inj_l in E.
  apply (sapp_inj_l (String "-"%char (String "f"%char EmptyString))) in E. by apply print_int_inj.
Qed.

Lemma string_of_digits_length l : String.length (string_of_digits l) = length l.
Proof. induction l as [|d l IH]; [done|]. cbn. by rewrite IH. Qed.

Lemma print_int_length i : (String.length (print_int i) <= 11)%nat.
Proof.
  unfold print_int. assert (H1 := dec_digits_length 10 i). assert (H2 := dec_digits_length 10 (- i)).
  destruct (i <? 0); cbn [String.length]; rewrite string_of_digits_length; lia.
Qed.

(** The buffer is large enough for directories of up to 164 characters, and too small from
    200 on. *)
Lemma make_filename_room dir t i :
  ((String.length dir <= 164)%nat -> make_filename dir t i = Ret (format_name dir t i)) /\
  ((200 <= String.length dir)%nat -> make_filename dir t i = Crash OutOfBounds).
Proof.
  assert (Hi := print_int_length i).
  assert (Ht := dec_digits_length 20 t). unfold make_filename.
  assert (Hl : String.length (format_name dir t i) = (String.length dir + length (dec_digits 20 t) + String.length (print_int i) + 4)%nat)
    by (unfold format_name; rewrite length_sapp; cbn [String.length]; rewrite length_sapp, string_of_digits_length; cbn [String.length]; lia).
  rewrite Hl. unfold filename_size. destruct (Nat.ltb_spec (String.length dir + length (dec_digits 20 t) + String.length (print_int i) + 4) 200);
    split; intros; (done || lia).
Qed.

(** *** Creating *)

Lemma bench_lookup_ok {W} `{PvfsOps W} path c (w w1 : W) ret ref :
  PVFS_sys_lookup (Conn.pvfs_fsid c) path gen_credentials w = (ret, ref, w1) ->
  lookup path (c, w) = Ret (if ret <? 0 then (ret, None) else (0, Some (mkRef (handle ref) (Conn.pvfs_fsid c))), (c, w1)).
Proof. intros E. unfold lookup, getl, sys, mbind, prog_bind. cbn. rewrite E. by destruct (ret <? 0). Qed.

(** Where the file exists nothing is created; where it does not and its directory does, it
    is created in that directory under its name. *)
Lemma create_file {W} `{PvfsOps W} (errno : Z -> Z) d n mode c (w w1 w2 w3 w4 w5 : W) r ret ref ret2 dir now rc f ok
  (Hn : CString.count slash n = O) (Hd : d <> EmptyString)
  (Hpath : PVFS_sys_lookup (Conn.pvfs_fsid c) (String.append d (String slash n)) gen_credentials w = (ret, ref, w1))
  (Hdir : PVFS_sys_lookup (Conn.pvfs_fsid c) d gen_credentials w1 = (ret2, dir, w2))
  (Htime : time w2 = (now, w3))
  (Hcreate : PVFS_sys_create n (mkRef (handle dir) (Conn.pvfs_fsid c))
     (mkAttr 1000 1000 mode now now 0 0 None 0 0 PVFS_TYPE_NONE PVFS_ATTR_SYS_ALL_SETABLE) gen_credentials w3 = (rc, f, w4))
  (Hmalloc : malloc w4 = (ok, w5))
  (Hr : r = pvfs_fuse_create errno (String.append d (String slash n)) mode (c, w)) :
  (0 <= ret -> r = Ret (0, (c, w1))) /\
  (ret < 0 -> ret2 < 0 -> r = Ret (-1 * errno ret2, (c, w2))) /\
  (ret < 0 -> 0 <= ret2 -> rc = 0 -> r = Ret (if ok then 0 else - ENOMEM, (c, w5))) /\
  (ret < 0 -> 0 <= ret2 -> rc <> 0 -> r = Ret (if rc =? - PVFS_ENOENT then - EACCES else -1 * errno rc, (c, w4))).
Proof.
  subst r. unfold pvfs_fuse_create. rewrite (prog_bind_Ret _ _ _ (0, Some n, Some d) (c, w)); cycle 1.
  { unfold lift. rewrite path_components, decide_False by (done || by left). done. }
  cbn beta iota. rewrite (prog_bind_Ret _ _ _ _ _ (bench_lookup_ok _ _ _ _ _ _ Hpath)).
  destruct (Z.ltb_spec ret 0) as [Hneg|Hpos]; cbn beta iota; [|split_and!; intros; (done || lia)].
  destruct (Z.eqb_spec ret 0) as [?|_]; [lia|]. cbn [default]. rewrite (prog_bind_Ret _ _ _ _ _ (bench_lookup_ok _ _ _ _ _ _ Hdir)).
  destruct (Z.ltb_spec ret2 0) as [Hneg2|Hpos2]; cbn beta iota; [split_and!; intros; (done || lia)|].
  assert (Hsys : forall A (g : W -> A * W) (x y : W) a, g x = (a, y) -> sys g (c, x) = Ret (a, (c, y))).
  { intros A g x y a E. unfold sys. cbn [fst snd]. by rewrite E. }
  rewrite (prog_bind_Ret _ _ _ _ _ (Hsys _ _ _ _ _ Htime)). rewrite (prog_bind_Ret _ _ _ _ _ (Hsys _ _ _ _ _ Hcreate)). cbn beta iota.
  destruct (Z.eqb_spec rc 0) as [->|Hrc]; cbn [negb].
  - rewrite (prog_bind_Ret _ _ _ _ _ (Hsys _ _ _ _ _ Hmalloc)). split_and!; intros; try lia. by destruct ok.
  - destruct (rc =? - PVFS_ENOENT); split_and!; intros; (done || lia).
Qed.

(** *** The reports *)

Lemma last_cons {A} (l : list A) : forall a d, List.last (a :: l) d = List.last l a.
Proof.
  induction l as [|b l IH]; intros a d; [done|]. change (List.last (a :: b :: l) d) with (List.last (b :: l) d). by rewrite !IH.
Qed.

(** What the handler has reported adds up to the counter at its last call. *)
Lemma reports_add_up seen : forall lastfile ds, reports lastfile seen = Ret ds -> lastfile + foldr Z.add 0 ds = List.last seen lastfile.
Proof.
  induction seen as [|now seen IH]; intros lastfile ds; cbn [reports]; [intros [= <-]; cbn; lia|]. unfold alarmhandler, c_int.
  destruct (_ && _); [|done]. rewrite !bind_Ret. intros H. apply bind_Ret_inv in H as (ds' & E & H). injection H as <-.
  specialize (IH now ds' E). rewrite last_cons. cbn [foldr]. lia.
Qed.

End Paths.

(** ** What holds for every schedule *)

Section Totals.
Import ThreadTest.

(** A sum over the places where the threads are. *)
Definition total (f : pc -> Z) (ws : list worker) : Z := sum_of (fun w => f (w_pc w)) ws.

Lemma total_insert f ws t w w' : ws !! t = Some w -> total f (<[t := w']> ws) = total f ws - f (w_pc w) + f (w_pc w').
Proof. apply (sum_of_insert (fun w => f (w_pc w))). Qed.

(** Sums of zeros and ones. *)
Lemma total_range f ws : (forall p, 0 <= f p <= 1) -> 0 <= total f ws <= Z.of_nat (length ws).
Proof.
  intros Hf. unfold total. assert (H1 := sum_of_nonneg (fun w => f (w_pc w)) ws ltac:(intros w; apply Hf)).
  assert (H2 := sum_of_le (fun w => f (w_pc w)) ws 1 ltac:(intros w; apply Hf)). lia.
Qed.

Lemma total_all f ws c : Forall (fun w => f (w_pc w) = c) ws -> total f ws = c * Z.of_nat (length ws).
Proof. apply sum_of_all. Qed.

Lemma total_le f ws c : (forall p, f p <= c) -> total f ws <= c * Z.of_nat (length ws).
Proof. intros Hf. apply sum_of_le. intros w. apply Hf. Qed.

End Totals.

Section Invariant.
Import ThreadTest.
Variables (locking : Z) (files : Z) (nthreads : nat).
Hypothesis Hfiles : 0 <= files.
Hypothesis Hsmall : files + 2 * Z.of_nat nthreads + 1 < 2 ^ 31.
#[local] Abbreviation step := (ThreadTest.step locking files).
#[local] Abbreviation reachable := (ThreadTest.reachable locking files nthreads).

Definition is_counting (p : pc) : Z := match p with Counting => 1 | _ => 0 end.
Definition is_out (p : pc) : Z := match p with Stopping | Done => 1 | _ => 0 end.

(** In the critical section; between making a name and counting the file. *)
Definition critical (p : pc) : bool := match p with Creating | Created _ => true | _ => false end.
Definition busy (p : pc) : bool := match p with Retry | Creating | Created _ => true | _ => false end.
Definition listing (p : lister_pc) : bool := match p with LListing _ | LUnlock => true | _ => false end.

Record inv (s : threads) : Prop := mkInv {
  i_len : length (workers s) = nthreads;
  i_succeeded : Z.of_nat (length (succeeded s)) = curfile s + total is_counting (workers s);
  i_out : 0 <= curfile s /\ total is_out (workers s) = Z.max 0 (curfile s - files);
  i_none : locking = 0 -> global_mutex s = None;
  i_worker : locking <> 0 -> forall t w, workers s !! t = Some w -> critical (w_pc w) = bool_decide (global_mutex s = Some (Worker t));
  i_held : forall t, global_mutex s = Some (Worker t) -> (t < nthreads)%nat;
  i_lister : bool_decide (global_mutex s = Some Lister) = (locking =? 2) && listing (lister s);
  i_failed : 0 <= failed s;
  i_i : forall t w, workers s !! t = Some w -> - failed s <= w_i w <= Z.of_nat (length (succeeded s)) + (if busy (w_pc w) then 1 else 0)
}.

Lemma inv_start : inv (started nthreads).
Proof.
  assert (Ht : forall f, f Naming = 0 -> total f (replicate nthreads (mkWorker Naming 0 0)) = 0)
    by (intros f Hf; clear Hsmall; induction nthreads as [|n IH]; cbn; [done|by rewrite Hf]).
  unfold started. split; cbn [curfile global_mutex workers lister succeeded failed]; try done.
  - apply length_replicate.
  - by rewrite Ht.
  - rewrite Ht by done. lia.
  - intros _ t w [-> _]%lookup_replicate. done.
  - destruct (locking =? 2); done.
  - intros t w [-> _]%lookup_replicate. done.
Qed.

(** The bound on the counter: every thread stops at its first number from [files] on. *)
Lemma inv_bound s : inv s -> 0 <= curfile s <= files + Z.of_nat nthreads /\ Z.of_nat (length (succeeded s)) <= files + 2 * Z.of_nat nthreads.
Proof.
  intros I. destruct (i_out _ I) as [H1 H2]. assert (Hr := total_range is_out (workers s) ltac:(by intros []; cbn; lia)).
  assert (Hc := total_range is_counting (workers s) ltac:(by intros []; cbn; lia)). rewrite (i_len _ I) in *. assert (H3 := i_succeeded _ I). lia.
Qed.

(** A move of thread [t] to the place [p] with the mutex [m]. *)
Lemma inv_move s t w w' cur m dl md fl :
  inv s -> workers s !! t = Some w ->
  Z.of_nat (length md) = cur + (total is_counting (workers s) - is_counting (w_pc w) + is_counting (w_pc w')) ->
  0 <= cur -> total is_out (workers s) - is_out (w_pc w) + is_out (w_pc w') = Z.max 0 (cur - files) ->
  (locking = 0 -> m = None) ->
  (locking <> 0 -> critical (w_pc w') = bool_decide (m = Some (Worker t)) /\
     (forall u, u <> t -> bool_decide (m = Some (Worker u)) = bool_decide (global_mutex s = Some (Worker u)))) ->
  (forall u, m = Some (Worker u) -> u = t \/ global_mutex s = Some (Worker u)) ->
  bool_decide (m = Some Lister) = bool_decide (global_mutex s = Some Lister) -> failed s <= fl -> (length (succeeded s) <= length md)%nat ->
  - fl <= w_i w' <= Z.of_nat (length md) + (if busy (w_pc w') then 1 else 0) ->
  inv (mkThreads cur m dl (<[t := w']> (workers s)) (lister s) md fl).
Proof.
  intros I Hw H1 H2 H3 H4 H5 H6 H7 H8 H9 H10. assert (Ht := lookup_lt_Some _ _ _ Hw).
  split; cbn [curfile global_mutex workers lister succeeded failed]; rewrite ?(total_insert _ _ _ w _ Hw); try done.
  - rewrite length_insert. apply I.
  - intros Hl u x Hx. destruct (H5 Hl) as [Ha Hb]. apply list_lookup_insert_Some in Hx as [(-> & -> & _)|[Hne Hx]]; [done|].
    rewrite Hb by done. by apply I.
  - intros u Hu. destruct (H6 u Hu) as [->|Hg]; [rewrite <- (i_len _ I); done|]. by apply (i_held _ I).
  - rewrite H7. apply I.
  - assert (H := i_failed _ I). lia.
  - intros u x Hx. apply list_lookup_insert_Some in Hx as [(-> & -> & _)|[Hne Hx]]; [done|].
    assert (H := i_i _ I u x Hx). destruct (busy (w_pc x)); lia.
Qed.

Lemma acquire_inv who s s' : acquire who s = Ret s' -> global_mutex s = None /\ s' = set_mutex (Some who) s.
Proof. unfold acquire. destruct (global_mutex s); [done|]. by intros [= <-]. Qed.

Lemma release_inv s s' : release s = Ret s' -> global_mutex s <> None /\ s' = set_mutex None s.
Proof. unfold release. destruct (global_mutex s); [|done]. by intros [= <-]. Qed.

(** What the calls change besides the lock: nothing. *)
Lemma locked who s s1 : (if locking =? 0 then Ret s else acquire who s) = Ret s1 -> exists m, s1 = set_mutex m s.
Proof.
  destruct (locking =? 0); [intros [= <-]; exists (global_mutex s); by destruct s|]. intros H. apply acquire_inv in H as [_ ->]. by eexists.
Qed.

Lemma unlocked s s1 : (if locking =? 0 then Ret s else release s) = Ret s1 -> exists m, s1 = set_mutex m s.
Proof.
  destruct (locking =? 0); [intros [= <-]; exists (global_mutex s); by destruct s|]. intros H. apply release_inv in H as [_ ->]. by eexists.
Qed.

Lemma lister_frame rc s s' : move_lister locking rc s = Ret s' ->
  curfile s' = curfile s /\ workers s' = workers s /\ succeeded s' = succeeded s /\ failed s' = failed s /\ do_list s' = do_list s.
Proof.
  intros E. unfold move_lister in E. destruct (lister s); try (by injection E as <-); try done;
    apply bind_Ret_inv in E as (s1 & E1 & E); injection E as <-; destruct (locking =? 2); try (by injection E1 as <-);
    [apply acquire_inv in E1 as [_ ->]|apply release_inv in E1 as [_ ->]]; done.
Qed.

(** The thread that leaves the critical section holds the mutex. *)
Lemma holds_mutex s t w : inv s -> locking <> 0 -> workers s !! t = Some w -> critical (w_pc w) = true -> global_mutex s = Some (Worker t).
Proof. intros I Hl Hw Hc. rewrite (i_worker _ I Hl t w Hw) in Hc. by apply bool_decide_eq_true in Hc. Qed.

Lemma not_critical s t w u : inv s -> workers s !! t = Some w -> critical (w_pc w) = false -> u = t ->
  locking <> 0 -> bool_decide (global_mutex s = Some (Worker u)) = false.
Proof. intros I Hw Hc -> Hl. by rewrite <- (i_worker _ I Hl t w Hw). Qed.

Lemma inv_worker t rc s s' : inv s -> move locking files t rc s = Ret s' -> inv s'.
Proof.
  intros I. unfold move. destruct (workers s !! t) as [w|] eqn:Hw; [|done].
  assert (Hi := i_i _ I t w Hw). assert (Hm := i_succeeded _ I). destruct (i_out _ I) as [Ho1 Ho2].
  assert (Hk : w_pc w <> Retry -> critical (w_pc w) = false -> locking <> 0 -> false = bool_decide (global_mutex s = Some (Worker t)) /\
    (forall u, u <> t -> bool_decide (global_mutex s = Some (Worker u)) = bool_decide (global_mutex s = Some (Worker u))))
    by (intros _ Hc Hl; split; [symmetry; by eapply not_critical|done]).
  destruct (w_pc w) eqn:Ep; cbn [busy critical] in *.
  - intros H. apply bind_Ret_inv in H as (i & Ei & H). injection H as <-. unfold c_int in Ei. destruct (_ && _); [|done]. injection Ei as <-.
    eapply (inv_move s t w); try done; rewrite ?Ep; cbn; try lia; [apply I|by apply Hk|intros u ->; by right].
  - intros H. apply bind_Ret_inv in H as (s1 & E1 & H). injection H as <-. destruct (Z.eqb_spec locking 0) as [El|El].
    + injection E1 as <-. eapply (inv_move s t w); try done; rewrite ?Ep; cbn; try lia; [apply I|intros u ->; by right].
    + apply acquire_inv in E1 as [Hg ->]. eapply (inv_move s t w); try done; rewrite ?Ep; cbn; try lia.
      * intros _. split; [by rewrite bool_decide_eq_true_2|]. intros u Hu. rewrite Hg, !bool_decide_eq_false_2; [done|done|congruence].
      * intros u [= ->]. by left.
      * by rewrite Hg.
  - intros H. injection H as <-. eapply (inv_move s t w); try done; rewrite ?Ep; cbn; try lia; [apply I| |intros u ->; by right].
    intros Hl. split; [|done]. by rewrite <- (i_worker _ I Hl t w Hw), Ep.
  - intros H. apply bind_Ret_inv in H as (s1 & E1 & H).
    assert (Hs1 : exists m, s1 = set_mutex m s /\ (locking = 0 -> m = None) /\
      (locking <> 0 -> false = bool_decide (m = Some (Worker t)) /\
         (forall u, u <> t -> bool_decide (m = Some (Worker u)) = bool_decide (global_mutex s = Some (Worker u)))) /\
      (forall u, m = Some (Worker u) -> u = t \/ global_mutex s = Some (Worker u)) /\
      bool_decide (m = Some Lister) = bool_decide (global_mutex s = Some Lister)).
    { destruct (Z.eqb_spec locking 0) as [El|El].
      - injection E1 as <-. exists (global_mutex s). split; [by destruct s|]. split; [apply I|]. split; [done|]. split; [|done]. intros u ->. by right.
      - apply release_inv in E1 as [_ ->]. assert (Hg := holds_mutex s t w I El Hw ltac:(by rewrite Ep)). exists None.
        split_and!; try done; [|by rewrite Hg]. intros _. split; [done|]. intros u Hu. rewrite Hg, !bool_decide_eq_false_2; [done|congruence|done]. }
    destruct Hs1 as (m & -> & M1 & M2 & M3 & M4). destruct (Z.ltb_spec rc0 0) as [Hr|Hr].
    + apply bind_Ret_inv in H as (i & Ei & H). injection H as <-. unfold c_int in Ei. destruct (_ && _); [|done]. injection Ei as <-.
      eapply (inv_move s t w); try done; rewrite ?Ep; cbn; lia.
    + injection H as <-. eapply (inv_move s t w); try done; rewrite ?Ep; cbn; lia.
  - intros H. apply bind_Ret_inv in H as (cur & Ec & H). injection H as <-. unfold c_int in Ec. destruct (_ && _); [|done]. injection Ec as <-.
    destruct (Z.ltb_spec (curfile s) files); eapply (inv_move s t w); try done; rewrite ?Ep; cbn; try lia;
      try apply I; try (by apply Hk); intros u ->; by right.
  - intros H. injection H as <-. eapply (inv_move s t w); try done; rewrite ?Ep; cbn; try lia; [apply I|by apply Hk|intros u ->; by right].
  - done.
Qed.

Lemma inv_lister rc s s' : inv s -> move_lister locking rc s = Ret s' -> inv s'.
Proof.
  intros I. assert (Hkeep : forall l, listing l = listing (lister s) -> inv (set_lister l s)).
  { intros l Hl. destruct I as [I1 I2 I3 I4 I5 I6 I7 I8 I9]. split; try done. cbn [global_mutex lister set_lister]. by rewrite Hl. }
  assert (Hwait : locking = 2 -> forall m l, (forall t, m <> Some (Worker t)) -> (forall t, global_mutex s <> Some (Worker t)) ->
    bool_decide (m = Some Lister) = listing l -> inv (set_lister l (set_mutex m s))).
  { intros El m l Hm Hg Hl. destruct I as [I1 I2 I3 I4 I5 I6 I7 I8 I9]. split; cbn [curfile global_mutex workers lister succeeded failed set_lister set_mutex]; try done.
    - intros Hne. lia.
    - intros Hne t w Hw. rewrite (I5 Hne t w Hw). rewrite !bool_decide_eq_false_2 by done. done.
    - intros t E. by destruct (Hm t).
    - by rewrite El, Hl. }
  unfold move_lister. destruct (lister s) eqn:El.
  - intros [= <-]. apply Hkeep. by destruct (rc <? 0).
  - intros H. apply bind_Ret_inv in H as (s1 & E1 & H). injection H as <-. destruct (Z.eqb_spec locking 2) as [E2|E2].
    + apply acquire_inv in E1 as [Hg ->]. apply Hwait; [done|done|intros t; by rewrite Hg|done].
    + injection E1 as <-. destruct I as [I1 I2 I3 I4 I5 I6 I7 I8 I9]. split; try done. cbn [global_mutex lister set_lister].
      rewrite I7. destruct (Z.eqb_spec locking 2); [done|]. done.
  - intros [= <-]. apply Hkeep. by destruct ((0 <=? rc) && _).
  - intros H. apply bind_Ret_inv in H as (s1 & E1 & H). injection H as <-. destruct (Z.eqb_spec locking 2) as [E2|E2].
    + apply release_inv in E1 as [_ ->]. apply Hwait; [done|done| |done]. intros t Hg.
      assert (H := i_lister _ I). rewrite El, Hg, E2 in H. done.
    + injection E1 as <-. destruct I as [I1 I2 I3 I4 I5 I6 I7 I8 I9]. split; try done. cbn [global_mutex lister set_lister].
      rewrite I7. destruct (Z.eqb_spec locking 2); [done|]. done.
  - intros [= <-]. apply Hkeep. by destruct (do_list s).
  - done.
Qed.

Lemma reachable_inv s : reachable s -> inv s.
Proof.
  induction 1 as [|s [t rc|rc] s' _ IH E]; [apply inv_start| |]; [by eapply inv_worker|by eapply inv_lister].
Qed.

(** *** Names *)

(** Without a failure the numbers of a thread are all different. *)
Definition names_ok (s : threads) : Prop :=
  failed s = 0 -> NoDup (succeeded s) /\ forall t w, workers s !! t = Some w ->
    (busy (w_pc w) = true -> w_file w = w_i w - 1) /\
    forall x, (t, x) ∈ succeeded s -> x < w_i w - (if busy (w_pc w) then 1 else 0).

Lemma names_same s t w w' cur m dl :
  names_ok s -> workers s !! t = Some w ->
  (busy (w_pc w') = true -> w_file w' = w_i w' - 1) ->
  w_i w - (if busy (w_pc w) then 1 else 0) <= w_i w' - (if busy (w_pc w') then 1 else 0) ->
  names_ok (mkThreads cur m dl (<[t := w']> (workers s)) (lister s) (succeeded s) (failed s)).
Proof.
  intros N Hw Hb Hi Hf. destruct (N Hf) as [N1 N2]. split; [done|]. cbn. intros u x Hx.
  apply list_lookup_insert_Some in Hx as [(-> & -> & _)|[Hne Hx]]; [|by apply N2]. split; [done|]. intros y Hy.
  assert (H := proj2 (N2 _ w Hw) y Hy). lia.
Qed.

Lemma names_succeeded s t w w' cur m dl :
  names_ok s -> workers s !! t = Some w -> busy (w_pc w) = true -> busy (w_pc w') = false -> w_i w' = w_i w ->
  names_ok (mkThreads cur m dl (<[t := w']> (workers s)) (lister s) ((t, w_file w) :: succeeded s) (failed s)).
Proof.
  intros N Hw Hb Hb' Hi Hf. destruct (N Hf) as [N1 N2]. destruct (N2 _ w Hw) as [N3 N4]. specialize (N3 Hb). rewrite Hb in N4. cbn. split.
  - apply list.NoDup_cons. split; [|done]. intros Hin. specialize (N4 _ Hin). lia.
  - intros u x Hx. apply list_lookup_insert_Some in Hx as [(-> & -> & _)|[Hne Hx]].
    + rewrite Hb'. split; [done|]. intros y [[= ->]|Hy]%elem_of_cons; [lia|]. specialize (N4 y Hy). lia.
    + destruct (N2 _ x Hx) as [N5 N6]. split; [done|]. intros y [[= -> ->]|Hy]%elem_of_cons; [done|]. by apply N6.
Qed.

Lemma names_worker t rc s s' : inv s -> names_ok s -> move locking files t rc s = Ret s' -> names_ok s'.
Proof.
  intros I N. unfold move. destruct (workers s !! t) as [w|] eqn:Hw; [|done]. assert (Hfl := i_failed _ I).
  assert (Hbusy : failed s = 0 -> busy (w_pc w) = true -> w_file w = w_i w - 1) by (intros Hf; apply (proj2 (N Hf) _ w Hw)).
  assert (Hsame : forall w' cur m dl, (failed s = 0 -> busy (w_pc w') = true -> w_file w' = w_i w' - 1) ->
    w_i w - (if busy (w_pc w) then 1 else 0) <= w_i w' - (if busy (w_pc w') then 1 else 0) ->
    names_ok (mkThreads cur m dl (<[t := w']> (workers s)) (lister s) (succeeded s) (failed s))).
  { intros w' cur m dl H1 H2 Hf. apply (names_same s t w w' cur m dl N Hw (H1 Hf) H2 Hf). }
  destruct (w_pc w) eqn:Ep; cbn [busy] in *.
  - intros H. apply bind_Ret_inv in H as (i & Ei & H). injection H as <-. unfold c_int in Ei. destruct (_ && _); [|done]. injection Ei as <-.
    apply Hsame; cbn; [intros; lia|lia].
  - intros H. apply bind_Ret_inv in H as (s1 & E1 & H). injection H as <-.
    apply locked in E1 as [m ->]. apply Hsame; cbn; [by auto|lia].
  - intros H. injection H as <-. apply Hsame; cbn; [by auto|lia].
  - intros H. apply bind_Ret_inv in H as (s1 & E1 & H).
    apply unlocked in E1 as [m ->]. destruct (Z.ltb_spec rc0 0).
    + apply bind_Ret_inv in H as (i & Ei & H). injection H as <-. intros Hf. cbn in Hf. lia.
    + injection H as <-. apply (names_succeeded s t w); try done. by rewrite Ep.
  - intros H. apply bind_Ret_inv in H as (cur & Ec & H). injection H as <-.
    apply Hsame; cbn; destruct (curfile s <? files); cbn; try done; lia.
  - intros H. injection H as <-. apply Hsame; cbn; [done|lia].
  - done.
Qed.

Lemma reachable_names s : reachable s -> names_ok s.
Proof.
  induction 1 as [|s [t rc|rc] s' Hr IH E].
  - intros _. split; [constructor|]. cbn. intros t w [-> _]%lookup_replicate. split; [done|]. intros x Hx. by apply elem_of_nil in Hx.
  - eapply names_worker; [by apply reachable_inv|done|exact E].
  - destruct (lister_frame _ _ _ E) as (_ & E3 & E2 & E1 & _). unfold names_ok. by rewrite E1, E2, E3.
Qed.

(** *** Work *)

(** The moves that the threads have made: five for every file counted, three for every
    failure, and those of the current round. *)
Definition phase (p : pc) : Z :=
  match p with Naming => 0 | Retry => 1 | Creating => 2 | Created _ => 3 | Counting => 4 | Stopping => 0 | Done => 1 end.
Definition work (s : threads) : Z := 5 * curfile s + total phase (workers s) + 3 * failed s.

Definition is_move (e : event) : bool := match e with Move _ _ => true | MoveLister _ => false end.
Definition moves (es : list event) : Z := Z.of_nat (length (filter (fun e => is_move e = true) es)).

Lemma work_set s t w w' cur m dl l md fl : workers s !! t = Some w ->
  work (mkThreads cur m dl (<[t := w']> (workers s)) l md fl) =
  work s + 5 * (cur - curfile s) + phase (w_pc w') - phase (w_pc w) + 3 * (fl - failed s).
Proof. intros Hw. unfold work. cbn [curfile workers failed]. rewrite (total_insert _ _ _ w _ Hw). lia. Qed.

Lemma work_step s e s' : step s e = Ret s' -> work s' = work s + (if is_move e then 1 else 0).
Proof.
  destruct e as [t rc|rc]; cbn [ThreadTest.step is_move].
  - unfold move. destruct (workers s !! t) as [w|] eqn:Hw; [|done]. destruct (w_pc w) eqn:Ep; intros H.
    + apply bind_Ret_inv in H as (i & Ei & H). injection H as <-. unfold set_worker. rewrite (work_set s t w), Ep by done. cbn. lia.
    + apply bind_Ret_inv in H as (s1 & E1 & H). injection H as <-. apply locked in E1 as [m ->].
      unfold set_worker, set_mutex. cbn [workers]. rewrite (work_set s t w), Ep by done. cbn. lia.
    + injection H as <-. unfold set_worker. rewrite (work_set s t w), Ep by done. cbn. lia.
    + apply bind_Ret_inv in H as (s1 & E1 & H). apply unlocked in E1 as [m ->]. destruct (Z.ltb_spec rc0 0).
      * apply bind_Ret_inv in H as (i & Ei & H). injection H as <-. unfold set_worker, set_mutex. cbn [workers].
        rewrite (work_set s t w), Ep by done. cbn. lia.
      * injection H as <-. unfold set_worker, set_mutex. cbn [workers]. rewrite (work_set s t w), Ep by done. cbn. lia.
    + apply bind_Ret_inv in H as (cur & Ec & H). unfold c_int in Ec. destruct (_ && _); [|done]. injection Ec as <-.
      injection H as <-. unfold set_worker. cbn [workers]. rewrite (work_set s t w), Ep by done. cbn. destruct (curfile s <? files); cbn; lia.
    + injection H as <-. unfold set_worker. cbn [workers]. rewrite (work_set s t w), Ep by done. cbn. lia.
    + done.
  - intros E. apply lister_frame in E as (E1 & E2 & _ & E4 & _). unfold work. rewrite E1, E2, E4. lia.
Qed.

Lemma work_run es : forall s s', run locking files s es = Ret s' -> work s' = work s + moves es.
Proof.
  unfold moves. induction es as [|e es IH]; intros s s'; cbn [run]; [intros [= <-]; cbn; lia|]. intros H.
  apply bind_Ret_inv in H as (s1 & E & H). rewrite (IH s1 s' H), (work_step s e s1 E). rewrite filter_cons.
  destruct (is_move e) eqn:Em; [rewrite decide_True by done; cbn [length]; lia|rewrite decide_False by congruence; lia].
Qed.

(** *** Progress *)

Lemma holder_moves s t : inv s -> failed s < 2 ^ 31 -> global_mutex s = Some (Worker t) -> exists s', step s (Move t 0) = Ret s'.
Proof.
  intros I Hf Hg. assert (Hl : locking <> 0) by (intros E; rewrite (i_none _ I E) in Hg; done).
  assert (Ht := i_held _ I t Hg). rewrite <- (i_len _ I) in Ht. destruct (lookup_lt_is_Some_2 _ _ Ht) as [w Hw].
  assert (Hc := i_worker _ I Hl t w Hw). rewrite Hg, bool_decide_eq_true_2 in Hc by done.
  assert (Hi := i_i _ I t w Hw). destruct (inv_bound s I) as [_ Hb]. assert (H0 := i_failed _ I).
  cbn [ThreadTest.step]. unfold move. rewrite Hw. destruct (w_pc w); try done; [by eexists|]. destruct (Z.eqb_spec locking 0); [done|].
  unfold release. rewrite Hg, bind_Ret. destruct (rc <? 0); [|by eexists]. cbn in Hi. rewrite c_int_ok by lia. by eexists.
Qed.

(** A thread that is not done and does not have to wait can move. *)
Lemma worker_moves s t w : inv s -> failed s < 2 ^ 31 -> workers s !! t = Some w -> w_pc w <> Done -> global_mutex s = None ->
  exists s', step s (Move t 0) = Ret s'.
Proof.
  intros I Hf Hw Hd Hg. assert (Hi := i_i _ I t w Hw). destruct (inv_bound s I) as [Hc Hb]. assert (H0 := i_failed _ I).
  cbn [ThreadTest.step]. unfold move. rewrite Hw. destruct (w_pc w) eqn:Ep; cbn [busy] in Hi; try done.
  - rewrite c_int_ok by lia. by eexists.
  - unfold acquire. rewrite Hg. destruct (locking =? 0); by eexists.
  - by eexists.
  - destruct (Z.eqb_spec locking 0) as [E|E].
    + rewrite bind_Ret. destruct (rc <? 0); [|by eexists]. rewrite c_int_ok by lia. by eexists.
    + assert (Hx := i_worker _ I E t w Hw). rewrite Hg, Ep in Hx. done.
  - rewrite c_int_ok by lia. by eexists.
  - by eexists.
Qed.

Lemma lister_moves s : inv s -> (forall t, global_mutex s <> Some (Worker t)) -> lister s <> LDone -> exists s', step s (MoveLister 0) = Ret s'.
Proof.
  intros I Hg Hl. assert (H := i_lister _ I). cbn [ThreadTest.step]. unfold move_lister, acquire, release.
  destruct (lister s); try done; try (by eexists); destruct (Z.eqb_spec locking 2); try done; try (by eexists);
    destruct (global_mutex s) as [[t|]|]; try done; try (by destruct (Hg t)); by eexists.
Qed.

(** Some thread can move until all of them, the listing one too, are at the end. *)
Lemma progress s : inv s -> failed s < 2 ^ 31 -> (all_done s /\ lister s = LDone) \/ exists e s', step s e = Ret s'.
Proof.
  intros I Hf. destruct (global_mutex s) as [[t|]|] eqn:Hg.
  - right. destruct (holder_moves s t I Hf Hg) as [s' H]. eauto.
  - right. destruct (lister_moves s I) as [s' H]; [by rewrite Hg| |eauto].
    intros E. assert (H := i_lister _ I). rewrite E, Hg in H. by destruct (locking =? 2).
  - assert (Hdec : forall w, {w_pc w = Done} + {w_pc w <> Done}) by (intros w; destruct (w_pc w); (by left) || (by right)).
    destruct (Forall_Exists_dec (fun w => w_pc w = Done) Hdec (workers s)) as [Ha|He].
    { assert (Hl : {lister s = LDone} + {lister s <> LDone}) by (destruct (lister s); (by left) || (by right)).
      destruct Hl as [Hl|Hl]; [by left|]. right. destruct (lister_moves s I) as [s' H]; [by rewrite Hg|done|eauto]. }
    right. apply list.Exists_exists in He as (w & Hin & Hw). apply list_elem_of_lookup in Hin as [t Ht].
    destruct (worker_moves s t w I Hf Ht Hw Hg) as [s' H]. eauto.
Qed.

(** The listing thread is told to stop by the first thread that is done. *)
Definition told (s : threads) : Prop := forall t w, workers s !! t = Some w -> w_pc w = Done -> do_list s = false.

Lemma told_set s t w w' cur m dl l md fl : told s -> workers s !! t = Some w ->
  (do_list s = false -> dl = false) -> (w_pc w' = Done -> dl = false) ->
  told (mkThreads cur m dl (<[t := w']> (workers s)) l md fl).
Proof.
  intros T Hw H1 H2 u x Hx Hd. cbn in *. apply list_lookup_insert_Some in Hx as [(-> & -> & _)|[Hne Hx]]; [by apply H2|]. apply H1. by apply (T u x).
Qed.

Lemma told_worker t rc s s' : told s -> move locking files t rc s = Ret s' -> told s'.
Proof.
  intros T. unfold move. destruct (workers s !! t) as [w|] eqn:Hw; [|done]. destruct (w_pc w) eqn:Ep; intros H.
  - apply bind_Ret_inv in H as (i & _ & H). injection H as <-. by eapply told_set.
  - apply bind_Ret_inv in H as (s1 & E1 & H). injection H as <-. apply locked in E1 as [m ->]. by apply (told_set s t w).
  - injection H as <-. by eapply told_set.
  - apply bind_Ret_inv in H as (s1 & E1 & H). apply unlocked in E1 as [m ->]. destruct (rc0 <? 0).
    + apply bind_Ret_inv in H as (i & _ & H). injection H as <-. by apply (told_set s t w).
    + injection H as <-. by apply (told_set s t w).
  - apply bind_Ret_inv in H as (cur & _ & H). injection H as <-. apply (told_set s t w); try done. by destruct (curfile s <? files).
  - injection H as <-. by apply (told_set s t w).
  - done.
Qed.

Lemma reachable_told s : reachable s -> told s.
Proof.
  induction 1 as [|s [t rc|rc] s' Hr IH E].
  - intros t w [-> _]%lookup_replicate. done.
  - by eapply told_worker.
  - destruct (lister_frame _ _ _ E) as (_ & E2 & _ & _ & E1). unfold told. by rewrite E1, E2.
Qed.

Lemma work_start : work (started nthreads) = 0.
Proof.
  unfold work, started. cbn [curfile workers failed]. rewrite (total_all phase _ 0); [lia|]. apply Forall_replicate. done.
Qed.

(** All done: every thread has counted its last creation. *)
Lemma done_counts s : (0 < nthreads)%nat -> inv s -> all_done s -> curfile s = files + Z.of_nat nthreads /\ length (succeeded s) = Z.to_nat (curfile s).
Proof.
  intros Hn I Hd. destruct (i_out _ I) as [H1 H2]. assert (H3 := i_succeeded _ I).
  rewrite (total_all is_out _ 1) in H2 by (eapply list.Forall_impl; [exact Hd|]; intros w Hw; cbn in *; by rewrite Hw).
  rewrite (total_all is_counting _ 0) in H3 by (eapply list.Forall_impl; [exact Hd|]; intros w Hw; cbn in *; by rewrite Hw).
  rewrite (i_len _ I) in *. lia.
Qed.

End Invariant.

Section Schedules.
Import ThreadTest.

(** C29 Whatever the order in which the threads of threadtest.c run and whatever PVFS
    answers: with a lock at most one thread is creating a file, and with lock 2 none while
    the directory is listed; the calls of pvfs_fuse_create that did not fail are those counted
    and those about to be counted (a call that finds the file there does not fail, and
    creates nothing); when all threads are done there were [files + nthreads] of them and the
    listing thread has been told to stop; if none failed all their names are different; the
    threads make a bounded number of moves for the failures they met, and until they
    have all ended one of them can move, that is, the locks never block all of them. *)
Theorem schedules_account locking files nthreads es s
  (Hfiles : 0 <= files) (Hthreads : (0 < nthreads)%nat) (Hsmall : files + 2 * Z.of_nat nthreads + 1 < 2 ^ 31)
  (Hrun : run locking files (started nthreads) es = Ret s) :
  (locking <> 0 -> forall t u w x, workers s !! t = Some w -> workers s !! u = Some x ->
     critical (w_pc w) = true -> critical (w_pc x) = true -> t = u) /\
  (locking = 2 -> listing (lister s) = true -> forall t w, workers s !! t = Some w -> critical (w_pc w) = false) /\
  Z.of_nat (length (succeeded s)) = curfile s + total is_counting (workers s) /\
  0 <= curfile s <= files + Z.of_nat nthreads /\
  (all_done s -> Z.of_nat (length (succeeded s)) = files + Z.of_nat nthreads /\ do_list s = false) /\
  (failed s = 0 -> NoDup (succeeded s)) /\
  moves es <= 5 * files + 9 * Z.of_nat nthreads + 3 * failed s /\
  (failed s < 2 ^ 31 -> (all_done s /\ lister s = LDone) \/ exists e s', step locking files s e = Ret s').
Proof.
  assert (Hr := run_reachable locking files nthreads es _ s (reach_start _ _ _) Hrun).
  assert (I : inv locking files nthreads s) by (by apply reachable_inv).
  assert (Hb : 0 <= curfile s <= files + Z.of_nat nthreads) by (by eapply inv_bound). split_and!.
  - intros Hl t u w x Hw Hx Cw Cx. assert (H1 := holds_mutex _ _ _ s t w I Hl Hw Cw).
    assert (H2 := holds_mutex _ _ _ s u x I Hl Hx Cx). congruence.
  - intros Hl Hlist t w Hw. rewrite (i_worker _ _ _ s I) with (t := t) by (done || lia). apply bool_decide_eq_false. intros Hg.
    assert (H := i_lister _ _ _ s I). rewrite Hlist, Hg, Hl in H. done.
  - apply I.
  - lia.
  - lia.
  - intros Hd. assert (Hc : curfile s = files + Z.of_nat nthreads /\ length (succeeded s) = Z.to_nat (curfile s)) by (by eapply done_counts). split; [lia|].
    destruct (workers s) as [|w ws] eqn:Ew; [assert (H := i_len _ _ _ s I); rewrite Ew in H; cbn in H; lia|].
    apply (reachable_told _ _ _ s Hr O w); [by rewrite Ew|]. unfold all_done in Hd. rewrite Ew in Hd. by inversion Hd.
  - intros Hf. by eapply reachable_names.
  - assert (Hw : work s = work (started nthreads) + moves es) by (by eapply work_run). rewrite work_start in Hw. unfold work in Hw.
    assert (Hp := total_le phase (workers s) 4 ltac:(by intros []; cbn; lia)). rewrite (i_len _ _ _ s I) in Hp. lia.
  - intros Hf. by eapply progress.
Qed.

(** One file and two threads with lock 2: the second thread fails once and creates its
    file on the second attempt. *)
Definition example_schedule : list event :=
  [Move 0 0; Move 0 0; Move 1 0; Move 0 0; Move 0 0; Move 0 0; Move 1 0; Move 1 (-5); Move 1 0; MoveLister 0;
   MoveLister 0; MoveLister 3; MoveLister 0; Move 0 0; Move 0 0; Move 0 0; Move 0 0; Move 0 0; Move 1 0; Move 1 0; Move 1 0;
   Move 1 0; Move 0 0; Move 1 0; MoveLister 0].

Lemma schedules_account_witness : exists s, run 2 1 (started 2) example_schedule = Ret s /\ all_done s /\
  Z.of_nat (length (succeeded s)) = 3 /\ lister s = LDone /\ moves example_schedule <= 5 * 1 + 9 * 2 + 3 * failed s.
Proof.
  eexists. split; [vm_compute; reflexivity|]. split; [vm_compute; repeat constructor|].
  split; [|split; [reflexivity|]]; eapply (schedules_account 2 1 2 example_schedule); try lia; vm_compute; (reflexivity || (repeat constructor)).
Defined.

(** A creation that failed is tried again under the same name, but the number it gives
    back makes the next file have that name too: the second time the file exists, nothing
    is created and it is counted. *)
Lemma retry_repeats_name : exists s,
  run 0 1 (started 1) [Move 0 0; Move 0 0; Move 0 (-5); Move 0 0; Move 0 0; Move 0 0; Move 0 0; Move 0 0; Move 0 0; Move 0 0; Move 0 0; Move 0 0] = Ret s /\
  failed s = 1 /\ curfile s = 1 /\ succeeded s = [(O, 0); (O, 0)].
Proof. eexists. split; [vm_compute; reflexivity|done]. Qed.

End Schedules.
