(* ===== verification/Benchmarks.v ===== *)
(** * The directory benchmarks: util/gigabench.c, util/gigabench_ops.c, util/createthr.c

    [Gigabench] translates the benchmark whose threads create, look up or list files and
    count what they do per second; [CreateThr] the one that creates files while a thread
    reports its progress.  What the system calls and the clock answer is an argument: a
    comparison of two times, which are doubles, is one answer. *)

From Stdlib Require Import Ascii.
From S2P Require Import Prelude Names Pvfs ConnProps Startup ThreadTest.

#[local] Open Scope string_scope.
#[local] Open Scope Z_scope.

Module Gigabench.
Import ThreadTest.

Definition MAX_THREADS : Z := 64.
Definition MAX_PATH_LEN : nat := 256.
Definition MAX_RUN_TIME : nat := 1024.
Definition MAX_LEN : nat := 512.
Definition DO_GETATTR : Z := 12345.

Definition kFilePrefix : string := "gFD".
Definition kLogFilePrefix : string := "gBench".
Definition kCreateThrLogSuffix : string := "c_thr".
Definition kCreateLatLogSuffix : string := "c_lat".
Definition kLookupThrLogSuffix : string := "l_thr".
Definition kLookupLatLogSuffix : string := "l_lat".
Definition diff_mount_points : Z := 1.

Inductive BenchmarkWorkload : Type := CREATE_WORKLOAD | LOOKUP_WORKLOAD | SCAN_WORKLOAD | MIXED_WORKLOAD.

(** mixed_frac is only printed: setting it ends the program. *)
Record BenchmarkDescriptor : Type := mkBench {
  num_threads : Z;
  num_files : Z;
  dir_path : option string;
  log_file_dir : option string;
  host_name : string;
  workload_type : BenchmarkWorkload
}.

Record PerWorkerThreadStats : Type := mkStats {
  inst_throughput : list Z;
  completed_ops : Z;
  ended : bool
}.

Record WorkerThreadDescriptor : Type := mkDesc {
  id : Z;
  filename_prefix : string;
  create_thr_log_file : string;
  create_lat_log_file : string;
  lookup_thr_log_file : string;
  lookup_lat_log_file : string
}.

(** ** Settings *)

(** gethostname answers a name or fails. *)
Definition init_settings (gethostname : option string) : outcome BenchmarkDescriptor :=
  match gethostname with
  | Some h => Ret (mkBench 1 1 None None h CREATE_WORKLOAD)
  | None => Crash ProcessExit
  end.

Definition set_num_threads (n : Z) (d : BenchmarkDescriptor) : BenchmarkDescriptor :=
  mkBench n (num_files d) (dir_path d) (log_file_dir d) (host_name d) (workload_type d).
Definition set_workload (w : BenchmarkWorkload) (d : BenchmarkDescriptor) : BenchmarkDescriptor :=
  mkBench (num_threads d) (num_files d) (dir_path d) (log_file_dir d) (host_name d) w.

(** strcasecmp in the C locale. *)
Definition tolower (c : ascii) : Z :=
  let b := byte_of_ascii c in if (65 <=? b) && (b <=? 90) then b + 32 else b.

Fixpoint same_ignoring_case (s t : string) : bool :=
  match s, t with
  | EmptyString, EmptyString => true
  | String a s', String b t' => (tolower a =? tolower b) && same_ignoring_case s' t'
  | _, _ => false
  end.

(** One option that getopt returns with its argument. *)
Definition parse_option (c : ascii) (optarg : string) (d : BenchmarkDescriptor) : outcome BenchmarkDescriptor :=
  if decide (c = "F"%char) then
    Ret (mkBench (num_threads d) (num_files d) (dir_path d) (Some optarg) (host_name d) (workload_type d))
  else if decide (c = "D"%char) then
    Ret (mkBench (num_threads d) (num_files d) (Some optarg) (log_file_dir d) (host_name d) (workload_type d))
  else if decide (c = "T"%char) then
    if Startup.atoi optarg <? 1 then Crash ProcessExit else Ret (set_num_threads (Startup.atoi optarg) d)
  else if decide (c = "N"%char) then
    Ret (mkBench (num_threads d) (Startup.atoi optarg) (dir_path d) (log_file_dir d) (host_name d) (workload_type d))
  else if decide (c = "W"%char) then
    if same_ignoring_case optarg "create" then Ret (set_workload CREATE_WORKLOAD d)
    else if same_ignoring_case optarg "lookup" then Ret (set_workload LOOKUP_WORKLOAD d)
    else if same_ignoring_case optarg "scan" then Ret (set_num_threads 1 (set_workload SCAN_WORKLOAD d))
    else if same_ignoring_case optarg "mixed" then Ret (set_workload MIXED_WORKLOAD d)
    else Crash ProcessExit
  else if decide (c = "f"%char) then
    match workload_type d with MIXED_WORKLOAD => Crash ProcessExit | _ => Ret d end
  else Ret d.

Fixpoint parse_options (l : list (ascii * string)) (d : BenchmarkDescriptor) : outcome BenchmarkDescriptor :=
  match l with
  | [] => Ret d
  | (c, optarg) :: l' => d ← parse_option c optarg d; parse_options l' d
  end.

(** ** Names *)

(** snprintf to a buffer of MAX_PATH_LEN bytes; a null string prints as in the GNU C
    library. *)
Definition snprintf_path (s : string) : string := CString.firstn (MAX_PATH_LEN - 1) s.
Definition print_string (s : option string) : string := default "(null)" s.

Definition join (sep : string) (l : list string) : string := String.concat sep l.

Definition log_name (d : BenchmarkDescriptor) (i : Z) (suffix : string) : string :=
  snprintf_path (join "" [print_string (log_file_dir d); "/"; kLogFilePrefix; "_"; host_name d; "_th"; print_int i; "."; suffix]).

(** The names of one thread. *)
Definition init_desc (d : BenchmarkDescriptor) (i : Z) : WorkerThreadDescriptor :=
  mkDesc i (snprintf_path (join "" [kLogFilePrefix; "_host"; host_name d; "_th"; print_int i]))
    (log_name d i kCreateThrLogSuffix) (log_name d i kCreateLatLogSuffix)
    (log_name d i kLookupThrLogSuffix) (log_name d i kLookupLatLogSuffix).

(** The file that thread [t] creates in its round [i]. *)
Definition create_name (d : BenchmarkDescriptor) (t : WorkerThreadDescriptor) (i : Z) : string :=
  snprintf_path
    (if diff_mount_points =? 1
     then join "" [print_string (dir_path d); "/"; print_int (id t); "/"; filename_prefix t; "."; print_int i]
     else join "" [print_string (dir_path d); "/"; filename_prefix t; "."; print_int i]).

(** The file that thread [t] looks up for the random numbers of a thread and of a file. *)
Definition lookup_name (d : BenchmarkDescriptor) (t : WorkerThreadDescriptor) (rand_thread_id rand_file_num : Z) : string :=
  snprintf_path
    (if diff_mount_points =? 1
     then join "" [print_string (dir_path d); "/"; print_int (id t); "/"; host_name d; "_"; kFilePrefix; "_th";
                   print_int rand_thread_id; "_f"; print_int rand_file_num]
     else join "" [print_string (dir_path d); "/"; host_name d; "_"; kFilePrefix; "_th"; print_int rand_thread_id; "_f";
                   print_int rand_file_num]).

(** makename of gigabench_ops.c: the buffer has room for MAX_LEN characters and the
    terminator. *)
Definition ends_with_slash (s : string) : bool :=
  match String.get (String.length s - 1) s with Some c => bool_decide (c = slash) | None => false end.

Definition makename (dir file : string) : outcome string :=
  let d := if (0 <? String.length dir)%nat && negb (ends_with_slash dir) then String.append dir "/" else dir in
  let s := String.append d file in
  if (String.length s <=? MAX_LEN)%nat then Ret s else Crash OutOfBounds.

(** ** The threads *)

(** What the calls of one round answer: mknod or stat, the two random numbers, and whether
    the time since the start is past the end of second [k]. *)
Record answer : Type := mkAnswer { op_rc : Z; rand1 : Z; rand2 : Z; late : Z -> bool }.

(** The throughput statistics after an operation. *)
Definition tally (a : answer) (num_seconds_elapsed : Z) (st : PerWorkerThreadStats) : outcome (Z * PerWorkerThreadStats) :=
  '(n, l) ← (if late a num_seconds_elapsed then
               n ← c_int (num_seconds_elapsed + 1);
               l ← c_write (inst_throughput st) n 0; Ret (n, l)
             else Ret (num_seconds_elapsed, inst_throughput st));
  c ← c_read l n;
  c ← c_int (c + 1);
  l ← c_write l n c;
  ops ← c_int (completed_ops st + 1);
  Ret (n, mkStats l ops (ended st)).

Definition set_ended (st : PerWorkerThreadStats) : PerWorkerThreadStats := mkStats (inst_throughput st) (completed_ops st) true.

(** The loop of [create_ops_thread] for its last [n] rounds: the names it passed to mknod
    and the statistics.  A failed mknod ends the thread. *)
Fixpoint create_loop (d : BenchmarkDescriptor) (t : WorkerThreadDescriptor) (ans : Z -> answer) (n : nat) (i elapsed : Z)
  (st : PerWorkerThreadStats) : outcome (list string * PerWorkerThreadStats) :=
  match n with
  | O => Ret ([], set_ended st)
  | S n' =>
      let name := create_name d t i in
      if op_rc (ans i) <? 0 then Ret ([name], st)
      else
        '(elapsed, st) ← tally (ans i) elapsed st;
        '(names, st) ← create_loop d t ans n' (i + 1) elapsed st;
        Ret (name :: names, st)
  end.

(** Before the loop the first second is set to zero. *)
Definition create_ops_thread (d : BenchmarkDescriptor) (t : WorkerThreadDescriptor) (ans : Z -> answer)
  (st : PerWorkerThreadStats) : outcome (list string * PerWorkerThreadStats) :=
  l ← c_write (inst_throughput st) 0 0;
  create_loop d t ans (Z.to_nat (num_files d)) 0 0 (mkStats l (completed_ops st) (ended st)).

(** The loop of [lookup_ops_thread]; the result of stat is not looked at. *)
Fixpoint lookup_loop (d : BenchmarkDescriptor) (t : WorkerThreadDescriptor) (ans : Z -> answer) (n : nat) (i elapsed : Z)
  (st : PerWorkerThreadStats) : outcome (list string * PerWorkerThreadStats) :=
  match n with
  | O => Ret ([], set_ended st)
  | S n' =>
      let name := lookup_name d t (Z.rem (rand1 (ans i)) (num_threads d)) (Z.rem (rand2 (ans i)) (num_files d)) in
      '(elapsed, st) ← tally (ans i) elapsed st;
      '(names, st) ← lookup_loop d t ans n' (i + 1) elapsed st;
      Ret (name :: names, st)
  end.

Definition lookup_ops_thread (d : BenchmarkDescriptor) (t : WorkerThreadDescriptor) (ans : Z -> answer)
  (st : PerWorkerThreadStats) : outcome (list string * PerWorkerThreadStats) :=
  l ← c_write (inst_throughput st) 0 0;
  lookup_loop d t ans (Z.to_nat (num_files d)) 0 0 (mkStats l (completed_ops st) (ended st)).

(** scan_readdir: what opendir, readdir, stat and closedir answer; the names given to stat. *)
Record directory : Type := mkDirectory { opendir : bool; entries : list (string * Z); closedir : Z }.

Fixpoint scan_entries (dir_path : string) (flag : Z) (l : list (string * Z)) : outcome (list string) :=
  match l with
  | [] => Ret []
  | (name, rc) :: l' =>
      if flag =? DO_GETATTR then
        path ← makename dir_path name;
        if rc =? -1 then Crash ProcessExit
        else paths ← scan_entries dir_path flag l'; Ret (path :: paths)
      else scan_entries dir_path flag l'
  end.

Definition scan_readdir (dir_path : string) (flag : Z) (a : directory) : outcome (list string) :=
  if negb (opendir a) then Crash ProcessExit
  else
    paths ← scan_entries dir_path flag (entries a);
    if closedir a <? 0 then Crash ProcessExit else Ret paths.

Definition scan_ops_thread (d : BenchmarkDescriptor) (a : directory) (st : PerWorkerThreadStats)
  : outcome (list string * PerWorkerThreadStats) :=
  paths ← scan_readdir (print_string (dir_path d)) 0 a; Ret (paths, set_ended st).

(** ** Statistics *)

Definition init_stats : PerWorkerThreadStats := mkStats (replicate MAX_RUN_TIME (-1)) 0 false.

(** The rows written to the log: up to the first negative one. *)
Fixpoint rows (l : list Z) : list Z :=
  match l with [] => [] | x :: l' => if x <? 0 then [] else x :: rows l' end.

Definition print_throughput_stats (st : PerWorkerThreadStats) : list Z := rows (firstn MAX_RUN_TIME (inst_throughput st)).

(** The line of a thread: its operations, or that its time is an error; the time of a
    thread that did not get to its end is negative. *)
Definition print_aggr (positive : bool) (st : PerWorkerThreadStats) : option Z :=
  if ended st && positive then Some (completed_ops st) else None.

(** ** init_threads *)

(** The answers of calloc and malloc in their order, of pthread_create, pthread_join and
    fopen, and those of each thread. *)
Record system : Type := mkSystem {
  alloc : Z -> bool;
  spawn : Z -> Z;
  joined : Z -> Z;
  fopen : string -> bool;
  thread_answers : Z -> Z -> answer;
  thread_directory : Z -> directory;
  positive_time : Z -> bool
}.

(** One thread on its descriptor and statistics; of a mixed workload no thread is made, and
    the join is on one that does not exist. *)
Definition run_thread (s : system) (d : BenchmarkDescriptor) (i : Z) : outcome (list string * PerWorkerThreadStats) :=
  match workload_type d with
  | CREATE_WORKLOAD => create_ops_thread d (init_desc d i) (thread_answers s i) init_stats
  | LOOKUP_WORKLOAD => lookup_ops_thread d (init_desc d i) (thread_answers s i) init_stats
  | SCAN_WORKLOAD => scan_ops_thread d (thread_directory s i) init_stats
  | MIXED_WORKLOAD => Crash Uninitialised
  end.

(** The threads share nothing that one of them writes: each has its own statistics. *)
Fixpoint run_threads (s : system) (d : BenchmarkDescriptor) (n : nat) (i : Z) : outcome (list PerWorkerThreadStats) :=
  match n with
  | O => Ret []
  | S n' =>
      '(_, st) ← run_thread s d i;
      sts ← run_threads s d n' (i + 1);
      Ret (st :: sts)
  end.

Fixpoint check_all (f : Z -> bool) (n : nat) (i : Z) : outcome unit :=
  match n with O => Ret tt | S n' => if f i then check_all f n' (i + 1) else Crash ProcessExit end.

(** The log files written, and whether all could be opened. *)
Fixpoint write_logs (s : system) (d : BenchmarkDescriptor) (sts : list PerWorkerThreadStats) (i : Z) : list (string * list Z) * bool :=
  match sts with
  | [] => ([], true)
  | st :: sts' =>
      let t := init_desc d i in
      let '(thr, lat) :=
        match workload_type d with
        | CREATE_WORKLOAD => (create_thr_log_file t, create_lat_log_file t)
        | _ => (lookup_thr_log_file t, lookup_lat_log_file t)
        end in
      if negb (fopen s thr) then ([], false)
      else if negb (fopen s lat) then ([(thr, [])], false)
      else let '(l, ok) := write_logs s d sts' (i + 1) in ((thr, print_throughput_stats st) :: (lat, []) :: l, ok)
  end.

(** The log files, and the lines for the threads unless a log could not be opened. *)
Definition init_threads (s : system) (d : BenchmarkDescriptor) : outcome (list (string * list Z) * option (list (option Z))) :=
  let n := Z.to_nat (num_threads d) in
  _ ← check_all (alloc s) (n + 3) 0;
  _ ← check_all (fun i => match workload_type d with MIXED_WORKLOAD => true | _ => spawn s i =? 0 end) n 0;
  sts ← run_threads s d n 0;
  _ ← check_all (fun i => joined s i =? 0) n 0;
  let '(logs, ok) := match workload_type d with
                     | CREATE_WORKLOAD | LOOKUP_WORKLOAD => write_logs s d sts 0
                     | _ => ([], true)
                     end in
  Ret (logs, if ok : bool then Some (imap (fun i st => print_aggr (positive_time s (Z.of_nat i)) st) sts) else None).

Definition gigabench_main (s : system) (gethostname : option string) (argc : Z) (options : list (ascii * string))
  : outcome (list (string * list Z) * option (list (option Z))) :=
  d ← init_settings gethostname;
  if argc <? 2 then Crash ProcessExit
  else d ← parse_options options d; init_threads s d.

End Gigabench.

(** ** The statistics of a thread *)

Section Stats.
#[local] Open Scope list_scope.
Import Gigabench.

Lemma insert_middle {A} (q l : list A) x y : <[length q := y]> (q ++ x :: l) = q ++ y :: l.
Proof. induction q as [|a q IH]; [done|]. cbn [length app]. change (a :: <[length q := y]> (q ++ x :: l) = a :: q ++ y :: l). by rewrite IH. Qed.

Lemma lookup_middle' {A} (q l : list A) x : (q ++ x :: l) !! length q = Some x.
Proof. by apply list_lookup_middle. Qed.

(** The seconds up to the present one hold counts that add up to the operations done. *)
Definition counted (n : Z) (st : PerWorkerThreadStats) : Prop :=
  exists q x k, inst_throughput st = q ++ x :: replicate k (-1) /\ n = Z.of_nat (length q) /\ (length q + S k = MAX_RUN_TIME)%nat /\
    Forall (Z.le 0) (q ++ [x]) /\ foldr Z.add 0 (q ++ [x]) = completed_ops st.

Lemma sum_app (l k : list Z) : foldr Z.add 0 (l ++ k) = foldr Z.add 0 l + foldr Z.add 0 k.
Proof. induction l as [|x l IH]; cbn; [done|]. rewrite IH. lia. Qed.

(** One more in the present second. *)
Lemma count_one q x k n c ops e st :
  (length q + S k = MAX_RUN_TIME)%nat -> Forall (Z.le 0) (q ++ [x]) -> foldr Z.add 0 (q ++ [x]) = ops -> n = Z.of_nat (length q) -> 0 <= ops < 2 ^ 31 - 1 ->
  c = completed_ops st -> c = ops ->
  (c ← c_read (q ++ x :: replicate k (-1)) n; c ← c_int (c + 1); l ← c_write (q ++ x :: replicate k (-1)) n c; ops ← c_int (completed_ops st + 1);
   Ret (n, mkStats l ops e)) = Ret (n, mkStats (q ++ (x + 1) :: replicate k (-1)) (ops + 1) e) /\
  counted n (mkStats (q ++ (x + 1) :: replicate k (-1)) (ops + 1) e).
Proof.
  intros Hk Hpos Hsum -> Hops -> Hc.
  assert (Hx : 0 <= x <= ops).
  { apply Forall_app in Hpos as [Hq Hx]. inversion Hx; subst. rewrite sum_app. cbn.
    assert (0 <= foldr Z.add 0 q) by (clear -Hq; induction Hq; cbn; lia). lia. }
  split.
  - rewrite (c_read_ok _ _ x) by (lia || (rewrite Nat2Z.id; apply lookup_middle')). rewrite bind_Ret.
    rewrite (c_int_ok (x + 1)), bind_Ret by lia. rewrite c_write_ok by (rewrite length_app; cbn; lia).
    rewrite bind_Ret, Nat2Z.id, insert_middle, Hc, c_int_ok by lia. done.
  - exists q, (x + 1), k. split_and!; try done; cbn [completed_ops].
    + apply Forall_app in Hpos as [Hq _]. apply Forall_app. split; [done|]. repeat constructor. lia.
    + rewrite sum_app in *. cbn in *. lia.
Qed.

Lemma tally_counted a n st : counted n st -> 0 <= completed_ops st < 2 ^ 31 - 1 -> n < 1023 \/ late a n = false ->
  exists n' st', tally a n st = Ret (n', st') /\ counted n' st' /\ completed_ops st' = completed_ops st + 1 /\ ended st' = ended st.
Proof.
  intros (q & x & k & Hi & Hn & Hk & Hpos & Hsum) Hops Hlate. unfold tally. rewrite Hi. destruct (late a n) eqn:El.
  - destruct Hlate as [Hlt|]; [|done]. unfold MAX_RUN_TIME in Hk. destruct k as [|k]; [lia|].
    replace (q ++ x :: replicate (S k) (-1)) with ((q ++ [x]) ++ (-1) :: replicate k (-1)) by (by rewrite <- app_assoc).
    assert (Hlen : length (q ++ [x]) = S (length q)) by (rewrite length_app; cbn; lia).
    rewrite (c_int_ok (n + 1)) by lia. rewrite bind_Ret. rewrite (c_write_ok _ (n + 1) 0) by (rewrite ?length_app; cbn; lia). rewrite !bind_Ret.
    replace (Z.to_nat (n + 1)) with (length (q ++ [x])) by lia. rewrite insert_middle.
    destruct (count_one (q ++ [x]) 0 k (n + 1) (completed_ops st) (completed_ops st) (ended st) st) as [E C].
    + unfold MAX_RUN_TIME. lia.
    + apply Forall_app. split; [done|]. constructor; [lia|constructor].
    + rewrite sum_app. cbn. lia.
    + lia.
    + lia.
    + done.
    + done.
    + eexists _, _. split; [exact E|]. done.
  - rewrite bind_Ret. destruct (count_one q x k n (completed_ops st) (completed_ops st) (ended st) st) as [E C]; try done.
    eexists _, _. split; [exact E|]. done.
Qed.

(** What is printed for such statistics. *)
Lemma rows_counted n st : counted n st ->
  foldr Z.add 0 (print_throughput_stats st) = completed_ops st /\ (0 < length (print_throughput_stats st) <= MAX_RUN_TIME)%nat /\
  Forall (Z.le 0) (print_throughput_stats st).
Proof.
  intros (q & x & k & Hi & Hn & Hk & Hpos & Hsum). unfold print_throughput_stats. rewrite Hi, firstn_all2 by (rewrite length_app; cbn; rewrite length_replicate; lia).
  replace (q ++ x :: replicate k (-1)) with ((q ++ [x]) ++ replicate k (-1)) by (by rewrite <- app_assoc).
  assert (Hr : rows ((q ++ [x]) ++ replicate k (-1)) = q ++ [x]).
  { clear -Hpos. induction Hpos as [|y l Hy _ IH]; cbn [app rows]; [by destruct k|]. destruct (Z.ltb_spec y 0); [lia|]. by rewrite IH. }
  rewrite Hr. split; [done|]. split; [|done]. rewrite length_app. cbn. lia.
Qed.

(** The names of rounds [i], [i + 1], ... *)
Lemma names_from {A} (f : Z -> A) i names : names = (fun j => f (i + 1 + Z.of_nat j)) <$> seq 0 (length names) ->
  f i :: names = (fun j => f (i + Z.of_nat j)) <$> seq 0 (length (f i :: names)).
Proof.
  intros N. cbn [length seq]. rewrite fmap_cons. f_equal; [by rewrite Z.add_0_r|]. rewrite N at 1.
  rewrite <- (fmap_S_seq 0), <- list_fmap_compose. apply list_fmap_ext. intros _ j _. unfold compose. f_equal. lia.
Qed.

(** The clock: no operation ends after second 1024. *)
Definition in_time (ans : Z -> answer) : Prop := forall j k, 1023 <= k -> late (ans j) k = false.

Lemma tally_in_time ans j n st : in_time ans -> counted n st -> 0 <= completed_ops st < 2 ^ 31 - 1 ->
  exists n' st', tally (ans j) n st = Ret (n', st') /\ counted n' st' /\ completed_ops st' = completed_ops st + 1 /\ ended st' = ended st.
Proof.
  intros Ht C Ho. apply tally_counted; [done|done|]. destruct (Z.ltb_spec n 1023); [by left|right]. by apply Ht.
Qed.

(** How a loop of [n] rounds that had done [c] operations ends: after all of them, or with
    the first one that failed. *)
Definition loop_end (ans : Z -> answer) (n : nat) (i c : Z) (names : list string) (st : PerWorkerThreadStats) : Prop :=
  (exists e, counted e st) /\
  if ended st then completed_ops st = c + Z.of_nat n /\ length names = n
  else exists m, (m < n)%nat /\ completed_ops st = c + Z.of_nat m /\ length names = S m /\ op_rc (ans (i + Z.of_nat m)) < 0.

Lemma loop_end_cons ans n i c name names st :
  loop_end ans n (i + 1) (c + 1) names st -> loop_end ans (S n) i c (name :: names) st.
Proof.
  intros [C H]. split; [done|]. destruct (ended st); [cbn; lia|]. destruct H as (m & H1 & H2 & H3 & H4).
  exists (S m). cbn [length]. replace (i + Z.of_nat (S m)) with (i + 1 + Z.of_nat m) by lia. lia.
Qed.

Lemma create_loop_ends d t ans n : in_time ans -> forall i e st, counted e st -> 0 <= completed_ops st -> completed_ops st + Z.of_nat n < 2 ^ 31 ->
  ended st = false ->
  exists names st', create_loop d t ans n i e st = Ret (names, st') /\ loop_end ans n i (completed_ops st) names st' /\
    names = (fun j => create_name d t (i + Z.of_nat j)) <$> seq 0 (length names).
Proof.
  intros Ht. induction n as [|n IH]; intros i e st C H0 H1 He; cbn [create_loop].
  - exists [], (set_ended st). split_and!; [done| |done]. split; [by exists e|]. cbn. lia.
  - destruct (Z.ltb_spec (op_rc (ans i)) 0) as [Hf|Hf].
    + exists [create_name d t i], st. split_and!; [done| |cbn; by rewrite Z.add_0_r]. split; [by exists e|]. rewrite He. exists O. cbn [length].
      change (Z.of_nat 0) with 0. rewrite !Z.add_0_r. split_and!; (done || lia).
    + destruct (tally_in_time ans i e st Ht C) as (e' & st' & E & C' & Hc & He'); [lia|]. rewrite E, bind_Ret.
      destruct (IH (i + 1) e' st' C') as (names & st2 & E2 & L & N); [lia|lia|congruence|]. rewrite E2, bind_Ret.
      exists (create_name d t i :: names), st2. split_and!; [done| |].
      * apply loop_end_cons. by rewrite <- Hc.
      * by apply names_from.
Qed.

Lemma lookup_loop_ends d t ans n : in_time ans -> forall i e st, counted e st -> 0 <= completed_ops st -> completed_ops st + Z.of_nat n < 2 ^ 31 ->
  exists names st', lookup_loop d t ans n i e st = Ret (names, st') /\ loop_end ans n i (completed_ops st) names st' /\ ended st' = true.
Proof.
  intros Ht. induction n as [|n IH]; intros i e st C H0 H1; cbn [lookup_loop].
  - exists [], (set_ended st). split_and!; [done| |done]. split; [by exists e|]. cbn. lia.
  - destruct (tally_in_time ans i e st Ht C) as (e' & st' & E & C' & Hc & He'); [lia|]. rewrite E, bind_Ret.
    destruct (IH (i + 1) e' st' C') as (names & st2 & E2 & L & N); [lia|lia|]. rewrite E2, bind_Ret.
    eexists _, _. split; [done|]. split; [|done]. apply loop_end_cons. by rewrite <- Hc.
Qed.

Lemma counted_start : exists l, c_write (inst_throughput init_stats) 0 0 = Ret l /\ counted 0 (mkStats l 0 false).
Proof.
  rewrite c_write_ok by (cbn; lia). eexists. split; [done|]. exists [], 0, (MAX_RUN_TIME - 1)%nat.
  split_and!; try done. constructor; [lia|constructor].
Qed.

(** C30 The statistics of gigabench add up.  A thread of the create or of the lookup
    workload whose operations end within 1024 seconds comes to its end without leaving its
    array; the rows of its log, which are not negative, add up to the operations it has
    completed; a thread that comes to the end of its loop has done all its operations, and
    one that does not is a creating thread whose last operation failed. *)
Theorem throughput_accounts (s : system) (d : BenchmarkDescriptor) (i : Z)
  (Hw : workload_type d = CREATE_WORKLOAD \/ workload_type d = LOOKUP_WORKLOAD)
  (Hfiles : 0 <= num_files d < 2 ^ 31) (Hclock : in_time (thread_answers s i)) :
  exists names st, run_thread s d i = Ret (names, st) /\
    foldr Z.add 0 (print_throughput_stats st) = completed_ops st /\
    (0 < length (print_throughput_stats st) <= MAX_RUN_TIME)%nat /\ Forall (Z.le 0) (print_throughput_stats st) /\
    if ended st then completed_ops st = num_files d /\ Z.of_nat (length names) = num_files d
    else workload_type d = CREATE_WORKLOAD /\ completed_ops st < num_files d /\ Z.of_nat (length names) = completed_ops st + 1 /\
         op_rc (thread_answers s i (completed_ops st)) < 0.
Proof.
  destruct counted_start as (l & El & C). unfold run_thread.
  assert (Hpost : forall names st, loop_end (thread_answers s i) (Z.to_nat (num_files d)) 0 0 names st -> ended st = true \/ workload_type d = CREATE_WORKLOAD ->
    foldr Z.add 0 (print_throughput_stats st) = completed_ops st /\
    (0 < length (print_throughput_stats st) <= MAX_RUN_TIME)%nat /\ Forall (Z.le 0) (print_throughput_stats st) /\
    if ended st then completed_ops st = num_files d /\ Z.of_nat (length names) = num_files d
    else workload_type d = CREATE_WORKLOAD /\ completed_ops st < num_files d /\ Z.of_nat (length names) = completed_ops st + 1 /\
         op_rc (thread_answers s i (completed_ops st)) < 0).
  { intros names st [[e Ce] L] Hc. destruct (rows_counted e st Ce) as (R1 & R2 & R3). split_and!; try done; try apply R2.
    destruct (ended st); [lia|]. destruct L as (m & L1 & L2 & L3 & L4). destruct Hc as [|Hc]; [done|].
    rewrite L2. split; [done|]. split; [lia|]. split; [lia|]. exact L4. }
  destruct Hw as [Hw|Hw]; rewrite Hw.
  - unfold create_ops_thread. rewrite El, bind_Ret.
    destruct (create_loop_ends d (init_desc d i) _ (Z.to_nat (num_files d)) Hclock 0 0 _ C) as (names & st & E & L & _); [cbn; lia|cbn; lia|done|].
    exists names, st. split; [exact E|]. rewrite Hw in Hpost. apply Hpost; [done|by right].
  - unfold lookup_ops_thread. rewrite El, bind_Ret.
    destruct (lookup_loop_ends d (init_desc d i) _ (Z.to_nat (num_files d)) Hclock 0 0 _ C) as (names & st & E & L & He); [cbn; lia|cbn; lia|].
    exists names, st. split; [exact E|]. rewrite Hw in Hpost. apply Hpost; [done|by left].
Qed.

(** A thread that creates three files and is in the second second at the third. *)
Definition example_system : system :=
  mkSystem (fun _ => true) (fun _ => 0) (fun _ => 0) (fun _ => true)
    (fun _ j => mkAnswer 0 0 0 (fun k => (j =? 2) && (k =? 0))) (fun _ => mkDirectory true [] 0) (fun _ => true).
Definition example_bench : BenchmarkDescriptor := mkBench 2 3 (Some "/mnt") (Some "/tmp") "node1" CREATE_WORKLOAD.

Lemma throughput_accounts_witness : exists names st, run_thread example_system example_bench 1 = Ret (names, st) /\
  foldr Z.add 0 (print_throughput_stats st) = completed_ops st.
Proof.
  destruct (throughput_accounts example_system example_bench 1) as (names & st & E & R & _).
  - by left.
  - cbn. lia.
  - intros j k Hk. cbn. lia.
  - by exists names, st.
Defined.

Lemma example_rows : exists names st, run_thread example_system example_bench 1 = Ret (names, st) /\ print_throughput_stats st = [2; 1] /\
  names = ["/mnt/1/gBench_hostnode1_th1.0"; "/mnt/1/gBench_hostnode1_th1.1"; "/mnt/1/gBench_hostnode1_th1.2"].
Proof. eexists _, _. split; [vm_compute; reflexivity|done]. Qed.

(** A thread with an operation in every second past the last one writes outside its
    array. *)
Lemma overrun_writes_outside :
  run_thread (mkSystem (fun _ => true) (fun _ => 0) (fun _ => 0) (fun _ => true) (fun _ _ => mkAnswer 0 0 0 (fun _ => true))
    (fun _ => mkDirectory true [] 0) (fun _ => true)) (mkBench 1 1024 (Some "/mnt") (Some "/tmp") "node1" CREATE_WORKLOAD) 0 = Crash OutOfBounds.
Proof. vm_compute. reflexivity. Qed.

(** The option -f ends the program for a mixed workload whatever its argument, and is
    reported as illegal for the others. *)
Lemma option_f_exits optarg d : parse_option "f"%char optarg d = match workload_type d with MIXED_WORKLOAD => Crash ProcessExit | _ => Ret d end.
Proof. done. Qed.

(** *** Names *)

Lemma firstn_fits n s : (String.length s <= n)%nat -> CString.firstn n s = s.
Proof. revert s. induction n as [|n IH]; intros [|a s]; cbn; try done; [lia|]. intros H. f_equal. apply IH. lia. Qed.

(** Two strings that end at the first occurrence of a character. *)
Lemma split_first c s t x y : CString.count c s = O -> CString.count c t = O ->
  String.append s (String c x) = String.append t (String c y) -> s = t /\ x = y.
Proof.
  revert t. induction s as [|a s IH]; intros [|b t]; cbn [CString.count].
  - intros _ _ [= E]. done.
  - intros _ Ht [= <- _]. by rewrite decide_True in Ht.
  - intros Hs _ [= -> _]. by rewrite decide_True in Hs.
  - intros Hs Ht [= -> E]. destruct (decide (b = c)); [done|]. destruct (IH t Hs Ht E) as [-> ->]. done.
Qed.

Lemma print_int_plain i : - 2 ^ 31 <= i < 2 ^ 31 -> CString.count ThreadTest.slash (ThreadTest.print_int i) = O.
Proof.
  intros Hi. unfold ThreadTest.print_int. destruct (Z.ltb_spec i 0).
  - change (CString.count ThreadTest.slash (PartName.string_of_digits (PartName.dec_digits 10 (- i))) = O).
    apply string_of_digits_plain. apply dec_digits_ok; cbn; lia.
  - apply string_of_digits_plain. apply dec_digits_ok; cbn; lia.
Qed.

(** No lookup is for a file that the benchmark creates, whatever threads and numbers: the
    two workloads make up their names in different ways.  A host name has no underscore
    and the names fit their buffers. *)
Lemma lookups_miss d i n j a b :
  CString.count "_"%char (host_name d) = O -> - 2 ^ 31 <= i < 2 ^ 31 -> - 2 ^ 31 <= j < 2 ^ 31 ->
  (String.length (print_string (dir_path d)) + String.length (host_name d) <= 150)%nat ->
  create_name d (init_desc d i) n <> lookup_name d (init_desc d j) a b.
Proof.
  intros Hh Hi Hj Hlen.
  assert (L1 := print_int_length i). assert (L2 := print_int_length j). assert (L3 := print_int_length n).
  assert (L4 := print_int_length a). assert (L5 := print_int_length b).
  assert (K1 : String.length kLogFilePrefix = 6%nat) by done. assert (K2 : String.length kFilePrefix = 3%nat) by done.
  assert (Hp : filename_prefix (init_desc d i) = join "" [kLogFilePrefix; "_host"; host_name d; "_th"; ThreadTest.print_int i])
    by (apply firstn_fits; cbn; repeat (rewrite length_sapp; cbn [String.length]); lia).
  assert (Hc : create_name d (init_desc d i) n =
    join "" [print_string (dir_path d); "/"; ThreadTest.print_int i; "/"; filename_prefix (init_desc d i); "."; ThreadTest.print_int n]).
  { apply firstn_fits. rewrite Hp. cbn. repeat (rewrite length_sapp; cbn [String.length]). lia. }
  assert (Hl : lookup_name d (init_desc d j) a b =
    join "" [print_string (dir_path d); "/"; ThreadTest.print_int j; "/"; host_name d; "_"; kFilePrefix; "_th";
             ThreadTest.print_int a; "_f"; ThreadTest.print_int b]).
  { apply firstn_fits. cbn. repeat (rewrite length_sapp; cbn [String.length]). lia. }
  rewrite Hc, Hl, Hp. intros E. apply (sapp_inj_l (print_string (dir_path d))) in E. injection E as E.
  apply (split_first "/"%char (ThreadTest.print_int i) (ThreadTest.print_int j)) in E as [_ E]; [|by apply print_int_plain|by apply print_int_plain].
  apply (split_first "_"%char "gBench" (host_name d)) in E as [_ E]; [|done|done]. discriminate E.
Qed.

End Stats.

(** ** createthr.c *)

Module CreateThr.
Import ThreadTest.

Definition filename_size : nat := 64.

(** A string and its terminator in the buffer. *)
Definition in_buffer (s : string) : outcome string :=
  if (String.length s <? filename_size)%nat then Ret s else Crash OutOfBounds.

(** The host's name, as gethostname writes it, and the process. *)
Definition make_prefix (host : string) (pid : Z) : outcome string :=
  h ← in_buffer host;
  in_buffer (String.append h (String "."%char (String.append (print_int pid) "."))).

(** One round of the thread that reports: the number printed, lastfile and errors after it,
    and whether it goes on; nanosleep may fail with EINTR or otherwise. *)
Definition report (curfile lastfile errors nanosleep : Z) (eintr : bool) : outcome (Z * Z * Z * bool) :=
  n ← c_int (curfile - lastfile);
  errors ← (if (nanosleep =? -1) && negb eintr then c_int (errors + 1) else Ret errors);
  Ret (n, curfile, errors, errors <=? 50).

(** The loop of main for its last [n] files: what mknod answers, the errors the other thread
    has counted before file [i], the names and the exit status. *)
Fixpoint create_files (prefix : string) (mknod noise : Z -> Z) (n : nat) (curfile errors : Z) : outcome (list string * Z) :=
  match n with
  | O => Ret ([], 0)
  | S n' =>
      name ← in_buffer (String.append prefix (print_int curfile));
      let errors := errors + noise curfile in
      if mknod curfile <? 0 then
        errors ← c_int (errors + 1);
        if 50 <? errors then Ret ([name], 2)
        else '(names, status) ← create_files prefix mknod noise n' (curfile + 1) errors; Ret (name :: names, status)
      else '(names, status) ← create_files prefix mknod noise n' (curfile + 1) errors; Ret (name :: names, status)
  end.

(** main; a number that pthread_create or pthread_detach returns ends it. *)
Definition createthr_main (argv : list string) (chdir : Z) (host : string) (pid create detach : Z) (mknod noise : Z -> Z) : outcome (list string * Z) :=
  match argv with
  | [_; _; max] =>
      if negb (chdir =? 0) then Ret ([], 1)
      else
        prefix ← make_prefix host pid;
        let maxfiles := Startup.atoi max in
        if negb (create =? 0) then Ret ([], 1)
        else if negb (detach =? 0) then Ret ([], 1)
        else create_files prefix mknod noise (Z.to_nat maxfiles) 0 0
  | _ => Ret ([], 1)
  end.

End CreateThr.

Section Creating.
Import CreateThr.
#[local] Open Scope list_scope.

(** The failures of mknod among the files from [i] on. *)
Fixpoint failures (mknod : Z -> Z) (i : Z) (n : nat) : Z :=
  match n with O => 0 | S n' => (if mknod i <? 0 then 1 else 0) + failures mknod (i + 1) n' end.

Lemma failures_nonneg mknod n : forall i, 0 <= failures mknod i n.
Proof. induction n as [|n IH]; intros i; cbn [failures]; [done|]. specialize (IH (i + 1)). destruct (mknod i <? 0); lia. Qed.

(** With room for the names and no errors of the other thread, the program ends with
    status 2 just when more than fifty files could not be made; otherwise it tries all of
    them, under different names. *)
Lemma create_files_status prefix mknod n : (String.length prefix <= 52)%nat ->
  forall i e, 0 <= e <= 50 ->
  exists names, create_files prefix mknod (fun _ => 0) n i e = Ret (names, if e + failures mknod i n <=? 50 then 0 else 2) /\
    names = (fun j => String.append prefix (ThreadTest.print_int (i + Z.of_nat j))) <$> seq 0 (length names) /\
    (e + failures mknod i n <= 50 -> length names = n).
Proof.
  intros Hp. induction n as [|n IH]; intros i e He; cbn [create_files].
  - exists []. cbn [failures]. destruct (Z.leb_spec (e + 0) 50); [done|lia].
  - unfold in_buffer, filename_size. rewrite length_sapp. assert (L := print_int_length i).
    destruct (Nat.ltb_spec (String.length prefix + String.length (ThreadTest.print_int i)) 64); [|lia].
    rewrite bind_Ret, Z.add_0_r. cbn [failures]. assert (Hf := failures_nonneg mknod n (i + 1)).
    destruct (Z.ltb_spec (mknod i) 0).
    + rewrite c_int_ok, bind_Ret by lia. destruct (Z.ltb_spec 50 (e + 1)).
      * destruct (Z.leb_spec (e + (1 + failures mknod (i + 1) n)) 50); [lia|]. eexists. split; [done|]. split; [cbn; by rewrite Z.add_0_r|lia].
      * destruct (IH (i + 1) (e + 1)) as (names & E & N & Hn); [lia|]. rewrite E, bind_Ret. eexists. split; [by rewrite Z.add_assoc|].
        split; [by apply (names_from (fun j => String.append prefix (ThreadTest.print_int j)))|]. intros. cbn [length]. rewrite Hn; lia.
    + destruct (IH (i + 1) e) as (names & E & N & Hn); [lia|]. rewrite E, bind_Ret. eexists. split; [done|].
      split; [by apply (names_from (fun j => String.append prefix (ThreadTest.print_int j)))|]. intros. cbn [length]. rewrite Hn; lia.
Qed.

(** A host name of 63 characters, the most there can be, leaves no room for the number of the process. *)
Lemma long_host_overflows :
  make_prefix "node-with-a-long-name-0123456789.cluster.department.example.org" 31337 = Crash OutOfBounds.
Proof. vm_compute. reflexivity. Qed.

End Creating.
