(* ===== verification/Simul.v ===== *)
(** * The tests of simultaneous operations: util/simul.c

    Every process of an MPI run does the same file-system operation at the same time, on one
    shared file or on a file of its own, and the program stops all of them when an operation
    that should succeed fails, or when not exactly one of several exclusive operations
    succeeds.  [Simul] translates the twenty tests, the helpers and [main] to processes of
    Mpi.v, for every rank; the file system is what answers the calls.  The theorems hold for
    every order in which the processes run. *)

From Stdlib Require Import Ascii.
From S2P Require Import Prelude Names ConnProps Startup ThreadTest Mpi.

#[local] Open Scope string_scope.
#[local] Open Scope Z_scope.

Module Simul.
Import Mpi.

(** ** System calls *)

Inductive call : Type :=
| Stat (p : string)
| Unlink (p : string)
| Rmdir (p : string)
| Creat (p : string)
| Mkdir (p : string)
| Symlink (target p : string)
| Link (old new : string)
| Rename (old new : string)
| Truncate (p : string) (len : Z)
| Readlink (p : string)
| Statfs (p : string)
| Open (p : string)
| Close (fd : Z)
| Lseek (fd off : Z)
| Read (fd count : Z)
| Write (fd count : Z)
| Getcwd
| Chdir (p : string)
| Opendir (p : string)
| Readdir (dir : Z)
| Closedir (dir : Z)
| Malloc
| Gettimeofday
| Gethostname
| Fgets
| Say (s : string).

(** The value returned, what stat says of the file, and the text of getcwd.  A null pointer
    is zero. *)
Inductive kind : Type := Regular | Directory | Other.
Record answer : Type := mkAnswer { rc : Z; mode : kind; text : string }.

Abbreviation P := (proc call answer).

Definition sys (c : call) : P answer := Call c Done.
Definition say (s : string) : P unit := _ ← sys (Say s); Done tt.
Definition abort {A} (code : Z) : P A := Stop (Aborted code).

(** FAIL *)
Definition fail {A} (msg : string) : P A := _ ← sys (Say msg); abort 1.

(** sprintf to a buffer of [room] bytes. *)
Definition sprintf (room : nat) (s : string) : P string :=
  if (String.length s <? room)%nat then Done s else Stop (Faulty OutOfBounds).

Definition MAX_FILENAME_LEN : nat := 512.
Definition errmsg_len : nat := MAX_FILENAME_LEN + 20.
Definition throttle : nat := 1.

(** The globals of a process. *)
Record env : Type := mkEnv { rank : nat; size : nat; testdir : option string; verbose : Z }.

Fixpoint for_each {A} (l : list A) (f : A -> P unit) : P unit :=
  match l with [] => Done tt | x :: l' => _ ← f x; for_each l' f end.

Section Tests.
Variable e : env.

(** "%s/%s.%d" *)
Definition path (prefix : string) (i : nat) : string :=
  default "(null)" (testdir e) +:+ "/" +:+ prefix +:+ "." +:+ ThreadTest.print_int (Z.of_nat i).

(** ** Helpers *)

Definition begin (str : string) : P unit :=
  if (0 <? verbose e) && (rank e =? 0)%nat then _ ← sys Gettimeofday; say (String.append "Beginning " str) else Done tt.

(** "end" is a word of the language. *)
Definition end_ (str : string) : P unit :=
  _ ← Barrier (Done tt);
  if (0 <? verbose e) && (rank e =? 0)%nat then _ ← sys Gettimeofday; say (String.append "Finished " str) else Done tt.

Definition MPI_Barrier : P unit := Barrier (Done tt).

Definition Seq_begin (numprocs : nat) : P unit :=
  if (numprocs <=? rank e)%nat then Recv (rank e - numprocs) (Done tt) else Done tt.

Definition Seq_end (numprocs : nat) : P unit :=
  if (rank e + numprocs <? size e)%nat then Send (rank e + numprocs) (Done tt) else Done tt.

(** MPI_Gather at rank 0: the other ranks get nothing. *)
Definition MPI_Gather (v : Z) : P (list Z) :=
  if (rank e =? 0)%nat then Collect v Done else Give v (Done []).

Definition remove_file_or_dir (name : string) : P unit :=
  st ← sys (Stat name);
  if rc st =? -1 then Done tt else
  _ ← (match mode st with
       | Regular =>
           _ ← say "stale file found";
           r ← sys (Unlink name);
           if rc r =? -1 then msg ← sprintf errmsg_len (String.append "unlink of " name); fail msg else Done tt
       | _ => Done tt
       end);
  match mode st with
  | Directory =>
      _ ← say "stale directory found";
      r ← sys (Rmdir name);
      if rc r =? -1 then msg ← sprintf errmsg_len (String.append "rmmdir of " name); fail msg else Done tt
  | _ => Done tt
  end.

(** The ranks whose files process 0 makes and removes. *)
Definition files (shared : bool) : list nat := seq 0 (if shared then 1 else size e).
Definition own (shared : bool) : nat := if shared then 0%nat else rank e.

Definition create_file (prefix : string) (filesize : Z) (i : nat) : P unit :=
  filename ← sprintf MAX_FILENAME_LEN (path prefix i);
  _ ← remove_file_or_dir filename;
  fd ← sys (Creat filename);
  if rc fd =? -1 then msg ← sprintf errmsg_len (String.append "creat of file " filename); fail msg else
  _ ← (if 0 <? filesize then
         r ← sys (Lseek (rc fd) (filesize - 1));
         if rc r =? -1 then msg ← sprintf errmsg_len (String.append "lseek in file " filename); fail msg else
         r ← sys (Write (rc fd) 1);
         if rc r =? -1 then msg ← sprintf errmsg_len (String.append "write in file " filename); fail msg else Done tt
       else Done tt);
  r ← sys (Close (rc fd));
  if rc r =? -1 then msg ← sprintf errmsg_len (String.append "close of file " filename); fail msg else Done tt.

Definition create_files (prefix : string) (filesize : Z) (shared : bool) : P string :=
  _ ← (if (rank e =? 0)%nat then for_each (files shared) (create_file prefix filesize) else Done tt);
  sprintf MAX_FILENAME_LEN (path prefix (own shared)).

Definition remove_files (prefix : string) (shared : bool) : P unit :=
  if (rank e =? 0)%nat then
    for_each (files shared) (fun i =>
      filename ← sprintf 1024 (path prefix i);
      r ← sys (Unlink filename);
      if rc r =? -1 then fail "unlink failed" else Done tt)
  else Done tt.

Definition create_dirs (prefix : string) (shared : bool) : P string :=
  _ ← (if (rank e =? 0)%nat then
         for_each (files shared) (fun i =>
           dirname ← sprintf 1024 (path prefix i);
           _ ← remove_file_or_dir dirname;
           r ← sys (Mkdir dirname);
           if rc r =? -1 then fail "init mkdir failed" else Done tt)
       else Done tt);
  sprintf 1024 (path prefix (own shared)).

Definition remove_dirs (prefix : string) (shared : bool) : P unit :=
  if (rank e =? 0)%nat then
    for_each (files shared) (fun i =>
      dirname ← sprintf 1024 (path prefix i);
      r ← sys (Rmdir dirname);
      if rc r =? -1 then fail "rmdir failed" else Done tt)
  else Done tt.

Definition symlink_target (name : string) : string := default "(null)" (testdir e) +:+ "/" +:+ name.

Definition create_symlinks (prefix : string) (shared : bool) : P string :=
  _ ← (if (rank e =? 0)%nat then
         for_each (files shared) (fun i =>
           filename ← sprintf 1024 (symlink_target "symlink_target");
           linkname ← sprintf 1024 (path prefix i);
           _ ← remove_file_or_dir linkname;
           r ← sys (Symlink filename linkname);
           if rc r =? -1 then fail "symlink failed" else Done tt)
       else Done tt);
  sprintf 1024 (path prefix (own shared)).

(** The counts of rc_vec. *)
Definition failures (error_rc : Z) (rc_vec : list Z) : nat := length (filter (fun x => x = error_rc) rc_vec).
Definition passes (error_rc : Z) (rc_vec : list Z) : nat := length (filter (fun x => x <> error_rc) rc_vec).

Definition check_single_success (testname : string) (v error_rc : Z) : P unit :=
  _ ← (if (rank e =? 0)%nat then
         m ← sys Malloc;
         if rc m =? 0 then fail "malloc failed" else Done tt
       else Done tt);
  rc_vec ← MPI_Gather v;
  if (rank e =? 0)%nat then
    if (passes error_rc rc_vec =? 1)%nat && (failures error_rc rc_vec =? size e - 1)%nat then Done tt
    else _ ← say (String.append "FAILED in " testname); abort 1
  else Done tt.

(** ** The tests *)

Definition checked (r : answer) (msg : string) : P unit := if rc r =? -1 then fail msg else Done tt.

Definition simul_open (shared : bool) : P unit :=
  _ ← begin "setup";
  filename ← create_files "simul_open" 0 shared;
  _ ← end_ "setup";
  _ ← begin "test";
  fd ← sys (Open filename);
  _ ← checked fd "open failed";
  _ ← end_ "test";
  _ ← begin "cleanup";
  _ ← Seq_begin throttle;
  r ← sys (Close (rc fd));
  _ ← checked r "close failed";
  _ ← Seq_end throttle;
  _ ← MPI_Barrier;
  _ ← remove_files "simul_open" shared;
  end_ "cleanup".

Definition simul_close (shared : bool) : P unit :=
  _ ← begin "setup";
  filename ← create_files "simul_close" 0 shared;
  _ ← MPI_Barrier;
  _ ← Seq_begin throttle;
  fd ← sys (Open filename);
  _ ← checked fd "open failed";
  _ ← Seq_end throttle;
  _ ← end_ "setup";
  _ ← begin "test";
  r ← sys (Close (rc fd));
  _ ← checked r "close failed";
  _ ← end_ "test";
  _ ← begin "cleanup";
  _ ← remove_files "simul_close" shared;
  end_ "cleanup".

Definition simul_chdir (shared : bool) : P unit :=
  _ ← begin "setup";
  cwd ← sys Getcwd;
  if rc cwd =? 0 then fail "init getcwd failed" else
  dirname ← create_dirs "simul_chdir" shared;
  _ ← end_ "setup";
  _ ← begin "test";
  r ← sys (Chdir dirname);
  _ ← checked r "chdir failed";
  _ ← end_ "test";
  _ ← begin "cleanup";
  r ← sys (Chdir (text cwd));
  _ ← checked r "chdir back failed";
  _ ← MPI_Barrier;
  _ ← remove_dirs "simul_chdir" shared;
  end_ "cleanup".

Definition simul_file_stat (shared : bool) : P unit :=
  _ ← begin "setup";
  filename ← create_files "simul_file_stat" 0 shared;
  _ ← end_ "setup";
  _ ← begin "test";
  r ← sys (Stat filename);
  _ ← checked r "stat failed";
  _ ← end_ "test";
  _ ← begin "cleanup";
  _ ← remove_files "simul_file_stat" shared;
  end_ "cleanup".

Definition simul_dir_stat (shared : bool) : P unit :=
  _ ← begin "setup";
  dirname ← create_dirs "simul_dir_stat" shared;
  _ ← end_ "setup";
  _ ← begin "test";
  r ← sys (Stat dirname);
  _ ← checked r "stat failed";
  _ ← end_ "test";
  _ ← begin "cleanup";
  _ ← remove_dirs "simul_dir_stat" shared;
  end_ "cleanup".

Definition simul_readdir (shared : bool) : P unit :=
  _ ← begin "setup";
  dirname ← create_dirs "simul_readdir" shared;
  _ ← MPI_Barrier;
  _ ← Seq_begin throttle;
  dir ← sys (Opendir dirname);
  if rc dir =? 0 then fail "init opendir failed" else
  _ ← Seq_end throttle;
  _ ← end_ "setup";
  _ ← begin "test";
  dptr ← sys (Readdir (rc dir));
  if rc dptr =? 0 then fail "readdir failed" else
  _ ← end_ "test";
  _ ← begin "cleanup";
  _ ← Seq_begin throttle;
  r ← sys (Closedir (rc dir));
  _ ← checked r "closedir failed";
  _ ← Seq_end throttle;
  _ ← MPI_Barrier;
  _ ← remove_dirs "simul_readdir" shared;
  end_ "cleanup".

Definition simul_statfs (shared : bool) : P unit :=
  _ ← begin "setup";
  filename ← create_files "simul_statfs" 0 shared;
  _ ← end_ "setup";
  _ ← begin "test";
  r ← sys (Statfs filename);
  _ ← checked r "statfs failed";
  _ ← end_ "test";
  _ ← begin "cleanup";
  _ ← remove_files "simul_statfs" shared;
  end_ "cleanup".

Definition simul_lseek (shared : bool) : P unit :=
  _ ← begin "setup";
  filename ← create_files "simul_lseek" 0 shared;
  _ ← MPI_Barrier;
  _ ← Seq_begin throttle;
  fd ← sys (Open filename);
  _ ← checked fd "init open failed";
  _ ← Seq_end throttle;
  _ ← end_ "setup";
  _ ← begin "test";
  r ← sys (Lseek (rc fd) 1024);
  _ ← checked r "lseek failed";
  _ ← end_ "test";
  _ ← begin "cleanup";
  _ ← Seq_begin throttle;
  r ← sys (Close (rc fd));
  _ ← checked r "cleanup close failed";
  _ ← Seq_end throttle;
  _ ← MPI_Barrier;
  _ ← remove_files "simul_lseek" shared;
  end_ "cleanup".

(** The loops of simul_read and simul_write, [retry] times at most: what is left to do. *)
Fixpoint transfer (op : Z -> call) (msg : string) (retry : nat) (i : Z) : P Z :=
  if 0 <? i then
    match retry with
    | O => Done i
    | S retry' =>
        fin ← sys (op i);
        if rc fin =? -1 then fail msg else transfer op msg retry' (i - rc fin)
    end
  else Done i.

(** After the loop retry is zero and i positive just when something is left. *)
Definition transfer_all (op : Z -> call) (count : Z) (msg exceeded : string) : P unit :=
  i ← transfer op msg 100 count;
  if 0 <? i then fail exceeded else Done tt.

Definition simul_read (shared : bool) : P unit :=
  _ ← begin "setup";
  filename ← create_files "simul_read" 1024 shared;
  _ ← MPI_Barrier;
  _ ← Seq_begin throttle;
  fd ← sys (Open filename);
  _ ← checked fd "init open failed";
  _ ← Seq_end throttle;
  _ ← end_ "setup";
  _ ← begin "test";
  _ ← transfer_all (Read (rc fd)) 1024 "read failed" "read exceeded retry count";
  _ ← end_ "test";
  _ ← begin "cleanup";
  _ ← Seq_begin throttle;
  r ← sys (Close (rc fd));
  _ ← checked r "cleanup close failed";
  _ ← Seq_end throttle;
  _ ← MPI_Barrier;
  _ ← remove_files "simul_read" shared;
  end_ "cleanup".

Definition simul_write (shared : bool) : P unit :=
  _ ← begin "setup";
  filename ← create_files "simul_write" (Z.of_nat (size e) * 4) shared;
  _ ← MPI_Barrier;
  _ ← Seq_begin throttle;
  fd ← sys (Open filename);
  _ ← checked fd "init open failed";
  r ← sys (Lseek (rc fd) (Z.of_nat (rank e) * 4));
  _ ← checked r "init lseek failed";
  _ ← Seq_end throttle;
  _ ← end_ "setup";
  _ ← begin "test";
  _ ← transfer_all (Write (rc fd)) 4 "write failed" "write exceeded retry count";
  _ ← end_ "test";
  _ ← begin "cleanup";
  _ ← Seq_begin throttle;
  r ← sys (Close (rc fd));
  _ ← checked r "cleanup close failed";
  _ ← Seq_end throttle;
  _ ← MPI_Barrier;
  _ ← remove_files "simul_write" shared;
  end_ "cleanup".

(** The loop of process 0 that clears names before a test. *)
Definition clear_names (prefix : string) (shared : bool) : P unit :=
  if (rank e =? 0)%nat then
    for_each (files shared) (fun i => buf ← sprintf MAX_FILENAME_LEN (path prefix i); remove_file_or_dir buf)
  else Done tt.

Definition simul_mkdir (shared : bool) : P unit :=
  _ ← begin "setup";
  dirname ← sprintf MAX_FILENAME_LEN (path "simul_mkdir" (own shared));
  _ ← clear_names "simul_mkdir" shared;
  _ ← end_ "setup";
  _ ← begin "test";
  r ← sys (Mkdir dirname);
  _ ← (if shared then check_single_success "simul_mkdir" (rc r) (-1)
       else _ ← checked r "mkdir failed"; MPI_Barrier);
  _ ← end_ "test";
  _ ← begin "cleanup";
  _ ← remove_dirs "simul_mkdir" shared;
  end_ "cleanup".

Definition simul_rmdir (shared : bool) : P unit :=
  _ ← begin "setup";
  dirname ← create_dirs "simul_rmdir" shared;
  _ ← MPI_Barrier;
  _ ← end_ "setup";
  _ ← begin "test";
  r ← sys (Rmdir dirname);
  _ ← (if shared then check_single_success "simul_rmdir" (rc r) (-1)
       else _ ← checked r "rmdir failed"; MPI_Barrier);
  _ ← end_ "test";
  _ ← begin "cleanup";
  end_ "cleanup".

Definition simul_creat (shared : bool) : P unit :=
  _ ← begin "setup";
  filename ← sprintf 1024 (path "simul_creat" (own shared));
  _ ← clear_names "simul_creat" shared;
  _ ← end_ "setup";
  _ ← begin "test";
  fd ← sys (Creat filename);
  _ ← checked fd "creat failed";
  _ ← end_ "test";
  _ ← begin "cleanup";
  _ ← Seq_begin throttle;
  r ← sys (Close (rc fd));
  _ ← checked r "close failed";
  _ ← Seq_end throttle;
  _ ← MPI_Barrier;
  _ ← remove_files "simul_creat" shared;
  end_ "cleanup".

Definition simul_unlink (shared : bool) : P unit :=
  _ ← begin "setup";
  filename ← create_files "simul_unlink" 0 shared;
  _ ← end_ "setup";
  _ ← begin "test";
  r ← sys (Unlink filename);
  _ ← (if shared then check_single_success "simul_unlink" (rc r) (-1) else checked r "unlink failed");
  _ ← end_ "test";
  _ ← begin "cleanup";
  end_ "cleanup".

Definition simul_rename (shared : bool) : P unit :=
  _ ← begin "setup";
  oldfilename ← create_files "simul_rename" 0 shared;
  newfilename ← sprintf 1024 (path "simul_rename_new" (rank e));
  _ ← clear_names "simul_rename_new" shared;
  _ ← end_ "setup";
  _ ← begin "test";
  r ← sys (Rename oldfilename newfilename);
  _ ← (if shared then check_single_success "simul_rename" (rc r) (-1) else checked r "stat failed");
  _ ← end_ "test";
  _ ← begin "cleanup";
  _ ← (if rc r =? 0 then u ← sys (Unlink newfilename); checked u "unlink failed" else Done tt);
  end_ "cleanup".

Definition simul_truncate (shared : bool) : P unit :=
  _ ← begin "setup";
  filename ← create_files "simul_truncate" 2048 shared;
  _ ← end_ "setup";
  _ ← begin "test";
  r ← sys (Truncate filename 1024);
  _ ← checked r "truncate failed";
  _ ← end_ "test";
  _ ← begin "cleanup";
  _ ← remove_files "simul_truncate" shared;
  end_ "cleanup".

Definition simul_readlink (shared : bool) : P unit :=
  _ ← begin "setup";
  linkname ← create_symlinks "simul_readlink" shared;
  _ ← end_ "setup";
  _ ← begin "test";
  r ← sys (Readlink linkname);
  _ ← checked r "readlink failed";
  _ ← end_ "test";
  _ ← begin "cleanup";
  _ ← remove_files "simul_readlink" shared;
  end_ "cleanup".

Definition simul_symlink (shared : bool) : P unit :=
  _ ← begin "setup";
  linkname ← sprintf MAX_FILENAME_LEN (path "simul_symlink" (own shared));
  _ ← clear_names "simul_symlink" shared;
  filename ← sprintf MAX_FILENAME_LEN (symlink_target "simul_symlink_target");
  _ ← end_ "setup";
  _ ← begin "test";
  r ← sys (Symlink filename linkname);
  _ ← (if shared then check_single_success "simul_symlink" (rc r) (-1) else checked r "symlink failed");
  _ ← end_ "test";
  _ ← begin "cleanup";
  _ ← remove_files "simul_symlink" shared;
  end_ "cleanup".

Definition simul_link_to_one (shared : bool) : P unit :=
  _ ← begin "setup";
  linkname ← sprintf 1024 (path "simul_link" (own shared));
  _ ← clear_names "simul_link" shared;
  filename ← create_files "simul_link_target" 0 true;
  _ ← end_ "setup";
  _ ← begin "test";
  r ← sys (Link filename linkname);
  _ ← (if shared then check_single_success "simul_link_to_one" (rc r) (-1) else checked r "link failed");
  _ ← end_ "test";
  _ ← begin "cleanup";
  _ ← remove_files "simul_link_target" true;
  _ ← remove_files "simul_link" shared;
  end_ "cleanup".

Definition simul_link_to_many (shared : bool) : P unit :=
  if shared then
    if (0 <? verbose e) && (rank e =? 0)%nat then say "This is just a place holder; no test is run here." else Done tt
  else
  _ ← begin "setup";
  filename ← create_files "simul_link" 0 shared;
  linkname ← sprintf 1024 (path "simul_link_target" (rank e));
  _ ← clear_names "simul_link_target" false;
  _ ← end_ "setup";
  _ ← begin "test";
  r ← sys (Link filename linkname);
  _ ← checked r "link failed";
  _ ← end_ "test";
  _ ← begin "cleanup";
  _ ← remove_files "simul_link" shared;
  _ ← remove_files "simul_link_target" false;
  end_ "cleanup".

Definition testlist : list (string * (bool -> P unit)) :=
  [("open", simul_open); ("close", simul_close); ("file stat", simul_file_stat); ("lseek", simul_lseek); ("read", simul_read);
   ("write", simul_write); ("chdir", simul_chdir); ("directory stat", simul_dir_stat); ("statfs", simul_statfs);
   ("readdir", simul_readdir); ("mkdir", simul_mkdir); ("rmdir", simul_rmdir); ("unlink", simul_unlink); ("rename", simul_rename);
   ("creat", simul_creat); ("truncate", simul_truncate); ("symlink", simul_symlink); ("readlink", simul_readlink);
   ("link to one file", simul_link_to_one); ("link to a file per process", simul_link_to_many)]%list.

End Tests.

(** The length of the list, which main counts. *)
Definition testcnt : Z := 20.

(** ** The lists of tests *)

(** The array ends with -1. *)
Fixpoint find_int (item : Z) (l : list Z) : outcome bool :=
  match l with
  | [] => Crash OutOfBounds
  | x :: l' => if x =? -1 then Ret false else if x =? item then Ret true else find_int item l'
  end.

Definition int_in_list (item : Z) (l : option (list Z)) : outcome bool :=
  match l with None => Ret false | Some l => find_int item l end.

Fixpoint commas (s : string) : nat :=
  match s with EmptyString => 0 | String c s' => (if decide (c = ","%char) then 1 else 0) + commas s' end%nat.

(** What strtok(string, ", ") returns one after the other; [cur] is the token begun. *)
Definition separator (c : ascii) : bool := bool_decide (c = ","%char) || bool_decide (c = " "%char).
Fixpoint tokens (s cur : string) : list string :=
  match s with
  | EmptyString => if decide (cur = "") then [] else [cur]
  | String c s' =>
      if separator c then (if decide (cur = "") then tokens s' "" else cur :: tokens s' "")
      else tokens s' (String.append cur (String c ""))
  end%list.

Definition string_split (s : string) : P (list Z) :=
  let excl_cnt := S (commas s) in
  m ← sys Malloc;
  if rc m =? 0 then fail "malloc failed" else
  let toks := take excl_cnt (tokens s "") in
  if (length toks <? excl_cnt)%nat then fail "strtok failed"
  else Done ((Startup.atoi <$> toks) ++ [-1])%list.

(** ** main *)

Record options : Type := mkOptions {
  o_testdir : option string;
  first : Z;
  last : Z;
  excl_list : option (list Z);
  incl_list : option (list Z);
  iterations : Z;
  set_iterations : Z;
  singlestep : bool;
  o_verbose : Z
}.

(** The lines of the help. *)
Definition tab : string := String (ascii_of_nat 9) "".
Definition quoted (s : string) : string := String (ascii_of_nat 34) "" +:+ s +:+ String (ascii_of_nat 34) "".
Definition help_usage : list string :=
  ["simul-1.14";
   "Usage: simul [-h] -d <testdir> [-f firsttest] [-l lasttest]";
   "             [-n #] [-N #] [-i " +:+ quoted "4,7,13" +:+ "] [-e " +:+ quoted "6,22" +:+ "] [-s]";
   "             [-v] [-V #]";
   tab +:+ "-h: prints this help message";
   tab +:+ "-d: the directory in which the tests will run";
   tab +:+ "-f: the number of the first test to run (default: 0)";
   tab +:+ "-l: the number of the last test to run (default: " +:+ ThreadTest.print_int (testcnt * 2 - 1) +:+ ")";
   tab +:+ "-i: comma-sperated list of tests to include";
   tab +:+ "-e: comma-sperated list of tests to exclude";
   tab +:+ "-s: single-step through every iteration of every test";
   tab +:+ "-n: repeat each test # times";
   tab +:+ "-N: repeat the entire set of tests # times";
   tab +:+ "-v: increases the verbositly level by 1";
   tab +:+ "-V: select a specific verbosity level";
   "";
   "The available tests are:"]%list.

(** The name of a test and its mode; the names do not depend on the process. *)
Definition test_name (test : Z) : string :=
  match testlist (mkEnv 0 0 None 0) !! Z.to_nat (Z.rem test testcnt) with Some (s, _) => s | None => "" end
  +:+ ", " +:+ (if test <? testcnt then "shared" else "individual") +:+ " mode.".
Definition help_tests : list string :=
  (fun i => tab +:+ "Test #" +:+ ThreadTest.print_int (Z.of_nat i) +:+ ": " +:+ test_name (Z.of_nat i)) <$> seq 0 (Z.to_nat (testcnt * 2)).

(** The caller ends the process. *)
Definition print_help (r : nat) : P unit := if (r =? 0)%nat then for_each (help_usage ++ help_tests)%list say else Done tt.

(** An option that getopt returned; [None] when the program prints its help and exits. *)
Definition parse_option (r : nat) (c : ascii) (optarg : string) (o : options) : P (option options) :=
  let '(mkOptions d f l ex inc it set single v) := o in
  if decide (c = "d"%char) then Done (Some (mkOptions (Some optarg) f l ex inc it set single v))
  else if decide (c = "e"%char) then x ← string_split optarg; Done (Some (mkOptions d f l (Some x) inc it set single v))
  else if decide (c = "f"%char) then
    if l <=? Startup.atoi optarg then _ ← say "Invalid parameter, firsttest must be <= lasttest"; abort 2
    else Done (Some (mkOptions d (Startup.atoi optarg) l ex inc it set single v))
  else if decide (c = "h"%char) then _ ← print_help r; Done None
  else if decide (c = "i"%char) then x ← string_split optarg; Done (Some (mkOptions d f l ex (Some x) it set single v))
  else if decide (c = "l"%char) then
    match c_int (Startup.atoi optarg + 1) with
    | Crash x => Stop (Faulty x)
    | Ret l => if l <=? f then _ ← say "Invalid parameter, lasttest must be >= firsttest"; abort 2
               else Done (Some (mkOptions d f l ex inc it set single v))
    end
  else if decide (c = "n"%char) then Done (Some (mkOptions d f l ex inc (Startup.atoi optarg) set single v))
  else if decide (c = "N"%char) then Done (Some (mkOptions d f l ex inc it (Startup.atoi optarg) single v))
  else if decide (c = "s"%char) then Done (Some (mkOptions d f l ex inc it set true v))
  else if decide (c = "v"%char) then
    match c_int (v + 1) with
    | Crash x => Stop (Faulty x)
    | Ret v => Done (Some (mkOptions d f l ex inc it set single v))
    end
  else if decide (c = "V"%char) then Done (Some (mkOptions d f l ex inc it set single (Startup.atoi optarg)))
  else Done (Some o).

Fixpoint parse_options (r : nat) (args : list (ascii * string)) (o : options) : P (option options) :=
  match args with
  | [] => Done (Some o)
  | (c, optarg) :: args' =>
      x ← parse_option r c optarg o;
      match x with None => Done None | Some o => parse_options r args' o end
  end%list.

Definition default_options : options := mkOptions None 0 (testcnt * 2) None None 1 1 false 0.

(** The tests first .. last - 1, and -1. *)
Definition range (first last : Z) : list Z := (((fun i => Z.of_nat i + first) <$> seq 0 (Z.to_nat (last - first))) ++ [-1])%list.

(** One iteration of a test. *)
Definition run_test (e : env) (single : bool) (test : Z) : P unit :=
  _ ← (if single then
         _ ← (if (rank e =? 0)%nat then say "Hit <Enter> to run test" else Done tt);
         _ ← sys Fgets; Done tt
       else Done tt);
  _ ← (if (rank e =? 0)%nat then say "Running test" else Done tt);
  let i := Z.rem test testcnt in
  if i <? 0 then Stop (Faulty OutOfBounds) else
  match testlist e !! Z.to_nat i with
  | None => Stop (Faulty OutOfBounds)
  | Some (_, f) => _ ← f (test <? testcnt); MPI_Barrier
  end.

(** The loop over the list of tests, up to -1. *)
Fixpoint run_list (e : env) (o : options) (l : list Z) : P unit :=
  match l with
  | [] => Stop (Faulty OutOfBounds)
  | test :: l' =>
      if test =? -1 then Done tt else
      match int_in_list test (excl_list o) with
      | Crash x => Stop (Faulty x)
      | Ret true => run_list e o l'
      | Ret false =>
          _ ← for_each (seq 0 (Z.to_nat (iterations o))) (fun _ => run_test e (singlestep o) test);
          run_list e o l'
      end
  end%list.

(** The part of main after the options. *)
Definition run_tests (r n : nat) (o : options) : P unit :=
  let e := mkEnv r n (o_testdir o) (o_verbose o) in
  _ ← (match o_testdir o with
       | None => if (r =? 0)%nat then _ ← say "Please specify a test directory!"; abort 2 else Done tt
       | Some _ => Done tt
       end);
  h ← sys Gethostname;
  if rc h =? -1 then abort 2 else
  l ← (match incl_list o with
       | Some l => Done l
       | None => m ← sys Malloc; if rc m =? 0 then Stop (Faulty NullDeref) else Done (range (first o) (last o))
       end);
  _ ← for_each (seq 0 (Z.to_nat (set_iterations o))) (fun _ =>
        _ ← (if (r =? 0)%nat && (1 <? set_iterations o) then say "Set iteration" else Done tt);
        run_list e o l);
  if (r =? 0)%nat then say "All tests passed!" else Done tt.

(** Process [r] of [n]: the arguments, and the options that getopt finds in them. *)
Definition main (n : nat) (argv : list string) (args : list (ascii * string)) (r : nat) : P unit :=
  if existsb (fun a => bool_decide (a = "-h") || bool_decide (a = "--help")) (tail argv) then print_help 0 else
  _ ← (if (r =? 0)%nat then say "Simul is running" else Done tt);
  o ← parse_options r args default_options;
  match o with None => Done tt | Some o => run_tests r n o end.

End Simul.

(** ** The synchronisations of the tests *)

Section Phases.
Import Mpi Simul.

(** The phases that follow each barrier of a test, by its number. *)
Definition phases_of (test : nat) (shared : bool) : list phase :=
  match test with
  | 0 | 14 => [Plain; Throttled; Plain; Plain]
  | 1 => [Throttled; Plain; Plain; Plain]
  | 3 | 4 | 5 | 9 => [Throttled; Plain; Throttled; Plain; Plain]
  | 6 => [Plain; Plain; Plain; Plain]
  | 10 => if shared then [Gathered; Plain; Plain] else [Plain; Plain; Plain; Plain]
  | 11 => if shared then [Plain; Gathered; Plain; Plain] else [Plain; Plain; Plain; Plain; Plain]
  | 12 | 13 | 16 | 18 => if shared then [Gathered; Plain; Plain] else [Plain; Plain; Plain]
  | 19 => if shared then [] else [Plain; Plain; Plain]
  | _ => [Plain; Plain; Plain]
  end%nat%list.

Context (n : nat).
Local Abbreviation moves := (@moves call answer n throttle).

Lemma moves_sys i cur rest c : moves i cur rest (sys c) cur rest.
Proof. constructor. intros r. constructor. Qed.

Lemma moves_say i cur rest s : moves i cur rest (say s) cur rest.
Proof. constructor. intros r. constructor. Qed.

Lemma moves_fail {A} i cur rest msg cur' rest' : moves i cur rest (@fail A msg) cur' rest'.
Proof. constructor. intros r. constructor. Qed.

Lemma moves_sprintf i cur rest room s : moves i cur rest (sprintf room s) cur rest.
Proof. unfold sprintf. destruct (_ <? _)%nat; constructor. Qed.

Lemma moves_for_each {A} i cur rest (l : list A) f : (forall x, moves i cur rest (f x) cur rest) -> moves i cur rest (for_each l f) cur rest.
Proof. intros Hf. induction l as [|x l IH]; cbn [for_each]; [constructor|]. eapply moves_bind; [apply Hf|intros _; exact IH]. Qed.

(** Code without synchronisation. *)
Ltac quiet :=
  repeat first
    [ progress intros
    | progress unfold abort
    | apply moves_sys | apply moves_say | apply moves_fail | apply moves_sprintf | apply m_done | apply m_stop | apply moves_for_each
    | match goal with
      | |- Mpi.moves _ _ _ _ _ (mbind _ _) _ _ => eapply moves_bind
      | |- Mpi.moves _ _ _ _ _ (if ?b then _ else _) _ _ => destruct b
      | |- Mpi.moves _ _ _ _ _ (match ?b with _ => _ end) _ _ => destruct b
      end ].

Section Rank.
Variable e : env.
Hypothesis Hsize : size e = n.
Local Abbreviation i := (rank e).

Lemma moves_begin cur rest s : moves i cur rest (begin e s) cur rest.
Proof. unfold begin. quiet. Qed.

Lemma moves_end ph rest s : moves i [] (ph :: rest) (end_ e s) (ops n throttle i ph) rest.
Proof. unfold end_. eapply moves_bind; [constructor; constructor|]. quiet. Qed.

Lemma moves_MPI_Barrier ph rest : moves i [] (ph :: rest) MPI_Barrier (ops n throttle i ph) rest.
Proof. constructor. constructor. Qed.

(** What is left of a throttled section after its beginning. *)
Definition ending : list op := if (i + throttle <? n)%nat then [OSend] else [].

Lemma moves_Seq_begin rest : moves i (ops n throttle i Throttled) rest (Seq_begin e throttle) ending rest.
Proof.
  unfold Seq_begin, ops. destruct (Nat.leb_spec throttle (rank e)); [|constructor]. constructor; [lia|constructor].
Qed.

Lemma moves_Seq_end rest : moves i ending rest (Seq_end e throttle) [] rest.
Proof. unfold Seq_end, ending. rewrite Hsize. destruct (_ <? _)%nat; [|constructor]. constructor; [done|constructor]. Qed.

Lemma moves_remove_file_or_dir cur rest name : moves i cur rest (remove_file_or_dir name) cur rest.
Proof. unfold remove_file_or_dir. quiet. Qed.

Ltac quiet_files := quiet; repeat (first [apply moves_remove_file_or_dir | progress quiet]).

Lemma moves_create_files cur rest prefix filesize shared : moves i cur rest (create_files e prefix filesize shared) cur rest.
Proof. unfold create_files, create_file. quiet_files. Qed.

Lemma moves_remove_files cur rest prefix shared : moves i cur rest (remove_files e prefix shared) cur rest.
Proof. unfold remove_files. quiet_files. Qed.

Lemma moves_create_dirs cur rest prefix shared : moves i cur rest (create_dirs e prefix shared) cur rest.
Proof. unfold create_dirs. quiet_files. Qed.

Lemma moves_remove_dirs cur rest prefix shared : moves i cur rest (remove_dirs e prefix shared) cur rest.
Proof. unfold remove_dirs. quiet_files. Qed.

Lemma moves_create_symlinks cur rest prefix shared : moves i cur rest (create_symlinks e prefix shared) cur rest.
Proof. unfold create_symlinks. quiet_files. Qed.

Lemma moves_clear_names cur rest prefix shared : moves i cur rest (clear_names e prefix shared) cur rest.
Proof. unfold clear_names. quiet_files. Qed.

Lemma moves_checked cur rest r msg : moves i cur rest (checked r msg) cur rest.
Proof. unfold checked. quiet. Qed.

Lemma moves_transfer_all cur rest op count msg exceeded : moves i cur rest (transfer_all op count msg exceeded) cur rest.
Proof.
  unfold transfer_all. eapply moves_bind; [|quiet]. generalize 100%nat as retry. intros retry. revert count.
  induction retry as [|retry IH]; intros count; cbn [transfer]; destruct (0 <? count); quiet. apply IH.
Qed.

Lemma moves_check rest name v error_rc : moves i (ops n throttle i Gathered) rest (check_single_success e name v error_rc) [] rest.
Proof.
  unfold check_single_success, MPI_Gather, ops. destruct (decide (rank e = 0%nat)) as [E|E].
  - rewrite E, Nat.eqb_refl. eapply moves_bind; [quiet|]. intros _. eapply moves_bind; [constructor; intros l; constructor|]. quiet.
  - rewrite (proj2 (Nat.eqb_neq _ _) E). eapply moves_bind; [constructor|]. intros _. eapply moves_bind; [constructor; constructor|]. quiet.
Qed.

(** The code of a test, one call after the other. *)
Ltac walk :=
  repeat (intros; change (ops n throttle (rank e) Plain) with (@nil op);
    match goal with
    | |- Mpi.moves _ _ _ _ _ ?p _ _ =>
        lazymatch p with
        | mbind _ _ => eapply moves_bind
        | begin _ _ => apply moves_begin
        | end_ _ _ => apply moves_end
        | MPI_Barrier => apply moves_MPI_Barrier
        | Seq_begin _ _ => apply moves_Seq_begin
        | Seq_end _ _ => apply moves_Seq_end
        | create_files _ _ _ _ => apply moves_create_files
        | remove_files _ _ _ => apply moves_remove_files
        | create_dirs _ _ _ => apply moves_create_dirs
        | remove_dirs _ _ _ => apply moves_remove_dirs
        | create_symlinks _ _ _ => apply moves_create_symlinks
        | clear_names _ _ _ => apply moves_clear_names
        | checked _ _ => apply moves_checked
        | transfer_all _ _ _ _ => apply moves_transfer_all
        | check_single_success _ _ _ _ => apply moves_check
        | sys _ => apply moves_sys
        | say _ => apply moves_say
        | fail _ => apply moves_fail
        | sprintf _ _ => apply moves_sprintf
        | Done _ => apply m_done
        | (if ?b then _ else _) => destruct b
        end
    end).

Lemma moves_test k f name shared rest : testlist e !! k = Some (name, f) -> moves i [] (phases_of k shared ++ rest)%list (f shared) [] rest.
Proof.
  intros Hk. do 20 (destruct k as [|k]; [injection Hk as <- <-; destruct shared; cbn [phases_of app];
    unfold simul_open, simul_close, simul_file_stat, simul_lseek, simul_read, simul_write, simul_chdir, simul_dir_stat, simul_statfs,
      simul_readdir, simul_mkdir, simul_rmdir, simul_unlink, simul_rename, simul_creat, simul_truncate, simul_symlink, simul_readlink,
      simul_link_to_one, simul_link_to_many; solve [walk]|]). done.
Qed.

(** ** The synchronisations of main *)

Definition test_phases (test : Z) : list phase := (phases_of (Z.to_nat (Z.rem test testcnt)) (test <? testcnt) ++ [Plain])%list.

Lemma moves_run_test single test rest : moves i [] (test_phases test ++ rest)%list (run_test e single test) [] rest.
Proof.
  unfold run_test, test_phases. eapply moves_bind; [quiet|intros _]. eapply moves_bind; [quiet|intros _].
  destruct (Z.rem test testcnt <? 0); [apply m_stop|]. destruct (testlist e !! Z.to_nat (Z.rem test testcnt)) as [[name f]|] eqn:Ef; [|apply m_stop].
  rewrite <- app_assoc. eapply moves_bind; [by eapply moves_test|intros _]. apply moves_MPI_Barrier.
Qed.

Lemma moves_repeat {A} (l : list A) f ps rest : (forall x rest, moves i [] (ps ++ rest)%list (f x) [] rest) ->
  moves i [] (concat (replicate (length l) ps) ++ rest)%list (for_each l f) [] rest.
Proof.
  intros Hf. revert rest. induction l as [|x l IH]; intros rest; cbn [for_each length replicate concat]; [constructor|].
  rewrite <- app_assoc. eapply moves_bind; [apply Hf|intros _; apply IH].
Qed.

Fixpoint list_phases (o : options) (l : list Z) : list phase :=
  match l with
  | [] => []
  | test :: l' =>
      if test =? -1 then [] else
      match int_in_list test (excl_list o) with
      | Crash _ => []
      | Ret true => list_phases o l'
      | Ret false => concat (replicate (Z.to_nat (iterations o)) (test_phases test)) ++ list_phases o l'
      end
  end%list.

Lemma moves_run_list o l rest : moves i [] (list_phases o l ++ rest)%list (run_list e o l) [] rest.
Proof.
  induction l as [|test l IH]; cbn [run_list list_phases]; [apply m_stop|]. destruct (test =? -1); [constructor|].
  destruct (int_in_list test (excl_list o)) as [[]|]; [exact IH| |apply m_stop]. rewrite <- app_assoc. eapply moves_bind; [|intros _; exact IH].
  assert (H := moves_repeat (seq 0 (Z.to_nat (iterations o))) (fun _ => run_test e (singlestep o) test) (test_phases test)
    (list_phases o l ++ rest)%list). rewrite length_seq in H. apply H. intros _ rest'. apply moves_run_test.
Qed.

End Rank.

(** The included tests. *)
Definition included (o : options) : list Z := default (range (first o) (last o)) (incl_list o).

(** What string_split answers, if it does. *)
Definition split_list (s : string) : option (list Z) :=
  let toks := take (S (commas s)) (tokens s "") in
  if (length toks <? S (commas s))%nat then None else Some ((Startup.atoi <$> toks) ++ [-1])%list.

(** What parse_option answers, if it does. *)
Definition read_option (c : ascii) (optarg : string) (o : options) : option (option options) :=
  let '(mkOptions d f l ex inc it set single v) := o in
  if decide (c = "d"%char) then Some (Some (mkOptions (Some optarg) f l ex inc it set single v))
  else if decide (c = "e"%char) then x ← split_list optarg; Some (Some (mkOptions d f l (Some x) inc it set single v))
  else if decide (c = "f"%char) then
    if l <=? Startup.atoi optarg then None else Some (Some (mkOptions d (Startup.atoi optarg) l ex inc it set single v))
  else if decide (c = "h"%char) then Some None
  else if decide (c = "i"%char) then x ← split_list optarg; Some (Some (mkOptions d f l ex (Some x) it set single v))
  else if decide (c = "l"%char) then
    match c_int (Startup.atoi optarg + 1) with
    | Crash _ => None
    | Ret l => if l <=? f then None else Some (Some (mkOptions d f l ex inc it set single v))
    end
  else if decide (c = "n"%char) then Some (Some (mkOptions d f l ex inc (Startup.atoi optarg) set single v))
  else if decide (c = "N"%char) then Some (Some (mkOptions d f l ex inc it (Startup.atoi optarg) single v))
  else if decide (c = "s"%char) then Some (Some (mkOptions d f l ex inc it set true v))
  else if decide (c = "v"%char) then
    match c_int (v + 1) with Crash _ => None | Ret v => Some (Some (mkOptions d f l ex inc it set single v)) end
  else if decide (c = "V"%char) then Some (Some (mkOptions d f l ex inc it set single (Startup.atoi optarg)))
  else Some (Some o).

Fixpoint read_options (args : list (ascii * string)) (o : options) : option (option options) :=
  match args with
  | [] => Some (Some o)
  | (c, optarg) :: args' =>
      match read_option c optarg o with
      | None => None
      | Some None => Some None
      | Some (Some o) => read_options args' o
      end
  end%list.

Lemma returns_string_split s : returns (fun l => split_list s = Some l) (string_split s).
Proof.
  unfold string_split, split_list. apply (returns_bind (fun _ => True)); [done|]. intros m _. destruct (rc m =? 0); [done|].
  by destruct (length (take (S (commas s)) (tokens s "")) <? S (commas s))%nat.
Qed.

Lemma returns_parse_option r c optarg o : returns (fun x => read_option c optarg o = Some x) (parse_option r c optarg o).
Proof.
  unfold parse_option, read_option. destruct o as [d f l ex inc it set single v].
  repeat match goal with |- returns _ (if ?b then _ else _) => destruct b end; try done.
  - eapply returns_bind; [apply returns_string_split|]. cbn. by intros x ->.
  - apply (returns_bind (fun _ => True)); [apply returns_any|done].
  - eapply returns_bind; [apply returns_string_split|]. cbn. by intros x ->.
  - destruct (c_int _); [|done]. destruct (_ <=? _); cbn; auto.
  - destruct (c_int _); done.
Qed.

Lemma returns_parse_options r args o : returns (fun x => read_options args o = Some x) (parse_options r args o).
Proof.
  revert o. induction args as [|[c optarg] args IH]; intros o; cbn [parse_options read_options]; [done|].
  eapply returns_bind; [apply returns_parse_option|]. intros [o'|] ->; [apply IH|done].
Qed.

Lemma moves_parse_options i r args o cur rest : moves i cur rest (parse_options r args o) cur rest.
Proof.
  revert o. induction args as [|[c optarg] args IH]; intros o; cbn [parse_options]; [constructor|].
  eapply moves_bind; [|intros [o'|]; [apply IH|constructor]]. unfold parse_option, string_split, print_help. destruct o. quiet.
Qed.

(** What main goes through, which depends on its arguments only. *)
Definition main_phases (argv : list string) (args : list (ascii * string)) : list phase :=
  if existsb (fun a => bool_decide (a = "-h") || bool_decide (a = "--help")) (tail argv) then []%list else
  match read_options args default_options with
  | Some (Some o) => concat (replicate (Z.to_nat (set_iterations o)) (list_phases o (included o)))
  | _ => []%list
  end.

Lemma moves_main argv args r : moves r [] (main_phases argv args) (main n argv args r) [] [].
Proof.
  unfold main, main_phases. destruct (existsb _ (tail argv)); [unfold print_help; quiet|]. eapply moves_bind; [quiet|intros _].
  eapply moves_bind_returns; [apply moves_parse_options|apply returns_parse_options|]. intros [o|] ->; [|constructor]. unfold run_tests.
  eapply moves_bind; [quiet|intros _]. eapply moves_bind; [quiet|intros h]. destruct (rc h =? -1); [apply m_stop|].
  eapply (moves_bind_returns _ _ (fun l => l = included o)); [quiet| |].
  { unfold included. destruct (incl_list o); [done|]. cbn. intros m. by destruct (rc m =? 0). }
  intros l ->. eapply moves_bind; [|intros _; quiet]. rewrite <- (app_nil_r (concat _)).
  set (e := mkEnv r n (o_testdir o) (o_verbose o)).
  assert (H := moves_repeat e (seq 0 (Z.to_nat (set_iterations o)))
    (fun _ => _ ← (if (r =? 0)%nat && (1 <? set_iterations o) then say "Set iteration" else Done tt); run_list e o (included o))
    (list_phases o (included o)) []). rewrite length_seq in H. apply H. intros _ rest.
  eapply moves_bind; [quiet|intros _]. by apply (moves_run_list e).
Qed.

End Phases.

(** ** Races *)

Section Races.
Import Mpi Simul.
Context {W : Type} (exec : nat -> call -> W -> answer * W) (n : nat) (testdir : option string).

(** The test phase of an exclusive operation on a shared name: every process does [op], rank 0
    checks that one succeeded, and all go to the barrier before [rest]. *)
Variable op : nat -> call.
Variable name : string.
Variable rest : nat -> answer -> P unit.

Definition racer (i : nat) : env := mkEnv i n testdir 0.
Definition race (i : nat) : P unit :=
  r ← sys (op i); _ ← check_single_success (racer i) name (rc r) (-1); Barrier (rest i r).

(** A system that does the operation once: the name is free for it until one process has done
    it, the operations are done one after the other, and allocations succeed. *)
Record exclusive (free : W -> bool) : Prop := mkExclusive {
  op_free : forall i w, free w = true -> rc (exec i (op i) w).1 <> -1 /\ free (exec i (op i) w).2 = false;
  op_taken : forall i w, free w = false -> rc (exec i (op i) w).1 = -1 /\ free (exec i (op i) w).2 = false;
  malloc_ok : forall i w, rc (exec i Malloc w).1 <> 0 /\ free (exec i Malloc w).2 = free w
}.

(** Whether the system is assumed to be such a one. *)
Variables (trusted : Prop) (free : W -> bool).
Hypothesis Htrust : trusted -> exclusive free.

(** Where a process is: before the operation, before the allocation or the giving, before the
    collection, at the barrier. *)
Inductive stage : Type := Before | Checking (r : answer) | Collecting (r : answer) | Past (r : answer).

(** check_single_success from MPI_Gather on. *)
Definition judge (i : nat) (v : Z) : P unit :=
  rc_vec ← MPI_Gather (racer i) v;
  if (i =? 0)%nat then
    if (passes (-1) rc_vec =? 1)%nat && (failures (-1) rc_vec =? n - 1)%nat then Done tt
    else _ ← say (String.append "FAILED in " name); abort 1
  else Done tt.

Definition place (i : nat) (g : stage) : P unit :=
  match g with
  | Before => race i
  | Checking r => _ ← check_single_success (racer i) name (rc r) (-1); Barrier (rest i r)
  | Collecting r => _ ← judge i (rc r); Barrier (rest i r)
  | Past r => Barrier (rest i r)
  end.

Definition conf (w : W) (gs : list stage) (m : gmap (nat * nat) nat) (given : list (list Z)) : config := mkConfig w (imap place gs) m given.

Definition won (g : stage) : Z := match g with Checking r | Collecting r | Past r => if rc r =? -1 then 0 else 1 | Before => 0 end.

(** The results of all processes. *)
Definition result (g : stage) : Z := match g with Past r | Collecting r | Checking r => rc r | Before => 0 end.

Record fair (w : W) (gs : list stage) (given : list (list Z)) : Prop := mkFair {
  f_len : length gs = n;
  f_given_len : length given = n;
  f_won : trusted -> sum_of won gs = if free w then 0 else 1;
  f_before : trusted -> free w = true -> Forall (eq Before) gs;
  f_judged : forall r, gs !! 0%nat = Some (Past r) -> passes (-1) (result <$> gs) = 1%nat;
  f_given : forall i g, (0 < i)%nat -> gs !! i = Some g ->
    given !! i = Some (match g, gs !! 0%nat with Past r, Some (Past _) => [] | Past r, _ => [rc r] | _, _ => [] end)%list;
  f_root : forall r i g, gs !! 0%nat = Some (Past r) -> gs !! i = Some g -> exists r', g = Past r';
  f_collecting : forall i r, gs !! i = Some (Collecting r) -> i = 0%nat
}.

(** A process that ends without reaching the barrier. *)
Inductive doomed : P unit -> Prop :=
| d_stop s : doomed (Stop s)
| d_call x k : (forall r, doomed (k r)) -> doomed (Call x k).

(** Rank 0 has found a failure. *)
Definition given_up (c : @config call answer W) : Prop := exists p, procs c !! 0%nat = Some p /\ doomed p.

Lemma conf_lookup w gs m given i : procs (conf w gs m given) !! i = place i <$> gs !! i.
Proof. cbn. apply list_lookup_imap. Qed.

Lemma imap_insert (gs : list stage) i g : imap place (<[i := g]> gs) = <[i := place i g]> (imap place gs).
Proof.
  apply list_eq. intros j. rewrite list_lookup_imap. destruct (decide (j = i)) as [->|Hne].
  - destruct (decide (i < length gs)%nat).
    + rewrite !list_lookup_insert_eq by (rewrite ?length_imap; done). done.
    + rewrite !list_insert_ge by (rewrite ?length_imap; lia). by rewrite list_lookup_imap.
  - rewrite !list_lookup_insert_ne by done. by rewrite list_lookup_imap.
Qed.

Lemma stages_set (gs : list stage) i g j h : <[i := g]> gs !! j = Some h -> (j = i /\ h = g) \/ (j <> i /\ gs !! j = Some h).
Proof. intros H. apply list_lookup_insert_Some in H as [(-> & -> & _)|[? ?]]; [by left|by right]. Qed.

Definition is_past (g : stage) : bool := match g with Past _ => true | _ => false end.

(** A step that does not reach the barrier. *)
Lemma fair_set w gs given i g g' w' : fair w gs given -> gs !! i = Some g -> is_past g = false -> is_past g' = false ->
  (forall r, g' = Collecting r -> i = 0%nat) ->
  (trusted -> (if free w then 0 else 1) - won g + won g' = (if free w' then 0 else 1)) -> (trusted -> free w' = true -> free w = true /\ g' = Before) ->
  fair w' (<[i := g']> gs) given.
Proof.
  intros [F1 F2 F3 F4 F8 F5 F6 F7] Hi Hg Hg' Hc Hw Hfree. assert (Hroot : forall r, <[i := g']> gs !! 0%nat <> Some (Past r)).
  { intros r H0. destruct (stages_set _ _ _ _ _ H0) as [[_ <-]|[Hne H0']]; [done|]. destruct (F6 r i g H0' Hi) as [r' ->]. done. }
  split; try done.
  - by rewrite length_insert.
  - intros Ht. rewrite (sum_of_insert _ _ _ _ _ Hi), (F3 Ht). by apply Hw.
  - intros Ht Hf. destruct (Hfree Ht Hf) as [Hf' ->]. apply Forall_insert; [by apply F4|done].
  - intros r H0. by destruct (Hroot r).
  - intros j h Hj Hh. assert (H0 : match <[i := g']> gs !! 0%nat with Some (Past _) => true | _ => false end = match gs !! 0%nat with Some (Past _) => true | _ => false end).
    { destruct (decide (i = 0%nat)) as [->|Hne]; [|by rewrite list_lookup_insert_ne]. rewrite list_lookup_insert_eq by (by eapply lookup_lt_Some).
      rewrite Hi. by destruct g, g'. }
    destruct (stages_set _ _ _ _ _ Hh) as [[-> ->]|[Hne Hh']].
    + rewrite (F5 i g Hj Hi). by destruct g, g'.
    + rewrite (F5 j h Hj Hh'). destruct h; try done.
      destruct (gs !! 0%nat) as [[]|], (<[i := g']> gs !! 0%nat) as [[]|]; done.
  - intros r j h H0. by destruct (Hroot r).
  - intros j r Hj. destruct (stages_set _ _ _ _ _ Hj) as [[-> E]|[Hne Hj']]; [by eapply Hc|by eapply F7].
Qed.

Lemma step_op w gs m given i : fair w gs given -> gs !! i = Some Before ->
  exists w' gs', step exec (conf w gs m given) (Run i) = Some (conf w' gs' m given) /\ fair w' gs' given.
Proof.
  intros Hf Hi. destruct (exec i (op i) w) as [r w'] eqn:Ex. exists w', (<[i := Checking r]> gs). split.
  - cbn [step]. rewrite conf_lookup, Hi. cbn [fmap option_fmap option_map place]. unfold race. cbn. rewrite Ex. unfold conf. by rewrite imap_insert.
  - assert (Hop : trusted -> (free w = true -> rc r <> -1 /\ free w' = false) /\ (free w = false -> rc r = -1 /\ free w' = false)).
    { intros Ht. assert (H1 := op_free _ (Htrust Ht) i w). assert (H2 := op_taken _ (Htrust Ht) i w). by rewrite Ex in H1, H2. }
    eapply (fair_set w gs given i Before (Checking r)); try done.
    + intros [H1 H2]%Hop. cbn [won]. destruct (free w); [destruct (H1 eq_refl) as [Hr ->]|destruct (H2 eq_refl) as [Hr ->]]; destruct (Z.eqb_spec (rc r) (-1)); lia || done.
    + intros [H1 H2]%Hop. destruct (free w); [destruct (H1 eq_refl) as [_ ->]|destruct (H2 eq_refl) as [_ ->]]; done.
Qed.

Lemma step_malloc w gs m given r c' : fair w gs given -> gs !! 0%nat = Some (Checking r) -> step exec (conf w gs m given) (Run 0) = Some c' ->
  (exists w' gs', c' = conf w' gs' m given /\ fair w' gs' given) \/ (~ trusted /\ given_up c').
Proof.
  intros Hf Hi Hst. destruct (exec 0%nat Malloc w) as [a w'] eqn:Ex.
  assert (Hm : trusted -> rc a <> 0 /\ free w' = free w) by (intros Ht; assert (H := malloc_ok _ (Htrust Ht) 0 w); by rewrite Ex in H).
  assert (Hlt := lookup_lt_Some _ _ _ Hi). cbn [step] in Hst. rewrite conf_lookup, Hi in Hst. cbn in Hst. rewrite Ex in Hst. destruct (Z.eqb_spec (rc a) 0) as [E0|Ha].
  - right. split; [by intros [? _]%Hm|]. injection Hst as <-. eexists. split; [cbn; apply list_lookup_insert_eq; by rewrite length_imap|].
    cbn. apply d_call. intros x. apply d_stop.
  - left. exists w', (<[0%nat := Collecting r]> gs). split.
    + injection Hst as <-. unfold conf. rewrite imap_insert. done.
    + eapply (fair_set w gs given 0 (Checking r) (Collecting r)); try done.
      * intros [_ ->]%Hm. cbn [won]. lia.
      * intros Ht. destruct (Hm Ht) as [_ ->]. intros Hfr. assert (H := f_before _ _ _ Hf Ht Hfr). by assert (H' := Forall_lookup_1 _ _ _ _ H Hi).
Qed.

Lemma step_giving w gs m given i r : fair w gs given -> (0 < i)%nat -> gs !! i = Some (Checking r) ->
  exists given' gs', step exec (conf w gs m given) (Run i) = Some (conf w gs' m given') /\ fair w gs' given'.
Proof.
  intros [F1 F2 F3 F4 F8 F5 F6 F7] Hi0 Hi. assert (Hg := F5 i _ Hi0 Hi). cbn in Hg.
  exists (<[i := [rc r]%list]> given), (<[i := Past r]> gs). split.
  - cbn [step]. rewrite conf_lookup, Hi. destruct i as [|i]; [lia|]. cbn. rewrite Hg. unfold conf, set_proc, set_given. cbn. rewrite imap_insert. done.
  - assert (Hne0 : forall x, <[i := x]> gs !! 0%nat = gs !! 0%nat) by (intros x; apply list_lookup_insert_ne; lia).
    assert (Hroot : forall q, gs !! 0%nat <> Some (Past q)) by (intros q Hq; destruct (F6 q i _ Hq Hi) as [? ?]; done).
    split; try done.
    + by rewrite length_insert.
    + by rewrite length_insert.
    + intros Ht. rewrite (sum_of_insert _ _ _ _ _ Hi), (F3 Ht). cbn [won]. lia.
    + intros Ht Hfr. assert (H := F4 Ht Hfr). by assert (H' := Forall_lookup_1 _ _ _ _ H Hi).
    + intros q H0. rewrite Hne0 in H0. by destruct (Hroot q).
    + intros j g Hj Hgj. rewrite Hne0. destruct (stages_set _ _ _ _ _ Hgj) as [[-> ->]|[Hne Hgj']].
      * rewrite list_lookup_insert_eq by (rewrite F2, <- F1; by eapply lookup_lt_Some). destruct (gs !! 0%nat) as [[]|] eqn:E; try done. by destruct (Hroot r0).
      * rewrite list_lookup_insert_ne by done. by apply F5.
    + intros q j g H0. rewrite Hne0 in H0. by destruct (Hroot q).
    + intros j q Hj. destruct (stages_set _ _ _ _ _ Hj) as [[-> ?]|[Hne Hj']]; [done|by eapply F7].
Qed.

Lemma passes_won (gs : list stage) : Forall (fun g => g <> Before) gs -> Z.of_nat (passes (-1) (result <$> gs)) = sum_of won gs.
Proof.
  unfold passes. induction 1 as [|g gs Hg Hgs IH]; [done|]. cbn [fmap list_fmap]. rewrite filter_cons. unfold sum_of in *. cbn [foldr].
  assert (E : won g = if decide (result g <> -1) then 1 else 0).
  { destruct g; cbn [won result]; [done|..]; destruct (Z.eqb_spec (rc r) (-1)), (decide (rc r <> -1)); done || lia. }
  destruct (decide (result g <> -1)); cbn [length]; rewrite E; lia.
Qed.

Lemma passes_failures (l : list Z) : (passes (-1) l + failures (-1) l = length l)%nat.
Proof.
  unfold passes, failures. induction l as [|x l IH]; [done|]. rewrite !filter_cons.
  destruct (decide (x <> -1)), (decide (x = -1)); cbn [length]; lia || done.
Qed.

Lemma place_collecting r : exists k, place 0 (Collecting r) = Collect (rc r) k /\
  forall l, length l = n -> if (passes (-1) l =? 1)%nat then k l = Barrier (rest 0 r) else doomed (k l).
Proof.
  eexists. split; [reflexivity|]. intros l Hl. cbn -[passes failures]. assert (Hpf := passes_failures l).
  destruct (Nat.eqb_spec (passes (-1) l) 1) as [E|E]; cbn [andb].
  - rewrite (proj2 (Nat.eqb_eq _ _)) by lia. done.
  - apply d_call. intros x. apply d_stop.
Qed.

Lemma step_judging w gs m given r c' : fair w gs given -> gs !! 0%nat = Some (Collecting r) -> step exec (conf w gs m given) (Run 0) = Some c' ->
  (exists given' gs', c' = conf w gs' m given' /\ fair w gs' given') \/ (~ trusted /\ given_up c').
Proof.
  intros Hf Hi Hst. assert (Hf' := Hf). destruct Hf as [F1 F2 F3 F4 F8 F5 F6 F7]. cbn [step] in Hst. rewrite conf_lookup, Hi in Hst.
  destruct (place_collecting r) as (k & Ek & Hk). cbn [fmap option_fmap option_map] in Hst. rewrite Ek in Hst. change (Mpi.given (conf w gs m given)) with given in Hst.
  destruct (mapM head (drop 1 given)) as [heads|] eqn:Eh; [|done].
  assert (Hpast : forall i g, (0 < i)%nat -> gs !! i = Some g -> exists q, g = Past q /\ given !! i = Some [rc q]%list).
  { intros i g Hi0 Hg. assert (Hgi := F5 i g Hi0 Hg). rewrite Hi in Hgi. destruct g as [| | |q]; [| | |by exists q]; exfalso;
      apply mapM_Some_1 in Eh; (eapply (Forall2_lookup_l _ _ _ (i - 1)) in Eh as (z & _ & Hz); [|rewrite lookup_drop; replace (1 + (i - 1))%nat with i by lia; exact Hgi]); done. }
  assert (Hheads : rc r :: heads = result <$> gs).
  { destruct gs as [|g0 gs]; [done|]. injection Hi as ->. destruct given as [|h0 hs]; [cbn in F2, F1; lia|]. cbn [drop] in Eh. rewrite drop_0 in Eh.
    cbn [fmap list_fmap result]. f_equal. apply mapM_Some_1 in Eh. apply list_eq. intros j. rewrite list_lookup_fmap.
    destruct (gs !! j) as [g|] eqn:Ej; cbn.
    - destruct (Hpast (S j) g ltac:(lia) Ej) as (q & -> & Hq). eapply Forall2_lookup_l in Eh as (z & Hz & Hz'); [|exact Hq]. cbn in Hz'. injection Hz' as <-. done.
    - apply lookup_ge_None. apply lookup_ge_None in Ej. assert (L := list.Forall2_length _ _ _ Eh). cbn in F1, F2. lia. }
  assert (Hnb : Forall (fun g => g <> Before) gs).
  { apply list.Forall_forall. intros g Hg. apply list_elem_of_lookup in Hg as [[|i] Hg]; [rewrite Hi in Hg; by injection Hg as <-|].
    destruct (Hpast (S i) g ltac:(lia) Hg) as (q & -> & _). done. }
  assert (Hfree : trusted -> free w = false).
  { intros Ht. destruct (free w) eqn:E; [|done]. assert (H := F4 Ht eq_refl). by assert (H' := Forall_lookup_1 _ _ _ _ H Hi). }
  assert (Hlen : length (rc r :: heads) = n) by (by rewrite Hheads, length_fmap).
  assert (Hlt := lookup_lt_Some _ _ _ Hi). specialize (Hk _ Hlen). cbn [mbind option_bind] in Hst. injection Hst as <-.
  destruct (Nat.eqb_spec (passes (-1) (rc r :: heads)) 1) as [Hp|Hp]; [left|right; split].
  2: { intros Ht. apply Hp. rewrite Hheads. assert (H := passes_won gs Hnb). rewrite (F3 Ht), (Hfree Ht) in H. lia. }
  2: { eexists. split; [cbn; apply list_lookup_insert_eq; by rewrite length_imap|exact Hk]. }
  rewrite Hk. eexists _, (<[0%nat := Past r]> gs). split; [unfold conf, set_proc, set_given; cbn; by rewrite imap_insert|]. split.
  - by rewrite length_insert.
  - rewrite length_app, length_take, length_fmap, length_drop. lia.
  - intros Ht. rewrite (sum_of_insert _ _ _ _ _ Hi), (F3 Ht). cbn [won]. lia.
  - intros Ht. by rewrite (Hfree Ht).
  - intros q _. rewrite list_fmap_insert. cbn [result]. rewrite <- Hheads. destruct gs; done.
  - intros i g Hi0 Hg. rewrite list_lookup_insert_ne in Hg by lia. destruct (Hpast i g Hi0 Hg) as (q & -> & Hgi).
    rewrite list_lookup_insert_eq by done. rewrite lookup_app_r by (rewrite length_take; lia). rewrite length_take, list_lookup_fmap, lookup_drop.
    replace (1 + (i - 1 `min` length given))%nat with i by lia. by rewrite Hgi.
  - intros q i g _ Hg. destruct (stages_set _ _ _ _ _ Hg) as [[-> ->]|[Hne Hg']]; [by eexists|]. destruct (Hpast i g ltac:(lia) Hg') as (q' & -> & _). by eexists.
  - intros i q Hg. destruct (stages_set _ _ _ _ _ Hg) as [[-> ?]|[Hne Hg']]; [done|]. by apply (F7 i q).
Qed.

Lemma fair_step w gs m given i c' : fair w gs given -> step exec (conf w gs m given) (Run i) = Some c' ->
  (exists w' gs' given', c' = conf w' gs' m given' /\ fair w' gs' given') \/ (~ trusted /\ given_up c').
Proof.
  intros Hf Hst. destruct (gs !! i) as [g|] eqn:Hi; [|cbn [step] in Hst; by rewrite conf_lookup, Hi in Hst]. destruct g as [|r|r|r].
  - destruct (step_op w gs m given i Hf Hi) as (w' & gs' & E & Hf'). rewrite E in Hst. injection Hst as <-. left. by exists w', gs', given.
  - destruct i as [|i].
    + destruct (step_malloc w gs m given r c' Hf Hi Hst) as [(w' & gs' & -> & Hf')|H]; [left; by exists w', gs', given|by right].
    + destruct (step_giving w gs m given (S i) r Hf ltac:(lia) Hi) as (given' & gs' & E & Hf'). rewrite E in Hst. injection Hst as <-. left. by exists w, gs', given'.
  - assert (i = 0%nat) as -> by by eapply f_collecting. destruct (step_judging w gs m given r c' Hf Hi Hst) as [(given' & gs' & -> & Hf')|H]; [left; by exists w, gs', given'|by right].
  - cbn [step] in Hst. by rewrite conf_lookup, Hi in Hst.
Qed.

(** A process that has given up stays so. *)
Lemma given_up_step c i c' : given_up c -> step exec c (Run i) = Some c' -> given_up c'.
Proof.
  intros (p & Hp & Hd) Hst. cbn [step] in Hst. destruct (decide (i = 0%nat)) as [->|Hne].
  - rewrite Hp in Hst. destruct Hd as [s|x k Hk]; [done|]. destruct (exec 0%nat x (world c)) as [r w'].
    injection Hst as <-. exists (k r). split; [|done]. cbn. apply list_lookup_insert_eq. by eapply lookup_lt_Some.
  - assert (H0 : procs c' !! 0%nat = procs c !! 0%nat); [|exists p; by rewrite H0].
    destruct (procs c !! i) as [[]|]; try done; repeat (first [case_match|progress cbn in Hst]; try done); simplify_option_eq; cbn; by rewrite list_lookup_insert_ne.
Qed.

Lemma fair_launch w : (trusted -> free w = true) -> launch n race w = conf w (replicate n Before) ∅ (replicate n []%list) /\ fair w (replicate n Before) (replicate n []%list).
Proof.
  intros Hw. split.
  - unfold launch, conf. f_equal. apply list_eq. intros i. rewrite list_lookup_fmap, list_lookup_imap. destruct (decide (i < n)%nat) as [Hi|Hi].
    + by rewrite lookup_seq_lt, lookup_replicate_2 by lia.
    + by rewrite lookup_seq_ge, (lookup_ge_None_2 (replicate n Before)) by (rewrite ?length_replicate; lia).
  - split; try (by rewrite length_replicate).
    + intros Ht. rewrite (Hw Ht). rewrite (sum_of_all _ _ 0); [lia|]. by apply Forall_replicate.
    + intros _ _. by apply Forall_replicate.
    + by intros r [? _]%lookup_replicate.
    + intros i g _ [-> Hi]%lookup_replicate. by rewrite lookup_replicate_2.
    + by intros r i g [? _]%lookup_replicate.
    + by intros i r [? _]%lookup_replicate.
Qed.

Lemma race_fair es : forall c, (exists w gs m given, c = conf w gs m given /\ fair w gs given) \/ (~ trusted /\ given_up c) ->
  forall c', Forall (fun e => e <> Sync) es -> run exec c es = Some c' ->
  (exists w gs m given, c' = conf w gs m given /\ fair w gs given) \/ (~ trusted /\ given_up c').
Proof.
  induction es as [|e es IH]; intros c Hc c' Hes Hr; [by injection Hr as <-|].
  apply Forall_cons_1 in Hes as [He Hes]. cbn [run] in Hr. destruct (step exec c e) as [c1|] eqn:E; [|done]. destruct e as [i|]; [|done].
  apply (IH c1); [|done|done]. destruct Hc as [(w & gs & m & given & -> & Hf)|[Ht Hg]]; [|right; split; [done|by eapply given_up_step]].
  destruct (fair_step w gs m given i c1 Hf E) as [(w1 & gs1 & given1 & -> & Hf1)|H]; [left; by exists w1, gs1, m, given1|by right].
Qed.

(** All processes are at the barrier only after the check. *)
Lemma fair_sync w gs m given c' : (0 < n)%nat -> fair w gs given -> step exec (conf w gs m given) Sync = Some c' ->
  exists answers, procs c' = imap rest answers /\ length answers = n /\ passes (-1) (rc <$> answers) = 1%nat.
Proof.
  intros Hn Hf Hs. cbn [step] in Hs. destruct (mapM after_barrier (imap place gs)) as [l|] eqn:El; [|by cbn in Hs; rewrite El in Hs].
  cbn in Hs. rewrite El in Hs. injection Hs as <-. cbn [procs].
  assert (Hall : forall i g, gs !! i = Some g -> exists r, g = Past r /\ l !! i = Some (rest i r)).
  { intros i g Hg. apply mapM_Some_1 in El. eapply (Forall2_lookup_l _ _ _ i) in El as (q & Hq & Hq'); [|by rewrite list_lookup_imap, Hg].
    destruct g as [|r|r|r]; try done; [destruct i; done| |exists r; by injection Hq' as <-].
    assert (i = 0%nat) as -> by by eapply f_collecting. done. }
  pose (answer_of := fun g => match g with Past r => r | _ => mkAnswer 0 Other "" end).
  assert (Hlen : length l = length gs) by (apply mapM_Some_1, list.Forall2_length in El; rewrite <- El; by rewrite length_imap).
  exists (answer_of <$> gs). split_and!.
  - apply list_eq. intros i. rewrite list_lookup_imap, list_lookup_fmap. destruct (gs !! i) as [g|] eqn:Hg.
    + destruct (Hall i g Hg) as (r & -> & ->). done.
    + apply lookup_ge_None in Hg. by rewrite lookup_ge_None_2 by lia.
  - rewrite length_fmap. apply (f_len _ _ _ Hf).
  - assert (Hres : rc <$> (answer_of <$> gs) = result <$> gs).
    { rewrite <- list_fmap_compose. apply list_fmap_ext. intros i g Hg. destruct (Hall i g Hg) as (r & -> & _). done. }
    rewrite Hres. destruct (gs !! 0%nat) as [g|] eqn:Hg; [|apply lookup_ge_None in Hg; rewrite (f_len _ _ _ Hf) in Hg; lia].
    destruct (Hall 0%nat g Hg) as (r & -> & _). by eapply f_judged.
Qed.

Lemma fair_runs w gs m given i s : fair w gs given -> procs (conf w gs m given) !! i <> Some (Stop s).
Proof.
  intros Hf Hi. rewrite conf_lookup in Hi. destruct (gs !! i) as [g|] eqn:Hg; [|done]. injection Hi as Hi. destruct g as [|r|r|r]; try done.
  - destruct i; done.
  - assert (i = 0%nat) as -> by by eapply f_collecting. done.
Qed.

(** A schedule from the start of the race. *)
Lemma race_reached es w c : (trusted -> free w = true) -> Forall (fun e => e <> Sync) es -> run exec (launch n race w) es = Some c ->
  (exists w gs m given, c = conf w gs m given /\ fair w gs given) \/ (~ trusted /\ given_up c).
Proof.
  intros Hw Hes Hr. destruct (fair_launch w Hw) as [E Hf]. rewrite E in Hr. eapply race_fair; [|done|done]. left. by eexists _, _, _, _.
Qed.

Lemma given_up_stays c c' : given_up c -> step exec c Sync <> Some c'.
Proof.
  intros (p & Hp & Hd) Hs. cbn [step] in Hs. destruct (mapM after_barrier (procs c)) as [l|] eqn:El; [|by cbn in Hs].
  apply mapM_Some_1 in El. eapply (Forall2_lookup_l _ _ _ 0%nat) in El as (q & _ & Hq); [|exact Hp]. by destruct Hd.
Qed.

End Races.

Section RaceProperties.
Import Mpi Simul.

(** C32 The test of an exclusive operation on a shared name (mkdir, rmdir, unlink, rename,
    symlink and link of simul.c) finds out whether the system does the operation once: for
    every number of processes, every order in which they run and whatever the system
    answers, the processes pass the barrier after check_single_success only if the operation
    has succeeded for exactly one of them; and no process is stopped if the system does the
    operation for the first that asks, refuses it to all others, and has memory for the
    results. *)
Theorem exclusive_race {W} (exec : nat -> call -> W -> answer * W) n testdir op name rest es w c :
  (0 < n)%nat -> Forall (fun e => e <> Sync) es -> run exec (launch n (race n testdir op name rest) w) es = Some c ->
  (forall c', step exec c Sync = Some c' ->
     exists answers, procs c' = imap rest answers /\ length answers = n /\ passes (-1) (rc <$> answers) = 1%nat) /\
  (forall free, exclusive exec op free -> free w = true -> forall i s, procs c !! i <> Some (Stop s)).
Proof.
  intros Hn Hes Hr. split.
  - intros c' Hs. destruct (race_reached exec n testdir op name rest False (fun _ => true) ltac:(done) es w c ltac:(done) Hes Hr)
      as [(w' & gs & m & given & -> & Hf)|[_ Hg]]; [by eapply fair_sync|by destruct (given_up_stays exec c c' Hg)].
  - intros free Hx Hw i s. destruct (race_reached exec n testdir op name rest True free ltac:(done) es w c ltac:(done) Hes Hr)
      as [(w' & gs & m & given & -> & Hf)|[Ht _]]; [by eapply fair_runs|done].
Qed.

End RaceProperties.

(** ** The exclusive tests are races *)

Section Exclusive.
Import Mpi Simul.
Context (n i : nat) (dir : option string).
Local Abbreviation e := (racer n dir i).

(** After its setup and a barrier each exclusive test, in shared mode, is a race on the name
    of rank 0. *)
Lemma mkdir_races : simul_mkdir e true =
  (dirname ← sprintf MAX_FILENAME_LEN (path e "simul_mkdir" 0);
   _ ← clear_names e "simul_mkdir" true;
   Barrier (race n dir (fun _ => Mkdir dirname) "simul_mkdir"
     (fun i _ => _ ← remove_dirs (racer n dir i) "simul_mkdir" true; end_ (racer n dir i) "cleanup") i)).
Proof. reflexivity. Qed.

Lemma rmdir_races : simul_rmdir e true =
  (dirname ← create_dirs e "simul_rmdir" true;
   _ ← MPI_Barrier;
   Barrier (race n dir (fun _ => Rmdir dirname) "simul_rmdir" (fun i _ => end_ (racer n dir i) "cleanup") i)).
Proof. reflexivity. Qed.

Lemma unlink_races : simul_unlink e true =
  (filename ← create_files e "simul_unlink" 0 true;
   Barrier (race n dir (fun _ => Unlink filename) "simul_unlink" (fun i _ => end_ (racer n dir i) "cleanup") i)).
Proof. reflexivity. Qed.

Lemma symlink_races : simul_symlink e true =
  (linkname ← sprintf MAX_FILENAME_LEN (path e "simul_symlink" 0);
   _ ← clear_names e "simul_symlink" true;
   filename ← sprintf MAX_FILENAME_LEN (symlink_target e "simul_symlink_target");
   Barrier (race n dir (fun _ => Symlink filename linkname) "simul_symlink"
     (fun i _ => _ ← remove_files (racer n dir i) "simul_symlink" true; end_ (racer n dir i) "cleanup") i)).
Proof. reflexivity. Qed.

Lemma link_races : simul_link_to_one e true =
  (linkname ← sprintf 1024 (path e "simul_link" 0);
   _ ← clear_names e "simul_link" true;
   filename ← create_files e "simul_link_target" 0 true;
   Barrier (race n dir (fun _ => Link filename linkname) "simul_link_to_one"
     (fun i _ => _ ← remove_files (racer n dir i) "simul_link_target" true;
                 _ ← remove_files (racer n dir i) "simul_link" true; end_ (racer n dir i) "cleanup") i)).
Proof. reflexivity. Qed.

(** Each process renames to a name of its own. *)
Lemma rename_races : simul_rename e true =
  (oldfilename ← create_files e "simul_rename" 0 true;
   newfilename ← sprintf 1024 (path e "simul_rename_new" i);
   _ ← clear_names e "simul_rename_new" true;
   Barrier (race n dir (fun _ => Rename oldfilename newfilename) "simul_rename"
     (fun i r => _ ← (if rc r =? 0 then u ← sys (Unlink newfilename); checked u "unlink failed" else Done tt); end_ (racer n dir i) "cleanup") i)).
Proof. reflexivity. Qed.

End Exclusive.

(** ** The whole program *)

Section Program.
Import Mpi Simul.

(** C31 Whatever the file system answers and in whatever order they run, the processes of simul
    never wait for each other for ever: from every state they reach, every schedule ends, and
    where it ends all processes have left main or one of them has stopped all. *)
Theorem simul_never_deadlocks {W} (exec : nat -> call -> W -> answer * W) n argv args w es c : (0 < n)%nat ->
  run exec (launch n (main n argv args) w) es = Some c ->
  Acc (fun c' c => exists e, step exec c e = Some c') c /\
  ((forall e, step exec c e = None) -> (forall i p, procs c !! i = Some p -> p = Done tt) \/ exists i s, procs c !! i = Some (Stop s)).
Proof.
  intros Hn Hr. assert (Hin : in_step n throttle c).
  { apply (run_in_step exec n throttle ltac:(unfold throttle; lia) es (launch n (main n argv args) w)); [done| |done].
    apply (launch_in_step n throttle _ (main_phases argv args)). intros i _. apply moves_main. }
  split.
  - apply schedules_end. destruct Hin as (ph & rest & cur & Hs). assert (L := s_len _ _ _ _ _ _ Hs). intros E. rewrite E in L. cbn in L. lia.
  - intros Hno. destruct (mpi_progress exec n throttle ltac:(unfold throttle; lia) c Hin) as [H|[H|(e & c' & H)]]; [by right|by left|].
    by rewrite Hno in H.
Qed.

(** A system where everything succeeds, and the first exclusive test of two processes. *)
Definition easy (i : nat) (c : call) (w : unit) : answer * unit := (mkAnswer 5 Other "", w).

Lemma simul_never_deadlocks_witness : exists c, run easy (launch 2 (main 2 ["simul"] [("d"%char, "/t"); ("i"%char, "0")]) tt) [Run 0; Run 0; Run 0; Run 1; Run 1] = Some c /\
  Acc (fun c' c => exists e, step easy c e = Some c') c.
Proof.
  destruct (run easy (launch 2 (main 2 ["simul"] [("d"%char, "/t"); ("i"%char, "0")]) tt) [Run 0; Run 0; Run 0; Run 1; Run 1]) as [c|] eqn:E.
  - exists c. split; [reflexivity|].
    exact (proj1 (simul_never_deadlocks easy 2 ["simul"] [("d"%char, "/t"); ("i"%char, "0")] tt [Run 0; Run 0; Run 0; Run 1; Run 1] c ltac:(lia) E)).
  - exfalso. vm_compute in E. discriminate E.
Defined.

(** Three processes that make one directory, in the order 2, 0, 1. *)
Definition one_dir (i : nat) (c : call) (w : bool) : answer * bool :=
  match c with
  | Mkdir _ => if w then (mkAnswer (-1) Other "", w) else (mkAnswer 0 Other "", true)
  | _ => (mkAnswer 5 Other "", w)
  end.

Definition race_order : list event := [Run 2; Run 0; Run 1; Run 0; Run 2; Run 1; Run 0]%list.

Lemma exclusive_race_witness : exists c, run one_dir (launch 3 (race 3 (Some "/t") (fun _ => Mkdir "/t/d.0") "simul_mkdir" (fun _ _ => Done tt)) false) race_order = Some c /\
  (forall i s, procs c !! i <> Some (Stop s)) /\ step one_dir c Sync <> None.
Proof.
  destruct (run one_dir (launch 3 (race 3 (Some "/t") (fun _ => Mkdir "/t/d.0") "simul_mkdir" (fun _ _ => Done tt)) false) race_order) as [c|] eqn:E.
  - exists c. split; [reflexivity|]. split.
    + destruct (exclusive_race one_dir 3 (Some "/t") (fun _ => Mkdir "/t/d.0") "simul_mkdir" (fun _ _ => Done tt) race_order false c) as [_ H];
        [lia|unfold race_order; repeat constructor; discriminate|exact E|]. apply (H negb); [|reflexivity]. split; intros i []; cbn; done.
    + vm_compute in E. injection E as <-. vm_compute. discriminate.
  - exfalso. vm_compute in E. discriminate E.
Defined.

(** A system in which the operation succeeds for two processes is found out. *)
Lemma two_winners_stopped : exists c, run easy (launch 2 (race 2 (Some "/t") (fun _ => Mkdir "/t/d.0") "simul_mkdir" (fun _ _ => Done tt)) tt)
    [Run 1; Run 1; Run 0; Run 0; Run 0; Run 0] = Some c /\ procs c !! 0%nat = Some (Stop (Aborted 1)).
Proof. eexists. split; [vm_compute; reflexivity|reflexivity]. Qed.

End Program.

(** ** The lists of tests *)

Section Lists.
Import PartName Simul.

Fixpoint plain_word (s : string) : bool := match s with EmptyString => true | String c s' => negb (separator c) && plain_word s' end.

Lemma tokens_word w t cur : plain_word w = true -> tokens (String.append w t) cur = tokens t (String.append cur w).
Proof.
  revert cur. induction w as [|c w IH]; intros cur Hw; [by rewrite sapp_nil_r|]. cbn in Hw. apply andb_true_iff in Hw as [Hc Hw].
  change (String.append (String c w) t) with (String c (String.append w t)). cbn [tokens]. apply negb_true_iff in Hc.
  rewrite Hc, IH by done. by rewrite sapp_assoc.
Qed.

Lemma commas_word w t : plain_word w = true -> commas (String.append w t) = commas t.
Proof.
  induction w as [|c w IH]; [done|]. change (String.append (String c w) t) with (String c (String.append w t)).
  cbn [plain_word commas]. intros [Hc Hw]%andb_true_iff. rewrite IH by done.
  destruct (decide (c = ","%char)) as [->|]; [done|lia].
Qed.

Lemma join_tokens w (ws : list string) : plain_word w = true -> w <> "" -> Forall (fun w => plain_word w = true /\ w <> "") ws ->
  tokens (String.concat "," (w :: ws)) "" = (w :: ws)%list /\ commas (String.concat "," (w :: ws)) = length ws.
Proof.
  intros Hw Hne Hws. revert w Hw Hne. induction Hws as [|v ws [Hv Hv'] Hws IH]; intros w Hw Hne.
  - cbn [String.concat]. rewrite <- (sapp_nil_r w) at 1 3. rewrite tokens_word, commas_word by done. cbn. by rewrite decide_False.
  - destruct (IH v Hv Hv') as [E1 E2].
    change (String.concat "," (w :: v :: ws)) with (String.append w (String.append "," (String.concat "," (v :: ws)))).
    rewrite tokens_word, commas_word by done. change (String.append "," ?t) with (String ","%char t). cbn [tokens commas].
    change (separator ","%char) with true. cbv iota. rewrite decide_False, E1, E2 by done. done.
Qed.

Lemma digits_read l acc : Forall is_dec l -> Startup.digits (string_of_digits l) acc = digits_value acc l.
Proof.
  intros Hl. revert acc. induction Hl as [|d l Hd _ IH]; intros acc; [done|]. cbn [string_of_digits Startup.digits].
  assert (E := digit_char_code d Hd). unfold char_code in E. change (Z.of_N (N_of_ascii (digit_char d))) with (byte_of_ascii (digit_char d)) in E.
  rewrite E. unfold is_dec in Hd. replace (48 + d - 48) with d by lia.
  rewrite (proj2 (Z.leb_le 0 d)), (proj2 (Z.leb_le d 9)) by lia. cbn [andb]. rewrite IH. done.
Qed.

Lemma atoi_print i : 0 <= i < 2 ^ 31 -> Startup.atoi (ThreadTest.print_int i) = i.
Proof.
  intros Hi. unfold ThreadTest.print_int. destruct (Z.ltb_spec i 0); [lia|]. destruct (dec_digits_ok 10 i) as (H1 & H2 & H3); [cbn; lia|lia|].
  destruct (dec_digits 10 i) as [|d l]; [done|]. assert (Hd := Forall_inv H1). cbn [string_of_digits Startup.atoi].
  assert (E := digit_char_code d Hd). change (char_code (digit_char d)) with (byte_of_ascii (digit_char d)) in E. rewrite E. unfold is_dec in Hd.
  assert (N1 : (48 + d =? 32) = false) by (apply Z.eqb_neq; lia). assert (N2 : (48 + d <=? 13) = false) by (apply Z.leb_gt; lia).
  assert (N3 : (48 + d =? 45) = false) by (apply Z.eqb_neq; lia). assert (N4 : (48 + d =? 43) = false) by (apply Z.eqb_neq; lia).
  rewrite N1, N2, N3, N4, andb_false_r. cbv iota.
  change (String (digit_char d) (string_of_digits l)) with (string_of_digits (d :: l)%list). rewrite digits_read by done.
  rewrite H3, Z.min_r, i32_small by lia. done.
Qed.

Lemma print_plain i : 0 <= i < 2 ^ 31 -> plain_word (ThreadTest.print_int i) = true /\ ThreadTest.print_int i <> "".
Proof.
  intros Hi. unfold ThreadTest.print_int. destruct (Z.ltb_spec i 0); [lia|]. destruct (dec_digits_ok 10 i) as (H1 & H2 & H3); [cbn; lia|lia|].
  split; [|by destruct (dec_digits 10 i)]. clear H2 H3. induction H1 as [|d l Hd _ IH]; [done|]. cbn [string_of_digits plain_word]. rewrite IH, andb_true_r.
  apply negb_true_iff. unfold separator. apply orb_false_iff. assert (E := digit_char_code d Hd). unfold is_dec in Hd.
  split; apply bool_decide_eq_false_2; intros Hc; rewrite Hc in E;
    [change (char_code ","%char) with 44 in E|change (char_code " "%char) with 32 in E]; lia.
Qed.

Lemma find_int_spec x l : Forall (fun y => y <> -1) l -> find_int x (l ++ [-1])%list = Ret (bool_decide (x ∈ l)).
Proof.
  induction 1 as [|y l Hy Hl IH]; [by rewrite bool_decide_eq_false_2 by apply not_elem_of_nil|]. cbn [app find_int].
  destruct (Z.eqb_spec y (-1)); [done|]. destruct (Z.eqb_spec y x) as [->|Hne].
  - rewrite bool_decide_eq_true_2; [done|by left].
  - rewrite IH. f_equal. apply bool_decide_ext. rewrite list.elem_of_cons. naive_solver.
Qed.

(** The options -i and -e: the numbers of a list that is printed with commas are read back,
    and int_in_list finds just these. *)
Lemma test_list_roundtrip i (l : list Z) : Forall (fun x => 0 <= x < 2 ^ 31) (i :: l)%list ->
  split_list (String.concat "," (ThreadTest.print_int <$> (i :: l)%list)) = Some ((i :: l) ++ [-1])%list /\
  forall x, int_in_list x (Some ((i :: l) ++ [-1])%list) = Ret (bool_decide (x ∈ (i :: l)%list)).
Proof.
  intros Hl. split.
  - unfold split_list. apply Forall_cons_1 in Hl as [Hi Hl]. destruct (print_plain i Hi) as [Hp Hne].
    destruct (join_tokens (ThreadTest.print_int i) (ThreadTest.print_int <$> l) Hp Hne) as [E1 E2].
    { apply Forall_fmap. eapply Forall_impl; [|exact Hl]. intros x Hx. by apply print_plain. }
    change (ThreadTest.print_int <$> (i :: l)%list) with (ThreadTest.print_int i :: (ThreadTest.print_int <$> l))%list.
    rewrite E1, E2. rewrite take_ge by done. rewrite (proj2 (Nat.ltb_ge _ _)) by done. do 2 f_equal.
    assert (Hl' : Forall (fun x => 0 <= x < 2 ^ 31) (i :: l)%list) by by constructor.
    change (Startup.atoi <$> (ThreadTest.print_int <$> (i :: l)) = i :: l)%list. apply list_eq. intros k. rewrite !list_lookup_fmap.
    destruct ((i :: l)%list !! k) as [x|] eqn:Ex; [|done]. cbn. f_equal. apply atoi_print. by apply (Forall_lookup_1 _ _ _ _ Hl' Ex).
  - intros x. apply find_int_spec. eapply Forall_impl; [|exact Hl]. intros y Hy. cbn in Hy. lia.
Qed.

End Lists.

(** ** Corners *)

Section Corners.
Import Mpi Simul.

(** stat follows links: a stale symbolic link to nothing is left where it is, and the symlink
    that follows fails. *)
Lemma stale_link_stays name k t : exists f, remove_file_or_dir name = Call (Stat name) f /\ f (mkAnswer (-1) k t) = Done tt.
Proof. eexists. by split. Qed.

(** A negative number of a test, from -i or -f, indexes before the list. *)
Lemma negative_test_outside r n dir v : (0 < r)%nat -> run_test (mkEnv r n dir v) false (-3) = Stop (Faulty OutOfBounds).
Proof. destruct r; [lia|reflexivity]. Qed.

(** The names are formatted without a bound. *)
Lemma long_testdir_overruns r n v : (0 < r)%nat -> create_files (mkEnv r n (Some (String.concat "" (replicate 512 "x"))) v) "simul_open" 0 true = Stop (Faulty OutOfBounds).
Proof. destruct r; [lia|]. intros _. vm_compute. reflexivity. Qed.

(** After a short write the loop of simul_write begins again with the first bytes of the rank:
    each call gets the number of bytes that are left, and no position in them. *)
Lemma short_write_repeats fd : exists f, transfer (Write fd) "write failed" 100 4 = Call (Write fd 4) f /\
  exists g, f (mkAnswer 1 Other "") = Call (Write fd 3) g.
Proof. eexists. split; [reflexivity|]. by eexists. Qed.

End Corners.
