(* ===== verification/Mdtest.v ===== *)
(** * The metadata benchmark: util/mdtest.c

    Every process of an MPI run makes, looks at and removes files and directories in a tree of
    directories, and rank 0 reports the rates.  [Mdtest] translates the program, function by
    function, to processes of Groups.v, for every rank.  The system is what answers the calls;
    doubles are a class of operations; the int and the string globals are two stores indexed by
    the names of the variables.  MdtestTree.v has the theorems on the numbering of the tree and
    MdtestRuns.v those on the runs of many processes. *)

From Stdlib Require Import Ascii.
From S2P Require Import Prelude Names Startup ThreadTest Mpi Groups.

#[local] Open Scope string_scope.
#[local] Open Scope Z_scope.

Module Mdtest.
Import Mpi(stop, Aborted, Faulty).
Import Groups.

(** ** Data *)

(** What the program does with doubles.  [to_int] has no value where the conversion is
    undefined. *)
Class Double (D : Type) : Type := mkDouble {
  of_int : Z -> D;
  to_int : D -> option Z;
  dadd : D -> D -> D;
  dsub : D -> D -> D;
  dmul : D -> D -> D;
  ddiv : D -> D -> D;
  dpow : D -> D -> D;
  dsqrt : D -> D;
  dlt : D -> D -> bool
}.

(** The int globals. *)
Inductive var : Type :=
| barriers | create_only | stat_only | remove_only | leaf_only | branch_factor | depth | num_dirs_in_tree | items_per_dir
| random_seed | shared_file | files_only | dirs_only | pre_delay | unique_dir_per_task | time_unique_dir_overhead | verbose
| items | collective_creates | write_bytes | sync_file | path_count | nstride.

#[export] Instance var_eq_dec : EqDecision var.
Proof. solve_decision. Defined.

(** The string globals. *)
Inductive str : Type :=
| testdir | testdirpath | top_dir | base_tree_name | mk_name | stat_name | rm_name
| unique_mk_dir | unique_chdir_dir | unique_stat_dir | unique_rm_dir | unique_rm_uni_dir.

#[export] Instance str_eq_dec : EqDecision str.
Proof. solve_decision. Defined.

Definition MAX_LEN : nat := 1024.
Definition TEST_DIR : string := "#test-dir".
Definition ITEM_COUNT : Z := 25000.
Definition tableSize : Z := 8.

Section Program.
Context {D : Type} `{Double D}.

Inductive call : Type :=
| Mkdir (p : string)
| Rmdir (p : string)
| Creat (p : string)
| Open (p : string) (create : bool)
| Write (fd n : Z)
| Fsync (fd : Z)
| Close (fd : Z)
| Unlink (p : string)
| Stat (p : string)
| Chdir (p : string)
| Getcwd
| Gethostname
| Statfs (p : string)
| Realpath (p : string)
| Malloc (n : Z)
| Time
| Wtime
| Sleep (n : Z)
| Srand (seed : Z)
| Rand
| Say (s : string)
| Rate (what : string) (secs rate : D)
| Row (what : string) (max min mean sd : D).

(** The value returned, the text stored and the clock read.  A null pointer is zero. *)
Record answer : Type := mkAnswer { rc : Z; text : string; clock : D }.

(** What processes show each other: nothing, a number, a host name or the table of rates, with
    the entries that were never set. *)
Inductive value : Type := Nothing | Number (z : Z) | Text (s : string) | Table (l : list (list (option D))).

Abbreviation P := (proc call answer value).

Record globals : Type := mkGlobals {
  ints : var -> Z;
  texts : str -> string;
  filenames : list string;
  rand_array : list Z;
  summary_table : list (list (option D));
  testcomm : nat
}.

Definition set (x : var) (v : Z) (g : globals) : globals :=
  mkGlobals (fun y => if decide (y = x) then v else ints g y) (texts g) (filenames g) (rand_array g) (summary_table g) (testcomm g).
Definition write (x : str) (v : string) (g : globals) : globals :=
  mkGlobals (ints g) (fun y => if decide (y = x) then v else texts g y) (filenames g) (rand_array g) (summary_table g) (testcomm g).
Definition set_filenames (l : list string) (g : globals) : globals :=
  mkGlobals (ints g) (texts g) l (rand_array g) (summary_table g) (testcomm g).
Definition set_rand (l : list Z) (g : globals) : globals :=
  mkGlobals (ints g) (texts g) (filenames g) l (summary_table g) (testcomm g).
Definition set_table (l : list (list (option D))) (g : globals) : globals :=
  mkGlobals (ints g) (texts g) (filenames g) (rand_array g) l (testcomm g).
Definition set_testcomm (m : nat) (g : globals) : globals :=
  mkGlobals (ints g) (texts g) (filenames g) (rand_array g) (summary_table g) m.

Definition on (g : globals) (x : var) : bool := negb (ints g x =? 0).

Definition initial : globals :=
  mkGlobals (fun x => match x with barriers | branch_factor => 1 | _ => 0 end) (fun _ => "") [] [] [] 0.

(** ** Steps *)

Definition sys (c : call) : P answer := Call c Done.
Definition say (s : string) : P unit := _ ← sys (Say s); Done tt.
Definition fail {A} (msg : string) : P A := _ ← sys (Say msg); Stop (Aborted 1).

Definition lift {A} (m : outcome A) : P A := match m with Ret a => Done a | Crash x => Stop (Faulty x) end.
Definition int (x : Z) : P Z := lift (c_int x).
Definition trunc (d : D) : P Z := match to_int d with Some z => Done z | None => Stop (Faulty ArithUB) end.

(** sprintf, strcpy or strcat to one of the buffers. *)
Definition fmt (s : string) : P string := if (String.length s <? MAX_LEN)%nat then Done s else Stop (Faulty OutOfBounds).
Definition store (x : str) (s : string) (g : globals) : P globals := s ← fmt s; Done (write x s g).

Fixpoint for_each {A} (l : list A) (f : A -> P unit) : P unit :=
  match l with [] => Done tt | x :: l' => _ ← f x; for_each l' f end%list.
Fixpoint thread {A S} (l : list A) (f : A -> S -> P S) (s : S) : P S :=
  match l with [] => Done s | x :: l' => s ← f x s; thread l' f s end%list.

(** 0 .. n - 1 *)
Definition upto (n : Z) : list Z := seqZ 0 n.

Definition print_int : Z -> string := ThreadTest.print_int.

Variable rank size : nat.
Definition root : bool := (rank =? 0)%nat.
Definition rankZ : Z := Z.of_nat rank.

Definition MPI_Barrier (m : nat) : P unit := Meet m Nothing (fun _ => Done tt).
Definition MPI_Bcast (v : Z) : P Z := Meet size (Number v) (fun l => match l with (Number x :: _)%list => Done x | _ => Done v end).

Fixpoint hear_all (n : nat) (localhost : string) (count : Z) : P Z :=
  match n with
  | O => Done count
  | S n' => Hear (fun v =>
      hear_all n' localhost (match v with Text h => if decide (h = localhost) then count + 1 else count | _ => count end))
  end.

Definition count_tasks_per_node : P Z :=
  h ← sys Gethostname;
  if negb (rc h =? 0) then fail "gethostname()" else
  count ← (if root then hear_all (size - 1) (text h) 1 else Tell (Text (text h)) (Done 1));
  MPI_Bcast count.

Definition delay_secs (g : globals) (delay : Z) : P unit :=
  _ ← (if root && (0 <? delay) then
         _ ← (if 1 <=? ints g verbose then say "delaying" else Done tt);
         _ ← sys (Sleep delay); Done tt
       else Done tt);
  MPI_Barrier (testcomm g).

Definition timer (t : list D) (i : nat) : D := default (of_int 0) (t !! i).

Definition offset_timers (t : list D) (tcount : nat) : P (list D) :=
  w ← sys Wtime;
  let toffset := dsub (clock w) (timer t tcount) in
  Done (imap (fun i x => if (i <? tcount + 1)%nat then dadd x toffset else x) t).

(** The words between '@' and line ends, as strtok finds them. *)
Definition newline : ascii := ascii_of_nat 10.
Fixpoint words (s cur : string) : list string :=
  match s with
  | EmptyString => if decide (cur = "") then [] else [cur]
  | String c s' =>
      if bool_decide (c = "@"%char) || bool_decide (c = newline) then
        if decide (cur = "") then words s' "" else cur :: words s' ""
      else words s' (cur +:+ String c "")
  end%list.

Definition parse_dirpath (dirpath_arg : string) (g : globals) : P globals :=
  let pc := ints g path_count + (if decide (dirpath_arg = "") then 0 else 1) + Z.of_nat (CString.count "@"%char dirpath_arg) in
  m ← sys (Malloc (pc * 8));
  if rc m =? 0 then fail "out of memory" else
  let l := words dirpath_arg "" in
  if pc <? Z.of_nat (length l) then Stop (Faulty OutOfBounds) else
  Done (set_filenames l (set path_count pc g)).

Inductive access : Type := MK_UNI_DIR | STAT_SUB_DIR | RM_SUB_DIR | RM_UNI_DIR.

Definition chdir_or (p msg : string) : P unit := r ← sys (Chdir p); if rc r =? -1 then fail msg else Done tt.

Definition unique_dir_access (g : globals) (opt : access) : P unit :=
  match opt with
  | MK_UNI_DIR => _ ← MPI_Barrier (testcomm g); chdir_or (texts g unique_chdir_dir) "Unable to chdir to unique test directory"
  | STAT_SUB_DIR => chdir_or (texts g unique_stat_dir) "Unable to chdir to test directory"
  | RM_SUB_DIR => chdir_or (texts g unique_rm_dir) "Unable to chdir to test directory"
  | RM_UNI_DIR => chdir_or (texts g unique_rm_uni_dir) "Unable to chdir to test directory"
  end.

(** ** Items *)

(** Messages of the first process from some verbosity on. *)
Definition tell (g : globals) (level : Z) (s : string) : P unit :=
  if root && (level <=? ints g verbose) then say s else Done tt.
Definition tell_count (g : globals) (s : string) (n : Z) : P unit :=
  if root && (3 <=? ints g verbose) && (Z.rem n ITEM_COUNT =? 0) && negb (n =? 0) then say s else Done tt.

(** "%sdir.%s%d" and "%sfile.%s%d" *)
Definition item_path (dirs : bool) (path name : string) (n : Z) : string :=
  path +:+ (if dirs then "dir." else "file.") +:+ name +:+ print_int n.

(** One item of create_remove_items_helper. *)
Definition one_item (g : globals) (dirs create : bool) (path : string) (n : Z) : P unit :=
  if dirs then
    if create then
      _ ← tell_count g "create dir" n;
      curr_item ← fmt (item_path true path (texts g mk_name) n);
      _ ← tell g 2 "create dir";
      r ← sys (Mkdir curr_item);
      if rc r =? -1 then fail "unable to create directory" else Done tt
    else
      _ ← tell_count g "remove dir" n;
      curr_item ← fmt (item_path true path (texts g rm_name) n);
      _ ← tell g 2 "remove dir";
      r ← sys (Rmdir curr_item);
      if rc r =? -1 then fail "unable to remove directory" else Done tt
  else
    if create then
      _ ← tell_count g "create file" n;
      curr_item ← fmt (item_path false path (texts g mk_name) n);
      _ ← tell g 2 "create file";
      fd ← (if on g collective_creates then
              r ← sys (Open curr_item false);
              if rc r =? -1 then fail "unable to open file" else Done (rc r)
            else if on g shared_file then
              r ← sys (Open curr_item true);
              if rc r =? -1 then fail "unable to create file" else Done (rc r)
            else
              r ← sys (Creat curr_item);
              if rc r =? -1 then fail "unable to create file" else Done (rc r));
      _ ← (if 0 <? ints g write_bytes then
             r ← sys (Write fd (ints g write_bytes));
             if rc r =? ints g write_bytes then Done tt else fail "unable to write file"
           else Done tt);
      _ ← (if on g sync_file then
             r ← sys (Fsync fd);
             if rc r =? -1 then fail "unable to sync file" else Done tt
           else Done tt);
      r ← sys (Close fd);
      if rc r =? -1 then fail "unable to close file" else Done tt
    else
      _ ← tell_count g "remove file" n;
      curr_item ← fmt (item_path false path (texts g rm_name) n);
      _ ← tell g 2 "remove file";
      if negb (on g shared_file && negb root) then
        r ← sys (Unlink curr_item);
        if rc r =? -1 then fail "unable to unlink file" else Done tt
      else Done tt.

Definition create_remove_items_helper (g : globals) (dirs create : bool) (path : string) (itemNum : Z) : P unit :=
  for_each (upto (ints g items_per_dir)) (fun i => n ← int (itemNum + i); one_item g dirs create path n).

(** One item of collective_helper. *)
Definition one_collective (g : globals) (dirs create : bool) (path : string) (n : Z) : P unit :=
  if dirs then
    if create then
      curr_item ← fmt (item_path true path (texts g mk_name) n);
      _ ← tell g 2 "create dir";
      r ← sys (Mkdir curr_item);
      if rc r =? -1 then fail "unable to create directory" else Done tt
    else
      curr_item ← fmt (item_path true path (texts g rm_name) n);
      _ ← tell g 2 "remove dir";
      r ← sys (Rmdir curr_item);
      if rc r =? -1 then fail "unable to remove directory" else Done tt
  else
    if create then
      curr_item ← fmt (item_path false path (texts g mk_name) n);
      _ ← tell g 2 "create file";
      r ← sys (Creat curr_item);
      if rc r =? -1 then fail "unable to create file" else
      r ← sys (Close (rc r));
      if rc r =? -1 then fail "unable to close file" else Done tt
    else
      curr_item ← fmt (item_path false path (texts g rm_name) n);
      _ ← tell g 2 "remove file";
      if negb (on g shared_file && negb root) then
        r ← sys (Unlink curr_item);
        if rc r =? -1 then fail "unable to unlink file" else Done tt
      else Done tt.

Definition collective_helper (g : globals) (dirs create : bool) (path : string) (itemNum : Z) : P unit :=
  for_each (upto (ints g items_per_dir)) (fun i => n ← int (itemNum + i); one_collective g dirs create path n).

Definition helper (g : globals) (dirs create collective : bool) (path : string) (itemNum : Z) : P unit :=
  if collective then collective_helper g dirs create path itemNum else create_remove_items_helper g dirs create path itemNum.

(** "%s.%d/" *)
Definition branch (g : globals) (d : Z) : string := texts g base_tree_name +:+ "." +:+ print_int d +:+ "/".

(** The recursion goes one level down with each call: depth + 2 calls are enough. *)
Fixpoint create_remove_items (fuel : nat) (g : globals) (currDepth : Z) (dirs create collective : bool) (path : string) (dirNum : Z) : P unit :=
  match fuel with
  | O => Stop (Faulty NoFuel)
  | S fuel' =>
      if currDepth =? 0 then
        _ ← (if negb (on g leaf_only) || ((ints g depth =? 0) && on g leaf_only) then helper g dirs create collective "" 0 else Done tt);
        if 0 <? ints g depth then create_remove_items fuel' g (currDepth + 1) dirs create collective "" (dirNum + 1) else Done tt
      else if currDepth <=? ints g depth then
        for_each (upto (ints g branch_factor)) (fun i =>
          currDir ← int (dirNum + i);
          dir ← fmt (branch g currDir);
          temp_path ← fmt (path +:+ dir);
          _ ← (if negb (on g leaf_only) || (on g leaf_only && (currDepth =? ints g depth)) then
                 n ← int (currDir * ints g items_per_dir);
                 helper g dirs create collective temp_path n
               else Done tt);
          child ← int (currDir * ints g branch_factor);
          child ← int (child + 1);
          create_remove_items fuel' g (currDepth + 1) dirs create collective temp_path child)
      else Done tt
  end.

Definition fuel_of (g : globals) : nat := Z.to_nat (ints g depth + 2).
Definition all_items (g : globals) (dirs create collective : bool) : P unit :=
  create_remove_items (fuel_of g) g 0 dirs create collective "" 0.

(** ** Looking at the items *)

(** items_per_dir * pow(branch_factor, depth) *)
Definition leaf_items (g : globals) : P Z :=
  trunc (dmul (of_int (ints g items_per_dir)) (dpow (of_int (ints g branch_factor)) (of_int (ints g depth)))).

Definition items_to_stat (g : globals) : P Z := if on g leaf_only then leaf_items g else Done (ints g items).

(** The item is prefixed with its directories, from the one it is in upwards. *)
Fixpoint climb (fuel : nat) (g : globals) (parent_dir : Z) (item : string) : P string :=
  match fuel with
  | O => Stop (Faulty NoFuel)
  | S fuel' =>
      item ← fmt (branch g parent_dir +:+ item);
      if ints g branch_factor <? parent_dir then
        if ints g branch_factor =? 0 then Stop (Faulty ArithUB) else
        climb fuel' g (Z.quot (parent_dir - 1) (ints g branch_factor)) item
      else Done item
  end.

Definition stat_item (g : globals) (random dirs : bool) (i : Z) : P unit :=
  item_num ← (if random then lift (c_read (rand_array g) i) else Done i);
  item_num ← (if on g leaf_only then
                trunc (dadd (of_int item_num)
                  (dmul (of_int (ints g items_per_dir))
                     (dsub (of_int (ints g num_dirs_in_tree)) (dpow (of_int (ints g branch_factor)) (of_int (ints g depth))))))
              else Done item_num);
  _ ← tell_count g (if dirs then "stat dir" else "stat file") i;
  item ← fmt (item_path dirs "" (texts g stat_name) item_num);
  if ints g items_per_dir =? 0 then Stop (Faulty ArithUB) else
  let parent_dir := Z.quot item_num (ints g items_per_dir) in
  item ← (if 0 <? parent_dir then climb (Z.to_nat parent_dir) g parent_dir item else Done item);
  _ ← tell g 2 (if dirs then "stat dir" else "stat file");
  r ← sys (Stat item);
  if rc r =? -1 then fail (if dirs then "unable to stat directory" else "unable to stat file") else Done tt.

Definition mdtest_stat (g : globals) (random dirs : bool) : P unit :=
  stop ← items_to_stat g;
  for_each (upto stop) (stat_item g random dirs).

(** ** Collective operations *)

(** (r + k * nstride) % ntasks *)
Definition neighbour (g : globals) (r k ntasks : Z) : P Z :=
  x ← int (k * ints g nstride);
  y ← int (r + x);
  if ntasks =? 0 then Stop (Faulty ArithUB) else Done (Z.rem y ntasks).

Definition store_task (x : str) (g : globals) (r k ntasks : Z) (f : string -> string) : P globals :=
  t ← neighbour g r k ntasks; store x (f (print_int t)) g.

(** The names of the items of task [r]. *)
Definition set_item_names (g : globals) (r ntasks : Z) : P globals :=
  if on g shared_file then Done g else
  let name s := "mdtest." +:+ s +:+ "." in
  g ← store_task mk_name g r 0 ntasks name;
  g ← store_task stat_name g r 1 ntasks name;
  store_task rm_name g r 2 ntasks name.

(** The directories of task [r]. *)
Definition set_unique_dirs (g : globals) (r ntasks : Z) : P globals :=
  if negb (on g unique_dir_per_task) then Done g else
  let dir s := texts g testdir +:+ "/mdtest_tree." +:+ s +:+ ".0" in
  g ← store_task unique_mk_dir g r 0 ntasks dir;
  g ← store_task unique_chdir_dir g r 1 ntasks dir;
  g ← store_task unique_stat_dir g r 2 ntasks dir;
  g ← store_task unique_rm_dir g r 3 ntasks dir;
  store unique_rm_uni_dir (texts g testdir) g.

Definition tree_name (g : globals) (i : Z) : string :=
  if on g unique_dir_per_task then "mdtest_tree." +:+ print_int i else "mdtest_tree".

Definition collective_create_remove (g : globals) (create dirs : bool) (ntasks : Z) : P globals :=
  g ← thread (upto ntasks) (fun i g =>
        g ← store base_tree_name (tree_name g i) g;
        temp ← fmt (texts g testdir +:+ "/" +:+ texts g base_tree_name +:+ ".0");
        _ ← chdir_or temp "unable to change to test directory";
        g ← set_item_names g i ntasks;
        g ← set_unique_dirs g i ntasks;
        _ ← all_items g dirs create true;
        Done g) g;
  _ ← chdir_or (texts g top_dir) "unable to change back to back to testdir of rank 0";
  g ← store base_tree_name (tree_name g 0) g;
  g ← set_item_names g 0 ntasks;
  set_unique_dirs g 0 ntasks.

(** ** The tests *)

Definition set_entry (iteration k : Z) (v : D) (g : globals) : P globals :=
  row ← lift (c_read (summary_table g) iteration);
  row ← lift (c_write row k (Some v));
  tbl ← lift (c_write (summary_table g) iteration row);
  Done (set_table tbl g).

(** items * size / (t[i + 1] - t[i]), or 0 for a phase that is off. *)
Definition rate (g : globals) (phase : var) (t : list D) (i : nat) : P D :=
  if on g phase then
    n ← int (ints g items * Z.of_nat (testcomm g));
    Done (ddiv (of_int n) (dsub (timer t (S i)) (timer t i)))
  else Done (of_int 0).

(** Entries [first] .. [first] + 2 of the table. *)
Definition calculate_times (g : globals) (what : string) (iteration first : Z) (t : list D) : P globals :=
  c ← rate g create_only t 0;
  g ← set_entry iteration first c g;
  s ← rate g stat_only t 1;
  g ← set_entry iteration (first + 1) s g;
  r ← rate g remove_only t 2;
  g ← set_entry iteration (first + 2) r g;
  _ ← (if (1 <=? ints g verbose) && root then
         _ ← sys (Rate (what +:+ " creation") (dsub (timer t 1) (timer t 0)) c);
         _ ← sys (Rate (what +:+ " stat") (dsub (timer t 2) (timer t 1)) s);
         _ ← sys (Rate (what +:+ " removal") (dsub (timer t 3) (timer t 2)) r);
         Done tt
       else Done tt);
  Done g.

Definition wtime (t : list D) (i : nat) : P (list D) := w ← sys Wtime; Done (<[i := clock w]> t).
Definition if_barriers (g : globals) : P unit := if on g barriers then MPI_Barrier (testcomm g) else Done tt.

(** The change of directory before a phase, whose time counts only when asked for. *)
Definition enter_phase (g : globals) (opt : access) (t : list D) (i : nat) : P (list D) :=
  if on g unique_dir_per_task then
    _ ← unique_dir_access g opt;
    if negb (on g time_unique_dir_overhead) then offset_timers t i else Done t
  else Done t.

(** The remove phase ends in the directory above. *)
Definition leave_tests (g : globals) (t : list D) : P (list D) :=
  _ ← (if on g remove_only && on g unique_dir_per_task then unique_dir_access g RM_UNI_DIR else Done tt);
  if on g unique_dir_per_task && negb (on g time_unique_dir_overhead) then offset_timers t 3 else Done t.

Definition directory_test (g : globals) (iteration ntasks : Z) : P globals :=
  _ ← MPI_Barrier (testcomm g);
  t ← wtime (replicate 4 (of_int 0)) 0;
  '(g, t) ← (if on g create_only then
    t ← enter_phase g MK_UNI_DIR t 0;
    g ← (if on g collective_creates then
           if root then collective_create_remove g true true ntasks else Done g
         else _ ← all_items g true true false; Done g);
    Done (g, t)
  else Done (g, t));
  _ ← if_barriers g;
  t ← wtime t 1;
  t ← (if on g stat_only then
    t ← enter_phase g STAT_SUB_DIR t 1;
    _ ← mdtest_stat g (0 <? ints g random_seed) true;
    Done t
  else Done t);
  _ ← if_barriers g;
  t ← wtime t 2;
  t ← (if on g remove_only then enter_phase g RM_SUB_DIR t 2 else Done t);
  g ← (if on g remove_only then
    if on g collective_creates then
      if root then collective_create_remove g false true ntasks else Done g
    else _ ← all_items g true false false; Done g
  else Done g);
  _ ← if_barriers g;
  t ← wtime t 3;
  t ← leave_tests g t;
  calculate_times g "Directory" iteration 0 t.

Definition file_test (g : globals) (iteration ntasks : Z) : P globals :=
  _ ← MPI_Barrier (testcomm g);
  t ← wtime (replicate 4 (of_int 0)) 0;
  '(g, t) ← (if on g create_only then
    t ← enter_phase g MK_UNI_DIR t 0;
    g ← (if on g collective_creates then
           g ← (if root then collective_create_remove g true false ntasks else Done g);
           _ ← MPI_Barrier (testcomm g);
           Done g
         else Done g);
    _ ← all_items g false true false;
    Done (g, t)
  else Done (g, t));
  _ ← if_barriers g;
  t ← wtime t 1;
  t ← (if on g stat_only then
    t ← enter_phase g STAT_SUB_DIR t 1;
    _ ← mdtest_stat g (0 <? ints g random_seed) false;
    Done t
  else Done t);
  _ ← if_barriers g;
  t ← wtime t 2;
  t ← (if on g remove_only then enter_phase g RM_SUB_DIR t 2 else Done t);
  g ← (if on g remove_only then
    if on g collective_creates then
      if root then collective_create_remove g false false ntasks else Done g
    else _ ← all_items g false false false; Done g
  else Done g);
  _ ← if_barriers g;
  t ← wtime t 3;
  t ← leave_tests g t;
  calculate_times g "File" iteration 3 t.

(** ** The summary *)

Definition defined (x : option D) : P D := match x with Some d => Done d | None => Stop (Faulty Uninitialised) end.
Definition look (all : list (option D)) (i : Z) : P D := x ← lift (c_read all i); defined x.

(** The larger and the smaller of two rates, as the comparisons of the loops choose. *)
Definition larger (m x : D) : D := if dlt m x then x else m.
Definition smaller (m x : D) : D := if dlt x m then x else m.

Definition mean_of (n : Z) (l : list D) : D := ddiv (foldl dadd (of_int 0) l) (of_int n).
Definition variance_of (n : Z) (mean : D) (l : list D) : D :=
  ddiv (foldl (fun v x => dadd v (dpow (dsub mean x) (of_int 2))) (of_int 0) l) (of_int n).

(** A line of the report for the rates [l], whose extremes are looked for from [start] on. *)
Definition row (what : string) (n : Z) (start : D) (l : list D) : P unit :=
  let mean := mean_of n l in
  _ ← sys (Row what (foldl larger start l) (foldl smaller start l) mean (dsqrt (variance_of n mean l)));
  Done tt.

Definition access_name (i : Z) : string :=
  match i with
  | 0 => "Directory creation" | 1 => "Directory stat" | 2 => "Directory removal"
  | 3 => "File creation" | 4 => "File stat" | 5 => "File removal"
  | 6 => "Tree creation" | 7 => "Tree removal" | _ => "ERR"
  end.

Fixpoint collect {A B} (l : list A) (f : A -> P B) : P (list B) :=
  match l with [] => Done [] | x :: l' => y ← f x; ys ← collect l' f; Done (y :: ys) end%list.

(** The rate of process [k] in iteration [j]. *)
Definition entry_of (all : list (option D)) (iterations i k j : Z) : P D := look all (k * tableSize * iterations + j * tableSize + i).

(** The fastest process of an iteration. *)
Definition fastest (all : list (option D)) (iterations i j : Z) : P D :=
  x ← look all (j * tableSize + i);
  l ← collect (upto (Z.of_nat size)) (fun k => entry_of all iterations i k j);
  Done (foldl larger x l).

Definition summary_range (g : globals) : Z * Z :=
  if negb (on g dirs_only) && negb (on g files_only) then (0, 0) else
  (if on g files_only && negb (on g dirs_only) then 3 else 0, if on g dirs_only && negb (on g files_only) then 3 else 6).

Definition summarize_rows (g : globals) (iterations : Z) (all : list (option D)) : P unit :=
  let '(start, stop) := summary_range g in
  _ ← for_each ((fun i => start + i) <$> upto (stop - start)) (fun i =>
        if on g barriers then
          maxes ← collect (upto iterations) (fastest all iterations i);
          first ← lift (c_read maxes 0);
          row (access_name i) iterations first maxes
        else
          first ← look all i;
          l ← collect (upto (Z.of_nat size)) (fun k => collect (upto iterations) (fun j => entry_of all iterations i k j));
          n ← int (iterations * Z.of_nat size);
          row (access_name i) n first (concat l));
  for_each [6; 7]%list (fun i =>
    first ← look all i;
    l ← collect (upto iterations) (fun j => r ← lift (c_read (summary_table g) j); look r i);
    row (access_name i) iterations first l).

Definition flatten (l : list value) : list (option D) := concat ((fun v => match v with Table t => concat t | _ => []%list end) <$> l).

Definition summarize_results (g : globals) (iterations : Z) : P unit :=
  n ← int (iterations * Z.of_nat size);
  n ← int (n * tableSize);
  if n <=? 0 then Stop (Faulty ArithUB) else
  _ ← MPI_Barrier size;
  Meet size (Table (summary_table g)) (fun l =>
    if root then
      _ ← say "SUMMARY";
      summarize_rows g iterations (flatten l)
    else Done tt).

(** ** Options *)

Definition help : list string :=
  let t := String (ascii_of_nat 9) "" in
  ["Usage: mdtest [-b branching_factor] [-B] [-c] [-C] [-d testdir] [-D] [-f first]";
   "              [-F] [-h] [-i iterations] [-I items_per_dir] [-l last] [-L]";
   "              [-n number_of_items] [-N stride_length] [-p seconds] [-r]";
   "              [-R[seed]] [-s stride] [-S] [-t] [-T] [-u] [-v]";
   "              [-V verbosity_value] [-w number_of_bytes_to_write] [-y] [-z depth]";
   t +:+ "-b: branching factor of hierarchical directory structure";
   t +:+ "-B: no barriers between phases";
   t +:+ "-c: collective creates: task 0 does all creates";
   t +:+ "-C: only create files/dirs";
   t +:+ "-d: the directory in which the tests will run";
   t +:+ "-D: perform test on directories only (no files)";
   t +:+ "-f: first number of tasks on which the test will run";
   t +:+ "-F: perform test on files only (no directories)";
   t +:+ "-h: prints this help message";
   t +:+ "-i: number of iterations the test will run";
   t +:+ "-I: number of items per directory in tree";
   t +:+ "-l: last number of tasks on which the test will run";
   t +:+ "-L: files only at leaf level of tree";
   t +:+ "-n: every process will creat/stat/remove # directories and files";
   t +:+ "-N: stride # between neighbor tasks for file/dir stat (local=0)";
   t +:+ "-p: pre-iteration delay (in seconds)";
   t +:+ "-r: only remove files or directories left behind by previous runs";
   t +:+ "-R: randomly stat files (optional argument for random seed)";
   t +:+ "-s: stride between the number of tasks for each test";
   t +:+ "-S: shared file access (file only, no directories)";
   t +:+ "-t: time unique working directory overhead";
   t +:+ "-T: only stat files/dirs";
   t +:+ "-u: unique working directory for each task";
   t +:+ "-v: verbosity (each instance of option increments by one)";
   t +:+ "-V: verbosity value";
   t +:+ "-w: bytes to write to each file after it is created";
   t +:+ "-y: sync file after writing";
   t +:+ "-z: depth of hierarchical directory structure"]%list.

(** The caller ends the process; every rank prints. *)
Definition print_help : P unit := for_each help say.

Definition refuse (b : bool) (msg : string) : P unit := if b then fail msg else Done tt.

(** The globals that valid_tests sets before its checks. *)
Definition both_kinds (g : globals) : globals :=
  let g := if negb (on g dirs_only) && negb (on g files_only) then set dirs_only 1 (set files_only 1 g) else g in
  if on g shared_file then set dirs_only 0 g else g.

Definition valid_tests (g : globals) : P globals :=
  let g := both_kinds g in
  _ ← refuse (on g shared_file && on g collective_creates && root) "-c not compatible with -S";
  _ ← refuse ((1 <? ints g path_count) && on g collective_creates && root) "-c not compatible with multiple test directories";
  _ ← refuse (on g collective_creates && negb (on g barriers)) "-c not compatible with -B";
  _ ← refuse (on g unique_dir_per_task && on g shared_file && root) "-u not compatible with -S";
  _ ← refuse ((1 <? ints g path_count) && (0 <? ints g nstride)) "cannot have multiple directory paths with -N strides between neighbor tasks";
  _ ← refuse ((1 <? ints g path_count) && negb (ints g unique_dir_per_task =? 1)) "shared directory mode is not compatible with multiple directory paths";
  _ ← refuse (Z.of_nat size <? ints g path_count) "cannot have more directory paths than MPI tasks";
  _ ← refuse (ints g depth <? 0) "depth must be greater than or equal to zero";
  _ ← refuse ((ints g branch_factor <? 1) && (0 <? ints g depth)) "branch factor must be greater than or equal to zero";
  _ ← refuse ((0 <? ints g items) && (0 <? ints g items_per_dir)) "only specify the number of items or the number of items per directory";
  Done g.

Definition show_file_system_size (file_system : string) : P unit :=
  r ← sys (Statfs file_system);
  if negb (rc r =? 0) then fail "unable to statfs() file system" else
  r ← sys (Realpath file_system);
  if rc r =? 0 then fail "unable to use realpath()" else
  _ ← say "Path"; _ ← say "FS"; say "Inodes".

(** The directory above: the path up to its last slash. *)
Definition directory_above (path : string) : string :=
  match CString.rindex "/"%char path with Some i => CString.firstn i path | None => "." end.

Definition display_freespace (path : string) : P unit :=
  dirpath ← fmt path;
  show_file_system_size (directory_above dirpath).

(** The tree of directories; as before, each call goes one level down. *)
Fixpoint create_remove_directory_tree (fuel : nat) (g : globals) (create : bool) (currDepth : Z) (path : string) (dirNum : Z) : P unit :=
  match fuel with
  | O => Stop (Faulty NoFuel)
  | S fuel' =>
      let make p := if create then
          _ ← tell g 2 "making"; r ← sys (Mkdir p); if rc r =? -1 then fail "Unable to create directory" else Done tt
        else Done tt in
      let remove p := if create then Done tt else
          _ ← tell g 2 "remove"; r ← sys (Rmdir p); if rc r =? -1 then fail "Unable to remove directory" else Done tt in
      if currDepth =? 0 then
        dir ← fmt (branch g dirNum);
        _ ← make dir;
        _ ← create_remove_directory_tree fuel' g create (currDepth + 1) dir (dirNum + 1);
        remove dir
      else if currDepth <=? ints g depth then
        for_each (upto (ints g branch_factor)) (fun i =>
          currDir ← int (dirNum + i);
          dir ← fmt (branch g currDir);
          temp_path ← fmt (path +:+ dir);
          _ ← make temp_path;
          child ← int (ints g branch_factor * currDir);
          child ← int (child + 1);
          _ ← create_remove_directory_tree fuel' g create (currDepth + 1) temp_path child;
          remove temp_path)
      else Done tt
  end.

Definition whole_tree (g : globals) (create : bool) : P unit := create_remove_directory_tree (fuel_of g) g create 0 "" 0.

(** ** main *)

Record settings : Type := mkSettings { first : Z; last : Z; stride : Z; iterations : Z }.

(** An option that getopt returned; [None] when the program prints its help and exits. *)
Definition parse_option (c : ascii) (optarg : option string) (g : globals) (m : settings) : P (option (globals * settings)) :=
  let arg := default "" optarg in
  let n := Startup.atoi arg in
  let now g := Done (Some (g, m)) in
  match c with
  | "b" => now (set branch_factor n g)
  | "B" => now (set barriers 0 g)
  | "c" => now (set collective_creates 1 g)
  | "C" => now (set create_only 1 g)
  | "d" => g ← parse_dirpath arg g; now g
  | "D" => now (set dirs_only 1 g)
  | "f" => Done (Some (g, mkSettings n (last m) (stride m) (iterations m)))
  | "F" => now (set files_only 1 g)
  | "h" => _ ← print_help; Done None
  | "i" => Done (Some (g, mkSettings (first m) (last m) (stride m) n))
  | "I" => now (set items_per_dir n g)
  | "l" => Done (Some (g, mkSettings (first m) n (stride m) (iterations m)))
  | "L" => now (set leaf_only 1 g)
  | "n" => now (set items n g)
  | "N" => now (set nstride n g)
  | "p" => now (set pre_delay n g)
  | "r" => now (set remove_only 1 g)
  | "R" =>
      seed ← (match optarg with
              | None => t ← sys Time; _ ← MPI_Barrier size; MPI_Bcast (i32 (rc t))
              | Some _ => Done n
              end);
      seed ← int (seed + rankZ);
      now (set random_seed seed g)
  | "s" => Done (Some (g, mkSettings (first m) (last m) n (iterations m)))
  | "S" => now (set shared_file 1 g)
  | "t" => now (set time_unique_dir_overhead 1 g)
  | "T" => now (set stat_only 1 g)
  | "u" => now (set unique_dir_per_task 1 g)
  | "v" => v ← int (ints g verbose + 1); now (set verbose v g)
  | "V" => now (set verbose n g)
  | "w" => now (set write_bytes n g)
  | "y" => now (set sync_file 1 g)
  | "z" => now (set depth n g)
  | _ => now g
  end%char.

Fixpoint parse_options (args : list (ascii * option string)) (g : globals) (m : settings) : P (option (globals * settings)) :=
  match args with
  | [] => Done (Some (g, m))
  | (c, optarg) :: args' =>
      x ← parse_option c optarg g m;
      match x with None => Done None | Some (g, m) => parse_options args' g m end
  end%list.

Definition all_phases (g : globals) : globals :=
  if negb (on g create_only) && negb (on g stat_only) && negb (on g remove_only)
  then set create_only 1 (set stat_only 1 (set remove_only 1 g)) else g.

(** The number of directories, of items and of items in a directory. *)
Definition count_dirs (g : globals) : P Z :=
  let b := ints g branch_factor in
  let d := ints g depth in
  if d <=? 0 then Done 1
  else if b <? 1 then Done 1
  else if b =? 1 then int (d + 1)
  else
    d1 ← int (d + 1);
    trunc (ddiv (dsub (of_int 1) (dpow (of_int b) (of_int d1))) (of_int (1 - b))).

Definition count_items (g : globals) : P globals :=
  dirs ← count_dirs g;
  let g := set num_dirs_in_tree dirs g in
  if 0 <? ints g items_per_dir then
    n ← int (ints g items_per_dir * dirs); Done (set items n g)
  else if on g leaf_only then
    if ints g branch_factor <=? 1 then Done (set items_per_dir (ints g items) g)
    else
      let leaves := dpow (of_int (ints g branch_factor)) (of_int (ints g depth)) in
      per ← trunc (ddiv (of_int (ints g items)) leaves);
      n ← trunc (dmul (of_int per) leaves);
      Done (set items n (set items_per_dir per g))
  else
    if dirs =? 0 then Stop (Faulty ArithUB) else
    let per := Z.quot (ints g items) dirs in
    n ← int (per * dirs);
    Done (set items n (set items_per_dir per g)).

(** The shuffle of the numbers below [n + 1]. *)
Fixpoint shuffle (n : nat) (l : list Z) : P (list Z) :=
  match n with
  | O => Done l
  | S n' =>
      r ← sys Rand;
      let k := Z.rem (rc r) (Z.of_nat n + 1) in
      tmp ← lift (c_read l k);
      last ← lift (c_read l (Z.of_nat n));
      l ← lift (c_write l k last);
      l ← lift (c_write l (Z.of_nat n) tmp);
      shuffle n' l
  end.

Definition init_rand (g : globals) : P globals :=
  if 0 <? ints g random_seed then
    _ ← sys (Srand (ints g random_seed));
    stop ← items_to_stat g;
    m ← sys (Malloc (stop * 4));
    if (rc m =? 0) && (0 <? stop) then Stop (Faulty NullDeref) else
    l ← shuffle (Z.to_nat stop - 1) (upto stop);
    Done (set_rand l g)
  else Done g.

Definition init_buffer (g : globals) : P unit :=
  if 0 <? ints g write_bytes then
    m ← sys (Malloc (ints g write_bytes));
    if rc m =? 0 then fail "out of memory" else Done tt
  else Done tt.

(** The directory to work in. *)
Definition choose_path (g : globals) : P globals :=
  if ints g path_count =? 0 then
    c ← sys Getcwd;
    g ← store testdirpath (text c) g;
    Done (set path_count 1 g)
  else
    match filenames g !! Z.to_nat (Z.rem rankZ (ints g path_count)) with
    | Some s => store testdirpath s g
    | None => Stop (Faulty Uninitialised)
    end.

(** chdir to a directory, or mkdir when that fails; by the first path_count ranks. *)
Definition ensure_dir (g : globals) (p msg : string) : P unit :=
  if rankZ <? ints g path_count then
    r ← sys (Chdir p);
    if rc r =? -1 then r ← sys (Mkdir p); if rc r =? -1 then fail msg else Done tt else Done tt
  else Done tt.

(** The tree, or all trees, are made or removed; rank 0 counts the trees with the variable [i]
    of main, of which the last value is returned. *)
Definition build_trees (g : globals) (create : bool) (i : Z) : P (globals * Z) :=
  if on g unique_dir_per_task then
    if on g collective_creates && root then
      g ← thread (upto (Z.of_nat size)) (fun k g =>
            g ← store base_tree_name ("mdtest_tree." +:+ print_int k) g;
            _ ← whole_tree g create;
            Done g) g;
      Done (g, Z.of_nat size)
    else if negb (on g collective_creates) then _ ← whole_tree g create; Done (g, i)
    else Done (g, i)
  else
    if root then _ ← whole_tree g create; Done (g, i) else Done (g, i).

(** The making or removing of the trees between two barriers, with its rate. *)
Definition tree_phase (g : globals) (create : bool) (i j : Z) : P (globals * Z) :=
  if on g (if create then create_only else remove_only) then
    s ← sys Wtime;
    '(g, i) ← build_trees g create i;
    _ ← MPI_Barrier size;
    e ← sys Wtime;
    let secs := dsub (clock e) (clock s) in
    let r := ddiv (of_int (ints g num_dirs_in_tree)) secs in
    g ← set_entry j (if create then 6 else 7) r g;
    _ ← (if (1 <=? ints g verbose) && root then _ ← sys (Rate (if create then "Tree creation" else "Tree removal") secs r); Done tt else Done tt);
    Done (g, i)
  else
    g ← set_entry j (if create then 6 else 7) (of_int 0) g; Done (g, i).

(** The tests of the processes below [i]. *)
Definition run_tests (g : globals) (i j : Z) : P globals :=
  if rankZ <? i then
    g ← set_item_names g rankZ i;
    g ← set_unique_dirs g rankZ i;
    g ← store top_dir (texts g unique_mk_dir) g;
    g ← (if on g dirs_only && negb (on g shared_file) then
           _ ← (if on g pre_delay then delay_secs g (ints g pre_delay) else Done tt);
           directory_test g j i
         else Done g);
    if on g files_only then
      _ ← (if on g pre_delay then delay_secs g (ints g pre_delay) else Done tt);
      file_test g j i
    else Done g
  else Done g.

(** Iteration [j] on [i] tasks. *)
Definition iteration (j : Z) (s : globals * Z) : P (globals * Z) :=
  let '(g, i) := s in
  _ ← (if root && (1 <=? ints g verbose) then say "iteration" else Done tt);
  g ← store testdir (texts g testdirpath +:+ "/" +:+ TEST_DIR +:+ "." +:+ print_int j) g;
  _ ← ensure_dir g (texts g testdir) "Unable to create test directory";
  _ ← MPI_Barrier size;
  _ ← chdir_or (texts g testdir) "Unable to change to test directory";
  _ ← MPI_Barrier size;
  '(g, i) ← tree_phase g true i j;
  let top := texts g testdir +:+ "/" +:+ texts g base_tree_name +:+ ".0" in
  g ← store unique_mk_dir top g;
  g ← store unique_chdir_dir top g;
  g ← store unique_stat_dir top g;
  g ← store unique_rm_dir top g;
  g ← store unique_rm_uni_dir (texts g testdir) g;
  _ ← (if negb (on g unique_dir_per_task) then chdir_or (texts g unique_mk_dir) "unable to change to shared tree directory" else Done tt);
  g ← run_tests g i j;
  _ ← (if negb (on g unique_dir_per_task) then chdir_or (texts g testdir) "unable to change to tree directory" else Done tt);
  _ ← MPI_Barrier size;
  tree_phase g false i j.

(** The loop over the numbers of tasks.  A group that is not within the ranks is an error of
    MPI, which ends all. *)
Fixpoint run_tasks (fuel : nat) (m : settings) (g : globals) (i : Z) : P globals :=
  match fuel with
  | O => Stop (Faulty NoFuel)
  | S fuel' =>
      if (i <=? last m) && (i <=? Z.of_nat size) then
        if i <? 1 then Stop (Aborted 1) else
        _ ← MPI_Barrier size;
        let g := set_testcomm (Z.to_nat i) g in
        _ ← (if root && (on g files_only || on g dirs_only) then _ ← int (i * ints g items); say "tasks" else Done tt);
        _ ← (if root && (1 <=? ints g verbose) then say "Operation" else Done tt);
        '(g, i) ← thread (upto (iterations m)) iteration (g, i);
        _ ← summarize_results g (iterations m);
        i ← int ((if (i =? 1) && (1 <? stride m) then 0 else i) + stride m);
        run_tasks fuel' m g i
      else Done g
  end.

Definition start_names (g : globals) : P globals :=
  g ← store base_tree_name (tree_name g rankZ) g;
  Done (write mk_name "mdtest.shared." (write stat_name "mdtest.shared." (write rm_name "mdtest.shared." g))).

(** The part of main after the options; a loop over the tasks with a positive stride makes at
    most size + 2 rounds. *)
Definition set_up (g : globals) (m : settings) : P (globals * settings) :=
  let g := all_phases g in
  g ← valid_tests g;
  g ← count_items g;
  g ← init_rand g;
  _ ← init_buffer g;
  g ← choose_path g;
  _ ← (if root then display_freespace (texts g testdirpath) else Done tt);
  _ ← (if root && (0 <? ints g random_seed) then say "random seed" else Done tt);
  _ ← ensure_dir g (texts g testdirpath) "Unable to create test directory path";
  h ← sys Gethostname;
  if rc h =? -1 then Stop (Aborted 2) else
  let m := if last m =? 0 then mkSettings (Z.of_nat size) (Z.of_nat size) (stride m) (iterations m) else m in
  t ← sys (Malloc (iterations m * 64));
  if rc t =? 0 then fail "out of memory" else
  let g := set_table (replicate (Z.to_nat (iterations m)) (replicate 8 None)) g in
  g ← start_names g;
  Done (g, m).

Definition run_program (fuel : nat) (g : globals) (m : settings) : P unit :=
  '(g, m) ← set_up g m;
  _ ← run_tasks fuel m g (first m);
  if root then say "finished" else Done tt.

Definition default_settings : settings := mkSettings 1 0 1 1.

(** The arguments, and the options that getopt finds in them. *)
Definition main (fuel : nat) (argv : list string) (args : list (ascii * option string)) : P unit :=
  if existsb (fun a => bool_decide (a = "-h") || bool_decide (a = "--help")) (tail argv) then print_help else
  tasks ← count_tasks_per_node;
  if tasks =? 0 then Stop (Faulty ArithUB) else
  _ ← (if root then _ ← say "started"; say "Command line used" else Done tt);
  x ← parse_options args initial default_settings;
  match x with None => Done tt | Some (g, m) => run_program fuel g m end.

End Program.

#[global] Arguments call D : clear implicits.
#[global] Arguments answer D : clear implicits.
#[global] Arguments value D : clear implicits.
#[global] Arguments globals D : clear implicits.

End Mdtest.
