(* ===== verification/MdtestTree.v ===== *)
(** * The tree of the metadata benchmark

    mdtest numbers the directories of its tree level by level: the root is 0 and the children of
    [d] are [d * b + 1] .. [d * b + b].  The functions that make the tree and the items walk it
    downwards and build paths from the top; mdtest_stat goes from the number of an item to its
    directory and climbs.  This file shows that both see the same items: [forest] is the tree
    they walk, [path_of] the path of a number, [stat_visits_created] the theorem. *)

From Stdlib Require Import Ascii FunctionalExtensionality.
From S2P Require Import Prelude Names ConnProps Startup ThreadTest Mpi Groups Mdtest.

#[local] Open Scope string_scope.
#[local] Open Scope list_scope.
#[local] Open Scope Z_scope.

Module Tree.

Section Numbers.
Variable b : Z.
Variable name : Z -> string.

(** The directories below one whose first child is [dirNum], [levels] levels deep, in the order
    of the recursion: how many levels are below, the number and the path. *)
Fixpoint forest (levels : nat) (path : string) (dirNum : Z) : list (nat * Z * string) :=
  match levels with
  | O => []
  | S l => seqZ 0 b ≫= fun i => let d := dirNum + i in (l, d, path +:+ name d) :: forest l (path +:+ name d) (d * b + 1)
  end.

(** The number of the first directory of level [k]. *)
Fixpoint level_start (k : nat) : Z := match k with O => 0 | S k' => level_start k' * b + 1 end.

(** The path of directory [d], by climbing: the root has none. *)
Fixpoint path_of (fuel : nat) (d : Z) : string :=
  match fuel with
  | O => ""
  | S f => if d <=? 0 then "" else path_of f (Z.quot (d - 1) b) +:+ name d
  end.

End Numbers.

Definition number (x : nat * Z * string) : Z := x.1.2.
Definition where_ (x : nat * Z * string) : string := x.2.
Definition is_leaf (x : nat * Z * string) : bool := (x.1.1 =? 0)%nat.

End Tree.

(** ** Lists *)

Section Lists.
Import Tree.

Lemma bind_app_fun {A B} (l : list A) (f g : A -> list B) : (l ≫= fun x => f x ++ g x) ≡ₚ ((l ≫= f) ++ (l ≫= g)).
Proof.
  induction l as [|x l IH]; [done|]. rewrite !bind_cons, IH, <- !app_assoc. apply Permutation_app_head. rewrite !app_assoc. apply Permutation_app_tail, Permutation_app_comm.
Qed.

Lemma bind_bind_swap {A B C} (l : list A) (m : list B) (f : A -> B -> list C) :
  (l ≫= fun x => m ≫= fun y => f x y) ≡ₚ (m ≫= fun y => l ≫= fun x => f x y).
Proof.
  induction m as [|y m IH].
  - cbn. induction l; [done|]. by rewrite bind_cons.
  - rewrite bind_cons, <- IH. rewrite <- bind_app_fun. done.
Qed.

Lemma list_bind_fmap {A B C} (f : A -> list B) (g : B -> C) l : g <$> (l ≫= f) = l ≫= fun x => g <$> f x.
Proof. induction l as [|x l IH]; [done|]. by rewrite !bind_cons, fmap_app, IH. Qed.

Lemma bind_Permutation_ext {A B} (f g : A -> list B) l : (forall x, f x ≡ₚ g x) -> (l ≫= f) ≡ₚ (l ≫= g).
Proof. intros H. induction l as [|x l IH]; [done|]. rewrite !bind_cons. by apply Permutation_app. Qed.

Lemma filter_bind {A B} (Q : B -> Prop) `{forall y, Decision (Q y)} (f : A -> list B) l : filter Q (l ≫= f) = l ≫= fun x => filter Q (f x).
Proof. induction l as [|x l IH]; [done|]. by rewrite !bind_cons, list.filter_app, IH. Qed.

Lemma bind_bind {A B E} (f : A -> list B) (h : B -> list E) l : (l ≫= f) ≫= h = l ≫= fun x => f x ≫= h.
Proof. induction l as [|x l IH]; [done|]. by rewrite !bind_cons, bind_app, IH. Qed.

Lemma fmap_as_bind {A B} (f : A -> B) l : f <$> l = l ≫= fun x => [f x].
Proof. induction l as [|x l IH]; [done|]. rewrite bind_cons, <- IH. done. Qed.

(** Consecutive ranges of one width make a range. *)
Lemma ranges_join (n : nat) w a : 0 <= w -> (seqZ 0 (Z.of_nat n) ≫= fun i => seqZ (a + i * w) w) = seqZ a (Z.of_nat n * w).
Proof.
  intros Hw. induction n as [|n IH]; [by rewrite Z.mul_0_l, !seqZ_nil by lia|]. rewrite seqZ_S, bind_app, IH, bind_cons. cbn [mbind list_bind].
  rewrite app_nil_r, Z.add_0_l. rewrite <- seqZ_app by lia. f_equal. lia.
Qed.

Lemma ranges_joinZ n w a : 0 <= n -> 0 <= w -> (seqZ 0 n ≫= fun i => seqZ (a + i * w) w) = seqZ a (n * w).
Proof. intros Hn Hw. rewrite <- (Z2Nat.id n) by done. by apply ranges_join. Qed.

End Lists.

(** ** Numbers of the tree *)

Section Numbering.
Import Tree.
Variable b : Z.
Hypothesis Hb : 1 <= b.
Variable name : Z -> string.
Local Abbreviation forest := (forest b name).
Local Abbreviation level_start := (level_start b).

Lemma level_start_next k : level_start (S k) = level_start k + b ^ Z.of_nat k.
Proof.
  induction k as [|k IH]; [cbn; lia|]. rewrite Nat2Z.inj_succ, Z.pow_succ_r by lia.
  change (level_start (S (S k))) with (level_start (S k) * b + 1). rewrite IH at 1.
  change (level_start (S k)) with (level_start k * b + 1). lia.
Qed.

Lemma level_start_nonneg k : 0 <= level_start k.
Proof. induction k as [|k IH]; [done|]. cbn [Tree.level_start]. nia. Qed.

Lemma level_start_mono k l : (k <= l)%nat -> level_start k <= level_start l.
Proof. intros H. induction H as [|l H IH]; [lia|]. rewrite level_start_next. assert (0 < b ^ Z.of_nat l) by (apply Z.pow_pos_nonneg; lia). lia. Qed.

Lemma level_start_eq k : level_start k * (b - 1) = b ^ Z.of_nat k - 1.
Proof. induction k as [|k IH]; [cbn; lia|]. rewrite Nat2Z.inj_succ, Z.pow_succ_r by lia. cbn [Tree.level_start]. nia. Qed.

(** The numbers of the level [j + 1] below directory [q]. *)
Definition below_level (q : Z) (j : nat) : list Z := seqZ (q * b ^ Z.of_nat (S j) + level_start (S j)) (b ^ Z.of_nat (S j)).

Lemma below_children q j : (seqZ 0 b ≫= fun i => below_level (q * b + 1 + i) j) = below_level q (S j).
Proof.
  unfold below_level. set (w := b ^ Z.of_nat (S j)). assert (Hw : 0 <= w) by (apply Z.pow_nonneg; lia).
  replace (b ^ Z.of_nat (S (S j))) with (b * w) by (unfold w; rewrite (Nat2Z.inj_succ (S j)), Z.pow_succ_r by lia; done).
  rewrite <- (ranges_joinZ b w (q * (b * w) + level_start (S (S j)))) by lia. apply list_bind_ext; [|done]. intros i. f_equal.
  rewrite (level_start_next (S j)). fold w. lia.
Qed.

(** The numbers that the recursion meets, up to their order, are the levels below. *)
Lemma forest_numbers levels path q : (number <$> forest levels path (q * b + 1)) ≡ₚ (seq 0 levels ≫= below_level q).
Proof.
  revert path q. induction levels as [|l IH]; intros path q; [done|]. cbn [Tree.forest]. rewrite list_bind_fmap.
  transitivity (seqZ 0 b ≫= fun i => [q * b + 1 + i] ++ (seq 0 l ≫= below_level (q * b + 1 + i))).
  { apply bind_Permutation_ext. intros i. cbn. constructor. apply IH. }
  rewrite bind_app_fun, bind_bind_swap, <- fmap_as_bind, fmap_add_seqZ. change (seq 0 (S l)) with (0%nat :: seq 1 l). rewrite bind_cons. apply Permutation_app.
  - unfold below_level. cbn [Tree.level_start]. by rewrite Z.pow_1_r, !Z.add_0_r.
  - rewrite <- fmap_S_seq, list_fmap_bind. apply bind_Permutation_ext. intros j. by rewrite below_children.
Qed.

Lemma levels_join d : 0 :: (seq 0 d ≫= below_level 0) = seqZ 0 (level_start (S d)).
Proof.
  induction d as [|d IH]; [done|]. rewrite seq_S, bind_app, app_comm_cons, IH, bind_singleton. unfold below_level.
  rewrite (level_start_next (S d)), (seqZ_app 0) by (try apply level_start_nonneg; apply Z.pow_nonneg; lia). by rewrite Z.mul_0_l.
Qed.

(** The root and the directories below it are numbered without gaps. *)
Lemma tree_numbers d path : (0 :: (number <$> forest d path 1)) ≡ₚ seqZ 0 (level_start (S d)).
Proof. rewrite <- levels_join. constructor. apply (forest_numbers d path 0). Qed.

Lemma forest_cons l path dirNum : forest (S l) path dirNum =
  seqZ 0 b ≫= fun i => (l, dirNum + i, path +:+ name (dirNum + i)) :: forest l (path +:+ name (dirNum + i)) ((dirNum + i) * b + 1).
Proof. done. Qed.

(** The directories of the last level, which are consecutive. *)
Lemma leaf_numbers l path q : (number <$> filter (fun x => is_leaf x = true) (forest (S l) path (q * b + 1))) = below_level q l.
Proof.
  revert path q. induction l as [|l IH]; intros path q; rewrite forest_cons.
  - transitivity (seqZ 0 b ≫= fun i => [q * b + 1 + i]).
    + induction (seqZ 0 b) as [|i r IHi]; [done|]. rewrite !bind_cons, list.filter_app, fmap_app, IHi. done.
    + rewrite <- fmap_as_bind, fmap_add_seqZ. unfold below_level. cbn [Tree.level_start]. by rewrite Z.pow_1_r, !Z.add_0_r.
  - rewrite <- below_children. induction (seqZ 0 b) as [|i r IHi]; [done|]. rewrite !bind_cons, list.filter_app, fmap_app, IHi. f_equal.
    cbv zeta. rewrite filter_cons_False by done. apply IH.
Qed.

(** *** Paths *)

Definition dir_path (d : Z) : string := path_of b name (Z.to_nat d) d.

Lemma path_of_enough f d : (Z.to_nat d <= f)%nat -> path_of b name f d = dir_path d.
Proof.
  assert (H : forall f g d, (Z.to_nat d <= f)%nat -> (Z.to_nat d <= g)%nat -> path_of b name f d = path_of b name g d).
  { clear f d. induction f as [|f IH]; intros [|g] d Hf Hg; cbn [path_of]; try (destruct (Z.leb_spec d 0); [done|lia]).
    destruct (Z.leb_spec d 0); [done|]. f_equal. assert (Z.quot (d - 1) b <= d - 1) by (apply Z.quot_le_upper_bound; nia).
    apply IH; lia. }
  intros Hf. by apply H.
Qed.

Lemma dir_path_0 : dir_path 0 = "".
Proof. done. Qed.

Lemma dir_path_step d : 0 < d -> dir_path d = dir_path (Z.quot (d - 1) b) +:+ name d.
Proof.
  intros Hd. unfold dir_path at 1. destruct (Z.to_nat d) as [|f] eqn:E; [lia|]. cbn [path_of]. destruct (Z.leb_spec d 0); [lia|].
  rewrite path_of_enough; [done|]. assert (Z.quot (d - 1) b <= d - 1) by (apply Z.quot_le_upper_bound; nia). lia.
Qed.

Lemma dir_path_child q i : 0 <= q -> 0 <= i < b -> dir_path (q * b + 1 + i) = dir_path q +:+ name (q * b + 1 + i).
Proof.
  intros Hq Hi. rewrite dir_path_step by nia. do 2 f_equal. replace (q * b + 1 + i - 1) with (i + q * b) by lia.
  rewrite Z.quot_add_l || rewrite (Z.quot_div_nonneg (i + q * b)) by nia. rewrite Z.div_add, Z.div_small by lia. lia.
Qed.

(** The path that the recursion has built is the one that climbing finds. *)
Lemma forest_paths levels q : 0 <= q -> Forall (fun x => where_ x = dir_path (number x) /\ 0 < number x) (forest levels (dir_path q) (q * b + 1)).
Proof.
  revert q. induction levels as [|l IH]; intros q Hq; [constructor|]. cbn [Tree.forest]. apply Forall_bind. apply list.Forall_forall.
  intros i [Hi0 Hi]%elem_of_seqZ. unfold compose. rewrite <- (dir_path_child q i) by lia. constructor; [split; [done|cbn; nia]|]. apply IH. nia.
Qed.

End Numbering.

(** ** The processes as loops *)

Section Loops.
Import Mdtest Groups.
Context {C R V : Type}.

Lemma proc_bind_assoc {A B E} (p : proc C R V A) (f : A -> proc C R V B) (h : B -> proc C R V E) : (p ≫= f) ≫= h = p ≫= fun x => f x ≫= h.
Proof.
  induction p as [|c k IH|m v k IH|v k IH|k IH|]; cbn; try done; f_equal; try apply functional_extensionality; done.
Qed.

Lemma proc_bind_done {A} (p : proc C R V A) : p ≫= Done = p.
Proof. induction p as [|c k IH|m v k IH|v k IH|k IH|]; cbn; try done; f_equal; try apply functional_extensionality; done. Qed.

Lemma bind_done {A B} (a : A) (f : A -> proc C R V B) : Done a ≫= f = f a.
Proof. done. Qed.

Lemma proc_bind_ext {A B} (p : proc C R V A) (f h : A -> proc C R V B) : (forall a, f a = h a) -> p ≫= f = p ≫= h.
Proof. intros H. f_equal. by apply functional_extensionality. Qed.

End Loops.

(** What IEEE 754 says of the doubles that hold small integers: they are exact, and a quotient
    that is not an integer is not rounded to one. *)
Class DoubleLaws (D : Type) `{Mdtest.Double D} : Prop := mkDoubleLaws {
  int_exact z : - 2 ^ 31 <= z < 2 ^ 31 -> Mdtest.to_int (Mdtest.of_int z) = Some z;
  pow_exact x n : 0 <= x -> 0 <= n -> x ^ n < 2 ^ 53 -> Mdtest.dpow (Mdtest.of_int x) (Mdtest.of_int n) = Mdtest.of_int (x ^ n);
  mul_exact x y : Z.abs x < 2 ^ 53 -> Z.abs y < 2 ^ 53 -> Z.abs (x * y) < 2 ^ 53 -> Mdtest.dmul (Mdtest.of_int x) (Mdtest.of_int y) = Mdtest.of_int (x * y);
  add_exact x y : Z.abs x < 2 ^ 53 -> Z.abs y < 2 ^ 53 -> Z.abs (x + y) < 2 ^ 53 -> Mdtest.dadd (Mdtest.of_int x) (Mdtest.of_int y) = Mdtest.of_int (x + y);
  sub_exact x y : Z.abs x < 2 ^ 53 -> Z.abs y < 2 ^ 53 -> Z.abs (x - y) < 2 ^ 53 -> Mdtest.dsub (Mdtest.of_int x) (Mdtest.of_int y) = Mdtest.of_int (x - y);
  div_trunc x y : Z.abs x < 2 ^ 53 -> Z.abs y < 2 ^ 53 -> y <> 0 -> - 2 ^ 31 <= Z.quot x y < 2 ^ 31 ->
    Mdtest.to_int (Mdtest.ddiv (Mdtest.of_int x) (Mdtest.of_int y)) = Some (Z.quot x y)
}.

Section Walks.
Import Mdtest Groups Tree.
Context {D : Type} `{Double D} (rank : nat).
Abbreviation P := (proc (call D) (answer D) (value D)).

Lemma for_each_app {A} (l1 l2 : list A) (f : A -> P unit) : for_each (l1 ++ l2) f = for_each l1 f ≫= fun _ => for_each l2 f.
Proof.
  induction l1 as [|x l1 IH]; [done|]. cbn [for_each app]. rewrite proc_bind_assoc. apply proc_bind_ext. intros _. by rewrite IH.
Qed.

Lemma for_each_ext {A} (l : list A) (f h : A -> P unit) : (forall x, x ∈ l -> f x = h x) -> for_each l f = for_each l h.
Proof.
  induction l as [|x l IH]; intros Hf; [done|]. cbn [for_each]. rewrite Hf by (by left). apply proc_bind_ext. intros _. apply IH.
  intros y Hy. apply Hf. by right.
Qed.

Lemma for_each_bind {A B} (l : list A) (k : A -> list B) (f : B -> P unit) : for_each (l ≫= k) f = for_each l (fun x => for_each (k x) f).
Proof. induction l as [|x l IH]; [done|]. rewrite bind_cons, for_each_app, IH. done. Qed.

Lemma for_each_fmap {A B} (l : list A) (k : A -> B) (f : B -> P unit) : for_each (k <$> l) f = for_each l (fun x => f (k x)).
Proof. induction l as [|x l IH]; [done|]. cbn. by rewrite IH. Qed.

Lemma int_ok x : - 2 ^ 31 <= x < 2 ^ 31 -> int x = Done x :> P Z.
Proof. intros Hx. unfold int. by rewrite c_int_ok. Qed.

Lemma fmt_ok s : (String.length s < MAX_LEN)%nat -> fmt s = Done s :> P string.
Proof. intros Hs. unfold fmt. by destruct (Nat.ltb_spec (String.length s) MAX_LEN); [|lia]. Qed.

Variable g : globals D.
Let b := ints g branch_factor.
Let ipd := ints g items_per_dir.

(** The items of a directory: their numbers, with the path of the directory. *)
Definition items_of (x : nat * Z * string) : list (Z * string) := (fun n => (n, where_ x)) <$> seqZ (number x * ipd) ipd.
Definition visible (x : nat * Z * string) : bool := negb (on g leaf_only) || is_leaf x.

(** The directory [x] can be numbered and named. *)
Definition usable (x : nat * Z * string) : Prop :=
  0 <= number x /\ number x * b + 1 < 2 ^ 31 /\ (number x + 1) * ipd < 2 ^ 31 /\ (String.length (where_ x) < MAX_LEN)%nat.

Definition act (dirs create collective : bool) (x : Z * string) : P unit :=
  if collective then one_collective rank g dirs create x.2 x.1 else one_item rank g dirs create x.2 x.1.

Lemma helper_loop dirs create collective path n0 : 0 <= ipd -> 0 <= n0 -> n0 + ipd < 2 ^ 31 ->
  helper rank g dirs create collective path n0 = for_each ((fun n => (n, path)) <$> seqZ n0 ipd) (act dirs create collective).
Proof.
  intros Hi H0 H1. rewrite for_each_fmap. unfold helper, collective_helper, create_remove_items_helper, upto. fold ipd.
  replace (seqZ n0 ipd) with (Z.add n0 <$> seqZ 0 ipd) by (by rewrite fmap_add_seqZ, Z.add_0_r). rewrite for_each_fmap. unfold act. destruct collective;
    apply for_each_ext; intros i [Hi0 Hi1]%elem_of_seqZ; (rewrite int_ok by lia; done).
Qed.

Local Abbreviation woods := (forest b (branch g)).

Lemma branch_le path d : (String.length (path +:+ branch g d) < MAX_LEN)%nat -> fmt (branch g d) = Done (branch g d) :> P string.
Proof. rewrite length_sapp. intros Hl. apply fmt_ok. lia. Qed.

Lemma walk_items levels fuel dirs create collective path dirNum : 0 <= ipd -> 0 <= ints g depth -> (levels < fuel)%nat -> (levels <= Z.to_nat (ints g depth))%nat ->
  Forall usable (woods levels path dirNum) ->
  create_remove_items rank fuel g (ints g depth - Z.of_nat levels + 1) dirs create collective path dirNum =
    for_each (filter (fun x => visible x = true) (woods levels path dirNum) ≫= items_of) (act dirs create collective).
Proof.
  intros Hi Hd. revert fuel path dirNum. induction levels as [|l IH]; intros [|fuel] path dirNum Hf Hl Hu; try lia; cbn [create_remove_items].
  - destruct (Z.eqb_spec (ints g depth - Z.of_nat 0 + 1) 0); [lia|]. by destruct (Z.leb_spec (ints g depth - Z.of_nat 0 + 1) (ints g depth)); [lia|].
  - destruct (Z.eqb_spec (ints g depth - Z.of_nat (S l) + 1) 0); [lia|].
    destruct (Z.leb_spec (ints g depth - Z.of_nat (S l) + 1) (ints g depth)); [|lia]. rewrite forest_cons in Hu |- *.
    rewrite filter_bind, bind_bind, for_each_bind. apply for_each_ext. intros i Hin.
    assert (Hx := proj1 (list.Forall_forall _ _) (proj1 (Forall_bind _ _ _) Hu) i Hin). unfold compose in Hx.
    apply Forall_cons_1 in Hx as [(Hx0 & Hx1 & Hx2 & Hx3) Hxs]. cbn [number where_ fst snd] in Hx0, Hx1, Hx2, Hx3.
    assert (Hib := Hin). apply elem_of_seqZ in Hib. rewrite int_ok, bind_done by nia. rewrite (branch_le path), bind_done, fmt_ok, bind_done by done.
    rewrite (int_ok ((dirNum + i) * ints g branch_factor)) by (fold b; nia). rewrite bind_done. fold b. rewrite (int_ok ((dirNum + i) * b + 1)) by nia.
    rewrite bind_done. replace (ints g depth - Z.of_nat (S l) + 1 + 1) with (ints g depth - Z.of_nat l + 1) by lia.
    rewrite (IH fuel) by (done || lia). rewrite list.filter_cons.
    replace (negb (on g leaf_only) || _) with (visible (l, dirNum + i, path +:+ branch g (dirNum + i))).
    2: { unfold visible, is_leaf. cbn [fst]. destruct (on g leaf_only), l; cbn; try done; symmetry; [apply Z.eqb_eq|apply Z.eqb_neq]; lia. }
    destruct (visible (l, dirNum + i, path +:+ branch g (dirNum + i))); [|done]. rewrite decide_True by done.
    rewrite bind_cons, for_each_app. fold ipd. rewrite int_ok by nia. rewrite bind_done. f_equal. by rewrite helper_loop by nia.
Qed.

(** *** Bounds *)

Let dep := Z.to_nat (ints g depth).

(** The counts are those that main computes, nothing overflows and the buffers have room for the
    names of the items. *)
Record sized (name : str) : Prop := mkSized {
  z_depth : 0 <= ints g depth;
  z_branch : 1 <= b;
  z_ipd : 0 <= ipd;
  z_dirs : ints g num_dirs_in_tree = level_start b (S dep);
  z_next : level_start b (S (S dep)) < 2 ^ 31;
  z_total : ints g num_dirs_in_tree * ipd < 2 ^ 31;
  z_items : on g leaf_only = false -> ints g items = ints g num_dirs_in_tree * ipd;
  z_room : (dep * (String.length (texts g base_tree_name) + 13) + String.length (texts g name) + 16 < MAX_LEN)%nat
}.

Lemma branch_length d : (String.length (branch g d) <= String.length (texts g base_tree_name) + 13)%nat.
Proof. unfold branch. rewrite !length_sapp. assert (L := print_int_length d). unfold print_int. cbn [String.length]. lia. Qed.

Lemma forest_lengths levels path d : Forall (fun x => String.length (where_ x) <= String.length path + levels * (String.length (texts g base_tree_name) + 13))%nat (woods levels path d).
Proof.
  revert path d. induction levels as [|l IH]; intros path d; [constructor|]. cbn [forest]. apply Forall_bind, list.Forall_forall. intros i _. unfold compose. cbv zeta.
  assert (L := branch_length (d + i)). constructor; [cbn; rewrite length_sapp; lia|]. eapply Forall_impl; [|apply (IH (path +:+ branch g (d + i)) ((d + i) * b + 1))].
  intros x Hx. cbv beta in Hx. rewrite length_sapp in Hx. lia.
Qed.

Definition whole : list (nat * Z * string) := (dep, 0, "") :: woods dep "" 1.
Definition item_list : list (Z * string) := filter (fun x => visible x = true) whole ≫= items_of.

Section Sized.
Context (name : str) (Hz : sized name).

Lemma whole_numbers : number <$> whole ≡ₚ seqZ 0 (ints g num_dirs_in_tree).
Proof. rewrite (z_dirs _ Hz). apply (tree_numbers b (z_branch _ Hz)). Qed.

Lemma whole_below x : x ∈ whole -> 0 <= number x < ints g num_dirs_in_tree.
Proof. intros Hx. assert (H1 := list_elem_of_fmap_2 number _ _ Hx). rewrite whole_numbers in H1. apply elem_of_seqZ in H1. lia. Qed.

Lemma whole_paths : Forall (fun x => where_ x = dir_path b (branch g) (number x)) whole.
Proof.
  constructor; [done|]. eapply Forall_impl; [|apply (forest_paths b (z_branch _ Hz) (branch g) dep 0); lia]. by intros x [? _].
Qed.

Lemma whole_lengths : Forall (fun x => String.length (where_ x) <= dep * (String.length (texts g base_tree_name) + 13))%nat whole.
Proof. constructor; [cbn; lia|]. apply (forest_lengths dep "" 1). Qed.

Lemma whole_usable : Forall usable (woods dep "" 1).
Proof.
  apply list.Forall_forall. intros x Hx. assert (Hw : x ∈ whole) by (by right). destruct (whole_below x Hw) as [H0 H1].
  assert (Hl := proj1 (list.Forall_forall _ _) whole_lengths x Hw). cbv beta in Hl. assert (Hr := z_room _ Hz). assert (Ht := z_total _ Hz).
  assert (Hn := z_next _ Hz). rewrite (z_dirs _ Hz) in *. change (level_start b (S (S dep))) with (level_start b (S dep) * b + 1) in Hn.
  assert (Hb := z_branch _ Hz). assert (Hi := z_ipd _ Hz). split_and!; [lia|nia|nia|lia].
Qed.

Lemma items_from_root fuel dirs create collective path d : create_remove_items rank (S fuel) g 0 dirs create collective path d =
  (if negb (on g leaf_only) || ((ints g depth =? 0) && on g leaf_only) then helper rank g dirs create collective "" 0 else Done tt) ≫= fun _ =>
  if 0 <? ints g depth then create_remove_items rank fuel g (0 + 1) dirs create collective "" (d + 1) else Done tt.
Proof. done. Qed.

Lemma all_items_loop dirs create collective : all_items rank g dirs create collective = for_each item_list (act dirs create collective).
Proof.
  assert (Hd := z_depth _ Hz). assert (Hi := z_ipd _ Hz). assert (Ht := z_total _ Hz).
  assert (H1 : 1 <= ints g num_dirs_in_tree) by (rewrite (z_dirs _ Hz), level_start_next by apply (z_branch _ Hz);
    assert (0 < b ^ Z.of_nat dep) by (apply Z.pow_pos_nonneg; [assert (Hb := z_branch _ Hz)|]; lia);
    assert (0 <= level_start b dep) by apply level_start_nonneg, (z_branch _ Hz); lia).
  unfold all_items, fuel_of. replace (Z.to_nat (ints g depth + 2)) with (S (S dep)) by (unfold dep; lia).
  unfold item_list, whole. rewrite list.filter_cons, items_from_root.
  assert (Hrec : (if 0 <? ints g depth then create_remove_items rank (S dep) g (0 + 1) dirs create collective "" (0 + 1) else Done tt) =
    for_each (filter (fun x => visible x = true) (woods dep "" 1) ≫= items_of) (act dirs create collective)).
  { destruct (Z.ltb_spec 0 (ints g depth)).
    - rewrite <- (walk_items dep (S dep)) by (done || lia || apply whole_usable). f_equal; unfold dep; lia.
    - replace dep with 0%nat by (unfold dep; lia). done. }
  rewrite Hrec. replace (negb (on g leaf_only) || _) with (visible (dep, 0, "")).
  2: { unfold visible, is_leaf. cbn [fst]. unfold dep. destruct (on g leaf_only); cbn; [|done].
       rewrite andb_true_r. destruct (Z.eqb_spec (ints g depth) 0) as [->|]; [done|]. apply Nat.eqb_neq. lia. }
  destruct (visible (dep, 0, "")); [|done]. rewrite decide_True by done. rewrite bind_cons, for_each_app. f_equal.
  rewrite helper_loop by nia. done.
Qed.

(** *** The items by number *)

(** An item with the path that climbing gives it. *)
Definition placed (n : Z) : Z * string := (n, dir_path b (branch g) (Z.quot n ipd)).

(** The numbers of the items: all directories', or those of the last level. *)
Definition first_item : Z := if on g leaf_only then level_start b dep * ipd else 0.
Definition item_count : Z := if on g leaf_only then b ^ Z.of_nat dep * ipd else ints g num_dirs_in_tree * ipd.

Lemma items_placed x : 0 <= number x -> where_ x = dir_path b (branch g) (number x) -> items_of x = placed <$> seqZ (number x * ipd) ipd.
Proof.
  intros Hx Hw. unfold items_of, placed. apply list_fmap_ext. intros i n Hn. apply list_elem_of_lookup_2, elem_of_seqZ in Hn. rewrite Hw. do 2 f_equal.
  apply Z.quot_unique with (n - number x * ipd); nia.
Qed.

Lemma visible_numbers : number <$> filter (fun x => visible x = true) whole ≡ₚ
  if on g leaf_only then seqZ (level_start b dep) (b ^ Z.of_nat dep) else seqZ 0 (ints g num_dirs_in_tree).
Proof.
  destruct (on g leaf_only) eqn:E.
  - rewrite (list_filter_iff _ (fun x => is_leaf x = true)) by (intros x; unfold visible; by rewrite E). unfold whole. destruct dep as [|l]; [done|].
    rewrite filter_cons_False by done. etransitivity; [apply reflexive_eq, (leaf_numbers b (z_branch _ Hz) (branch g) l "" 0)|]. unfold below_level. by rewrite Z.mul_0_l.
  - rewrite filter_all by (apply list.Forall_forall; intros x _; unfold visible; by rewrite E). apply whole_numbers.
Qed.

Lemma ranges_from s c : 0 <= c -> (seqZ s c ≫= fun d => seqZ (d * ipd) ipd) = seqZ (s * ipd) (c * ipd).
Proof.
  intros Hc. rewrite <- ranges_joinZ by (done || apply (z_ipd _ Hz)). rewrite <- (Z.add_0_r s) at 1. rewrite <- fmap_add_seqZ, list_fmap_bind.
  apply list_bind_ext; [|done]. intros i. unfold compose. f_equal. lia.
Qed.

(** The recursion meets every item of these numbers once, at the place of its number. *)
Lemma item_list_placed : item_list ≡ₚ placed <$> seqZ first_item item_count.
Proof.
  assert (E : item_list = placed <$> ((number <$> filter (fun x => visible x = true) whole) ≫= fun d => seqZ (d * ipd) ipd)).
  { unfold item_list. rewrite list_bind_fmap, list_fmap_bind. unfold compose. assert (Hp := whole_paths). assert (Hb := whole_below).
    induction (whole) as [|x l IH]; [done|]. apply Forall_cons_1 in Hp as [Hx Hp].
    assert (Hl : (filter (fun x => visible x = true) l ≫= items_of) = (filter (fun x => visible x = true) l ≫= fun x => placed <$> seqZ (number x * ipd) ipd))
      by (apply IH; [done|intros y Hy; apply Hb; by right]). clear IH.
    rewrite list.filter_cons. destruct (decide (visible x = true)); [|done]. rewrite !bind_cons, Hl. f_equal. apply items_placed; [|done].
    apply Hb. by left. }
  rewrite E. apply fmap_Permutation. rewrite visible_numbers. unfold first_item, item_count. assert (Hb := z_branch _ Hz).
  assert (0 <= level_start b (S dep)) by (by apply level_start_nonneg).
  destruct (on g leaf_only); rewrite ranges_from; try done; [apply Z.pow_nonneg; lia|rewrite (z_dirs _ Hz); lia].
Qed.

(** *** Looking at an item *)

Lemma path_length d : 0 <= d < ints g num_dirs_in_tree -> (String.length (dir_path b (branch g) d) <= dep * (String.length (texts g base_tree_name) + 13))%nat.
Proof.
  intros Hd. assert (Hin : d ∈ number <$> whole) by (rewrite whole_numbers; by apply elem_of_seqZ; lia).
  apply list_elem_of_fmap in Hin as (x & -> & Hx). rewrite <- (proj1 (list.Forall_forall _ _) whole_paths x Hx).
  apply (proj1 (list.Forall_forall _ _) whole_lengths x Hx).
Qed.

Lemma climb_path fuel p item : 0 < p -> (Z.to_nat p <= fuel)%nat -> (String.length (dir_path b (branch g) p +:+ item) < MAX_LEN)%nat ->
  climb fuel g p item = Done (dir_path b (branch g) p +:+ item) :> P string.
Proof.
  assert (Hb := z_branch _ Hz). revert p item. induction fuel as [|fuel IH]; intros p item Hp Hf; [lia|].
  rewrite (dir_path_step b Hb (branch g) p Hp), sapp_assoc. intros Hl. cbn [climb].
  rewrite fmt_ok, bind_done by (rewrite length_sapp in Hl; lia). fold b. destruct (Z.ltb_spec b p).
  - destruct (Z.eqb_spec b 0); [lia|]. assert (1 <= Z.quot (p - 1) b) by (apply Z.quot_le_lower_bound; lia).
    assert (Z.quot (p - 1) b <= p - 1) by (apply Z.quot_le_upper_bound; nia). apply IH; [lia|lia|done].
  - by rewrite (Z.quot_small (p - 1) b), dir_path_0 by lia.
Qed.

Context {HL : DoubleLaws D}.

Lemma leaves_bound : 0 < b ^ Z.of_nat dep /\ ints g num_dirs_in_tree = level_start b dep + b ^ Z.of_nat dep /\ 0 <= level_start b dep.
Proof.
  assert (Hb := z_branch _ Hz). split_and!; [apply Z.pow_pos_nonneg; lia|by rewrite (z_dirs _ Hz), level_start_next|by apply level_start_nonneg].
Qed.

Lemma dirs_small : 1 <= ints g num_dirs_in_tree < 2 ^ 31.
Proof.
  destruct leaves_bound as (H1 & H2 & H3). assert (Hb := z_branch _ Hz). assert (Hn := z_next _ Hz). rewrite (z_dirs _ Hz) in *.
  change (level_start b (S (S dep))) with (level_start b (S dep) * b + 1) in Hn. split; nia.
Qed.

Lemma pow_leaves : dpow (of_int b) (of_int (ints g depth)) = of_int (b ^ Z.of_nat dep).
Proof.
  assert (Hd := z_depth _ Hz). replace (ints g depth) with (Z.of_nat dep) by (unfold dep; lia). destruct leaves_bound as (H1 & H2 & H3).
  assert (Hs := dirs_small). assert (Hb := z_branch _ Hz). apply pow_exact; lia.
Qed.

Lemma items_to_stat_count : items_to_stat g = Done item_count :> P Z.
Proof.
  unfold items_to_stat, leaf_items, item_count, trunc. destruct (on g leaf_only) eqn:E; [|by rewrite (z_items _ Hz E)].
  fold b. fold ipd. rewrite pow_leaves. destruct leaves_bound as (H1 & H2 & H3). assert (Hs := dirs_small). assert (Ht := z_total _ Hz). assert (Hi := z_ipd _ Hz).
  rewrite mul_exact, int_exact by nia. f_equal. lia.
Qed.

Lemma item_number k : 0 <= k < item_count -> (if on g leaf_only then
    trunc (dadd (of_int k) (dmul (of_int ipd) (dsub (of_int (ints g num_dirs_in_tree)) (dpow (of_int b) (of_int (ints g depth)))))) else Done k) = Done (first_item + k) :> P Z.
Proof.
  unfold first_item, item_count, trunc. destruct (on g leaf_only) eqn:E; intros Hk; [|f_equal; lia].
  rewrite pow_leaves. destruct leaves_bound as (H1 & H2 & H3). assert (Hs := dirs_small). assert (Ht := z_total _ Hz). assert (Hi := z_ipd _ Hz).
  rewrite sub_exact by lia. replace (ints g num_dirs_in_tree - b ^ Z.of_nat dep) with (level_start b dep) by lia.
  rewrite mul_exact, add_exact, int_exact by nia. f_equal. lia.
Qed.

(** The item number of turn [i]. *)
Definition turn (random : bool) (i k : Z) : Prop := if random then 0 <= i /\ rand_array g !! Z.to_nat i = Some k else k = i.

Definition look_at (dirs : bool) (i : Z) (x : Z * string) : P unit :=
  tell_count rank g (if dirs then "stat dir" else "stat file") i ≫= fun _ =>
  tell rank g 2 (if dirs then "stat dir" else "stat file") ≫= fun _ =>
  sys (Stat (item_path dirs x.2 (texts g name) x.1)) ≫= fun r =>
  if rc r =? -1 then fail (if dirs then "unable to stat directory" else "unable to stat file") else Done tt.

Lemma stat_item_looks random dirs i k : name = stat_name -> turn random i k -> 0 <= k < item_count ->
  stat_item rank g random dirs i = look_at dirs i (placed (first_item + k)).
Proof.
  intros Hname Hturn Hk. unfold stat_item, look_at. rewrite <- Hname.
  replace (if random then lift (c_read (rand_array g) i) else Done i) with (Done k : P Z).
  2: { unfold turn in Hturn. destruct random; [|by subst]. destruct Hturn as [Hi Hl]. unfold lift. unfold c_read. destruct (Z.leb_spec 0 i); [|lia]. by rewrite Hl. }
  rewrite bind_done. fold b ipd. rewrite item_number by done. rewrite bind_done. apply proc_bind_ext. intros _.
  destruct leaves_bound as (H1 & H2 & H3). assert (Hs := dirs_small). assert (Ht := z_total _ Hz). assert (Hi := z_ipd _ Hz). assert (Hr := z_room _ Hz).
  set (n := first_item + k). assert (Hipd : 0 < ipd) by (unfold item_count in Hk; destruct (on g leaf_only); nia).
  assert (Hn : 0 <= n < ints g num_dirs_in_tree * ipd) by (unfold n, first_item, item_count in *; destruct (on g leaf_only); nia).
  assert (Hp : 0 <= Z.quot n ipd < ints g num_dirs_in_tree) by (split; [apply Z.quot_pos; lia|apply Z.quot_lt_upper_bound; lia]).
  assert (Hl := path_length _ Hp). assert (L := print_int_length n).
  assert (Hpath : forall p, (String.length p <= dep * (String.length (texts g base_tree_name) + 13))%nat -> (String.length (item_path dirs p (texts g name) n) < MAX_LEN)%nat).
  { intros p Hlp. unfold item_path, print_int. rewrite !length_sapp. destruct dirs; cbn [String.length]; lia. }
  rewrite fmt_ok, bind_done by (apply Hpath; cbn; lia). destruct (Z.eqb_spec ipd 0); [lia|]. cbv zeta.
  replace (if 0 <? Z.quot n ipd then _ else _) with (Done (item_path dirs (placed n).2 (texts g name) n) : P string); [done|].
  unfold placed. cbn [snd]. destruct (Z.ltb_spec 0 (Z.quot n ipd)).
  - rewrite climb_path; [done|done|lia|]. apply Hpath. done.
  - replace (Z.quot n ipd) with 0 by lia. by rewrite dir_path_0.
Qed.

End Sized.
End Walks.

(** ** What a process does when all goes well *)

Module Trace.
Import Mdtest Groups.

Section Trace.
Context {C R V : Type} (oracle : C -> R).

(** The calls of a process, answered by [oracle], and its result. *)
Fixpoint trace {A} (p : proc C R V A) : list C * option A :=
  match p with
  | Done a => ([], Some a)
  | Call c k => let t := trace (k (oracle c)) in (c :: t.1, t.2)
  | Meet _ _ k => trace (k [])
  | Tell _ k => trace k
  | Hear _ | Stop _ => ([], None)
  end.

End Trace.

Section Calls.
Context {D : Type} `{Double D}.

(** Nothing fails. *)
Record obliging (oracle : call D -> answer D) : Prop := mkObliging {
  o_mkdir p : rc (oracle (Mkdir p)) <> -1;
  o_rmdir p : rc (oracle (Rmdir p)) <> -1;
  o_creat p : rc (oracle (Creat p)) <> -1;
  o_open p c : rc (oracle (Open p c)) <> -1;
  o_write fd n : rc (oracle (Write fd n)) = n;
  o_fsync fd : rc (oracle (Fsync fd)) <> -1;
  o_close fd : rc (oracle (Close fd)) <> -1;
  o_unlink p : rc (oracle (Unlink p)) <> -1;
  o_stat p : rc (oracle (Stat p)) <> -1
}.

Definition makes (c : call D) : option string := match c with Mkdir p | Creat p | Open p _ => Some p | _ => None end.
Definition looks (c : call D) : option string := match c with Stat p => Some p | _ => None end.
Definition removes (c : call D) : option string := match c with Rmdir p | Unlink p => Some p | _ => None end.

End Calls.
End Trace.

Section Traces.
Import Mdtest Groups Tree Trace.
Context {C R V : Type} (oracle : C -> R).

Lemma trace_bind {A B} (p : proc C R V A) (f : A -> proc C R V B) cs a : trace oracle p = (cs, Some a) ->
  trace oracle (p ≫= f) = (cs ++ (trace oracle (f a)).1, (trace oracle (f a)).2).
Proof.
  revert cs. induction p as [|c k IH|m v k IH|v k IH|k IH|]; cbn; intros cs E; try done.
  - injection E as <- <-. by destruct (trace oracle (f a0)).
  - injection E as <- E. rewrite (IH (oracle c) (trace oracle (k (oracle c))).1); [done|]. rewrite <- E. by destruct (trace oracle (k (oracle c))).
  - by apply IH.
  - by apply IH.
Qed.

End Traces.

Section Items.
Import Mdtest Groups Tree Trace.
Context {D : Type} `{Double D} (oracle : call D -> answer D) (Ho : obliging oracle) (rank : nat).
Abbreviation P := (proc (call D) (answer D) (value D)).

Lemma trace_each {A} (l : list A) (f : A -> P unit) (cs : A -> list (call D)) : (forall x, x ∈ l -> trace oracle (f x) = (cs x, Some tt)) ->
  trace oracle (for_each l f) = (l ≫= cs, Some tt).
Proof.
  induction l as [|x l IH]; intros Hf; [done|]. cbn [for_each]. rewrite (trace_bind oracle _ _ (cs x) tt) by (apply Hf; by left).
  rewrite IH by (intros y Hy; apply Hf; by right). done.
Qed.

(** The process ends and its calls, seen through [f], are [l]. *)
Definition shows {A} (f : call D -> option A) (p : P unit) (l : list A) : Prop := exists cs, trace oracle p = (cs, Some tt) /\ omap f cs = l.

Lemma shows_bind {A} (f : call D -> option A) p (k : unit -> P unit) l1 l2 : shows f p l1 -> shows f (k tt) l2 -> shows f (p ≫= k) (l1 ++ l2).
Proof.
  intros (c1 & E1 & <-) (c2 & E2 & <-). exists (c1 ++ c2). by rewrite (trace_bind oracle p k c1 tt E1), E2, omap_app.
Qed.

Lemma shows_each {A B} (f : call D -> option B) (l : list A) (k : A -> P unit) (h : A -> B) : (forall x, x ∈ l -> shows f (k x) [h x]) ->
  shows f (for_each l k) (h <$> l).
Proof.
  induction l as [|x l IH]; intros Hf; [by exists []|]. cbn [for_each fmap list_fmap]. apply (shows_bind f (k x) _ [h x]); [apply Hf; by left|].
  apply IH. intros y Hy. apply Hf. by right.
Qed.

Lemma shows_say {A} (f : call D -> option A) (c : bool) s : (forall t, f (Say t) = None) -> shows f (if c then say s else Done tt) [].
Proof. intros Hf. destruct c; eexists; (split; [reflexivity|]); cbn; by rewrite ?Hf. Qed.

Lemma shows_quiet {A} (f : call D -> option A) p k l : shows f p [] -> shows f (k tt) l -> shows f (p ≫= k) l.
Proof. apply (shows_bind f p k []). Qed.

Variable g : globals D.

Lemma shows_call {A} (f : call D -> option A) c msg : rc (oracle c) <> -1 ->
  shows f (sys c ≫= fun r => if rc r =? -1 then fail msg else Done tt) (match f c with Some x => [x] | None => [] end).
Proof. intros Hc. exists [c]. cbn. destruct (Z.eqb_spec (rc (oracle c)) (-1)); [done|]. cbn. split; [done|]. by destruct (f c). Qed.

Lemma shows_step {A} (f : call D -> option A) c (k : answer D -> P unit) l : shows f (k (oracle c)) l ->
  shows f (Call c k) (match f c with Some x => x :: l | None => l end).
Proof. intros (cs & E & <-). exists (c :: cs). cbn. rewrite E. split; [done|]. by destruct (f c). Qed.

(** *** One item *)

Lemma shows_opened c msg (k : Z -> P unit) l : makes c <> None -> rc (oracle c) <> -1 -> (forall fd, shows makes (k fd) l) ->
  shows makes ((sys c ≫= fun r => if rc r =? -1 then fail msg else Done (rc r)) ≫= k) (match makes c with Some x => x :: l | None => l end).
Proof.
  intros Hm Hc Hk. rewrite proc_bind_assoc. apply (shows_step makes c (fun r => (if rc r =? -1 then fail msg else Done (rc r)) ≫= k) l).
  destruct (Z.eqb_spec (rc (oracle c)) (-1)); [done|]. apply Hk.
Qed.

Lemma shows_written fd : shows makes
  ((if 0 <? ints g write_bytes then sys (Write fd (ints g write_bytes)) ≫= fun r => if rc r =? ints g write_bytes then Done tt else fail "unable to write file" else Done tt) ≫= fun _ =>
   (if on g sync_file then sys (Fsync fd) ≫= fun r => if rc r =? -1 then fail "unable to sync file" else Done tt else Done tt) ≫= fun _ =>
   sys (Close fd) ≫= fun r => if rc r =? -1 then fail "unable to close file" else Done tt) [].
Proof.
  apply shows_quiet.
  - destruct (0 <? ints g write_bytes); [|by exists []]. apply (shows_step makes (Write fd (ints g write_bytes)) _ []). rewrite (o_write _ Ho), Z.eqb_refl. by exists [].
  - apply shows_quiet; [|apply (shows_call makes), (o_close _ Ho)]. destruct (on g sync_file); [|by exists []]. apply (shows_call makes), (o_fsync _ Ho).
Qed.

Lemma shows_made dirs collective x : (String.length (item_path dirs x.2 (texts g mk_name) x.1) < MAX_LEN)%nat ->
  shows makes (act rank g dirs true collective x) [item_path dirs x.2 (texts g mk_name) x.1].
Proof.
  intros Hl. unfold act, one_collective, one_item. destruct collective, dirs.
  - rewrite fmt_ok, bind_done by done. apply shows_quiet; [by apply shows_say|]. apply (shows_call makes), (o_mkdir _ Ho).
  - rewrite fmt_ok, bind_done by done. apply shows_quiet; [by apply shows_say|].
    apply (shows_step makes (Creat (item_path false x.2 (texts g mk_name) x.1)) _ []). destruct (Z.eqb_spec (rc (oracle (Creat (item_path false x.2 (texts g mk_name) x.1)))) (-1)) as [E|_]; [by apply (o_creat _ Ho) in E|].
    apply (shows_call makes), (o_close _ Ho).
  - apply shows_quiet; [by apply shows_say|]. rewrite fmt_ok, bind_done by done. apply shows_quiet; [by apply shows_say|]. apply (shows_call makes), (o_mkdir _ Ho).
  - apply shows_quiet; [by apply shows_say|]. rewrite fmt_ok, bind_done by done. apply shows_quiet; [by apply shows_say|].
    destruct (on g collective_creates); [|destruct (on g shared_file)].
    + apply (shows_opened (Open _ false)); [done|apply (o_open _ Ho)|apply shows_written].
    + apply (shows_opened (Open _ true)); [done|apply (o_open _ Ho)|apply shows_written].
    + apply (shows_opened (Creat _)); [done|apply (o_creat _ Ho)|apply shows_written].
Qed.

Lemma shows_removed dirs collective x : on g shared_file = false -> (String.length (item_path dirs x.2 (texts g rm_name) x.1) < MAX_LEN)%nat ->
  shows removes (act rank g dirs false collective x) [item_path dirs x.2 (texts g rm_name) x.1].
Proof.
  intros Hsh Hl. unfold act, one_collective, one_item. rewrite Hsh. destruct collective, dirs.
  - rewrite fmt_ok, bind_done by done. apply shows_quiet; [by apply shows_say|]. apply (shows_call removes), (o_rmdir _ Ho).
  - rewrite fmt_ok, bind_done by done. apply shows_quiet; [by apply shows_say|]. apply (shows_call removes), (o_unlink _ Ho).
  - apply shows_quiet; [by apply shows_say|]. rewrite fmt_ok, bind_done by done. apply shows_quiet; [by apply shows_say|]. apply (shows_call removes), (o_rmdir _ Ho).
  - apply shows_quiet; [by apply shows_say|]. rewrite fmt_ok, bind_done by done. apply shows_quiet; [by apply shows_say|]. apply (shows_call removes), (o_unlink _ Ho).
Qed.

Lemma shows_looked name dirs i x : shows looks (look_at rank g name dirs i x) [item_path dirs x.2 (texts g name) x.1].
Proof.
  unfold look_at. apply shows_quiet; [by apply shows_say|]. apply shows_quiet; [by apply shows_say|]. apply (shows_call looks), (o_stat _ Ho).
Qed.

(** *** The three phases *)

Lemma item_room name dirs x : sized g name -> x ∈ item_list g -> (String.length (item_path dirs x.2 (texts g name) x.1) < MAX_LEN)%nat.
Proof.
  intros Hz Hx. unfold item_list in Hx. apply list_elem_of_bind in Hx as (y & Hx & Hy). apply list_elem_of_filter in Hy as [_ Hy].
  unfold items_of in Hx. apply list_elem_of_fmap in Hx as (n & -> & _). cbn [fst snd].
  assert (Hl := proj1 (list.Forall_forall _ _) (whole_lengths g) y Hy). cbv beta in Hl. assert (Hr := z_room _ _ Hz). assert (L := print_int_length n).
  unfold item_path, print_int. rewrite !length_sapp. destruct dirs; cbn [String.length]; lia.
Qed.

Context {HL : DoubleLaws D}.

(** The order in which mdtest_stat looks at the items. *)
Definition stat_order (random : bool) : list Z := if random then rand_array g else seqZ 0 (item_count g).

Lemma stat_shows random dirs : sized g stat_name -> (random = true -> rand_array g ≡ₚ seqZ 0 (item_count g)) ->
  shows looks (mdtest_stat rank g random dirs) ((fun k => item_path dirs (placed g (first_item g + k)).2 (texts g stat_name) (first_item g + k)) <$> stat_order random).
Proof.
  intros Hz Hr. unfold mdtest_stat. rewrite (items_to_stat_count g stat_name Hz), bind_done. unfold upto.
  assert (Hlen : random = true -> length (rand_array g) = Z.to_nat (item_count g)) by (intros E; by rewrite (Hr E), length_seqZ).
  assert (Hturn : forall i, 0 <= i < item_count g -> exists k, turn g random i k /\ 0 <= k < item_count g /\ stat_order random !! Z.to_nat i = Some k).
  { intros i Hi. unfold turn, stat_order. destruct random.
    - destruct (lookup_lt_is_Some_2 (rand_array g) (Z.to_nat i)) as [k Hk]; [rewrite Hlen by done; lia|]. exists k. split_and!; try done; [lia| |];
        assert (Hin := list_elem_of_lookup_2 _ _ _ Hk); rewrite (Hr eq_refl) in Hin; apply elem_of_seqZ in Hin; lia.
    - exists i. split_and!; [done|lia|lia|]. rewrite lookup_seqZ_lt by lia. f_equal. lia. }
  replace (_ <$> stat_order random) with ((fun i => item_path dirs (placed g (first_item g + default 0 (stat_order random !! Z.to_nat i))).2 (texts g stat_name) (first_item g + default 0 (stat_order random !! Z.to_nat i))) <$> seqZ 0 (item_count g)).
  - apply shows_each. intros i [Hi0 Hi1]%elem_of_seqZ. destruct (Hturn i ltac:(lia)) as (k & Hk & Hkc & ->).
    rewrite (stat_item_looks rank g stat_name Hz random dirs i k) by done. apply (shows_looked stat_name dirs i (placed g (first_item g + k))).
  - apply list_eq. intros j. rewrite !list_lookup_fmap. destruct (decide (Z.of_nat j < item_count g)).
    + rewrite lookup_seqZ_lt, Z.add_0_l by done. destruct (Hturn (Z.of_nat j) ltac:(lia)) as (k & _ & _ & Hk). rewrite Nat2Z.id in Hk.
      rewrite Hk. cbn [fmap option_fmap option_map]. by rewrite Nat2Z.id, Hk.
    + rewrite lookup_seqZ_ge by lia. symmetry. cbn. unfold stat_order. destruct random; [rewrite lookup_ge_None_2; [done|]; rewrite Hlen by done; lia|]. by rewrite lookup_seqZ_ge by lia.
Qed.

End Items.

Section Phases.
Import Mdtest Groups Tree Trace.


End Phases.

(** ** The tree of directories *)

Module Order.
Import Tree.

Section Order.
Variable b : Z.
Variable name : Z -> string.

(** The directories below one, each after the ones below it: the order of removal. *)
Fixpoint forest_post (levels : nat) (path : string) (dirNum : Z) : list (nat * Z * string) :=
  match levels with
  | O => []
  | S l => seqZ 0 b ≫= fun i => let d := dirNum + i in forest_post l (path +:+ name d) (d * b + 1) ++ [(l, d, path +:+ name d)]
  end.

(** Directory [y] has [x] as a child. *)
Definition parent_of (x y : nat * Z * string) : Prop := number y = Z.quot (number x - 1) b /\ where_ x = where_ y +:+ name (number x).

(** Every directory of the list has its parent before it, in the list or among [seen]. *)
Fixpoint parents_first (seen l : list (nat * Z * string)) : Prop :=
  match l with [] => True | x :: l' => (exists y, y ∈ seen /\ parent_of x y) /\ parents_first (x :: seen) l' end.

End Order.
End Order.

Section Ordering.
Import Tree Order.
Variable b : Z.
Hypothesis Hb : 1 <= b.
Variable name : Z -> string.
Local Abbreviation parents_first := (parents_first b name).

Lemma parents_first_mono l seen seen' : (forall x, x ∈ seen -> x ∈ seen') -> parents_first seen l -> parents_first seen' l.
Proof.
  revert seen seen'. induction l as [|x l IH]; intros seen seen' Hs; [done|]. intros [(y & Hy & Hp) Hl]. split; [exists y; auto|].
  eapply IH; [|exact Hl]. intros z Hz. apply list.elem_of_cons in Hz as [->|Hz]; [by left|right; auto].
Qed.

Lemma parents_first_app l1 l2 seen : parents_first seen l1 -> parents_first seen l2 -> parents_first seen (l1 ++ l2).
Proof.
  revert seen. induction l1 as [|x l1 IH]; intros seen; [done|]. intros [Hx H1] H2. split; [done|]. apply IH; [done|].
  eapply parents_first_mono; [|exact H2]. intros z Hz. by right.
Qed.

Lemma parents_first_bind {A} (l : list A) f seen : (forall x, x ∈ l -> parents_first seen (f x)) -> parents_first seen (l ≫= f).
Proof.
  induction l as [|x l IH]; intros Hf; [done|]. rewrite bind_cons. apply parents_first_app; [apply Hf; by left|]. apply IH. intros y Hy. apply Hf. by right.
Qed.

Lemma child_of q i l l' path : 0 <= q -> 0 <= i < b -> parent_of b name (l, q * b + 1 + i, path +:+ name (q * b + 1 + i)) (l', q, path).
Proof.
  intros Hq Hi. split; [|done]. cbn [number fst snd]. replace (q * b + 1 + i - 1) with (i + q * b) by lia.
  rewrite Z.quot_div_nonneg, Z.div_add, Z.div_small by nia. lia.
Qed.

Lemma forest_parents levels path q l' : 0 <= q -> parents_first [(l', q, path)] (forest b name levels path (q * b + 1)).
Proof.
  revert path q l'. induction levels as [|l IH]; intros path q l' Hq; [done|]. rewrite forest_cons. apply parents_first_bind.
  intros i [Hi0 Hi1]%elem_of_seqZ. split.
  - exists (l', q, path). split; [by left|]. apply child_of; lia.
  - eapply parents_first_mono; [|apply (IH _ _ l); nia]. intros z Hz. apply list_elem_of_singleton in Hz as ->. by left.
Qed.

(** Backwards, the order of removal has parents before children as well. *)
Lemma forest_post_parents levels path q l' : 0 <= q -> parents_first [(l', q, path)] (reverse (forest_post b name levels path (q * b + 1))).
Proof.
  revert path q l'. induction levels as [|l IH]; intros path q l' Hq; [done|]. cbn [forest_post].
  assert (H : forall js, (forall i, i ∈ js -> 0 <= i < b) -> parents_first [(l', q, path)] (reverse (js ≫= fun i => let d := q * b + 1 + i in forest_post b name l (path +:+ name d) (d * b + 1) ++ [(l, d, path +:+ name d)]))).
  { induction js as [|i js IHi]; intros His; [done|]. rewrite bind_cons, reverse_app. apply parents_first_app; [apply IHi; intros j Hj; apply His; by right|].
    cbv zeta. rewrite reverse_app. cbn [reverse rev_append app]. assert (Hi := His i ltac:(by left)). split.
    - exists (l', q, path). split; [by left|]. by apply child_of.
    - eapply parents_first_mono; [|apply (IH _ _ l); nia]. intros z Hz. apply list_elem_of_singleton in Hz as ->. by left. }
  apply H. intros i Hi. apply elem_of_seqZ in Hi. lia.
Qed.

Lemma forest_post_perm levels path dirNum : forest_post b name levels path dirNum ≡ₚ forest b name levels path dirNum.
Proof.
  revert path dirNum. induction levels as [|l IH]; intros path dirNum; [done|]. rewrite forest_cons. cbn [forest_post]. apply bind_Permutation_ext.
  intros i. cbv zeta. rewrite Permutation_app_comm. cbn. constructor. apply IH.
Qed.

End Ordering.

Section Building.
Import Mdtest Groups Tree Order Trace.
Context {D : Type} `{Double D} (rank : nat) (g : globals D).
Abbreviation P := (proc (call D) (answer D) (value D)).
Let b := ints g branch_factor.
Let dep := Z.to_nat (ints g depth).
Local Abbreviation woods := (forest b (branch g)).
Local Abbreviation woods_post := (forest_post b (branch g)).

Definition make_dir (p : string) : P unit :=
  tell rank g 2 "making" ≫= fun _ => sys (Mkdir p) ≫= fun r => if rc r =? -1 then fail "Unable to create directory" else Done tt.
Definition remove_dir (p : string) : P unit :=
  tell rank g 2 "remove" ≫= fun _ => sys (Rmdir p) ≫= fun r => if rc r =? -1 then fail "Unable to remove directory" else Done tt.

Definition nameable (x : nat * Z * string) : Prop := 0 <= number x /\ number x * b + 1 < 2 ^ 31 /\ (String.length (where_ x) < MAX_LEN)%nat.

Lemma proc_bind_unit (p : P unit) : p ≫= (fun _ => Done tt) = p.
Proof. rewrite <- (proc_bind_done p) at 2. apply proc_bind_ext. by intros []. Qed.

(** One directory of the loop and the tree below it. *)
Definition one_branch (create : bool) (l : nat) (path : string) (d : Z) : list (nat * Z * string) :=
  if create then (l, d, path +:+ branch g d) :: woods l (path +:+ branch g d) (d * b + 1)
  else woods_post l (path +:+ branch g d) (d * b + 1) ++ [(l, d, path +:+ branch g d)].
Definition branches (create : bool) (levels : nat) (path : string) (dirNum : Z) : list (nat * Z * string) :=
  if create then woods levels path dirNum else woods_post levels path dirNum.
Definition on_dir (create : bool) (x : nat * Z * string) : P unit := if create then make_dir (where_ x) else remove_dir (where_ x).

Lemma branches_cons create l path dirNum : branches create (S l) path dirNum = seqZ 0 b ≫= fun i => one_branch create l path (dirNum + i).
Proof. by destruct create. Qed.

Lemma walk_tree create levels fuel path dirNum : 0 <= ints g depth -> (levels < fuel)%nat -> (levels <= dep)%nat -> Forall nameable (woods levels path dirNum) ->
  create_remove_directory_tree rank fuel g create (ints g depth - Z.of_nat levels + 1) path dirNum = for_each (branches create levels path dirNum) (on_dir create).
Proof.
  intros Hd. revert fuel path dirNum. induction levels as [|l IH]; intros [|fuel] path dirNum Hf Hl Hu; try lia; cbn [create_remove_directory_tree]; cbv zeta.
  - destruct (Z.eqb_spec (ints g depth - Z.of_nat 0 + 1) 0); [lia|]. destruct (Z.leb_spec (ints g depth - Z.of_nat 0 + 1) (ints g depth)); [lia|]. by destruct create.
  - destruct (Z.eqb_spec (ints g depth - Z.of_nat (S l) + 1) 0); [lia|].
    destruct (Z.leb_spec (ints g depth - Z.of_nat (S l) + 1) (ints g depth)); [|lia]. rewrite forest_cons in Hu. rewrite branches_cons, for_each_bind.
    apply for_each_ext. intros i Hin. assert (Hib := Hin). apply elem_of_seqZ in Hib.
    assert (Hx := proj1 (list.Forall_forall _ _) (proj1 (Forall_bind _ _ _) Hu) i Hin). unfold compose in Hx.
    apply Forall_cons_1 in Hx as [(Hx0 & Hx1 & Hx2) Hxs]. cbn [number where_ fst snd] in Hx0, Hx1, Hx2.
    rewrite int_ok, bind_done by nia. rewrite (branch_le g path), bind_done, fmt_ok, bind_done by done. fold b.
    rewrite (int_ok (b * (dirNum + i))) by nia. rewrite bind_done, (int_ok (b * (dirNum + i) + 1)), bind_done by nia.
    replace (ints g depth - Z.of_nat (S l) + 1 + 1) with (ints g depth - Z.of_nat l + 1) by lia.
    replace (b * (dirNum + i) + 1) with ((dirNum + i) * b + 1) by lia. rewrite (IH fuel) by (done || lia). destruct create; cbn [one_branch branches].
    + rewrite proc_bind_unit. done.
    + rewrite bind_done, for_each_app. apply proc_bind_ext. intros _. cbn [for_each]. by rewrite proc_bind_unit.
Qed.

(** The tree with its root. *)
Definition tree_list (create : bool) : list (nat * Z * string) :=
  let root := (dep, 0, branch g 0) in if create then root :: woods dep (branch g 0) 1 else woods_post dep (branch g 0) 1 ++ [root].

Lemma tree_loop create : 0 <= ints g depth -> (String.length (branch g 0) < MAX_LEN)%nat -> Forall nameable (woods dep (branch g 0) 1) ->
  whole_tree rank g create = for_each (tree_list create) (on_dir create).
Proof.
  intros Hd Hl Hn. unfold whole_tree, fuel_of. replace (Z.to_nat (ints g depth + 2)) with (S (S dep)) by (unfold dep; lia).
  transitivity (fmt (branch g 0) ≫= fun dir => (if create then make_dir dir else Done tt) ≫= fun _ =>
    create_remove_directory_tree rank (S dep) g create (0 + 1) dir (0 + 1) ≫= fun _ => if create then Done tt else remove_dir dir); [done|].
  rewrite fmt_ok, bind_done by done.
  assert (E : create_remove_directory_tree rank (S dep) g create (0 + 1) (branch g 0) (0 + 1) = for_each (branches create dep (branch g 0) 1) (on_dir create))
    by (rewrite <- (walk_tree create dep (S dep)) by (done || lia); f_equal; unfold dep; lia).
  rewrite E. unfold tree_list. cbv zeta. destruct create; cbn [branches].
  - by rewrite proc_bind_unit.
  - rewrite bind_done, for_each_app. apply proc_bind_ext. intros _. cbn [for_each]. by rewrite proc_bind_unit.
Qed.

End Building.

Section Counting.
Import Mdtest Groups Tree.
Context {D : Type} `{DoubleLaws D}.
Abbreviation P := (proc (call D) (answer D) (value D)).

Lemma level_start_one k : level_start 1 k = Z.of_nat k.
Proof. induction k as [|k IH]; [done|]. cbn [level_start]. rewrite IH. lia. Qed.

(** The closed form that main evaluates in doubles is the number of directories. *)
Lemma count_dirs_exact (g : globals D) : 0 <= ints g depth -> 1 <= ints g branch_factor ->
  level_start (ints g branch_factor) (S (S (Z.to_nat (ints g depth)))) < 2 ^ 31 ->
  count_dirs g = Done (level_start (ints g branch_factor) (S (Z.to_nat (ints g depth)))) :> P Z.
Proof.
  intros Hd Hb Hs. unfold count_dirs. set (b := ints g branch_factor) in *. set (d := ints g depth) in *.
  assert (Hp := level_start_next b (S (Z.to_nat d))). assert (Hnn := level_start_nonneg b Hb (S (Z.to_nat d))).
  assert (Hpow : 0 < b ^ Z.of_nat (S (Z.to_nat d))) by (apply Z.pow_pos_nonneg; lia).
  destruct (Z.leb_spec d 0). { replace d with 0 by lia. done. }
  assert (Hbig : d + 1 < 2 ^ 31).
  { assert (Z.of_nat (S (Z.to_nat d)) <= level_start b (S (Z.to_nat d))); [|lia]. rewrite <- level_start_one.
    clear -Hb. induction (S (Z.to_nat d)) as [|k IH]; [done|]. cbn [level_start]. assert (0 <= level_start 1 k) by (apply level_start_nonneg; lia). nia. }
  destruct (Z.ltb_spec b 1); [lia|]. destruct (Z.eqb_spec b 1) as [E|].
  - rewrite E, level_start_one, int_ok by lia. f_equal. lia.
  - rewrite int_ok, bind_done by lia. replace (d + 1) with (Z.of_nat (S (Z.to_nat d))) by lia.
    assert (Heq := level_start_eq b Hb (S (Z.to_nat d))). unfold trunc. rewrite pow_exact, sub_exact, div_trunc; try lia.
    + f_equal. symmetry. replace (1 - b ^ Z.of_nat (S (Z.to_nat d))) with (level_start b (S (Z.to_nat d)) * (1 - b)) by lia. by rewrite Z.quot_mul by lia.
    + assert (b <= level_start b (S (Z.to_nat d))); [|lia]. destruct (Z.to_nat d) as [|k] eqn:E; [lia|]. cbn [level_start].
      assert (0 <= level_start b k) by (by apply level_start_nonneg). nia.
    + replace (1 - b ^ Z.of_nat (S (Z.to_nat d))) with (level_start b (S (Z.to_nat d)) * (1 - b)) by lia. rewrite Z.quot_mul by lia. lia.
Qed.

(** The counts of main meet what the walks need. *)
Lemma count_items_sized (g : globals D) name : 0 <= ints g depth -> 1 <= ints g branch_factor -> 0 <= ints g items < 2 ^ 31 -> 0 <= ints g items_per_dir ->
  level_start (ints g branch_factor) (S (S (Z.to_nat (ints g depth)))) < 2 ^ 31 ->
  (Z.to_nat (ints g depth) * (String.length (texts g base_tree_name) + 13) + String.length (texts g name) + 16 < MAX_LEN)%nat ->
  level_start (ints g branch_factor) (S (Z.to_nat (ints g depth))) * Z.max (ints g items_per_dir) (ints g items) < 2 ^ 31 ->
  exists g', count_items g = Done g' :> P (globals D) /\ sized g' name.
Proof.
  intros Hd Hb Hi Hp Hs Hr Ht. unfold count_items. rewrite count_dirs_exact by done. rewrite bind_done. cbv zeta.
  set (n := level_start (ints g branch_factor) (S (Z.to_nat (ints g depth)))) in *.
  assert (Hn : 1 <= n) by (unfold n; cbn [level_start]; assert (0 <= level_start (ints g branch_factor) (Z.to_nat (ints g depth))) by (by apply level_start_nonneg); nia).
  change (ints (set num_dirs_in_tree n g) items_per_dir) with (ints g items_per_dir). change (ints (set num_dirs_in_tree n g) items) with (ints g items).
  change (on (set num_dirs_in_tree n g) leaf_only) with (on g leaf_only). change (ints (set num_dirs_in_tree n g) branch_factor) with (ints g branch_factor).
  change (ints (set num_dirs_in_tree n g) depth) with (ints g depth).
  destruct (Z.ltb_spec 0 (ints g items_per_dir)).
  { rewrite int_ok, bind_done by nia. eexists. split; [done|]. split; try done. { change (n * ints g items_per_dir < 2 ^ 31). nia. }
    intros _. change (ints g items_per_dir * n = n * ints g items_per_dir). lia. }
  assert (Hz : ints g items_per_dir = 0) by lia. destruct (on g leaf_only) eqn:El.
  - destruct (Z.leb_spec (ints g branch_factor) 1).
    + eexists. split; [done|]. split; try done; [|change (n * ints g items < 2 ^ 31); nia|by change (on g leaf_only = false -> ints g items = n * ints g items); rewrite El].
      change (0 <= ints g items). lia.
    + set (w := ints g branch_factor ^ Z.of_nat (Z.to_nat (ints g depth))).
      assert (Hw : 0 < w) by (apply Z.pow_pos_nonneg; lia). assert (Hnw : n = level_start (ints g branch_factor) (Z.to_nat (ints g depth)) + w) by apply level_start_next.
      assert (H0' := level_start_nonneg _ Hb (Z.to_nat (ints g depth))). assert (Hn31 : n < 2 ^ 31) by (unfold n; cbn [level_start] in Hs |- *; nia).
      assert (Epow : dpow (of_int (ints g branch_factor)) (of_int (ints g depth)) = of_int w).
      { rewrite pow_exact; [unfold w; do 2 f_equal; lia|lia|lia|]. replace (ints g depth) with (Z.of_nat (Z.to_nat (ints g depth))) by lia. fold w. lia. }
      unfold trunc. rewrite Epow. assert (Hq : 0 <= Z.quot (ints g items) w <= ints g items)
        by (split; [apply Z.quot_pos; lia|apply Z.quot_le_upper_bound; nia]).
      assert (Hqw : Z.quot (ints g items) w * w <= ints g items) by (rewrite Z.mul_comm; apply Z.mul_quot_le; lia).
      rewrite div_trunc, bind_done by lia. rewrite mul_exact, int_exact, bind_done by nia. eexists. split; [done|].
      split; try done; [exact (proj1 Hq)| |by change (on g leaf_only = false -> Z.quot (ints g items) w * w = n * Z.quot (ints g items) w); rewrite El].
      change (n * Z.quot (ints g items) w < 2 ^ 31). nia.
  - destruct (Z.eqb_spec n 0); [lia|]. assert (Hq : 0 <= Z.quot (ints g items) n <= ints g items)
      by (split; [apply Z.quot_pos; lia|apply Z.quot_le_upper_bound; nia]).
    rewrite int_ok, bind_done by nia. eexists. split; [done|]. split; try done; [exact (proj1 Hq)| |].
    + change (n * Z.quot (ints g items) n < 2 ^ 31). nia.
    + intros _. change (Z.quot (ints g items) n * n = n * Z.quot (ints g items) n). lia.
Qed.

(** Whatever the random numbers, the shuffle only changes the order. *)
Lemma shuffle_permutes n l : yields (fun l' => l' ≡ₚ l) (shuffle n l : P (list Z)).
Proof.
  revert l. induction n as [|n IH]; intros l; [cbn; reflexivity|]. cbn [shuffle]. apply (yields_bind (fun _ => True)); [done|]. intros r _. cbv zeta.
  set (k := Z.rem (rc r) (Z.of_nat (S n) + 1)). unfold lift.
  destruct (c_read l k) as [x|] eqn:Ex; [|done]. rewrite bind_done. destruct (c_read l (Z.of_nat (S n))) as [y|] eqn:Ey; [|done]. rewrite bind_done.
  destruct (c_write l k y) as [l1|] eqn:E1; [|done]. rewrite bind_done. destruct (c_write l1 (Z.of_nat (S n)) x) as [l2|] eqn:E2; [|done]. rewrite bind_done.
  assert (Hp : l2 ≡ₚ l).
  { apply c_read_inv in Ex as [_ Ex]. apply c_read_inv in Ey as [_ Ey]. apply c_write_inv in E1 as (_ & ->). apply c_write_inv in E2 as (_ & ->).
    by apply Permutation_insert_swap. }
  rewrite <- proc_bind_done. eapply yields_bind; [apply IH|]. intros l' Hl'. cbn. by rewrite Hl'.
Qed.

End Counting.

Section Directories.
Import Mdtest Groups Tree Order Trace.

(** C34 The tree of directories.  For every depth and branching whose numbers fit an int and
    whose names fit the buffers, and when no call fails: the recursion makes each directory once
    and after its parent, and removes the same directories, each after all that it contains; they
    are numbered without gaps from the root 0, and their number is the one that main computes
    from the closed form of the geometric series. *)
Theorem tree_made_and_removed {D} `{DoubleLaws D} (oracle : call D -> answer D) rank g : obliging oracle ->
  let b := ints g branch_factor in let dep := Z.to_nat (ints g depth) in
  0 <= ints g depth -> 1 <= b -> level_start b (S (S dep)) < 2 ^ 31 -> (S dep * (String.length (texts g base_tree_name) + 13) < MAX_LEN)%nat ->
  exists root made removed,
    shows oracle makes (whole_tree rank g true) (where_ <$> root :: made) /\
    shows oracle removes (whole_tree rank g false) (where_ <$> reverse (root :: removed)) /\
    removed ≡ₚ made /\ parents_first b (branch g) [root] made /\ parents_first b (branch g) [root] removed /\
    number root = 0 /\ number <$> root :: made ≡ₚ seqZ 0 (level_start b (S dep)) /\
    count_dirs g = Done (Z.of_nat (length (root :: made))) :> proc (call D) (answer D) (value D) Z.
Proof.
  intros Ho b dep Hd Hb Hs Hroom. assert (Hnum := tree_numbers b Hb (branch g) dep (branch g 0)). assert (L0 := branch_length g 0).
  assert (Hname : Forall (nameable g) (forest b (branch g) dep (branch g 0) 1)).
  { apply list.Forall_forall. intros x Hx. assert (Hin : number x ∈ 0 :: (number <$> forest b (branch g) dep (branch g 0) 1)) by (right; by apply list_elem_of_fmap_2).
    rewrite Hnum in Hin. apply elem_of_seqZ in Hin. assert (Hl := proj1 (list.Forall_forall _ _) (forest_lengths g dep (branch g 0) 1) x Hx). cbv beta in Hl.
    change (level_start b (S (S dep))) with (level_start b (S dep) * b + 1) in Hs. split_and!; [lia|fold b; nia|lia]. }
  assert (Hlen : length ((dep, 0, branch g 0) :: forest b (branch g) dep (branch g 0) 1) = Z.to_nat (level_start b (S dep))).
  { rewrite <- (length_seqZ 0), <- Hnum. cbn [length]. by rewrite length_fmap. }
  exists (dep, 0, branch g 0), (forest b (branch g) dep (branch g 0) 1), (reverse (forest_post b (branch g) dep (branch g 0) 1)). split_and!.
  - rewrite (tree_loop rank g true) by (done || lia). apply shows_each. intros x _. apply shows_quiet; [by apply shows_say|]. apply (shows_call oracle makes), (o_mkdir _ Ho).
  - rewrite reverse_cons, reverse_involutive. rewrite (tree_loop rank g false) by (done || lia). apply shows_each. intros x _.
    apply shows_quiet; [by apply shows_say|]. apply (shows_call oracle removes), (o_rmdir _ Ho).
  - rewrite reverse_Permutation. by apply forest_post_perm.
  - apply (forest_parents b Hb (branch g) dep (branch g 0) 0). lia.
  - apply (forest_post_parents b Hb (branch g) dep (branch g 0) 0). lia.
  - done.
  - done.
  - rewrite (count_dirs_exact g) by done. fold b dep. rewrite Hlen, Z2Nat.id by (by apply level_start_nonneg). done.
Qed.

End Directories.

(** ** An instance *)

(** Doubles as integers, with truncated quotients and roots. *)
Module Integers.
Import Mdtest Groups Tree Trace.

#[export] Instance integers : Double Z :=
  mkDouble Z (fun z => z) (fun z => if (- 2 ^ 31 <=? z) && (z <? 2 ^ 31) then Some z else None)
    Z.add Z.sub Z.mul Z.quot Z.pow Z.sqrt Z.ltb.

#[export] Instance integers_exact : DoubleLaws Z.
Proof.
  assert (Hint : forall z, - 2 ^ 31 <= z < 2 ^ 31 -> to_int (of_int z) = Some z).
  { intros z Hz. cbn -[Z.pow]. destruct (Z.leb_spec (- 2 ^ 31) z); [|lia]. by destruct (Z.ltb_spec z (2 ^ 31)); [|lia]. }
  split; [done|done|done|done|done|]. intros x y _ _ _. by apply Hint.
Qed.

(** Every call succeeds. *)
Definition easy (c : call Z) : answer Z := mkAnswer (match c with Write _ n => n | _ => 3 end) "" 0.

Lemma easy_obliging : obliging easy.
Proof. by split. Qed.

(** Three items in each of the seven directories of a tree. *)
Definition example : globals Z :=
  set branch_factor 2 (set depth 2 (set items_per_dir 3 (set num_dirs_in_tree 7 (set items 21
    (write base_tree_name "mdtest_tree" (write mk_name "mdtest.0." (write stat_name "mdtest.1." (write rm_name "mdtest.2." initial)))))))).

Lemma example_sized name : (String.length (texts example name) <= 20)%nat -> sized example name.
Proof. intros Hl. split; try (vm_compute; done); try (vm_compute; congruence). change (2 * (11 + 13) + String.length (texts example name) + 16 < MAX_LEN)%nat. change MAX_LEN with (Z.to_nat 1024). lia. Qed.


(** The last item is in directory 6, below directory 2. *)
Example last_item : omap looks (trace easy (mdtest_stat 1 example false true)).1 !! 20%nat = Some "mdtest_tree.2/mdtest_tree.6/dir.mdtest.1.20".
Proof. vm_compute. reflexivity. Qed.

Lemma tree_made_and_removed_witness : exists root made removed,
    shows easy makes (whole_tree 0 example true) (where_ <$> root :: made) /\
    shows easy removes (whole_tree 0 example false) (where_ <$> reverse (root :: removed)) /\
    removed ≡ₚ made /\ Order.parents_first 2 (branch example) [root] made /\ Order.parents_first 2 (branch example) [root] removed /\
    number root = 0 /\ number <$> root :: made ≡ₚ seqZ 0 7 /\
    count_dirs example = Done (Z.of_nat (length (root :: made))) :> proc (call Z) (answer Z) (value Z) Z.
Proof.
  apply (tree_made_and_removed easy 0 example).
  - apply easy_obliging.
  - vm_compute. congruence.
  - vm_compute. congruence.
  - vm_compute. reflexivity.
  - apply Nat.ltb_lt. reflexivity.
Defined.

End Integers.
