(* ===== verification/MdtestRuns.v ===== *)
(** * Runs of the metadata benchmark

    The processes of mdtest meet at barriers of all of them and of the first so many, and in two
    broadcasts and a gathering.  [Meetings] computes, from the arguments alone, the meetings of a
    run; every process attends those it belongs to, in this order, whatever the system answers.
    So no schedule ends with a process that waits ([mdtest_never_deadlocks]).  With -c and -u
    together rank 0 overwrites its number of tasks and is out of step with the others
    ([collective_unique_overwrites]). *)

From Stdlib Require Import Ascii.
From S2P Require Import Prelude Names ConnProps Startup ThreadTest Mpi Groups Mdtest MdtestTree.

#[local] Open Scope string_scope.
#[local] Open Scope list_scope.
#[local] Open Scope Z_scope.

Module Meetings.
Import Mdtest Groups.

Section Meetings.
Context {D : Type} `{Double D} (n : nat).
Implicit Types g : globals D.

Definition when {A} (c : bool) (l : list A) : list A := if c then l else [].

Definition dir_meetings g (m : nat) : list nat :=
  [m] ++ when (on g create_only) (when (on g unique_dir_per_task) [m]) ++ when (on g barriers) [m] ++ when (on g barriers) [m] ++ when (on g barriers) [m].

Definition file_meetings g (m : nat) : list nat :=
  [m] ++ when (on g create_only) (when (on g unique_dir_per_task) [m] ++ when (on g collective_creates) [m]) ++
  when (on g barriers) [m] ++ when (on g barriers) [m] ++ when (on g barriers) [m].

Definition test_meetings g (m : nat) : list nat :=
  when (on g dirs_only && negb (on g shared_file)) (when (on g pre_delay) [m] ++ dir_meetings g m) ++
  when (on g files_only) (when (on g pre_delay) [m] ++ file_meetings g m).

Definition iteration_meetings g (m : nat) : list nat :=
  [n] ++ [n] ++ when (on g create_only) [n] ++ test_meetings g m ++ [n] ++ when (on g remove_only) [n].

Definition task_meetings g (its : nat) (m : nat) : list nat :=
  [n] ++ concat (replicate its (iteration_meetings g m)) ++ [n; n].

Fixpoint loop_meetings (fuel : nat) g (m : settings) (i : Z) : list nat :=
  match fuel with
  | O => []
  | S fuel' =>
      if (i <=? last m) && (i <=? Z.of_nat n) then
        if i <? 1 then [] else
        task_meetings g (Z.to_nat (iterations m)) (Z.to_nat i) ++
        match c_int ((if (i =? 1) && (1 <? stride m) then 0 else i) + stride m) with
        | Ret i' => loop_meetings fuel' g m i'
        | Crash _ => []
        end
      else []
  end.

(** The variables that decide where the processes meet. *)
Definition flag (x : var) : bool :=
  match x with
  | barriers | create_only | stat_only | remove_only | branch_factor | depth | shared_file | files_only | dirs_only | pre_delay
  | unique_dir_per_task | collective_creates => true
  | _ => false
  end.

(** The options, read without asking the system; [None] when the help is printed. *)
Definition read_option (c : ascii) (optarg : option string) (g : globals D) (m : settings) : option (globals D * settings) :=
  let k := Startup.atoi (default "" optarg) in
  match c with
  | "b" => Some (set branch_factor k g, m)
  | "B" => Some (set barriers 0 g, m)
  | "c" => Some (set collective_creates 1 g, m)
  | "C" => Some (set create_only 1 g, m)
  | "D" => Some (set dirs_only 1 g, m)
  | "f" => Some (g, mkSettings k (last m) (stride m) (iterations m))
  | "F" => Some (set files_only 1 g, m)
  | "h" => None
  | "i" => Some (g, mkSettings (first m) (last m) (stride m) k)
  | "l" => Some (g, mkSettings (first m) k (stride m) (iterations m))
  | "p" => Some (set pre_delay k g, m)
  | "r" => Some (set remove_only 1 g, m)
  | "s" => Some (g, mkSettings (first m) (last m) k (iterations m))
  | "S" => Some (set shared_file 1 g, m)
  | "T" => Some (set stat_only 1 g, m)
  | "u" => Some (set unique_dir_per_task 1 g, m)
  | "z" => Some (set depth k g, m)
  | _ => Some (g, m)
  end%char.

Fixpoint read_options (args : list (ascii * option string)) (g : globals D) (m : settings) : option (globals D * settings) :=
  match args with
  | [] => Some (g, m)
  | (c, optarg) :: args' => match read_option c optarg g m with None => None | Some (g, m) => read_options args' g m end
  end.

(** The seed of a random order is agreed on. *)
Fixpoint option_meetings (args : list (ascii * option string)) : list nat :=
  match args with
  | [] => []
  | (c, optarg) :: args' =>
      if decide (c = "h"%char) then [] else
      when (bool_decide (c = "R"%char) && bool_decide (optarg = None)) [n; n] ++ option_meetings args'
  end.

Definition final_settings (m : settings) : settings :=
  if last m =? 0 then mkSettings (Z.of_nat n) (Z.of_nat n) (stride m) (iterations m) else m.

Definition main_meetings (fuel : nat) (args : list (ascii * option string)) : list nat :=
  [n] ++ option_meetings args ++
  match read_options args initial default_settings with
  | None => []
  | Some (g, m) => let m := final_settings m in loop_meetings fuel (both_kinds (all_phases g)) m (first m)
  end.

End Meetings.
End Meetings.

(** ** What a process attends *)

Section Attending.
Import Mdtest Groups Meetings.
Context {D : Type} `{Double D} (rank n : nat) (Hrank : (rank < n)%nat).
Abbreviation P := (proc (call D) (answer D) (value D)).
Implicit Types (g : globals D).

Definition no_fuel (s : Mpi.stop) : Prop := s <> Mpi.Faulty NoFuel.

(** The process attends the meetings [ms] and then it is done. *)
Definition goes {A} (ms : list nat) (p : P A) : Prop := forall rest, follows no_fuel (attends rank ms ++ rest) p rest.

Lemma attends_app ms ms' : attends rank (ms ++ ms') = attends rank ms ++ attends rank ms'.
Proof. unfold attends. by rewrite list.filter_app, fmap_app. Qed.

Lemma goes_bind {A B} ms ms' (p : P A) (f : A -> P B) : goes ms p -> (forall a, goes ms' (f a)) -> goes (ms ++ ms') (p ≫= f).
Proof. intros Hp Hf rest. rewrite attends_app, <- app_assoc. eapply follows_bind; [apply Hp|intros a; apply Hf]. Qed.

Lemma goes_yields {A B} (Q : A -> Prop) ms ms' (p : P A) (f : A -> P B) : goes ms p -> yields Q p -> (forall a, Q a -> goes ms' (f a)) -> goes (ms ++ ms') (p ≫= f).
Proof. intros Hp HQ Hf rest. rewrite attends_app, <- app_assoc. eapply follows_bind_yields; [apply Hp|exact HQ|intros a Ha; by apply Hf]. Qed.

Lemma quiet_bind {A B} ms (p : P A) (f : A -> P B) : goes [] p -> (forall a, goes ms (f a)) -> goes ms (p ≫= f).
Proof. apply (goes_bind []). Qed.

Lemma quiet_yields {A B} (Q : A -> Prop) ms (p : P A) (f : A -> P B) : goes [] p -> yields Q p -> (forall a, Q a -> goes ms (f a)) -> goes ms (p ≫= f).
Proof. apply (goes_yields Q []). Qed.

Lemma goes_done {A} (a : A) : goes [] (Done a).
Proof. intros rest. constructor. Qed.

Lemma goes_stop {A} ms s : no_fuel s -> goes ms (Stop s : P A).
Proof. intros Hs rest. by constructor. Qed.

Lemma goes_sys c : goes [] (sys c).
Proof. intros rest. constructor. intros r. constructor. Qed.

Lemma goes_fail {A} ms msg : goes ms (fail msg : P A).
Proof. intros rest. constructor. intros r. by constructor. Qed.

Lemma goes_say s : goes [] (say s).
Proof. unfold say. apply quiet_bind; [apply goes_sys|intros _; apply goes_done]. Qed.

Lemma goes_lift {A} (m : outcome A) : m <> Crash NoFuel -> goes [] (lift m).
Proof. intros Hm. destruct m; [apply goes_done|]. apply goes_stop. intros [= ->]. done. Qed.

Lemma goes_int x : goes [] (int x).
Proof. apply goes_lift. unfold c_int. by destruct (_ && _). Qed.

Lemma goes_read {A} (l : list A) i : goes [] (lift (c_read l i)).
Proof. apply goes_lift. unfold c_read. destruct (0 <=? i); [|done]. by destruct (l !! Z.to_nat i). Qed.

Lemma goes_write {A} (l : list A) i x : goes [] (lift (c_write l i x)).
Proof. apply goes_lift. unfold c_write. by destruct (_ && _). Qed.

Lemma goes_trunc d : goes [] (trunc d).
Proof. unfold trunc. destruct (to_int d); [apply goes_done|by apply goes_stop]. Qed.

Lemma goes_fmt s : goes [] (fmt s).
Proof. unfold fmt. destruct (_ <? _)%nat; [apply goes_done|by apply goes_stop]. Qed.

Lemma goes_meet m : (rank < m)%nat -> goes [m] (MPI_Barrier m).
Proof. intros Hm rest. unfold attends. rewrite list.filter_cons, decide_True by done. constructor. intros l. constructor. Qed.

Lemma goes_bcast v : goes [n] (MPI_Bcast n v).
Proof. intros rest. unfold attends. rewrite list.filter_cons, decide_True by done. constructor. intros l. destruct l as [|[] l]; constructor. Qed.

Lemma goes_each {A} (l : list A) (f : A -> P unit) : (forall x, goes [] (f x)) -> goes [] (for_each l f).
Proof. intros Hf. induction l as [|x l IH]; cbn [for_each]; [apply goes_done|]. apply quiet_bind; [apply Hf|by intros _]. Qed.

(** The process attends [ms] and its results have the property [Q]. *)
Definition does {A} (ms : list nat) (Q : A -> Prop) (p : P A) : Prop := goes ms p /\ yields Q p.

Lemma does_bind {A B} (Q : A -> Prop) (Q' : B -> Prop) ms ms' (p : P A) (f : A -> P B) :
  does ms Q p -> (forall a, Q a -> does ms' Q' (f a)) -> does (ms ++ ms') Q' (p ≫= f).
Proof.
  intros [Hp HQ] Hf. split; [eapply goes_yields; [exact Hp|exact HQ|]; intros a Ha; by apply Hf|]. eapply yields_bind; [exact HQ|]. intros a Ha. by apply Hf.
Qed.

Lemma does_quiet {A B} (Q : A -> Prop) (Q' : B -> Prop) ms (p : P A) (f : A -> P B) : does [] Q p -> (forall a, Q a -> does ms Q' (f a)) -> does ms Q' (p ≫= f).
Proof. apply (does_bind Q Q' []). Qed.

Lemma does_goes {A B} (Q' : B -> Prop) ms ms' (p : P A) (f : A -> P B) : goes ms p -> (forall a, does ms' Q' (f a)) -> does (ms ++ ms') Q' (p ≫= f).
Proof. intros Hp Hf. apply (does_bind (fun _ => True)); [split; [done|apply yields_any]|auto]. Qed.

Lemma does_then {A B} (Q' : B -> Prop) ms (p : P A) (f : A -> P B) : goes [] p -> (forall a, does ms Q' (f a)) -> does ms Q' (p ≫= f).
Proof. apply (does_goes Q' []). Qed.

Lemma does_ret {A} (Q : A -> Prop) a : Q a -> does [] Q (Done a).
Proof. intros Ha. split; [apply goes_done|done]. Qed.

Lemma does_stop {A} (Q : A -> Prop) ms s : no_fuel s -> does ms Q (Stop s).
Proof. intros Hs. split; [by apply goes_stop|done]. Qed.

Lemma does_fail {A} (Q : A -> Prop) ms msg : does ms Q (fail msg).
Proof. split; [apply goes_fail|by intros r]. Qed.

Lemma does_weaken {A} (Q Q' : A -> Prop) ms (p : P A) : does ms Q p -> (forall a, Q a -> Q' a) -> does ms Q' p.
Proof.
  intros [Hp HQ] H'. split; [done|]. clear Hp. induction p; cbn in *; auto.
Qed.

Lemma does_thread {A S} (Q : S -> Prop) (l : list A) (f : A -> S -> P S) s : Q s -> (forall x s, Q s -> does [] Q (f x s)) -> does [] Q (thread l f s).
Proof. revert s. induction l as [|x l IH]; intros s Hs Hf; cbn [thread]; [by apply does_ret|]. eapply does_quiet; [by apply Hf|]. intros s' Hs'. by apply IH. Qed.

Ltac hush :=
  repeat first
    [ progress intros
    | apply goes_sys | apply goes_say | apply goes_fail | apply goes_int | apply goes_read | apply goes_write | apply goes_trunc | apply goes_fmt
    | apply goes_done | apply goes_each | (apply goes_stop; discriminate)
    | match goal with
      | |- goes [] (mbind _ _) => apply quiet_bind
      | |- goes _ (if ?b then _ else _) => destruct b
      | |- goes _ (match ?b with _ => _ end) => destruct b
      end ].

(** *** Items *)

Lemma goes_one_item g dirs create path k : goes [] (one_item rank g dirs create path k).
Proof. unfold one_item, tell_count, tell. hush. Qed.

Lemma goes_one_collective g dirs create path k : goes [] (one_collective rank g dirs create path k).
Proof. unfold one_collective, tell. hush. Qed.

Lemma goes_helper g dirs create collective path k : goes [] (helper rank g dirs create collective path k).
Proof.
  unfold helper, collective_helper, create_remove_items_helper. destruct collective; apply goes_each; intros i; (apply quiet_bind; [apply goes_int|intros j]);
    [apply goes_one_collective|apply goes_one_item].
Qed.

Lemma goes_items g dirs create collective fuel cd path d : 0 <= cd -> (1 <= fuel)%nat -> (Z.to_nat (ints g depth + 2 - cd) <= fuel)%nat ->
  goes [] (create_remove_items rank fuel g cd dirs create collective path d).
Proof.
  revert cd path d. induction fuel as [|fuel IH]; intros cd path d Hcd H1 Hf; [lia|]. cbn [create_remove_items].
  destruct (Z.eqb_spec cd 0) as [->|]; [|destruct (Z.leb_spec cd (ints g depth)); [|apply goes_done]].
  - apply quiet_bind; [destruct (_ || _); [apply goes_helper|apply goes_done]|intros _]. destruct (Z.ltb_spec 0 (ints g depth)); [|apply goes_done]. apply IH; lia.
  - apply goes_each. intros i. repeat (apply quiet_bind; [first [apply goes_int|apply goes_fmt|destruct (_ || _); [apply quiet_bind; [apply goes_int|intros j; apply goes_helper]|apply goes_done]]|intros]).
    apply IH; lia.
Qed.

Lemma goes_all_items g dirs create collective : 0 <= ints g depth -> goes [] (all_items rank g dirs create collective).
Proof. intros Hd. apply goes_items; [lia|unfold fuel_of; lia|unfold fuel_of; lia]. Qed.

Lemma goes_climb g fuel p item : 1 <= ints g branch_factor -> 0 < p -> (Z.to_nat p <= fuel)%nat -> goes [] (climb fuel g p item).
Proof.
  intros Hb. revert p item. induction fuel as [|fuel IH]; intros p item Hp Hf; [lia|]. cbn [climb]. apply quiet_bind; [apply goes_fmt|intros s].
  destruct (Z.ltb_spec (ints g branch_factor) p); [|apply goes_done]. destruct (Z.eqb_spec (ints g branch_factor) 0); [lia|].
  assert (1 <= Z.quot (p - 1) (ints g branch_factor)) by (apply Z.quot_le_lower_bound; lia).
  assert (Z.quot (p - 1) (ints g branch_factor) <= p - 1) by (apply Z.quot_le_upper_bound; nia). apply IH; lia.
Qed.

Lemma goes_stat g random dirs : 1 <= ints g branch_factor -> goes [] (mdtest_stat rank g random dirs).
Proof.
  intros Hb. unfold mdtest_stat, items_to_stat, leaf_items. apply quiet_bind; [hush|intros stop]. apply goes_each. intros i. unfold stat_item.
  apply quiet_bind; [hush|intros k]. apply quiet_bind; [hush|intros k']. apply quiet_bind; [unfold tell_count; hush|intros _].
  apply quiet_bind; [apply goes_fmt|intros item]. destruct (_ =? 0); [by apply goes_stop|]. cbv zeta.
  apply quiet_bind; [destruct (Z.ltb_spec 0 (Z.quot k' (ints g items_per_dir))); [by apply goes_climb|apply goes_done]|intros it]. unfold tell. hush.
Qed.

(** *** The tree *)

Lemma goes_tree g create fuel cd path d : 0 <= ints g depth -> 0 <= cd -> (1 <= fuel)%nat -> (Z.to_nat (ints g depth + 2 - cd) <= fuel)%nat ->
  goes [] (create_remove_directory_tree rank fuel g create cd path d).
Proof.
  intros Hd. revert cd path d. induction fuel as [|fuel IH]; intros cd path d Hcd H1 Hf; [lia|]. cbn [create_remove_directory_tree]. cbv zeta. unfold tell.
  destruct (Z.eqb_spec cd 0) as [->|]; [|destruct (Z.leb_spec cd (ints g depth)); [|apply goes_done]].
  - do 2 (apply quiet_bind; [hush|intros]). apply quiet_bind; [|intros _; hush]. apply IH; lia.
  - apply goes_each. intros i. do 6 (apply quiet_bind; [hush|intros]). apply quiet_bind; [apply IH; lia|intros _; hush].
Qed.

Lemma goes_whole_tree g create : 0 <= ints g depth -> goes [] (whole_tree rank g create).
Proof. intros Hd. apply goes_tree; [done|lia|unfold fuel_of; lia|unfold fuel_of; lia]. Qed.

(** *** The tests *)

(** The int globals and the communicator are those of [g]. *)
Definition kept g (g' : globals D) : Prop := ints g' = ints g /\ testcomm g' = testcomm g.
Definition walkable g : Prop := 0 <= ints g depth /\ 1 <= ints g branch_factor.

Lemma kept_refl g : kept g g.
Proof. done. Qed.

Lemma kept_trans g1 g2 g3 : kept g1 g2 -> kept g2 g3 -> kept g1 g3.
Proof. intros [H1 H2] [H3 H4]. split; congruence. Qed.

Lemma kept_on g g' x : kept g g' -> on g' x = on g x.
Proof. intros [E _]. unfold on. by rewrite E. Qed.

Lemma kept_walkable g g' : kept g g' -> walkable g -> walkable g'.
Proof. intros [E _]. unfold walkable. by rewrite E. Qed.

Lemma does_store g0 g x s : kept g0 g -> does [] (kept g0) (store x s g).
Proof. intros Hk. apply does_then; [apply goes_fmt|]. intros s'. by apply does_ret. Qed.

Lemma does_store_task g0 g x r k t f : kept g0 g -> does [] (kept g0) (store_task x g r k t f).
Proof. intros Hk. unfold store_task, neighbour. apply does_then; [hush|]. intros y. by apply does_store. Qed.

Lemma does_item_names g0 g r t : kept g0 g -> does [] (kept g0) (set_item_names g r t).
Proof.
  intros Hk. unfold set_item_names. destruct (on g shared_file); [by apply does_ret|]. cbv zeta.
  repeat (eapply does_quiet; [by apply does_store_task|intros ? ?]). by apply does_store_task.
Qed.

Lemma does_unique_dirs g0 g r t : kept g0 g -> does [] (kept g0) (set_unique_dirs g r t).
Proof.
  intros Hk. unfold set_unique_dirs. destruct (negb _); [by apply does_ret|]. cbv zeta.
  repeat (eapply does_quiet; [by apply does_store_task|intros ? ?]). by apply does_store.
Qed.

Lemma goes_chdir p msg : goes [] (chdir_or p msg).
Proof. unfold chdir_or. hush. Qed.

Lemma does_collective g0 g create dirs t : walkable g0 -> kept g0 g -> does [] (kept g0) (collective_create_remove rank g create dirs t).
Proof.
  intros Hw Hk. unfold collective_create_remove. eapply (does_quiet (kept g0)).
  - apply does_thread; [done|]. intros i g1 H1. eapply does_quiet; [by apply does_store|intros g2 H2]. apply does_then; [apply goes_fmt|intros temp].
    apply does_then; [apply goes_chdir|intros _]. eapply does_quiet; [by apply does_item_names|intros g3 H3].
    eapply does_quiet; [by apply does_unique_dirs|intros g4 H4]. apply does_then; [|intros _; by apply does_ret].
    apply goes_all_items. apply (kept_walkable _ _ H4 Hw).
  - intros g1 H1. apply does_then; [apply goes_chdir|intros _]. eapply does_quiet; [by apply does_store|intros g2 H2].
    eapply does_quiet; [by apply does_item_names|intros g3 H3]. by apply does_unique_dirs.
Qed.

Lemma does_set_entry g0 g it k v : kept g0 g -> does [] (kept g0) (set_entry it k v g).
Proof.
  intros Hk. unfold set_entry. do 3 (apply does_then; [first [apply goes_read|apply goes_write]|intros ?]). by apply does_ret.
Qed.

Lemma does_times g0 g what it k t : kept g0 g -> does [] (kept g0) (calculate_times rank g what it k t).
Proof.
  intros Hk. unfold calculate_times, rate. do 3 (apply does_then; [hush|intros ?]; eapply does_quiet; [by apply does_set_entry|intros ? ?]).
  apply does_then; [hush|]. intros _. by apply does_ret.
Qed.

Lemma goes_offset t i : goes [] (offset_timers t i).
Proof. unfold offset_timers. hush. Qed.

Lemma goes_wtime t i : goes [] (wtime t i).
Proof. unfold wtime. hush. Qed.

Lemma goes_barriers g : (rank < testcomm g)%nat -> goes (when (on g barriers) [testcomm g]) (if_barriers g).
Proof. intros Hm. unfold if_barriers. destruct (on g barriers); [by apply goes_meet|apply goes_done]. Qed.

Lemma goes_enter g opt t i : (rank < testcomm g)%nat ->
  goes (when (on g unique_dir_per_task) (match opt with MK_UNI_DIR => [testcomm g] | _ => [] end)) (enter_phase g opt t i).
Proof.
  intros Hm. unfold enter_phase, unique_dir_access. destruct (on g unique_dir_per_task); [|apply goes_done]. cbn [when].
  rewrite <- (app_nil_r (match opt with MK_UNI_DIR => _ | _ => _ end)). apply goes_bind; [|intros _; destruct (negb _); [apply goes_offset|apply goes_done]].
  destruct opt; try apply goes_chdir. rewrite <- (app_nil_r [_]). apply goes_bind; [by apply goes_meet|intros _; apply goes_chdir].
Qed.

Lemma goes_leave g t : (rank < testcomm g)%nat -> goes [] (leave_tests g t).
Proof.
  intros Hm. unfold leave_tests, unique_dir_access. apply quiet_bind; [destruct (_ && _); [apply goes_chdir|apply goes_done]|intros _].
  destruct (_ && _); [apply goes_offset|apply goes_done].
Qed.

(** What follows the create phase is the same in both tests. *)
Lemma does_phases g0 g dirs it first (t : list D) ntasks what : walkable g0 -> kept g0 g -> (rank < testcomm g0)%nat ->
  does (when (on g0 barriers) [testcomm g0] ++ when (on g0 barriers) [testcomm g0] ++ when (on g0 barriers) [testcomm g0]) (kept g0)
    (_ ← if_barriers g;
     t ← wtime t 1;
     t ← (if on g stat_only then
       t ← enter_phase g STAT_SUB_DIR t 1; _ ← mdtest_stat rank g (0 <? ints g random_seed) dirs; Done t
     else Done t);
     _ ← if_barriers g;
     t ← wtime t 2;
     t ← (if on g remove_only then enter_phase g RM_SUB_DIR t 2 else Done t);
     g ← (if on g remove_only then
       if on g collective_creates then
         if root rank then collective_create_remove rank g false dirs ntasks else Done g
       else _ ← all_items rank g dirs false false; Done g
     else Done g);
     _ ← if_barriers g;
     t ← wtime t 3;
     t ← leave_tests g t;
     calculate_times rank g what it first t).
Proof.
  intros Hw Hk Hm. assert (Hb : forall g, kept g0 g -> goes (when (on g0 barriers) [testcomm g0]) (if_barriers g)).
  { intros g' Hk'. rewrite <- (kept_on g0 g') by done. destruct Hk' as [_ E]. rewrite <- E. apply goes_barriers. lia. }
  assert (Hm' : (rank < testcomm g)%nat) by (destruct Hk as [_ ->]; done). assert (Hw' := kept_walkable _ _ Hk Hw).
  apply does_goes; [by apply Hb|intros _]. apply does_then; [apply goes_wtime|intros t1]. apply does_then.
  { destruct (on g stat_only); [|apply goes_done]. apply quiet_bind; [|intros t2; apply quiet_bind; [apply goes_stat, Hw'|intros _; apply goes_done]].
    assert (He := goes_enter g STAT_SUB_DIR t1 1 Hm'). by destruct (on g unique_dir_per_task). }
  intros t2. apply does_goes; [by apply Hb|intros _]. apply does_then; [apply goes_wtime|intros t3]. apply does_then.
  { destruct (on g remove_only); [|apply goes_done]. assert (He := goes_enter g RM_SUB_DIR t3 2 Hm'). by destruct (on g unique_dir_per_task). }
  intros t4. eapply (does_quiet (kept g0)).
  { destruct (on g remove_only); [|by apply does_ret]. destruct (on g collective_creates).
    - destruct (root rank); [by apply does_collective|by apply does_ret].
    - apply does_then; [apply goes_all_items, Hw'|intros _; by apply does_ret]. }
  intros g1 H1. rewrite <- (app_nil_r (when _ _)). apply does_goes; [by apply Hb|intros _]. apply does_then; [apply goes_wtime|intros t5].
  apply does_then; [apply goes_leave; destruct H1 as [_ ->]; done|intros t6]. by apply does_times.
Qed.

Lemma does_directory_test g it ntasks : walkable g -> (rank < testcomm g)%nat -> does (dir_meetings g (testcomm g)) (kept g) (directory_test rank g it ntasks).
Proof.
  intros Hw Hm. unfold directory_test, dir_meetings. apply does_goes; [by apply goes_meet|intros _]. apply does_then; [apply goes_wtime|intros t].
  apply (does_bind (fun x => kept g x.1)).
  - destruct (on g create_only); [|by apply does_ret]. cbn [when]. rewrite <- (app_nil_r (when _ _)). apply does_goes; [by apply (goes_enter g MK_UNI_DIR)|intros t'].
    eapply (does_quiet (kept g)); [|intros g1 H1; by apply does_ret]. destruct (on g collective_creates).
    + destruct (root rank); [by apply does_collective|by apply does_ret].
    + apply does_then; [apply goes_all_items, Hw|intros _; by apply does_ret].
  - intros [g1 t1] H1. by apply (does_phases g g1).
Qed.

Lemma does_file_test g it ntasks : walkable g -> (rank < testcomm g)%nat -> does (file_meetings g (testcomm g)) (kept g) (file_test rank g it ntasks).
Proof.
  intros Hw Hm. unfold file_test, file_meetings. apply does_goes; [by apply goes_meet|intros _]. apply does_then; [apply goes_wtime|intros t].
  apply (does_bind (fun x => kept g x.1)).
  - destruct (on g create_only); [|by apply does_ret]. cbn [when]. apply does_goes; [by apply (goes_enter g MK_UNI_DIR)|intros t'].
    rewrite <- (app_nil_r (when _ _)). apply (does_bind (kept g)).
    + destruct (on g collective_creates); [|by apply does_ret]. cbn [when]. eapply (does_quiet (kept g)).
      * destruct (root rank); [by apply does_collective|by apply does_ret].
      * intros g1 H1. rewrite <- (app_nil_r [_]). apply does_goes; [|intros _; by apply does_ret]. destruct H1 as [_ ->]. by apply goes_meet.
    + intros g1 H1. apply does_then; [apply goes_all_items, (kept_walkable _ _ H1 Hw)|intros _; by apply does_ret].
  - intros [g1 t1] H1. by apply (does_phases g g1).
Qed.

(** *** An iteration *)

Lemma test_meetings_kept g g' m : kept g g' -> test_meetings g' m = test_meetings g m.
Proof. intros Hk. unfold test_meetings, dir_meetings, file_meetings. by rewrite !(kept_on g g') by done. Qed.

Lemma dir_meetings_kept g g' m : kept g g' -> dir_meetings g' m = dir_meetings g m.
Proof. intros Hk. unfold dir_meetings. by rewrite !(kept_on g g') by done. Qed.

Lemma file_meetings_kept g g' m : kept g g' -> file_meetings g' m = file_meetings g m.
Proof. intros Hk. unfold file_meetings. by rewrite !(kept_on g g') by done. Qed.

Lemma test_meetings_all g m : Forall (eq m) (test_meetings g m).
Proof.
  unfold test_meetings, dir_meetings, file_meetings, when. repeat match goal with |- context [if ?b then _ else _] => destruct b end;
    repeat (constructor; [done|]); constructor.
Qed.

Lemma goes_absent {A} ms (p : P A) : Forall (fun m => m <= rank)%nat ms -> goes [] p -> goes ms p.
Proof.
  intros Hms Hp rest. replace (attends rank ms) with (@nil op); [apply Hp|]. symmetry. induction Hms as [|m ms Hm Hms IH]; [done|].
  rewrite attends_cons, decide_False by lia. done.
Qed.

Lemma goes_delay g : (rank < testcomm g)%nat -> goes (when (on g pre_delay) [testcomm g]) (if on g pre_delay then delay_secs rank g (ints g pre_delay) else Done tt).
Proof.
  intros Hm. destruct (on g pre_delay); [|apply goes_done]. unfold delay_secs. apply quiet_bind; [hush|intros _]. by apply goes_meet.
Qed.

Lemma does_run_tests g i j : walkable g -> 1 <= i -> testcomm g = Z.to_nat i -> does (test_meetings g (testcomm g)) (kept g) (run_tests rank g i j).
Proof.
  intros Hw Hi Hc. unfold run_tests, rankZ. destruct (Z.ltb_spec (Z.of_nat rank) i) as [Hlt|Hge].
  2: { split; [|done]. apply goes_absent; [|apply goes_done]. eapply Forall_impl; [|apply test_meetings_all]. intros m <-. lia. }
  assert (Hm : (rank < testcomm g)%nat) by lia.
  eapply does_quiet; [by apply does_item_names|intros g1 H1]. eapply does_quiet; [by apply does_unique_dirs|intros g2 H2].
  eapply does_quiet; [by apply does_store|intros g3 H3]. unfold test_meetings. rewrite <- !(kept_on g g3) by done. destruct H3 as [E3 C3].
  assert (K3 : kept g g3) by done. assert (W3 := kept_walkable _ _ K3 Hw). rewrite <- C3 in Hm |- *. apply (does_bind (kept g)).
  - destruct (_ && _); [|by apply does_ret]. cbn [when]. apply does_goes; [by apply goes_delay|intros _]. rewrite <- (dir_meetings_kept g g3) by done.
    eapply does_weaken; [by apply does_directory_test|]. intros g4 H4. by eapply kept_trans.
  - intros g4 H4. assert (K : kept g3 g4) by (destruct H4; split; congruence). rewrite <- (kept_on g3 g4) by done.
    destruct (on g4 files_only); [|by apply does_ret]. cbn [when]. rewrite <- (kept_on g3 g4 pre_delay) by done. destruct K as [E4 C4]. rewrite <- C4 in Hm |- *.
    apply does_goes; [by apply goes_delay|intros _]. rewrite <- (file_meetings_kept g g4) by done.
    eapply does_weaken; [apply does_file_test; [apply (kept_walkable _ _ H4 Hw)|done]|]. intros g5 H5. by eapply kept_trans.
Qed.

Lemma does_build g0 g (create : bool) i : walkable g0 -> kept g0 g -> on g0 unique_dir_per_task && on g0 collective_creates = false ->
  does [] (fun x => kept g0 x.1 /\ x.2 = i) (build_trees rank n g create i).
Proof.
  intros Hw Hk Hno. unfold build_trees. rewrite !(kept_on g0 g) by done. assert (Hd := proj1 (kept_walkable _ _ Hk Hw)).
  destruct (on g0 unique_dir_per_task); cbn [andb] in Hno.
  - rewrite Hno. cbn. apply does_then; [by apply goes_whole_tree|intros _; by apply does_ret].
  - destruct (root rank); [apply does_then; [by apply goes_whole_tree|intros _; by apply does_ret]|by apply does_ret].
Qed.

Lemma does_tree_phase g0 g (create : bool) i j : walkable g0 -> kept g0 g -> on g0 unique_dir_per_task && on g0 collective_creates = false ->
  does (when (on g0 (if create then create_only else remove_only)) [n]) (fun x => kept g0 x.1 /\ x.2 = i) (tree_phase rank n g create i j).
Proof.
  intros Hw Hk Hno. unfold tree_phase. rewrite (kept_on g0 g) by done. destruct (on g0 (if create then create_only else remove_only)).
  - cbn [when]. apply does_then; [apply goes_sys|intros s]. eapply does_quiet; [by apply does_build|]. intros [g1 i1] [H1 E1]. cbn in E1. subst i1.
    rewrite <- (app_nil_r [n]). apply does_goes; [by apply goes_meet|intros _]. apply does_then; [apply goes_sys|intros e]. cbv zeta.
    eapply does_quiet; [by apply (does_set_entry g0)|intros g2 H2]. apply does_then; [hush|intros _]. by apply does_ret.
  - eapply does_quiet; [by apply (does_set_entry g0)|intros g2 H2]. by apply does_ret.
Qed.

Lemma does_iteration g0 g i j : walkable g0 -> kept g0 g -> on g0 unique_dir_per_task && on g0 collective_creates = false -> 1 <= i -> testcomm g0 = Z.to_nat i ->
  does (iteration_meetings n g0 (testcomm g0)) (fun x => kept g0 x.1 /\ x.2 = i) (iteration rank n j (g, i)).
Proof.
  intros Hw Hk Hno Hi Hc. unfold iteration, iteration_meetings. apply does_then; [hush|intros _]. eapply does_quiet; [by apply (does_store g0)|intros g1 H1].
  apply does_then; [unfold ensure_dir; hush|intros _]. apply does_goes; [by apply goes_meet|intros _]. apply does_then; [apply goes_chdir|intros _].
  apply does_goes; [by apply goes_meet|intros _]. eapply does_bind; [by apply (does_tree_phase g0 g1 true)|]. intros [g2 i2] [H2 E2]. cbn in E2, H2. subst i2. cbv zeta.
  do 4 (eapply does_quiet; [by apply (does_store g0)|intros ? ?]). eapply does_quiet; [by apply (does_store g0)|]. intros gs Hs. apply does_then; [destruct (negb _); [apply goes_chdir|apply goes_done]|intros _].
  apply (does_bind (kept g0)).
  - rewrite <- (test_meetings_kept g0 gs) by done. assert (K4 := Hs). destruct K4 as [E4 C4]. rewrite <- C4.
    eapply does_weaken; [apply does_run_tests; [by apply (kept_walkable g0 gs)|done|congruence]|]. intros g5 ?. by eapply kept_trans.
  - intros gt Ht. apply does_then; [destruct (negb _); [apply goes_chdir|apply goes_done]|intros _]. apply does_goes; [by apply goes_meet|intros _].
    by apply (does_tree_phase g0 gt false).
Qed.

(** *** The loop over the tasks *)

Definition alike g (g' : globals D) : Prop := forall x, flag x = true -> ints g' x = ints g x.

Lemma alike_on g g' x : alike g g' -> flag x = true -> on g' x = on g x.
Proof. intros Ha Hx. unfold on. by rewrite Ha. Qed.

Lemma alike_meetings g g' its m : alike g g' -> task_meetings n g' its m = task_meetings n g its m.
Proof.
  intros Ha. unfold task_meetings, iteration_meetings, test_meetings, dir_meetings, file_meetings. by rewrite !(alike_on g g' _ Ha) by done.
Qed.

Lemma alike_loop g g' fuel m i : alike g g' -> loop_meetings n fuel g' m i = loop_meetings n fuel g m i.
Proof.
  intros Ha. revert i. induction fuel as [|fuel IH]; intros i; [done|]. cbn [loop_meetings]. rewrite (alike_meetings g g') by done.
  destruct (c_int _); [|done]. by rewrite IH.
Qed.

Lemma alike_walkable g g' : alike g g' -> walkable g -> walkable g'.
Proof. intros Ha. unfold walkable. by rewrite !Ha by done. Qed.

Lemma kept_alike g g' : kept g g' -> alike g g'.
Proof. intros [E _] x _. by rewrite E. Qed.

Lemma goes_collect {A B} (l : list A) (f : A -> P B) : (forall x, goes [] (f x)) -> goes [] (collect l f).
Proof.
  intros Hf. induction l as [|x l IH]; cbn [collect]; [apply goes_done|]. apply quiet_bind; [apply Hf|intros y]. apply quiet_bind; [exact IH|intros ys; apply goes_done].
Qed.

Lemma goes_look all i : goes [] (look all i).
Proof. unfold look, defined. hush. Qed.

Lemma goes_row what k start l : goes [] (row what k start l).
Proof. unfold row. cbv zeta. hush. Qed.

Lemma goes_rows g its all : goes [] (summarize_rows n g its all).
Proof.
  unfold summarize_rows. destruct (summary_range g) as [start stop]. apply quiet_bind; [apply goes_each; intros i; destruct (on g barriers)|intros _].
  - apply quiet_bind; [apply goes_collect; intros j; unfold fastest; apply quiet_bind; [apply goes_look|intros x]; apply quiet_bind;
      [apply goes_collect; intros k; apply goes_look|intros l; apply goes_done]|intros maxes]. apply quiet_bind; [apply goes_read|intros f; apply goes_row].
  - apply quiet_bind; [apply goes_look|intros f]. apply quiet_bind; [apply goes_collect; intros k; apply goes_collect; intros j; apply goes_look|intros l].
    apply quiet_bind; [apply goes_int|intros k; apply goes_row].
  - apply goes_each. intros i. apply quiet_bind; [apply goes_look|intros f]. apply quiet_bind; [apply goes_collect; intros j; apply quiet_bind; [apply goes_read|intros r; apply goes_look]|intros l].
    apply goes_row.
Qed.

Lemma goes_summary g its : goes [n; n] (summarize_results rank n g its).
Proof.
  unfold summarize_results. apply quiet_bind; [apply goes_int|intros k]. apply quiet_bind; [apply goes_int|intros k']. destruct (_ <=? _); [by apply goes_stop|].
  apply (goes_bind [n] [n]); [by apply goes_meet|intros _]. intros rest. rewrite attends_cons, decide_True by done. constructor. intros l. destruct (root rank); [|constructor].
  assert (Hg : goes [] (_ ← say "SUMMARY"; summarize_rows n g its (flatten l))) by (apply quiet_bind; [apply goes_say|intros _; apply goes_rows]). apply Hg.
Qed.

Lemma does_iterations g0 its s i : walkable g0 -> kept g0 s.1 -> s.2 = i -> on g0 unique_dir_per_task && on g0 collective_creates = false -> 1 <= i -> testcomm g0 = Z.to_nat i ->
  does (concat (replicate (length its) (iteration_meetings n g0 (testcomm g0)))) (fun x => kept g0 x.1 /\ x.2 = i) (thread its (iteration rank n) s).
Proof.
  intros Hw. revert s. induction its as [|j its IH]; intros s Hk Hs Hno Hi Hc; cbn [thread length replicate concat]; [by apply does_ret|].
  destruct s as [g i']. cbn in Hs, Hk. subst i'. eapply does_bind; [by apply (does_iteration g0)|]. intros s' [Hk' Hs']. by apply IH.
Qed.

Lemma goes_run_tasks fuel m g i : walkable g -> on g unique_dir_per_task && on g collective_creates = false -> 1 <= stride m -> (1 <= fuel)%nat ->
  (1 <= i -> (Z.to_nat (Z.of_nat n + 2 - i) <= fuel)%nat) -> goes (loop_meetings n fuel g m i) (_ ← run_tasks rank n fuel m g i; if root rank then say "finished" else Done tt).
Proof.
  intros Hw Hno Hs. revert g i Hw Hno. induction fuel as [|fuel IH]; intros g i Hw Hno H1 Hf; [lia|]. cbn [run_tasks loop_meetings].
  destruct (Z.leb_spec i (last m)); [|cbn; hush]. destruct (Z.leb_spec i (Z.of_nat n)); [|cbn; hush]. cbn [andb].
  destruct (Z.ltb_spec i 1) as [|Hi]; [by apply goes_stop|]. unfold task_meetings. rewrite proc_bind_assoc, <- app_assoc. apply goes_bind; [by apply goes_meet|intros _]. cbv zeta.
  set (g1 := set_testcomm (Z.to_nat i) g). rewrite proc_bind_assoc. apply quiet_bind; [hush|intros _]. rewrite proc_bind_assoc. apply quiet_bind; [hush|intros _].
  rewrite proc_bind_assoc, <- app_assoc.
  assert (Hits : does (concat (replicate (length (upto (iterations m))) (iteration_meetings n g1 (testcomm g1)))) (fun x => kept g1 x.1 /\ x.2 = i) (thread (upto (iterations m)) (iteration rank n) (g1, i)))
    by (by apply does_iterations).
  unfold upto in Hits at 1. rewrite length_seqZ in Hits. eapply goes_yields; [exact (proj1 Hits)|exact (proj2 Hits)|]. intros [g2 i2] [K2 E2]. cbn in K2, E2. subst i2.
  rewrite proc_bind_assoc. apply goes_bind; [apply goes_summary|intros _]. rewrite proc_bind_assoc.
  unfold int, lift, c_int. set (x := (if (i =? 1) && (1 <? stride m) then 0 else i) + stride m). destruct ((- 2 ^ 31 <=? x) && (x <? 2 ^ 31)); [|by apply goes_stop]. rewrite bind_done.
  assert (Ha : alike g g2) by (intros y Hy; destruct K2 as [-> _]; done). rewrite <- (alike_loop g g2) by done.
  assert (Hx : i + 1 <= x) by (unfold x; destruct (Z.eqb_spec i 1), (Z.ltb_spec 1 (stride m)); cbn [andb]; lia).
  apply IH; [by apply (alike_walkable g)|by rewrite !(alike_on g g2 _ Ha) by done|lia|lia].
Qed.

(** *** Options *)

Lemma alike_refl g : alike g g.
Proof. done. Qed.

Lemma alike_trans g1 g2 g3 : alike g1 g2 -> alike g2 g3 -> alike g1 g3.
Proof. intros H1 H2 x Hx. by rewrite H2, H1. Qed.

Lemma alike_set g g' x v : alike g g' -> alike (set x v g) (set x v g').
Proof. intros Ha y Hy. cbn. destruct (decide (y = x)); [done|]. by apply Ha. Qed.

Lemma alike_other g g' x v : flag x = false -> alike g g' -> alike g (set x v g').
Proof. intros Hf Ha y Hy. cbn. destruct (decide (y = x)) as [->|]; [congruence|]. by apply Ha. Qed.

(** The result of the options is the one that is read without the system. *)
Definition as_read (r : option (globals D * settings)) (x : option (globals D * settings)) : Prop :=
  match x, r with Some (g', m'), Some (g1, m1) => m' = m1 /\ alike g1 g' | None, None => True | _, _ => False end.

Lemma does_dirpath s g0 g : alike g0 g -> does [] (alike g0) (parse_dirpath s g).
Proof.
  intros Ha. unfold parse_dirpath. cbv zeta. apply does_then; [apply goes_sys|intros r]. destruct (rc r =? 0); [apply does_fail|].
  destruct (_ <? _); [by apply does_stop|]. apply does_ret. intros x Hx. by apply (alike_other g0 g path_count).
Qed.

Lemma does_seed optarg : does (when (bool_decide (optarg = None)) [n; n]) (fun _ => True)
  (match optarg with None => t ← sys Time; _ ← MPI_Barrier n; MPI_Bcast n (i32 (rc t)) | Some _ => Done (Startup.atoi (default "" optarg)) end).
Proof.
  split; [|apply yields_any]. destruct optarg; [apply goes_done|]. cbn [when]. rewrite bool_decide_eq_true_2 by done. apply quiet_bind; [apply goes_sys|intros t].
  apply (goes_bind [n] [n]); [by apply goes_meet|intros _; apply goes_bcast].
Qed.

Lemma does_option c optarg g0 g m : alike g0 g ->
  does (if decide (c = "h"%char) then [] else when (bool_decide (c = "R"%char) && bool_decide (optarg = None)) [n; n]) (as_read (read_option c optarg g0 m)) (parse_option rank n c optarg g m).
Proof.
  intros Ha. assert (Hset : forall x v, does [] (as_read (Some (set x v g0, m))) (Done (Some (set x v g, m)))) by (intros x v; apply does_ret; split; [done|by apply alike_set]).
  assert (Hother : forall x v, flag x = false -> does [] (as_read (Some (g0, m))) (Done (Some (set x v g, m)))) by (intros x v Hx; apply does_ret; split; [done|by apply alike_other]).
  assert (Hnum : forall m', does [] (as_read (Some (g0, m'))) (Done (Some (g, m')))) by (intros m'; by apply does_ret).
  assert (HR : c = "R"%char -> does (when (bool_decide (optarg = None)) [n; n]) (as_read (Some (g0, m)))
    (seed ← (match optarg with None => t ← sys Time; _ ← MPI_Barrier n; MPI_Bcast n (i32 (rc t)) | Some _ => Done (Startup.atoi (default "" optarg)) end);
     seed ← int (seed + rankZ rank); Done (Some (set random_seed seed g, m)))).
  { intros _. rewrite <- (app_nil_r (when _ _)). eapply does_bind; [apply does_seed|intros seed _]. apply does_then; [apply goes_int|intros seed'].
    by apply Hother. }
  assert (Hd : does [] (as_read (Some (g0, m))) (g ← parse_dirpath (default "" optarg) g; Done (Some (g, m)))).
  { eapply does_quiet; [by apply does_dirpath|]. intros g' Hg'. by apply does_ret. }
  assert (Hv : does [] (as_read (Some (g0, m))) (v ← int (ints g verbose + 1); Done (Some (set verbose v g, m)))) by (apply does_then; [apply goes_int|intros v; by apply Hother]).
  assert (Hh : does [] (as_read None) (_ ← print_help; Done None)) by (apply does_then; [unfold print_help; hush|intros _; by apply does_ret]).
  unfold parse_option, read_option. cbv zeta.
  destruct c as [[] [] [] [] [] [] [] []]; first [apply Hset|apply Hnum|exact Hd|exact Hv|exact Hh|by apply Hother|exact (HR eq_refl)].
Qed.

Lemma does_options args g0 g m : alike g0 g -> does (option_meetings n args) (as_read (read_options args g0 m)) (parse_options rank n args g m).
Proof.
  revert g0 g m. induction args as [|[c optarg] args IH]; intros g0 g m Ha; cbn [option_meetings read_options parse_options]; [by apply does_ret|].
  assert (Ho := does_option c optarg g0 g m Ha). destruct (decide (c = "h"%char)) as [->|Hc].
  - eapply does_quiet; [exact Ho|]. intros [x|] Hx; [by destruct x|]. by apply does_ret.
  - eapply does_bind; [exact Ho|]. intros [[g' m']|] Hx; cbn in Hx; destruct (read_option c optarg g0 m) as [[g1 m1]|] eqn:E; try done.
    + destruct Hx as [-> Hx]. by apply IH.
    + exfalso. unfold read_option in E. by destruct c as [[] [] [] [] [] [] [] []].
Qed.

(** *** The start *)

Lemma alike_all_phases g0 g : alike g0 g -> alike (all_phases g0) (all_phases g).
Proof.
  intros Ha. unfold all_phases. rewrite !(alike_on g0 g _ Ha) by done. destruct (_ && _); [|done]. by repeat apply alike_set.
Qed.

Lemma alike_both_kinds g0 g : alike g0 g -> alike (both_kinds g0) (both_kinds g).
Proof.
  intros Ha. unfold both_kinds. cbv zeta. rewrite !(alike_on g0 g _ Ha) by done.
  assert (Hb : forall c : bool, alike (if c then set dirs_only 1 (set files_only 1 g0) else g0) (if c then set dirs_only 1 (set files_only 1 g) else g))
    by (intros []; [by repeat apply alike_set|done]).
  specialize (Hb (negb (on g0 dirs_only) && negb (on g0 files_only))). rewrite (alike_on _ _ shared_file Hb) by done. destruct (on _ shared_file); [by apply alike_set|done].
Qed.

Lemma does_refuse b msg : does [] (fun _ => b = false) (refuse b msg).
Proof. unfold refuse. destruct b; [apply does_fail|by apply does_ret]. Qed.

Lemma does_valid g : does [] (fun g' => g' = both_kinds g /\ 0 <= ints g' depth) (valid_tests rank n g).
Proof.
  unfold valid_tests. cbv zeta. do 7 (eapply does_quiet; [apply does_refuse|intros _ _]). eapply does_quiet; [apply does_refuse|intros u Hd].
  do 2 (eapply does_quiet; [apply does_refuse|intros _ _]). apply does_ret. split; [done|]. by apply Z.ltb_ge.
Qed.

Lemma does_count g0 g : alike g0 g -> does [] (alike g0) (count_items g).
Proof.
  intros Ha. unfold count_items, count_dirs. apply does_then; [cbv zeta; hush|intros k]. cbv zeta.
  assert (H1 : forall x v, flag x = false -> alike g0 (set x v (set num_dirs_in_tree k g))) by (intros; by apply alike_other, alike_other).
  assert (H2 : forall x v y u, flag x = false -> flag y = false -> alike g0 (set x v (set y u (set num_dirs_in_tree k g)))) by (intros; by apply alike_other, H1).
  destruct (0 <? _). { apply does_then; [apply goes_int|intros j]. apply does_ret. by apply H1. }
  destruct (on _ leaf_only).
  - destruct (_ <=? 1); [apply does_ret; by apply H1|]. apply does_then; [apply goes_trunc|intros p]. apply does_then; [apply goes_trunc|intros j]. apply does_ret. by apply H2.
  - destruct (_ =? 0); [by apply does_stop|]. apply does_then; [apply goes_int|intros j]. apply does_ret. by apply H2.
Qed.

Lemma goes_shuffle k l : goes [] (shuffle k l).
Proof.
  revert l. induction k as [|k IH]; intros l; cbn [shuffle]; [apply goes_done|]. cbv zeta. apply quiet_bind; [apply goes_sys|intros r].
  do 4 (apply quiet_bind; [hush|intros ?]). apply IH.
Qed.

Lemma does_rand g0 g : alike g0 g -> does [] (alike g0) (init_rand g).
Proof.
  intros Ha. unfold init_rand, items_to_stat, leaf_items. destruct (0 <? _); [|by apply does_ret]. apply does_then; [apply goes_sys|intros _].
  apply does_then; [hush|intros stop]. apply does_then; [apply goes_sys|intros r]. destruct (_ && _); [by apply does_stop|].
  apply does_then; [apply goes_shuffle|intros l]. by apply does_ret.
Qed.

Lemma does_path g0 g : alike g0 g -> does [] (alike g0) (choose_path rank g).
Proof.
  intros Ha. unfold choose_path. assert (Hs : forall s, does [] (alike g0) (store testdirpath s g)) by (intros s; apply does_then; [apply goes_fmt|intros s']; by apply does_ret).
  destruct (_ =? 0).
  - apply does_then; [apply goes_sys|intros c]. eapply does_quiet; [apply Hs|intros g1 H1]. apply does_ret. by apply alike_other.
  - destruct (filenames g !! _); [apply Hs|by apply does_stop].
Qed.

Lemma does_set_up g0 g m : alike g0 g -> 1 <= ints g0 branch_factor ->
  does [] (fun x => x.2 = final_settings n m /\ alike (both_kinds (all_phases g0)) x.1 /\ walkable x.1) (set_up rank n g m).
Proof.
  intros Ha Hb. unfold set_up. cbv zeta. eapply does_quiet; [apply does_valid|]. intros g1 [-> Hd].
  assert (A1 := alike_both_kinds _ _ (alike_all_phases _ _ Ha)). set (k0 := both_kinds (all_phases g0)) in *.
  assert (Hk : walkable k0).
  { split; [by rewrite <- (A1 depth eq_refl)|]. unfold k0, both_kinds, all_phases. cbv zeta.
    repeat match goal with |- context [if ?b then _ else _] => destruct b end; done. }
  eapply does_quiet; [by apply does_count|intros g2 H2]. eapply does_quiet; [by apply does_rand|intros g3 H3]. apply does_then; [unfold init_buffer; hush|intros _].
  eapply does_quiet; [by apply does_path|intros g4 H4]. apply does_then; [unfold display_freespace, show_file_system_size; hush|intros _].
  apply does_then; [hush|intros _]. apply does_then; [unfold ensure_dir; hush|intros _]. apply does_then; [apply goes_sys|intros h].
  destruct (_ =? -1); [by apply does_stop|]. fold (final_settings n m). apply does_then; [apply goes_sys|intros t]. destruct (_ =? 0); [apply does_fail|].
  unfold start_names. apply (does_quiet (alike k0)).
  - apply (does_quiet (alike k0)); [apply does_then; [apply goes_fmt|intros s; by apply does_ret]|intros g5 H5; by apply does_ret].
  - intros g5 H5. apply does_ret. split; [done|]. split; [done|]. by apply (alike_walkable k0).
Qed.

(** *** main *)

Definition greeting : list op := match rank with O => replicate (n - 1) OHear | S _ => [OTell] end.

Lemma follows_hear_all k h v rest : follows no_fuel (replicate k OHear ++ rest) (hear_all k h v : P Z) rest.
Proof. revert v. induction k as [|k IH]; intros v; cbn [hear_all replicate app]; constructor. intros w. apply IH. Qed.

Lemma follows_main fuel argv args : existsb (fun a => bool_decide (a = "-h") || bool_decide (a = "--help")) (tail argv) = false ->
  (forall g m, read_options (D := D) args initial default_settings = Some (g, m) ->
     1 <= stride m /\ 1 <= ints g branch_factor /\ on g unique_dir_per_task && on g collective_creates = false) -> (n + 2 <= fuel)%nat ->
  follows no_fuel (greeting ++ attends rank (main_meetings (D := D) n fuel args)) (main rank n fuel argv args) [].
Proof.
  intros Harg Hopt Hfuel. unfold main, main_meetings. rewrite Harg. unfold count_tasks_per_node. rewrite proc_bind_assoc. constructor. intros h.
  destruct (negb _); [constructor; intros r; by constructor|].
  assert (Hg : forall tasks, follows no_fuel (attends rank (option_meetings n args ++
      match read_options (D := D) args initial default_settings with None => [] | Some (g, m) => let m := final_settings n m in loop_meetings n fuel (both_kinds (all_phases g)) m (first m) end) ++ [])
    (if tasks =? 0 then Stop (Mpi.Faulty ArithUB) else
      _ ← (if root rank then _ ← say "started"; say "Command line used" else Done tt);
      x ← parse_options rank n args initial default_settings;
      match x with None => Done tt | Some (g, m) => run_program rank n fuel g m end) []).
  { intros tasks. generalize (@nil op). change (goes (option_meetings n args ++
      match read_options (D := D) args initial default_settings with None => [] | Some (g, m) => let m := final_settings n m in loop_meetings n fuel (both_kinds (all_phases g)) m (first m) end)
    (if tasks =? 0 then Stop (Mpi.Faulty ArithUB) else
      _ ← (if root rank then _ ← say "started"; say "Command line used" else Done tt);
      x ← parse_options rank n args initial default_settings;
      match x with None => Done tt | Some (g, m) => run_program rank n fuel g m end)).
    destruct (tasks =? 0); [by apply goes_stop|]. apply quiet_bind; [hush|intros _].
    destruct (does_options args initial initial default_settings (alike_refl _)) as [Ho Hy]. eapply goes_yields; [exact Ho|exact Hy|].
    intros [[g m]|] Hx; cbn in Hx; destruct (read_options args initial default_settings) as [[g0 m0]|] eqn:E; try done; [|apply goes_done].
    destruct Hx as [-> Ha]. destruct (Hopt g0 m0 eq_refl) as (Hs & Hb & Hno). cbv zeta. unfold run_program.
    destruct (does_set_up g0 g m0 Ha Hb) as [Hgo Hyi]. eapply (quiet_yields _ _ _ _ Hgo Hyi). intros [g1 m1] (Em & A1 & W1). cbn [fst snd] in Em, A1, W1. subst m1.
    rewrite <- (alike_loop _ g1) by done. apply goes_run_tasks; [done| | | |].
    - rewrite !(alike_on _ _ _ A1) by done. unfold both_kinds, all_phases. cbv zeta.
      repeat match goal with |- context [if ?b then _ else _] => destruct b end; done.
    - unfold final_settings. by destruct (last m0 =? 0).
    - lia.
    - lia. }
  change (follows no_fuel (greeting ++ attends rank ([n] ++ (option_meetings n args ++
      match read_options (D := D) args initial default_settings with None => [] | Some (g, m) => let m := final_settings n m in loop_meetings n fuel (both_kinds (all_phases g)) m (first m) end)))
    (((if root rank then hear_all (n - 1) (text h) 1 else Tell (Text (text h)) (Done 1)) ≫= MPI_Bcast n) ≫= fun tasks =>
      if tasks =? 0 then Stop (Mpi.Faulty ArithUB) else
      _ ← (if root rank then _ ← say "started"; say "Command line used" else Done tt);
      x ← parse_options rank n args initial default_settings;
      match x with None => Done tt | Some (g, m) => run_program rank n fuel g m end) []).
  rewrite proc_bind_assoc. eapply follows_bind.
  - unfold greeting, root. destruct rank as [|r]; cbn [Nat.eqb]; [apply follows_hear_all|]. cbn [app]. constructor. constructor.
  - intros count. rewrite attends_app, <- (app_nil_r (attends rank (option_meetings _ _ ++ _))). eapply follows_bind; [apply goes_bcast|exact Hg].
Qed.

End Attending.

(** ** Every run *)

Section Sizes.
Import Mdtest Groups Meetings.
Context {D : Type} `{Double D} (n : nat) (Hn : (0 < n)%nat).

Lemma when_all {A} (Q : A -> Prop) c l : Forall Q l -> Forall Q (when c l).
Proof. by destruct c. Qed.

Lemma task_sizes (g : globals D) its m : (0 < m <= n)%nat -> Forall (fun m => 0 < m <= n)%nat (task_meetings n g its m).
Proof.
  intros Hm. unfold task_meetings. assert (Hi : Forall (fun m => 0 < m <= n)%nat (iteration_meetings n g m)).
  { unfold iteration_meetings. repeat (first [apply Forall_app_2|apply when_all|apply Forall_singleton; lia]). }
  apply Forall_app_2; [apply Forall_singleton; lia|]. apply Forall_app_2; [|repeat constructor; lia].
  induction its as [|k IH]; [constructor|]. cbn [replicate concat]. by apply Forall_app_2.
Qed.

Lemma main_sizes fuel args : Forall (fun m => 0 < m <= n)%nat (main_meetings (D := D) n fuel args).
Proof.
  unfold main_meetings. apply Forall_app_2; [apply Forall_singleton; lia|]. apply Forall_app_2.
  - induction args as [|[c o] args IH]; [constructor|]. cbn [option_meetings]. destruct (decide _); [constructor|].
    apply Forall_app_2; [apply when_all; repeat constructor; lia|done].
  - destruct (read_options args initial default_settings) as [[g m]|]; [|constructor]. cbv zeta. generalize (final_settings n m) as k. intros k. generalize (first k) as i.
    induction fuel as [|fuel IH]; intros i; cbn [loop_meetings]; [constructor|]. destruct (Z.leb_spec i (last k)); [|constructor].
    destruct (Z.leb_spec i (Z.of_nat n)); [|constructor]. cbn [andb]. destruct (Z.ltb_spec i 1); [constructor|].
    apply Forall_app_2; [apply task_sizes; lia|]. destruct (c_int _); [apply IH|constructor].
Qed.

End Sizes.

Section Runs.
Import Mdtest Groups Meetings.

(** C35 Whatever the system answers and in whatever order they run, the processes of mdtest never
    wait for each other for ever.  For every number of processes and all arguments with a
    positive stride and branching factor, and without -c and -u together: every schedule ends;
    where it ends, all processes have left main or one of them has stopped all; and the
    recursions over the tree, the climbing and the loop over the numbers of tasks end within their
    fuel. *)
Theorem mdtest_never_deadlocks {D W} `{Double D} (exec : nat -> call D -> W -> answer D * W) n fuel argv args w es c : (0 < n)%nat -> (n + 2 <= fuel)%nat ->
  (forall g m, read_options (D := D) args initial default_settings = Some (g, m) ->
     1 <= stride m /\ 1 <= ints g branch_factor /\ on g unique_dir_per_task && on g collective_creates = false) ->
  run exec (launch n (fun r => main r n fuel argv args) w) es = Some c ->
  Acc (fun c' c => exists e, step exec c e = Some c') c /\
  ((forall e, step exec c e = None) -> (forall i p, procs c !! i = Some p -> p = Done tt) \/ exists i s, procs c !! i = Some (Stop s)) /\
  (forall i s, procs c !! i = Some (Stop s) -> s <> Mpi.Faulty NoFuel).
Proof.
  intros Hn Hfuel Hopt Hr. assert (Ha : agreed n no_fuel c).
  { eapply run_agreed; [|exact Hr]. destruct (existsb (fun a => bool_decide (a = "-h") || bool_decide (a = "--help")) (tail argv)) eqn:E.
    - apply (launch_agreed n no_fuel false _ []); [done|constructor|]. intros i Hi. unfold main. rewrite E. cbn [app]. unfold print_help.
      assert (Hg : goes i [] (for_each help say : proc (call D) (answer D) (value D) unit)) by (apply goes_each; intros s; apply goes_say). apply (Hg []).
    - apply (launch_agreed n no_fuel true _ (main_meetings (D := D) n fuel args)); [done|by apply main_sizes|]. intros i Hi. by apply follows_main. }
  split; [apply groups_schedules_end|]. split.
  - intros Hno. destruct (groups_progress exec n no_fuel c Ha) as [H1|[H1|(e & c' & H1)]]; [by right|by left|]. by rewrite Hno in H1.
  - intros i s Hi. by apply (agreed_stop n no_fuel c i s).
Qed.

End Runs.

(** ** Two runs *)

Module Driver.
Import Mdtest Groups Integers.

(** Every call succeeds. *)
Definition always (i : nat) (c : call Z) (w : unit) : answer Z * unit :=
  (mkAnswer (match c with Write _ n => n | Gethostname | Statfs _ => 0 | _ => 3 end) "" 0, w).

(** The first event of a list that can happen, again and again. *)
Fixpoint pick (es : list event) (c : @config (call Z) (answer Z) (value Z) unit) : option (event * @config (call Z) (answer Z) (value Z) unit) :=
  match es with [] => None | e :: es' => match step always c e with Some c' => Some (e, c') | None => pick es' c end end.
Fixpoint drive (k n : nat) (c : @config (call Z) (answer Z) (value Z) unit) : list event :=
  match k with
  | O => []
  | S k' => match pick ((Run <$> seq 0 n) ++ (Together <$> seq 1 n)) c with Some (e, c') => e :: drive k' n c' | None => [] end
  end.

(** Why a process stopped all. *)
Definition stopped_by (p : proc (call Z) (answer Z) (value Z) unit) : option Mpi.stop := match p with Stop s => Some s | _ => None end.

Definition plain : list (ascii * option string) := [("d"%char, Some "/t"); ("n"%char, Some "2"); ("b"%char, Some "2"); ("z"%char, Some "1"); ("I"%char, Some "0")].
Definition fewer : list (ascii * option string) := [("f"%char, Some "1"); ("l"%char, Some "1"); ("n"%char, Some "1")].

Definition start (args : list (ascii * option string)) := launch 2 (fun r => main r 2 4 ["mdtest"] args) tt.

End Driver.

Section Examples.
Import Mdtest Groups Integers Driver.

Lemma mdtest_never_deadlocks_witness : exists c, run always (start plain) (drive 40 2 (start plain)) = Some c /\
  Acc (fun c' c => exists e, step always c e = Some c') c /\ forall i s, procs c !! i = Some (Stop s) -> s <> Mpi.Faulty NoFuel.
Proof.
  destruct (run always (start plain) (drive 40 2 (start plain))) as [c|] eqn:E.
  - exists c. split; [reflexivity|].
    assert (Hopt : forall g m, Meetings.read_options (D := Z) plain initial default_settings = Some (g, m) ->
      1 <= stride m /\ 1 <= ints g branch_factor /\ on g unique_dir_per_task && on g collective_creates = false).
    { intros g m Hgm. injection Hgm as <- <-. split; [vm_compute; congruence|]. split; [vm_compute; congruence|reflexivity]. }
    destruct (mdtest_never_deadlocks always 2 4 ["mdtest"] plain tt (drive 40 2 (start plain)) c ltac:(lia) ltac:(lia) Hopt E) as (H1 & _ & H3). by split.
  - exfalso. assert (Hs : (match run always (start plain) (drive 40 2 (start plain)) with Some _ => true | None => false end) = true) by (vm_compute; reflexivity).
    rewrite E in Hs. discriminate.
Defined.

(** With fewer tasks than processes, the summary reads rates that were never set. *)
Lemma fewer_tasks_uninitialised :
  (fun c => stopped_by <$> procs c !! 0%nat) <$> run always (start fewer) (drive 1000 2 (start fewer)) = Some (Some (Some (Mpi.Faulty Uninitialised))).
Proof. vm_compute. reflexivity. Qed.

(** With -u and a stride between neighbours, a process works in the tree of its neighbour with
    the names of its own tree, which do not exist there. *)
Definition strided : globals Z :=
  set unique_dir_per_task 1 (set nstride 1 (set depth 1 (set items_per_dir 1 (set items 2 (write testdir "/t" initial))))).

Lemma neighbour_names :
  ((fun g => texts g unique_chdir_dir) <$> (Trace.trace easy (set_unique_dirs (write base_tree_name "mdtest_tree.0" strided) 0 2)).2) = Some "/t/mdtest_tree.1.0" /\
  omap Trace.makes (Trace.trace easy (all_items 0 (write base_tree_name "mdtest_tree.0" strided) true true false)).1 = ["dir.0"; "mdtest_tree.0.1/dir.1"] /\
  omap Trace.makes (Trace.trace easy (whole_tree 1 (write base_tree_name "mdtest_tree.1" strided) true)).1 = ["mdtest_tree.1.0/"; "mdtest_tree.1.0/mdtest_tree.1.1/"].
Proof. vm_compute. done. Qed.

End Examples.

Section Corners.
Import Mdtest Groups Meetings.
Context {D : Type} `{Double D} (n : nat).
Abbreviation P := (proc (call D) (answer D) (value D)).

(** With -c and -u, rank 0 counts the trees with the variable that holds the number of tasks and
    goes on with the number of processes in it; the others keep theirs. *)
Lemma collective_unique_overwrites r (g : globals D) create i : on g unique_dir_per_task = true -> on g collective_creates = true ->
  yields (fun x => x.2 = if (r =? 0)%nat then Z.of_nat n else i) (build_trees r n g create i).
Proof.
  intros Hu Hc. unfold build_trees. rewrite Hu, Hc. cbn [andb negb]. unfold root. destruct (r =? 0)%nat; [|done].
  eapply yields_bind; [apply yields_any|]. done.
Qed.

(** A stride of zero repeats the first number of tasks for ever: no fuel is enough. *)
Lemma stride_zero_meetings fuel (g : globals D) m i : stride m = 0 -> 1 <= i < 2 ^ 31 -> i <= last m -> i <= Z.of_nat n ->
  loop_meetings n (S fuel) g m i = task_meetings n g (Z.to_nat (iterations m)) (Z.to_nat i) ++ loop_meetings n fuel g m i.
Proof.
  intros Hs Hi Hl Hn. cbn [loop_meetings]. destruct (Z.leb_spec i (last m)); [|lia]. destruct (Z.leb_spec i (Z.of_nat n)); [|lia]. cbn [andb].
  destruct (Z.ltb_spec i 1); [lia|]. rewrite Hs, Z.add_0_r. rewrite andb_false_r. by rewrite c_int_ok by lia.
Qed.

(** The test directory of a path directly below the root is the empty string, for which statfs
    fails. *)
Lemma root_child_statfs : directory_above "/scratch" = "".
Proof. reflexivity. Qed.

(** An empty path between two '@' is counted and not stored: a rank with its number reads past
    the names. *)
Lemma empty_path_uninitialised (g : globals D) : ints g path_count = 3 -> filenames g = words "a@@b" "" -> choose_path 2 g = Stop (Mpi.Faulty Uninitialised) :> P (globals D).
Proof. intros Hp Hf. unfold choose_path. rewrite Hp, Hf. reflexivity. Qed.

(** A line end separates paths but is not counted: the names are written past their array. *)
Lemma newline_overruns (g : globals D) : ints g path_count = 0 ->
  exists f, parse_dirpath ("a" +:+ String newline "b") g = Call (Malloc 8) f /\ forall r, rc r <> 0 -> f r = Stop (Mpi.Faulty OutOfBounds) :> P (globals D).
Proof.
  intros Hp. unfold parse_dirpath. rewrite Hp. eexists. split; [reflexivity|]. intros r Hr. cbn. by destruct (Z.eqb_spec (rc r) 0).
Qed.

End Corners.
